(* ===== verification/_CoqProject ===== *)
-Q . S2P
Prelude.v
PhysMemory.v
Volume.v
VolumeThreads.v
BootSector.v
FatEntry.v
DirEntry.v
LowLevel.v
Fat.v
FatFiles.v
FatDirs.v
FatMove.v
FatRemove.v
NonContiguous.v
Cpu.v
Task.v
Scheduler.v
Sync.v
Spin.v
Hardware.v
ContextSwitch.v
Interrupts.v
Paging.v
Allocator.v
Pci.v
VirtQueue.v
VirtioBlock.v
BlockInit.v
Ansi.v
Graphics.v
TextBuffer.v
Console.v
Text.v
Paths.v
Shell.v
Loader.v
Boot.v
