(* ===== verification/Prelude.v ===== *)
(** * A verification development for ors, an experimental x86_64 OS in Rust

    ors (src/) is a UEFI loader (src/ors-loader), types shared with the kernel
    (src/ors-common) and a kernel (src/ors-kernel). The loader reads the kernel from
    the boot volume, makes a memory map and jumps to it. The kernel initialises its
    components in [kernel_main2], schedules tasks on priority queues, drives
    PCI and VirtIO block devices, caches their sectors, has a FAT32 file system on
    them, and runs a shell on a graphical console.

    The development is a shallow embedding: functions of the code are functions
    here, a [&mut self] is a state that is passed on, [Result] and panics are values of
    [outcome], and what several CPUs and tasks do is a transition system. Integers are
    in [Z], with the width written out where they wrap or are checked: the kernel is
    built with overflow checks and debug assertions, so an overflow is a [Panic].
    Names are those of the source; a doc comment says where they differ.

    ** Files

    The order is the one of the dependencies.

    - Prelude: outcomes, the state monad [M] and its specifications [ends] and [runs],
      checked arithmetic, slices, little-endian words, lemmas on lists.
    - PhysMemory: [BitmapFrameManager] (phys_memory.rs) and its start from a memory map.
    - Volume: [BufferedVolume] (fs/volume.rs), the cache of sectors with buffers that are
      recycled, over a class for volumes; VolumeThreads: the same cache used by several
      tasks at a time, step by step.
    - BootSector, FatEntry, DirEntry: the decoding and encoding of the structures on
      the disk (fs/fat/boot_sector.rs, fat_entry.rs, dir_entry.rs).
    - LowLevel: the FAT, clusters and chains (fs/fat/low_level.rs).
    - Fat: directories, files, readers and writers (fs/fat.rs); FatFiles, FatDirs,
      FatMove and FatRemove: what they do to the contents of files and to directories.
    - NonContiguous: the hash table of src/ors-common/src/non_contiguous.rs.
    - Cpu: interrupt locks and the table of CPU states (cpu.rs, [Cli] of interrupts.rs).
    - Task: [TaskQueue] (task.rs); Scheduler: [TaskScheduler] and the hand-over of
      contexts as a transition system over the CPUs (task.rs, context.rs, asm.s).
    - Sync: [Mutex] and [Queue] (sync/mutex.rs, sync/queue.rs), in the modules [Mutex] and
      [Queue]; Spin: [Spin], [Once] and [Lazy] (sync/spin.rs, once.rs, lazy.rs) on CPUs
      that take interrupts.
    - Hardware: port and memory-mapped I/O and small crates as classes; bytes in memory.
    - ContextSwitch: [switch_context] of asm.s, instruction by instruction, and the
      contexts and tasks of context.rs and task.rs it works on.
    - Interrupts: descriptor table, local and I/O APIC, ACPI timer (interrupts.rs,
      x64.rs, acpi.rs).
    - Paging: the identity mapping (paging.rs); Allocator: the heap (allocator.rs).
    - Pci: configuration space, scan, MSI-X (devices/pci.rs).
    - VirtQueue, VirtioBlock: the virtqueue as a data structure, the configuration
      registers, the block driver and its volume (devices/virtio, fs/volume/virtio.rs);
      BlockInit: the queue as bytes in frames, [Block::from_pci_device] and
      [Block::scan].
    - Ansi: escape codes and colors (console/ansi.rs, theme.rs); Graphics: frame
      buffers (graphics.rs, graphics/frame_buffer.rs, rect.rs, color.rs, and
      src/ors-common/src/frame_buffer.rs); TextBuffer: fonts and text buffers
      (graphics/font.rs, text_buffer.rs); Console: screen, output and input tasks,
      keyboard (console.rs, console/screen.rs, kbd.rs).
    - Text, Paths, Shell: what the shell uses of the standard library, its paths, its
      line editor and its commands (shell.rs, print.rs, devices/qemu.rs).
    - Loader: [efi_main] with the ELF loader and the memory map (src/ors-loader).
    - Boot: [kernel_main2] over all components (main.rs, segmentation.rs, the
      [initialize] functions and their statics).

    ** Theorems

    Each doc comment of a main theorem starts with its number.

    - Storage. The sector cache is a plain disk for every sequence of requests, over
      any reliable volume and over the VirtIO block driver, virtqueue and device; a
      commit is durable. Tasks that share it never make it panic or block each other, and see one disk unless
      one asks for a sector that waits to be written back ([renamed_buffer_lost]). Allocation and release of clusters do what they should on
      the table and end on every table; a boot sector that is accepted and whose areas fit keeps clusters apart. Appending
      extends a file or frees what it took; what was written is read, also through
      the command lines of the shell. Long names survive encoding and decoding;
      creating, listing, moving and removing files and making directories agree on what a
      directory holds, and leave all other clusters alone; they fail only for a name that is taken or cannot be
      stored, or when no cluster is free ([no_room]), and then it is said what the directories hold;
      removing a directory frees the clusters of the whole tree below it.
    - Memory. The frame manager is a first-fit allocator and starts with exactly the
      frames of the memory map; live allocations of the heap never overlap and keep every byte, although the
      free lists are linked through the blocks next to them; the page
      tables translate as [as_phys_addr] says; the loader puts the kernel where no
      allocation reaches it.
    - Concurrency. Every task is in one place; no two CPUs run on one stack until the
      mark of the saved context (behind it they can: [Scheduler.stack_shared_after_mark],
      [ContextSwitch.iret_frame_overwritten]); a switch makes progress; the assembly
      returns to its caller with all registers and starts new tasks as the calling
      convention wants. Mutexes exclude and neither mutexes nor queues lose wake-ups;
      spin locks and lazy statics do not deadlock with interrupts.
    - Devices. The virtqueue is a set of requests, in memory that [VirtQueue::new]
      prepares; the scan of PCI ends, follows every route through the bridges once and is full only when there are
      more routes than it has room for; interrupts are
      routed to the handlers.
    - Console and shell. The decoder inverts printing; the text buffer shows what a
      terminal shows although it draws only changes, and the console selects the colors and styles that a
      terminal with its own rules selects; the line editor is a line of
      text with a cursor; blits are clipped.
    - Start. [kernel_main2] uses no static before it is set, whatever the hardware
      says, panics only where the tables or devices make it ([hardware_starts]), and ends in a state from which
      the theorems on the scheduler start.

    Where the code does not do what it means to, a lemma shows the behaviour; these
    lemmas are under "Behaviours outside of these conditions" and the like.

    ** Fuel

    Loops that are not structural have fuel, and [Diverge] when it is used up. Where a
    theorem says that code returns, the fuel is enough, for these reasons: the search
    for frames visits each frame once; [fat_fuel] is the number of clusters plus one,
    and each turn of a loop over the table reaches another cluster; [dir_fuel]
    counts the slots of all clusters, three turns each; [remove] needs one
    more for each level of directories; a chain of descriptors and the used ring have
    no more than [queue_size] and [2 ^ 16] entries; the scan of PCI pushes a device per level,
    of which there are 32; a list of capabilities has at most 256 pointers, each visited
    once; a character is put at most twice, and a state of the decoder is left at
    most once per character. The waits for the ACPI timer have any fuel that the time
    suffices for. Loops for which no fuel is enough are shown as findings
    ([orphan_entry_diverges], [cyclic_capabilities_diverge], [empty_line_diverges]).

    ** Interfaces

    Crates, firmware and devices are type classes with laws from their
    documentation: [Volume], [X64Addr], [PageTableEntries], [BitField], [Heapless],
    [PortIO], [Mmio], [ConfigMechanism], [BlockDevice], [LegacyRegisters],
    [LegacyQueue], [IoApicDevice], [MpMcQueue], [SpinMutex], [SpinOnce], [GlyphSource],
    [PcKeyboard], [Processor], [Uefi], [Goblin], [SegmentTables], [AcpiCrate]. Concrete
    instances show that the laws can hold, and the theorems are applied to them.

    ** Not modelled

    - Output for debugging: logger, serial port, [trace!]; the handlers of exceptions and
      panics, which print and halt; tests; the build script; re-exports of crates.
    - Methods that the kernel never calls and that only forward to a crate
      ([SpinGuard::leak], [Once::wait], the unused page table mapper and the like).
    - The bases of FS and GS and a change of the page tables in a switch of contexts.
    - Requests of several tasks to one block device: [block_on] of VirtioBlock.v is the wait of the scheduler with the
      device and its interrupt, for a single user.
    - The memory model of the processor: steps of different CPUs interleave. Code under a
      spin lock is one step where Spin.v and the lock justify it.
    - The heap inside of other components: [Box] and [Vec] are values, and the frames the
      heap takes are not counted in Boot.v.
    - The parsing of ACPI tables, ELF files and font outlines, which crates do, and the
      mixing of colors in floating point, a parameter of TextBuffer.v. *)

From stdpp Require Export base tactics gmap numbers sorting functions list.
From Stdlib Require Export ZArith Lia.

#[global] Set Default Goal Selector "!".

(** ** Notations *)

Declare Scope rust_scope.
Delimit Scope rust_scope with rust.

(** The length of a slice as the [usize] the code computes with. *)
Abbreviation zlen l := (Z.of_nat (length l)) (only parsing).

(** ** Outcomes of Rust code

    [Ok] and [Err] are the two constructors of [Result]; [Panic] is a panic,
    which in this kernel halts the machine (an [assert!] or [debug_assert!]
    that fails, an index out of range, an [unwrap] of [None], an arithmetic
    overflow: the Makefile builds with [cargo build], so overflow checks and
    debug assertions are on); [Diverge] is a loop that has used up its fuel. *)
Inductive outcome (E A : Type) : Type :=
| Ok (a : A)
| Err (e : E)
| Panic
| Diverge.
Arguments Ok {E A} a.
Arguments Err {E A} e.
Arguments Panic {E A}.
Arguments Diverge {E A}.

(** A computation over a state [S]. The state reached is kept on an error
    too: what has been written before the error stays written. *)
Definition M (S E A : Type) : Type := S -> outcome E A * S.

Definition ret {S E A} (a : A) : M S E A := fun s => (Ok a, s).
Definition mfail {S E A} (e : E) : M S E A := fun s => (Err e, s).
Definition mpanic {S E A} : M S E A := fun s => (Panic, s).
Definition mdiverge {S E A} : M S E A := fun s => (Diverge, s).
Definition mget {S E} : M S E S := fun s => (Ok s, s).
Definition mput {S E} (s' : S) : M S E unit := fun _ => (Ok tt, s').

(** Sequencing, which is also what [?] does with an error. *)
Definition mbnd {S E A B} (m : M S E A) (k : A -> M S E B) : M S E B := fun s =>
  match m s with
  | (Ok a, s') => k a s'
  | (Err e, s') => (Err e, s')
  | (Panic, s') => (Panic, s')
  | (Diverge, s') => (Diverge, s')
  end.

(** [map_err] with [From::from], which [?] applies to an error. *)
Definition mmap_err {S E F A} (f : E -> F) (m : M S E A) : M S F A := fun s =>
  match m s with
  | (Ok a, s') => (Ok a, s')
  | (Err e, s') => (Err (f e), s')
  | (Panic, s') => (Panic, s')
  | (Diverge, s') => (Diverge, s')
  end.

(** A [Result] inspected by the code instead of propagated: [None] for an error. *)
Definition mok {S E F A} (m : M S E A) : M S F (option A) := fun s =>
  match m s with
  | (Ok a, s') => (Ok (Some a), s')
  | (Err _, s') => (Ok None, s')
  | (Panic, s') => (Panic, s')
  | (Diverge, s') => (Diverge, s')
  end.

(** [Option::unwrap], [expect], an index or a checked operation. *)
Definition munwrap {S E A} (o : option A) : M S E A :=
  match o with Some a => ret a | None => mpanic end.

(** A panic that is kept apart from the others: [e] says which. *)
Definition mexpect {S E A} (e : E) (o : option A) : M S E A :=
  match o with Some a => ret a | None => mfail e end.

(** A computation that has no errors, among others that have. *)
Definition infallible {S E A} (m : M S Empty_set A) : M S E A := mmap_err (fun e : Empty_set => match e with end) m.

(** [assert!] and [debug_assert!]. *)
Definition massert {S E} (b : bool) : M S E unit :=
  if b then ret tt else mpanic.

Notation "x <- m ;; k" := (mbnd m (fun x => k))
  (at level 20, m at level 99, k at level 200) : rust_scope.
Notation "' p <- m ;; k" := (mbnd m (fun x => match x with p => k end))
  (at level 20, p pattern, m at level 99, k at level 200) : rust_scope.
Notation "m ;;; k" := (mbnd m (fun _ => k))
  (at level 100, k at level 200, right associativity) : rust_scope.

(** ** Specifications of computations

    [ends m s Q R]: run from [s], the computation [m] neither panics nor runs
    out of fuel; it returns a value and a state in [Q], or an error and a state
    in [R]. [runs m s Q] is the case in which it returns without an error. *)
Definition ends {S E A} (m : M S E A) (s : S) (Q : A -> S -> Prop) (R : E -> S -> Prop) : Prop :=
  match m s with
  | (Ok a, s') => Q a s'
  | (Err e, s') => R e s'
  | _ => False
  end.

Definition runs {S E A} (m : M S E A) (s : S) (Q : A -> S -> Prop) : Prop :=
  ends m s Q (fun _ _ => False).

Definition is_ok {E A} (o : outcome E A) : bool := match o with Ok _ => true | _ => false end.

(** Running [c] before an error leaves the scope: the [drop] of a local. *)
Definition mcleanup {S E A} (m : M S E A) (c : M S E unit) : M S E A := fun s =>
  match m s with
  | (Err e, s') =>
      match c s' with
      | (Ok _, s'') | (Err _, s'') => (Err e, s'')
      | (Panic, s'') => (Panic, s'')
      | (Diverge, s'') => (Diverge, s'')
      end
  | r => r
  end.

(** A computation on one component of a pair. *)
Definition mfst {S T E A} (m : M S E A) : M (S * T) E A := fun st =>
  let '(o, s') := m st.1 in (o, (s', st.2)).

(** [Iterator::position]. *)
Fixpoint position {A} (p : A -> bool) (l : list A) : option nat :=
  match l with
  | [] => None
  | x :: t => if p x then Some O else S <$> position p t
  end.

(** [Vec::swap_remove] for an index in range. *)
Definition swap_remove {A} (i : nat) (l : list A) : list A :=
  match last l with
  | Some x => take (length l - 1) (<[i := x]> l)
  | None => l
  end.

(** ** Machine integers *)

(** A value of an unsigned type of [w] bits. *)
Definition unsigned (w z : Z) : Prop := (0 <= z < 2 ^ w)%Z.
Definition unsignedb (w z : Z) : bool := (0 <=? z)%Z && (z <? 2 ^ w)%Z.

(** [as] to a narrower unsigned type, and the [wrapping_] operations. *)
Definition wrap (w z : Z) : Z := (z mod 2 ^ w)%Z.

(** Checked arithmetic of a debug build: [None] is the overflow panic. *)
Definition checked (w z : Z) : option Z := if unsignedb w z then Some z else None.
Definition add_checked (w a b : Z) : option Z := checked w (a + b).
Definition sub_checked (w a b : Z) : option Z := checked w (a - b).
Definition mul_checked (w a b : Z) : option Z := checked w (a * b).

Abbreviation u8 := (unsigned 8).
Abbreviation u16 := (unsigned 16).
Abbreviation u32 := (unsigned 32).
Abbreviation u64 := (unsigned 64).

(** ** Slices

    [sub l i n] is [&l[i..i + n]] and [upd l i src] is
    [l[i..i + src.len()].copy_from_slice(src)]; [slice] and [splice] are the
    same with Rust's bounds check, [None] being the panic. *)
Definition sub {A} (l : list A) (i n : Z) : list A :=
  take (Z.to_nat n) (drop (Z.to_nat i) l).

Definition upd {A} (l : list A) (i : Z) (src : list A) : list A :=
  take (Z.to_nat i) l ++ src ++ drop (Z.to_nat i + length src) l.

Definition slice {A} (l : list A) (i n : Z) : option (list A) :=
  if ((0 <=? i) && (0 <=? n) && (i + n <=? zlen l))%Z then Some (sub l i n) else None.

Definition splice {A} (l : list A) (i : Z) (src : list A) : option (list A) :=
  if ((0 <=? i) && (i + zlen src <=? zlen l))%Z then Some (upd l i src) else None.

(** [l[i]] with its bounds check. *)
Definition index {A} (l : list A) (i : Z) : option A :=
  if (0 <=? i)%Z then l !! Z.to_nat i else None.

(** [l[i]] where the index is known to be in range, as a total function. *)
Definition at_ (l : list Z) (i : Z) : Z := default 0%Z (index l i).

(** ** Little-endian bytes: [uN::from_le_bytes] and [uN::to_le_bytes] *)
Fixpoint from_le_bytes (l : list Z) : Z :=
  match l with
  | [] => 0
  | b :: t => b + 256 * from_le_bytes t
  end%Z.

Fixpoint to_le_bytes (n : nat) (z : Z) : list Z :=
  match n with
  | O => []
  | S n => (z mod 256)%Z :: to_le_bytes n (z / 256)%Z
  end.

Abbreviation bytes_ok := (Forall (unsigned 8)).

(** ** Tactics *)

(** Case analysis on the boolean comparisons of the code. *)
Ltac case_cmp :=
  match goal with
  | |- context [(?a <? ?b)%Z] => destruct (Z.ltb_spec a b)
  | |- context [(?a <=? ?b)%Z] => destruct (Z.leb_spec a b)
  | |- context [(?a =? ?b)%Z] => destruct (Z.eqb_spec a b)
  | H : context [(?a <? ?b)%Z] |- _ => destruct (Z.ltb_spec a b)
  | H : context [(?a <=? ?b)%Z] |- _ => destruct (Z.leb_spec a b)
  | H : context [(?a =? ?b)%Z] |- _ => destruct (Z.eqb_spec a b)
  end.

(** Split hypotheses and close arithmetic. *)
Ltac zauto := simpl in *; try done; try lia; eauto with rust.

(** Bounds on a literal list of machine integers. *)
Ltac solve_bounds :=
  repeat first [apply Forall_nil_2 | apply Forall_cons_2]; unfold unsigned; lia.

Create HintDb rust discriminated.
Create Rewrite HintDb len.

#[export] Hint Rewrite @length_app @length_take @length_drop @length_replicate
  @length_insert @length_fmap @length_nil @length_cons : len.

Ltac len := autorewrite with len in *; simpl in *; try lia.

(** ** Lemmas: the monad *)

Lemma mbnd_ok {S E A B} (m : M S E A) (k : A -> M S E B) s a s' :
  m s = (Ok a, s') -> mbnd m k s = k a s'.
Proof. intros H. unfold mbnd. by rewrite H. Qed.

Lemma mbnd_err {S E A B} (m : M S E A) (k : A -> M S E B) s e s' :
  m s = (Err e, s') -> mbnd m k s = (Err e, s').
Proof. intros H. unfold mbnd. by rewrite H. Qed.

Lemma mbnd_panic {S E A B} (m : M S E A) (k : A -> M S E B) s s' :
  m s = (Panic, s') -> mbnd m k s = (Panic, s').
Proof. intros H. unfold mbnd. by rewrite H. Qed.

Lemma mbnd_inv_ok {S E A B} (m : M S E A) (k : A -> M S E B) s b s'' :
  mbnd m k s = (Ok b, s'') -> exists a s', m s = (Ok a, s') /\ k a s' = (Ok b, s'').
Proof. unfold mbnd. destruct (m s) as [[] s']; naive_solver. Qed.

Lemma mmap_err_ok {S E F A} (f : E -> F) (m : M S E A) s a s' :
  m s = (Ok a, s') -> mmap_err f m s = (Ok a, s').
Proof. intros H. unfold mmap_err. by rewrite H. Qed.

Section ends.
Context {S E A B : Type}.
Implicit Types (m : M S E A) (k : A -> M S E B) (s : S).

Lemma ends_bind m k s Q R :
  ends m s (fun a s' => ends (k a) s' Q R) R -> ends (mbnd m k) s Q R.
Proof. unfold ends, mbnd. by destruct (m s) as [[] ?]. Qed.

Lemma ends_mono m s (Q Q' : A -> S -> Prop) (R R' : E -> S -> Prop) :
  ends m s Q R -> (forall a s', Q a s' -> Q' a s') -> (forall e s', R e s' -> R' e s') ->
  ends m s Q' R'.
Proof. unfold ends. destruct (m s) as [[] ?]; naive_solver. Qed.

Lemma ends_ret (a : A) s (Q : A -> S -> Prop) (R : E -> S -> Prop) :
  Q a s -> ends (ret a) s Q R.
Proof. done. Qed.

Lemma ends_fail (e : E) s (Q : A -> S -> Prop) (R : E -> S -> Prop) :
  R e s -> ends (mfail e) s Q R.
Proof. done. Qed.

Lemma ends_unwrap (o : option A) a s (Q : A -> S -> Prop) (R : E -> S -> Prop) :
  o = Some a -> Q a s -> ends (munwrap o) s Q R.
Proof. by intros ->. Qed.

Lemma ends_runs m s (Q : A -> S -> Prop) (R : E -> S -> Prop) : runs m s Q -> ends m s Q R.
Proof. intros H. eapply ends_mono; [exact H|done|done]. Qed.

Lemma ends_returns m s (Q : A -> S -> Prop) (R : E -> S -> Prop) : ends m s Q R -> is_ok (m s).1 = true -> runs m s Q.
Proof. unfold runs, ends. by destruct (m s) as [[] ?]. Qed.

Lemma runs_ends_bind m k s Q0 Q R :
  runs m s Q0 -> (forall a s', Q0 a s' -> ends (k a) s' Q R) -> ends (mbnd m k) s Q R.
Proof. intros Hm Hk. apply ends_bind. eapply ends_mono; [exact Hm|exact Hk|done]. Qed.

Lemma runs_bind m k s Q0 Q :
  runs m s Q0 -> (forall a s', Q0 a s' -> runs (k a) s' Q) -> runs (mbnd m k) s Q.
Proof. apply runs_ends_bind. Qed.

Lemma runs_eq m' m s Q : m s = m' s -> runs m' s Q -> runs m s Q.
Proof. unfold runs, ends. by intros ->. Qed.

Lemma runs_mono m s (Q Q' : A -> S -> Prop) :
  runs m s Q -> (forall a s', Q a s' -> Q' a s') -> runs m s Q'.
Proof. intros H HQ. by eapply ends_mono. Qed.

Lemma runs_Ok m s Q : runs m s Q <-> exists a s', m s = (Ok a, s') /\ Q a s'.
Proof. unfold runs, ends. destruct (m s) as [[] ?]; naive_solver. Qed.

Lemma runs_map_err {F} (f : E -> F) m s Q : runs m s Q -> runs (mmap_err f m) s Q.
Proof. unfold runs, ends, mmap_err. by destruct (m s) as [[] ?]. Qed.

Lemma ends_map_err {F} (f : E -> F) m s Q (R : F -> S -> Prop) :
  ends m s Q (fun e => R (f e)) -> ends (mmap_err f m) s Q R.
Proof. unfold ends, mmap_err. by destruct (m s) as [[] ?]. Qed.

Lemma runs_cleanup m c s Q : runs m s Q -> runs (mcleanup m c) s Q.
Proof. unfold runs, ends, mcleanup. by destruct (m s) as [[] ?]. Qed.

Lemma runs_mok {F} m s (Q : option A -> S -> Prop) :
  runs m s (fun a s' => Q (Some a) s') -> runs (mok (F := F) m) s Q.
Proof. unfold runs, ends, mok. by destruct (m s) as [[] ?]. Qed.

End ends.

Section vec.
Context {A : Type}.
Implicit Types (p : A -> bool) (l : list A).

Lemma position_Some p l i :
  position p l = Some i -> exists x, l !! i = Some x /\ p x = true.
Proof.
  revert i. induction l as [|x l IH]; intros i; simpl; [done|]. destruct (p x) eqn:Hx.
  - intros [= <-]. by exists x.
  - destruct (position p l); [|done]. intros [= <-]. by apply IH.
Qed.

Lemma position_None p l : position p l = None <-> Forall (fun x => p x = false) l.
Proof.
  induction l as [|x l IH]; simpl; [done|]. rewrite Forall_cons.
  destruct (p x); [naive_solver|]. rewrite fmap_None. naive_solver.
Qed.

Lemma insert_Permutation l i x y : l !! i = Some x -> x :: <[i := y]> l ≡ₚ y :: l.
Proof.
  intros Hi. rewrite <- (take_drop_middle l i x Hi) at 2.
  rewrite insert_take_drop by (by eapply lookup_lt_Some).
  rewrite <- !Permutation_middle. apply Permutation_swap.
Qed.

Lemma swap_remove_Permutation l i x : l !! i = Some x -> x :: swap_remove i l ≡ₚ l.
Proof.
  intros Hi. destruct l as [|y l' _] using rev_ind; [done|]. unfold swap_remove.
  rewrite last_snoc, length_app. simpl.
  replace (length l' + 1 - 1)%nat with (length l') by lia.
  destruct (decide (i = length l')) as [->|Hne].
  - rewrite lookup_app_r, Nat.sub_diag in Hi by lia. simplify_eq/=.
    rewrite insert_app_r_alt, Nat.sub_diag by lia. rewrite take_app_length. simpl.
    apply Permutation_cons_append.
  - pose proof (lookup_lt_Some _ _ _ Hi) as Hlt. rewrite length_app in Hlt. simpl in Hlt.
    rewrite lookup_app_l in Hi by lia. rewrite insert_app_l by lia.
    rewrite take_app_length' by len. rewrite <- Permutation_cons_append.
    by apply insert_Permutation.
Qed.

End vec.

(** ** Lemmas: machine integers *)

Lemma unsignedb_spec w z : unsignedb w z = true <-> unsigned w z.
Proof. unfold unsignedb, unsigned. lia. Qed.

(** Concrete lists, by evaluation. *)
Lemma Forall_unsignedb w l : forallb (unsignedb w) l = true -> Forall (unsigned w) l.
Proof.
  intros Hl. apply Forall_forall. intros b Hb%list_elem_of_In. apply unsignedb_spec.
  by apply (proj1 (forallb_forall _ _) Hl).
Qed.

Lemma checked_Some w z : unsigned w z -> checked w z = Some z.
Proof. intros H. unfold checked. by rewrite (proj2 (unsignedb_spec w z) H). Qed.

Lemma checked_inv w z d : checked w z = Some d -> d = z /\ unsigned w z.
Proof.
  unfold checked. destruct (unsignedb w z) eqn:Hz; [|done]. intros [= <-]. split; [done|]. by apply unsignedb_spec.
Qed.

Lemma checked_None w z : ~ unsigned w z -> checked w z = None.
Proof.
  intros H. unfold checked. destruct (unsignedb w z) eqn:Hz; [|done].
  by apply unsignedb_spec in Hz.
Qed.

Lemma wrap_small w z : unsigned w z -> wrap w z = z.
Proof. intros H. by apply Z.mod_small. Qed.

Lemma wrap_unsigned w z : (0 <= w)%Z -> unsigned w (wrap w z).
Proof. intros H. apply Z.mod_pos_bound. lia. Qed.

(** Exhaustion over the 256 values of a byte. *)
Lemma u8_forall (P : Z -> bool) :
  forallb P (seqZ 0 256) = true -> forall b, u8 b -> P b = true.
Proof.
  intros H b Hb. apply (proj1 (forallb_forall _ _) H).
  apply list_elem_of_In, elem_of_seqZ. unfold unsigned in Hb. lia.
Qed.

(** ** Lemmas: slices *)

Section slices.
Context {A : Type}.
Implicit Types l src : list A.
Local Open Scope Z_scope.

Lemma length_sub l i n :
  0 <= i -> 0 <= n -> i + n <= zlen l -> zlen (sub l i n) = n.
Proof. intros. unfold sub. len. Qed.

Lemma length_upd l i src :
  0 <= i -> i + zlen src <= zlen l -> length (upd l i src) = length l.
Proof. intros. unfold upd. len. Qed.

Lemma lookup_upd l i src (j : nat) :
  0 <= i -> i + zlen src <= zlen l ->
  upd l i src !! j =
    if decide (i <= Z.of_nat j < i + zlen src) then src !! (j - Z.to_nat i)%nat else l !! j.
Proof.
  intros Hi Hl. unfold upd.
  destruct (decide (j < Z.to_nat i)%nat) as [Hj|Hj].
  - rewrite lookup_app_l by len. rewrite lookup_take_lt by lia.
    rewrite decide_False by lia. done.
  - rewrite lookup_app_r by len. len. rewrite Nat.min_l by lia. case_decide.
    + rewrite lookup_app_l by lia. done.
    + rewrite lookup_app_r by lia. rewrite lookup_drop. f_equal. lia.
Qed.

Lemma lookup_sub l i n (j : nat) :
  sub l i n !! j = if decide (Z.of_nat j < n) then l !! (Z.to_nat i + j)%nat else None.
Proof.
  unfold sub. case_decide.
  - rewrite lookup_take_lt by lia. by rewrite lookup_drop.
  - by rewrite lookup_take_ge by lia.
Qed.

Lemma sub_upd_same l i src :
  0 <= i -> i + zlen src <= zlen l -> sub (upd l i src) i (zlen src) = src.
Proof.
  intros Hi Hl. apply list_eq. intros j. rewrite lookup_sub, lookup_upd by done.
  repeat case_decide; try lia.
  - f_equal. lia.
  - by rewrite lookup_ge_None_2 by lia.
Qed.

Lemma sub_upd_same_n l i src n :
  n = zlen src -> 0 <= i -> i + zlen src <= zlen l -> sub (upd l i src) i n = src.
Proof. intros ->. apply sub_upd_same. Qed.

Lemma sub_upd_disjoint l i src j n :
  0 <= i -> i + zlen src <= zlen l -> 0 <= j -> 0 <= n ->
  j + n <= i \/ i + zlen src <= j ->
  sub (upd l i src) j n = sub l j n.
Proof.
  intros Hi Hl Hj Hn Hd. apply list_eq. intros k. rewrite !lookup_sub, lookup_upd by done.
  repeat case_decide; try done. lia.
Qed.

Lemma sub_sub_app l i n m :
  0 <= i -> 0 <= n -> 0 <= m -> sub l i n ++ sub l (i + n) m = sub l i (n + m).
Proof.
  intros. unfold sub. replace (Z.to_nat (i + n)) with (Z.to_nat i + Z.to_nat n)%nat by lia.
  rewrite <- drop_drop. replace (Z.to_nat (n + m)) with (Z.to_nat n + Z.to_nat m)%nat by lia.
  by rewrite take_take_drop.
Qed.

Lemma sub_all l n : n = zlen l -> sub l 0 n = l.
Proof. intros ->. unfold sub. rewrite drop_0. rewrite take_ge; [done|lia]. Qed.

Lemma sub_0 l i : sub l i 0 = [].
Proof. done. Qed.

Lemma upd_all l src : length src = length l -> upd l 0 src = src.
Proof. intros H. unfold upd. simpl. rewrite drop_ge by lia. apply app_nil_r. Qed.

Lemma sub_sub l i n j m :
  0 <= i -> 0 <= j -> 0 <= m -> j + m <= n -> sub (sub l i n) j m = sub l (i + j) m.
Proof.
  intros. apply list_eq. intros k. rewrite !lookup_sub. repeat case_decide; try done; try lia.
  f_equal. lia.
Qed.

Lemma slice_Some l i n :
  0 <= i -> 0 <= n -> i + n <= zlen l -> slice l i n = Some (sub l i n).
Proof. intros. unfold slice. by rewrite !(proj2 (Z.leb_le _ _)) by lia. Qed.

Lemma splice_Some l i src :
  0 <= i -> i + zlen src <= zlen l -> splice l i src = Some (upd l i src).
Proof. intros. unfold splice. by rewrite !(proj2 (Z.leb_le _ _)) by lia. Qed.

Lemma index_Some_lt l i x : index l i = Some x -> 0 <= i < zlen l.
Proof.
  unfold index. destruct (Z.leb_spec 0 i); [|done].
  intros Hl. apply lookup_lt_Some in Hl. lia.
Qed.

Lemma index_lookup l i : 0 <= i -> index l i = l !! Z.to_nat i.
Proof. intros. unfold index. by rewrite (proj2 (Z.leb_le _ _)). Qed.

Lemma index_is_Some l i : 0 <= i < zlen l -> exists x, index l i = Some x.
Proof.
  intros. rewrite index_lookup by lia. apply lookup_lt_is_Some. lia.
Qed.

Lemma Forall_sub (P : A -> Prop) l i n : Forall P l -> Forall P (sub l i n).
Proof. intros. by apply Forall_take, Forall_drop. Qed.

Lemma Forall_upd (P : A -> Prop) l i src :
  Forall P l -> Forall P src -> Forall P (upd l i src).
Proof.
  intros. unfold upd. rewrite !Forall_app.
  auto using Forall_take, Forall_drop.
Qed.

Lemma upd_upd_app l i a b :
  0 <= i -> i + zlen a + zlen b <= zlen l -> upd (upd l i a) (i + zlen a) b = upd l i (a ++ b).
Proof.
  intros Hi Hl. apply list_eq. intros j. rewrite !lookup_upd by (len; rewrite ?length_upd; len).
  rewrite length_app, Nat2Z.inj_add. repeat case_decide; try lia; try done.
  - rewrite lookup_app_r by lia. f_equal. lia.
  - rewrite lookup_app_l by lia. done.
Qed.

Lemma upd_nil l i : upd l i [] = l.
Proof. unfold upd. simpl. by rewrite Nat.add_0_r, take_drop. Qed.

Lemma take_sub l n : take n l = sub l 0 (Z.of_nat n).
Proof. unfold sub. by rewrite Nat2Z.id. Qed.

Lemma sub_drop l (k : nat) i n : 0 <= i -> sub (drop k l) i n = sub l (Z.of_nat k + i) n.
Proof. intros. unfold sub. rewrite drop_drop. do 2 f_equal. lia. Qed.

(** A concatenation of chunks of [S] elements each. *)
Lemma length_chunks (ls : list (list A)) S :
  Forall (fun l => zlen l = S) ls -> zlen (mjoin ls) = zlen ls * S.
Proof. induction 1; simpl; [done|]. len. Qed.

Lemma sub_chunks (ls : list (list A)) S (a : nat) x i n :
  Forall (fun l => zlen l = S) ls -> ls !! a = Some x -> 0 <= i -> 0 <= n -> i + n <= S ->
  sub (mjoin ls) (Z.of_nat a * S + i) n = sub x i n.
Proof.
  intros Hls. revert a. induction Hls as [|y ls Hy Hls IH]; intros [|a] Ha Hi Hn HS; simpl in Ha; try done.
  - simplify_eq. simpl mjoin. unfold sub. rewrite drop_app_le by lia. rewrite take_app_le; [done|].
    len.
  - rewrite <- (IH a) by done. simpl mjoin. unfold sub. rewrite drop_app_ge by lia. do 2 f_equal. lia.
Qed.

Lemma upd_chunks (ls : list (list A)) S (a : nat) x i src :
  Forall (fun l => zlen l = S) ls -> ls !! a = Some x -> 0 <= i -> i + zlen src <= S ->
  mjoin (<[a := upd x i src]> ls) = upd (mjoin ls) (Z.of_nat a * S + i) src.
Proof.
  intros Hls. revert a. induction Hls as [|y ls Hy Hls IH]; intros [|a] Ha Hi HS; simpl in Ha; try done.
  - simplify_eq. simpl. unfold upd. rewrite Z.add_0_l, take_app_le, drop_app_le by lia.
    by rewrite <- !app_assoc.
  - transitivity (y ++ mjoin (<[a := upd x i src]> ls)); [done|]. rewrite (IH a) by done.
    simpl mjoin. unfold upd. rewrite take_app_ge, drop_app_ge, <- app_assoc by lia.
    do 2 f_equal; [f_equal; lia|]. do 2 f_equal. lia.
Qed.

End slices.

#[export] Hint Resolve Forall_sub Forall_upd : rust.

(** ** Lemmas: little-endian bytes *)

Section le_bytes.
Local Open Scope Z_scope.

Lemma length_to_le_bytes n z : length (to_le_bytes n z) = n.
Proof. revert z. induction n; intros; simpl; auto. Qed.

Lemma to_le_bytes_ok n z : bytes_ok (to_le_bytes n z).
Proof.
  revert z. induction n as [|n IH]; intros z; simpl; constructor; [|apply IH].
  unfold unsigned. change (2 ^ 8) with 256. apply Z.mod_pos_bound. lia.
Qed.

Lemma from_le_bytes_bound l : bytes_ok l -> 0 <= from_le_bytes l < 256 ^ zlen l.
Proof.
  induction 1 as [|b l Hb Hl IH]; simpl length; [simpl; lia|].
  rewrite Nat2Z.inj_succ, Z.pow_succ_r by lia. unfold unsigned in Hb.
  cbn [from_le_bytes]. change (2 ^ 8) with 256 in Hb. lia.
Qed.

Lemma from_to_le_bytes n z :
  0 <= z < 256 ^ Z.of_nat n -> from_le_bytes (to_le_bytes n z) = z.
Proof.
  revert z. induction n as [|n IH]; intros z; [simpl; lia|].
  rewrite Nat2Z.inj_succ, Z.pow_succ_r by lia. intros Hz. cbn [to_le_bytes from_le_bytes].
  rewrite IH; [|split; [apply Z.div_pos; lia|apply Z.div_lt_upper_bound; lia]].
  pose proof (Z.div_mod z 256). lia.
Qed.

Lemma to_from_le_bytes l : bytes_ok l -> to_le_bytes (length l) (from_le_bytes l) = l.
Proof.
  induction 1 as [|b l Hb Hl IH]; [done|]. cbn [length to_le_bytes from_le_bytes].
  unfold unsigned in Hb. change (2 ^ 8) with 256 in Hb.
  rewrite (Z.mul_comm 256), Z.mod_add, Z.mod_small by lia.
  rewrite Z.div_add, Z.div_small, Z.add_0_l by lia. by rewrite IH.
Qed.

End le_bytes.

#[export] Hint Rewrite length_to_le_bytes : len.
#[export] Hint Resolve to_le_bytes_ok : rust.
