(* ===== verification/PhysMemory.v ===== *)
(** * Physical memory: the bitmap frame manager

    Models [ors-kernel/src/phys_memory.rs] and the memory map it is
    initialised from ([ors-common/src/memory_map.rs]). A frame is its number;
    the bitmap is the array of 64-bit lines of the code, with one bit per
    frame, set when the frame is allocated. The bitmap's length is left to the
    state ([new] has the [MAP_LINE_COUNT] lines of the code), so an index past
    it is the panic of the code. *)

From S2P Require Import Prelude.

Local Open Scope Z_scope.

(** ** What the kernel uses of the [x86_64] crate's addresses

    [PhysAddr::new] rejects addresses of more than 52 bits and
    [PhysFrame::from_start_address] rejects unaligned ones; both are library
    code, so they are parameters with their documented behaviour. *)
Class X64Addr := {
  phys_addr_new : Z -> option Z;
  phys_frame_from_start_address : Z -> option Z;
  phys_addr_new_valid : forall a, 0 <= a < 2 ^ 52 -> phys_addr_new a = Some a;
  phys_frame_from_aligned : forall a, 0 <= a < 2 ^ 52 -> a mod 4096 = 0 ->
    phys_frame_from_start_address a = Some a
}.

(** ** Data *)

Definition FRAME_SIZE : Z := 4096.
Definition MAX_PHYSICAL_MEMORY_BYTES : Z := 128 * 1024 * 1024 * 1024.
Definition FRAME_COUNT : Z := MAX_PHYSICAL_MEMORY_BYTES / FRAME_SIZE.
Definition BITS_PER_MAP_LINE : Z := 8 * 8.
Definition MAP_LINE_COUNT : Z := FRAME_COUNT / BITS_PER_MAP_LINE.
Definition FRAME_MIN : Z := 1.
Definition FRAME_MAX : Z := FRAME_COUNT.

Record BitmapFrameManager := mkManager {
  alloc_map : list Z;
  begin_ : Z;
  end_ : Z
}.

Inductive AllocateError := NotEnoughFrame.

(** A descriptor of available memory: [phys_start..phys_end]. *)
Record Descriptor := mkDescriptor { phys_start : Z; phys_end : Z }.

(** ** Operations *)

Definition new : BitmapFrameManager :=
  {| alloc_map := replicate (Z.to_nat MAP_LINE_COUNT) 0;
     begin_ := FRAME_MIN; end_ := FRAME_MAX |}.

Definition total_frames (m : BitmapFrameManager) : option Z :=
  sub_checked 64 (end_ m) (begin_ m).

Definition get_bit (m : BitmapFrameManager) (frame : Z) : option bool :=
  let line_index := frame / BITS_PER_MAP_LINE in
  let bit_index := frame mod BITS_PER_MAP_LINE in
  line ← index (alloc_map m) line_index;
  Some (negb (Z.land line (Z.shiftl 1 bit_index) =? 0)).

Definition set_bit (m : BitmapFrameManager) (frame : Z) (allocated : bool)
    : option BitmapFrameManager :=
  let line_index := frame / BITS_PER_MAP_LINE in
  let bit_index := frame mod BITS_PER_MAP_LINE in
  line ← index (alloc_map m) line_index;
  let line' := if allocated then Z.lor line (Z.shiftl 1 bit_index)
               else Z.land line (Z.lnot (Z.shiftl 1 bit_index)) in
  Some {| alloc_map := <[Z.to_nat line_index := line']> (alloc_map m);
          begin_ := begin_ m; end_ := end_ m |}.

(** [set_bit(frame.offset(i), b)] for [i] in [0..num_frames], the loop of
    [mark_allocated] and of [free]. *)
Fixpoint set_bits (m : BitmapFrameManager) (frame : Z) (num_frames : nat) (b : bool)
    : option BitmapFrameManager :=
  match num_frames with
  | O => Some m
  | S n => m' ← set_bit m frame b; set_bits m' (frame + 1) n b
  end.

Definition mark_allocated (m : BitmapFrameManager) (frame num_frames : Z)
    : option BitmapFrameManager :=
  set_bits m frame (Z.to_nat num_frames) true.

Definition mark_allocated_in_bytes (m : BitmapFrameManager) (start bytes : Z)
    : option BitmapFrameManager :=
  mark_allocated m start (bytes / FRAME_SIZE).

Definition free (m : BitmapFrameManager) (frame num_frames : Z)
    : option BitmapFrameManager :=
  set_bits m frame (Z.to_nat num_frames) false.

(** The inner loop of [allocate]: the frames [frame + i..] are tested until
    [k] of them are free, the range ends, or one is in use. *)
Inductive run := RunFree | RunEnd | RunUsed (i : Z) | RunPanic.

Fixpoint scan_run (m : BitmapFrameManager) (frame i : Z) (k : nat) : run :=
  match k with
  | O => RunFree
  | S k =>
      if end_ m <=? frame + i then RunEnd
      else match get_bit m (frame + i) with
           | None => RunPanic
           | Some true => RunUsed i
           | Some false => scan_run m frame (i + 1) k
           end
  end.

(** The outer loop, ['search]. *)
Fixpoint search (fuel : nat) (m : BitmapFrameManager) (frame num_frames : Z)
    : outcome AllocateError Z * BitmapFrameManager :=
  match fuel with
  | O => (Diverge, m)
  | S fuel =>
      match scan_run m frame 0 (Z.to_nat num_frames) with
      | RunEnd => (Err NotEnoughFrame, m)
      | RunUsed i => search fuel m (frame + (i + 1)) num_frames
      | RunPanic => (Panic, m)
      | RunFree =>
          match mark_allocated m frame num_frames with
          | Some m' => (Ok frame, m')
          | None => (Panic, m)
          end
      end
  end.

(** Every turn of the outer loop moves [frame] forward inside
    [begin..end], so [end - begin + 1] turns are enough. *)
Definition allocate (m : BitmapFrameManager) (num_frames : Z)
    : outcome AllocateError Z * BitmapFrameManager :=
  search (S (Z.to_nat (end_ m - begin_ m))) m (begin_ m) num_frames.

(** [(begin..end).filter(|i| self.get_bit(Frame( *i))).count()] *)
Fixpoint count_bits (m : BitmapFrameManager) (frame : Z) (k : nat) : option Z :=
  match k with
  | O => Some 0
  | S k =>
      b ← get_bit m frame;
      n ← count_bits m (frame + 1) k;
      Some (if b : bool then 1 + n else n)
  end.

Definition available_frames (m : BitmapFrameManager) : option Z :=
  count_bits m (begin_ m) (Z.to_nat (end_ m - begin_ m)).

Definition set_memory_range (m : BitmapFrameManager) (b e : Z) : BitmapFrameManager :=
  {| alloc_map := alloc_map m; begin_ := b; end_ := e |}.

Definition from_phys_addr (addr : Z) : Z := addr / FRAME_SIZE.

Section x64.
Context `{X64Addr}.

Definition phys_addr (frame : Z) : option Z :=
  a ← mul_checked 64 frame FRAME_SIZE; phys_addr_new a.

Definition phys_frame (frame : Z) : option Z :=
  a ← phys_addr frame; phys_frame_from_start_address a.

(** The loop of [initialize] over the descriptors. *)
Fixpoint initialize_loop (m : BitmapFrameManager) (phys_available_end : Z)
    (ds : list Descriptor) : option (BitmapFrameManager * Z) :=
  match ds with
  | [] => Some (m, phys_available_end)
  | d :: ds =>
      m' ← (if phys_available_end <? phys_start d then
              a ← phys_addr_new phys_available_end;
              mark_allocated_in_bytes m (from_phys_addr a)
                (phys_start d - phys_available_end)
            else Some m);
      initialize_loop m' (phys_end d) ds
  end.

Definition initialize (m : BitmapFrameManager) (mm : list Descriptor)
    : option BitmapFrameManager :=
  '(m', e) ← initialize_loop m 0 mm;
  a ← phys_addr_new e;
  Some (set_memory_range m' FRAME_MIN (from_phys_addr a)).

(** [FrameAllocator::allocate_frame] and [FrameDeallocator::deallocate_frame]. *)
Definition allocate_frame (m : BitmapFrameManager)
    : outcome AllocateError (option Z) * BitmapFrameManager :=
  match allocate m 1 with
  | (Ok frame, m') =>
      match phys_frame frame with
      | Some pf => (Ok (Some pf), m')
      | None => (Panic, m')
      end
  | (Err _, m') => (Ok None, m')
  | (Panic, m') => (Panic, m')
  | (Diverge, m') => (Diverge, m')
  end.

Definition deallocate_frame (m : BitmapFrameManager) (pf : Z)
    : option BitmapFrameManager :=
  free m (from_phys_addr pf) 1.

End x64.

(** ** The abstract state: the set of allocated frames *)

(** Frames the bitmap has a bit for. *)
Definition mapped (m : BitmapFrameManager) (f : Z) : Prop :=
  0 <= f < BITS_PER_MAP_LINE * zlen (alloc_map m).

Definition bit (m : BitmapFrameManager) (f : Z) : bool :=
  default false (get_bit m f).

(** The managed range lies inside the bitmap, whose lines are 64-bit words. *)
Definition wf (m : BitmapFrameManager) : Prop :=
  0 <= begin_ m <= end_ m /\ end_ m <= BITS_PER_MAP_LINE * zlen (alloc_map m) /\
  Forall (unsigned 64) (alloc_map m).

(** [num_frames] consecutive free frames from [f] on, inside the range. *)
Definition free_run (m : BitmapFrameManager) (f n : Z) : Prop :=
  begin_ m <= f /\ f + n <= end_ m /\ forall g, f <= g < f + n -> bit m g = false.

(** [m'] is [m] with the bits of [f..f + n] set to [b]. *)
Definition bits_set (m m' : BitmapFrameManager) (f n : Z) (b : bool) : Prop :=
  length (alloc_map m') = length (alloc_map m) /\
  begin_ m' = begin_ m /\ end_ m' = end_ m /\
  (Forall (unsigned 64) (alloc_map m) -> Forall (unsigned 64) (alloc_map m')) /\
  forall g, mapped m g -> bit m' g = if decide (f <= g < f + n) then b else bit m g.

(** A memory map as the firmware gives it: page aligned, in increasing
    order, without overlap, below the 52 bits of a physical address. *)
Fixpoint sorted_from (e : Z) (ds : list Descriptor) : Prop :=
  match ds with
  | [] => True
  | d :: ds =>
      e <= phys_start d <= phys_end d /\ phys_end d < 2 ^ 52 /\
      phys_start d mod FRAME_SIZE = 0 /\ phys_end d mod FRAME_SIZE = 0 /\
      sorted_from (phys_end d) ds
  end.

(** The end of the last descriptor. *)
Fixpoint memory_end (e : Z) (ds : list Descriptor) : Z :=
  match ds with [] => e | d :: ds => memory_end (phys_end d) ds end.

(** The frame lies in one of the descriptors. *)
Definition in_map (ds : list Descriptor) (f : Z) : bool :=
  existsb (fun d => (phys_start d <=? f * FRAME_SIZE) && (f * FRAME_SIZE <? phys_end d)) ds.

(** ** Lemmas on single bits *)

Lemma land_bit_neq0 line i :
  0 <= i -> negb (Z.land line (Z.shiftl 1 i) =? 0) = Z.testbit line i.
Proof.
  intros Hi. destruct (Z.eqb_spec (Z.land line (Z.shiftl 1 i)) 0) as [E|E]; simpl.
  - apply (f_equal (fun z => Z.testbit z i)) in E.
    rewrite Z.land_spec, Z.shiftl_1_l, Z.pow2_bits_true, Z.bits_0, andb_true_r in E by lia.
    done.
  - destruct (Z.testbit line i) eqn:Ht; [done|]. exfalso. apply E. apply Z.bits_inj'.
    intros j Hj. rewrite Z.land_spec, Z.shiftl_1_l, Z.bits_0.
    destruct (decide (j = i)) as [->|].
    + by rewrite Ht.
    + rewrite Z.pow2_bits_false by lia. apply andb_false_r.
Qed.

Lemma line_index_range m f :
  mapped m f -> 0 <= f / BITS_PER_MAP_LINE < zlen (alloc_map m) /\
                0 <= f mod BITS_PER_MAP_LINE < BITS_PER_MAP_LINE.
Proof.
  unfold mapped, BITS_PER_MAP_LINE. intros Hf. split.
  - split; [apply Z.div_pos; lia|apply Z.div_lt_upper_bound; lia].
  - apply Z.mod_pos_bound. lia.
Qed.

Lemma get_bit_mapped m f : mapped m f -> get_bit m f = Some (bit m f).
Proof.
  intros Hf. pose proof (line_index_range m f Hf) as [H1 H2]. unfold bit, get_bit.
  destruct (index_is_Some (alloc_map m) (f / BITS_PER_MAP_LINE) H1) as [line ->]. done.
Qed.

Lemma bit_testbit m f line :
  mapped m f -> alloc_map m !! Z.to_nat (f / BITS_PER_MAP_LINE) = Some line ->
  bit m f = Z.testbit line (f mod BITS_PER_MAP_LINE).
Proof.
  intros Hf Hl. pose proof (line_index_range m f Hf) as [H1 H2]. unfold bit, get_bit.
  rewrite index_lookup, Hl by lia. simpl. apply land_bit_neq0. lia.
Qed.

Lemma same_line f g :
  f / BITS_PER_MAP_LINE = g / BITS_PER_MAP_LINE ->
  f mod BITS_PER_MAP_LINE = g mod BITS_PER_MAP_LINE -> f = g.
Proof.
  unfold BITS_PER_MAP_LINE. intros.
  pose proof (Z.div_mod f (8 * 8)). pose proof (Z.div_mod g (8 * 8)). lia.
Qed.

Lemma testbit_line_update line i j (b : bool) :
  0 <= i -> 0 <= j ->
  Z.testbit (if b then Z.lor line (Z.shiftl 1 i) else Z.land line (Z.lnot (Z.shiftl 1 i))) j
  = if decide (i = j) then b else Z.testbit line j.
Proof.
  intros Hi Hj. destruct b; rewrite ?Z.lor_spec, ?Z.land_spec, ?Z.lnot_spec, Z.shiftl_1_l by lia;
    case_decide as E; subst.
  - rewrite Z.pow2_bits_true by lia. apply orb_true_r.
  - rewrite Z.pow2_bits_false by lia. apply orb_false_r.
  - rewrite Z.pow2_bits_true by lia. apply andb_false_r.
  - rewrite Z.pow2_bits_false by lia. apply andb_true_r.
Qed.

Lemma line_update_u64 line i (b : bool) :
  u64 line -> 0 <= i < BITS_PER_MAP_LINE ->
  u64 (if b then Z.lor line (Z.shiftl 1 i) else Z.land line (Z.lnot (Z.shiftl 1 i))).
Proof.
  unfold unsigned, BITS_PER_MAP_LINE. intros Hl Hi.
  assert (0 <= Z.shiftl 1 i) by (rewrite Z.shiftl_nonneg; lia).
  assert (forall z, 0 <= z -> (forall j, 64 <= j -> Z.testbit z j = false) -> 0 <= z < 2 ^ 64)
    as Hbits.
  { intros z Hz Hj. split; [done|]. destruct (Z.ltb_spec z (2 ^ 64)) as [|Hge]; [done|].
    assert (64 <= Z.log2 z) as Hlog.
    { rewrite <- (Z.log2_pow2 64) by lia. by apply Z.log2_le_mono. }
    specialize (Hj _ Hlog). rewrite Z.bit_log2 in Hj; [done|lia]. }
  assert (forall j, 64 <= j -> Z.testbit line j = false) as Hhigh.
  { intros j Hj. rewrite Z.testbit_eqb by lia. rewrite Z.div_small; [done|].
    split; [lia|]. eapply Z.lt_le_trans; [apply Hl|]. apply Z.pow_le_mono_r; lia. }
  apply Hbits.
  - destruct b; [apply Z.lor_nonneg; lia|apply Z.land_nonneg; lia].
  - intros j Hj. rewrite testbit_line_update by lia. rewrite decide_False by lia. auto.
Qed.

Lemma set_bit_spec m f b :
  mapped m f -> exists m', set_bit m f b = Some m' /\ bits_set m m' f 1 b.
Proof.
  intros Hf. pose proof (line_index_range m f Hf) as [H1 H2].
  unfold set_bit. destruct (index_is_Some (alloc_map m) (f / BITS_PER_MAP_LINE) H1) as [line Hl].
  rewrite Hl. rewrite index_lookup in Hl by lia. simpl. eexists; split; [done|].
  unfold bits_set; simpl. rewrite length_insert. split_and!; [done..| |].
  { intros HF. apply Forall_insert; [done|]. apply line_update_u64; [|lia].
    rewrite Forall_lookup in HF. eauto. }
  intros g Hg. pose proof (line_index_range m g Hg) as [H3 H4].
  destruct (lookup_lt_is_Some_2 (alloc_map m) (Z.to_nat (g / BITS_PER_MAP_LINE))) as [gl Hgl];
    [lia|].
  rewrite (bit_testbit m g gl Hg Hgl).
  destruct (decide (f / BITS_PER_MAP_LINE = g / BITS_PER_MAP_LINE)) as [E|E].
  - rewrite <- E in Hgl. simplify_eq. etrans; [eapply bit_testbit|].
    + unfold mapped in *; simpl. by rewrite length_insert.
    + simpl. rewrite E, list_lookup_insert_eq; [done|lia].
    + rewrite testbit_line_update by lia.
      destruct (decide (f = g)) as [->|]; [by rewrite !decide_True by lia|].
      rewrite decide_False by (intros Hm; by pose proof (same_line f g E Hm)).
      by rewrite decide_False by lia.
  - rewrite decide_False by (intros ?; apply E; f_equal; lia). apply bit_testbit.
    + unfold mapped in *; simpl. by rewrite length_insert.
    + simpl. rewrite list_lookup_insert_ne by lia. done.
Qed.

(** ** Lemmas on ranges of bits *)

Lemma bits_set_mapped m m' f n b g : bits_set m m' f n b -> mapped m' g <-> mapped m g.
Proof. intros (Hl & _). unfold mapped. by rewrite Hl. Qed.

Lemma bits_set_trans m m1 m2 f n b :
  0 <= n -> bits_set m m1 f 1 b -> bits_set m1 m2 (f + 1) n b -> bits_set m m2 f (1 + n) b.
Proof.
  intros Hn (L1 & B1 & E1 & F1 & G1) (L2 & B2 & E2 & F2 & G2).
  split_and!; [congruence..|auto|]. intros g Hg.
  rewrite G2 by (by unfold mapped in *; rewrite L1). rewrite G1 by done.
  repeat case_decide; done || lia.
Qed.

Lemma set_bits_spec m f n b :
  (forall g, f <= g < f + Z.of_nat n -> mapped m g) ->
  exists m', set_bits m f n b = Some m' /\ bits_set m m' f (Z.of_nat n) b.
Proof.
  revert m f. induction n as [|n IH]; intros m f Hm.
  - exists m. split; [done|]. split_and!; [done..|]. intros g _. by rewrite decide_False by lia.
  - destruct (set_bit_spec m f b) as (m1 & E1 & H1); [apply Hm; lia|].
    destruct (IH m1 (f + 1)) as (m2 & E2 & H2).
    { intros g Hg. rewrite bits_set_mapped by done. apply Hm. lia. }
    exists m2. simpl. rewrite E1. simpl. split; [done|].
    replace (Z.of_nat (S n)) with (1 + Z.of_nat n) by lia. eapply bits_set_trans; eauto. lia.
Qed.

Lemma wf_mapped m f : wf m -> begin_ m <= f < end_ m -> mapped m f.
Proof. unfold wf, mapped. lia. Qed.

Lemma wf_lines m line : wf m -> line ∈ alloc_map m -> u64 line.
Proof. intros (_ & _ & H). rewrite Forall_forall in H. auto. Qed.

Lemma bits_set_wf m m' f n b : wf m -> bits_set m m' f n b -> wf m'.
Proof. intros (W1 & W2 & W3) (L & B & E & F & _). unfold wf. rewrite L, B, E. auto. Qed.

(** Two bitmaps of 64-bit lines with the same bits are the same bitmap. *)
Lemma same_bits_eq m m' :
  wf m -> wf m' -> length (alloc_map m') = length (alloc_map m) ->
  begin_ m' = begin_ m -> end_ m' = end_ m ->
  (forall g, mapped m g -> bit m' g = bit m g) -> m' = m.
Proof.
  intros W W' L B E G. destruct m as [l b e], m' as [l' b' e']. simpl in *. subst. f_equal.
  apply list_eq_same_length with (n := length l); [done|done|].
  intros i x y Hi Hx Hy. apply Z.bits_inj'. intros j Hj.
  destruct (decide (j < BITS_PER_MAP_LINE)) as [Hlt|Hge].
  - assert ((Z.of_nat i * BITS_PER_MAP_LINE + j) / BITS_PER_MAP_LINE = Z.of_nat i) as Ed.
    { rewrite Z.div_add_l, Z.div_small by (unfold BITS_PER_MAP_LINE in *; lia). lia. }
    assert ((Z.of_nat i * BITS_PER_MAP_LINE + j) mod BITS_PER_MAP_LINE = j) as Em.
    { rewrite Z.add_comm, Z_mod_plus_full, Z.mod_small; lia. }
    specialize (G (Z.of_nat i * BITS_PER_MAP_LINE + j)).
    assert (mapped (mkManager l b e) (Z.of_nat i * BITS_PER_MAP_LINE + j)) as Hm
      by (unfold mapped, BITS_PER_MAP_LINE in *; simpl; lia).
    specialize (G Hm).
    erewrite (bit_testbit (mkManager l b e)) in G; [|done|simpl; by rewrite Ed, Nat2Z.id].
    erewrite (bit_testbit (mkManager l' b e)) in G;
      [by rewrite Em in G|unfold mapped in *; simpl in *; by rewrite L|
       simpl; by rewrite Ed, Nat2Z.id].
  - unfold BITS_PER_MAP_LINE in Hge.
    assert (forall z, u64 z -> Z.testbit z j = false) as Hhigh.
    { intros z Hz. rewrite Z.testbit_eqb by lia. rewrite Z.div_small; [done|].
      unfold unsigned in Hz. split; [lia|]. eapply Z.lt_le_trans; [apply Hz|].
      apply Z.pow_le_mono_r; lia. }
    rewrite !Hhigh; [done| |].
    + apply (wf_lines (mkManager l b e)); [done|]. by eapply list_elem_of_lookup_2.
    + apply (wf_lines (mkManager l' b e)); [done|]. by eapply list_elem_of_lookup_2.
Qed.

(** ** Lemmas on the search *)

Lemma scan_run_cases m f i k :
  wf m -> begin_ m <= f -> 0 <= i ->
  match scan_run m f i k with
  | RunFree => (f + i <= end_ m -> f + i + Z.of_nat k <= end_ m) /\
               forall g, f + i <= g < f + i + Z.of_nat k -> bit m g = false
  | RunEnd => end_ m < f + i + Z.of_nat k
  | RunUsed j => i <= j < i + Z.of_nat k /\ f + j < end_ m /\ bit m (f + j) = true
  | RunPanic => False
  end.
Proof.
  intros W Hf. revert i. induction k as [|k IH]; intros i Hi; cbn [scan_run]; [split; lia|].
  destruct (Z.leb_spec (end_ m) (f + i)); [lia|].
  rewrite get_bit_mapped by (apply wf_mapped; [done|lia]).
  destruct (bit m (f + i)) eqn:Hb; [split_and!; done || lia|].
  specialize (IH (i + 1) ltac:(lia)).
  destruct (scan_run m f (i + 1) k) as [| |j|]; [|lia|destruct IH; split; lia || tauto|done].
  destruct IH as [H1 H2]. split; [lia|]. intros g Hg.
  destruct (decide (g = f + i)) as [->|]; [done|]. apply H2. lia.
Qed.

Lemma free_run_misses m f n g :
  free_run m g n -> g <= f < g + n -> bit m f = true -> False.
Proof. intros (_ & _ & H) Hf Hb. rewrite H in Hb by lia. done. Qed.

Lemma search_spec m fuel f n :
  wf m -> 0 <= n -> begin_ m <= f <= end_ m -> (Z.to_nat (end_ m - f) < fuel)%nat ->
  (forall g, g < f -> ~ free_run m g n) ->
  match search fuel m f n with
  | (Ok a, m') => free_run m a n /\ bits_set m m' a n true /\ forall g, g < a -> ~ free_run m g n
  | (Err _, m') => m' = m /\ forall g, ~ free_run m g n
  | _ => False
  end.
Proof.
  intros W Hn. revert f. induction fuel as [|fuel IH]; intros f Hf Hfuel Hlow; [lia|].
  cbn [search]. pose proof (scan_run_cases m f 0 (Z.to_nat n) W ltac:(lia) ltac:(lia)) as Hs.
  destruct (scan_run m f 0 (Z.to_nat n)) as [| |j|].
  - destruct Hs as [He Hfree]. assert (free_run m f n) as HF.
    { split_and!; [lia|lia|]. intros g Hg. apply Hfree. lia. }
    unfold mark_allocated. destruct (set_bits_spec m f (Z.to_nat n) true) as (m' & -> & Hm').
    { intros g Hg. apply wf_mapped; [done|]. lia. }
    rewrite Z2Nat.id in Hm' by lia. auto.
  - split; [done|]. intros g Hg. destruct (decide (g < f)); [by eapply Hlow|].
    destruct Hg as (_ & He & _). lia.
  - destruct Hs as (Hj & He & Hb). apply IH; [lia|lia|]. intros g Hg Hfr.
    destruct (decide (g < f)); [by eapply Hlow|].
    eapply free_run_misses; [done| |done]. lia.
  - done.
Qed.

Lemma allocate_spec m n :
  wf m -> 0 <= n ->
  match allocate m n with
  | (Ok a, m') => free_run m a n /\ bits_set m m' a n true /\ forall g, g < a -> ~ free_run m g n
  | (Err _, m') => m' = m /\ forall g, ~ free_run m g n
  | _ => False
  end.
Proof.
  intros W Hn. unfold allocate. apply search_spec; [done|done|destruct W; lia|lia|].
  intros g Hg (Hb & _). lia.
Qed.

Lemma allocate_Ok m n a m' :
  wf m -> 0 <= n -> allocate m n = (Ok a, m') -> free_run m a n /\ bits_set m m' a n true.
Proof. intros W Hn E. pose proof (allocate_spec m n W Hn) as Hs. rewrite E in Hs. tauto. Qed.

Lemma free_restores (m m1 : BitmapFrameManager) (n f : Z) :
  wf m -> 0 <= n -> allocate m n = (Ok f, m1) -> free m1 f n = Some m.
Proof.
  intros W Hn E. apply allocate_Ok in E as ((Hb & He & F) & S1); [|done..].
  unfold free. destruct (set_bits_spec m1 f (Z.to_nat n) false) as (m2 & -> & S2).
  { intros g Hg. rewrite bits_set_mapped by done. apply wf_mapped; [done|]. lia. }
  rewrite Z2Nat.id in S2 by lia. f_equal.
  assert (wf m1) as W1 by (by eapply bits_set_wf).
  assert (wf m2) as W2 by (by eapply bits_set_wf).
  destruct S1 as (L1 & B1 & E1 & _ & G1), S2 as (L2 & B2 & E2 & _ & G2).
  apply same_bits_eq; [done|done|congruence..|]. intros g Hg.
  rewrite G2, G1 by (unfold mapped in *; by rewrite ?L1). case_decide; [|done].
  symmetry. apply F. lia.
Qed.

Lemma count_bits_set m m' a n f k :
  bits_set m m' a n true -> (forall g, a <= g < a + n -> bit m g = false) ->
  0 <= n -> (forall g, f <= g < f + Z.of_nat k -> mapped m g) ->
  exists c, count_bits m f k = Some c /\
    count_bits m' f k = Some (c + Z.max 0 (Z.min (f + Z.of_nat k) (a + n) - Z.max f a)).
Proof.
  intros Hs Hfree Hn. revert f. induction k as [|k IH]; intros f Hm.
  { exists 0. split; [done|]. cbn. f_equal. lia. }
  destruct (IH (f + 1)) as (c & E1 & E2); [intros g Hg; apply Hm; lia|].
  cbn [count_bits]. rewrite !get_bit_mapped by (try rewrite bits_set_mapped by done; apply Hm; lia).
  rewrite E1, E2. simpl. destruct Hs as (_ & _ & _ & _ & G). rewrite G by (apply Hm; lia).
  eexists. split; [done|]. f_equal. case_decide as Hd.
  - rewrite Hfree by lia. lia.
  - destruct (bit m f); lia.
Qed.

(** ** Lemmas on the initialisation *)

Section initialize.
Context `{X64Addr}.

Lemma in_map_below e ds f : sorted_from e ds -> f * FRAME_SIZE < e -> in_map ds f = false.
Proof.
  revert e. induction ds as [|d ds IH]; intros e; [done|]. simpl.
  intros (H1 & _ & _ & _ & Hs) Hf.
  rewrite (IH _ Hs) by lia. rewrite orb_false_r, (proj2 (Z.leb_gt _ _)) by lia. done.
Qed.

Lemma memory_end_le e ds : sorted_from e ds -> e <= memory_end e ds.
Proof.
  revert e. induction ds as [|d ds IH]; intros e; simpl; [lia|].
  intros (? & _ & _ & _ & Hs). specialize (IH _ Hs). lia.
Qed.

(** The gap before a descriptor, in frames. *)
Lemma gap_frames e s f :
  e mod FRAME_SIZE = 0 -> s mod FRAME_SIZE = 0 ->
  e / FRAME_SIZE <= f < e / FRAME_SIZE + (s - e) / FRAME_SIZE <-> e <= f * FRAME_SIZE < s.
Proof.
  unfold FRAME_SIZE. intros He Hs.
  assert ((s - e) mod 4096 = 0) by (rewrite Zminus_mod, He, Hs; done).
  pose proof (Z.div_mod e 4096). pose proof (Z.div_mod (s - e) 4096). lia.
Qed.

Lemma mark_gap m e s :
  0 <= e -> e mod FRAME_SIZE = 0 -> s mod FRAME_SIZE = 0 ->
  s <= FRAME_SIZE * (BITS_PER_MAP_LINE * zlen (alloc_map m)) ->
  exists m', mark_allocated_in_bytes m (from_phys_addr e) (s - e) = Some m' /\
    bits_set m m' (e / FRAME_SIZE) (Z.max ((s - e) / FRAME_SIZE) 0) true.
Proof.
  intros H0 He Hs Hcap. unfold mark_allocated_in_bytes, mark_allocated, from_phys_addr.
  destruct (set_bits_spec m (e / FRAME_SIZE) (Z.to_nat ((s - e) / FRAME_SIZE)) true)
    as (m' & -> & Hm').
  { intros g Hg. pose proof (proj1 (gap_frames e s g He Hs)).
    assert (0 <= e / FRAME_SIZE) by (apply Z.div_pos; [lia|done]).
    unfold mapped, FRAME_SIZE, BITS_PER_MAP_LINE in *. lia. }
  exists m'. split; [done|].
  by replace (Z.max ((s - e) / FRAME_SIZE) 0)
    with (Z.of_nat (Z.to_nat ((s - e) / FRAME_SIZE))) by lia.
Qed.

Lemma initialize_loop_spec m e ds :
  0 <= e < 2 ^ 52 -> e mod FRAME_SIZE = 0 -> sorted_from e ds ->
  memory_end e ds <= FRAME_SIZE * (BITS_PER_MAP_LINE * zlen (alloc_map m)) ->
  exists m', initialize_loop m e ds = Some (m', memory_end e ds) /\
    length (alloc_map m') = length (alloc_map m) /\
    (Forall (unsigned 64) (alloc_map m) -> Forall (unsigned 64) (alloc_map m')) /\
    forall f, mapped m f -> bit m' f =
      bit m f || ((e <=? f * FRAME_SIZE) && (f * FRAME_SIZE <? memory_end e ds)
                  && negb (in_map ds f)).
Proof.
  revert m e. induction ds as [|d ds IH]; intros m e He Ha Hs Hcap; cbn [initialize_loop].
  { exists m. split_and!; [done..|]. intros f _. simpl.
    destruct (Z.leb_spec e (f * FRAME_SIZE)), (Z.ltb_spec (f * FRAME_SIZE) e);
      rewrite ?orb_false_r; done || lia. }
  destruct Hs as (H1 & H2 & H3 & H4 & Hs). cbn [memory_end] in *.
  pose proof (memory_end_le _ _ Hs) as Hle.
  assert (exists m1, (if e <? phys_start d then
      a ← phys_addr_new e; mark_allocated_in_bytes m (from_phys_addr a) (phys_start d - e)
      else Some m) = Some m1 /\
      bits_set m m1 (e / FRAME_SIZE) (Z.max ((phys_start d - e) / FRAME_SIZE) 0) true)
    as (m1 & -> & S1).
  { rewrite phys_addr_new_valid by lia. destruct (mark_gap m e (phys_start d)) as (m1 & E1 & S1);
      [lia|done|done|lia|]. destruct (Z.ltb_spec e (phys_start d)); [by exists m1|].
    exists m. split; [done|]. split_and!; [done..|]. intros g _.
    replace (phys_start d - e) with 0 by lia. rewrite Z.div_0_l by done.
    by rewrite decide_False by lia. }
  simpl. destruct S1 as (L1 & _ & _ & F1 & G1).
  destruct (IH m1 (phys_end d)) as (m2 & E2 & L2 & F2 & G2); [lia|done|done|by rewrite L1|].
  exists m2. split_and!; [done|congruence|auto|]. intros f Hf.
  rewrite G2, G1 by (unfold mapped in *; by rewrite ?L1).
  pose proof (gap_frames e (phys_start d) f Ha H3) as Hgap.
  assert (0 <= (phys_start d - e) / FRAME_SIZE) by (apply Z.div_pos; [lia|done]).
  rewrite Z.max_l by lia. simpl.
  pose proof (in_map_below (phys_end d) ds f Hs) as Hlow.
  destruct (in_map ds f), (bit m f), (decide (e / FRAME_SIZE <= f < _)),
    (Z.leb_spec e (f * FRAME_SIZE)), (Z.leb_spec (phys_end d) (f * FRAME_SIZE)),
    (Z.leb_spec (phys_start d) (f * FRAME_SIZE)), (Z.ltb_spec (f * FRAME_SIZE) (phys_end d)),
    (Z.ltb_spec (f * FRAME_SIZE) (memory_end (phys_end d) ds)); simpl; done || lia || naive_solver lia.
Qed.

Lemma initialize_spec m mm :
  sorted_from 0 mm -> memory_end 0 mm < 2 ^ 52 ->
  memory_end 0 mm <= FRAME_SIZE * (BITS_PER_MAP_LINE * zlen (alloc_map m)) ->
  exists m', initialize m mm = Some m' /\
    begin_ m' = 1 /\ end_ m' = memory_end 0 mm / FRAME_SIZE /\
    length (alloc_map m') = length (alloc_map m) /\ (Forall u64 (alloc_map m) -> Forall u64 (alloc_map m')) /\
    forall f, 0 <= f < end_ m' -> bit m' f = bit m f || negb (in_map mm f).
Proof.
  intros Hs Hlt Hcap. destruct (initialize_loop_spec m 0 mm) as (m' & E & L & U & G); [done..|].
  unfold initialize. rewrite E. simpl. rewrite phys_addr_new_valid by
    (pose proof (memory_end_le _ _ Hs); lia).
  eexists. split_and!; [done..|]. simpl. intros f Hf. unfold from_phys_addr, FRAME_SIZE in *.
  pose proof (Z.mul_div_le (memory_end 0 mm) 4096 ltac:(lia)).
  transitivity (bit m' f); [reflexivity|]. rewrite G by (unfold mapped, BITS_PER_MAP_LINE in *; lia).
  rewrite (proj2 (Z.leb_le _ _)), (proj2 (Z.ltb_lt _ _)) by lia. done.
Qed.

End initialize.

(** ** Theorems *)

(** [C21]. First fit. With the range inside the bitmap, [allocate] always
    returns: either the lowest frame that starts [num_frames] consecutive free
    frames, those frames being marked and no other bit changed, or
    [NotEnoughFrame], when there is no such frame, with nothing changed. *)
Theorem allocate_first_fit (m : BitmapFrameManager) (num_frames : Z) :
  wf m -> 0 <= num_frames ->
  (exists f m', allocate m num_frames = (Ok f, m') /\ free_run m f num_frames /\
     bits_set m m' f num_frames true /\ forall g, g < f -> ~ free_run m g num_frames) \/
  (allocate m num_frames = (Err NotEnoughFrame, m) /\ forall g, ~ free_run m g num_frames).
Proof.
  intros W Hn. pose proof (allocate_spec m num_frames W Hn) as Hs.
  destruct (allocate m num_frames) as [[f|[]| |] m']; [|destruct Hs as [-> Hs]|done..]; eauto 6.
Qed.

(** two live allocations share no frame. *)
Theorem allocate_disjoint (m m1 m2 : BitmapFrameManager) (n k f g : Z) :
  wf m -> 0 < n -> 0 < k ->
  allocate m n = (Ok f, m1) -> allocate m1 k = (Ok g, m2) ->
  f + n <= g \/ g + k <= f.
Proof.
  intros W Hn Hk E1 E2. apply allocate_Ok in E1 as (F1 & S1); [|done|lia].
  apply allocate_Ok in E2 as ((_ & He & F2) & _); [|by eapply bits_set_wf|lia].
  destruct (decide (f + n <= g)); [by left|]. right.
  destruct (decide (g + k <= f)); [done|]. exfalso.
  destruct S1 as (_ & B & E & _ & G), F1 as (Hb & He' & _).
  assert (mapped m (Z.max f g)) as Hm by (apply wf_mapped; [done|]; lia).
  specialize (G _ Hm). rewrite decide_True, F2 in G by lia. done.
Qed.

(** freeing what was just allocated restores the bitmap exactly. *)
Theorem free_allocate (m m1 : BitmapFrameManager) (n f : Z) :
  wf m -> 0 <= n -> allocate m n = (Ok f, m1) -> free m1 f n = Some m.
Proof. apply free_restores. Qed.

(** [available_frames] grows with every
    allocation: it counts the frames that are in use, not the available ones. *)
Theorem available_frames_counts_allocated (m m1 : BitmapFrameManager) (n f : Z) :
  wf m -> 0 <= n -> allocate m n = (Ok f, m1) ->
  exists c, available_frames m = Some c /\ available_frames m1 = Some (c + n).
Proof.
  intros W Hn E. apply allocate_Ok in E as ((Hb & He & F) & S1); [|done..].
  unfold available_frames. destruct (S1) as (_ & -> & -> & _).
  destruct (count_bits_set m m1 f n (begin_ m) (Z.to_nat (end_ m - begin_ m))) as (c & E1 & E2);
    [done..| |].
  { intros g Hg. apply wf_mapped; [done|]. lia. }
  exists c. rewrite E1, E2. split; [done|]. do 2 f_equal. destruct W. lia.
Qed.

(** for a page-aligned, increasing memory map that
    fits the bitmap, [initialize] does not panic; it manages the frames from
    frame 1 to the end of the last descriptor, and a frame below that end is
    marked allocated exactly when it lies in no descriptor of available memory
    (or was marked before). *)
Theorem initialize_marks_gaps `{X64Addr} (m : BitmapFrameManager) (mm : list Descriptor) :
  sorted_from 0 mm -> memory_end 0 mm < 2 ^ 52 ->
  memory_end 0 mm <= FRAME_SIZE * (BITS_PER_MAP_LINE * zlen (alloc_map m)) ->
  exists m', initialize m mm = Some m' /\
    begin_ m' = 1 /\ end_ m' = memory_end 0 mm / FRAME_SIZE /\
    length (alloc_map m') = length (alloc_map m) /\
    forall f, 0 <= f < end_ m' -> bit m' f = bit m f || negb (in_map mm f).
Proof.
  intros Hs Hlt Hcap. destruct (initialize_spec m mm Hs Hlt Hcap) as (m' & ? & ? & ? & ? & _ & ?). by exists m'.
Qed.

(** ** Witnesses *)

(** Frames 1 and 2 are in use; 126 frames are managed. *)
Definition demo : BitmapFrameManager := mkManager [6; 0] 1 127.

Lemma demo_wf : wf demo.
Proof. split_and!; simpl; unfold BITS_PER_MAP_LINE; [lia..|solve_bounds]. Qed.

(** The checks of the crate, as a concrete function. *)
Definition x64_checks : X64Addr.
Proof.
  refine {| phys_addr_new := fun a => if decide (0 <= a < 2 ^ 52) then Some a else None;
            phys_frame_from_start_address :=
              fun a => if decide (a mod 4096 = 0) then Some a else None |}.
  - intros a Ha. by rewrite decide_True.
  - intros a _ Ha. by rewrite decide_True.
Defined.

Lemma allocate_first_fit_witness :
  fst (allocate demo 3) = Ok 3 /\
  ((exists f m', allocate demo 3 = (Ok f, m') /\ free_run demo f 3 /\
     bits_set demo m' f 3 true /\ forall g, g < f -> ~ free_run demo g 3) \/
   (allocate demo 3 = (Err NotEnoughFrame, demo) /\ forall g, ~ free_run demo g 3)).
Proof.
  split; [vm_compute; reflexivity|]. apply (allocate_first_fit demo 3); [apply demo_wf|lia].
Defined.

Lemma allocate_disjoint_witness : 3 + 3 <= 6 \/ 6 + 2 <= 3.
Proof.
  apply (allocate_disjoint demo (snd (allocate demo 3)) (snd (allocate (snd (allocate demo 3)) 2))
           3 2 3 6); [apply demo_wf|lia|lia|vm_compute; reflexivity|vm_compute; reflexivity].
Defined.

Lemma free_allocate_witness : free (snd (allocate demo 70)) 3 70 = Some demo.
Proof.
  apply (free_allocate demo (snd (allocate demo 70)) 70 3);
    [apply demo_wf|lia|vm_compute; reflexivity].
Defined.

Lemma available_frames_counts_allocated_witness :
  available_frames demo = Some 2 /\
  exists c, available_frames demo = Some c /\
    available_frames (snd (allocate demo 4)) = Some (c + 4).
Proof.
  split; [vm_compute; reflexivity|].
  apply (available_frames_counts_allocated demo (snd (allocate demo 4)) 4 3);
    [apply demo_wf|lia|vm_compute; reflexivity].
Defined.

Lemma initialize_marks_gaps_witness :
  exists m', @initialize x64_checks (mkManager [0] 1 64)
      [mkDescriptor 8192 16384; mkDescriptor 40960 81920] = Some m' /\
    begin_ m' = 1 /\ end_ m' = 81920 / FRAME_SIZE /\
    length (alloc_map m') = 1%nat /\
    forall f, 0 <= f < end_ m' -> bit m' f =
      bit (mkManager [0] 1 64) f ||
      negb (in_map [mkDescriptor 8192 16384; mkDescriptor 40960 81920] f).
Proof.
  apply (@initialize_marks_gaps x64_checks (mkManager [0] 1 64)
           [mkDescriptor 8192 16384; mkDescriptor 40960 81920]); simpl.
  - unfold FRAME_SIZE. split_and!; try lia; vm_compute; reflexivity.
  - lia.
  - unfold FRAME_SIZE, BITS_PER_MAP_LINE. lia.
Defined.
