(* ===== verification/Volume.v ===== *)
(** * Volumes and the sector cache (src/ors-kernel/src/fs/volume.rs)

    [Volume] is the trait a storage device implements; [BufferedVolume] is the
    write-back cache the file system works on. A [BufferedSectorRef] is modelled
    by the number of its sector: the buffers in [lent] have distinct sectors, and
    the number kept beside a lent buffer counts its live references
    ([Arc::strong_count - 1]). The operations are run to completion one after
    the other; in VolumeThreads those of several tasks interleave.

    [ReliableVolume] says what the cache relies on when the device does not
    fail. [SectorCache] is the interface the FAT code uses, with its laws
    [SectorCacheLaws]: an abstract disk (a function from sectors to bytes), and a
    count of the references held. The last part proves that [BufferedVolume] over a
    reliable volume satisfies them. *)

From S2P Require Import Prelude.
Local Open Scope Z_scope.
Local Open Scope rust_scope.

(** ** Volumes *)

Inductive VolumeErrorKind := Io | OutOfRange | Unknown.
Record VolumeError := { ve_sector : Z; ve_kind : VolumeErrorKind }.

(** [read] fills the buffer of the caller (the second component of its state);
    the device may change its state on every call. *)
Class Volume (V : Type) := {
  sector_count : V -> Z;
  sector_size : V -> Z;
  read : Z -> M (V * list Z) VolumeError unit;
  write : Z -> list Z -> M V VolumeError unit
}.

Definition in_range {V} `{Volume V} (v : V) (s : Z) : Prop := 0 <= s < sector_count v.

(** A device on which, as long as it is healthy, every read and write of a sector
    in range succeeds, reads return what the last write stored, and the geometry
    does not change. *)
Class ReliableVolume (V : Type) `{Volume V} := {
  healthy : V -> Prop;
  content : V -> Z -> list Z;
  content_length v s : healthy v -> in_range v s -> zlen (content v s) = sector_size v;
  content_bytes v s : healthy v -> in_range v s -> bytes_ok (content v s);
  read_reliable v s buf :
    healthy v -> in_range v s -> zlen buf = sector_size v ->
    exists v', read s (v, buf) = (Ok tt, (v', content v s)) /\ healthy v' /\
      sector_count v' = sector_count v /\ sector_size v' = sector_size v /\
      forall t, content v' t = content v t;
  write_reliable v s buf :
    healthy v -> in_range v s -> zlen buf = sector_size v -> bytes_ok buf ->
    exists v', write s buf v = (Ok tt, v') /\ healthy v' /\
      sector_count v' = sector_count v /\ sector_size v' = sector_size v /\
      forall t, content v' t = if decide (t = s) then buf else content v t
}.

(** ** Buffers *)

Record BufferedSectorData := {
  d_sector : option Z;
  is_dirty : bool;
  bytes : list Z
}.

Record BufferedSector := { b_sector : Z; data : BufferedSectorData }.

Record BufferedVolume (V : Type) := {
  volume : V;
  lent : list (BufferedSector * nat);
  cached : list BufferedSector
}.
Arguments volume {V} _.
Arguments lent {V} _.
Arguments cached {V} _.

Definition EXPECTED_CACHE_SIZE : nat := 8.

Section buffered_volume.
Context {V : Type} `{Volume V}.

Abbreviation BV := (BufferedVolume V).

Definition set_lent (l : list (BufferedSector * nat)) (bv : BV) : BV :=
  {| volume := volume bv; lent := l; cached := cached bv |}.
Definition set_cached (c : list BufferedSector) (bv : BV) : BV :=
  {| volume := volume bv; lent := lent bv; cached := c |}.

(** [BufferedVolume::new] *)
Definition new_volume (v : V) : BV := {| volume := v; lent := []; cached := [] |}.

(** [BufferedSectorData::commit] *)
Definition data_commit : M (V * BufferedSectorData) VolumeError unit :=
  '(v, d) <- mget ;;
  if is_dirty d then
    s <- munwrap (d_sector d) ;;
    mfst (write s (bytes d)) ;;;
    '(v, d) <- mget ;;
    mput (v, {| d_sector := d_sector d; is_dirty := false; bytes := bytes d |})
  else ret tt.

(** [volume.read(sector, self.bytes.as_mut())] *)
Definition data_read (s : Z) : M (V * BufferedSectorData) VolumeError unit := fun '(v, d) =>
  let '(o, (v', buf)) := read s (v, bytes d) in
  (o, (v', {| d_sector := d_sector d; is_dirty := is_dirty d; bytes := buf |})).

(** [BufferedSectorData::initialize] *)
Definition data_initialize (s : Z) : M (V * BufferedSectorData) VolumeError unit :=
  data_commit ;;;
  '(_, d) <- mget ;;
  if decide (d_sector d <> Some s) then
    data_read s ;;;
    '(v, d) <- mget ;;
    mput (v, {| d_sector := Some s; is_dirty := is_dirty d; bytes := bytes d |})
  else ret tt.

(** [BufferedSector::new] *)
Definition new_sector (s : Z) (v : V) : BufferedSector :=
  {| b_sector := s;
     data := {| d_sector := None; is_dirty := false;
                bytes := replicate (Z.to_nat (sector_size v)) 0 |} |}.

(** [BufferedSector::recycle] *)
Definition recycle (s : Z) (b : BufferedSector) : BufferedSector :=
  {| b_sector := s; data := data b |}.

Definition has_sector (s : Z) (b : BufferedSector) : bool := b_sector b =? s.

Definition lent_position (s : Z) (bv : BV) : option nat :=
  position (fun e => has_sector s e.1) (lent bv).

(** A computation on the data a reference points to. *)
Definition on_data {E A} (s : Z) (m : M (V * BufferedSectorData) E A) : M BV E A := fun bv =>
  match i ← lent_position s bv; e ← lent bv !! i; Some (i, e) with
  | None => (Panic, bv)
  | Some (i, (b, r)) =>
      let '(o, (v', d')) := m (volume bv, data b) in
      (o, {| volume := v';
             lent := <[i := ({| b_sector := b_sector b; data := d' |}, r)]> (lent bv);
             cached := cached bv |})
  end.

(** [Drop for BufferedSectorRef] *)
Definition drop_ref {E} (s : Z) : M BV E unit := fun bv =>
  match i ← lent_position s bv; e ← lent bv !! i; Some (i, e) with
  | None => (Panic, bv)
  | Some (i, (b, r)) =>
      if (r =? 1)%nat then
        (Ok tt, {| volume := volume bv; lent := swap_remove i (lent bv); cached := b :: cached bv |})
      else (Ok tt, set_lent (<[i := (b, r - 1)%nat]> (lent bv)) bv)
  end.

(** [Clone for BufferedSectorRef] *)
Definition clone_ref {E} (s : Z) : M BV E unit := fun bv =>
  match i ← lent_position s bv; e ← lent bv !! i; Some (i, e) with
  | None => (Panic, bv)
  | Some (i, (b, r)) => (Ok tt, set_lent (<[i := (b, r + 1)%nat]> (lent bv)) bv)
  end.

(** The part of [BufferedVolume::sector] that holds the lock: the buffer for
    [s] is lent, taken from the cache, recycled from the least recently used
    buffer, or created; one reference to it is made. *)
Definition checkout (s : Z) (bv : BV) : option BV :=
  match lent_position s bv with
  | Some i => '(b, r) ← lent bv !! i; Some (set_lent (<[i := (b, r + 1)%nat]> (lent bv)) bv)
  | None =>
      '(b, c) ← match position (has_sector s) (cached bv) with
                | Some i => b ← cached bv !! i; Some (b, delete i (cached bv))
                | None =>
                    if (EXPECTED_CACHE_SIZE <=? length (cached bv))%nat then
                      b ← last (cached bv);
                      Some (recycle s b, take (length (cached bv) - 1) (cached bv))
                    else Some (new_sector s (volume bv), cached bv)
                end;
      Some {| volume := volume bv; lent := lent bv ++ [(b, 1%nat)]; cached := c |}
  end.

(** [BufferedVolume::sector]: the reference is dropped when [initialize] fails. *)
Definition sector (s : Z) : M BV VolumeError unit :=
  bv <- mget ;;
  bv' <- munwrap (checkout s bv) ;;
  mput bv' ;;;
  mcleanup (on_data s (data_initialize s)) (drop_ref s).

(** [BufferedVolume::commit] *)
Fixpoint commit_all (l : list Z) : M BV VolumeError unit :=
  match l with
  | [] => ret tt
  | s :: l =>
      sector s ;;;
      mcleanup (on_data s data_commit) (drop_ref s) ;;;
      drop_ref s ;;;
      commit_all l
  end.

Definition commit : M BV VolumeError unit :=
  bv <- mget ;;
  commit_all (b_sector <$> cached bv).

(** [BufferedSector::bytes], read and written through its guard, and
    [BufferedSector::mark_as_dirty]. *)
Definition get_bytes {E} (s : Z) : M BV E (list Z) :=
  on_data s ('(_, d) <- mget ;; ret (bytes d)).

Definition set_bytes {E} (s : Z) (l : list Z) : M BV E unit :=
  on_data s ('(v, d) <- mget ;;
             mput (v, {| d_sector := d_sector d; is_dirty := is_dirty d; bytes := l |})).

Definition mark_as_dirty {E} (s : Z) : M BV E unit :=
  on_data s ('(v, d) <- mget ;;
             mput (v, {| d_sector := d_sector d; is_dirty := true; bytes := bytes d |})).

End buffered_volume.

(** ** The interface of the cache *)

Class SectorCache (St : Type) := {
  c_sector : Z -> M St VolumeError unit;
  c_drop : forall {E}, Z -> M St E unit;
  c_bytes : forall {E}, Z -> M St E (list Z);
  c_set_bytes : forall {E}, Z -> list Z -> M St E unit;
  c_mark_as_dirty : forall {E}, Z -> M St E unit;
  c_commit : M St VolumeError unit
}.

(** The count of references [h] with one more, or with [k], for [s]. *)
Abbreviation counts := (Z -> nat).
Abbreviation disk := (Z -> list Z).

(** A state of the cache over a volume of [n] sectors of [size] bytes
    represents a disk [σ] and the references [h] that are held: taking a
    reference and dropping one leave the disk alone, and a reference reads and
    writes the sector it was taken for. *)
Class SectorCacheLaws (St : Type) `{SectorCache St} (n size : Z) := {
  rep : St -> disk -> counts -> Prop;
  rep_length st σ h s : rep st σ h -> 0 <= s < n -> zlen (σ s) = size;
  rep_bytes st σ h s : rep st σ h -> 0 <= s < n -> bytes_ok (σ s);
  rep_ext st σ h σ' h' :
    rep st σ h -> (forall s, 0 <= s < n -> σ s = σ' s) -> (forall s, h s = h' s) -> rep st σ' h';
  sector_law st σ h s :
    rep st σ h -> 0 <= s < n ->
    runs (c_sector s) st (fun _ st' => rep st' σ (<[s := S (h s)]> h));
  drop_law E st σ h s k :
    rep st σ h -> h s = S k -> runs (E := E) (c_drop s) st (fun _ st' => rep st' σ (<[s := k]> h));
  bytes_law E st σ h s :
    rep st σ h -> (0 < h s)%nat ->
    runs (E := E) (c_bytes s) st (fun b st' => b = σ s /\ rep st' σ h);
  set_bytes_law E st σ h s b :
    rep st σ h -> (0 < h s)%nat -> zlen b = size -> bytes_ok b ->
    runs (E := E) (c_set_bytes s b ;;; c_mark_as_dirty s) st (fun _ st' => rep st' (<[s := b]> σ) h);
  commit_law st σ h : rep st σ h -> runs c_commit st (fun _ st' => rep st' σ h)
}.

#[export] Instance BufferedVolume_cache {V} `{Volume V} : SectorCache (BufferedVolume V) := {|
  c_sector := sector;
  c_drop := @drop_ref V;
  c_bytes := @get_bytes V;
  c_set_bytes := @set_bytes V;
  c_mark_as_dirty := @mark_as_dirty V;
  c_commit := commit
|}.

(** ** What a state of the cache means *)

Section meaning.
Context {V : Type} `{ReliableVolume V}.
Implicit Types (v : V) (d : BufferedSectorData) (bv : BufferedVolume V).

(** All buffers, the lent ones first. *)
Definition entries bv : list BufferedSector := (fst <$> lent bv) ++ cached bv.

(** The bytes of sector [t]: those of the buffer that holds it, and those of
    the device when no buffer does. *)
Fixpoint view_data v (ds : list BufferedSectorData) (t : Z) : list Z :=
  match ds with
  | [] => content v t
  | d :: ds => if decide (d_sector d = Some t) then bytes d else view_data v ds t
  end.

Definition view bv : disk := view_data (volume bv) (data <$> entries bv).

(** The references to sector [s]. *)
Fixpoint refs (l : list (BufferedSector * nat)) (s : Z) : nat :=
  match l with
  | [] => 0%nat
  | (b, r) :: l => if b_sector b =? s then r else refs l s
  end.

(** A buffer holds a sector of the device, and its bytes when it is clean. *)
Definition data_ok v d : Prop :=
  zlen (bytes d) = sector_size v /\ bytes_ok (bytes d) /\
  (is_dirty d = true -> d_sector d <> None) /\
  (forall t, d_sector d = Some t ->
     in_range v t /\ (is_dirty d = false -> bytes d = content v t)).

Definition named (b : BufferedSector) : Prop := d_sector (data b) = Some (b_sector b).

(** Sectors in distinct buffers, every buffer holding the sector it is named
    after, and every lent buffer referenced. *)
Definition wf bv : Prop :=
  NoDup (b_sector <$> entries bv) /\
  Forall named (entries bv) /\
  Forall (fun b => data_ok (volume bv) (data b)) (entries bv) /\
  Forall (fun e => 0 < e.2)%nat (lent bv).

(** The device has the bytes of sector [t]. *)
Definition synced bv (σ : disk) (t : Z) : Prop := content (volume bv) t = σ t.

Definition cache_rep (n size : Z) bv (σ : disk) (h : counts) : Prop :=
  wf bv /\ (healthy (volume bv) /\ sector_count (volume bv) = n) /\ sector_size (volume bv) = size /\
  (forall s, in_range (volume bv) s -> view bv s = σ s) /\
  (forall s, refs (lent bv) s = h s).

End meaning.

(** ** Clients of the cache

    A client loads and stores whole sectors through references it drops at
    once, and commits; [disk_step] is what it expects. *)

Inductive request := Load (s : Z) | Store (s : Z) (b : list Z) | Commit.

Definition with_ref {V} `{Volume V} {A} (s : Z) (m : M (BufferedVolume V) VolumeError A) :
    M (BufferedVolume V) VolumeError A :=
  sector s ;;; a <- m ;; drop_ref s ;;; ret a.

Definition serve {V} `{Volume V} (q : request) : M (BufferedVolume V) VolumeError (list Z) :=
  match q with
  | Load s => with_ref s (get_bytes s)
  | Store s b => with_ref s ((set_bytes s b ;;; mark_as_dirty s) ;;; ret [])
  | Commit => commit ;;; ret []
  end.

(** The requests one after the other, whether they fail or not. *)
Fixpoint serve_all {V} `{Volume V} (l : list request) (bv : BufferedVolume V) :
    list (outcome VolumeError (list Z)) * BufferedVolume V :=
  match l with
  | [] => ([], bv)
  | q :: l =>
      let '(o, bv) := serve q bv in
      let '(os, bv) := serve_all l bv in (o :: os, bv)
  end.

Definition disk_step (σ : disk) (q : request) : list Z * disk :=
  match q with
  | Load s => (σ s, σ)
  | Store s b => ([], <[s := b]> σ)
  | Commit => ([], σ)
  end.

Fixpoint disk_steps (σ : disk) (l : list request) : list (list Z) * disk :=
  match l with
  | [] => ([], σ)
  | q :: l =>
      let '(o, σ) := disk_step σ q in
      let '(os, σ) := disk_steps σ l in (o :: os, σ)
  end.

Definition request_ok (n size : Z) (q : request) : Prop :=
  match q with
  | Load s => 0 <= s < n
  | Store s b => 0 <= s < n /\ zlen b = size /\ bytes_ok b
  | Commit => True
  end.

(** ** Volumes in memory, for concrete runs *)

(** A reliable volume: what is stored is cut or padded to the sector size. *)
Record RamVolume := { ram_count : Z; ram_size : nat; ram : gmap Z (list Z) }.

Definition ram_content (v : RamVolume) (s : Z) : list Z :=
  (fun b => b mod 256) <$> resize (ram_size v) 0 (default [] (ram v !! s)).

#[export] Instance RamVolume_volume : Volume RamVolume := {|
  sector_count := ram_count;
  sector_size v := Z.of_nat (ram_size v);
  read s := fun '(v, _) => (Ok tt, (v, ram_content v s));
  write s b := fun v =>
    (Ok tt, {| ram_count := ram_count v; ram_size := ram_size v; ram := <[s := b]> (ram v) |})
|}.

(** The same volume with a sector that cannot be read. *)
Record BadVolume := { bad_ram : RamVolume; bad_sector : Z }.

#[export] Instance BadVolume_volume : Volume BadVolume := {|
  sector_count v := ram_count (bad_ram v);
  sector_size v := Z.of_nat (ram_size (bad_ram v));
  read s := fun '(v, buf) =>
    if s =? bad_sector v then (Err {| ve_sector := s; ve_kind := Io |}, (v, buf))
    else (Ok tt, (v, ram_content (bad_ram v) s));
  write s b := fun v =>
    let '(o, r) := write s b (bad_ram v) in (o, {| bad_ram := r; bad_sector := bad_sector v |})
|}.

(** ** Lemmas: views and references *)

Section meaning_lemmas.
Context {V : Type} `{ReliableVolume V}.
Implicit Types (v : V) (d : BufferedSectorData) (bv : BufferedVolume V).

Lemma view_data_elem v ds d t :
  NoDup (omap d_sector ds) -> d ∈ ds -> d_sector d = Some t -> view_data v ds t = bytes d.
Proof.
  induction ds as [|d' ds IH]; intros Hnd Hin Ht; [by apply not_elem_of_nil in Hin|]. simpl in *.
  destruct (decide (d_sector d' = Some t)) as [Ht'|Ht'].
  - apply elem_of_cons in Hin as [->|Hin]; [done|]. rewrite Ht' in Hnd.
    apply NoDup_cons in Hnd as [Hnot _]. destruct Hnot. apply list_elem_of_omap. eauto.
  - apply elem_of_cons in Hin as [->|Hin]; [done|]. apply IH; [|done..].
    destruct (d_sector d'); [by apply NoDup_cons in Hnd as [_ ?]|done].
Qed.

Lemma view_data_not_elem v ds t :
  (forall d, d ∈ ds -> d_sector d <> Some t) -> view_data v ds t = content v t.
Proof.
  induction ds as [|d ds IH]; intros Hn; simpl; [done|].
  rewrite decide_False; [|apply Hn, elem_of_cons; by left].
  apply IH. intros d' Hd'. apply Hn, elem_of_cons. by right.
Qed.

Lemma view_data_cases (ds : list BufferedSectorData) t :
  (exists d, d ∈ ds /\ d_sector d = Some t) \/ (forall d, d ∈ ds -> d_sector d <> Some t).
Proof.
  destruct (decide (Exists (fun d => d_sector d = Some t) ds)) as [He|He].
  - left. by apply Exists_exists in He.
  - right. intros d Hd Ht. apply He, Exists_exists. eauto.
Qed.

Lemma view_data_perm v ds ds' t :
  NoDup (omap d_sector ds) -> ds ≡ₚ ds' -> view_data v ds t = view_data v ds' t.
Proof.
  intros Hnd Hp. destruct (view_data_cases ds t) as [(d & Hd & Ht)|Hn].
  - rewrite (view_data_elem v ds d), (view_data_elem v ds' d); try done.
    + by rewrite <- Hp.
    + by rewrite <- Hp.
  - rewrite !view_data_not_elem; [done| |done]. intros d. rewrite <- Hp. apply Hn.
Qed.

Lemma named_sectors bs :
  Forall named bs -> omap d_sector (data <$> bs) = b_sector <$> bs.
Proof. induction 1 as [|b bs Hb Hbs IH]; simpl; [done|]. rewrite Hb. f_equal. exact IH. Qed.

Lemma view_named bv b :
  wf bv -> b ∈ entries bv -> view bv (b_sector b) = bytes (data b).
Proof.
  intros (Hnd & Hn & _) Hb. apply view_data_elem.
  - by rewrite named_sectors.
  - by apply list_elem_of_fmap_2.
  - by apply (proj1 (Forall_forall _ _) Hn).
Qed.

Lemma refs_elem l b r :
  NoDup (b_sector <$> (fst <$> l)) -> (b, r) ∈ l -> refs l (b_sector b) = r.
Proof.
  induction l as [|[b' r'] l IH]; intros Hnd Hin; [by apply not_elem_of_nil in Hin|].
  simpl in *. apply NoDup_cons in Hnd as [Hnot Hnd]. apply elem_of_cons in Hin as [Hin|Hin].
  - simplify_eq. by rewrite Z.eqb_refl.
  - destruct (Z.eqb_spec (b_sector b') (b_sector b)) as [He|]; [|by apply IH].
    destruct Hnot. rewrite He. by apply list_elem_of_fmap_2, (list_elem_of_fmap_2 fst _ (b, r)).
Qed.

Lemma refs_not_elem l s : s ∉ (b_sector <$> (fst <$> l)) -> refs l s = 0%nat.
Proof.
  induction l as [|[b r] l IH]; simpl; [done|]. rewrite not_elem_of_cons. intros [Hne Hn].
  destruct (Z.eqb_spec (b_sector b) s); [by subst|]. by apply IH.
Qed.

Lemma refs_perm l l' s :
  NoDup (b_sector <$> (fst <$> l)) -> l ≡ₚ l' -> refs l s = refs l' s.
Proof.
  intros Hnd Hp. destruct (decide (s ∈ b_sector <$> (fst <$> l))) as [Hs|Hs].
  - apply list_elem_of_fmap in Hs as (b & -> & Hb). apply list_elem_of_fmap in Hb as ([b' r] & -> & Hb).
    simpl. rewrite (refs_elem l b' r), (refs_elem l' b' r); try done; by rewrite <- Hp.
  - rewrite !refs_not_elem; [done| |done]. by rewrite <- Hp.
Qed.

(** The buffer a held reference points to. *)
Lemma refs_split l s :
  (0 < refs l s)%nat -> exists l1 b r l2,
    l = l1 ++ (b, r) :: l2 /\ b_sector b = s /\ refs l s = r /\
    Forall (fun e => has_sector s e.1 = false) l1.
Proof.
  induction l as [|[b r] l IH]; simpl; [lia|].
  destruct (Z.eqb_spec (b_sector b) s) as [Hs|Hs]; intros Hr.
  - exists [], b, r, l. auto.
  - destruct (IH Hr) as (l1 & b' & r' & l2 & -> & Hb & Hr' & Hl).
    exists ((b, r) :: l1), b', r', l2. split_and!; try done. constructor; [|done].
    unfold has_sector. simpl. lia.
Qed.

Lemma position_app {A} (p : A -> bool) l1 x l2 :
  Forall (fun y => p y = false) l1 -> p x = true ->
  position p (l1 ++ x :: l2) = Some (length l1).
Proof.
  intros Hl Hx. induction Hl as [|y l1 Hy Hl IH]; simpl; [by rewrite Hx|].
  by rewrite Hy, IH.
Qed.

Lemma position_split {A} (p : A -> bool) l i :
  position p l = Some i -> exists l1 x l2, l = l1 ++ x :: l2 /\ i = length l1 /\ p x = true /\
    Forall (fun y => p y = false) l1.
Proof.
  revert i. induction l as [|y l IH]; intros i; simpl; [done|]. destruct (p y) eqn:Hy.
  - intros [= <-]. by exists [], y, l.
  - destruct (position p l) as [j|]; [|done]. intros [= <-].
    destruct (IH j eq_refl) as (l1 & x & l2 & -> & -> & Hx & Hl). exists (y :: l1), x, l2. auto.
Qed.

Lemma lent_lookup bv l1 b r l2 s :
  lent bv = l1 ++ (b, r) :: l2 -> b_sector b = s ->
  Forall (fun e => has_sector s e.1 = false) l1 ->
  (i ← lent_position s bv; e ← lent bv !! i; Some (i, e)) = Some (length l1, (b, r)).
Proof.
  intros Hl Hb Hl1. unfold lent_position. rewrite Hl, position_app; [|done|].
  - simpl. by rewrite list_lookup_middle.
  - unfold has_sector. simpl. lia.
Qed.

End meaning_lemmas.

(** ** Lemmas: the data of one buffer *)

Section data_lemmas.
Context {V : Type} `{ReliableVolume V}.
Implicit Types (v : V) (d : BufferedSectorData) (bv : BufferedVolume V).

Definition geometry v v' : Prop :=
  (healthy v' /\ sector_count v' = sector_count v) /\ sector_size v' = sector_size v.

Lemma data_ok_other v v' d :
  geometry v v' -> (forall t, d_sector d = Some t -> content v' t = content v t) ->
  data_ok v d -> data_ok v' d.
Proof.
  intros [[_ Hc] Hs] Ht (Hl & Hb & Hd & Hk). unfold data_ok, in_range. rewrite Hs, Hc.
  split_and!; try done. intros t Hdt. destruct (Hk t Hdt). rewrite Ht by done. done.
Qed.

Lemma view_data_content v v' ds t :
  content v' t = content v t -> view_data v' ds t = view_data v ds t.
Proof. intros He. induction ds; simpl; [done|]. by rewrite IHds. Qed.

Lemma data_commit_ok v d :
  healthy v -> data_ok v d -> exists v',
    data_commit (v, d) =
      (Ok tt, (v', {| d_sector := d_sector d; is_dirty := false; bytes := bytes d |})) /\
    geometry v v' /\
    forall t, content v' t = if decide (d_sector d = Some t) then bytes d else content v t.
Proof.
  intros Hhl (Hl & Hb & Hd & Hk). unfold data_commit, mbnd, mget. simpl.
  destruct (is_dirty d) eqn:Hdirty.
  - destruct (d_sector d) as [s|] eqn:Hs; [|by destruct Hd]. simpl.
    destruct (Hk s eq_refl) as [Hr _].
    destruct (write_reliable v s (bytes d) Hhl Hr Hl Hb) as (v' & Hw & Hhl' & Hc & Hz & Ht).
    exists v'. unfold mfst, mput. simpl. rewrite Hw, Hs. split_and!; try done. intros t. rewrite Ht.
    by repeat case_decide; simplify_eq.
  - exists v. split_and!; try done.
    + unfold ret. by destruct d; simpl in *; subst.
    + intros t. case_decide as Ht; [|done]. destruct (Hk t Ht) as [_ He]. by rewrite He.
Qed.

Lemma data_read_ok v d s :
  healthy v -> in_range v s -> zlen (bytes d) = sector_size v -> exists v',
    data_read s (v, d) =
      (Ok tt, (v', {| d_sector := d_sector d; is_dirty := is_dirty d; bytes := content v s |})) /\
    geometry v v' /\ forall t, content v' t = content v t.
Proof.
  intros Hhl Hs Hl. destruct (read_reliable v s (bytes d) Hhl Hs Hl) as (v' & Hr & Hhl' & Hc & Hz & Ht).
  exists v'. unfold data_read. by rewrite Hr.
Qed.

(** [initialize] on a reliable device: the buffer gets the sector, and what
    it held before is on the device. *)
Lemma data_initialize_run v d s :
  healthy v -> data_ok v d -> in_range v s -> exists v' d',
    data_initialize s (v, d) = (Ok tt, (v', d')) /\ geometry v v' /\
    d_sector d' = Some s /\ is_dirty d' = false /\ data_ok v' d' /\
    (forall t, content v' t = if decide (d_sector d = Some t) then bytes d else content v t).
Proof.
  intros Hhl Hok Hs. destruct (data_commit_ok v d Hhl Hok) as (v1 & Hc & Hg1 & Ht1).
  destruct Hok as (Hl & Hb & Hd & Hk). pose proof Hg1 as [[Hhl1 Hc1] Hs1].
  unfold data_initialize. rewrite (mbnd_ok _ _ _ _ _ Hc). unfold mbnd at 1, mget at 1. simpl.
  destruct (decide (d_sector d <> Some s)) as [Hne|Heq].
  - destruct (data_read_ok v1 {| d_sector := d_sector d; is_dirty := false; bytes := bytes d |} s)
      as (v2 & Hr & [[Hhl2 Hc2] Hs2] & Ht2); [done|unfold in_range in *; lia|simpl; lia|].
    rewrite (mbnd_ok _ _ _ _ _ Hr). eexists v2, _. split; [done|]. unfold geometry, data_ok, in_range in *.
    simpl. split_and!; try done; try lia.
    + rewrite content_length; [|done|]; unfold in_range in *; lia.
    + apply content_bytes; [done|]. unfold in_range in *. lia.
    + intros t [= <-]. split; [lia|]. intros _. by rewrite Ht2.
    + intros t. by rewrite Ht2, Ht1.
  - assert (He : d_sector d = Some s) by (by apply dec_stable).
    eexists v1, _. split; [done|]. unfold data_ok, in_range in *. simpl.
    split_and!; try done; try lia. intros t Ht. rewrite Ht1, decide_True by done.
    destruct (Hk t Ht). rewrite Hc1. done.
Qed.

Lemma data_initialize_ok v d s rest :
  healthy v -> data_ok v d -> Forall (data_ok v) rest -> NoDup (omap d_sector (d :: rest)) ->
  (forall d', d' ∈ rest -> d_sector d' <> Some s) -> in_range v s -> exists v' d',
    data_initialize s (v, d) = (Ok tt, (v', d')) /\ geometry v v' /\
    d_sector d' = Some s /\ Forall (data_ok v') (d' :: rest) /\
    (forall t, in_range v t -> view_data v' (d' :: rest) t = view_data v (d :: rest) t) /\
    (forall t, t = s \/ content v t = view_data v (d :: rest) t ->
       content v' t = view_data v (d :: rest) t).
Proof.
  intros Hhl Hok Hrest Hnd Hn Hs.
  destruct (data_initialize_run v d s Hhl Hok Hs) as (v' & d' & Hi & Hg & Hd' & Hclean & Hok' & Ht).
  assert (Hne : forall d'' t, d'' ∈ rest -> d_sector d = Some t -> d_sector d'' <> Some t).
  { intros d'' t Hin Hdt Hdt'. simpl in Hnd. rewrite Hdt in Hnd. apply NoDup_cons in Hnd as [Hnot _].
    apply Hnot, list_elem_of_omap. eauto. }
  exists v', d'. split_and!; try done.
  - constructor; [done|]. apply Forall_forall. intros d'' Hin.
    apply (data_ok_other v); [done| |by eapply Forall_forall in Hrest].
    intros t Hdt. rewrite Ht, decide_False; [done|]. intros Hd. by eapply Hne.
  - intros t Hr. simpl. rewrite Hd'.
    destruct Hok' as (_ & _ & _ & Hk'). destruct (Hk' s Hd') as [Hs' Hk].
    destruct (decide (Some s = Some t)) as [[= <-]|Hst].
    + rewrite Hk by done. rewrite Ht. case_decide; [done|]. by rewrite view_data_not_elem.
    + case_decide as Hdt.
      * rewrite view_data_not_elem; [|intros d'' Hin; by eapply Hne]. by rewrite Ht, decide_True.
      * apply view_data_content. by rewrite Ht, decide_False.
  - intros t Hts. rewrite Ht. simpl in *. case_decide; [done|].
    destruct Hts as [->|]; [|done]. by rewrite view_data_not_elem.
Qed.

End data_lemmas.

(** ** Lemmas: taking a reference *)

Section checkout_lemmas.
Context {V : Type} `{ReliableVolume V}.
Implicit Types (v : V) (bv : BufferedVolume V) (b : BufferedSector).

(** The buffer of [s] has been taken out and not been initialised yet: it may
    hold another sector, or none. *)
Record pending (s : Z) bv l1 b r l2 : Prop := {
  p_lent : lent bv = l1 ++ (b, r) :: l2;
  p_sector : b_sector b = s;
  p_nodup : NoDup (b_sector <$> entries bv);
  p_named : Forall named ((fst <$> l1) ++ (fst <$> l2) ++ cached bv);
  p_data : Forall (fun b => data_ok (volume bv) (data b)) (entries bv);
  p_held : NoDup (omap d_sector (data <$> entries bv));
  p_refs : Forall (fun e => 0 < e.2)%nat (lent bv)
}.

Lemma entries_split bv l1 b r l2 :
  lent bv = l1 ++ (b, r) :: l2 ->
  entries bv ≡ₚ b :: (fst <$> l1) ++ (fst <$> l2) ++ cached bv.
Proof.
  intros Hl. unfold entries. rewrite Hl, fmap_app, fmap_cons. simpl.
  rewrite <- app_assoc. simpl. by rewrite <- Permutation_middle.
Qed.

Lemma pending_no_s s bv l1 b r l2 :
  pending s bv l1 b r l2 -> Forall (fun e => has_sector s e.1 = false) l1.
Proof.
  intros Hp. apply Forall_forall. intros [b' r'] Hin. unfold has_sector. simpl.
  apply Z.eqb_neq. intros Hs. pose proof (p_nodup _ _ _ _ _ _ Hp) as Hnd.
  rewrite (entries_split _ _ _ _ _ (p_lent _ _ _ _ _ _ Hp)) in Hnd. simpl in Hnd.
  apply NoDup_cons in Hnd as [Hnot _]. apply Hnot. rewrite (p_sector _ _ _ _ _ _ Hp), <- Hs.
  apply list_elem_of_fmap_2. rewrite elem_of_app. left.
  by apply (list_elem_of_fmap_2 fst _ (b', r')).
Qed.

Lemma wf_data_nodup bv : wf bv -> NoDup (omap d_sector (data <$> entries bv)).
Proof. intros (Hnd & Hn & _). by rewrite named_sectors. Qed.

Lemma lent_nodup bv : NoDup (b_sector <$> entries bv) -> NoDup (b_sector <$> (fst <$> lent bv)).
Proof. unfold entries. rewrite fmap_app. by intros [? _]%NoDup_app. Qed.

(** A lent buffer gets one more reference. *)
Lemma pending_lent bv l1 b r l2 s :
  wf bv -> lent bv = l1 ++ (b, r) :: l2 -> b_sector b = s ->
  pending s (set_lent (l1 ++ (b, r + 1)%nat :: l2) bv) l1 b (r + 1)%nat l2.
Proof.
  intros Hwf Hl Hb. pose proof (wf_data_nodup _ Hwf) as Hd. destruct Hwf as (Hnd & Hn & Hok & Hr).
  assert (He : entries (set_lent (l1 ++ (b, r + 1)%nat :: l2) bv) = entries bv).
  { unfold entries. simpl. by rewrite Hl, !fmap_app, !fmap_cons. }
  split; rewrite ?He; try done; simpl.
  - rewrite (entries_split _ _ _ _ _ Hl) in Hn. by apply Forall_cons in Hn as [_ ?].
  - rewrite Hl in Hr. rewrite Forall_app, Forall_cons in *. simpl in *. naive_solver lia.
Qed.

(** A buffer that was not lent, put at the end of [lent] under the name [s]. *)
Lemma pending_push bv b c s :
  wf bv -> s ∉ (b_sector <$> (fst <$> lent bv)) -> b_sector b = s ->
  s ∉ (b_sector <$> c) -> c ⊆+ cached bv -> data_ok (volume bv) (data b) ->
  NoDup (omap d_sector (data <$> (fst <$> lent bv) ++ b :: c)) ->
  pending s {| volume := volume bv; lent := lent bv ++ [(b, 1%nat)]; cached := c |}
    (lent bv) b 1 [].
Proof.
  intros Hwf Hs Hb Hc Hsub Hok Hdn. destruct Hwf as (Hnd & Hn & Hoks & Hr).
  assert (He : entries {| volume := volume bv; lent := lent bv ++ [(b, 1%nat)]; cached := c |}
    = (fst <$> lent bv) ++ b :: c).
  { unfold entries. simpl. rewrite fmap_app. simpl. by rewrite <- app_assoc. }
  assert (Hsube : (fst <$> lent bv) ++ c ⊆+ entries bv) by (by apply submseteq_app).
  apply submseteq_Permutation in Hsube as [k Hk].
  rewrite Hk in Hnd, Hn, Hoks. rewrite fmap_app in Hnd. apply NoDup_app in Hnd as [Hnd _].
  apply Forall_app in Hn as [Hn _]. apply Forall_app in Hoks as [Hoks _].
  split; rewrite ?He; try done; simpl.
  - rewrite fmap_app, fmap_cons, <- Permutation_middle, Hb. apply NoDup_cons. split.
    + rewrite elem_of_app. naive_solver.
    + by rewrite <- fmap_app.
  - rewrite <- Permutation_middle. by constructor.
  - rewrite Forall_app, Forall_singleton. simpl. split; [done|lia].
Qed.

End checkout_lemmas.

Section sector_lemmas.
Context {V : Type} `{ReliableVolume V}.
Implicit Types (v : V) (bv : BufferedVolume V) (b : BufferedSector).

(** What [checkout] leaves alone. *)
Definition same_disk bv bv' : Prop :=
  volume bv' = volume bv /\ forall t, view bv' t = view bv t.

Lemma checkout_lent bv s l1 b r l2 :
  wf bv -> lent bv = l1 ++ (b, r) :: l2 -> b_sector b = s ->
  Forall (fun e => has_sector s e.1 = false) l1 ->
  checkout s bv = Some (set_lent (l1 ++ (b, r + 1)%nat :: l2) bv).
Proof.
  intros Hwf Hl Hb Hl1. unfold checkout, lent_position. rewrite Hl, position_app; [|done|].
  - rewrite list_lookup_middle by done. simpl. rewrite insert_app_r_alt, Nat.sub_diag by lia. done.
  - unfold has_sector. simpl. lia.
Qed.

Lemma refs_insert (l1 l2 : list (BufferedSector * nat)) b b' r r' s t :
  b_sector b = s -> b_sector b' = s -> Forall (fun e => has_sector s e.1 = false) l1 ->
  refs (l1 ++ (b', r') :: l2) t = (<[s := r']> (refs (l1 ++ (b, r) :: l2)) : counts) t.
Proof.
  intros Hb Hb' Hl. destruct (decide (s = t)) as [<-|Hst].
  - rewrite fn_lookup_insert. induction Hl as [|[b0 r0] l1 Hb0 Hl IH]; simpl.
    + by rewrite Hb', Z.eqb_refl.
    + unfold has_sector in Hb0. simpl in Hb0. by rewrite Hb0.
  - rewrite fn_lookup_insert_ne by done. clear Hl.
    induction l1 as [|[b0 r0] l1 IH]; simpl; [|by rewrite IH].
    rewrite Hb, Hb'. by destruct (Z.eqb_spec s t).
Qed.

Lemma refs_push (l : list (BufferedSector * nat)) b s t :
  b_sector b = s -> refs l s = 0%nat -> s ∉ (b_sector <$> (fst <$> l)) ->
  refs (l ++ [(b, 1%nat)]) t = (<[s := S (refs l s)]> (refs l) : counts) t.
Proof.
  intros Hb Hz Hs. rewrite Hz. destruct (decide (s = t)) as [<-|Hst].
  - rewrite fn_lookup_insert. clear Hz. induction l as [|[b0 r0] l IH]; simpl in *.
    + by rewrite Hb, Z.eqb_refl.
    + rewrite not_elem_of_cons in Hs. destruct (Z.eqb_spec (b_sector b0) s); [naive_solver|].
      apply IH. naive_solver.
  - rewrite fn_lookup_insert_ne by done. clear Hz Hs. induction l as [|[b0 r0] l IH]; simpl.
    + rewrite Hb. by destruct (Z.eqb_spec s t).
    + by rewrite IH.
Qed.

Lemma has_sector_fresh {A} (f : A -> BufferedSector) l s :
  position (fun e => has_sector s (f e)) l = None -> s ∉ (b_sector <$> (f <$> l)).
Proof.
  intros Hp%position_None Hin. apply list_elem_of_fmap in Hin as (b & -> & Hb).
  apply list_elem_of_fmap in Hb as (e & -> & He).
  apply (proj1 (Forall_forall _ _) Hp) in He. unfold has_sector in He. by rewrite Z.eqb_refl in He.
Qed.

Lemma last_split {A} (l : list A) x : last l = Some x -> l = take (length l - 1) l ++ [x].
Proof.
  destruct l as [|y l _] using rev_ind; [done|]. rewrite last_snoc. intros [= ->].
  rewrite length_app. simpl. replace (length l + 1 - 1)%nat with (length l) by lia.
  by rewrite take_app_length.
Qed.

Lemma view_perm bv bv' :
  volume bv' = volume bv -> NoDup (omap d_sector (data <$> entries bv)) ->
  data <$> entries bv ≡ₚ data <$> entries bv' -> same_disk bv bv'.
Proof.
  intros Hv Hnd Hp. split; [done|]. intros t. unfold view. rewrite Hv. symmetry.
  by apply view_data_perm.
Qed.

(** A cached buffer is taken, under its own name or under a new one. *)
Lemma pending_cached bv b b0 c s :
  wf bv -> s ∉ (b_sector <$> (fst <$> lent bv)) -> cached bv ≡ₚ b0 :: c ->
  data b = data b0 -> b_sector b = s -> s ∉ (b_sector <$> c) ->
  let bv' := {| volume := volume bv; lent := lent bv ++ [(b, 1%nat)]; cached := c |} in
  pending s bv' (lent bv) b 1 [] /\ same_disk bv bv'.
Proof.
  intros Hwf Hs Hc Hd Hb Hsc bv'.
  assert (Hp : data <$> entries bv ≡ₚ data <$> (fst <$> lent bv) ++ b :: c).
  { unfold entries. by rewrite Hc, !fmap_app, !fmap_cons, Hd. }
  split.
  - apply pending_push; try done.
    + rewrite Hc. by apply submseteq_cons.
    + destruct Hwf as (_ & _ & Hok & _). rewrite Hd. unfold entries in Hok.
      rewrite Hc in Hok. rewrite Forall_app, Forall_cons in Hok. naive_solver.
    + rewrite <- Hp. by apply wf_data_nodup.
  - apply view_perm; [done|by apply wf_data_nodup|]. rewrite Hp. unfold entries, bv'. simpl.
    by rewrite !fmap_app, <- app_assoc.
Qed.

(** A new buffer is made. *)
Lemma pending_new bv s :
  wf bv -> 0 <= sector_size (volume bv) -> s ∉ (b_sector <$> (fst <$> lent bv)) -> s ∉ (b_sector <$> cached bv) ->
  let b := new_sector s (volume bv) in
  let bv' := {| volume := volume bv; lent := lent bv ++ [(b, 1%nat)]; cached := cached bv |} in
  pending s bv' (lent bv) b 1 [] /\ same_disk bv bv'.
Proof.
  intros Hwf Hz Hs Hsc b bv'.
  assert (Hp : data <$> entries bv' ≡ₚ data b :: (data <$> entries bv)).
  { unfold entries, bv'. simpl. rewrite !fmap_app, <- app_assoc. simpl.
    by rewrite <- Permutation_middle. }
  assert (Ho : omap d_sector (data <$> entries bv') ≡ₚ omap d_sector (data <$> entries bv)) by (by rewrite Hp).
  assert (Hnd : NoDup (omap d_sector (data <$> entries bv'))).
  { rewrite Ho. by apply wf_data_nodup. }
  split.
  - apply pending_push; try done.
    + unfold data_ok, b. simpl. rewrite length_replicate. split_and!; try done; [lia|].
      apply Forall_replicate. unfold unsigned. lia.
    + unfold entries, bv' in Hnd. simpl in Hnd. rewrite (fmap_app fst), <- app_assoc in Hnd. exact Hnd.
  - split; [done|]. intros t. unfold view. rewrite (view_data_perm _ _ _ t Hnd Hp). done.
Qed.

Lemma checkout_spec_lent bv s i :
  wf bv -> lent_position s bv = Some i -> exists bv' l1 b r l2,
    checkout s bv = Some bv' /\ pending s bv' l1 b r l2 /\ same_disk bv bv' /\
    (forall t, refs (lent bv') t = (<[s := S (refs (lent bv) s)]> (refs (lent bv)) : counts) t).
Proof.
  intros Hwf (l1 & [b r] & l2 & Hl & _ & Hb & Hl1)%position_split.
  assert (Hs : b_sector b = s) by (unfold has_sector in Hb; simpl in Hb; lia).
  exists (set_lent (l1 ++ (b, r + 1)%nat :: l2) bv), l1, b, (r + 1)%nat, l2. split_and!.
  - by apply checkout_lent.
  - by apply pending_lent.
  - apply view_perm; [done|by apply wf_data_nodup|]. unfold entries. simpl.
    by rewrite Hl, !fmap_app, !fmap_cons.
  - intros t. simpl. rewrite Hl. rewrite (refs_insert l1 l2 b b r (r + 1) s t) by done.
    do 2 f_equal. pose proof (refs_insert l1 l2 b b r r s s Hs Hs Hl1) as Hr.
    rewrite fn_lookup_insert in Hr. lia.
Qed.

(** The buffer [checkout] picks when [s] is not lent, in its three cases. *)
Lemma checkout_pick bv s :
  wf bv -> 0 <= sector_size (volume bv) -> s ∉ (b_sector <$> (fst <$> lent bv)) -> exists b c,
    match position (has_sector s) (cached bv) with
    | Some i => b ← cached bv !! i; Some (b, delete i (cached bv))
    | None => if (EXPECTED_CACHE_SIZE <=? length (cached bv))%nat
        then b ← last (cached bv); Some (recycle s b, take (length (cached bv) - 1) (cached bv))
        else Some (new_sector s (volume bv), cached bv)
    end = Some (b, c) /\
    let bv' := {| volume := volume bv; lent := lent bv ++ [(b, 1%nat)]; cached := c |} in
    pending s bv' (lent bv) b 1 [] /\ same_disk bv bv'.
Proof.
  intros Hwf Hz Hs. destruct (position (has_sector s) (cached bv)) as [i|] eqn:Hpos.
  - apply position_Some in Hpos as (b & Hb & Hbs). rewrite Hb. simpl.
    assert (Hsec : b_sector b = s) by (unfold has_sector in Hbs; lia).
    exists b, (delete i (cached bv)). split; [done|].
    pose proof (delete_Permutation _ _ _ Hb) as Hp. apply (pending_cached _ _ b); try done.
    destruct Hwf as (Hnd & _). unfold entries in Hnd. rewrite fmap_app in Hnd.
    apply NoDup_app in Hnd as (_ & _ & Hnd). rewrite Hp in Hnd. simpl in Hnd. rewrite Hsec in Hnd.
    by apply NoDup_cons in Hnd as [? _].
  - apply (has_sector_fresh (fun b => b)) in Hpos. rewrite list_fmap_id in Hpos.
    case_match eqn:Hlen; [|exists (new_sector s (volume bv)), (cached bv); split; [done|by apply pending_new]].
    apply Nat.leb_le in Hlen. unfold EXPECTED_CACHE_SIZE in Hlen.
    destruct (last (cached bv)) as [b|] eqn:Hl; [|apply last_None in Hl; rewrite Hl in Hlen; simpl in Hlen; lia].
    simpl. eexists _, _. split; [done|]. apply last_split in Hl.
    apply (pending_cached _ _ b); try done.
    + rewrite Hl at 1. by rewrite <- Permutation_cons_append.
    + intros Hin. apply Hpos. rewrite Hl, fmap_app, elem_of_app. by left.
Qed.

Lemma checkout_spec_fresh bv s :
  wf bv -> 0 <= sector_size (volume bv) -> lent_position s bv = None -> exists bv' l1 b r l2,
    checkout s bv = Some bv' /\ pending s bv' l1 b r l2 /\ same_disk bv bv' /\
    (forall t, refs (lent bv') t = (<[s := S (refs (lent bv) s)]> (refs (lent bv)) : counts) t).
Proof.
  intros Hwf Hz Hpos. pose proof (has_sector_fresh fst _ _ Hpos) as Hfresh.
  unfold checkout. rewrite Hpos.
  destruct (checkout_pick bv s Hwf Hz Hfresh) as (b & c & -> & Hp & Hd). simpl. eexists _, (lent bv), b, 1%nat, [].
  split_and!; [done..|]. intros t. apply refs_push; [by destruct Hp|by apply refs_not_elem|done].
Qed.

Lemma checkout_spec bv s :
  wf bv -> 0 <= sector_size (volume bv) -> exists bv' l1 b r l2,
    checkout s bv = Some bv' /\ pending s bv' l1 b r l2 /\ same_disk bv bv' /\
    (forall t, refs (lent bv') t = (<[s := S (refs (lent bv) s)]> (refs (lent bv)) : counts) t).
Proof.
  intros Hwf Hz. destruct (lent_position s bv) as [i|] eqn:Hpos.
  - by eapply checkout_spec_lent.
  - by apply checkout_spec_fresh.
Qed.

End sector_lemmas.

(** ** The cache over a reliable volume satisfies the interface *)

Section cache_laws.
Context {V : Type} `{ReliableVolume V} (n size : Z).
Implicit Types (v : V) (bv : BufferedVolume V) (b : BufferedSector) (σ : disk) (h : counts).

Lemma on_data_run {E A} s (m : M (V * BufferedSectorData) E A) bv l1 b r l2 :
  lent bv = l1 ++ (b, r) :: l2 -> b_sector b = s ->
  Forall (fun e => has_sector s e.1 = false) l1 ->
  on_data s m bv = let '(o, (v', d')) := m (volume bv, data b) in
    (o, {| volume := v';
           lent := l1 ++ ({| b_sector := s; data := d' |}, r) :: l2;
           cached := cached bv |}).
Proof.
  intros Hl Hb Hl1. unfold on_data. rewrite (lent_lookup _ _ _ _ _ _ Hl Hb Hl1).
  destruct (m (volume bv, data b)) as [o [v' d']]. rewrite Hl, Hb.
  by rewrite insert_app_r_alt, Nat.sub_diag by lia.
Qed.

Lemma entries_set v' l1 r l2 c d' s :
  entries (V := V) {| volume := v'; lent := l1 ++ ({| b_sector := s; data := d' |}, r) :: l2; cached := c |}
    ≡ₚ {| b_sector := s; data := d' |} :: (fst <$> l1) ++ (fst <$> l2) ++ c.
Proof. by apply (entries_split {| volume := v' |} _ {| b_sector := s; data := d' |} r). Qed.

(** Replacing the data of one buffer in a state with named buffers. *)
Lemma wf_set bv l1 b r l2 s v' d' :
  lent bv = l1 ++ (b, r) :: l2 -> b_sector b = s -> NoDup (b_sector <$> entries bv) ->
  Forall named ((fst <$> l1) ++ (fst <$> l2) ++ cached bv) ->
  Forall (fun e => 0 < e.2)%nat (lent bv) -> d_sector d' = Some s ->
  Forall (data_ok v') (d' :: (data <$> (fst <$> l1) ++ (fst <$> l2) ++ cached bv)) ->
  wf {| volume := v'; lent := l1 ++ ({| b_sector := s; data := d' |}, r) :: l2; cached := cached bv |}.
Proof.
  intros Hl Hb Hnd Hn Hr Hd Hok. unfold wf. rewrite entries_set. split_and!.
  - rewrite (entries_split _ _ _ _ _ Hl) in Hnd. simpl in *. by rewrite Hb in Hnd.
  - by constructor.
  - apply Forall_cons in Hok as [? Hok]. constructor; [done|]. by rewrite Forall_fmap in Hok.
  - simpl. rewrite Hl in Hr. rewrite Forall_app, Forall_cons in *. done.
Qed.

Lemma view_set bv l1 b r l2 s v' d' t :
  lent bv = l1 ++ (b, r) :: l2 -> b_sector b = s -> NoDup (b_sector <$> entries bv) ->
  Forall named ((fst <$> l1) ++ (fst <$> l2) ++ cached bv) -> d_sector d' = Some s ->
  view {| volume := v'; lent := l1 ++ ({| b_sector := s; data := d' |}, r) :: l2; cached := cached bv |} t =
  view_data v' (d' :: (data <$> (fst <$> l1) ++ (fst <$> l2) ++ cached bv)) t.
Proof.
  intros Hl Hb Hnd Hn Hd. unfold view. symmetry. apply view_data_perm.
  - rewrite (entries_split _ _ _ _ _ Hl) in Hnd. simpl in *.
    rewrite Hd. pose proof (named_sectors _ Hn) as Ho. unfold omap in Ho. rewrite Ho. by rewrite <- Hb.
  - by rewrite entries_set.
Qed.

Lemma named_other bv l1 b r l2 s :
  lent bv = l1 ++ (b, r) :: l2 -> b_sector b = s -> NoDup (b_sector <$> entries bv) ->
  Forall named ((fst <$> l1) ++ (fst <$> l2) ++ cached bv) ->
  forall d, d ∈ data <$> (fst <$> l1) ++ (fst <$> l2) ++ cached bv -> d_sector d <> Some s.
Proof.
  intros Hl Hb Hnd Hn d Hin. apply list_elem_of_fmap in Hin as (b' & -> & Hin).
  rewrite (proj1 (Forall_forall _ _) Hn b' Hin). intros [= Hbs].
  rewrite (entries_split _ _ _ _ _ Hl) in Hnd. simpl in Hnd. apply NoDup_cons in Hnd as [Hnot _].
  apply Hnot. rewrite Hb, <- Hbs. by apply list_elem_of_fmap_2.
Qed.

Lemma pending_initialize bv s l1 b r l2 :
  pending s bv l1 b r l2 -> healthy (volume bv) -> in_range (volume bv) s -> exists bv',
    on_data s (data_initialize s) bv = (Ok tt, bv') /\ wf bv' /\
    geometry (volume bv) (volume bv') /\
    (forall t, in_range (volume bv) t -> view bv' t = view bv t) /\
    (forall t, refs (lent bv') t = refs (lent bv) t) /\
    (forall t, t = s \/ content (volume bv) t = view bv t -> content (volume bv') t = view bv t).
Proof.
  intros Hp Hhl Hs. pose proof (pending_no_s _ _ _ _ _ _ Hp) as Hl1.
  destruct Hp as [Hl Hb Hnd Hn Hok Hdn Hr].
  pose proof (entries_split _ _ _ _ _ Hl) as He.
  pose proof (fmap_Permutation data _ _ He) as Hde. rewrite fmap_cons in Hde.
  pose proof Hok as Hok'. rewrite He in Hok'. apply Forall_cons in Hok' as [Hb' Hrest].
  apply (proj2 (Forall_fmap data (data_ok (volume bv)) _)) in Hrest.
  destruct (data_initialize_ok (volume bv) (data b) s
    (data <$> (fst <$> l1) ++ (fst <$> l2) ++ cached bv)) as (v' & d' & Hi & Hg & Hd' & Hoks & Hv & Hsync);
    [done|done|done|by rewrite <- Hde|by eapply named_other|done|].
  eexists. rewrite (on_data_run s _ _ _ _ _ _ Hl Hb Hl1), Hi. split_and!; [done|by eapply wf_set|done| | |].
  - intros t Ht. rewrite (view_set bv l1 b r l2) by done. rewrite Hv by done.
    unfold view. symmetry. by apply view_data_perm.
  - intros t. simpl. rewrite Hl, (refs_insert l1 l2 b _ r r s t) by done.
    pose proof (refs_insert l1 l2 b b r r s t Hb Hb Hl1) as Hrr. by rewrite <- Hrr.
  - intros t. unfold view. rewrite (view_data_perm _ _ _ t Hdn Hde). simpl. apply Hsync.
Qed.

Lemma sector_run bv σ h s :
  cache_rep n size bv σ h -> 0 <= s < n ->
  runs (sector s) bv (fun _ bv' => cache_rep n size bv' σ (<[s := S (h s)]> h) /\
    forall t, 0 <= t < n -> t = s \/ synced bv σ t -> synced bv' σ t).
Proof.
  intros (Hwf & Hn & Hz & Hv & Hh) Hs.
  assert (Hr : in_range (volume bv) s) by (unfold in_range; lia).
  destruct (checkout_spec bv s Hwf) as (bv1 & l1 & b & r & l2 & Hc & Hp & [Hvol Hview] & Hrefs).
  { rewrite <- (content_length _ _ (proj1 Hn) Hr). lia. }
  destruct (pending_initialize bv1 s l1 b r l2 Hp) as (bv2 & Hi & Hwf2 & [[Hhl2 Hg1] Hg2] & Hv2 & Hr2 & Hsync);
    [rewrite Hvol; by apply Hn|by rewrite Hvol|].
  apply runs_Ok. exists tt, bv2. split.
  - unfold sector, mbnd, mget, mput, mcleanup. rewrite Hc. simpl. by rewrite Hi.
  - rewrite Hvol in *. unfold cache_rep, synced. unfold in_range in *.
    split_and!; [done|done|lia|lia| | |].
    + intros t Ht. rewrite Hv2, Hview by lia. apply Hv. lia.
    + intros t. rewrite Hr2, Hrefs. rewrite <- (Hh s).
      destruct (decide (s = t)) as [<-|]; [by rewrite !fn_lookup_insert|].
      rewrite !fn_lookup_insert_ne by done. apply Hh.
    + intros t Ht Hts. rewrite <- (Hv t), <- Hview by lia. apply Hsync.
      by rewrite Hview, Hv by lia.
Qed.

(** The buffer of a held reference, with what [cache_rep] says of it. *)
Lemma held_split bv σ h s :
  cache_rep n size bv σ h -> (0 < h s)%nat -> exists l1 b l2,
    lent bv = l1 ++ (b, h s) :: l2 /\ b_sector b = s /\ named b /\
    Forall (fun e => has_sector s e.1 = false) l1 /\
    bytes (data b) = σ s /\ data_ok (volume bv) (data b) /\
    Forall named ((fst <$> l1) ++ (fst <$> l2) ++ cached bv).
Proof.
  intros (Hwf & Hn & Hz & Hv & Hh) Hs. rewrite <- (Hh s) in Hs.
  destruct (refs_split _ _ Hs) as (l1 & b & r & l2 & Hl & Hb & Hr & Hl1).
  rewrite Hh in Hr. subst r. exists l1, b, l2.
  assert (Hin : b ∈ entries bv) by (rewrite (entries_split _ _ _ _ _ Hl); left).
  pose proof Hwf as (Hnd & Hnm & Hok & _).
  pose proof (proj1 (Forall_forall _ _) Hnm b Hin) as Hnb.
  pose proof (proj1 (Forall_forall _ _) Hok b Hin) as Hob. simpl in Hob.
  split_and!; try done.
  - rewrite <- (view_named bv b), Hb by done. apply Hv.
    destruct Hob as (_ & _ & _ & Hk). destruct (Hk s) as [? _]; [|done]. by rewrite <- Hb.
  - rewrite (entries_split _ _ _ _ _ Hl) in Hnm. by apply Forall_cons in Hnm as [_ ?].
Qed.

Lemma bytes_run {E} bv σ h s :
  cache_rep n size bv σ h -> (0 < h s)%nat -> get_bytes (E := E) s bv = (Ok (σ s), bv).
Proof.
  intros Hrep Hs.
  destruct (held_split _ _ _ _ Hrep Hs) as (l1 & b & l2 & Hl & Hb & _ & Hl1 & <- & _).
  unfold get_bytes. rewrite (on_data_run s _ _ _ _ _ _ Hl Hb Hl1). simpl. f_equal.
  destruct bv. simpl in *. rewrite Hl. repeat f_equal. destruct b. simpl in *. by subst.
Qed.

Lemma view_split bv l1 b r l2 t :
  wf bv -> lent bv = l1 ++ (b, r) :: l2 ->
  view bv t = view_data (volume bv) (data b :: (data <$> (fst <$> l1) ++ (fst <$> l2) ++ cached bv)) t.
Proof.
  intros Hwf Hl. apply view_data_perm; [by apply wf_data_nodup|].
  by rewrite (entries_split _ _ _ _ _ Hl).
Qed.

Lemma set_bytes_run {E} bv σ h s l :
  cache_rep n size bv σ h -> (0 < h s)%nat -> zlen l = size -> bytes_ok l ->
  runs (E := E) (set_bytes s l ;;; mark_as_dirty s) bv
    (fun _ bv' => cache_rep n size bv' (<[s := l]> σ) h).
Proof.
  intros Hrep Hs Hlen Hbytes.
  destruct (held_split _ _ _ _ Hrep Hs) as (l1 & b & l2 & Hl & Hb & Hnb & Hl1 & _ & Hob & Hn).
  destruct Hrep as (Hwf & Hc & Hz & Hv & Hh). pose proof Hwf as (Hnd & _ & Hok & Hr).
  set (d' := {| d_sector := d_sector (data b); is_dirty := true; bytes := l |}).
  assert (Hd' : d_sector d' = Some s) by (simpl; by rewrite Hnb, Hb).
  apply runs_Ok. exists tt, {| volume := volume bv;
    lent := l1 ++ ({| b_sector := s; data := d' |}, h s) :: l2; cached := cached bv |}. split.
  { unfold mbnd, set_bytes. rewrite (on_data_run s _ _ _ _ _ _ Hl Hb Hl1). cbn.
    unfold mark_as_dirty. rewrite (on_data_run s _ _ l1 {| b_sector := s; data :=
      {| d_sector := d_sector (data b); is_dirty := is_dirty (data b); bytes := l |} |} (h s) l2) by done.
    done. }
  unfold cache_rep. cbn [volume lent].
  assert (Hok' : Forall (data_ok (volume bv)) (d' :: (data <$> (fst <$> l1) ++ (fst <$> l2) ++ cached bv))).
  { rewrite (entries_split _ _ _ _ _ Hl) in Hok. apply Forall_cons in Hok as [_ Hok]. constructor.
    - destruct Hob as (_ & _ & _ & Hk). unfold data_ok. split_and!; [simpl; lia|done|simpl; by rewrite Hnb|].
      intros t Ht. split; [by apply Hk|done].
    - by apply Forall_fmap. }
  split_and!; [by eapply wf_set|apply Hc|apply Hc|done| |].
  - intros t Ht. rewrite (view_set bv l1 b (h s) l2) by done. simpl view_data. rewrite Hnb, Hb.
    destruct (decide (Some s = Some t)) as [[= <-]|Hne]; [by rewrite fn_lookup_insert|].
    rewrite fn_lookup_insert_ne by congruence. rewrite <- (Hv t Ht), (view_split bv l1 b (h s) l2) by done.
    simpl. by rewrite Hnb, Hb, decide_False.
  - intros t. transitivity (refs (lent bv) t); [|apply Hh]. rewrite Hl. rewrite (refs_insert l1 l2 b _ (h s) (h s) s t) by done.
    symmetry. by apply refs_insert.
Qed.

(** Moving the buffers between [lent] and [cached], or changing counts. *)
Lemma cache_rep_move bv bv' σ h h' :
  cache_rep n size bv σ h -> volume bv' = volume bv -> entries bv' ≡ₚ entries bv ->
  Forall (fun e => 0 < e.2)%nat (lent bv') -> (forall s, refs (lent bv') s = h' s) ->
  cache_rep n size bv' σ h'.
Proof.
  intros (Hwf & [Hhl Hc] & Hz & Hv & Hh) Hvol He Hr Hh'. pose proof (wf_data_nodup _ Hwf) as Hdn.
  destruct Hwf as (Hnd & Hn & Hok & _). unfold cache_rep, wf. rewrite Hvol.
  rewrite <- He in Hnd, Hn, Hok. split_and!; try done.
  intros s Hs. rewrite <- Hv by done. unfold view. rewrite Hvol. symmetry.
  apply view_data_perm; [done|by rewrite He].
Qed.

Lemma drop_move_last bv l1 b l2 s t :
  lent bv = l1 ++ (b, 1%nat) :: l2 -> b_sector b = s -> NoDup (b_sector <$> (fst <$> lent bv)) ->
  refs (swap_remove (length l1) (lent bv)) t = (<[s := 0%nat]> (refs (lent bv)) : counts) t.
Proof.
  intros Hl Hb Hnd. assert (Hi : lent bv !! length l1 = Some (b, 1%nat)).
  { rewrite Hl. by apply list_lookup_middle. }
  pose proof (swap_remove_Permutation _ _ _ Hi) as Hp. symmetry in Hp.
  assert (Hnot : s ∉ (b_sector <$> (fst <$> swap_remove (length l1) (lent bv)))).
  { rewrite Hp, !fmap_cons in Hnd. apply NoDup_cons in Hnd as [Hnot _]. by rewrite <- Hb. }
  destruct (decide (s = t)) as [<-|Hne].
  - rewrite fn_lookup_insert. by apply refs_not_elem.
  - rewrite fn_lookup_insert_ne, (refs_perm _ _ t Hnd Hp) by done. simpl. rewrite Hb.
    by destruct (Z.eqb_spec s t).
Qed.

Lemma view_ok bv s :
  wf bv -> healthy (volume bv) -> in_range (volume bv) s ->
  zlen (view bv s) = sector_size (volume bv) /\ bytes_ok (view bv s).
Proof.
  intros Hwf Hhl Hs. destruct (view_data_cases (data <$> entries bv) s) as [(d & Hd & Ht)|Hn].
  - apply list_elem_of_fmap in Hd as (b & -> & Hb). pose proof Hwf as (_ & Hnm & Hok & _).
    rewrite (proj1 (Forall_forall _ _) Hnm b Hb) in Ht. simplify_eq.
    rewrite (view_named bv b) by done. by destruct (proj1 (Forall_forall _ _) Hok b Hb) as (? & ? & _).
  - unfold view. rewrite view_data_not_elem by done. auto using content_length, content_bytes.
Qed.

Lemma drop_run {E} bv σ h s k :
  cache_rep n size bv σ h -> h s = S k -> exists bv',
    drop_ref (E := E) s bv = (Ok tt, bv') /\ volume bv' = volume bv /\
    cache_rep n size bv' σ (<[s := k]> h).
Proof.
  intros Hrep Hs.
  destruct (held_split _ _ _ s Hrep) as (l1 & b & l2 & Hl & Hb & Hnb & Hl1 & _ & Hob & Hn); [lia|].
  destruct Hrep as (Hwf & [Hhl Hc] & Hz & Hv & Hh). pose proof Hwf as (Hnd & Hnm & Hok & Hr).
  unfold drop_ref. rewrite (lent_lookup _ _ _ _ _ _ Hl Hb Hl1). rewrite Hs in *.
  destruct (Nat.eqb_spec (S k) 1) as [Hk|Hk].
  - eexists. split; [done|]. split; [done|]. assert (k = 0%nat) as -> by lia.
    assert (Hi : lent bv !! length l1 = Some (b, 1%nat)) by (rewrite Hl; by apply list_lookup_middle).
    pose proof (swap_remove_Permutation _ _ _ Hi) as Hp.
    eapply cache_rep_move; [by split_and!|done| | |]; unfold entries; cbn [lent cached].
    + rewrite <- Permutation_middle, app_comm_cons. f_equiv. exact (fmap_Permutation fst _ _ Hp).
    + apply Forall_forall. intros e He. apply (proj1 (Forall_forall _ _) Hr).
      rewrite <- Hp. by right.
    + intros t. rewrite (drop_move_last bv l1 b l2 s) by (done || by apply lent_nodup).
      destruct (decide (s = t)) as [<-|]; [by rewrite !fn_lookup_insert|].
      rewrite !fn_lookup_insert_ne by done. apply Hh.
  - eexists. split; [done|]. split; [done|].
    eapply cache_rep_move; [by split_and!|done| | |]; unfold entries; cbn [lent cached set_lent].
    + rewrite Hl, insert_app_r_alt, Nat.sub_diag by lia. cbn. by rewrite !fmap_app, !fmap_cons.
    + rewrite Hl in Hr |- *. rewrite insert_app_r_alt, Nat.sub_diag by lia. cbn.
      rewrite Forall_app, Forall_cons in *. simpl in *. naive_solver lia.
    + intros t. rewrite Hl, insert_app_r_alt, Nat.sub_diag by lia. cbn [insert list_insert].
      rewrite (refs_insert l1 l2 b b (S k) (S k - 1) s t) by done. rewrite <- Hl.
      replace (S k - 1)%nat with k by lia.
      destruct (decide (s = t)) as [<-|]; [by rewrite !fn_lookup_insert|].
      rewrite !fn_lookup_insert_ne by done. apply Hh.
Qed.

Lemma cache_rep_ext bv σ h σ' h' :
  cache_rep n size bv σ h -> (forall s, 0 <= s < n -> σ s = σ' s) -> (forall s, h s = h' s) ->
  cache_rep n size bv σ' h'.
Proof.
  intros (Hwf & [Hhl Hn] & Hz & Hv & Hh) Hσ Hh'. split_and!; try done.
  - intros s Hs. rewrite Hv by done. apply Hσ. unfold in_range in Hs. lia.
  - intros s. by rewrite Hh.
Qed.

Lemma on_commit_run bv σ h s :
  cache_rep n size bv σ h -> (0 < h s)%nat ->
  runs (on_data s data_commit) bv (fun _ bv' => cache_rep n size bv' σ h /\
    forall t, 0 <= t < n -> synced bv σ t -> synced bv' σ t).
Proof.
  intros Hrep Hs.
  destruct (held_split _ _ _ _ Hrep Hs) as (l1 & b & l2 & Hl & Hb & Hnb & Hl1 & Hbs & Hob & Hn).
  destruct Hrep as (Hwf & Hc & Hz & Hv & Hh). pose proof Hwf as (Hnd & _ & Hok & Hr).
  destruct (data_commit_ok _ _ (proj1 Hc) Hob) as (v' & Hcm & Hg & Ht). destruct (Hg) as [[Hhl' Hg1] Hg2].
  set (d' := {| d_sector := d_sector (data b); is_dirty := false; bytes := bytes (data b) |}) in *.
  assert (Hd' : d_sector d' = Some s) by (simpl; by rewrite Hnb, Hb).
  assert (Hts : forall t, content v' t = if decide (s = t) then σ s else content (volume bv) t).
  { intros t. rewrite Ht, Hnb, Hb, Hbs. by repeat case_decide; simplify_eq. }
  apply runs_Ok. exists tt, {| volume := v';
    lent := l1 ++ ({| b_sector := s; data := d' |}, h s) :: l2; cached := cached bv |}.
  split; [by rewrite (on_data_run s _ _ _ _ _ _ Hl Hb Hl1), Hcm|].
  pose proof (named_other bv l1 b (h s) l2 s Hl Hb Hnd Hn) as Hne.
  assert (Hok' : Forall (data_ok v') (d' :: (data <$> (fst <$> l1) ++ (fst <$> l2) ++ cached bv))).
  { rewrite (entries_split _ _ _ _ _ Hl) in Hok. apply Forall_cons in Hok as [_ Hok]. constructor.
    - destruct Hob as (Hol & Hobk & _ & Hk). unfold data_ok, in_range in *. rewrite Hg1, Hg2.
      split_and!; [done..|]. intros t Hdt. rewrite Hdt in Hd'. simplify_eq. split; [by apply Hk|].
      intros _. by rewrite Hts, decide_True.
    - apply Forall_fmap. apply Forall_forall. intros b' Hb'. apply (data_ok_other (volume bv)); [done| |].
      + intros t Hdt. rewrite Hts, decide_False; [done|]. intros <-. by eapply Hne; [apply list_elem_of_fmap_2|].
      + by apply (proj1 (Forall_forall _ _) Hok). }
  unfold cache_rep, synced. cbn [volume lent]. split; [split_and!|]; [by eapply wf_set|done|lia|lia| | |].
  - intros t Hti. unfold in_range in *. rewrite (view_set bv l1 b (h s) l2) by done.
    rewrite <- (Hv t), (view_split bv l1 b (h s) l2) by (done || lia). simpl.
    case_decide as Hd; [done|]. apply view_data_content. rewrite Hts, decide_False; [done|].
    intros <-. by rewrite Hnb, Hb in Hd.
  - intros t. transitivity (refs (lent bv) t); [|apply Hh]. rewrite Hl.
    rewrite (refs_insert l1 l2 b _ (h s) (h s) s t) by done. symmetry. by apply refs_insert.
  - intros t _ Hsy. rewrite Hts. by case_decide; subst.
Qed.

(** [commit] puts every cached sector on the device and changes no sector. *)
Lemma commit_all_run l bv σ h :
  cache_rep n size bv σ h -> Forall (fun s => 0 <= s < n) l ->
  runs (commit_all l) bv (fun _ bv' => cache_rep n size bv' σ h /\
    forall t, 0 <= t < n -> t ∈ l \/ synced bv σ t -> synced bv' σ t).
Proof.
  intros Hrep Hl. revert bv Hrep. induction Hl as [|s l Hs Hl IH]; intros bv Hrep; simpl.
  { apply ends_ret. split; [done|]. intros t _ [Ht|]; [|done]. by apply not_elem_of_nil in Ht. }
  eapply runs_bind; [by apply sector_run|]. intros _ bv1 [Hrep1 Hsy1]. cbn beta.
  eapply runs_bind; [apply runs_cleanup, (on_commit_run _ _ _ s Hrep1); rewrite fn_lookup_insert; lia|].
  intros _ bv2 [Hrep2 Hsy2]. cbn beta.
  destruct (drop_run (E := VolumeError) _ _ _ s (h s) Hrep2) as (bv3 & Hd & Hv3 & Hrep3);
    [by rewrite fn_lookup_insert|].
  apply (runs_bind _ _ _ (fun _ bv => bv = bv3)); [apply runs_Ok; by exists tt, bv3|].
  intros _ ? ->. eapply runs_mono; [apply IH|].
  - eapply cache_rep_ext; [exact Hrep3|done|]. intros t.
    destruct (decide (s = t)) as [<-|]; [by rewrite fn_lookup_insert|].
    by rewrite !fn_lookup_insert_ne.
  - intros _ bv4 [Hrep4 Hsy4]. split; [done|]. intros t Ht Hor. apply Hsy4; [done|].
    unfold synced in *. rewrite Hv3. rewrite elem_of_cons in Hor. naive_solver.
Qed.

End cache_laws.

(** ** Properties *)

#[export] Instance RamVolume_reliable : ReliableVolume RamVolume.
Proof.
  refine {| healthy := fun _ => True; content := ram_content |}; unfold in_range, ram_content; simpl.
  - intros v s _ _. by rewrite length_fmap, length_resize.
  - intros v s _ _. apply Forall_fmap, Forall_true. intros b. simpl. apply wrap_unsigned. lia.
  - intros v s buf _ _ _. by exists v.
  - intros v s buf _ _ Hl Hb. eexists. split; [done|]. split_and!; try done. intros t. simpl.
    case_decide as Ht.
    + subst. rewrite lookup_insert_eq. simpl. rewrite resize_all_alt by lia.
      rewrite <- (list_fmap_id buf) at 2. apply list_fmap_ext. intros i x Hx.
      by apply (wrap_small 8), (Forall_lookup_1 _ _ _ _ Hb Hx).
    + by rewrite lookup_insert_ne by done.
Defined.

Lemma ram_healthy (v : RamVolume) : healthy v.
Proof. exact I. Qed.

Section client_lemmas.
Context {V : Type} `{ReliableVolume V} (n size : Z).
Implicit Types (bv : BufferedVolume V) (σ : disk) (h : counts).

Lemma new_volume_rep v :
  healthy v -> sector_count v = n -> sector_size v = size ->
  cache_rep n size (new_volume v) (content v) (fun _ => 0%nat).
Proof.
  intros Hhl Hn Hz. unfold cache_rep, wf, entries. simpl. split_and!; try done. constructor.
Qed.

(** A computation that takes a reference, uses it and drops it. *)
Lemma with_sector_run {A} bv σ σ' h s (m : M (BufferedVolume V) VolumeError A) (Q : A -> Prop) :
  cache_rep n size bv σ h -> 0 <= s < n ->
  (forall bv, cache_rep n size bv σ (<[s := S (h s)]> h) ->
    runs m bv (fun a bv' => Q a /\ cache_rep n size bv' σ' (<[s := S (h s)]> h))) ->
  runs (with_ref s m) bv (fun a bv' => Q a /\ cache_rep n size bv' σ' h).
Proof.
  intros Hrep Hs Hm. eapply runs_bind; [by apply sector_run|]. intros _ bv1 [Hrep1 _].
  eapply runs_bind; [by apply Hm|]. intros a bv2 [HQ Hrep2]. cbn beta.
  destruct (drop_run (E := VolumeError) n size _ _ _ s (h s) Hrep2) as (bv3 & Hd & _ & Hrep3);
    [by rewrite fn_lookup_insert|].
  apply (runs_bind _ _ _ (fun _ bv => bv = bv3)); [apply runs_Ok; by exists tt, bv3|].
  intros _ ? ->. apply ends_ret. split; [done|].
  eapply cache_rep_ext; [exact Hrep3|done|]. intros t.
  destruct (decide (s = t)) as [<-|]; [by rewrite fn_lookup_insert|].
  by rewrite !fn_lookup_insert_ne.
Qed.

Lemma no_lent bv :
  wf bv -> (forall s, refs (lent bv) s = 0%nat) -> lent bv = [].
Proof.
  intros (Hnd & _ & _ & Hr) Hz. destruct (lent bv) as [|[b r] l]; [done|].
  specialize (Hz (b_sector b)). simpl in Hz. rewrite Z.eqb_refl in Hz. subst.
  apply Forall_cons in Hr as [Hr _]. simpl in Hr. lia.
Qed.

Lemma commit_run bv σ h :
  cache_rep n size bv σ h ->
  runs commit bv (fun _ bv' => cache_rep n size bv' σ h /\
    forall t, 0 <= t < n -> (forall s, h s = 0%nat) -> synced bv' σ t).
Proof.
  intros Hrep. pose proof Hrep as (Hwf & Hn & Hz & Hv & Hh). pose proof Hwf as (Hnd & Hnm & Hok & Hr).
  unfold commit. apply (runs_bind _ _ _ (fun a b => a = bv /\ b = bv)); [done|]. intros ? ? [-> ->].
  eapply runs_mono; [apply (commit_all_run n size _ _ σ h Hrep)|].
  - apply Forall_forall. intros s Hs. apply list_elem_of_fmap in Hs as (b & -> & Hb).
    assert (Hin : b ∈ entries bv) by (apply elem_of_app; by right).
    destruct (proj1 (Forall_forall _ _) Hok b Hin) as (_ & _ & _ & Hk).
    destruct (Hk (b_sector b)) as [Hi _]; [by apply (proj1 (Forall_forall _ _) Hnm)|].
    unfold in_range in Hi. lia.
  - intros _ bv' [Hrep' Hsy]. split; [done|]. intros t Ht Hz0. apply Hsy; [done|].
    destruct (decide (t ∈ b_sector <$> cached bv)) as [|Hnot]; [by left|right].
    unfold synced. rewrite <- Hv by (unfold in_range; lia). unfold view.
    rewrite view_data_not_elem; [done|]. intros d Hd. apply list_elem_of_fmap in Hd as (b & -> & Hb).
    rewrite (proj1 (Forall_forall _ _) Hnm b Hb). intros [= <-].
    unfold entries in Hb. rewrite no_lent in Hb by (done || intros; by rewrite Hh). simpl in Hb.
    apply Hnot. by apply list_elem_of_fmap_2.
Qed.

#[export] Instance BufferedVolume_laws : SectorCacheLaws (BufferedVolume V) n size.
Proof.
  refine {| rep := cache_rep n size |}.
  - intros bv σ h s (Hwf & Hn & Hz & Hv & Hh) Hs. rewrite <- Hz, <- Hv by (unfold in_range; lia).
    apply view_ok; [done|apply Hn|]. unfold in_range. lia.
  - intros bv σ h s (Hwf & Hn & Hz & Hv & Hh) Hs. rewrite <- Hv by (unfold in_range; lia).
    apply view_ok; [done|apply Hn|]. unfold in_range. lia.
  - apply cache_rep_ext.
  - intros bv σ h s Hrep Hs. eapply runs_mono; [by apply sector_run|]. by intros _ bv' [? _].
  - intros E bv σ h s k Hrep Hs. apply runs_Ok.
    destruct (drop_run (E := E) n size bv σ h s k Hrep Hs) as (bv' & ? & _ & ?). by exists tt, bv'.
  - intros E bv σ h s Hrep Hs. apply runs_Ok. exists (σ s), bv. split; [|done].
    by eapply bytes_run.
  - intros E bv σ h s b. apply set_bytes_run.
  - intros bv σ h Hrep. eapply runs_mono; [by apply commit_run|]. by intros [] bv' [? _].
Defined.

Lemma serve_run bv σ h q :
  cache_rep n size bv σ h -> request_ok n size q ->
  runs (serve q) bv (fun b bv' => b = fst (disk_step σ q) /\ cache_rep n size bv' (snd (disk_step σ q)) h).
Proof.
  intros Hrep Hq. destruct q as [s|s b|]; simpl in *.
  - apply with_sector_run with (σ := σ); [done..|]. intros bv1 Hrep1. apply runs_Ok.
    exists (σ s), bv1. split; [|done]. eapply bytes_run; [done|]. rewrite fn_lookup_insert. lia.
  - destruct Hq as (Hs & Hl & Hb). apply with_sector_run with (σ := σ); [done..|]. intros bv1 Hrep1.
    eapply runs_bind; [apply (set_bytes_run n size _ _ _ _ b Hrep1); [|done..]|].
    + rewrite fn_lookup_insert. lia.
    + intros [] bv2 Hrep2. by apply ends_ret.
  - eapply runs_bind; [by apply commit_run|]. intros _ bv' [Hrep' _]. by apply ends_ret.
Qed.

Lemma serve_all_run l bv σ h :
  cache_rep n size bv σ h -> Forall (request_ok n size) l ->
  let '(os, bv') := serve_all l bv in
  os = (fun b => Ok b) <$> fst (disk_steps σ l) /\ cache_rep n size bv' (snd (disk_steps σ l)) h.
Proof.
  intros Hrep Hl. revert bv σ Hrep. induction Hl as [|q l Hq Hl IH]; intros bv σ Hrep; simpl; [done|].
  destruct (proj1 (runs_Ok _ _ _) (serve_run _ _ _ _ Hrep Hq)) as (b & bv1 & Hs & -> & Hrep1).
  rewrite Hs. destruct (disk_step σ q) as [b σ1] eqn:Hd. simpl in *.
  specialize (IH bv1 σ1 Hrep1). destruct (serve_all l bv1) as [os bv2].
  destruct (disk_steps σ1 l) as [bs σ2]. simpl in *. by destruct IH as [-> ?].
Qed.

End client_lemmas.

(** [C1]. The write-back cache is transparent: over a
    reliable volume, every sequence of loads, stores and commits of sectors in
    range succeeds, and each load returns exactly what the plain disk (a map from
    sectors to bytes) would, whatever the evictions in between. *)
Theorem cache_refines_disk {V} `{ReliableVolume V} (v : V) (l : list request) :
  healthy v -> Forall (request_ok (sector_count v) (sector_size v)) l ->
  fst (serve_all l (new_volume v)) = (fun b => Ok b) <$> fst (disk_steps (content v) l).
Proof.
  intros Hhl Hl. pose proof (serve_all_run _ _ l (new_volume v) _ _ (new_volume_rep _ _ v Hhl eq_refl eq_refl) Hl) as Hr.
  destruct (serve_all l (new_volume v)). by destruct Hr.
Qed.

(** [C2]. A commit after any sequence of requests leaves on
    the device, for every sector, the bytes the plain disk has: nothing that was
    stored is lost in the cache. *)
Theorem commit_durable {V} `{ReliableVolume V} (v : V) (l : list request) (s : Z) :
  healthy v -> Forall (request_ok (sector_count v) (sector_size v)) l -> in_range v s ->
  let bv := snd (serve_all l (new_volume v)) in
  exists bv', commit bv = (Ok tt, bv') /\
    content (volume bv') s = snd (disk_steps (content v) l) s.
Proof.
  intros Hhl Hl Hs. pose proof (serve_all_run _ _ l (new_volume v) _ _ (new_volume_rep _ _ v Hhl eq_refl eq_refl) Hl) as Hr.
  destruct (serve_all l (new_volume v)) as [os bv]. destruct Hr as [_ Hrep]. simpl.
  destruct (proj1 (runs_Ok _ _ _) (commit_run _ _ _ _ _ Hrep)) as ([] & bv' & Hc & _ & Hsy).
  exists bv'. split; [done|]. by apply Hsy.
Qed.

(** On a device with one unreadable sector
    the cache can return outdated bytes: [recycle] renames a buffer before it is
    filled, and when the read fails [data.sector] still names the old sector, so a
    later [initialize] for that sector takes the old bytes for current ones. Here
    sector 0 is stored as 42, is on the device as 42, and is loaded as 0. *)
Theorem failed_read_serves_stale :
  let v := {| bad_ram := {| ram_count := 16; ram_size := 1; ram := ∅ |}; bad_sector := 8 |} in
  let l := (Load <$> seqZ 0 8) ++ [Load 8; Store 0 [42]; Load 8] ++ (Load <$> seqZ 2 6) ++ [Load 9; Load 0] in
  let '(os, bv) := serve_all l (new_volume v) in
  last os = Some (Ok [0]) /\ ram_content (bad_ram (volume bv)) 0 = [42].
Proof. vm_compute. done. Qed.

(** ** Witnesses *)

Definition demo_ram : RamVolume := {| ram_count := 32; ram_size := 4; ram := ∅ |}.

Definition demo_requests : list request :=
  [Store 3 [1; 2; 3; 4]; Store 5 [5; 6; 7; 8]] ++ (Load <$> seqZ 10 12) ++ [Load 3; Store 3 [9; 9; 9; 9]; Load 5; Load 3].

Lemma demo_requests_ok :
  Forall (request_ok (sector_count demo_ram) (sector_size demo_ram)) demo_requests.
Proof.
  unfold demo_requests. simpl. repeat apply Forall_cons_2; simpl; try lia; try apply Forall_nil_2.
  all: split_and!; try lia; solve_bounds.
Qed.

Lemma cache_refines_disk_witness :
  fst (serve_all demo_requests (new_volume demo_ram)) =
  (fun b => Ok b) <$> ([[]; []] ++ replicate 12 [0; 0; 0; 0] ++ [[1; 2; 3; 4]; []; [5; 6; 7; 8]; [9; 9; 9; 9]]).
Proof. rewrite (cache_refines_disk demo_ram demo_requests (ram_healthy _) demo_requests_ok). reflexivity. Defined.

Lemma commit_durable_witness :
  exists bv', commit (snd (serve_all demo_requests (new_volume demo_ram))) = (Ok tt, bv') /\
    content (volume bv') 3 = [9; 9; 9; 9].
Proof.
  apply (commit_durable demo_ram demo_requests 3 (ram_healthy _) demo_requests_ok). unfold in_range. simpl. lia.
Defined.
