(* ===== verification/VolumeThreads.v ===== *)
(** * The sector cache used by several tasks (src/ors-kernel/src/fs/volume.rs)

    [Volume] runs the operations of [BufferedVolume] one after the other. Here
    several tasks call them at the same time. What a task does while it holds the
    spin lock on the two lists of buffers is one step, and so is one access to
    the device. [BufferedVolume::sector] gives the spin lock back before it
    initialises the buffer (the mark [*1] of the source), so that a call takes
    several steps: it takes a reference, waits for the mutex of the data, writes the
    old bytes back, and reads the new ones; when the device reports an error it
    drops the reference again. A step that has to wait for a mutex is not
    enabled.

    The first part proves, for every device and every interleaving, that no
    [unwrap] panics and that a reference a task holds is to a buffer that was
    loaded with its sector. The second part proves that the tasks see one disk as long
    as no task asks for a sector while a renamed buffer has not yet written that
    sector back; the last part shows a run in which a task does so and reads
    outdated bytes. *)

From S2P Require Import Prelude Volume.
Local Open Scope Z_scope.
Local Open Scope rust_scope.

(** ** Tasks *)

(** Where a task is: outside of the cache, in a call of [sector] (waiting for
    the mutex of the data, before the write, before the read, or dropping the
    reference after an error), or between an access to [bytes] and
    [mark_as_dirty]. *)
Inductive Activity :=
| Resting
| Waiting (s : Z)
| Writing (s : Z)
| Filling (s : Z)
| Unwinding (s : Z)
| Marking (s : Z).

(** A task with the references [sector] returned to it. *)
Record Client := { held : list Z; activity : Activity }.

(** The cache, the mutexes of the buffers that are locked, and the tasks. *)
Record SharedCache (V : Type) := {
  cache : BufferedVolume V;
  owner : gmap Z nat;
  clients : list Client
}.
Arguments cache {V} _.
Arguments owner {V} _.
Arguments clients {V} _.

Inductive Action :=
| Call (s : Z)
| Lock
| WriteBack
| Fill
| Unwind
| Get (s : Z)
| Put (s : Z) (b : list Z)
| Mark
| Sync (s : Z)
| Clone (s : Z)
| Release (s : Z).

Section steps.
Context {V : Type} `{Volume V}.

Abbreviation SC := (SharedCache V).
Abbreviation result := (outcome VolumeError (list Z) * SC)%type.

(** A new cache and [k] tasks. *)
Definition shared (k : nat) (v : V) : SC :=
  {| cache := new_volume v; owner := ∅;
     clients := replicate k {| held := []; activity := Resting |} |}.

Definition become (i : nat) (c : Client) (st : SC) : SC :=
  {| cache := cache st; owner := owner st; clients := <[i := c]> (clients st) |}.
Definition with_cache (bv : BufferedVolume V) (st : SC) : SC :=
  {| cache := bv; owner := owner st; clients := clients st |}.
Definition with_owner (o : gmap Z nat) (st : SC) : SC :=
  {| cache := cache st; owner := o; clients := clients st |}.

(** An operation of the cache by task [i], which goes on as [ok] or, after an error, as [err]. *)
Definition perform {A} (m : M (BufferedVolume V) VolumeError A) (answer : A -> list Z)
    (ok err : SC -> SC) (st : SC) : result :=
  let '(o, bv) := m (cache st) in
  match o with
  | Ok a => (Ok (answer a), ok (with_cache bv st))
  | Err e => (Err e, err (with_cache bv st))
  | Panic => (Panic, st)
  | Diverge => (Diverge, st)
  end.

(** [BufferedVolume::sector] up to the mark [*1]. *)
Definition call_sector (i : nat) (c : Client) (s : Z) (st : SC) : result :=
  match checkout s (cache st) with
  | Some bv => (Ok [], become i {| held := held c; activity := Waiting s |} (with_cache bv st))
  | None => (Panic, st)
  end.

(** [self.data.lock()] in [BufferedSector::initialize]. *)
Definition lock_data (i : nat) (c : Client) (s : Z) (st : SC) : result :=
  (Ok [], become i {| held := held c; activity := Writing s |} (with_owner (<[s := i]> (owner st)) st)).

(** The guard of the mutex goes out of scope. *)
Definition unlock (s : Z) (st : SC) : SC := with_owner (delete s (owner st)) st.

(** [self.commit(volume)?] in [BufferedSectorData::initialize]. *)
Definition write_back (i : nat) (c : Client) (s : Z) : SC -> result :=
  perform (on_data s data_commit) (fun _ => [])
    (become i {| held := held c; activity := Filling s |})
    (fun st => become i {| held := held c; activity := Unwinding s |} (unlock s st)).

(** The rest of [BufferedSectorData::initialize]. *)
Definition data_fill (s : Z) : M (V * BufferedSectorData) VolumeError unit :=
  '(_, d) <- mget ;;
  if decide (d_sector d <> Some s) then
    data_read s ;;;
    '(v, d) <- mget ;;
    mput (v, {| d_sector := Some s; is_dirty := is_dirty d; bytes := bytes d |})
  else ret tt.

Definition fill (i : nat) (c : Client) (s : Z) : SC -> result :=
  perform (on_data s (data_fill s)) (fun _ => [])
    (fun st => become i {| held := s :: held c; activity := Resting |} (unlock s st))
    (fun st => become i {| held := held c; activity := Unwinding s |} (unlock s st)).

(** The reference is dropped when [r.initialize(&self.volume)?] returns an error. *)
Definition unwind (i : nat) (c : Client) (s : Z) : SC -> result :=
  perform (drop_ref s) (fun _ => []) (become i {| held := held c; activity := Resting |}) id.

(** [BufferedSector::bytes] and the use of its guard, and [BufferedSector::mark_as_dirty]. *)
Definition get (s : Z) : SC -> result := perform (get_bytes s) id id id.

Definition put (i : nat) (c : Client) (s : Z) (b : list Z) : SC -> result :=
  perform (set_bytes s b) (fun _ => []) (become i {| held := held c; activity := Marking s |}) id.

Definition mark (i : nat) (c : Client) (s : Z) : SC -> result :=
  perform (mark_as_dirty s) (fun _ => []) (become i {| held := held c; activity := Resting |}) id.

(** [BufferedSector::commit] *)
Definition sync (s : Z) : SC -> result := perform (on_data s data_commit) (fun _ => []) id id.

(** [Clone] and [Drop] of [BufferedSectorRef]. *)
Definition clone (i : nat) (c : Client) (s : Z) : SC -> result :=
  perform (clone_ref s) (fun _ => []) (become i {| held := s :: held c; activity := Resting |}) id.

Fixpoint remove_one (s : Z) (l : list Z) : list Z :=
  match l with
  | [] => []
  | t :: l => if t =? s then l else t :: remove_one s l
  end.

Definition release (i : nat) (c : Client) (s : Z) : SC -> result :=
  perform (drop_ref s) (fun _ => [])
    (become i {| held := remove_one s (held c); activity := Resting |}) id.

Definition free (s : Z) (st : SC) : bool := bool_decide (owner st !! s = None).
Definition holds (s : Z) (c : Client) : bool := bool_decide (s ∈ held c).

(** One step of task [i]; [None] when this is not what the task does next, or
    when it has to wait. *)
Definition step (i : nat) (a : Action) (st : SC) : option result :=
  c ← clients st !! i;
  match activity c, a with
  | Resting, Call s => Some (call_sector i c s st)
  | Waiting s, Lock => if free s st then Some (lock_data i c s st) else None
  | Writing s, WriteBack => Some (write_back i c s st)
  | Filling s, Fill => Some (fill i c s st)
  | Unwinding s, Unwind => Some (unwind i c s st)
  | Resting, Get s => if holds s c && free s st then Some (get s st) else None
  | Resting, Put s b => if holds s c && free s st then Some (put i c s b st) else None
  | Marking s, Mark => if free s st then Some (mark i c s st) else None
  | Resting, Sync s => if holds s c && free s st then Some (sync s st) else None
  | Resting, Clone s => if holds s c then Some (clone i c s st) else None
  | Resting, Release s => if holds s c then Some (release i c s st) else None
  | _, _ => None
  end.

(** The steps of a schedule, with what each of them returned. *)
Fixpoint run (l : list (nat * Action)) (st : SC) : option (list (outcome VolumeError (list Z)) * SC) :=
  match l with
  | [] => Some ([], st)
  | (i, a) :: l =>
      '(o, st) ← step i a st;
      '(os, st) ← run l st;
      Some (o :: os, st)
  end.

End steps.

(** ** The buffers as a map *)

Definition slot (e : BufferedSector * nat) : Z * (BufferedSectorData * nat) :=
  (b_sector e.1, (data e.1, e.2)).

Section buffers.
Context {V : Type} `{Volume V}.
Implicit Types (bv : BufferedVolume V) (b : BufferedSector).

(** The buffers with their references: those of the cached ones are 0. *)
Definition slots bv : list (BufferedSector * nat) := lent bv ++ ((., 0%nat) <$> cached bv).

(** The data and the references of every buffer, by the sector it is named after. *)
Definition buffers bv : gmap Z (BufferedSectorData * nat) := list_to_map (slot <$> slots bv).

(** Distinct names, and references to the lent buffers. *)
Definition shape bv : Prop :=
  NoDup (b_sector <$> (fst <$> slots bv)) /\ Forall (fun e => 0 < e.2)%nat (lent bv).

Lemma slot_names (l : list (BufferedSector * nat)) : (slot <$> l).*1 = b_sector <$> (fst <$> l).
Proof. rewrite <- !list_fmap_compose. done. Qed.

Lemma buffers_perm bv l :
  shape bv -> slots bv ≡ₚ l -> buffers bv = list_to_map (slot <$> l).
Proof.
  intros [Hnd _] Hp. apply list_to_map_proper; [by rewrite slot_names|]. by rewrite Hp.
Qed.

Lemma buffers_lookup bv s d r :
  shape bv -> (buffers bv !! s = Some (d, r) <-> ({| b_sector := s; data := d |}, r) ∈ slots bv).
Proof.
  intros [Hnd _]. unfold buffers. rewrite <- elem_of_list_to_map by (by rewrite slot_names).
  rewrite list_elem_of_fmap. split.
  - intros ([[s' d'] r'] & Heq & Hin). unfold slot in Heq. simpl in Heq. by simplify_eq.
  - intros Hin. eexists. by split; [|exact Hin].
Qed.

Lemma buffers_lent bv l1 b r l2 :
  shape bv -> lent bv = l1 ++ (b, r) :: l2 -> buffers bv !! b_sector b = Some (data b, r).
Proof.
  intros Hs Hl. apply buffers_lookup; [done|]. unfold slots. rewrite Hl. destruct b. set_solver.
Qed.

(** A buffer with references is lent. *)
Lemma buffers_split bv s d r :
  shape bv -> buffers bv !! s = Some (d, S r) -> exists l1 l2,
    lent bv = l1 ++ ({| b_sector := s; data := d |}, S r) :: l2 /\
    Forall (fun e => has_sector s e.1 = false) l1.
Proof.
  intros Hsh Hb. pose proof Hsh as [Hnd _]. apply buffers_lookup in Hb; [|done].
  unfold slots in Hb. apply elem_of_app in Hb as [Hb|Hb].
  - apply list_elem_of_split in Hb as (l1 & l2 & Hl). exists l1, l2. split; [done|].
    apply Forall_forall. intros [b' r'] Hin. unfold has_sector. simpl. apply Z.eqb_neq. intros Hs.
    unfold slots in Hnd. rewrite Hl, <- app_assoc, !fmap_app in Hnd. simpl in Hnd.
    apply NoDup_app in Hnd as (_ & Hnot & _). apply (Hnot s); [|left].
    rewrite <- Hs. apply list_elem_of_fmap_2, (list_elem_of_fmap_2 fst _ (b', r')), Hin.
  - apply list_elem_of_fmap in Hb as (b & ? & _). by simplify_eq.
Qed.

Lemma buffers_missing bv s : buffers bv !! s = None <-> s ∉ (b_sector <$> (fst <$> slots bv)).
Proof.
  unfold buffers. rewrite <- slot_names. split.
  - apply not_elem_of_list_to_map_2.
  - apply not_elem_of_list_to_map_1.
Qed.

(** A new arrangement of the buffers. *)
Lemma buffers_cons bv' (e : BufferedSector * nat) rest :
  slots bv' ≡ₚ e :: rest -> b_sector e.1 ∉ (b_sector <$> (fst <$> rest)) ->
  NoDup (b_sector <$> (fst <$> rest)) -> Forall (fun e => 0 < e.2)%nat (lent bv') ->
  shape bv' /\ buffers bv' = <[b_sector e.1 := (data e.1, e.2)]> (list_to_map (slot <$> rest)).
Proof.
  intros Hp Hnot Hnd Hr.
  assert (Hsh : shape bv').
  { split; [|done]. rewrite Hp. simpl. by apply NoDup_cons. }
  split; [done|]. rewrite (buffers_perm _ _ Hsh Hp). done.
Qed.

Lemma buffers_rest bv (e : BufferedSector * nat) rest :
  shape bv -> slots bv ≡ₚ e :: rest ->
  (b_sector e.1 ∉ (b_sector <$> (fst <$> rest))) /\ NoDup (b_sector <$> (fst <$> rest)) /\
  buffers bv = <[b_sector e.1 := (data e.1, e.2)]> (list_to_map (slot <$> rest)) /\
  delete (b_sector e.1) (buffers bv) = list_to_map (slot <$> rest).
Proof.
  intros Hsh Hp. pose proof Hsh as [Hnd _]. rewrite Hp in Hnd. simpl in Hnd.
  apply NoDup_cons in Hnd as [Hnot Hnd]. split_and!; [done..| |].
  - by rewrite (buffers_perm _ _ Hsh Hp).
  - rewrite (buffers_perm _ _ Hsh Hp). simpl. apply delete_insert_id.
    apply not_elem_of_list_to_map_1. by rewrite slot_names.
Qed.

End buffers.

(** ** What the operations do to the map *)

Section operations.
Context {V : Type} `{Volume V}.
Implicit Types (bv : BufferedVolume V) (b : BufferedSector).

Lemma slots_middle l1 e l2 v c :
  slots (V := V) {| volume := v; lent := l1 ++ e :: l2; cached := c |} ≡ₚ
  e :: l1 ++ l2 ++ ((., 0%nat) <$> c).
Proof. unfold slots. simpl. by rewrite <- app_assoc, <- app_comm_cons, <- Permutation_middle. Qed.

(** A lent buffer is replaced by one of the same name. *)
Lemma buffers_replace bv (v' : V) l1 l2 s d r d' r' :
  shape bv -> lent bv = l1 ++ ({| b_sector := s; data := d |}, r) :: l2 -> (0 < r')%nat ->
  let bv' := {| volume := v'; lent := l1 ++ ({| b_sector := s; data := d' |}, r') :: l2; cached := cached bv |} in
  shape bv' /\ buffers bv' = <[s := (d', r')]> (buffers bv).
Proof.
  intros Hsh Hl Hr bv'. pose proof Hsh as [_ Hpos].
  assert (Hp : slots bv ≡ₚ ({| b_sector := s; data := d |}, r) :: l1 ++ l2 ++ ((., 0%nat) <$> cached bv)).
  { destruct bv. simpl in *. subst. apply slots_middle. }
  destruct (buffers_rest _ _ _ Hsh Hp) as (Hnot & Hnd & Hb & _).
  destruct (buffers_cons bv' ({| b_sector := s; data := d' |}, r') (l1 ++ l2 ++ ((., 0%nat) <$> cached bv)))
    as [Hsh' Hb']; [apply slots_middle|done|done| |].
  - rewrite Hl in Hpos. simpl. rewrite Forall_app, Forall_cons in *. naive_solver.
  - split; [done|]. simpl in *. rewrite Hb', Hb. by rewrite insert_insert_eq.
Qed.

Lemma on_data_buffers {E A} s (m : M (V * BufferedSectorData) E A) bv d r o v' d' :
  shape bv -> buffers bv !! s = Some (d, S r) -> m (volume bv, d) = (o, (v', d')) -> exists bv',
    on_data s m bv = (o, bv') /\ volume bv' = v' /\ shape bv' /\
    buffers bv' = <[s := (d', S r)]> (buffers bv).
Proof.
  intros Hsh Hb Hm. destruct (buffers_split _ _ _ _ Hsh Hb) as (l1 & l2 & Hl & Hl1).
  eexists. rewrite (on_data_run s m bv l1 _ _ l2 Hl eq_refl Hl1). simpl. rewrite Hm.
  split; [done|]. split; [done|]. eapply buffers_replace; [done|exact Hl|lia].
Qed.

Lemma clone_ref_buffers {E} s bv d r :
  shape bv -> buffers bv !! s = Some (d, S r) -> exists bv',
    clone_ref (E := E) s bv = (Ok tt, bv') /\ volume bv' = volume bv /\ shape bv' /\
    buffers bv' = <[s := (d, S (S r))]> (buffers bv).
Proof.
  intros Hsh Hb. destruct (buffers_split _ _ _ _ Hsh Hb) as (l1 & l2 & Hl & Hl1).
  eexists. unfold clone_ref. rewrite (lent_lookup bv l1 _ _ l2 s Hl eq_refl Hl1).
  rewrite Hl at 1. rewrite insert_app_r_alt, Nat.sub_diag, Nat.add_1_r by lia. simpl.
  split; [done|]. split; [done|]. eapply buffers_replace; [done|exact Hl|lia].
Qed.

Lemma drop_ref_buffers {E} s bv d r :
  shape bv -> buffers bv !! s = Some (d, S r) -> exists bv',
    drop_ref (E := E) s bv = (Ok tt, bv') /\ volume bv' = volume bv /\ shape bv' /\
    buffers bv' = <[s := (d, r)]> (buffers bv).
Proof.
  intros Hsh Hb. destruct (buffers_split _ _ _ _ Hsh Hb) as (l1 & l2 & Hl & Hl1).
  unfold drop_ref. rewrite (lent_lookup bv l1 _ _ l2 s Hl eq_refl Hl1).
  destruct (Nat.eqb_spec (S r) 1) as [Hr|Hr].
  - eexists. split; [done|]. split; [done|]. assert (r = 0%nat) as -> by lia.
    assert (Hi : lent bv !! length l1 = Some ({| b_sector := s; data := d |}, 1%nat))
      by (rewrite Hl; by apply list_lookup_middle).
    pose proof (swap_remove_Permutation _ _ _ Hi) as Hp.
    destruct (buffers_rest bv ({| b_sector := s; data := d |}, 1%nat)
      (swap_remove (length l1) (lent bv) ++ ((., 0%nat) <$> cached bv))) as (Hnot & Hnd & Hbs & _); [done| |].
    { unfold slots. rewrite app_comm_cons. apply Permutation_app_tail. by symmetry. }
    edestruct (buffers_cons {| volume := volume bv; lent := swap_remove (length l1) (lent bv);
      cached := {| b_sector := s; data := d |} :: cached bv |} ({| b_sector := s; data := d |}, 0%nat))
      as [Hsh' Hb']; [|exact Hnot|exact Hnd| |].
    + unfold slots. simpl. by rewrite <- Permutation_middle.
    + destruct Hsh as [_ Hpos]. rewrite <- Hp in Hpos. simpl in *. by apply Forall_cons in Hpos as [_ ?].
    + split; [done|]. simpl in *. rewrite Hb', Hbs. by rewrite insert_insert_eq.
  - eexists. split; [done|]. split; [done|]. unfold set_lent.
    rewrite Hl at 1 2. rewrite insert_app_r_alt, Nat.sub_diag by lia. simpl. rewrite Nat.sub_0_r.
    eapply buffers_replace; [done|exact Hl|lia].
Qed.

(** The buffer [checkout] finds: a lent or cached one of that name, the
    least recently used one under a new name, or a new one. *)
Inductive taken (v : V) (s : Z) (m : gmap Z (BufferedSectorData * nat)) : gmap Z (BufferedSectorData * nat) -> Prop :=
| taken_again d r : m !! s = Some (d, r) -> taken v s m (<[s := (d, S r)]> m)
| taken_renamed s0 d : m !! s = None -> m !! s0 = Some (d, 0%nat) -> taken v s m (<[s := (d, 1%nat)]> (delete s0 m))
| taken_new : m !! s = None -> taken v s m (<[s := (data (new_sector s v), 1%nat)]> m).

(** A buffer [e] of [bv] becomes the last of [lent], as [b]. *)
Lemma buffers_push bv b c e :
  shape bv -> (b_sector b = b_sector e.1 \/ buffers bv !! b_sector b = None) ->
  ((., 0%nat) <$> cached bv) ≡ₚ e :: ((., 0%nat) <$> c) ->
  let bv' := {| volume := volume bv; lent := lent bv ++ [(b, 1%nat)]; cached := c |} in
  shape bv' /\ buffers bv' = <[b_sector b := (data b, 1%nat)]> (delete (b_sector e.1) (buffers bv)).
Proof.
  intros Hsh Hor Hc bv'. pose proof Hsh as [_ Hpos].
  assert (Hp : slots bv ≡ₚ e :: lent bv ++ ((., 0%nat) <$> c)).
  { unfold slots. by rewrite Hc, <- Permutation_middle. }
  destruct (buffers_rest _ _ _ Hsh Hp) as (Hnot & Hnd & Hb & Hdel). rewrite Hdel.
  apply (buffers_cons bv' (b, 1%nat)); [| |done|].
  - unfold slots, bv'. simpl. rewrite <- app_assoc. simpl. by rewrite <- Permutation_middle.
  - destruct Hor as [Heq|Hn]; simpl; [by rewrite Heq|]. apply buffers_missing in Hn.
    rewrite Hp in Hn. simpl in Hn. by apply not_elem_of_cons in Hn as [_ ?].
  - simpl. rewrite Forall_app, Forall_singleton. simpl. split; [done|lia].
Qed.

Lemma buffers_add bv b :
  shape bv -> buffers bv !! b_sector b = None ->
  let bv' := {| volume := volume bv; lent := lent bv ++ [(b, 1%nat)]; cached := cached bv |} in
  shape bv' /\ buffers bv' = <[b_sector b := (data b, 1%nat)]> (buffers bv).
Proof.
  intros Hsh Hn bv'. apply buffers_missing in Hn. destruct Hsh as [Hnd Hpos].
  apply (buffers_cons bv' (b, 1%nat) (slots bv)); [|done|done|].
  - unfold slots, bv'. simpl. rewrite <- app_assoc. simpl. by rewrite <- Permutation_middle.
  - simpl. rewrite Forall_app, Forall_singleton. simpl. split; [done|lia].
Qed.

Lemma cached_fst (c : list BufferedSector) : fst <$> ((., 0%nat) <$> c) = c.
Proof. induction c as [|b c IH]; [done|]. simpl. by f_equal. Qed.

Lemma checkout_buffers_lent bv s i :
  shape bv -> lent_position s bv = Some i -> exists bv',
    checkout s bv = Some bv' /\ volume bv' = volume bv /\ shape bv' /\
    taken (volume bv) s (buffers bv) (buffers bv').
Proof.
  intros Hsh Hpos. unfold checkout. rewrite Hpos.
  apply position_split in Hpos as (l1 & [[s' d] r] & l2 & Hl & -> & Hb & Hl1).
  unfold has_sector in Hb. simpl in Hb. apply Z.eqb_eq in Hb as ->.
  assert (Hi : lent bv !! length l1 = Some ({| b_sector := s; data := d |}, r)) by (rewrite Hl; by apply list_lookup_middle).
  rewrite Hi. simpl. eexists. split; [done|]. split; [done|].
  unfold set_lent. rewrite Hl, insert_app_r_alt, Nat.sub_diag by lia. simpl.
  destruct (buffers_replace bv (volume bv) l1 l2 s d r d (r + 1)%nat Hsh Hl) as [Hsh' Hb']; [lia|].
  split; [exact Hsh'|]. rewrite Hb', Nat.add_1_r. constructor.
  by apply (buffers_lent bv l1 {| b_sector := s; data := d |} r l2).
Qed.

Lemma checkout_buffers bv s :
  shape bv -> exists bv',
    checkout s bv = Some bv' /\ volume bv' = volume bv /\ shape bv' /\
    taken (volume bv) s (buffers bv) (buffers bv').
Proof.
  intros Hsh. destruct (lent_position s bv) as [i|] eqn:Hpos; [by eapply checkout_buffers_lent|].
  unfold checkout. rewrite Hpos. apply (has_sector_fresh fst) in Hpos.
  destruct (position (has_sector s) (cached bv)) as [i|] eqn:Hc.
  - apply position_Some in Hc as ([s' d] & Hb & Hbs). unfold has_sector in Hbs. simpl in Hbs.
    apply Z.eqb_eq in Hbs as ->. rewrite Hb. simpl. eexists. split; [done|]. split; [done|].
    destruct (buffers_push bv {| b_sector := s; data := d |} (delete i (cached bv))
      ({| b_sector := s; data := d |}, 0%nat)) as [Hsh' Hb']; [done|by left| |].
    { rewrite (delete_Permutation _ _ _ Hb) at 1. done. }
    split; [exact Hsh'|]. rewrite Hb'. simpl. rewrite insert_delete_eq. constructor.
    apply buffers_lookup; [done|]. unfold slots. apply elem_of_app. right.
    apply list_elem_of_fmap. eexists. split; [done|]. by eapply list_elem_of_lookup_2.
  - apply (has_sector_fresh (fun b => b)) in Hc. rewrite list_fmap_id in Hc.
    assert (Hn : buffers bv !! s = None).
    { apply buffers_missing. unfold slots. rewrite !fmap_app, elem_of_app, cached_fst. naive_solver. }
    case_match eqn:Hlen.
    + apply Nat.leb_le in Hlen. unfold EXPECTED_CACHE_SIZE in Hlen.
      destruct (last (cached bv)) as [[s0 d]|] eqn:Hl; [|apply last_None in Hl; rewrite Hl in Hlen; simpl in Hlen; lia].
      simpl. eexists. split; [done|]. split; [done|]. apply last_split in Hl.
      destruct (buffers_push bv (recycle s {| b_sector := s0; data := d |}) (take (length (cached bv) - 1) (cached bv))
        ({| b_sector := s0; data := d |}, 0%nat)) as [Hsh' Hb']; [done|by right| |].
      { rewrite Hl at 1. rewrite fmap_app. symmetry. apply Permutation_cons_append. }
      split; [exact Hsh'|]. rewrite Hb'. simpl. constructor; [done|].
      apply buffers_lookup; [done|]. unfold slots. apply elem_of_app. right.
      apply list_elem_of_fmap. eexists. split; [done|]. rewrite Hl. set_solver.
    + simpl. eexists. split; [done|]. split; [done|].
      destruct (buffers_add bv (new_sector s (volume bv)) Hsh) as [Hsh' Hb']; [done|].
      split; [exact Hsh'|]. rewrite Hb'. by constructor.
Qed.

End operations.

(** ** References and mutexes *)

(** The references of a task: those it holds and the one of its call. *)
Definition refs_of (s : Z) (c : Client) : nat :=
  count_occ Z.eq_dec (held c) s +
  match activity c with
  | Waiting t | Writing t | Filling t | Unwinding t => if t =? s then 1 else 0
  | Resting | Marking _ => 0
  end.

Definition total (s : Z) (cs : list Client) : nat := sum_list_with (refs_of s) cs.

(** The task has the mutex of the data of the buffer. *)
Definition inside (c : Client) (s : Z) : Prop := activity c = Writing s \/ activity c = Filling s.

(** What the device returns is [Ok] or [Err]. *)
Definition answers {E A} (o : outcome E A) : Prop :=
  match o with Ok _ | Err _ => True | Panic | Diverge => False end.

Section counting.
Implicit Types (c : Client) (cs : list Client) (o : gmap Z nat).

Lemma total_insert s cs i c c' :
  cs !! i = Some c -> (total s (<[i := c']> cs) + refs_of s c = total s cs + refs_of s c')%nat.
Proof.
  unfold total. revert i. induction cs as [|x cs IH]; intros [|i] Hi; simplify_eq/=; [lia|].
  specialize (IH i Hi). lia.
Qed.

Lemma total_ge s cs i c : cs !! i = Some c -> (refs_of s c <= total s cs)%nat.
Proof.
  unfold total. revert i. induction cs as [|x cs IH]; intros [|i] Hi; simplify_eq/=; [lia|].
  specialize (IH i Hi). lia.
Qed.

Lemma refs_of_held s c : s ∈ held c -> (0 < refs_of s c)%nat.
Proof.
  intros Hs. unfold refs_of. apply list_elem_of_In in Hs. apply (count_occ_In Z.eq_dec) in Hs. lia.
Qed.

Lemma remove_one_count s l t : s ∈ l ->
  count_occ Z.eq_dec l t = (count_occ Z.eq_dec (remove_one s l) t + if (s =? t)%Z then 1 else 0)%nat.
Proof.
  induction l as [|x l IH]; intros Hs; [by apply not_elem_of_nil in Hs|]. simpl.
  apply elem_of_cons in Hs. destruct (Z.eqb_spec x s) as [->|Hne].
  - destruct (Z.eq_dec s t), (Z.eqb_spec s t); simplify_eq; lia.
  - destruct Hs as [->|Hs]; [done|]. specialize (IH Hs). simpl. destruct (Z.eq_dec x t); lia.
Qed.

Lemma remove_one_sub s l t : t ∈ remove_one s l -> t ∈ l.
Proof.
  induction l as [|x l IH]; simpl; [done|]. destruct (x =? s); [by right|].
  rewrite !elem_of_cons. naive_solver.
Qed.

(** The mutexes that are locked are those of the tasks inside. *)
Definition owners o cs : Prop :=
  forall s i, o !! s = Some i <-> exists c, cs !! i = Some c /\ inside c s.

Lemma owners_same o cs i c c' :
  owners o cs -> cs !! i = Some c -> (forall s, inside c s <-> inside c' s) -> owners o (<[i := c']> cs).
Proof.
  intros Ho Hi Hc s j. rewrite (Ho s j). destruct (decide (i = j)) as [<-|Hij].
  - rewrite list_lookup_insert_eq by (by eapply lookup_lt_Some). specialize (Hc s). naive_solver.
  - by rewrite list_lookup_insert_ne.
Qed.

Lemma owners_lock o cs i c c' s :
  owners o cs -> cs !! i = Some c -> (forall t, ~ inside c t) -> (forall t, inside c' t <-> t = s) ->
  o !! s = None -> owners (<[s := i]> o) (<[i := c']> cs).
Proof.
  intros Ho Hi Hc Hc' Hs t j. rewrite lookup_insert_Some, (Ho t j). destruct (decide (i = j)) as [<-|Hij].
  - rewrite list_lookup_insert_eq by (by eapply lookup_lt_Some). specialize (Hc t). specialize (Hc' t). naive_solver.
  - rewrite list_lookup_insert_ne by done. split; [naive_solver|]. intros Hx. right. split; [|done].
    intros ->. apply (Ho t j) in Hx. by rewrite Hs in Hx.
Qed.

Lemma owners_unlock o cs i c c' s :
  owners o cs -> cs !! i = Some c -> (forall t, inside c t <-> t = s) -> (forall t, ~ inside c' t) ->
  owners (delete s o) (<[i := c']> cs).
Proof.
  intros Ho Hi Hc Hc' t j. rewrite lookup_delete_Some, (Ho t j). destruct (decide (i = j)) as [<-|Hij].
  - rewrite list_lookup_insert_eq by (by eapply lookup_lt_Some). specialize (Hc t). specialize (Hc' t). naive_solver.
  - rewrite list_lookup_insert_ne by done. split; [naive_solver|]. intros Hx. split; [|done].
    intros <-. apply (Ho s j) in Hx.
    assert (Hs : o !! s = Some i) by (apply Ho; exists c; split; [done|by apply Hc]). congruence.
Qed.

End counting.

(** ** No step panics *)

(** [refs_of] and [inside] of a task at a known point. *)
Ltac at_point Ha := unfold refs_of, inside; simpl; rewrite ?Ha; simpl;
  repeat match goal with |- context [Z.eqb ?a ?b] => destruct (Z.eqb_spec a b) end;
  repeat match goal with |- context [Z.eq_dec ?a ?b] => destruct (Z.eq_dec a b) end; try lia; try naive_solver.

Ltac unfold_state := unfold become, unlock, with_cache, with_owner; simpl.

Section safety.
Context {V : Type} `{Volume V}.
Implicit Types (st : SharedCache V) (bv : BufferedVolume V) (c : Client).

Definition count (m : gmap Z (BufferedSectorData * nat)) (s : Z) : nat := default 0%nat (snd <$> m !! s).

(** The references of a buffer are those of the tasks; a task that holds one has
    a buffer loaded with its sector; a dirty buffer knows its sector. *)
Record safe st : Prop := {
  sf_shape : shape (cache st);
  sf_refs s : total s (clients st) = count (buffers (cache st)) s;
  sf_owner : owners (owner st) (clients st);
  sf_held i c s : clients st !! i = Some c -> s ∈ held c ->
    exists d r, buffers (cache st) !! s = Some (d, r) /\ d_sector d = Some s;
  sf_marking i c s : clients st !! i = Some c -> activity c = Marking s -> s ∈ held c;
  sf_dirty s d r : buffers (cache st) !! s = Some (d, r) -> is_dirty d = true -> d_sector d <> None
}.

(** A reference is to a lent buffer. *)
Lemma safe_ref st i c s :
  safe st -> clients st !! i = Some c -> (0 < refs_of s c)%nat ->
  exists d r, buffers (cache st) !! s = Some (d, S r).
Proof.
  intros Hsf Hi Hr. pose proof (total_ge s _ _ _ Hi) as Hge. rewrite (sf_refs _ Hsf) in Hge. unfold count in Hge.
  destruct (buffers (cache st) !! s) as [[d [|r]]|]; simpl in Hge; [lia|eauto|lia].
Qed.

Lemma safe_held st i c s :
  safe st -> clients st !! i = Some c -> s ∈ held c ->
  exists d r, buffers (cache st) !! s = Some (d, S r) /\ d_sector d = Some s.
Proof.
  intros Hsf Hi Hs. destruct (safe_ref st i c s Hsf Hi) as (d & r & Hb); [by apply refs_of_held|].
  destruct (sf_held _ Hsf i c s Hi Hs) as (d' & r' & Hb' & Hd). rewrite Hb in Hb'. simplify_eq. eauto.
Qed.

(** Task [i] goes on as [c'], with other buffers and mutexes. *)
Lemma safe_update st i c c' bv' o' :
  safe st -> clients st !! i = Some c -> shape bv' ->
  (forall s, (count (buffers bv') s + refs_of s c = count (buffers (cache st)) s + refs_of s c')%nat) ->
  owners o' (<[i := c']> (clients st)) ->
  (forall s d r, buffers (cache st) !! s = Some (d, S r) -> d_sector d = Some s ->
     exists d' r', buffers bv' !! s = Some (d', r') /\ d_sector d' = Some s) ->
  (forall s, s ∈ held c' -> exists d' r', buffers bv' !! s = Some (d', r') /\ d_sector d' = Some s) ->
  (forall s, activity c' = Marking s -> s ∈ held c') ->
  (forall s d r, buffers bv' !! s = Some (d, r) -> is_dirty d = true -> d_sector d <> None) ->
  safe {| cache := bv'; owner := o'; clients := <[i := c']> (clients st) |}.
Proof.
  intros Hsf Hi Hsh Hr Ho Hd Hc' Hm Hdirty. split; simpl; try done.
  - intros s. pose proof (total_insert s _ _ _ c' Hi) as Ht. rewrite (sf_refs _ Hsf) in Ht. specialize (Hr s). lia.
  - intros j x s Hj Hs. apply list_lookup_insert_Some in Hj as [(<- & <- & _)|[_ Hj]]; [by apply Hc'|].
    destruct (safe_held st j x s Hsf Hj Hs) as (d & r & Hb & Hds). eauto.
  - intros j x s Hj Hs. apply list_lookup_insert_Some in Hj as [(<- & <- & _)|[_ Hj]]; [by apply Hm|].
    by eapply sf_marking.
Qed.

(** Task [i] changes the data or the references of one buffer. *)
Lemma safe_insert st i c c' s d r d' r' bv' o' :
  safe st -> clients st !! i = Some c -> buffers (cache st) !! s = Some (d, r) ->
  shape bv' -> buffers bv' = <[s := (d', r')]> (buffers (cache st)) ->
  (forall t, (refs_of t c + (if (s =? t)%Z then r' else 0) = refs_of t c' + (if (s =? t)%Z then r else 0))%nat) ->
  owners o' (<[i := c']> (clients st)) ->
  (d_sector d = Some s -> d_sector d' = Some s) -> (is_dirty d' = true -> d_sector d' <> None) ->
  (forall t, t ∈ held c' -> t ∈ held c \/ t = s /\ d_sector d' = Some s) ->
  (forall t, activity c' = Marking t -> t ∈ held c') ->
  safe {| cache := bv'; owner := o'; clients := <[i := c']> (clients st) |}.
Proof.
  intros Hsf Hi Hb Hsh Hb' Hr Ho Hd Hdirty Hc' Hm.
  assert (Hkeep : forall t d0 r0, buffers (cache st) !! t = Some (d0, S r0) -> d_sector d0 = Some t ->
     exists d1 r1, buffers bv' !! t = Some (d1, r1) /\ d_sector d1 = Some t).
  { intros t d0 r0 Ht Hdt. rewrite Hb'. destruct (decide (s = t)) as [<-|Hst].
    - rewrite lookup_insert_eq. simplify_eq. eauto.
    - rewrite lookup_insert_ne by done. eauto. }
  apply (safe_update st i c); try done.
  - intros t. specialize (Hr t). rewrite Hb'. unfold count. destruct (Z.eqb_spec s t) as [Hst|Hst]; [subst t|].
    + rewrite lookup_insert_eq, Hb. simpl. lia.
    + rewrite lookup_insert_ne by done. lia.
  - intros t [Ht|[-> Hs]]%Hc'.
    + destruct (safe_held st i c t Hsf Hi Ht) as (d0 & r0 & Hb0 & Hd0). eauto.
    + exists d', r'. by rewrite Hb', lookup_insert_eq.
  - intros t d0 r0. rewrite Hb'. destruct (decide (s = t)) as [<-|Hst].
    + rewrite lookup_insert_eq. intros [= <- <-]. done.
    + rewrite lookup_insert_ne by done. by apply sf_dirty.
Qed.

(** The device answers every request. *)
Definition responsive : Prop :=
  (forall s (v : V) buf, answers (read s (v, buf)).1) /\ (forall s buf (v : V), answers (write s buf v).1).

(** It answers what the buffers of [st] may ask for next. *)
Definition answering st : Prop := forall s d r,
  buffers (cache st) !! s = Some (d, r) ->
  answers (data_commit (volume (cache st), d)).1 /\ answers (data_fill s (volume (cache st), d)).1.

Lemma data_commit_safe (v : V) d :
  answers (data_commit (v, d)).1 -> exists o v' d',
    data_commit (v, d) = (o, (v', d')) /\ answers o /\ d_sector d' = d_sector d /\ bytes d' = bytes d /\
    (is_dirty d' = true -> is_dirty d = true) /\ (o = Ok tt -> is_dirty d' = false).
Proof.
  unfold data_commit, mbnd, mget. simpl. destruct (is_dirty d) eqn:Hdirty; intros Hw.
  - destruct (d_sector d) as [s|] eqn:Hs; [|done]. simpl in *. unfold mfst, mput in *. simpl in *.
    destruct (write s (bytes d) v) as [[[]|e| |] v']; simpl in *; try done;
    eexists _, _, _; split_and!; simpl; done.
  - eexists _, _, _. unfold ret. split_and!; try done; congruence.
Qed.

Lemma data_fill_safe s (v : V) d :
  answers (data_fill s (v, d)).1 -> exists o v' d',
    data_fill s (v, d) = (o, (v', d')) /\ answers o /\ is_dirty d' = is_dirty d /\
    (d_sector d = Some s -> d_sector d' = Some s) /\ (d_sector d <> None -> d_sector d' <> None) /\
    (forall u, o = Ok u -> d_sector d' = Some s).
Proof.
  unfold data_fill, mbnd, mget. simpl. destruct (decide (d_sector d <> Some s)) as [Hne|Heq]; intros Hr.
  - unfold data_read in *. destruct (read s (v, bytes d)) as [[[]|e| |] [v' buf]];
    simpl in *; try done; eexists _, _, _; unfold mput; split_and!; simpl; done.
  - apply dec_stable in Heq. eexists _, _, _. unfold ret. split_and!; try done.
Qed.

Lemma responsive_answering st : responsive -> safe st -> answering st.
Proof.
  intros [Hr Hw] Hsf s d r Hb. unfold data_commit, data_fill, data_read, mbnd, mget. simpl. split.
  - destruct (is_dirty d) eqn:Hdirty; [|done].
    pose proof (sf_dirty _ Hsf s d r Hb Hdirty). destruct (d_sector d) as [t|]; [|done]. simpl.
    unfold mfst. simpl. specialize (Hw t (bytes d) (volume (cache st))). by destruct (write _ _ _) as [[] ?].
  - case_decide; [|done]. specialize (Hr s (volume (cache st)) (bytes d)). by destruct (read _ _) as [[] [??]].
Qed.

Definition good (p : outcome VolumeError (list Z) * SharedCache V) : Prop := answers p.1 /\ safe p.2.

Lemma same_client st i c : clients st !! i = Some c ->
  {| cache := cache st; owner := owner st; clients := <[i := c]> (clients st) |} = st.
Proof. intros Hi. rewrite list_insert_id by done. by destruct st. Qed.

(** Task [i] calls [sector] and gets a buffer that was not there under this
    name; [m] is what remains of the other ones. *)
Lemma safe_fresh st i c s d m bv' :
  safe st -> clients st !! i = Some c -> activity c = Resting -> shape bv' ->
  buffers bv' = <[s := (d, 1%nat)]> m -> buffers (cache st) !! s = None -> (is_dirty d = true -> d_sector d <> None) ->
  (forall t x, m !! t = Some x -> buffers (cache st) !! t = Some x) ->
  (forall t d r, buffers (cache st) !! t = Some (d, S r) -> m !! t = Some (d, S r)) ->
  safe {| cache := bv'; owner := owner st; clients := <[i := {| held := held c; activity := Waiting s |}]> (clients st) |}.
Proof.
  intros Hsf Hi Ha Hsh Hb' Hs Hd Hold Hlent.
  assert (Hkeep : forall t d0 r0, buffers (cache st) !! t = Some (d0, S r0) -> d_sector d0 = Some t ->
    exists d1 r1, buffers bv' !! t = Some (d1, r1) /\ d_sector d1 = Some t).
  { intros t d0 r0 Ht Hdt. rewrite Hb', lookup_insert_ne by congruence. eauto. }
  apply (safe_update st i c); try done.
  - intros t. rewrite Hb'. unfold count. destruct (decide (s = t)) as [<-|Hst].
    + rewrite lookup_insert_eq, Hs. at_point Ha.
    + rewrite lookup_insert_ne by done. assert (count m t = count (buffers (cache st)) t) as Hc; [|unfold count in Hc; at_point Ha].
      unfold count. destruct (buffers (cache st) !! t) as [[d0 [|r0]]|] eqn:Ht.
      * destruct (m !! t) as [x|] eqn:Hmt; [|done]. apply Hold in Hmt. by rewrite Ht in Hmt; simplify_eq.
      * by rewrite (Hlent _ _ _ Ht).
      * destruct (m !! t) as [x|] eqn:Hmt; [|done]. apply Hold in Hmt. congruence.
  - apply (owners_same _ _ _ c); [by apply sf_owner|done|]. intros t. at_point Ha.
  - intros t Ht. destruct (safe_held st i c t Hsf Hi Ht) as (d0 & r0 & Hb0 & Hd0). eauto.
  - intros t d0 r0. rewrite Hb'. destruct (decide (s = t)) as [<-|Hst].
    + rewrite lookup_insert_eq. by intros [= <- <-].
    + rewrite lookup_insert_ne by done. intros Ht%Hold. by eapply sf_dirty.
Qed.

Lemma call_safe st i c s :
  safe st -> clients st !! i = Some c -> activity c = Resting -> good (call_sector i c s st).
Proof.
  intros Hsf Hi Ha. destruct (checkout_buffers (cache st) s (sf_shape _ Hsf)) as (bv & Hc & _ & Hsh & Ht).
  unfold call_sector. rewrite Hc. split; [done|]. unfold_state. inversion Ht as [d r Hs Hb|s0 d Hs Hs0 Hb|Hs Hb]; symmetry in Hb.
  - eapply (safe_insert st i c _ s d r d (S r)); try done.
    + intros t. at_point Ha.
    + apply (owners_same _ _ _ c); [by apply sf_owner|done|]. intros t. at_point Ha.
    + by eapply sf_dirty.
    + by left.
  - eapply (safe_fresh st i c s d); try done.
    + by eapply sf_dirty.
    + intros t x [_ Hx]%lookup_delete_Some. done.
    + intros t d0 r0 H0. rewrite lookup_delete_ne; [done|]. intros ->. congruence.
  - by eapply (safe_fresh st i c s).
Qed.

Lemma lock_safe st i c s :
  safe st -> clients st !! i = Some c -> activity c = Waiting s -> free s st = true -> good (lock_data i c s st).
Proof.
  intros Hsf Hi Ha Hfree%bool_decide_eq_true. split; [done|]. unfold_state.
  apply (safe_update st i c); try done; [exact (sf_shape _ Hsf)|intros t; at_point Ha| |by eauto| |exact (sf_dirty _ Hsf)];
    [|intros t; exact (sf_held _ Hsf i c t Hi)].
  apply (owners_lock _ _ _ c); [by apply sf_owner|done|intros t; at_point Ha|intros t; at_point Ha|done].
Qed.


Lemma write_back_safe st i c s :
  answering st -> safe st -> clients st !! i = Some c -> activity c = Writing s -> good (write_back i c s st).
Proof.
  intros Hdev Hsf Hi Ha. destruct (safe_ref st i c s Hsf Hi) as (d & r & Hb); [at_point Ha|].
  destruct (data_commit_safe (volume (cache st)) d (proj1 (Hdev _ _ _ Hb)))
    as (o & v' & d' & He & Hans & Hd & _ & Hdirty & _).
  destruct (on_data_buffers s _ _ _ _ _ _ _ (sf_shape _ Hsf) Hb He) as (bv' & Hod & _ & Hsh & Hb').
  assert (Hdd : is_dirty d' = true -> d_sector d' <> None).
  { rewrite Hd. intros Ht. by apply (sf_dirty _ Hsf s d (S r)), Hdirty. }
  unfold write_back, perform. rewrite Hod. destruct o as [[]|e| |]; try done; split; [done| |done|]; unfold_state.
  - eapply (safe_insert st i c _ s d (S r) d' (S r)); try done;
      [intros t; at_point Ha| |by rewrite Hd|by left].
    apply (owners_same _ _ _ c); [by apply sf_owner|done|]. intros t. at_point Ha.
  - eapply (safe_insert st i c _ s d (S r) d' (S r)); try done;
      [intros t; at_point Ha| |by rewrite Hd|by left].
    apply (owners_unlock _ _ _ c); [by apply sf_owner|done|intros t; at_point Ha|intros t; at_point Ha].
Qed.

Lemma fill_safe st i c s :
  answering st -> safe st -> clients st !! i = Some c -> activity c = Filling s -> good (fill i c s st).
Proof.
  intros Hdev Hsf Hi Ha. destruct (safe_ref st i c s Hsf Hi) as (d & r & Hb); [at_point Ha|].
  destruct (data_fill_safe s (volume (cache st)) d (proj2 (Hdev _ _ _ Hb)))
    as (o & v' & d' & He & Hans & Hdirty & Hd & Hsome & Hok).
  destruct (on_data_buffers s _ _ _ _ _ _ _ (sf_shape _ Hsf) Hb He) as (bv' & Hod & _ & Hsh & Hb').
  assert (Hdd : is_dirty d' = true -> d_sector d' <> None).
  { rewrite Hdirty. intros Ht. by apply Hsome, (sf_dirty _ Hsf s d (S r)). }
  unfold fill, perform. rewrite Hod. destruct o as [[]|e| |]; try done; split; [done| |done|]; unfold_state.
  - specialize (Hok tt eq_refl). eapply (safe_insert st i c _ s d (S r) d' (S r)); try done.
    + intros t. at_point Ha.
    + apply (owners_unlock _ _ _ c); [by apply sf_owner|done|intros t; at_point Ha|intros t; at_point Ha].
    + intros t. simpl. rewrite elem_of_cons. naive_solver.
  - eapply (safe_insert st i c _ s d (S r) d' (S r)); try done; [intros t; at_point Ha| |by left].
    apply (owners_unlock _ _ _ c); [by apply sf_owner|done|intros t; at_point Ha|intros t; at_point Ha].
Qed.

(** An access to the data of a buffer the task holds. *)
Lemma access_safe {A} st i c c' s (m : M (V * BufferedSectorData) VolumeError A) answer d r o v' d' :
  safe st -> clients st !! i = Some c -> buffers (cache st) !! s = Some (d, S r) -> d_sector d = Some s ->
  m (volume (cache st), d) = (o, (v', d')) -> answers o -> d_sector d' = Some s ->
  held c' = held c -> (forall t, ~ inside c t) -> (forall t, ~ inside c' t) ->
  (forall t, refs_of t c = refs_of t c') -> (forall t, activity c' = Marking t -> t ∈ held c') ->
  good (perform (on_data s m) answer (become i c') (become i c') st).
Proof.
  intros Hsf Hi Hb Hd He Hans Hd' Hh Hin Hin' Hr Hm.
  destruct (on_data_buffers s _ _ _ _ _ _ _ (sf_shape _ Hsf) Hb He) as (bv' & Hod & _ & Hsh & Hb').
  assert (safe (become i c' (with_cache bv' st))).
  { unfold_state. eapply (safe_insert st i c _ s d (S r) d' (S r)); try done.
    - intros t. rewrite Hr. lia.
    - apply (owners_same _ _ _ c); [by apply sf_owner|done|]. intros t. specialize (Hin t). specialize (Hin' t). tauto.
    - rewrite Hd'. done.
    - intros t. rewrite Hh. by left. }
  unfold perform. rewrite Hod. by destruct o.
Qed.

(** An access after which the task goes on as before. *)
Lemma perform_id {A} (m : M (BufferedVolume V) VolumeError A) answer st i c :
  clients st !! i = Some c -> perform m answer id id st = perform m answer (become i c) (become i c) st.
Proof.
  intros Hi. unfold perform. destruct (m (cache st)) as [o bv].
  assert (Hc : become i c (with_cache bv st) = with_cache bv st) by (by apply (same_client (with_cache bv st))).
  by rewrite Hc.
Qed.

Lemma get_safe st i c s :
  safe st -> clients st !! i = Some c -> activity c = Resting -> holds s c = true -> good (get s st).
Proof.
  intros Hsf Hi Ha Hs%bool_decide_eq_true. destruct (safe_held _ _ _ _ Hsf Hi Hs) as (d & r & Hb & Hd).
  unfold get. rewrite (perform_id _ _ _ i c Hi).
  eapply access_safe; try done; [intros t; at_point Ha|intros t; at_point Ha|by rewrite Ha].
Qed.

Lemma sync_safe st i c s :
  answering st -> safe st -> clients st !! i = Some c -> activity c = Resting -> holds s c = true -> good (sync s st).
Proof.
  intros Hdev Hsf Hi Ha Hs%bool_decide_eq_true. destruct (safe_held _ _ _ _ Hsf Hi Hs) as (d & r & Hb & Hd).
  destruct (data_commit_safe (volume (cache st)) d (proj1 (Hdev _ _ _ Hb))) as (o & v' & d' & He & Hans & Hd' & _).
  unfold sync. rewrite (perform_id _ _ _ i c Hi).
  eapply access_safe; try done; [by rewrite Hd'|intros t; at_point Ha|intros t; at_point Ha|by rewrite Ha].
Qed.

Lemma perform_err {A} (m : M (BufferedVolume V) VolumeError A) answer ok err err' st :
  (forall e, (m (cache st)).1 <> Err e) -> perform m answer ok err st = perform m answer ok err' st.
Proof. intros Hm. unfold perform. destruct (m (cache st)) as [[a|e| |] bv]; try done. by destruct (Hm e). Qed.

Lemma set_bytes_infallible s b bv e : (set_bytes (E := VolumeError) s b bv).1 <> Err e.
Proof. unfold set_bytes, on_data. destruct (_ ≫= _) as [[j [x y]]|]; by destruct bv. Qed.

Lemma mark_infallible s bv e : (mark_as_dirty (E := VolumeError) s bv).1 <> Err e.
Proof. unfold mark_as_dirty, on_data. destruct (_ ≫= _) as [[j [x y]]|]; by destruct bv. Qed.

Lemma put_safe st i c s b :
  safe st -> clients st !! i = Some c -> activity c = Resting -> holds s c = true -> good (put i c s b st).
Proof.
  intros Hsf Hi Ha Hs%bool_decide_eq_true. destruct (safe_held _ _ _ _ Hsf Hi Hs) as (d & r & Hb & Hd).
  unfold put. erewrite perform_err by (intros e; apply set_bytes_infallible).
  eapply access_safe; try done; [intros t; at_point Ha|intros t; at_point Ha|intros t; at_point Ha|by intros t [= <-]].
Qed.

Lemma mark_safe st i c s :
  safe st -> clients st !! i = Some c -> activity c = Marking s -> good (mark i c s st).
Proof.
  intros Hsf Hi Ha. pose proof (sf_marking _ Hsf _ _ _ Hi Ha) as Hs.
  destruct (safe_held _ _ _ _ Hsf Hi Hs) as (d & r & Hb & Hd).
  unfold mark. erewrite perform_err by (intros e; apply mark_infallible).
  eapply access_safe; try done; [intros t; at_point Ha|intros t; at_point Ha|intros t; at_point Ha].
Qed.

(** A reference is dropped or made. *)
Lemma count_safe st i c c' s (m : M (BufferedVolume V) VolumeError unit) d r r' bv' :
  safe st -> clients st !! i = Some c -> buffers (cache st) !! s = Some (d, r) ->
  m (cache st) = (Ok tt, bv') -> shape bv' -> buffers bv' = <[s := (d, r')]> (buffers (cache st)) ->
  (forall t, (refs_of t c + (if (s =? t)%Z then r' else 0) = refs_of t c' + (if (s =? t)%Z then r else 0))%nat) ->
  (forall t, inside c t <-> inside c' t) -> (forall t, t ∈ held c' -> t ∈ held c) -> activity c' = Resting ->
  good (perform m (fun _ => []) (become i c') id st).
Proof.
  intros Hsf Hi Hb Hm Hsh Hb' Hr Hin Hh Ha. unfold perform. rewrite Hm. split; [done|]. unfold_state.
  eapply (safe_insert st i c _ s d r d r'); try done.
  - apply (owners_same _ _ _ c); [by apply sf_owner|done..].
  - by eapply sf_dirty.
  - intros t Ht. left. auto.
  - by rewrite Ha.
Qed.

Lemma unwind_safe st i c s :
  safe st -> clients st !! i = Some c -> activity c = Unwinding s -> good (unwind i c s st).
Proof.
  intros Hsf Hi Ha. destruct (safe_ref st i c s Hsf Hi) as (d & r & Hb); [at_point Ha|].
  destruct (drop_ref_buffers (E := VolumeError) s _ _ _ (sf_shape _ Hsf) Hb) as (bv' & Hdr & _ & Hsh & Hb').
  eapply count_safe; try done; intros t; at_point Ha.
Qed.

Lemma clone_safe st i c s :
  safe st -> clients st !! i = Some c -> activity c = Resting -> holds s c = true -> good (clone i c s st).
Proof.
  intros Hsf Hi Ha Hs%bool_decide_eq_true. destruct (safe_held _ _ _ _ Hsf Hi Hs) as (d & r & Hb & Hd).
  destruct (clone_ref_buffers (E := VolumeError) s _ _ _ (sf_shape _ Hsf) Hb) as (bv' & Hdr & _ & Hsh & Hb').
  eapply count_safe; try done; [intros t; at_point Ha..|].
  intros t. simpl. rewrite elem_of_cons. naive_solver.
Qed.

Lemma release_safe st i c s :
  safe st -> clients st !! i = Some c -> activity c = Resting -> holds s c = true -> good (release i c s st).
Proof.
  intros Hsf Hi Ha Hs%bool_decide_eq_true. destruct (safe_held _ _ _ _ Hsf Hi Hs) as (d & r & Hb & Hd).
  destruct (drop_ref_buffers (E := VolumeError) s _ _ _ (sf_shape _ Hsf) Hb) as (bv' & Hdr & _ & Hsh & Hb').
  eapply count_safe; try done; [|intros t; at_point Ha|intros t; apply remove_one_sub].
  intros t. unfold refs_of. simpl. rewrite Ha, (remove_one_count s (held c) t Hs). destruct (s =? t); lia.
Qed.

Lemma step_safe st i a p :
  answering st -> safe st -> step i a st = Some p -> good p.
Proof.
  intros Hdev Hsf. unfold step. destruct (clients st !! i) as [c|] eqn:Hi; [|done]. simpl.
  destruct (activity c) as [|s|s|s|s|s] eqn:Ha, a as [s'| | | | |s'|s' b| |s'|s'|s']; try done;
    repeat match goal with |- context [if ?b then _ else _] => destruct b eqn:? end; try done; intros [= <-];
    repeat match goal with Hx : _ && _ = true |- _ => apply andb_true_iff in Hx as [??] end;
    eauto using call_safe, lock_safe, write_back_safe, fill_safe, unwind_safe, get_safe, put_safe, mark_safe,
      sync_safe, clone_safe, release_safe.
Qed.

Lemma shared_safe k v : safe (shared k v).
Proof.
  assert (Hc : forall i c, replicate k {| held := []; activity := Resting |} !! i = Some c -> c = {| held := []; activity := Resting |}).
  { by intros i c [-> _]%lookup_replicate. }
  split; simpl; try done.
  - split; simpl; [by apply NoDup_nil|by apply List.Forall_nil].
  - intros s. unfold total. induction k as [|k IH]; simpl; [done|]. apply IH. by intros i c [-> _]%lookup_replicate.
  - intros s i. rewrite lookup_empty. split; [done|]. intros (c & ->%Hc & [|]); done.
  - intros i c s ->%Hc Hs. by apply not_elem_of_nil in Hs.
  - by intros i c s ->%Hc.
Qed.

Lemma run_safe l st os st' :
  responsive -> safe st -> run l st = Some (os, st') -> Forall answers os /\ safe st'.
Proof.
  intros Hdev. revert st os. induction l as [|[i a] l IH]; intros st os Hsf; simpl.
  - intros [= <- <-]. split; [by apply List.Forall_nil|done].
  - destruct (step i a st) as [[o st1]|] eqn:Hs; [|done]. simpl.
    destruct (run l st1) as [[os1 st2]|] eqn:Hr; [|done]. simpl. intros [= <- <-].
    destruct (step_safe _ _ _ _ (responsive_answering _ Hdev Hsf) Hsf Hs) as [Ho Hsf1]. destruct (IH _ _ Hsf1 Hr) as [Hos Hsf2].
    split; [by constructor|done].
Qed.

(** ** Every call returns *)

(** The steps a task has still to do before it is out of the cache. *)
Definition work (c : Client) : nat :=
  match activity c with
  | Resting => 0 | Waiting _ => 4 | Writing _ => 3 | Filling _ => 2 | Unwinding _ => 1 | Marking _ => 1
  end.

Definition next (c : Client) : Action :=
  match activity c with
  | Waiting _ => Lock | Writing _ => WriteBack | Filling _ => Fill | Unwinding _ => Unwind | Marking _ | Resting => Mark
  end.

Lemma sum_work_insert cs i c x :
  cs !! i = Some c -> (work x < work c)%nat ->
  (sum_list_with work (<[i := x]> cs) < sum_list_with work cs)%nat.
Proof.
  revert i. induction cs as [|y cs IH]; intros [|i] Hi Hx; simplify_eq/=; [lia|]. specialize (IH i Hi Hx). lia.
Qed.

Definition remaining st : nat := sum_list_with work (clients st).

Lemma perform_work {A} (m : M (BufferedVolume V) VolumeError A) answer ok err st i c :
  clients st !! i = Some c -> answers (perform m answer ok err st).1 ->
  (forall bv, exists x, clients (ok (with_cache bv st)) = <[i := x]> (clients st) /\ (work x < work c)%nat) ->
  (forall bv, exists x, clients (err (with_cache bv st)) = <[i := x]> (clients st) /\ (work x < work c)%nat) ->
  (remaining (perform m answer ok err st).2 < remaining st)%nat.
Proof.
  intros Hi Ha Hok Herr. unfold remaining, perform in *. destruct (m (cache st)) as [[a|e| |] bv]; simpl in *; try done.
  - destruct (Hok bv) as (x & -> & Hx). by apply (sum_work_insert _ _ c).
  - destruct (Herr bv) as (x & -> & Hx). by apply (sum_work_insert _ _ c).
Qed.

Lemma drop_infallible s bv e : (drop_ref (E := VolumeError) s bv).1 <> Err e.
Proof. unfold drop_ref. destruct (_ ≫= _) as [[j [x y]]|]; [by destruct (y =? 1)%nat|done]. Qed.

(** The next step of a task in the cache brings it nearer to its end. *)
Lemma step_work st i c p :
  clients st !! i = Some c -> step i (next c) st = Some p -> answers p.1 -> (remaining p.2 < remaining st)%nat.
Proof.
  intros Hi. unfold step. rewrite Hi. simpl. unfold next.
  destruct (activity c) as [|s|s|s|s|s] eqn:Ha; simpl; try done.
  - destruct (free s st); [|done]. intros [= <-] _. apply (sum_work_insert _ _ c); [done|]. unfold work. rewrite Ha. simpl. lia.
  - intros [= <-] Hans. apply (perform_work _ _ _ _ _ i c); try done; intros bv; eexists; (split; [done|]);
      unfold work; rewrite Ha; simpl; lia.
  - intros [= <-] Hans. apply (perform_work _ _ _ _ _ i c); try done; intros bv; eexists; (split; [done|]);
      unfold work; rewrite Ha; simpl; lia.
  - unfold unwind. rewrite (perform_err _ _ _ _ (become i {| held := held c; activity := Resting |})) by (intros e; apply drop_infallible).
    intros [= <-] Hans. apply (perform_work _ _ _ _ _ i c); try done; intros bv; eexists; (split; [done|]);
      unfold work; rewrite Ha; simpl; lia.
  - destruct (free s st); [|done]. unfold mark. rewrite (perform_err _ _ _ _ (become i {| held := held c; activity := Resting |})) by (intros e; apply mark_infallible).
    intros [= <-] Hans. apply (perform_work _ _ _ _ _ i c); try done; intros bv; eexists; (split; [done|]);
      unfold work; rewrite Ha; simpl; lia.
Qed.

(** Somebody can go on: the task that waits, or the one that has the mutex. *)
Lemma step_enabled st i c :
  safe st -> clients st !! i = Some c -> activity c <> Resting ->
  exists j x p, clients st !! j = Some x /\ activity x <> Resting /\ step j (next x) st = Some p.
Proof.
  intros Hsf Hi Hc.
  assert (Hwait : forall s, owner st !! s <> None ->
    exists j x p, clients st !! j = Some x /\ activity x <> Resting /\ step j (next x) st = Some p).
  { intros s Ho. destruct (owner st !! s) as [j|] eqn:Hs; [|done].
    apply (sf_owner _ Hsf) in Hs as (x & Hj & Hx). unfold step, next.
    destruct Hx as [Ha|Ha]; exists j, x; rewrite Hj; simpl; rewrite Ha; eauto. }
  destruct (activity c) as [|s|s|s|s|s] eqn:Ha; [done|..].
  2-4: exists i, c; unfold step, next; rewrite Hi; simpl; rewrite Ha; eauto.
  1,2: destruct (owner st !! s) eqn:Hs; [by apply (Hwait s); rewrite Hs|];
    exists i, c; unfold step, next, free; rewrite Hi; simpl; rewrite Ha, Hs; eauto.
Qed.

Lemma remaining_bound st : (remaining st <= 4 * length (clients st))%nat.
Proof.
  unfold remaining. induction (clients st) as [|c cs IH]; simpl; [lia|].
  assert (work c <= 4)%nat by (unfold work; destruct (activity c); lia). lia.
Qed.

(** The steps inside a call. *)
Definition in_call (a : Action) : bool :=
  match a with Lock | WriteBack | Fill | Unwind | Mark => true | _ => false end.

Lemma in_call_next st i a p :
  in_call a = true -> step i a st = Some p -> exists c, clients st !! i = Some c /\ a = next c.
Proof.
  intros Ha. unfold step. destruct (clients st !! i) as [c|]; [|done]. simpl. intros Hs. exists c. split; [done|].
  unfold next. destruct (activity c), a; done.
Qed.

Lemma in_call_bound l st os st' :
  responsive -> safe st -> Forall (fun e => in_call e.2 = true) l -> run l st = Some (os, st') ->
  (length l + remaining st' <= remaining st)%nat.
Proof.
  intros Hdev. revert st os. induction l as [|[i a] l IH]; intros st os Hsf Hl; simpl.
  - intros [= <- <-]. lia.
  - apply Forall_cons in Hl as [Ha Hl]. simpl in Ha. destruct (step i a st) as [[o st1]|] eqn:Hs; [|done]. simpl.
    destruct (run l st1) as [[os1 st2]|] eqn:Hr; [|done]. simpl. intros [= <- <-].
    destruct (step_safe _ _ _ _ (responsive_answering _ Hdev Hsf) Hsf Hs) as [Ho Hsf1].
    destruct (in_call_next _ _ _ _ Ha Hs) as (c & Hc & ->). pose proof (step_work _ _ _ _ Hc Hs Ho) as Hlt.
    specialize (IH _ _ Hsf1 Hl Hr). simpl in *. lia.
Qed.

Lemma perform_length {A} (m : M (BufferedVolume V) VolumeError A) answer ok err st :
  (forall bv, length (clients (ok (with_cache bv st))) = length (clients st)) ->
  (forall bv, length (clients (err (with_cache bv st))) = length (clients st)) ->
  length (clients (perform m answer ok err st).2) = length (clients st).
Proof. intros Hok Herr. unfold perform. by destruct (m (cache st)) as [[a|e| |] bv]; simpl. Qed.

Lemma step_length st i a p : step i a st = Some p -> length (clients p.2) = length (clients st).
Proof.
  unfold step. destruct (clients st !! i) as [c|] eqn:Hi; [|done]. simpl.
  destruct (activity c), a; try done;
    repeat match goal with |- context [if ?b then _ else _] => destruct b eqn:? end; try done; intros [= <-];
    try (apply perform_length; intros bv; simpl; by rewrite ?length_insert).
  - unfold call_sector. destruct (checkout _ _); [|done]. simpl. by rewrite length_insert.
  - simpl. by rewrite length_insert.
Qed.

Lemma run_length l st os st' : run l st = Some (os, st') -> length (clients st') = length (clients st).
Proof.
  revert st os. induction l as [|[i a] l IH]; intros st os; simpl.
  - by intros [= <- <-].
  - destruct (step i a st) as [[o st1]|] eqn:Hs; [|done]. simpl.
    destruct (run l st1) as [[os1 st2]|] eqn:Hr; [|done]. simpl. intros [= <- <-].
    rewrite (IH _ _ Hr). by apply (step_length _ _ _ _ Hs).
Qed.

End safety.

(** ** One disk for all tasks *)

Section sharing.
Context {V : Type} `{ReliableVolume V} (n size : Z).
Implicit Types (st : SharedCache V) (bv : BufferedVolume V) (c : Client) (σ : disk) (d : BufferedSectorData).

(** No buffer that was renamed has still to write sector [s] back. *)
Definition settled (s : Z) st : bool :=
  forallb (fun '(b, _) => negb (is_dirty (data b) && bool_decide (d_sector (data b) = Some s) && negb (has_sector s b)))
    (slots (cache st)).

(** A step that asks for a sector in range, of which nothing is waiting to be
    written back, or stores a whole sector. *)
Definition orderly (a : Action) st : bool :=
  match a with
  | Call s => (0 <=? s) && (s <? n) && settled s st
  | Put _ b => (zlen b =? size) && forallb (unsignedb 8) b
  | _ => true
  end.

Fixpoint orderly_run (l : list (nat * Action)) st : bool :=
  match l with
  | [] => true
  | (i, a) :: l => orderly a st && match step i a st with Some (_, st) => orderly_run l st | None => true end
  end.

(** What the tasks expect of an array of sectors. *)
Definition expected (a : Action) σ : list Z * disk :=
  match a with
  | Get s => (σ s, σ)
  | Put s b => ([], <[s := b]> σ)
  | _ => ([], σ)
  end.

Fixpoint expected_run (l : list (nat * Action)) σ : list (list Z) * disk :=
  match l with
  | [] => ([], σ)
  | (_, a) :: l => let '(b, σ) := expected a σ in let '(bs, σ) := expected_run l σ in (b :: bs, σ)
  end.

Definition data_fits d : Prop :=
  zlen (bytes d) = size /\ bytes_ok (bytes d) /\ forall t, d_sector d = Some t -> 0 <= t < n.

Definition device_fits (v : V) : Prop := healthy v /\ sector_count v = n /\ sector_size v = size.

(** The device has the bytes of sector [t], or a dirty buffer has them, or a task has stored
    them and not marked the buffer yet. *)
Definition stored st σ (t : Z) : Prop :=
  content (volume (cache st)) t = σ t \/
  (exists s d r, buffers (cache st) !! s = Some (d, r) /\ is_dirty d = true /\ d_sector d = Some t) \/
  (exists i c, clients st !! i = Some c /\ activity c = Marking t).

(** A buffer loaded with the sector it is named after has the bytes of the disk, and so has a
    dirty one; every sector is stored somewhere. *)
Record coherent st σ : Prop := {
  co_safe : safe st;
  co_device : device_fits (volume (cache st));
  co_data s d r : buffers (cache st) !! s = Some (d, r) -> 0 <= s < n /\ data_fits d;
  co_named s d r : buffers (cache st) !! s = Some (d, r) -> d_sector d = Some s -> bytes d = σ s;
  co_dirty s d r t : buffers (cache st) !! s = Some (d, r) -> is_dirty d = true -> d_sector d = Some t ->
    bytes d = σ t /\ (t = s \/ buffers (cache st) !! t = None);
  co_disk t : 0 <= t < n -> stored st σ t;
  co_cached s d : buffers (cache st) !! s = Some (d, 0%nat) -> d_sector d = Some s;
  co_filling i c s d r : clients st !! i = Some c -> activity c = Filling s ->
    buffers (cache st) !! s = Some (d, r) -> is_dirty d = true -> d_sector d = Some s;
  co_unwinding i c s : clients st !! i = Some c -> activity c <> Unwinding s
}.

(** Where the bytes of sector [t] are, as far as buffer [d] and task [c] are concerned. *)
Definition kept (v : V) σ d c (t : Z) : Prop :=
  content v t = σ t \/ (is_dirty d = true /\ d_sector d = Some t) \/ activity c = Marking t.

Lemma stored_insert st σ i c c' s d r d' r' bv' o' σ' t :
  stored st σ t -> clients st !! i = Some c -> buffers (cache st) !! s = Some (d, r) ->
  buffers bv' = <[s := (d', r')]> (buffers (cache st)) ->
  (kept (volume (cache st)) σ d c t -> kept (volume bv') σ' d' c' t) ->
  stored {| cache := bv'; owner := o'; clients := <[i := c']> (clients st) |} σ' t.
Proof.
  intros Hst Hi Hb Hb' Hkept.
  assert (Hdone : kept (volume bv') σ' d' c' t ->
    stored {| cache := bv'; owner := o'; clients := <[i := c']> (clients st) |} σ' t).
  { intros [?|[?|?]]; [by left| |]; right.
    - left. exists s, d', r'. simpl. by rewrite Hb', lookup_insert_eq.
    - right. exists i, c'. simpl. by rewrite list_lookup_insert_eq by (by eapply lookup_lt_Some). }
  destruct Hst as [Hc|[(s0 & d0 & r0 & Hs0 & Hx0 & Ht0)|(j & x & Hj & Hx)]].
  - apply Hdone, Hkept. by left.
  - destruct (decide (s0 = s)) as [->|Hne].
    + rewrite Hb in Hs0. simplify_eq. apply Hdone, Hkept. right. by left.
    + right. left. exists s0, d0, r0. simpl. by rewrite Hb', lookup_insert_ne.
  - destruct (decide (j = i)) as [->|Hne].
    + rewrite Hi in Hj. simplify_eq. apply Hdone, Hkept. right. by right.
    + right. right. exists j, x. simpl. by rewrite list_lookup_insert_ne.
Qed.

(** Task [i] changes one buffer, and with it the device and sector [s] of the disk. *)
Lemma coherent_insert st σ i c c' s d r d' r' bv' o' σ' :
  coherent st σ -> clients st !! i = Some c -> buffers (cache st) !! s = Some (d, r) ->
  buffers bv' = <[s := (d', r')]> (buffers (cache st)) ->
  safe {| cache := bv'; owner := o'; clients := <[i := c']> (clients st) |} ->
  device_fits (volume bv') -> data_fits d' ->
  (d_sector d' = Some s -> bytes d' = σ' s) ->
  (is_dirty d' = true -> is_dirty d = true /\ d_sector d' = d_sector d /\ bytes d' = bytes d /\ (forall t, σ' t = σ t) /\
      (forall t, activity c' <> Filling t) \/ d_sector d' = Some s) ->
  (forall t, t <> s -> σ' t = σ t) ->
  (forall t, 0 <= t < n -> kept (volume (cache st)) σ d c t -> kept (volume bv') σ' d' c' t) ->
  (r' = 0%nat -> d_sector d' = Some s) ->
  (forall t, activity c' = Filling t -> t = s) -> (forall t, activity c' <> Unwinding t) ->
  coherent {| cache := bv'; owner := o'; clients := <[i := c']> (clients st) |} σ'.
Proof.
  intros Hco Hi Hb Hb' Hsafe Hdev Hfit Hnamed Hdirty Hσ Hkept Hr' Hfill Hunw.
  assert (Hlook : forall t x y, buffers bv' !! t = Some (x, y) ->
    t = s /\ x = d' /\ y = r' \/ t <> s /\ buffers (cache st) !! t = Some (x, y)).
  { intros t x y. rewrite Hb'. intros [[<- [= <- <-]]|[Hne ?]]%lookup_insert_Some; auto. }
  split; simpl; try done.
  - intros t x y [(-> & -> & ->)|[_ Ht]]%Hlook; [|exact (co_data _ _ Hco _ _ _ Ht)].
    split; [|done]. exact (proj1 (co_data _ _ Hco _ _ _ Hb)).
  - intros t x y [(-> & -> & ->)|[Hne Ht]]%Hlook Hd; [auto|]. rewrite Hσ by done. by eapply co_named.
  - intros t x y u [(-> & -> & ->)|[Hne Ht]]%Hlook Hx Hu.
    + destruct (Hdirty Hx) as [(Hx0 & Hs0 & Hby & Hs & _)|Hs]; [|simplify_eq; auto].
      rewrite Hby, Hs, Hb'. destruct (co_dirty _ _ Hco s d r u Hb Hx0) as [Hbu Hor]; [congruence|]. split; [done|].
      destruct Hor as [->|Hn]; [by left|]. right. rewrite lookup_insert_ne; [done|]. intros ->. congruence.
    + destruct (co_dirty _ _ Hco t x y u Ht Hx Hu) as [Hbu Hor].
      assert (u <> s) by (intros ->; destruct Hor as [->|]; congruence).
      rewrite Hσ, Hb', lookup_insert_ne by done. done.
  - intros t Ht. eapply (stored_insert st); eauto. by apply (co_disk _ _ Hco).
  - intros t x [(-> & -> & Hy)|[Hne Ht]]%Hlook; [auto|]. by apply (co_cached _ _ Hco).
  - intros j x t d0 r0 Hj Hx [(-> & -> & ->)|[Hne Ht]]%Hlook Hd0.
    + destruct (Hdirty Hd0) as [(Hx0 & Hs0 & _ & _ & Hnf)|Hs]; [|done].
      apply list_lookup_insert_Some in Hj as [(<- & <- & _)|[_ Hj]]; [by apply Hnf in Hx|].
      rewrite Hs0. by eapply (co_filling _ _ Hco j x s d r).
    + apply list_lookup_insert_Some in Hj as [(<- & <- & _)|[_ Hj]]; [by apply Hfill in Hx|].
      by eapply (co_filling _ _ Hco j x t d0 r0).
  - intros j x t Hj. apply list_lookup_insert_Some in Hj as [(<- & <- & _)|[_ Hj]]; [done|]. by eapply co_unwinding.
Qed.

Lemma data_commit_fits (v : V) d :
  device_fits v -> data_fits d -> (is_dirty d = true -> d_sector d <> None) -> exists v',
    data_commit (v, d) = (Ok tt, (v', {| d_sector := d_sector d; is_dirty := false; bytes := bytes d |})) /\
    device_fits v' /\
    forall t, content v' t = if decide (is_dirty d = true /\ d_sector d = Some t) then bytes d else content v t.
Proof.
  intros (Hh & Hn & Hz) (Hl & Hby & Hr) Hd. unfold data_commit, mbnd, mget. simpl. destruct (is_dirty d) eqn:Hdirty.
  - destruct (d_sector d) as [s|] eqn:Hs; [|by destruct Hd]. simpl. specialize (Hr s eq_refl).
    destruct (write_reliable v s (bytes d)) as (v' & Hw & Hh' & Hn' & Hz' & Ht); [done|unfold in_range; lia|lia|done|].
    exists v'. unfold mfst, mput. simpl. rewrite Hw, Hs. unfold device_fits. split_and!; try done; [lia|lia|].
    intros t. rewrite Ht. by repeat case_decide; naive_solver.
  - exists v. split; [unfold ret; by destruct d; simpl in *; subst|]. split; [done|].
    intros t. case_decide; naive_solver.
Qed.

Lemma data_fill_fits s (v : V) d :
  device_fits v -> data_fits d -> 0 <= s < n -> exists v' d',
    data_fill s (v, d) = (Ok tt, (v', d')) /\ device_fits v' /\ (forall t, content v' t = content v t) /\
    is_dirty d' = is_dirty d /\ d_sector d' = Some s /\ data_fits d' /\
    bytes d' = if decide (d_sector d = Some s) then bytes d else content v s.
Proof.
  intros Hdev Hfit Hs. pose proof Hdev as (Hh & Hn & Hz). pose proof Hfit as (Hl & Hby & Hr).
  unfold data_fill, mbnd, mget. simpl. destruct (decide (d_sector d <> Some s)) as [Hne|Heq].
  - assert (Hin : in_range v s) by (unfold in_range; lia).
    destruct (read_reliable v s (bytes d)) as (v' & Hrd & Hh' & Hn' & Hz' & Ht); [done|done|lia|].
    unfold data_read. rewrite Hrd. simpl. eexists _, _. rewrite decide_False by done.
    pose proof (content_length v s Hh Hin). pose proof (content_bytes v s Hh Hin).
    split; [done|]. unfold device_fits, data_fits. simpl. split_and!; try done; try lia. intros t [= <-]. lia.
  - apply dec_stable in Heq. eexists _, _. rewrite decide_True by done. split_and!; try done; apply Hdev.
Qed.

Lemma coherent_answering st σ : coherent st σ -> answering st.
Proof.
  intros Hco s d r Hb. destruct (co_data _ _ Hco _ _ _ Hb) as [Hs Hfit]. split.
  - destruct (data_commit_fits _ d (co_device _ _ Hco) Hfit) as (v' & -> & _); [|done]. by apply (sf_dirty _ (co_safe _ _ Hco) s d r).
  - by destruct (data_fill_fits s _ d (co_device _ _ Hco) Hfit Hs) as (v' & d' & -> & _).
Qed.

(** A step that is coherent returns [b] and leaves the disk [σ]. *)
Definition serves (p : outcome VolumeError (list Z) * SharedCache V) (q : list Z * disk) : Prop :=
  p.1 = Ok q.1 /\ coherent p.2 q.2.

(** What a task does with the device while it works on buffer [s]. *)
Lemma commit_keeps v d v' c c' σ t :
  (forall t, content v' t = if decide (is_dirty d = true /\ d_sector d = Some t) then bytes d else content v t) ->
  (is_dirty d = true -> d_sector d = Some t -> bytes d = σ t) ->
  (activity c = Marking t -> activity c' = Marking t) ->
  kept v σ d c t -> kept v' σ {| d_sector := d_sector d; is_dirty := false; bytes := bytes d |} c' t.
Proof.
  intros Ht Hb Hm Hk. unfold kept in *. rewrite Ht.
  destruct (decide (is_dirty d = true /\ d_sector d = Some t)) as [[Hd Hs]|Hd].
  - left. auto.
  - destruct Hk as [?|[?|?]]; [by left|done|right; right; auto].
Qed.

Lemma write_back_coherent st σ i c s :
  coherent st σ -> clients st !! i = Some c -> activity c = Writing s -> good (write_back i c s st) ->
  serves (write_back i c s st) ([], σ).
Proof.
  intros Hco Hi Ha [_ Hgood]. pose proof (co_safe _ _ Hco) as Hsf.
  destruct (safe_ref st i c s Hsf Hi) as (d & r & Hb); [at_point Ha|].
  destruct (co_data _ _ Hco _ _ _ Hb) as [Hs Hfit].
  destruct (data_commit_fits _ d (co_device _ _ Hco) Hfit) as (v' & He & Hdev & Ht); [by apply (sf_dirty _ Hsf s d (S r))|].
  destruct (on_data_buffers s _ _ _ _ _ _ _ (sf_shape _ Hsf) Hb He) as (bv' & Hod & Hv & Hsh & Hb').
  revert Hgood. unfold write_back, perform. rewrite Hod. intros Hgood. split; [done|]. simpl in *. revert Hgood. unfold_state. intros Hgood.
  eapply (coherent_insert st σ i c); try done.
  - by rewrite Hv.
  - by apply (co_named _ _ Hco s d (S r)).
  - intros t Htr. rewrite Hv. apply commit_keeps; [done| |by rewrite Ha].
    intros Hd Hds. by apply (co_dirty _ _ Hco s d (S r) t).
  - by intros t [= <-].
Qed.

(** A sector that a buffer has a name for and has not loaded is on the device. *)
Lemma coherent_unloaded st σ s d r :
  coherent st σ -> buffers (cache st) !! s = Some (d, r) -> d_sector d <> Some s ->
  content (volume (cache st)) s = σ s.
Proof.
  intros Hco Hb Hd. destruct (co_data _ _ Hco _ _ _ Hb) as [Hs _].
  destruct (co_disk _ _ Hco s Hs) as [Hc|[(s0 & d0 & r0 & Hs0 & Hx0 & Ht0)|(j & x & Hj & Hx)]]; [done| |].
  - destruct (co_dirty _ _ Hco _ _ _ _ Hs0 Hx0 Ht0) as [_ [->|Hn]]; congruence.
  - pose proof (sf_marking _ (co_safe _ _ Hco) _ _ _ Hj Hx) as Hh.
    destruct (sf_held _ (co_safe _ _ Hco) _ _ _ Hj Hh) as (d' & r' & Hb' & Hd'). congruence.
Qed.

Lemma fill_coherent st σ i c s :
  coherent st σ -> clients st !! i = Some c -> activity c = Filling s -> good (fill i c s st) ->
  serves (fill i c s st) ([], σ).
Proof.
  intros Hco Hi Ha [_ Hgood]. pose proof (co_safe _ _ Hco) as Hsf.
  destruct (safe_ref st i c s Hsf Hi) as (d & r & Hb); [at_point Ha|].
  destruct (co_data _ _ Hco _ _ _ Hb) as [Hs Hfit].
  destruct (data_fill_fits s _ d (co_device _ _ Hco) Hfit Hs) as (v' & d' & He & Hdev & Ht & Hdd & Hd' & Hfit' & Hby).
  destruct (on_data_buffers s _ _ _ _ _ _ _ (sf_shape _ Hsf) Hb He) as (bv' & Hod & Hv & Hsh & Hb').
  revert Hgood. unfold fill, perform. rewrite Hod. intros Hgood. split; [done|]. simpl in *. revert Hgood. unfold_state. intros Hgood.
  eapply (coherent_insert st σ i c); try done.
  - by rewrite Hv.
  - intros _. rewrite Hby. destruct (decide (d_sector d = Some s)) as [Hds|Hds].
    + by apply (co_named _ _ Hco s d (S r)).
    + by apply (coherent_unloaded st σ s d (S r)).
  - by right.
  - intros t Htr. unfold kept. rewrite Hv, Ht, Hdd, Hd', Ha. intros [?|[[Hx Hxs]|?]]; [by left| |done].
    right. left. split; [done|]. rewrite <- Hxs. symmetry. by apply (co_filling _ _ Hco i c s d (S r)).
Qed.

(** The references to a buffer change, or the task goes on. *)
Lemma coherent_count st σ i c c' s d r r' bv' o' :
  coherent st σ -> clients st !! i = Some c -> buffers (cache st) !! s = Some (d, r) ->
  buffers bv' = <[s := (d, r')]> (buffers (cache st)) -> volume bv' = volume (cache st) ->
  safe {| cache := bv'; owner := o'; clients := <[i := c']> (clients st) |} ->
  (r' = 0%nat -> d_sector d = Some s) -> (forall t, activity c <> Marking t) ->
  (forall t, activity c' <> Filling t) -> (forall t, activity c' <> Unwinding t) ->
  coherent {| cache := bv'; owner := o'; clients := <[i := c']> (clients st) |} σ.
Proof.
  intros Hco Hi Hb Hb' Hv Hsafe Hr Hm Hf Hu. destruct (co_data _ _ Hco _ _ _ Hb) as [Hs Hfit].
  eapply (coherent_insert st σ i c); try done.
  - rewrite Hv. apply (co_device _ _ Hco).
  - by apply (co_named _ _ Hco s d r).
  - intros Hd. left. done.
  - intros t _. rewrite Hv. unfold kept. intros [?|[?|Hx]]; [by left|by right; left|by apply Hm in Hx].
  - intros t Ht. by apply Hf in Ht.
Qed.

Lemma lock_coherent st σ i c s :
  coherent st σ -> clients st !! i = Some c -> activity c = Waiting s -> good (lock_data i c s st) ->
  serves (lock_data i c s st) ([], σ).
Proof.
  intros Hco Hi Ha [_ Hgood]. destruct (safe_ref st i c s (co_safe _ _ Hco) Hi) as (d & r & Hb); [at_point Ha|].
  split; [done|]. simpl in *. revert Hgood. unfold_state. intros Hgood.
  apply (coherent_count st σ i c _ s d (S r) (S r)); try done; [by rewrite insert_id|by rewrite Ha].
Qed.

Lemma clone_coherent st σ i c s :
  coherent st σ -> clients st !! i = Some c -> activity c = Resting -> holds s c = true -> good (clone i c s st) ->
  serves (clone i c s st) ([], σ).
Proof.
  intros Hco Hi Ha Hs%bool_decide_eq_true [_ Hgood]. pose proof (co_safe _ _ Hco) as Hsf.
  destruct (safe_held _ _ _ _ Hsf Hi Hs) as (d & r & Hb & Hd).
  destruct (clone_ref_buffers (E := VolumeError) s _ _ _ (sf_shape _ Hsf) Hb) as (bv' & Hdr & Hv & Hsh & Hb').
  revert Hgood. unfold clone, perform. rewrite Hdr. intros Hgood. split; [done|].
  by apply (coherent_count st σ i c _ s d (S r) (S (S r))); rewrite ?Ha.
Qed.

Lemma release_coherent st σ i c s :
  coherent st σ -> clients st !! i = Some c -> activity c = Resting -> holds s c = true -> good (release i c s st) ->
  serves (release i c s st) ([], σ).
Proof.
  intros Hco Hi Ha Hs%bool_decide_eq_true [_ Hgood]. pose proof (co_safe _ _ Hco) as Hsf.
  destruct (safe_held _ _ _ _ Hsf Hi Hs) as (d & r & Hb & Hd).
  destruct (drop_ref_buffers (E := VolumeError) s _ _ _ (sf_shape _ Hsf) Hb) as (bv' & Hdr & Hv & Hsh & Hb').
  revert Hgood. unfold release, perform. rewrite Hdr. intros Hgood. split; [done|].
  by apply (coherent_count st σ i c _ s d (S r) r); rewrite ?Ha.
Qed.

(** A task that holds a reference works on the data and stays coherent. *)
Lemma get_coherent st σ i c s :
  coherent st σ -> clients st !! i = Some c -> activity c = Resting -> holds s c = true ->
  serves (get s st) (σ s, σ).
Proof.
  intros Hco Hi Ha Hs%bool_decide_eq_true. pose proof (co_safe _ _ Hco) as Hsf.
  destruct (safe_held _ _ _ _ Hsf Hi Hs) as (d & r & Hb & Hd).
  destruct (buffers_split _ _ _ _ (sf_shape _ Hsf) Hb) as (l1 & l2 & Hl & Hl1).
  assert (Hg : get_bytes (E := VolumeError) s (cache st) = (Ok (bytes d), cache st)).
  { unfold get_bytes. rewrite (on_data_run s _ (cache st) l1 _ _ l2 Hl eq_refl Hl1). simpl. f_equal.
    destruct (cache st). simpl in *. by rewrite Hl. }
  unfold get, perform. rewrite Hg. split; simpl; [by rewrite (co_named _ _ Hco s d (S r))|].
  unfold with_cache. by destruct st.
Qed.

Lemma put_coherent st σ i c s b :
  coherent st σ -> clients st !! i = Some c -> activity c = Resting -> holds s c = true ->
  zlen b = size -> bytes_ok b -> good (put i c s b st) -> serves (put i c s b st) ([], <[s := b]> σ).
Proof.
  intros Hco Hi Ha Hs%bool_decide_eq_true Hlen Hbytes [_ Hgood]. pose proof (co_safe _ _ Hco) as Hsf.
  destruct (safe_held _ _ _ _ Hsf Hi Hs) as (d & r & Hb & Hd).
  destruct (co_data _ _ Hco _ _ _ Hb) as [Hsr (_ & _ & Hrange)].
  destruct (on_data_buffers (E := VolumeError) (A := unit) s ('(v, d) <- mget ;; mput (v, {| d_sector := d_sector d; is_dirty := is_dirty d; bytes := b |}))
    (cache st) d r (Ok tt) (volume (cache st)) {| d_sector := d_sector d; is_dirty := is_dirty d; bytes := b |}
    (sf_shape _ Hsf) Hb eq_refl) as (bv' & Hod & Hv & Hsh & Hb').
  revert Hgood. unfold put, perform, set_bytes. rewrite Hod. intros Hgood. split; [done|]. simpl in *.
  revert Hgood. unfold_state. intros Hgood. eapply (coherent_insert st σ i c); try done.
  - rewrite Hv. apply (co_device _ _ Hco).
  - simpl. by rewrite fn_lookup_insert.
  - by right.
  - intros t Ht. by rewrite fn_lookup_insert_ne.
  - intros t _. unfold kept. rewrite Hv. simpl. destruct (decide (t = s)) as [->|Hne]; [by right; right|].
    rewrite fn_lookup_insert_ne, Ha by done. intros [?|[?|?]]; [by left|by right; left|done].
Qed.

Lemma mark_coherent st σ i c s :
  coherent st σ -> clients st !! i = Some c -> activity c = Marking s -> good (mark i c s st) ->
  serves (mark i c s st) ([], σ).
Proof.
  intros Hco Hi Ha [_ Hgood]. pose proof (co_safe _ _ Hco) as Hsf. pose proof (sf_marking _ Hsf _ _ _ Hi Ha) as Hs.
  destruct (safe_held _ _ _ _ Hsf Hi Hs) as (d & r & Hb & Hd).
  destruct (co_data _ _ Hco _ _ _ Hb) as [Hsr Hfit].
  destruct (on_data_buffers (E := VolumeError) (A := unit) s ('(v, d) <- mget ;; mput (v, {| d_sector := d_sector d; is_dirty := true; bytes := bytes d |}))
    (cache st) d r (Ok tt) (volume (cache st)) {| d_sector := d_sector d; is_dirty := true; bytes := bytes d |}
    (sf_shape _ Hsf) Hb eq_refl) as (bv' & Hod & Hv & Hsh & Hb').
  revert Hgood. unfold mark, perform, mark_as_dirty. rewrite Hod. intros Hgood. split; [done|]. simpl in *.
  revert Hgood. unfold_state. intros Hgood. eapply (coherent_insert st σ i c); try done.
  - rewrite Hv. apply (co_device _ _ Hco).
  - by apply (co_named _ _ Hco s d (S r)).
  - by right.
  - intros t _. unfold kept. rewrite Hv, Ha. simpl. intros [?|[[_ ?]|[= <-]]]; [by left|by right; left|by right; left].
Qed.

Lemma sync_coherent st σ i c s :
  coherent st σ -> clients st !! i = Some c -> activity c = Resting -> holds s c = true -> good (sync s st) ->
  serves (sync s st) ([], σ).
Proof.
  intros Hco Hi Ha Hs%bool_decide_eq_true. pose proof (co_safe _ _ Hco) as Hsf.
  destruct (safe_held _ _ _ _ Hsf Hi Hs) as (d & r & Hb & Hd).
  destruct (co_data _ _ Hco _ _ _ Hb) as [Hsr Hfit].
  destruct (data_commit_fits _ d (co_device _ _ Hco) Hfit) as (v' & He & Hdev & Ht); [by apply (sf_dirty _ Hsf s d (S r))|].
  destruct (on_data_buffers s _ _ _ _ _ _ _ (sf_shape _ Hsf) Hb He) as (bv' & Hod & Hv & Hsh & Hb').
  unfold sync. rewrite (perform_id _ _ _ i c Hi). unfold perform. rewrite Hod. intros [_ Hgood]. split; [done|]. simpl in *.
  revert Hgood. unfold_state. intros Hgood. eapply (coherent_insert st σ i c); try done.
  - by rewrite Hv.
  - by apply (co_named _ _ Hco s d (S r)).
  - intros t Htr. rewrite Hv. apply commit_keeps; [done| |done].
    intros Hx Hds. by apply (co_dirty _ _ Hco s d (S r) t).
  - by rewrite Ha.
  - by rewrite Ha.
Qed.

Lemma settled_spec st s t d r :
  shape (cache st) -> settled s st = true -> buffers (cache st) !! t = Some (d, r) -> t <> s ->
  is_dirty d = true -> d_sector d <> Some s.
Proof.
  intros Hsh Hse Hb Hne Hd Hs. apply buffers_lookup in Hb; [|done]. unfold settled in Hse.
  rewrite forallb_forall in Hse. apply list_elem_of_In, Hse in Hb. simpl in Hb.
  rewrite Hd, bool_decide_true in Hb by done. unfold has_sector in Hb. simpl in Hb. lia.
Qed.

(** A call gets a buffer under a new name: [m] is what remains of the others. *)
Lemma coherent_fresh st σ i c s d m bv' :
  coherent st σ -> clients st !! i = Some c -> activity c = Resting -> 0 <= s < n -> settled s st = true ->
  buffers (cache st) !! s = None -> buffers bv' = <[s := (d, 1%nat)]> m -> volume bv' = volume (cache st) ->
  safe {| cache := bv'; owner := owner st; clients := <[i := {| held := held c; activity := Waiting s |}]> (clients st) |} ->
  data_fits d -> d_sector d <> Some s ->
  (forall t, is_dirty d = true -> d_sector d = Some t -> bytes d = σ t /\ m !! t = None) ->
  (forall t x, m !! t = Some x -> buffers (cache st) !! t = Some x) ->
  (forall t d0 r0, buffers (cache st) !! t = Some (d0, r0) -> m !! t = Some (d0, r0) \/ d0 = d) ->
  coherent {| cache := bv'; owner := owner st; clients := <[i := {| held := held c; activity := Waiting s |}]> (clients st) |} σ.
Proof.
  intros Hco Hi Ha Hs Hse Hnone Hb' Hv Hsafe Hfit Hds Hdirty Hsub Hmove. pose proof (co_safe _ _ Hco) as Hsf.
  assert (Hlook : forall t x y, buffers bv' !! t = Some (x, y) ->
    t = s /\ x = d /\ y = 1%nat \/ t <> s /\ buffers (cache st) !! t = Some (x, y)).
  { intros t x y. rewrite Hb'. intros [[<- [= <- <-]]|[Hne ?%Hsub]]%lookup_insert_Some; auto. }
  split; simpl; try done.
  - rewrite Hv. apply (co_device _ _ Hco).
  - intros t x y [(-> & -> & ->)|[_ Ht]]%Hlook; [done|exact (co_data _ _ Hco _ _ _ Ht)].
  - intros t x y [(-> & -> & ->)|[Hne Ht]]%Hlook Hd; [done|]. by apply (co_named _ _ Hco _ _ _ Ht).
  - intros t x y u [(-> & -> & ->)|[Hne Ht]]%Hlook Hx Hu; rewrite Hb'.
    + destruct (Hdirty u Hx Hu) as [Hbu Hmu]. split; [done|]. right. rewrite lookup_insert_ne; [done|]. intros ->. done.
    + destruct (co_dirty _ _ Hco t x y u Ht Hx Hu) as [Hbu [->|Hn]]; [auto|]. split; [done|]. right.
      assert (u <> s) by (intros ->; exact (settled_spec st s t x y (sf_shape _ Hsf) Hse Ht Hne Hx Hu)).
      rewrite lookup_insert_ne by done. destruct (m !! u) as [z|] eqn:Hz; [|done]. apply Hsub in Hz. congruence.
  - intros t Ht. destruct (co_disk _ _ Hco t Ht) as [Hc|[(s0 & d0 & r0 & Hs0 & Hx0 & Ht0)|(j & x & Hj & Hx)]].
    + left. simpl. by rewrite Hv.
    + right. left. simpl. rewrite Hb'. destruct (Hmove _ _ _ Hs0) as [Hm| ->].
      * exists s0, d0, r0. rewrite lookup_insert_ne by (intros ->; congruence). done.
      * exists s, d, 1%nat. by rewrite lookup_insert_eq.
    + right. right. exists j, x. simpl. rewrite list_lookup_insert_ne; [done|]. intros ->. simplify_eq. congruence.
  - intros t x [(-> & -> & ?)|[Hne Ht]]%Hlook; [done|]. by apply (co_cached _ _ Hco).
  - intros j x t d0 r0 Hj Hx Hb0 Hd0. apply list_lookup_insert_Some in Hj as [(<- & <- & _)|[_ Hj]]; [done|].
    apply Hlook in Hb0 as [(-> & -> & ->)|[_ Hb0]]; [|by eapply (co_filling _ _ Hco j x t d0 r0)].
    destruct (safe_ref st j x s Hsf Hj) as (d1 & r1 & Hb1); [at_point Hx|congruence].
  - intros j x t Hj. apply list_lookup_insert_Some in Hj as [(<- & <- & _)|[_ Hj]]; [done|]. by eapply co_unwinding.
Qed.

Lemma call_coherent st σ i c s :
  coherent st σ -> clients st !! i = Some c -> activity c = Resting -> 0 <= s < n -> settled s st = true ->
  good (call_sector i c s st) -> serves (call_sector i c s st) ([], σ).
Proof.
  intros Hco Hi Ha Hs Hse. destruct (checkout_buffers (cache st) s (sf_shape _ (co_safe _ _ Hco))) as (bv & Hc & Hv & Hsh & Ht).
  unfold call_sector. rewrite Hc. intros [_ Hgood]. split; [done|]. simpl in *. revert Hgood. unfold_state. intros Hgood.
  inversion Ht as [d r Hb0 Hb|s0 d Hn Hs0 Hb|Hn Hb]; symmetry in Hb.
  - by apply (coherent_count st σ i c _ s d r (S r)); rewrite ?Ha.
  - pose proof (co_cached _ _ Hco _ _ Hs0) as Hd. assert (s0 <> s) by (intros ->; congruence).
    apply (coherent_fresh st σ i c s d (delete s0 (buffers (cache st)))); try done.
    + exact (proj2 (co_data _ _ Hco _ _ _ Hs0)).
    + congruence.
    + intros t Hx Hdt. rewrite Hd in Hdt. simplify_eq. split; [by apply (co_named _ _ Hco t d 0)|apply lookup_delete_eq].
    + by intros t x [_ Hx]%lookup_delete_Some.
    + intros t d0 r0 Hd0. destruct (decide (t = s0)) as [->|Hne]; [right; congruence|left]. by rewrite lookup_delete_ne.
  - apply (coherent_fresh st σ i c s (data (new_sector s (volume (cache st)))) (buffers (cache st))); try done; [|by auto].
    destruct (co_device _ _ Hco) as (Hh & Hn' & Hz). unfold data_fits. simpl. rewrite length_replicate.
    pose proof (content_length (volume (cache st)) s Hh) as Hlen. unfold in_range in Hlen.
    split_and!; [lia|apply Forall_replicate; unfold unsigned; lia|done].
Qed.

Lemma step_coherent st σ i a p :
  coherent st σ -> orderly a st = true -> step i a st = Some p -> serves p (expected a σ).
Proof.
  intros Hco Ho Hstep. pose proof (step_safe _ _ _ _ (coherent_answering _ _ Hco) (co_safe _ _ Hco) Hstep) as Hgood.
  revert Hstep Hgood. unfold step. destruct (clients st !! i) as [c|] eqn:Hi; [|done]. simpl.
  destruct (activity c) as [|s|s|s|s|s] eqn:Ha, a as [s'| | | | |s'|s' b| |s'|s'|s']; try done;
    repeat match goal with |- context [if ?b then _ else _] => destruct b eqn:? end; try done; intros [= <-] Hgood; simpl in *;
    repeat match goal with Hx : _ && _ = true |- _ => apply andb_true_iff in Hx as [??] end;
    eauto using lock_coherent, write_back_coherent, fill_coherent, get_coherent, mark_coherent,
      sync_coherent, clone_coherent, release_coherent.
  - apply call_coherent; try done; lia.
  - apply put_coherent; try done; [lia|]. by apply Forall_unsignedb.
  - by destruct (co_unwinding _ _ Hco i c s Hi).
Qed.

Lemma shared_coherent k (v : V) : device_fits v -> coherent (shared k v) (content v).
Proof.
  intros Hdev.
  assert (Hc : forall i c, replicate k {| held := []; activity := Resting |} !! i = Some c -> activity c = Resting).
  { by intros i c [-> _]%lookup_replicate. }
  split; simpl; try done.
  - apply shared_safe.
  - intros t Ht. by left.
  - intros i c s Hi%Hc. by rewrite Hi.
Qed.

Lemma run_coherent l st σ os st' :
  coherent st σ -> orderly_run l st = true -> run l st = Some (os, st') ->
  os = Ok <$> (expected_run l σ).1 /\ coherent st' (expected_run l σ).2.
Proof.
  revert st σ os. induction l as [|[i a] l IH]; intros st σ os Hco; simpl.
  - by intros _ [= <- <-].
  - intros [Ho Hos]%andb_true_iff. destruct (step i a st) as [[o st1]|] eqn:Hs; [|done]. simpl.
    destruct (run l st1) as [[os1 st2]|] eqn:Hr; [|done]. simpl. intros [= <- <-].
    destruct (step_coherent _ _ _ _ _ Hco Ho Hs) as [Hok Hco1]. simpl in *.
    destruct (expected a σ) as [b σ1]. simpl in *. destruct (IH _ _ _ Hco1 Hos Hr) as [-> Hco2].
    destruct (expected_run l σ1) as [bs σ2]. simpl in *. by rewrite Hok.
Qed.

End sharing.

(** ** The cache is safe to share *)

(** [C5]. Whatever several tasks do with the cache, in any order and with any
    device that returns [Ok] or [Err], no step panics: the [unwrap] of [commit] finds
    a sector, that of [Drop] finds the buffer in [lent], and that of [Arc::get_mut]
    holds because nobody has a reference to a cached buffer. Every reference a task
    got from [sector] is to a lent buffer that is loaded with its sector, and no two
    buffers have the same name. *)
Theorem shared_cache_safe {V} `{Volume V} (k : nat) (v : V) l os st :
  responsive (V := V) -> run l (shared k v) = Some (os, st) ->
  Forall answers os /\
  (forall b, b ∈ cached (cache st) -> total (b_sector b) (clients st) = 0%nat) /\
  (forall i c s, clients st !! i = Some c -> s ∈ held c -> exists d r,
     ({| b_sector := s; data := d |}, S r) ∈ lent (cache st) /\ d_sector d = Some s /\ total s (clients st) = S r) /\
  NoDup (b_sector <$> entries (cache st)).
Proof.
  intros Hdev Hrun. destruct (run_safe _ _ _ _ Hdev (shared_safe k v) Hrun) as [Hos Hsf].
  pose proof (sf_shape _ Hsf) as Hsh. split; [done|]. split_and!.
  - intros [s d] Hb. rewrite (sf_refs _ Hsf). unfold count.
    assert (Hs : buffers (cache st) !! s = Some (d, 0%nat)) by (apply buffers_lookup; [done|]; unfold slots; set_solver).
    simpl. by rewrite Hs.
  - intros i c s Hi Hs. destruct (safe_held _ _ _ _ Hsf Hi Hs) as (d & r & Hb & Hd). exists d, r.
    destruct (buffers_split _ _ _ _ Hsh Hb) as (l1 & l2 & Hl & _). rewrite (sf_refs _ Hsf). unfold count. rewrite Hb, Hl.
    split_and!; [set_solver|done|done].
  - destruct Hsh as [Hnd _]. unfold slots in Hnd. by rewrite fmap_app, cached_fst in Hnd.
Qed.

(** The tasks do not block each other in the cache: as long as one
    of them is inside of a call, a task inside of a call can go on, and the steps
    inside of calls come to an end after at most four for each task. *)
Theorem shared_cache_calls_return {V} `{Volume V} (k : nat) (v : V) l os st :
  responsive (V := V) -> run l (shared k v) = Some (os, st) ->
  (forall i c, clients st !! i = Some c -> activity c <> Resting ->
     exists j x p, clients st !! j = Some x /\ activity x <> Resting /\ step j (next x) st = Some p) /\
  (forall l' os' st', Forall (fun e => in_call e.2 = true) l' -> run l' st = Some (os', st') -> (length l' <= 4 * k)%nat).
Proof.
  intros Hdev Hrun. destruct (run_safe _ _ _ _ Hdev (shared_safe k v) Hrun) as [_ Hsf]. split.
  - intros i c Hi Hc. by apply (step_enabled st i c).
  - intros l' os' st' Hl Hr. pose proof (in_call_bound _ _ _ _ Hdev Hsf Hl Hr) as Hlen.
    pose proof (remaining_bound st) as Hb. rewrite (run_length _ _ _ _ Hrun) in Hb. simpl in Hb.
    rewrite length_replicate in Hb. lia.
Qed.

(** [C3]. Tasks that share the cache on a device that works see one array of
    sectors: every read returns what was stored last, by whichever task, with all the
    recycling and writing back in between, as long as no task asks for a sector that a
    renamed buffer has still to write back. When no buffer is dirty and no task is inside of
    a call, the device has all of it. *)
Theorem shared_cache_refines_disk {V} `{ReliableVolume V} (k : nat) (v : V) l os st :
  healthy v -> orderly_run (sector_count v) (sector_size v) l (shared k v) = true ->
  run l (shared k v) = Some (os, st) ->
  os = Ok <$> (expected_run l (content v)).1 /\
  (Forall (fun b => is_dirty (data b) = false) (entries (cache st)) ->
   Forall (fun c => activity c = Resting) (clients st) ->
   forall t, in_range v t -> content (volume (cache st)) t = (expected_run l (content v)).2 t).
Proof.
  intros Hh Ho Hrun.
  destruct (run_coherent (sector_count v) (sector_size v) l _ (content v) os st (shared_coherent _ _ k v (conj Hh (conj eq_refl eq_refl))) Ho Hrun) as [Hos Hco].
  split; [done|]. intros Hclean Hrest t Ht.
  destruct (co_disk _ _ _ _ Hco t Ht) as [Hc|[(s & d & r & Hb & Hd & _)|(i & c & Hi & Hm)]]; [done| |].
  - apply buffers_lookup in Hb; [|exact (sf_shape _ (co_safe _ _ _ _ Hco))].
    apply (list_elem_of_fmap_2 fst) in Hb. unfold slots in Hb. rewrite fmap_app, cached_fst in Hb.
    apply (proj1 (Forall_forall _ _) Hclean) in Hb. simpl in Hb. congruence.
  - apply list_elem_of_lookup_2, (proj1 (Forall_forall _ _) Hrest) in Hi. congruence.
Qed.

(** ** Concrete runs *)

Module Demo.

(** Ten sectors of one byte, all 0. *)
Definition small : RamVolume := {| ram_count := 10; ram_size := 1; ram := ∅ |}.

Definition take_sector (i : nat) (s : Z) : list (nat * Action) := [(i, Call s); (i, Lock); (i, WriteBack); (i, Fill)].
Definition touch (i : nat) (s : Z) : list (nat * Action) := take_sector i s ++ [(i, Release s)].

(** Task 0 stores a 7 into sector 0 and drops it, and then goes through seven
    more sectors, so that the buffer of sector 0 is the least recently used one. *)
Definition prepare : list (nat * Action) :=
  take_sector 0 0 ++ [(0%nat, Put 0 [7]); (0%nat, Mark); (0%nat, Release 0)] ++ mjoin (touch 0 <$> [1; 2; 3; 4; 5; 6; 7]).

(** Task 0 takes sector 8 and writes sector 0 back before task 1 asks for it. *)
Definition one_after_the_other : list (nat * Action) :=
  prepare ++ [(0%nat, Call 8); (0%nat, Lock); (0%nat, WriteBack)] ++ take_sector 1 0 ++ [(1%nat, Get 0); (0%nat, Fill)].

(** Task 1 asks for sector 0 after task 0 has renamed its buffer and before it
    has written the bytes back. *)
Definition race : list (nat * Action) :=
  prepare ++ [(0%nat, Call 8)] ++ take_sector 1 0 ++ [(1%nat, Get 0)].

Lemma small_responsive : responsive (V := RamVolume).
Proof. split; intros; exact I. Qed.

Lemma shared_cache_safe_witness : exists os st, run race (shared 2 small) = Some (os, st) /\ Forall answers os.
Proof.
  eexists _, _. split; [vm_compute; reflexivity|].
  eapply (shared_cache_safe 2 small race); [apply small_responsive|vm_compute; reflexivity].
Defined.

(** Both tasks are inside of a call. *)
Lemma shared_cache_calls_return_witness : exists os st,
  run (prepare ++ [(0%nat, Call 8); (1%nat, Call 0)]) (shared 2 small) = Some (os, st) /\
  exists j x p, clients st !! j = Some x /\ activity x <> Resting /\ step j (next x) st = Some p.
Proof.
  eexists _, _. split; [vm_compute; reflexivity|].
  eapply (proj1 (shared_cache_calls_return 2 small (prepare ++ [(0%nat, Call 8); (1%nat, Call 0)]) _ _ small_responsive
    ltac:(vm_compute; reflexivity)) 0%nat); [reflexivity|done].
Defined.

Lemma shared_cache_refines_disk_witness : exists os st,
  run one_after_the_other (shared 2 small) = Some (os, st) /\
  os = Ok <$> (expected_run one_after_the_other (content small)).1 /\ os !! 49%nat = Some (Ok [7]).
Proof.
  eexists _, _. split; [vm_compute; reflexivity|]. split; [|reflexivity].
  eapply (shared_cache_refines_disk 2 small one_after_the_other); [exact I|vm_compute; reflexivity|vm_compute; reflexivity].
Defined.

(** Without that condition an update is lost: between the renaming of a
    dirty buffer and the writing of its bytes the sector it held has no buffer, and the
    device has the old bytes. A task that asks for the sector then reads a 0 where a 7
    was stored. *)
Theorem renamed_buffer_lost : exists os st,
  run race (shared 2 small) = Some (os, st) /\
  orderly_run 10 1 race (shared 2 small) = false /\
  last os = Some (Ok [0]) /\ last (expected_run race (content small)).1 = Some [7].
Proof. eexists _, _. split; [vm_compute; reflexivity|]. by vm_compute. Qed.

End Demo.
