(* ===== verification/BootSector.v ===== *)
(** * The boot sector and the layout of a FAT32 volume
      (src/ors-kernel/src/fs/fat/boot_sector.rs)

    [try_from] decodes and validates the first sector; the other definitions
    are the methods of [BootSector], with [None] for a panic (a failed
    [debug_assert!], an overflow or an underflow of [usize]). [geometry] is the
    layout a formatted volume has; the lemmas show that under it every available
    cluster has a FAT entry inside the FAT area and data inside the data area, and
    that distinct clusters share neither. *)

From stdpp Require Import strings.
From S2P Require Import Prelude.
Local Open Scope Z_scope.

Inductive BootSectorError :=
| SignatureMismatch
| Broken (s : string)
| Unsupported (s : string).

Record BootSector := {
  jmp_boot : list Z;
  oem_name : list Z;
  bpb_byts_per_sec : Z;
  bpb_sec_per_clus : Z;
  bpb_rsvd_sec_cnt : Z;
  bpb_num_fats : Z;
  bpb_root_ent_cnt : Z;
  bpb_tot_sec_16 : Z;
  bpb_media : Z;
  bpb_fat_sz_16 : Z;
  bpb_sec_per_trk : Z;
  bpb_num_heads : Z;
  bpb_hidd_sec : Z;
  bpb_tot_sec_32 : Z;
  bpb_fat_sz_32 : Z;
  bpb_ext_flags : Z;
  bpb_fs_ver : Z;
  bpb_root_clus : Z;
  bpb_fs_info : Z;
  bpb_bk_boot_sec : Z;
  bpb_reserved : list Z;
  drv_num : Z;
  reserved : Z;
  boot_sig : Z;
  vol_id : Z;
  vol_lab : list Z;
  fil_sys_type : list Z
}.

(** [u8::is_power_of_two] *)
Definition is_power_of_two (x : Z) : bool := (0 <? x) && (Z.land x (x - 1) =? 0).

(** [matches!(_jmp_boot, [0xeb, _, 0x90] | [0xe9, _, _])] *)
Definition jmp_boot_ok (j : list Z) : bool :=
  match j with
  | [a; _; c] => ((a =? 0xeb) && (c =? 0x90)) || (a =? 0xe9)
  | _ => false
  end.

(** The bytes and the little-endian integers at fixed offsets; every offset is
    below 512, which the length test at the start of [try_from] guarantees. *)
Definition field (buf : list Z) (off n : Z) : Z := from_le_bytes (sub buf off n).

Definition decode (buf : list Z) : BootSector := {|
  jmp_boot := sub buf 0 3;
  oem_name := sub buf 3 8;
  bpb_byts_per_sec := field buf 11 2;
  bpb_sec_per_clus := at_ buf 13;
  bpb_rsvd_sec_cnt := field buf 14 2;
  bpb_num_fats := at_ buf 16;
  bpb_root_ent_cnt := field buf 17 2;
  bpb_tot_sec_16 := field buf 19 2;
  bpb_media := at_ buf 21;
  bpb_fat_sz_16 := field buf 22 2;
  bpb_sec_per_trk := field buf 24 2;
  bpb_num_heads := field buf 26 2;
  bpb_hidd_sec := field buf 28 4;
  bpb_tot_sec_32 := field buf 32 4;
  bpb_fat_sz_32 := field buf 36 4;
  bpb_ext_flags := field buf 40 2;
  bpb_fs_ver := field buf 42 2;
  bpb_root_clus := field buf 44 4;
  bpb_fs_info := field buf 48 2;
  bpb_bk_boot_sec := field buf 50 2;
  bpb_reserved := sub buf 52 12;
  drv_num := at_ buf 64;
  reserved := at_ buf 65;
  boot_sig := at_ buf 66;
  vol_id := field buf 67 4;
  vol_lab := sub buf 71 11;
  fil_sys_type := sub buf 82 8
|}.

(** The tests of [try_from] on the decoded fields, in the order of the code. *)
Definition validate (bs : BootSector) : outcome BootSectorError BootSector :=
  if negb (jmp_boot_ok (jmp_boot bs)) then Err (Broken "JmpBoot")
  else if negb (existsb (Z.eqb (bpb_byts_per_sec bs)) [512; 1024; 2048; 4096]) then
    Err (Broken "BytsPerSec")
  else if negb (is_power_of_two (bpb_sec_per_clus bs)) then Err (Broken "SecPerClus")
  else if bpb_rsvd_sec_cnt bs =? 0 then Err (Broken "RsvdSecCnt")
  else if negb (bpb_root_ent_cnt bs =? 0) || negb (bpb_tot_sec_16 bs =? 0)
       || negb (bpb_fat_sz_16 bs =? 0) then Err (Unsupported "FAT12/16")
  else if negb (bpb_fs_ver bs =? 0) then Err (Unsupported "FSVer")
  else if negb (bpb_fs_info bs =? 1) then Err (Broken "FSInfo")
  else if negb (boot_sig bs =? 0x29) then Err (Broken "BootSig")
  else Ok bs.

Definition try_from (buf : list Z) : outcome BootSectorError BootSector :=
  if (zlen buf <? 512) || negb (bool_decide (sub buf 510 2 = [0x55; 0xaa])) then
    Err SignatureMismatch
  else validate (decode buf).

(** ** Layout *)

Section layout.
Variable bs : BootSector.

Definition volume_id : Z := vol_id bs.
Definition volume_label : list Z := vol_lab bs.

Definition sector_size : Z := bpb_byts_per_sec bs.

Definition total_sector_count : option Z :=
  if bpb_tot_sec_16 bs =? 0 then Some (bpb_tot_sec_32 bs) else None.

Definition fat_size : option Z :=
  if bpb_fat_sz_16 bs =? 0 then Some (bpb_fat_sz_32 bs) else None.

Definition fat_area_start : Z := bpb_rsvd_sec_cnt bs.

Definition fat_area_size : option Z :=
  s ← fat_size; mul_checked 64 s (bpb_num_fats bs).

Definition root_dir_area_start : option Z :=
  s ← fat_area_size; add_checked 64 fat_area_start s.

Definition root_dir_area_size : option Z :=
  if bpb_root_ent_cnt bs =? 0 then Some 0 else None.

Definition data_area_start : option Z :=
  a ← root_dir_area_start; s ← root_dir_area_size; add_checked 64 a s.

Definition data_area_size : option Z :=
  t ← total_sector_count; a ← data_area_start; sub_checked 64 t a.

Definition cluster_size : Z := bpb_sec_per_clus bs.

Definition cluster_count : option Z :=
  s ← data_area_size; if cluster_size =? 0 then None else Some (s / cluster_size).

Definition is_cluster_available (n : Z) : option bool :=
  if 2 <=? n then c ← cluster_count; m ← add_checked 64 c 1; Some (n <=? m) else Some false.

(** [debug_assert!(self.is_cluster_available(n))] *)
Definition assert_available (n : Z) : option unit :=
  a ← is_cluster_available n; if (a : bool) then Some tt else None.

Definition fat_entry_location (n : Z) : option (Z * Z) :=
  _ ← assert_available n;
  bytes_offset ← mul_checked 64 n 4;
  s ← add_checked 64 fat_area_start (bytes_offset / sector_size);
  Some (s, bytes_offset mod sector_size).

Definition cluster_location (n : Z) : option Z :=
  _ ← assert_available n;
  a ← data_area_start;
  i ← sub_checked 64 n 2;
  o ← mul_checked 64 i cluster_size;
  add_checked 64 a o.

Definition root_dir_cluster : Z := bpb_root_clus bs.

(** ** What a well-formed layout is *)

(** The first data sector and the number of clusters, as numbers. *)
Definition data_start : Z := bpb_rsvd_sec_cnt bs + bpb_fat_sz_32 bs * bpb_num_fats bs.
Definition clusters : Z := (bpb_tot_sec_32 bs - data_start) / bpb_sec_per_clus bs.

(** Where the FAT entry and the data of a cluster are. *)
Definition fat_sector (c : Z) : Z := bpb_rsvd_sec_cnt bs + (c * 4) / bpb_byts_per_sec bs.
Definition fat_offset (c : Z) : Z := (c * 4) mod bpb_byts_per_sec bs.
Definition first_sector (c : Z) : Z := data_start + (c - 2) * bpb_sec_per_clus bs.

(** What [try_from] guarantees. *)
Record valid : Prop := {
  v_sector_size : In (bpb_byts_per_sec bs) [512; 1024; 2048; 4096];
  v_sec_per_clus : 1 <= bpb_sec_per_clus bs <= 128;
  v_rsvd : 1 <= bpb_rsvd_sec_cnt bs < 65536;
  v_root_ent : bpb_root_ent_cnt bs = 0;
  v_tot_16 : bpb_tot_sec_16 bs = 0;
  v_fat_16 : bpb_fat_sz_16 bs = 0;
  v_num_fats : u8 (bpb_num_fats bs);
  v_tot_32 : u32 (bpb_tot_sec_32 bs);
  v_fat_32 : u32 (bpb_fat_sz_32 bs);
  v_root_clus : u32 (bpb_root_clus bs)
}.

(** What a formatted volume of [n] sectors has in addition: the data area is
    inside the volume, the first FAT has an entry for every cluster, and the
    clusters have 28-bit numbers that are not marks. *)
Record geometry (n : Z) : Prop := {
  g_valid : valid;
  g_num_fats : 1 <= bpb_num_fats bs;
  g_data : data_start <= bpb_tot_sec_32 bs;
  g_total : bpb_tot_sec_32 bs <= n;
  g_fat : 4 * (clusters + 2) <= bpb_fat_sz_32 bs * bpb_byts_per_sec bs;
  g_max : clusters + 1 <= 0x0ffffff6
}.

(** The part of [geometry] that [try_from] does not check. *)
Definition fits (n : Z) : Prop :=
  1 <= bpb_num_fats bs /\ data_start <= bpb_tot_sec_32 bs <= n /\
  4 * (clusters + 2) <= bpb_fat_sz_32 bs * bpb_byts_per_sec bs /\ clusters + 1 <= 0x0ffffff6.

(** A cluster number [is_cluster_available] accepts. *)
Definition available (c : Z) : Prop := 2 <= c <= clusters + 1.

#[export] Instance available_dec c : Decision (available c).
Proof. unfold available. apply _. Defined.

End layout.

(** What the first sector of a FAT32 volume has at fixed places: the signature, a jump
    instruction, a power of two as the size of clusters, the version 0, the sector of FSINFO
    and the extended signature. *)
Definition fat32_marks (buf : list Z) : Prop :=
  sub buf 510 2 = [0x55; 0xaa] /\ (at_ buf 0 = 0xeb /\ at_ buf 2 = 0x90 \/ at_ buf 0 = 0xe9) /\
  In (at_ buf 13) [1; 2; 4; 8; 16; 32; 64; 128] /\ sub buf 42 2 = [0; 0] /\ sub buf 48 2 = [1; 0] /\ at_ buf 66 = 0x29.

(** A boot sector of 512-byte sectors, one-sector clusters, two reserved
    sectors and one FAT of [fat] sectors, for a volume of [tot] sectors. *)
Definition demo_boot (fat tot : Z) : list Z :=
  foldl (fun buf '(off, l) => upd buf off l) (replicate 512 0)
    [(0, [0xeb; 0x58; 0x90]); (11, to_le_bytes 2 512); (13, [1]); (14, to_le_bytes 2 2); (16, [1]);
     (32, to_le_bytes 4 tot); (36, to_le_bytes 4 fat); (44, to_le_bytes 4 2); (48, to_le_bytes 2 1);
     (66, [0x29]); (510, [0x55; 0xaa])].

(** ** Lemmas: decoding *)

Lemma at_bound buf i : bytes_ok buf -> 0 <= at_ buf i < 256.
Proof.
  intros Hb. unfold at_, index. destruct (0 <=? i); simpl; [|lia].
  destruct (buf !! Z.to_nat i) eqn:Hi; simpl; [|lia].
  by apply (Forall_lookup_1 _ _ _ _ Hb Hi).
Qed.

Lemma field_bound buf off n :
  bytes_ok buf -> 0 <= off -> 0 <= n -> off + n <= zlen buf -> 0 <= field buf off n < 256 ^ n.
Proof.
  intros Hb Ho Hn Hl. unfold field.
  pose proof (from_le_bytes_bound (sub buf off n) (Forall_sub _ _ _ _ Hb)) as Hf.
  by rewrite length_sub in Hf.
Qed.

(** The eight powers of two among the bytes. *)
Lemma is_power_of_two_In x : u8 x -> is_power_of_two x = true -> In x [1; 2; 4; 8; 16; 32; 64; 128].
Proof.
  intros Hx Hp. pose proof (u8_forall (fun x => negb (is_power_of_two x) || existsb (Z.eqb x) [1; 2; 4; 8; 16; 32; 64; 128])) as He.
  specialize (He ltac:(vm_compute; reflexivity) x Hx). cbv beta in He. rewrite Hp in He. cbn [negb orb] in He.
  apply existsb_exists in He as (y & Hin & ->%Z.eqb_eq). done.
Qed.

Lemma validate_Ok bs bs' :
  validate bs = Ok bs' -> bs' = bs /\
  (In (bpb_byts_per_sec bs) [512; 1024; 2048; 4096] /\ is_power_of_two (bpb_sec_per_clus bs) = true /\
   bpb_rsvd_sec_cnt bs <> 0 /\ bpb_root_ent_cnt bs = 0 /\ bpb_tot_sec_16 bs = 0 /\ bpb_fat_sz_16 bs = 0) /\
  jmp_boot_ok (jmp_boot bs) = true /\ bpb_fs_ver bs = 0 /\ bpb_fs_info bs = 1 /\ boot_sig bs = 0x29.
Proof.
  unfold validate. destruct (jmp_boot_ok _); cbn [negb]; [|done].
  destruct (existsb (Z.eqb (bpb_byts_per_sec bs)) [512; 1024; 2048; 4096]) eqn:Hss; cbn [negb]; [|done].
  destruct (is_power_of_two _); cbn [negb]; [|done].
  repeat (case_cmp; simpl; [try done|try done]). intros [= <-].
  apply existsb_exists in Hss as (x & Hin & Hx). apply Z.eqb_eq in Hx. by subst x.
Qed.

Lemma try_from_decode buf bs : try_from buf = Ok bs ->
  512 <= zlen buf /\ sub buf 510 2 = [0x55; 0xaa] /\ validate (decode buf) = Ok bs.
Proof.
  unfold try_from. destruct (Z.ltb_spec (zlen buf) 512); cbn [orb]; [done|]. case_bool_decide; [|done]. done.
Qed.

Lemma try_from_valid buf bs :
  bytes_ok buf -> try_from buf = Ok bs -> bs = decode buf /\ valid bs.
Proof.
  intros Hb (Hlen & _ & (-> & (Hss & Hsc & Hrs & Hre & Ht16 & Hf16) & _)%validate_Ok)%try_from_decode.
  pose proof (at_bound buf 13 Hb). pose proof (at_bound buf 16 Hb).
  split; [done|]. split; try done; unfold unsigned; cbn -[field at_ Z.le Z.lt Z.pow] in *.
  - apply is_power_of_two_In in Hsc; [|unfold unsigned; lia]. cbn [In] in Hsc. lia.
  - pose proof (field_bound buf 14 2 Hb ltac:(lia) ltac:(lia) ltac:(lia)). lia.
  - pose proof (field_bound buf 32 4 Hb ltac:(lia) ltac:(lia) ltac:(lia)). lia.
  - pose proof (field_bound buf 36 4 Hb ltac:(lia) ltac:(lia) ltac:(lia)). lia.
  - pose proof (field_bound buf 44 4 Hb ltac:(lia) ltac:(lia) ltac:(lia)). lia.
Qed.

Lemma field_bytes buf off n v :
  bytes_ok buf -> 0 <= off -> off + Z.of_nat n <= zlen buf -> field buf off (Z.of_nat n) = v -> sub buf off (Z.of_nat n) = to_le_bytes n v.
Proof.
  intros Hb Ho Hl <-. unfold field. pose proof (length_sub buf off (Z.of_nat n) ltac:(lia) ltac:(lia) ltac:(lia)) as Hn.
  rewrite <- (to_from_le_bytes (sub buf off (Z.of_nat n))) at 1 by (by apply Forall_sub). f_equal. lia.
Qed.

Lemma jump_bytes buf : 3 <= zlen buf -> jmp_boot_ok (sub buf 0 3) = true -> at_ buf 0 = 0xeb /\ at_ buf 2 = 0x90 \/ at_ buf 0 = 0xe9.
Proof.
  destruct buf as [|x [|y [|z buf]]]; cbn [length]; try lia. intros _. change (sub _ 0 3) with [x; y; z]. cbn [jmp_boot_ok].
  change (at_ _ 0) with x. change (at_ _ 2) with z. lia.
Qed.

Lemma try_from_marks buf bs : bytes_ok buf -> try_from buf = Ok bs -> fat32_marks buf.
Proof.
  intros Hb (Hlen & Hsig & (-> & (_ & Hsc & _) & Hj & Hv & Hi & Hs)%validate_Ok)%try_from_decode.
  cbn -[field at_] in *. split; [done|]. split; [apply jump_bytes; [lia|done]|].
  split; [apply is_power_of_two_In; [pose proof (at_bound buf 13 Hb); unfold unsigned; lia|done]|].
  split; [by apply (field_bytes buf 42 2 0); [| |lia|]|]. split; [by apply (field_bytes buf 48 2 1); [| |lia|]|]. done.
Qed.

(** ** Lemmas: the layout *)

Section layout_lemmas.
Context {bs : BootSector} (Hv : valid bs).

Lemma valid_sector_size : 512 <= bpb_byts_per_sec bs <= 4096 /\ bpb_byts_per_sec bs mod 4 = 0.
Proof. pose proof (v_sector_size _ Hv) as Hs. simpl in Hs. destruct Hs as [<-|[<-|[<-|[<-|[]]]]]; done. Qed.

Lemma data_start_bound : 1 <= data_start bs < 2 ^ 41.
Proof.
  pose proof (v_fat_32 _ Hv). pose proof (v_num_fats _ Hv). pose proof (v_rsvd _ Hv).
  unfold data_start, unsigned in *. nia.
Qed.

Lemma data_area_start_valid : data_area_start bs = Some (data_start bs).
Proof.
  pose proof data_start_bound as Hd. pose proof (v_fat_32 _ Hv). pose proof (v_num_fats _ Hv).
  pose proof (v_rsvd _ Hv). unfold data_start, unsigned in *.
  unfold data_area_start, root_dir_area_start, root_dir_area_size, fat_area_size, fat_size,
    fat_area_start, mul_checked, add_checked.
  rewrite (v_fat_16 _ Hv), (v_root_ent _ Hv). simpl. rewrite checked_Some by (unfold unsigned; nia). simpl.
  rewrite checked_Some by (unfold unsigned; nia). simpl. rewrite Z.add_0_r.
  apply checked_Some. unfold unsigned. lia.
Qed.

Lemma cluster_count_valid :
  data_start bs <= bpb_tot_sec_32 bs -> cluster_count bs = Some (clusters bs) /\ 0 <= clusters bs < 2 ^ 32.
Proof.
  intros Hd. pose proof data_start_bound as Hb.
  unfold cluster_count, data_area_size, total_sector_count. rewrite data_area_start_valid.
  pose proof (v_tot_32 _ Hv) as Ht. pose proof (v_sec_per_clus _ Hv).
  rewrite (v_tot_16 _ Hv). unfold unsigned in *. simpl. unfold sub_checked.
  rewrite checked_Some by (unfold unsigned; lia). simpl. unfold cluster_size.
  destruct (Z.eqb_spec (bpb_sec_per_clus bs) 0); [lia|]. split; [done|]. unfold clusters. split.
  - apply Z.div_pos; lia.
  - apply Z.div_lt_upper_bound; nia.
Qed.

(** Without enough sectors for the reserved and FAT areas every use of the
    cluster count panics. *)
Lemma cluster_count_underflow : bpb_tot_sec_32 bs < data_start bs -> cluster_count bs = None.
Proof.
  intros Hd. unfold cluster_count, data_area_size, total_sector_count. rewrite data_area_start_valid.
  rewrite (v_tot_16 _ Hv). simpl. unfold sub_checked. rewrite checked_None; [done|].
  unfold unsigned. lia.
Qed.

End layout_lemmas.

Section geometry_lemmas.
Context {bs : BootSector} {n : Z} (Hg : geometry bs n).
Let Hv : valid bs := g_valid _ _ Hg.

Lemma is_cluster_available_spec c : is_cluster_available bs c = Some (bool_decide (available bs c)).
Proof.
  destruct (cluster_count_valid Hv (g_data _ _ Hg)) as [Hc Hb].
  unfold is_cluster_available. rewrite Hc. simpl. unfold add_checked.
  rewrite checked_Some by (unfold unsigned; lia). simpl. unfold available.
  case_cmp; case_bool_decide; try lia; try done; f_equal; lia.
Qed.

Lemma assert_available_spec c : available bs c -> assert_available bs c = Some tt.
Proof.
  intros Ha. unfold assert_available. rewrite is_cluster_available_spec. simpl.
  by rewrite bool_decide_true.
Qed.

Lemma assert_unavailable c : ~ available bs c -> assert_available bs c = None.
Proof.
  intros Ha. unfold assert_available. rewrite is_cluster_available_spec. simpl.
  by rewrite bool_decide_false.
Qed.

Lemma available_bound c : available bs c -> 2 <= c < 2 ^ 33.
Proof.
  destruct (cluster_count_valid Hv (g_data _ _ Hg)) as [_ Hb]. unfold available. lia.
Qed.

Lemma fat_entry_location_spec c :
  available bs c -> fat_entry_location bs c = Some (fat_sector bs c, fat_offset bs c).
Proof.
  intros Ha. pose proof (available_bound c Ha) as Hc. pose proof (valid_sector_size Hv) as [Hs _].
  pose proof (v_rsvd _ Hv) as Hr. unfold fat_entry_location. rewrite assert_available_spec by done. simpl.
  unfold mul_checked. rewrite checked_Some by (unfold unsigned; lia). simpl.
  unfold add_checked, fat_area_start, sector_size. rewrite checked_Some; [done|].
  assert (0 <= c * 4 / bpb_byts_per_sec bs < 2 ^ 40).
  { split; [apply Z.div_pos; lia|]. apply Z.div_lt_upper_bound; nia. }
  unfold unsigned. lia.
Qed.

(** A FAT entry is inside one sector of the first FAT. *)
Lemma fat_entry_inside c :
  available bs c ->
  bpb_rsvd_sec_cnt bs <= fat_sector bs c < bpb_rsvd_sec_cnt bs + bpb_fat_sz_32 bs /\
  0 <= fat_offset bs c /\ fat_offset bs c + 4 <= bpb_byts_per_sec bs.
Proof.
  intros Ha. pose proof (g_fat _ _ Hg) as Hf. pose proof (valid_sector_size Hv) as [Hs H4].
  unfold available in Ha. unfold fat_sector, fat_offset.
  assert (0 <= c * 4 / bpb_byts_per_sec bs < bpb_fat_sz_32 bs).
  { split; [apply Z.div_pos; lia|]. apply Z.div_lt_upper_bound; nia. }
  pose proof (Z.mod_pos_bound (c * 4) (bpb_byts_per_sec bs) ltac:(lia)).
  split; [lia|]. split; [lia|].
  assert (((c * 4) mod bpb_byts_per_sec bs) mod 4 = 0).
  { pose proof (Z.div_mod (bpb_byts_per_sec bs) 4 ltac:(lia)) as Hd. rewrite H4 in Hd.
    rewrite Z.mod_mod_divide by (exists (bpb_byts_per_sec bs / 4); lia).
    apply Z.mod_mul. lia. }
  pose proof (Z.div_mod (bpb_byts_per_sec bs) 4 ltac:(lia)).
  pose proof (Z.div_mod ((c * 4) mod bpb_byts_per_sec bs) 4 ltac:(lia)). lia.
Qed.

(** Distinct clusters have FAT entries that do not overlap. *)
Lemma fat_entry_disjoint c c' :
  c <> c' -> fat_sector bs c = fat_sector bs c' ->
  fat_offset bs c + 4 <= fat_offset bs c' \/ fat_offset bs c' + 4 <= fat_offset bs c.
Proof.
  unfold fat_sector, fat_offset. pose proof (valid_sector_size Hv) as [Hs _]. intros Hne He.
  pose proof (Z.div_mod (c * 4) (bpb_byts_per_sec bs) ltac:(lia)).
  pose proof (Z.div_mod (c' * 4) (bpb_byts_per_sec bs) ltac:(lia)).
  assert (Hq : c * 4 / bpb_byts_per_sec bs = c' * 4 / bpb_byts_per_sec bs) by lia. rewrite Hq in *. lia.
Qed.

Lemma cluster_location_spec c :
  available bs c -> cluster_location bs c = Some (first_sector bs c).
Proof.
  intros Ha. pose proof (available_bound c Ha) as Hc. pose proof (v_sec_per_clus _ Hv) as Hs.
  pose proof (data_start_bound Hv) as Hd.
  unfold cluster_location. rewrite assert_available_spec by done. simpl.
  rewrite data_area_start_valid by done. simpl. unfold sub_checked, mul_checked, add_checked, cluster_size.
  rewrite checked_Some by (unfold unsigned; lia). simpl.
  assert (0 <= (c - 2) * bpb_sec_per_clus bs < 2 ^ 40) by nia.
  rewrite checked_Some by (unfold unsigned; lia). simpl.
  apply checked_Some. unfold unsigned, first_sector. lia.
Qed.

(** The sectors of a cluster are inside the data area. *)
Lemma cluster_inside c i :
  available bs c -> 0 <= i < bpb_sec_per_clus bs ->
  data_start bs <= first_sector bs c + i < n.
Proof.
  intros Ha Hi. pose proof (g_data _ _ Hg). pose proof (g_total _ _ Hg). unfold available, clusters in Ha.
  unfold first_sector.
  pose proof (Z.mul_div_le (bpb_tot_sec_32 bs - data_start bs) (bpb_sec_per_clus bs) ltac:(lia)). nia.
Qed.

Lemma cluster_disjoint c c' i i' :
  0 <= i < bpb_sec_per_clus bs -> 0 <= i' < bpb_sec_per_clus bs ->
  first_sector bs c + i = first_sector bs c' + i' -> c = c' /\ i = i'.
Proof. unfold first_sector. intros Hi Hi' He. assert (c = c') by nia. subst. lia. Qed.

(** The FAT and the data area do not overlap. *)
Lemma fat_before_data c : available bs c -> 0 <= fat_sector bs c < data_start bs /\ fat_sector bs c < n.
Proof.
  intros Ha. destruct (fat_entry_inside c Ha) as [Hf _]. pose proof (v_rsvd _ Hv).
  pose proof (g_num_fats _ _ Hg). pose proof (g_data _ _ Hg). pose proof (g_total _ _ Hg).
  pose proof (v_fat_32 _ Hv) as Hz. unfold unsigned in Hz. unfold data_start in *. nia.
Qed.

End geometry_lemmas.

Lemma fits_geometry bs n : valid bs -> fits bs n -> geometry bs n.
Proof. intros Hv (? & [? ?] & ? & ?). by split. Qed.


(** [try_from] accepts a boot sector whose
    reserved and FAT areas exceed the total sector count; the cluster count then
    underflows, so the first use of any cluster panics. *)
Theorem accepted_boot_sector_panics :
  exists bs, try_from (demo_boot 4 5) = Ok bs /\ total_sector_count bs = Some 5 /\
    cluster_count bs = None /\ cluster_location bs (root_dir_cluster bs) = None.
Proof. eexists. split; [vm_compute; reflexivity|]. vm_compute. done. Qed.

(** ** Witnesses *)

Definition demo_bs : BootSector := decode (demo_boot 1 64).

Lemma demo_boot_bytes : bytes_ok (demo_boot 1 64).
Proof. apply Forall_unsignedb. vm_compute. reflexivity. Qed.

Lemma demo_bs_geometry : geometry demo_bs 64.
Proof. apply fits_geometry; [apply (try_from_valid (demo_boot 1 64)); [exact demo_boot_bytes|by vm_compute]|vm_compute; done]. Qed.

