(* ===== verification/FatEntry.v ===== *)
(** * FAT entries (src/ors-kernel/src/fs/fat/fat_entry.rs)

    The 32-bit entries of the file allocation table, decoded and encoded. *)

From S2P Require Import Prelude.
Local Open Scope Z_scope.

Inductive FatEntry :=
| Unused
| Reserved
| UsedChained (c : Z)
| UsedEoc
| Bad.

#[export] Instance FatEntry_eq_dec : EqDecision FatEntry.
Proof. solve_decision. Defined.

Definition chain (e : FatEntry) : option Z :=
  match e with UsedChained c => Some c | _ => None end.

(** [From<u32>]; the last arm of the source is unreachable after the mask. *)
Definition from_u32 (value : Z) : FatEntry :=
  let n := Z.land value 0x0fffffff in
  if n =? 0 then Unused
  else if n =? 1 then Reserved
  else if n <=? 0x0ffffff6 then UsedChained n
  else if n =? 0x0ffffff7 then Bad
  else UsedEoc.

(** [Into<u32>]; [as u32] truncates a cluster number. *)
Definition into_u32 (e : FatEntry) : Z :=
  match e with
  | Unused => 0
  | Reserved => 1
  | UsedChained c => wrap 32 c
  | UsedEoc => 0x0fffffff
  | Bad => 0x0ffffff7
  end.

(** The entries that have an encoding of their own: cluster numbers a 28-bit
    entry can hold. *)
Definition encodable (e : FatEntry) : Prop :=
  match e with UsedChained c => 2 <= c <= 0x0ffffff6 | _ => True end.

(** ** Lemmas *)

Lemma land_28 v : Z.land v 0x0fffffff = v mod 2 ^ 28.
Proof. change 0x0fffffff with (Z.ones 28). by apply Z.land_ones. Qed.

Lemma into_u32_bound e : encodable e -> 0 <= into_u32 e < 2 ^ 28.
Proof.
  destruct e; simpl; try lia. intros Hc. unfold wrap. rewrite Z.mod_small; lia.
Qed.

Lemma from_into_u32 e : encodable e -> from_u32 (into_u32 e) = e.
Proof.
  intros He. unfold from_u32. rewrite land_28, Z.mod_small by (by apply into_u32_bound).
  destruct e as [| |c| |]; simpl in *; try done. unfold wrap. rewrite Z.mod_small by lia.
  repeat (case_cmp; try lia). done.
Qed.

Lemma from_u32_encodable v : encodable (from_u32 v).
Proof.
  unfold from_u32. rewrite land_28. pose proof (Z.mod_pos_bound v (2 ^ 28)).
  repeat (case_cmp; try done). simpl. lia.
Qed.

(** Decoding looks at 28 bits only, and re-encoding clears the other four. *)
Lemma into_from_u32 v :
  into_u32 (from_u32 v) = if 0x0ffffff8 <=? v mod 2 ^ 28 then 0x0fffffff else v mod 2 ^ 28.
Proof.
  unfold from_u32. rewrite land_28. pose proof (Z.mod_pos_bound v (2 ^ 28)).
  repeat (case_cmp; try lia); try done. simpl. unfold wrap. rewrite Z.mod_small; lia.
Qed.

#[export] Hint Resolve from_u32_encodable from_into_u32 into_u32_bound : rust.

(** Every entry with an encoding of its own survives
    being written and read; every 32-bit word decodes to such an entry; and
    writing a decoded word back keeps its 28 significant bits, up to the choice of
    the end-of-chain mark, but clears the four reserved bits. *)
Theorem fat_entry_codec :
  (forall e, encodable e -> from_u32 (into_u32 e) = e) /\
  (forall v, encodable (from_u32 v)) /\
  (forall v, u32 v -> from_u32 (into_u32 (from_u32 v)) = from_u32 v /\
     into_u32 (from_u32 v) < 2 ^ 28).
Proof.
  split_and!; [apply from_into_u32|apply from_u32_encodable|].
  intros v _. split; [auto with rust|]. apply into_u32_bound, from_u32_encodable.
Qed.
