(* ===== verification/DirEntry.v ===== *)
(** * Directory entries and long file names
      (src/ors-kernel/src/fs/fat/dir_entry.rs)

    A [&str] is the list of its characters (Unicode scalar values); [str::len]
    counts the bytes of its UTF-8 encoding. The 32-byte entries are decoded and
    encoded by [from_bytes] and [into_bytes]; [lfn_sequence] makes the entries of a
    name, and [reader_read] is one step of the state machine that reads them
    back. *)

From stdpp Require Import strings.
From S2P Require Import Prelude.
Local Open Scope Z_scope.

(** ** Characters and strings *)

(** [char::len_utf8], summed: the length of a [&str]. *)
Definition len_utf8 (c : Z) : Z :=
  if c <? 0x80 then 1 else if c <? 0x800 then 2 else if c <? 0x10000 then 3 else 4.
Definition str_len (s : list Z) : Z := foldr (fun c n => len_utf8 c + n) 0 s.

(** [str::encode_utf16] *)
Definition encode_utf16 (s : list Z) : list Z :=
  c ← s; if c <? 0x10000 then [c]
         else [0xd800 + (c - 0x10000) / 0x400; 0xdc00 + (c - 0x10000) mod 0x400].

(** [String::from_utf16_lossy]: an unpaired surrogate becomes U+FFFD. *)
Fixpoint from_utf16_lossy (l : list Z) : list Z :=
  match l with
  | [] => []
  | u :: t =>
      if (u <? 0xd800) || (0xdfff <? u) then u :: from_utf16_lossy t
      else if 0xdc00 <=? u then 0xfffd :: from_utf16_lossy t
      else match t with
           | v :: t' =>
               if (0xdc00 <=? v) && (v <=? 0xdfff)
               then (0x10000 + (u - 0xd800) * 0x400 + (v - 0xdc00)) :: from_utf16_lossy t'
               else 0xfffd :: from_utf16_lossy t
           | [] => [0xfffd]
           end
  end.

Definition is_ascii_lowercase (c : Z) : bool := (97 <=? c) && (c <=? 122).
Definition is_ascii_uppercase (c : Z) : bool := (65 <=? c) && (c <=? 90).
Definition to_ascii_uppercase (c : Z) : Z := if is_ascii_lowercase c then c - 32 else c.

(** The text before and after the first ['.']. *)
Fixpoint split_dot (s : list Z) : option (list Z * list Z) :=
  match s with
  | [] => None
  | c :: t => if c =? 46 then Some ([], t)
              else '(base, ext) ← split_dot t; Some (c :: base, ext)
  end.

(** ** Entries *)

Definition SIZE : Z := 32.
Definition READ_ONLY : Z := 0x01.
Definition HIDDEN : Z := 0x02.
Definition SYSTEM : Z := 0x04.
Definition VOLUME_ID : Z := 0x08.
Definition DIRECTORY : Z := 0x10.
Definition ARCHIVE : Z := 0x20.
Definition LONG_FILE_NAME : Z := 0x0f.
Definition LONG_FILE_NAME_MASK : Z := 0x3f.
Definition BASE_LOWER : Z := 0x08.
Definition EXT_LOWER : Z := 0x10.
Definition LAST_LONG_ENTRY : Z := 0x40.

Record SfnEntry := {
  name : list Z;
  attr : Z;
  nt_res : Z;
  crt_time_tenth : Z;
  crt_time : Z;
  crt_date : Z;
  lst_acc_date : Z;
  fst_clus_hi : Z;
  wrt_time : Z;
  wrt_date : Z;
  fst_clus_lo : Z;
  file_size : Z
}.

Record LfnEntry := {
  ord : Z;
  name1 : list Z;
  lattr : Z;
  ty : Z;
  chksum : Z;
  name2 : list Z;
  lfst_clus_lo : Z;
  name3 : list Z
}.

Inductive DirEntry :=
| UnusedTerminal
| Unused
| Lfn (e : LfnEntry)
| Sfn (e : SfnEntry).

#[export] Instance SfnEntry_eq_dec : EqDecision SfnEntry.
Proof. solve_decision. Defined.
#[export] Instance LfnEntry_eq_dec : EqDecision LfnEntry.
Proof. solve_decision. Defined.
#[export] Instance DirEntry_eq_dec : EqDecision DirEntry.
Proof. solve_decision. Defined.

(** *** Short entries *)

Definition sfn_new : SfnEntry := {|
  name := replicate 11 32; attr := 0; nt_res := 0; crt_time_tenth := 0; crt_time := 0;
  crt_date := 0; lst_acc_date := 0; fst_clus_hi := 0; wrt_time := 0; wrt_date := 0;
  fst_clus_lo := 0; file_size := 0
|}.

Definition with_name (n : list Z) (e : SfnEntry) : SfnEntry :=
  {| name := n; attr := attr e; nt_res := nt_res e; crt_time_tenth := crt_time_tenth e;
     crt_time := crt_time e; crt_date := crt_date e; lst_acc_date := lst_acc_date e;
     fst_clus_hi := fst_clus_hi e; wrt_time := wrt_time e; wrt_date := wrt_date e;
     fst_clus_lo := fst_clus_lo e; file_size := file_size e |}.
Definition with_attr (a : Z) (e : SfnEntry) : SfnEntry :=
  {| name := name e; attr := a; nt_res := nt_res e; crt_time_tenth := crt_time_tenth e;
     crt_time := crt_time e; crt_date := crt_date e; lst_acc_date := lst_acc_date e;
     fst_clus_hi := fst_clus_hi e; wrt_time := wrt_time e; wrt_date := wrt_date e;
     fst_clus_lo := fst_clus_lo e; file_size := file_size e |}.
Definition with_nt_res (r : Z) (e : SfnEntry) : SfnEntry :=
  {| name := name e; attr := attr e; nt_res := r; crt_time_tenth := crt_time_tenth e;
     crt_time := crt_time e; crt_date := crt_date e; lst_acc_date := lst_acc_date e;
     fst_clus_hi := fst_clus_hi e; wrt_time := wrt_time e; wrt_date := wrt_date e;
     fst_clus_lo := fst_clus_lo e; file_size := file_size e |}.
Definition with_cluster (lo hi : Z) (e : SfnEntry) : SfnEntry :=
  {| name := name e; attr := attr e; nt_res := nt_res e; crt_time_tenth := crt_time_tenth e;
     crt_time := crt_time e; crt_date := crt_date e; lst_acc_date := lst_acc_date e;
     fst_clus_hi := hi; wrt_time := wrt_time e; wrt_date := wrt_date e;
     fst_clus_lo := lo; file_size := file_size e |}.
Definition with_file_size (n : Z) (e : SfnEntry) : SfnEntry :=
  {| name := name e; attr := attr e; nt_res := nt_res e; crt_time_tenth := crt_time_tenth e;
     crt_time := crt_time e; crt_date := crt_date e; lst_acc_date := lst_acc_date e;
     fst_clus_hi := fst_clus_hi e; wrt_time := wrt_time e; wrt_date := wrt_date e;
     fst_clus_lo := fst_clus_lo e; file_size := n |}.

(** [attr & bit == bit] and [x &= !bit] on bytes. *)
Definition has_bits (x bits : Z) : bool := Z.land x bits =? bits.
Definition clear_bits (x bits : Z) : Z := Z.land x (Z.lxor bits 0xff).

Definition is_read_only (e : SfnEntry) : bool := has_bits (attr e) READ_ONLY.
Definition is_hidden (e : SfnEntry) : bool := has_bits (attr e) HIDDEN.
Definition is_system (e : SfnEntry) : bool := has_bits (attr e) SYSTEM.
Definition is_volume_id (e : SfnEntry) : bool := has_bits (attr e) VOLUME_ID.
Definition is_directory (e : SfnEntry) : bool := has_bits (attr e) DIRECTORY.
Definition archive (e : SfnEntry) : bool := has_bits (attr e) ARCHIVE.

Definition set_is_directory (b : bool) (e : SfnEntry) : SfnEntry :=
  with_attr (if b then Z.lor (attr e) DIRECTORY else clear_bits (attr e) DIRECTORY) e.
Definition mark_archive (e : SfnEntry) : SfnEntry := with_attr (Z.lor (attr e) ARCHIVE) e.

Definition cluster (e : SfnEntry) : option Z :=
  let index := Z.lor (fst_clus_lo e) (Z.shiftl (fst_clus_hi e) 16) in
  if index =? 0 then None else Some index.

Definition set_cluster (c : option Z) (e : SfnEntry) : SfnEntry :=
  match c with
  | Some c => with_cluster (wrap 16 c) (wrap 16 (Z.shiftr c 16)) e
  | None => with_cluster 0 0 e
  end.

(** [None] is the failed [assert!]. *)
Definition set_file_size (size : Z) (e : SfnEntry) : option SfnEntry :=
  if size <=? 2 ^ 32 - 1 then Some (with_file_size (wrap 32 size) e) else None.

Definition current (c : option Z) : SfnEntry :=
  set_cluster c (set_is_directory true (with_name (46 :: replicate 10 32) sfn_new)).
Definition parent (c : option Z) : SfnEntry :=
  set_cluster c (set_is_directory true (with_name (46 :: 46 :: replicate 9 32) sfn_new)).

Definition sfn_checksum (e : SfnEntry) : Z :=
  foldl (fun sum c => wrap 8 (wrap 8 (Z.shiftr sum 1 + wrap 8 (Z.shiftl sum 7)) + c)) 0 (name e).

Definition is_sfn_compatible_char (c : Z) : bool :=
  ((48 <=? c) && (c <=? 57)) || is_ascii_uppercase c || is_ascii_lowercase c
  || existsb (Z.eqb c) [33; 35; 36; 37; 38; 39; 40; 41; 45; 64; 94; 95; 96; 123; 125; 126].

(** The closure [put] of [SfnEntry::name]: the characters and whether one of
    them was replaced. *)
Fixpoint put (is_lower : bool) (seq : list Z) : bool * list Z :=
  match seq with
  | [] => (false, [])
  | c :: t =>
      if c =? 32 then (false, [])
      else
        let '(i, s) := put is_lower t in
        if (65 <=? c) && (c <=? 90) && is_lower then (i, (c + 32) :: s)
        else if (33 <=? c) && (c <=? 126) then (i, c :: s)
        else (true, 0xfffd :: s)
  end.

Definition sfn_name (e : SfnEntry) : bool * list Z :=
  let '(i1, s1) := put (has_bits (nt_res e) BASE_LOWER) (sub (name e) 0 8) in
  let '(i2, s2) := if negb (at_ (name e) 8 =? 32) then put false [46] else (false, []) in
  let '(i3, s3) := put (has_bits (nt_res e) EXT_LOWER) (sub (name e) 8 3) in
  (i1 || i2 || i3, s1 ++ s2 ++ s3).

(** The base and the extension of a name whose lengths fit a short name. *)
Definition split_name (n : list Z) : option (list Z * list Z) :=
  match split_dot n with
  | Some (base, ext) =>
      if negb ((1 <=? str_len base) && (str_len base <=? 8))
         || negb ((1 <=? str_len ext) && (str_len ext <=? 3))
      then None else Some (base, ext)
  | None => if negb ((1 <=? str_len n) && (str_len n <=? 8)) then None else Some (n, [])
  end.

(** The two loops that write the upper-case characters and the padding. *)
Definition padded (w : nat) (s : list Z) : list Z :=
  (to_ascii_uppercase <$> s) ++ replicate (w - length s) 32.

Definition set_name (n : list Z) (e : SfnEntry) : bool * SfnEntry :=
  match split_name n with
  | None => (false, e)
  | Some (base, ext) =>
      let base_contains_lower := existsb is_ascii_lowercase base in
      let base_contains_upper := existsb is_ascii_uppercase base in
      let ext_contains_lower := existsb is_ascii_lowercase ext in
      let ext_contains_upper := existsb is_ascii_uppercase ext in
      if negb (forallb is_sfn_compatible_char base) || negb (forallb is_sfn_compatible_char ext)
         || (base_contains_lower && base_contains_upper)
         || (ext_contains_lower && ext_contains_upper)
      then (false, e)
      else
        let e := with_name (padded 8 base ++ padded 3 ext) e in
        let e := with_nt_res (if base_contains_lower then Z.lor (nt_res e) BASE_LOWER
                              else clear_bits (nt_res e) BASE_LOWER) e in
        let e := with_nt_res (if ext_contains_lower then Z.lor (nt_res e) EXT_LOWER
                              else clear_bits (nt_res e) EXT_LOWER) e in
        (true, e)
  end.

Definition set_or_generate_name (n : list Z) (e : SfnEntry) : bool * SfnEntry :=
  let '(is_sfn_compatible, e) := set_name n e in
  if is_sfn_compatible then (true, e)
  else
    let cs := to_ascii_uppercase <$> filter (fun c => is_sfn_compatible_char c = true) n in
    (false, with_name (take 11 (cs ++ replicate 11 32)) e).

(** *** Long entries *)

(** [None] is the failed [assert!]. *)
Definition lfn_new (order : Z) (last : bool) (sum : Z) : option LfnEntry :=
  if (1 <=? order) && (order <=? 20) then
    Some {| ord := Z.lor order (if last then LAST_LONG_ENTRY else 0); name1 := replicate 10 0;
            lattr := LONG_FILE_NAME; ty := 0; chksum := sum; name2 := replicate 12 0;
            lfst_clus_lo := 0; name3 := replicate 4 0 |}
  else None.

(** One turn of the loop of [write_name_parts]. *)
Definition write_name_part (e : LfnEntry) (iu : Z * Z) : LfnEntry :=
  let '(i, u) := iu in
  let bytes := to_le_bytes 2 u in
  {| ord := ord e; lattr := lattr e; ty := ty e; chksum := chksum e; lfst_clus_lo := lfst_clus_lo e;
     name1 := if i <=? 4 then upd (name1 e) (i * 2) bytes else name1 e;
     name2 := if (5 <=? i) && (i <=? 10) then upd (name2 e) ((i - 5) * 2) bytes else name2 e;
     name3 := if 11 <=? i then upd (name3 e) ((i - 11) * 2) bytes else name3 e |}.

Definition write_name_parts (buf : list Z) (e : LfnEntry) : LfnEntry :=
  foldl write_name_part e (zip (seqZ 0 13) buf).

Definition read_name_part (e : LfnEntry) (i : Z) : Z :=
  from_le_bytes (if i <=? 4 then sub (name1 e) (i * 2) 2
                 else if i <=? 10 then sub (name2 e) ((i - 5) * 2) 2
                 else sub (name3 e) ((i - 11) * 2) 2).

Definition read_name_parts (e : LfnEntry) : list Z := read_name_part e <$> seqZ 0 13.

Definition order (e : LfnEntry) : Z := clear_bits (ord e) LAST_LONG_ENTRY.

Definition is_last_entry (e : LfnEntry) : bool :=
  has_bits (ord e) LAST_LONG_ENTRY && ((1 <=? order e) && (order e <=? 20)).

Definition is_lfn_compatible_char (c : Z) : bool :=
  negb (existsb (Z.eqb c) [92; 47; 58; 42; 63; 34; 60; 62; 124]).

(** *** 32-byte encodings *)

Definition sfn_try_from (buf : list Z) : outcome string SfnEntry :=
  let e := {| name := sub buf 0 11; attr := at_ buf 11; nt_res := at_ buf 12;
              crt_time_tenth := at_ buf 13; crt_time := from_le_bytes (sub buf 14 2);
              crt_date := from_le_bytes (sub buf 16 2); lst_acc_date := from_le_bytes (sub buf 18 2);
              fst_clus_hi := from_le_bytes (sub buf 20 2); wrt_time := from_le_bytes (sub buf 22 2);
              wrt_date := from_le_bytes (sub buf 24 2); fst_clus_lo := from_le_bytes (sub buf 26 2);
              file_size := from_le_bytes (sub buf 28 4) |} in
  if Z.land (attr e) LONG_FILE_NAME_MASK =? LONG_FILE_NAME then Err "LFN"%string else Ok e.

Definition lfn_try_from (buf : list Z) : outcome string LfnEntry :=
  let e := {| ord := at_ buf 0; name1 := sub buf 1 10; lattr := at_ buf 11; ty := at_ buf 12;
              chksum := at_ buf 13; name2 := sub buf 14 12;
              lfst_clus_lo := from_le_bytes (sub buf 26 2); name3 := sub buf 28 4 |} in
  if negb (Z.land (lattr e) LONG_FILE_NAME_MASK =? LONG_FILE_NAME) then Err "SFN"%string else Ok e.

(** A buffer of zeros in which the fields are stored one after the other. *)
Definition store (fields : list (Z * list Z)) : list Z :=
  foldl (fun buf '(off, l) => upd buf off l) (replicate 32 0) fields.

Definition sfn_into (e : SfnEntry) : list Z := store
  [(0, name e); (11, [attr e]); (12, [nt_res e]); (13, [crt_time_tenth e]);
   (14, to_le_bytes 2 (crt_time e)); (16, to_le_bytes 2 (crt_date e));
   (18, to_le_bytes 2 (lst_acc_date e)); (20, to_le_bytes 2 (fst_clus_hi e));
   (22, to_le_bytes 2 (wrt_time e)); (24, to_le_bytes 2 (wrt_date e));
   (26, to_le_bytes 2 (fst_clus_lo e)); (28, to_le_bytes 4 (file_size e))].

Definition lfn_into (e : LfnEntry) : list Z := store
  [(0, [ord e]); (1, name1 e); (11, [lattr e]); (12, [ty e]); (13, [chksum e]);
   (14, name2 e); (28, name3 e)].

(** [From<[u8; 32]>]; [None] is a failed [expect]. *)
Definition from_bytes (buf : list Z) : option DirEntry :=
  let status := at_ buf 0 in
  let a := at_ buf 11 in
  if status =? 0xe5 then Some Unused
  else if status =? 0x00 then Some UnusedTerminal
  else if Z.land a LONG_FILE_NAME_MASK =? LONG_FILE_NAME then
    match lfn_try_from buf with Ok e => Some (Lfn e) | _ => None end
  else match sfn_try_from buf with Ok e => Some (Sfn e) | _ => None end.

Definition into_bytes (e : DirEntry) : list Z :=
  match e with
  | UnusedTerminal => replicate 32 0
  | Unused => store [(0, [0xe5])]
  | Lfn e => lfn_into e
  | Sfn e => sfn_into e
  end.

(** *** Sequences of entries for a name *)

(** [buf] padded to a multiple of 13 units by 0x0000 and 0xffff. *)
Definition pad_units (buf : list Z) : list Z :=
  let padding := (13 - zlen buf mod 13) mod 13 in
  buf ++ ((fun i => if i =? 0 then 0x0000 else 0xffff) <$> seqZ 0 padding).

(** The turn [i] of the loop that fills [entries]. *)
Definition lfn_entry (buf : list Z) (num_lfn sum i : Z) : option DirEntry :=
  let order := num_lfn - i in
  lfn ← lfn_new order (i =? 0) sum;
  Some (Lfn (write_name_parts (sub buf ((order - 1) * 13) 13) lfn)).

(** The outer option is a panic, the inner one the result of the source. *)
Definition lfn_sequence (n : list Z) (sfn : SfnEntry) : option (option (list DirEntry)) :=
  let '(compatible, sfn) := set_or_generate_name n sfn in
  if compatible then Some (Some [Sfn sfn])
  else if forallb is_lfn_compatible_char n then
    let buf := encode_utf16 n in
    if 255 <? zlen buf then Some None
    else
      let buf := pad_units buf in
      let num_lfn := zlen buf / 13 in
      entries ← mapM (lfn_entry buf num_lfn (sfn_checksum sfn)) (seqZ 0 num_lfn);
      Some (Some (entries ++ [Sfn sfn]))
  else Some None.

(** *** Reading a sequence back *)

Inductive LfnReader :=
| Init
| LfnSequence (checksum order : Z) (buf : list Z).

Inductive ReadLfnResult :=
| Meta (e : DirEntry)
| Complete (n : list Z) (e : SfnEntry)
| Incomplete
| Broken (r : LfnReader) (e : DirEntry).

Definition is_ffff (u : Z) : bool := u =? 0xffff.

(** [while matches!(buf.last(), Some(x)) { buf.pop(); }] *)
Fixpoint drop_while {A} (p : A -> bool) (l : list A) : list A :=
  match l with
  | [] => []
  | x :: t => if p x then drop_while p t else l
  end.
Definition trim_end {A} (p : A -> bool) (l : list A) : list A := reverse (drop_while p (reverse l)).

Definition trim_units (buf : list Z) : list Z :=
  let buf := trim_end is_ffff buf in
  match last buf with
  | Some 0 => take (length buf - 1) buf
  | _ => buf
  end.

(** [LfnReader::read]: the new state of the reader and the result; [None] is a
    panic ([order - 1] underflows, or an index is out of range). *)
Definition reader_read (r : LfnReader) (e : DirEntry) : option (LfnReader * ReadLfnResult) :=
  match r, e with
  | Init, Lfn lfn =>
      if is_last_entry lfn then
        let o := order lfn in
        buf ← splice (replicate (Z.to_nat (o * 13)) 0) ((o - 1) * 13) (read_name_parts lfn);
        Some (LfnSequence (chksum lfn) (o - 1) buf, Incomplete)
      else Some (Init, Broken Init e)
  | Init, Sfn sfn =>
      if negb (is_volume_id sfn) then Some (Init, Complete (snd (sfn_name sfn)) sfn)
      else Some (Init, Meta e)
  | Init, _ => Some (Init, Meta e)
  | LfnSequence sum o buf, Lfn lfn =>
      if (o =? order lfn) && (sum =? chksum lfn) then
        o' ← sub_checked 64 o 1;
        buf ← splice buf (o' * 13) (read_name_parts lfn);
        Some (LfnSequence sum o' buf, Incomplete)
      else Some (Init, Broken r e)
  | LfnSequence sum o buf, Sfn sfn =>
      if (o =? 0) && (sum =? sfn_checksum sfn) then
        Some (Init, Complete (from_utf16_lossy (trim_units buf)) sfn)
      else Some (Init, Broken r e)
  | LfnSequence _ _ _, _ => Some (Init, Broken r e)
  end.

(** The entries of one file read from the start: [None] when they do not
    make up exactly one complete name. *)
Fixpoint read_sequence (r : LfnReader) (l : list DirEntry) : option (list Z * SfnEntry) :=
  match l with
  | [] => None
  | e :: l =>
      match reader_read r e with
      | Some (_, Complete n sfn) => match l with [] => Some (n, sfn) | _ => None end
      | Some (r, Incomplete) => read_sequence r l
      | _ => None
      end
  end.

(** A Unicode scalar value, which is what a [char] is. *)
Definition is_char (c : Z) : Prop := 0 <= c < 0xd800 \/ 0xe000 <= c < 0x110000.

(** The range of the fields of an entry. *)
Record sfn_ok (e : SfnEntry) : Prop := {
  so_name : length (name e) = 11%nat /\ bytes_ok (name e);
  so_attr : u8 (attr e);
  so_nt_res : u8 (nt_res e);
  so_tenth : u8 (crt_time_tenth e);
  so_times : Forall (unsigned 16) [crt_time e; crt_date e; lst_acc_date e; fst_clus_hi e;
                                   wrt_time e; wrt_date e; fst_clus_lo e];
  so_size : u32 (file_size e)
}.

(** ** Lemmas: UTF-16 *)

Lemma utf16_roundtrip s : Forall is_char s -> from_utf16_lossy (encode_utf16 s) = s.
Proof.
  unfold encode_utf16. induction 1 as [|c s Hc Hs IH]; [done|]. rewrite bind_cons.
  destruct (Z.ltb_spec c 0x10000).
  - cbn [app from_utf16_lossy]. rewrite IH. unfold is_char in Hc.
    destruct (Z.ltb_spec c 0xd800); [done|]. destruct (Z.ltb_spec 0xdfff c); [done|lia].
  - unfold is_char in Hc. pose proof (Z.mod_pos_bound (c - 0x10000) 0x400).
    pose proof (Z.div_mod (c - 0x10000) 0x400).
    assert (0 <= (c - 0x10000) / 0x400 < 0x400).
    { split; [apply Z.div_pos; lia|]. apply Z.div_lt_upper_bound; lia. }
    cbn [app from_utf16_lossy]. rewrite IH.
    repeat (case_cmp; simpl; try lia). f_equal. lia.
Qed.

Lemma encode_utf16_u16 s : Forall is_char s -> Forall (unsigned 16) (encode_utf16 s).
Proof.
  unfold encode_utf16. induction 1 as [|c s Hc Hs IH]; [constructor|]. rewrite bind_cons.
  apply Forall_app. split; [|done]. unfold is_char in Hc.
  pose proof (Z.mod_pos_bound (c - 0x10000) 0x400).
  assert (0x10000 <= c -> 0 <= (c - 0x10000) / 0x400 < 0x400).
  { intros. split; [apply Z.div_pos; lia|]. apply Z.div_lt_upper_bound; lia. }
  case_cmp; solve_bounds.
Qed.

Lemma encode_utf16_last s u :
  Forall is_char s -> last (encode_utf16 s) = Some u -> u = 0 \/ u = 0xffff -> last s = Some u.
Proof.
  intros Hs. destruct s as [|c s _] using rev_ind; [done|]. unfold encode_utf16.
  rewrite bind_app, last_snoc. apply Forall_app in Hs as [_ Hc]. apply Forall_singleton in Hc.
  simpl. rewrite app_nil_r. pose proof (Z.mod_pos_bound (c - 0x10000) 0x400).
  case_cmp; rewrite last_app; simpl; intros [= <-]; [done|lia].
Qed.

(** ** Lemmas: padding *)

Lemma trim_end_snoc {A} (p : A -> bool) l x :
  trim_end p (l ++ [x]) = if p x then trim_end p l else l ++ [x].
Proof.
  unfold trim_end. rewrite reverse_snoc. simpl. destruct (p x); [done|].
  by rewrite reverse_cons, reverse_involutive.
Qed.

Lemma trim_end_replicate {A} (p : A -> bool) l x k :
  p x = true -> trim_end p (l ++ replicate k x) = trim_end p l.
Proof.
  intros Hx. induction k as [|k IH]; [by rewrite app_nil_r|].
  rewrite replicate_S_end, app_assoc, trim_end_snoc, Hx. done.
Qed.

(** The padding, 0x0000 first. *)
Lemma pad_units_shape buf :
  exists k, pad_units buf = buf ++ (if decide (zlen buf mod 13 = 0) then [] else 0 :: replicate k 0xffff).
Proof.
  unfold pad_units. pose proof (Z.mod_pos_bound (zlen buf) 13 ltac:(lia)) as Hm. case_decide as Hd.
  - exists 0%nat. by rewrite Hd.
  - rewrite (Z.mod_small (13 - _)) by lia. exists (Z.to_nat (12 - zlen buf mod 13)). f_equal.
    replace (13 - zlen buf mod 13) with (Z.succ (12 - zlen buf mod 13)) by lia.
    rewrite seqZ_cons by lia. rewrite fmap_cons. f_equal. rewrite Z.pred_succ.
    apply list_eq. intros i. rewrite list_lookup_fmap.
    destruct (decide (i < Z.to_nat (12 - zlen buf mod 13))%nat) as [Hi|Hi].
    + rewrite lookup_seqZ_lt, lookup_replicate_2 by lia. simpl. f_equal. case_cmp; lia.
    + rewrite lookup_seqZ_ge by lia. symmetry. apply lookup_replicate_None. lia.
Qed.

Lemma pad_units_length buf :
  zlen (pad_units buf) = 13 * ((zlen buf + 12) / 13) /\ zlen (pad_units buf) / 13 = (zlen buf + 12) / 13.
Proof.
  unfold pad_units. len. rewrite length_seqZ.
  pose proof (Z.mod_pos_bound (zlen buf) 13 ltac:(lia)) as Hm.
  pose proof (Z.div_mod (zlen buf) 13 ltac:(lia)).
  destruct (decide (zlen buf mod 13 = 0)) as [Hd|Hd].
  - rewrite Hd. change ((13 - 0) mod 13) with 0.
    replace ((zlen buf + 12) / 13) with (zlen buf / 13) by (apply Z.div_unique with 12; lia).
    change (Z.to_nat 0) with 0%nat. rewrite Nat.add_0_r. lia.
  - rewrite (Z.mod_small (13 - _)) by lia.
    assert ((zlen buf + 12) / 13 = zlen buf / 13 + 1) as ->.
    { symmetry. apply Z.div_unique with (zlen buf mod 13 - 1); lia. }
    rewrite Nat2Z.inj_add, Z2Nat.id by lia. split; [lia|].
    symmetry. apply Z.div_unique with 0; lia.
Qed.

Lemma trim_pad_units buf :
  (forall u, last buf = Some u -> u <> 0 /\ u <> 0xffff) -> trim_units (pad_units buf) = buf.
Proof.
  intros Hl. destruct (pad_units_shape buf) as [k ->]. unfold trim_units. case_decide as Hd.
  - rewrite app_nil_r. destruct buf as [|u buf _] using rev_ind; [done|].
    destruct (Hl u) as [H0 Hf]; [by rewrite last_snoc|]. rewrite trim_end_snoc.
    unfold is_ffff. destruct (Z.eqb_spec u 0xffff); [lia|]. rewrite last_snoc. by destruct u.
  - replace (buf ++ 0 :: replicate k 0xffff) with ((buf ++ [0]) ++ replicate k 0xffff)
      by (by rewrite <- app_assoc).
    rewrite trim_end_replicate by done. rewrite trim_end_snoc. simpl. rewrite last_snoc.
    rewrite length_app. simpl. rewrite Nat.add_sub. apply take_app_length.
Qed.

(** ** Lemmas: long entries *)

Lemma write_name_parts_fields buf e :
  let e' := write_name_parts buf e in
  ord e' = ord e /\ lattr e' = lattr e /\ ty e' = ty e /\ chksum e' = chksum e /\
  lfst_clus_lo e' = lfst_clus_lo e.
Proof.
  unfold write_name_parts. generalize (zip (seqZ 0 13) buf). intros l. revert e.
  induction l as [|[i u] l IH]; intros e; [done|]. cbn [foldl].
  destruct (IH (write_name_part e (i, u))) as (-> & -> & -> & -> & ->). done.
Qed.

Lemma u16_bytes u :
  u16 u -> exists a b, to_le_bytes 2 u = [a; b] /\ from_le_bytes [a; b] = u /\ u8 a /\ u8 b.
Proof.
  intros Hu. exists (u mod 256), ((u / 256) mod 256). split; [done|].
  split; [apply (from_to_le_bytes 2), Hu|]. by split; apply Z.mod_pos_bound.
Qed.

(** The 13 units of an entry, written over zeros and read back. *)
Lemma read_write_name_parts buf e o l s :
  lfn_new o l s = Some e -> length buf = 13%nat -> Forall (unsigned 16) buf ->
  let e' := write_name_parts buf e in
  read_name_parts e' = buf /\ length (name1 e') = 10%nat /\ bytes_ok (name1 e') /\
  length (name2 e') = 12%nat /\ bytes_ok (name2 e') /\ length (name3 e') = 4%nat /\ bytes_ok (name3 e').
Proof.
  unfold lfn_new. destruct (_ && _); [|done]. intros [= <-] Hl Hu.
  do 13 (destruct buf as [|? buf]; [done|]). destruct buf; [|done].
  repeat (apply Forall_cons in Hu as [Hu1%u16_bytes Hu]; destruct Hu1 as (? & ? & ? & ? & ? & ?)).
  lazy -[to_le_bytes from_le_bytes upd sub unsigned Z.lor].
  repeat match goal with H : to_le_bytes 2 _ = _ |- _ => rewrite H; clear H end.
  lazy -[from_le_bytes unsigned Z.lor].
  repeat match goal with H : from_le_bytes _ = _ |- _ => rewrite H; clear H end.
  split_and!; try done; repeat apply Forall_cons_2; try done; apply Forall_nil_2.
Qed.

Lemma order_new o (l : bool) :
  1 <= o <= 20 ->
  let x := Z.lor o (if l then LAST_LONG_ENTRY else 0) in
  clear_bits x LAST_LONG_ENTRY = o /\ has_bits x LAST_LONG_ENTRY = l /\ 0 < x < 0x60.
Proof.
  intros Ho. simpl.
  assert (He : forallb (fun o => forallb (fun l : bool =>
      let x := Z.lor o (if l then LAST_LONG_ENTRY else 0) in
      (clear_bits x LAST_LONG_ENTRY =? o) && Bool.eqb (has_bits x LAST_LONG_ENTRY) l &&
      ((0 <? x) && (x <? 0x60))) [true; false]) (seqZ 1 20) = true) by (vm_compute; reflexivity).
  pose proof (proj1 (forallb_forall _ _) He o) as Hol. cbv beta in Hol.
  assert (Hin : In o (seqZ 1 20)) by (apply list_elem_of_In, elem_of_seqZ; lia).
  pose proof (proj1 (forallb_forall _ _) (Hol Hin) l) as Hl. cbv beta zeta in Hl.
  assert (Hb : In l [true; false]) by (destruct l; simpl; tauto).
  specialize (Hl Hb). apply andb_true_iff in Hl as [Hl Hx]. apply andb_true_iff in Hl as [H1 H2].
  apply Bool.eqb_prop in H2. split_and!; [lia|done|lia|lia].
Qed.

Section sequence.
Context (buf : list Z) (num sum : Z) (Hlen : zlen buf = num * 13) (Hnum : 1 <= num <= 20)
  (Hu : Forall (unsigned 16) buf).

Lemma chunk_length o : 1 <= o <= num -> length (sub buf ((o - 1) * 13) 13) = 13%nat.
Proof. intros Ho. pose proof (length_sub buf ((o - 1) * 13) 13). lia. Qed.

(** The entry written for a chunk: its order, its flag and its units. *)
Lemma lfn_entry_spec i :
  0 <= i < num -> exists e,
    lfn_entry buf num sum i = Some (Lfn e) /\ order e = num - i /\
    has_bits (ord e) LAST_LONG_ENTRY = (i =? 0) /\ chksum e = sum /\ 0 < ord e < 0x60 /\
    lattr e = LONG_FILE_NAME /\ ty e = 0 /\ lfst_clus_lo e = 0 /\
    read_name_parts e = sub buf ((num - i - 1) * 13) 13 /\
    length (name1 e) = 10%nat /\ bytes_ok (name1 e) /\ length (name2 e) = 12%nat /\
    bytes_ok (name2 e) /\ length (name3 e) = 4%nat /\ bytes_ok (name3 e).
Proof.
  intros Hi. unfold lfn_entry. destruct (lfn_new (num - i) (i =? 0) sum) as [e|] eqn:He.
  - simpl. eexists. split; [done|].
    pose proof (read_write_name_parts (sub buf ((num - i - 1) * 13) 13) e _ _ _ He
      ltac:(apply chunk_length; lia) ltac:(by apply Forall_sub)) as (Hr & Hn).
    destruct (write_name_parts_fields (sub buf ((num - i - 1) * 13) 13) e) as (H1 & H2 & H3 & H4 & H5).
    unfold lfn_new in He. destruct (_ && _); [|done]. injection He as <-. simpl in *.
    destruct (order_new (num - i) (i =? 0) ltac:(lia)) as (Ho & Hb & Hx).
    unfold order. rewrite H1, H2, H3, H4, H5. done.
  - unfold lfn_new in He. destruct (_ && _) eqn:Hc; [done|]. lia.
Qed.

(** The reader after the entries [0..i]: it has the chunks from order
    [num - i] on. *)
Lemma read_sequence_from k i b rest :
  i + Z.of_nat k = num -> 1 <= i -> length b = length buf ->
  sub b ((num - i) * 13) (i * 13) = sub buf ((num - i) * 13) (i * 13) ->
  exists es, mapM (lfn_entry buf num sum) (seqZ i (Z.of_nat k)) = Some es /\
    read_sequence (LfnSequence sum (num - i) b) (es ++ rest) = read_sequence (LfnSequence sum 0 buf) rest.
Proof.
  revert i b. induction k as [|k IH]; intros i b Hik Hi Hb Hs.
  - exists []. split; [done|]. simpl. replace (num - i) with 0 in * by lia.
    rewrite !sub_all in Hs by lia. by subst b.
  - destruct (lfn_entry_spec i ltac:(lia)) as (e & He & Ho & _ & Hc & _ & _ & _ & _ & Hr & _).
    rewrite seqZ_cons by lia. simpl. rewrite He. simpl.
    set (b' := upd b ((num - i - 1) * 13) (sub buf ((num - i - 1) * 13) 13)).
    assert (Hcl : zlen (sub buf ((num - i - 1) * 13) 13) = 13) by (rewrite (chunk_length (num - i)); lia).
    destruct (IH (Z.succ i) b') as (es & Hes & Hrd); [lia|lia| | |].
    + unfold b'. rewrite length_upd; lia.
    + replace (num - Z.succ i) with (num - i - 1) by lia.
      replace (Z.succ i * 13) with (13 + i * 13) by lia. rewrite <- !sub_sub_app by lia.
      replace ((num - i - 1) * 13 + 13) with ((num - i) * 13) by lia. f_equal.
      * unfold b'. by rewrite (sub_upd_same_n _ _ _ 13) by lia.
      * unfold b'. rewrite sub_upd_disjoint by lia. done.
    + replace (Z.pred (Z.of_nat (S k))) with (Z.of_nat k) by lia. rewrite Hes. simpl.
      eexists. split; [done|]. simpl. rewrite Ho, Hc, !Z.eqb_refl. simpl.
      unfold sub_checked. rewrite checked_Some by (unfold unsigned; lia). simpl. rewrite Hr.
      rewrite splice_Some by lia. fold b'. simpl. by replace (num - Z.succ i) with (num - i - 1) in Hrd by lia.
Qed.

Lemma read_sequence_lfn rest :
  exists es, mapM (lfn_entry buf num sum) (seqZ 0 num) = Some es /\ es <> [] /\
    read_sequence Init (es ++ rest) = read_sequence (LfnSequence sum 0 buf) rest.
Proof.
  destruct (lfn_entry_spec 0 ltac:(lia)) as (e & He & Ho & Hlast & Hc & _ & _ & _ & _ & Hr & _).
  rewrite Z.sub_0_r in Ho, Hr. rewrite seqZ_cons by lia. simpl. rewrite He. simpl.
  set (b := upd (replicate (Z.to_nat (num * 13)) 0) ((num - 1) * 13) (sub buf ((num - 1) * 13) 13)).
  assert (Hcl : zlen (sub buf ((num - 1) * 13) 13) = 13) by (rewrite chunk_length; lia).
  assert (Hrl : zlen (replicate (Z.to_nat (num * 13)) 0) = num * 13) by (len).
  destruct (read_sequence_from (Z.to_nat (num - 1)) 1 b rest) as (es & Hes & Hrd); [lia|lia| | |].
  - unfold b. rewrite length_upd; lia.
  - unfold b. by rewrite (sub_upd_same_n _ _ _ (1 * 13)) by lia.
  - replace (Z.pred num) with (Z.of_nat (Z.to_nat (num - 1))) by lia. change (Z.succ 0) with 1. rewrite Hes. simpl.
    eexists. split; [done|]. split; [done|]. simpl. unfold is_last_entry. rewrite Hlast, Ho. simpl.
    rewrite !(proj2 (Z.leb_le _ _)) by lia. simpl. rewrite Hr, splice_Some by lia. simpl.
    rewrite Hc. exact Hrd.
Qed.

End sequence.

(** ** Lemmas: short names *)

Lemma split_dot_Some s base ext :
  split_dot s = Some (base, ext) -> s = base ++ 46 :: ext.
Proof.
  revert base. induction s as [|c s IH]; intros base; simpl; [done|].
  destruct (Z.eqb_spec c 46) as [->|]; [by intros [= <- <-]|].
  destruct (split_dot s) as [[b x]|]; simpl; [|done]. intros [= <- <-].
  simpl. f_equal. by apply IH.
Qed.

Lemma str_len_length s : zlen s <= str_len s.
Proof.
  induction s as [|c s IH]; simpl length; [done|]. unfold str_len in *. simpl foldr.
  assert (1 <= len_utf8 c) by (unfold len_utf8; repeat case_match; lia). lia.
Qed.

(** The facts about single characters, by exhaustion over the bytes. *)
Lemma compatible_byte c : is_sfn_compatible_char c = true -> 33 <= c <= 126.
Proof. unfold is_sfn_compatible_char, is_ascii_uppercase, is_ascii_lowercase. simpl. lia. Qed.

Definition upper_ok (c : Z) : bool :=
  negb (is_sfn_compatible_char c) ||
  let u := to_ascii_uppercase c in
  (33 <=? u) && (u <=? 126) && negb (u =? 46) && negb (is_ascii_lowercase u) &&
  (if is_ascii_lowercase c then (65 <=? u) && (u <=? 90) && (u + 32 =? c)
   else (u =? c) && Bool.eqb ((65 <=? u) && (u <=? 90)) (is_ascii_uppercase c)).

Lemma upper_compatible c : is_sfn_compatible_char c = true -> upper_ok c = true.
Proof.
  intros Hc. pose proof (compatible_byte c Hc).
  apply (u8_forall upper_ok); [vm_compute; reflexivity|]. unfold unsigned. lia.
Qed.

Lemma put_padded w s (low : bool) :
  forallb is_sfn_compatible_char s = true ->
  (low = true -> existsb is_ascii_uppercase s = false) ->
  (low = false -> existsb is_ascii_lowercase s = false) ->
  put low (padded w s) = (false, s).
Proof.
  intros Hc Hu Hl. unfold padded. generalize (w - length s)%nat. intros k.
  induction s as [|c s IH]; simpl in *; [by destruct k|].
  apply andb_true_iff in Hc as [Hc Hcs]. pose proof (upper_compatible c Hc) as Hok.
  unfold upper_ok in Hok. rewrite Hc in Hok. cbn [negb orb] in Hok.
  assert (IH' : put low (list_fmap Z Z to_ascii_uppercase s ++ replicate k 32) = (false, s)).
  { apply IH; [done| |]; intros He.
    - by apply orb_false_iff in Hu as [_ ?]; [|done].
    - by apply orb_false_iff in Hl as [_ ?]; [|done]. }
  destruct (Z.eqb_spec (to_ascii_uppercase c) 32); [lia|]. rewrite IH'.
  destruct low.
  - pose proof (Hu eq_refl) as [Huc _]%orb_false_iff. destruct (is_ascii_lowercase c).
    + destruct ((65 <=? to_ascii_uppercase c) && (to_ascii_uppercase c <=? 90)) eqn:Hr; [|lia].
      simpl. do 2 f_equal. lia.
    + rewrite Huc in Hok. destruct ((65 <=? to_ascii_uppercase c) && (to_ascii_uppercase c <=? 90)); [lia|].
      simpl. destruct ((33 <=? to_ascii_uppercase c) && (to_ascii_uppercase c <=? 126)) eqn:Hr; [|lia].
      do 2 f_equal. lia.
  - pose proof (Hl eq_refl) as [Hlc _]%orb_false_iff. rewrite Hlc in Hok. rewrite andb_false_r.
    destruct ((33 <=? to_ascii_uppercase c) && (to_ascii_uppercase c <=? 126)) eqn:Hr; [|lia].
    do 2 f_equal. lia.
Qed.

Lemma length_padded w s : (length s <= w)%nat -> length (padded w s) = w.
Proof. intros Hs. unfold padded. len. Qed.

(** The two case flags of [nt_res] are independent bits. *)
Lemma case_flags r (b x : bool) :
  u8 r ->
  let r1 := if b then Z.lor r BASE_LOWER else clear_bits r BASE_LOWER in
  let r2 := if x then Z.lor r1 EXT_LOWER else clear_bits r1 EXT_LOWER in
  has_bits r2 BASE_LOWER = b /\ has_bits r2 EXT_LOWER = x /\ u8 r2.
Proof.
  intros Hr.
  pose proof (u8_forall (fun r => forallb (fun b : bool => forallb (fun x : bool =>
      let r1 := if b then Z.lor r BASE_LOWER else clear_bits r BASE_LOWER in
      let r2 := if x then Z.lor r1 EXT_LOWER else clear_bits r1 EXT_LOWER in
      Bool.eqb (has_bits r2 BASE_LOWER) b && Bool.eqb (has_bits r2 EXT_LOWER) x && unsignedb 8 r2)
      [true; false]) [true; false]) ltac:(vm_compute; reflexivity) r Hr) as Ha.
  cbv beta in Ha. pose proof (proj1 (forallb_forall _ _) Ha b ltac:(destruct b; simpl; tauto)) as Hb.
  cbv beta in Hb. pose proof (proj1 (forallb_forall _ _) Hb x ltac:(destruct x; simpl; tauto)) as Hx.
  cbv beta zeta in Hx. apply andb_true_iff in Hx as [Hx H3]. apply andb_true_iff in Hx as [H1 H2].
  apply Bool.eqb_prop in H1, H2. apply unsignedb_spec in H3. done.
Qed.

Lemma split_name_spec n base ext :
  split_name n = Some (base, ext) ->
  (1 <= length base <= 8)%nat /\ (length ext <= 3)%nat /\
  n = base ++ (if decide (ext = []) then [] else 46 :: ext).
Proof.
  unfold split_name. pose proof (str_len_length base). pose proof (str_len_length ext).
  destruct (split_dot n) as [[b x]|] eqn:Hs.
  - case_match eqn:Hc; [done|]. intros [= -> ->]. apply split_dot_Some in Hs.
    assert (base <> []) by (intros ->; simpl in Hc; lia).
    assert (ext <> []) by (intros ->; unfold str_len in Hc; simpl in Hc; lia).
    rewrite decide_False by done. destruct base; [done|]. simpl in *. split; [lia|]. split; [lia|done].
  - case_match eqn:Hc; [done|]. intros [= -> <-]. rewrite decide_True by done.
    assert (base <> []) by (intros ->; simpl in Hc; lia).
    destruct base; [done|]. simpl in *. split; [lia|]. split; [lia|by rewrite app_nil_r].
Qed.

Lemma padded_bytes w s :
  forallb is_sfn_compatible_char s = true -> Forall (fun c => 32 <= c <= 126) (padded w s).
Proof.
  intros Hc. unfold padded. apply Forall_app. split.
  - apply Forall_fmap, Forall_forall. intros c Hin. simpl.
    pose proof (proj1 (forallb_forall _ _) Hc c (proj1 (list_elem_of_In _ _) Hin)) as Hcc.
    pose proof (upper_compatible c Hcc) as Hok. unfold upper_ok in Hok. rewrite Hcc in Hok. simpl in Hok. lia.
  - apply Forall_replicate. lia.
Qed.

(** What a generated or set short name is made of. *)
Definition name_ok (l : list Z) : Prop := length l = 11%nat /\ Forall (fun c => 32 <= c <= 126) l.

Definition same_but_name (e e' : SfnEntry) : Prop :=
  with_nt_res (nt_res e) (with_name (name e) e') = e.

Lemma set_name_ok n e e' :
  u8 (nt_res e) -> set_name n e = (true, e') ->
  sfn_name e' = (false, n) /\ name_ok (name e') /\ u8 (nt_res e') /\ same_but_name e e'.
Proof.
  intros Hr. unfold set_name. destruct (split_name n) as [[base ext]|] eqn:Hs; [|done].
  destruct (split_name_spec _ _ _ Hs) as (Hb & Hx & Hn).
  destruct (forallb is_sfn_compatible_char base) eqn:Hcb; [|done].
  destruct (forallb is_sfn_compatible_char ext) eqn:Hcx; [|done]. cbn [negb orb].
  destruct (existsb is_ascii_lowercase base && existsb is_ascii_uppercase base) eqn:Hmb; [done|].
  destruct (existsb is_ascii_lowercase ext && existsb is_ascii_uppercase ext) eqn:Hmx; [done|].
  cbn [orb]. intros [= <-]. pose proof (length_padded 8 base ltac:(lia)) as Lb.
  pose proof (length_padded 3 ext ltac:(lia)) as Lx.
  destruct (case_flags (nt_res e) (existsb is_ascii_lowercase base) (existsb is_ascii_lowercase ext) Hr)
    as (F1 & F2 & F3). split_and!; [|split|done|by destruct e].
  - unfold sfn_name. cbn [name nt_res with_nt_res with_name]. rewrite F1, F2.
    assert (S1 : sub (padded 8 base ++ padded 3 ext) 0 8 = padded 8 base).
    { unfold sub. simpl. by rewrite drop_0, take_app_length' by lia. }
    assert (S2 : sub (padded 8 base ++ padded 3 ext) 8 3 = padded 3 ext).
    { unfold sub. rewrite drop_app_length' by (simpl; lia). apply take_ge. simpl. lia. }
    assert (S3 : at_ (padded 8 base ++ padded 3 ext) 8 = at_ (padded 3 ext) 0).
    { unfold at_, index. simpl Z.leb. cbn [Z.to_nat]. rewrite lookup_app_r by (simpl; lia).
      rewrite Lb. done. }
    rewrite S1, S2, S3. rewrite !put_padded by (done || (intros He; first [exact He | by rewrite He in Hmb | by rewrite He in Hmx])).
    rewrite Hn. destruct ext as [|c ext]; [done|]. simpl in Hcx.
    apply andb_true_iff in Hcx as [Hc _]. pose proof (upper_compatible c Hc) as Hok.
    unfold upper_ok in Hok. rewrite Hc in Hok. simpl in Hok. unfold at_, index. simpl.
    destruct (Z.eqb_spec (to_ascii_uppercase c) 32); [lia|done].
  - simpl. len.
  - simpl. apply Forall_app. auto using padded_bytes.
Qed.

Lemma set_or_generate_name_ok n e b e' :
  u8 (nt_res e) -> set_or_generate_name n e = (b, e') ->
  name_ok (name e') /\ u8 (nt_res e') /\ same_but_name e e' /\ (b = true -> sfn_name e' = (false, n)).
Proof.
  intros Hr. unfold set_or_generate_name. destruct (set_name n e) as [c e1] eqn:Hs.
  destruct c; intros [= <- <-].
  - destruct (set_name_ok _ _ _ Hr Hs) as (? & ? & ? & ?). done.
  - assert (e1 = e) as ->.
    { unfold set_name in Hs. repeat case_match; by simplify_eq. }
    split_and!; [|done|by destruct e|done]. split; cbn [name with_name].
    + rewrite length_take, length_app. cbn [length]. lia.
    + apply Forall_take, Forall_app. split; [|repeat constructor; lia].
      apply Forall_fmap, Forall_forall. intros c Hc%list_elem_of_filter. simpl.
      destruct Hc as [Hc _]. pose proof (upper_compatible c Hc) as Hok. unfold upper_ok in Hok.
      rewrite Hc in Hok. simpl in Hok. lia.
Qed.

(** ** Lemmas: the 32-byte encodings *)

Lemma u32_bytes u :
  u32 u -> exists a b c d, to_le_bytes 4 u = [a; b; c; d] /\ from_le_bytes [a; b; c; d] = u /\
    u8 a /\ u8 b /\ u8 c /\ u8 d.
Proof.
  intros Hu. exists (u mod 256), ((u / 256) mod 256), ((u / 256 / 256) mod 256),
    ((u / 256 / 256 / 256) mod 256). split; [done|].
  split; [apply (from_to_le_bytes 4), Hu|]. split_and!; by apply Z.mod_pos_bound.
Qed.

(** An entry that is written as itself: it is not taken for a free one, and its
    attribute byte says which kind it is. *)
Definition entry_ok (e : DirEntry) : Prop :=
  match e with
  | UnusedTerminal | Unused => True
  | Sfn e => sfn_ok e /\ 0 < at_ (name e) 0 < 0xe5 /\ Z.land (attr e) LONG_FILE_NAME_MASK <> LONG_FILE_NAME
  | Lfn e => 0 < ord e < 0xe5 /\ lattr e = LONG_FILE_NAME /\ ty e = 0 /\ u8 (chksum e) /\
      lfst_clus_lo e = 0 /\ length (name1 e) = 10%nat /\ bytes_ok (name1 e) /\
      length (name2 e) = 12%nat /\ bytes_ok (name2 e) /\ length (name3 e) = 4%nat /\ bytes_ok (name3 e)
  end.

Ltac split_list l := repeat (destruct l as [|? l]; try done).

Ltac split_bytes :=
  repeat match goal with H : Forall _ (_ :: _) |- _ => apply Forall_cons in H as [? H] end.

Ltac solve_bytes :=
  repeat first [apply Forall_nil_2 | apply Forall_cons_2];
  first [assumption | unfold unsigned in *; lia].

Lemma sfn_codec e :
  entry_ok (Sfn e) ->
  from_bytes (sfn_into e) = Some (Sfn e) /\ length (sfn_into e) = 32%nat /\ bytes_ok (sfn_into e).
Proof.
  destruct e as [nm a nt tenth t1 d1 la hi t2 d2 lo sz]. intros ([[Hl Hb] Ha Hn Ht Hts Hs] & Hst & Hat).
  cbn in Hl, Hb, Ha, Hn, Ht, Hts, Hs, Hst, Hat. split_list nm. split_bytes.
  repeat match goal with H : unsigned 16 _ |- _ =>
    apply u16_bytes in H as (? & ? & ? & ? & ? & ?) end.
  apply u32_bytes in Hs as (? & ? & ? & ? & ? & ? & ? & ? & ? & ?).
  unfold sfn_into. cbn -[to_le_bytes store].
  repeat match goal with H : to_le_bytes _ _ = _ |- _ => rewrite H; clear H end.
  cbn in Hst. split_and!; [|done|lazy -[unsigned]; solve_bytes].
  unfold from_bytes, sfn_try_from, store. lazy -[from_le_bytes Z.land Z.eqb].
  repeat match goal with H : from_le_bytes _ = _ |- _ => rewrite H; clear H end.
  simpl in Hst. unfold LONG_FILE_NAME_MASK, LONG_FILE_NAME in Hat.
  do 2 (case_cmp; [lia|]). by destruct (Z.eqb_spec (Z.land a 63) 15).
Qed.

Lemma lfn_codec e :
  entry_ok (Lfn e) ->
  from_bytes (lfn_into e) = Some (Lfn e) /\ length (lfn_into e) = 32%nat /\ bytes_ok (lfn_into e).
Proof.
  destruct e as [o n1 la t ck n2 cl n3]. intros (Ho & Hla & Ht & Hck & Hcl & L1 & B1 & L2 & B2 & L3 & B3).
  cbn in Ho, Hla, Ht, Hck, Hcl, L1, B1, L2, B2, L3, B3. subst la t cl.
  split_list n1. split_list n2. split_list n3. split_bytes.
  split_and!; [|done|lazy -[unsigned]; solve_bytes].
  unfold from_bytes, lfn_try_from, lfn_into, store. lazy -[Z.eqb].
  repeat (case_cmp; try lia). done.
Qed.

Lemma from_bytes_total buf : exists e, from_bytes buf = Some e.
Proof.
  unfold from_bytes, lfn_try_from, sfn_try_from. cbn [lattr attr].
  repeat (destruct (_ =? _); simpl; eauto).
Qed.

Lemma entry_codec e :
  entry_ok e ->
  from_bytes (into_bytes e) = Some e /\ length (into_bytes e) = 32%nat /\ bytes_ok (into_bytes e).
Proof.
  destruct e; simpl into_bytes.
  - intros _. split_and!; [done|done|]. lazy -[unsigned]. solve_bytes.
  - intros _. split_and!; [done|done|]. lazy -[unsigned]. solve_bytes.
  - apply lfn_codec.
  - apply sfn_codec.
Qed.

(** ** Lemmas: the entries of a name *)

Lemma sfn_checksum_u8 e : u8 (sfn_checksum e).
Proof.
  unfold sfn_checksum. assert (H0 : u8 0) by (unfold unsigned; lia). revert H0. generalize 0.
  induction (name e) as [|c l IH]; intros s Hs; [done|]. simpl. apply IH, wrap_unsigned. lia.
Qed.

Lemma renamed_ok e e' :
  sfn_ok e -> Z.land (attr e) LONG_FILE_NAME_MASK <> LONG_FILE_NAME ->
  name_ok (name e') -> u8 (nt_res e') -> same_but_name e e' -> entry_ok (Sfn e').
Proof.
  intros [Hn Ha Hnt Ht Hts Hs] Hat [Hl Hb] Hr Hsame. unfold same_but_name in Hsame.
  rewrite <- Hsame in Ha, Ht, Hts, Hs, Hat. simpl in *.
  assert (0 < at_ (name e') 0 < 0xe5).
  { unfold at_, index. simpl. destruct (name e') as [|c l]; [done|].
    apply Forall_cons in Hb as [Hb _]. simpl. lia. }
  split_and!; try done; try lia. split; try done. split; [done|].
  eapply Forall_impl; [exact Hb|]. unfold unsigned. simpl. lia.
Qed.

Lemma mapM_Forall {A B} (f : A -> option B) (P : B -> Prop) l k :
  mapM f l = Some k -> (forall x y, x ∈ l -> f x = Some y -> P y) -> Forall P k.
Proof.
  intros Hm HP. apply mapM_Some_1 in Hm.
  induction Hm as [|x y l k Hxy Hm IH]; [constructor|]. constructor.
  - apply (HP x); [left|done].
  - apply IH. intros x' y' Hx'. apply HP. by right.
Qed.

Lemma lfn_entries_ok buf num sum es :
  zlen buf = num * 13 -> 1 <= num <= 20 -> Forall (unsigned 16) buf -> u8 sum ->
  mapM (lfn_entry buf num sum) (seqZ 0 num) = Some es -> Forall entry_ok es.
Proof.
  intros Hl Hn Hu Hs Hm. eapply mapM_Forall; [done|]. intros i e Hi%elem_of_seqZ He.
  destruct (lfn_entry_spec buf num sum Hl Hn Hu i ltac:(lia))
    as (l & He' & _ & _ & Hc & Ho & Ha & Ht & Hf & _ & Hnames).
  rewrite He in He'. simplify_eq. simpl. rewrite Ha, Ht, Hf. split_and!; try lia; try done; apply Hnames.
Qed.

Lemma pad_units_u16 buf : Forall (unsigned 16) buf -> Forall (unsigned 16) (pad_units buf).
Proof.
  intros Hb. unfold pad_units. apply Forall_app. split; [done|]. apply Forall_fmap, Forall_true.
  intros i. simpl. unfold unsigned. case_cmp; lia.
Qed.

(** The two kinds of result: a short name alone, or long entries before it. *)
Lemma lfn_sequence_long n sfn' :
  Forall is_char n -> zlen (encode_utf16 n) <= 255 -> n <> [] ->
  let buf := pad_units (encode_utf16 n) in
  exists es, mapM (lfn_entry buf (zlen buf / 13) (sfn_checksum sfn')) (seqZ 0 (zlen buf / 13)) = Some es /\
    Forall entry_ok es /\
    (last n <> Some 0 -> last n <> Some 0xffff -> read_sequence Init (es ++ [Sfn sfn']) = Some (n, sfn')).
Proof.
  intros Hc Hlen Hne buf. destruct (pad_units_length (encode_utf16 n)) as [Hl1 Hl2]. fold buf in Hl1, Hl2.
  assert (1 <= zlen (encode_utf16 n)).
  { destruct n as [|c n]; [done|]. unfold encode_utf16. rewrite bind_cons. case_match; simpl; lia. }
  assert (Hnum : 1 <= zlen buf / 13 <= 20).
  { rewrite Hl2. split; [apply Z.div_le_lower_bound; lia|].
    assert ((zlen (encode_utf16 n) + 12) / 13 < 21); [apply Z.div_lt_upper_bound; lia|lia]. }
  assert (Hu : Forall (unsigned 16) buf) by (by apply pad_units_u16, encode_utf16_u16).
  destruct (read_sequence_lfn buf (zlen buf / 13) (sfn_checksum sfn') ltac:(lia) Hnum Hu [Sfn sfn'])
    as (es & Hes & _ & Hr).
  exists es. split; [done|]. split.
  - eapply lfn_entries_ok; [| |done| |done]; [lia|lia|apply sfn_checksum_u8].
  - intros H0 Hf. rewrite Hr. simpl. rewrite Z.eqb_refl. unfold buf. rewrite trim_pad_units.
    + by rewrite utf16_roundtrip.
    + intros u Hu'. split; intros ->; by eapply encode_utf16_last in Hu'; [| |tauto].
Qed.

Lemma lfn_sequence_ok n sfn :
  Forall is_char n -> sfn_ok sfn -> Z.land (attr sfn) LONG_FILE_NAME_MASK <> LONG_FILE_NAME ->
  is_volume_id sfn = false ->
  exists r, lfn_sequence n sfn = Some r /\ forall es, r = Some es ->
    exists pre sfn', es = pre ++ [Sfn sfn'] /\ Forall entry_ok es /\ same_but_name sfn sfn' /\
      (last n <> Some 0 -> last n <> Some 0xffff -> read_sequence Init es = Some (n, sfn')).
Proof.
  intros Hc Hok Hat Hvol. unfold lfn_sequence.
  destruct (set_or_generate_name n sfn) as [b sfn'] eqn:Hs.
  destruct (set_or_generate_name_ok _ _ _ _ (so_nt_res _ Hok) Hs) as (Hn & Hr & Hsame & Hb).
  pose proof (renamed_ok _ _ Hok Hat Hn Hr Hsame) as Hsok.
  assert (Hvol' : is_volume_id sfn' = false).
  { unfold is_volume_id in *. unfold same_but_name in Hsame. by rewrite <- Hsame in Hvol. }
  destruct b.
  { eexists. split; [done|]. intros es [= <-]. exists [], sfn'. split_and!; [done|by apply Forall_singleton|done|].
    intros _ _. simpl. rewrite Hvol'. simpl. by rewrite Hb. }
  destruct (forallb is_lfn_compatible_char n); [|by eexists].
  destruct (Z.ltb_spec 255 (zlen (encode_utf16 n))); [by eexists|].
  destruct (decide (n = [])) as [->|Hne].
  - eexists. split; [done|]. intros es [= <-]. exists [], sfn'.
    split_and!; [done|by apply Forall_singleton|done|]. intros _ _. simpl. rewrite Hvol'. simpl.
    unfold set_or_generate_name in Hs. simpl in Hs. by simplify_eq.
  - destruct (lfn_sequence_long n sfn' Hc ltac:(lia) Hne) as (es & -> & Hoks & Hrd).
    eexists. split; [done|]. intros es' [= <-]. exists es, sfn'. split_and!; try done.
    apply Forall_app. split; [done|by apply Forall_singleton].
Qed.

(** The names FAT can store: at most 255 units of UTF-16, none of them one of the characters \ / : * ? < > | and the
    quotation mark. *)
Definition storable (n : list Z) : Prop :=
  Forall (fun c => c ∉ [92; 47; 58; 42; 63; 34; 60; 62; 124]) n /\ zlen (encode_utf16 n) <= 255.

Lemma lfn_compatible_chars n : forallb is_lfn_compatible_char n = true <-> Forall (fun c => c ∉ [92; 47; 58; 42; 63; 34; 60; 62; 124]) n.
Proof.
  assert (Hc : forall c, is_lfn_compatible_char c = true <-> c ∉ [92; 47; 58; 42; 63; 34; 60; 62; 124]).
  { intros c. unfold is_lfn_compatible_char. rewrite negb_true_iff, <- not_true_iff_false, existsb_exists. apply not_iff_compat. split.
    - intros (x & Hx & ->%Z.eqb_eq). by apply list_elem_of_In.
    - intros Hx%list_elem_of_In. exists c. by rewrite Z.eqb_refl. }
  rewrite forallb_forall, Forall_forall. split; intros Hn c Hin; apply Hc, Hn; by apply list_elem_of_In.
Qed.

(** The characters of short names are ASCII, and none of those. *)
Lemma sfn_compatible_storable n : Forall (fun c => is_sfn_compatible_char c = true \/ c = 46) n -> zlen n <= 255 -> storable n.
Proof.
  intros Hn Hlen.
  assert (Hc : forall c, is_sfn_compatible_char c = true \/ c = 46 -> 33 <= c <= 126 /\ is_lfn_compatible_char c = true).
  { intros c [Hc| ->]; [|done]. unfold is_sfn_compatible_char, is_ascii_uppercase, is_ascii_lowercase in Hc.
    assert (Hr : 33 <= c <= 126) by (simpl in Hc; lia). split; [done|]. unfold is_lfn_compatible_char. simpl in *. lia. }
  split.
  - apply lfn_compatible_chars, forallb_forall. intros c Hin%list_elem_of_In. by apply Hc, (proj1 (Forall_forall _ _) Hn).
  - assert (He : zlen (encode_utf16 n) = zlen n); [|lia]. clear Hlen. unfold encode_utf16. induction Hn as [|c n Hx Hn IH]; [done|].
    rewrite bind_cons, length_app. destruct (Hc c Hx) as [Hr _]. case_match; simpl in *; lia.
Qed.

(** [lfn_sequence] refuses exactly the names that cannot be stored. *)
Lemma lfn_sequence_storable n sfn r : lfn_sequence n sfn = Some r -> (is_Some r <-> storable n).
Proof.
  unfold lfn_sequence. destruct (set_or_generate_name n sfn) as [b sfn'] eqn:Hs. destruct b.
  - intros [= <-]. split; [|by eexists]. intros _. unfold set_or_generate_name in Hs. destruct (set_name n sfn) as [[] e] eqn:Hn; [|done].
    unfold set_name in Hn. destruct (split_name n) as [[base ext]|] eqn:Hsp; [|done].
    destruct (_ || _ || _ || _) eqn:Hc in Hn; [done|]. rewrite !orb_false_iff, !negb_false_iff, !forallb_forall in Hc. destruct Hc as (((Hb & Hx) & _) & _).
    clear Hn Hs. unfold split_name in Hsp. pose proof (str_len_length n). apply sfn_compatible_storable.
    + destruct (split_dot n) as [[b x]|] eqn:Hd; case_match; simplify_eq.
      * apply split_dot_Some in Hd as ->. apply Forall_app. split; [|apply Forall_cons_2; [by right|]]; apply Forall_forall;
          intros c ?%list_elem_of_In; left; auto.
      * apply Forall_forall. intros c ?%list_elem_of_In. left. auto.
    + destruct (split_dot n) as [[b x]|] eqn:Hd; case_match; simplify_eq; [|lia].
      apply split_dot_Some in Hd as ->. pose proof (str_len_length base). pose proof (str_len_length ext). rewrite length_app. simpl. lia.
  - unfold storable. rewrite <- lfn_compatible_chars. destruct (forallb is_lfn_compatible_char n); [|intros [= <-]; split; [by intros [? ?]|by intros [? _]]].
    destruct (Z.ltb_spec 255 (zlen (encode_utf16 n))); [intros [= <-]; split; [by intros [? ?]|lia]|].
    intros (es & _ & [= <-])%bind_Some. split; [done|by eexists].
Qed.

(** [C13]. Whatever the name (any characters, short or
    long, in any case), creating its directory entries does not panic; when the
    name is accepted, the entries survive their 32-byte encodings, keep every
    field of the entry but its name and case flags, and reading them back yields
    exactly the name, unless it ends in U+0000 or U+FFFF, the two units used for
    padding. *)
Theorem dir_entries_roundtrip (n : list Z) (sfn : SfnEntry) :
  Forall is_char n -> sfn_ok sfn -> Z.land (attr sfn) LONG_FILE_NAME_MASK <> LONG_FILE_NAME ->
  is_volume_id sfn = false ->
  exists r, lfn_sequence n sfn = Some r /\ forall es, r = Some es ->
    mapM from_bytes (into_bytes <$> es) = Some es /\
    Forall (fun e => length (into_bytes e) = 32%nat) es /\
    (last n <> Some 0 -> last n <> Some 0xffff ->
     exists sfn', last es = Some (Sfn sfn') /\ same_but_name sfn sfn' /\
       read_sequence Init es = Some (n, sfn')).
Proof.
  intros Hc Hok Hat Hvol. destruct (lfn_sequence_ok n sfn Hc Hok Hat Hvol) as (r & Hr & Hes).
  exists r. split; [done|]. intros es He. destruct (Hes es He) as (pre & sfn' & -> & Hoks & Hsame & Hrd).
  split_and!.
  - apply mapM_Some_2. apply Forall2_fmap_l, Forall_Forall2_diag.
    eapply Forall_impl; [exact Hoks|]. intros e Heo. by apply entry_codec.
  - eapply Forall_impl; [exact Hoks|]. intros e Heo. by apply entry_codec.
  - intros H0 Hf. exists sfn'. rewrite last_snoc. auto.
Qed.

(** Two long entries a damaged directory can hold
    make the reader panic: after the only entry of a sequence (order 1), an entry
    with the mark 0x40 and order 0 and the same checksum matches the expected
    order 0, and [order - 1] underflows. *)
Theorem lfn_reader_underflow :
  let b1 := store [(0, [0x41]); (11, [LONG_FILE_NAME])] in
  let b2 := store [(0, [0x40]); (11, [LONG_FILE_NAME])] in
  exists e1 e2 r, from_bytes b1 = Some e1 /\ from_bytes b2 = Some e2 /\
    reader_read Init e1 = Some (r, Incomplete) /\ reader_read r e2 = None.
Proof. eexists _, _, _. repeat split; vm_compute; reflexivity. Qed.

Lemma cluster_set_cluster c e : 0 < c < 2 ^ 32 -> cluster (set_cluster (Some c) e) = Some c.
Proof.
  intros Hc. unfold cluster, set_cluster. cbn [fst_clus_lo fst_clus_hi with_cluster].
  assert (He : Z.lor (wrap 16 c) (Z.shiftl (wrap 16 (Z.shiftr c 16)) 16) = c).
  { unfold wrap. rewrite <- !Z.land_ones by lia.
    rewrite (Z.land_ones (Z.shiftr c 16)) by lia. rewrite (Z.mod_small (Z.shiftr c 16)).
    - rewrite Z.land_ones by lia. apply Z.bits_inj'. intros i Hi.
      rewrite Z.lor_spec. destruct (Z.ltb_spec i 16).
      + rewrite Z.mod_pow2_bits_low, Z.shiftl_spec_low by lia. apply orb_false_r.
      + rewrite Z.mod_pow2_bits_high, Z.shiftl_spec, Z.shiftr_spec by lia. simpl. f_equal. lia.
    - rewrite Z.shiftr_div_pow2 by lia. split; [apply Z.div_pos; lia|].
      apply Z.div_lt_upper_bound; lia. }
  rewrite He. destruct (Z.eqb_spec c 0); [lia|done].
Qed.

Lemma cluster_set_None e : cluster (set_cluster None e) = None.
Proof. done. Qed.

Lemma set_cluster_ok c e : sfn_ok e -> sfn_ok (set_cluster c e).
Proof.
  intros [Hn Ha Hr Ht Hts Hs]. split_bytes.
  assert (forall z, u16 (wrap 16 z)) by (intros; apply wrap_unsigned; lia).
  destruct c; split; try done; simpl; repeat apply Forall_cons_2; try apply Forall_nil_2; try done.
Qed.

(** A new entry. *)
Lemma sfn_new_ok : sfn_ok sfn_new.
Proof. split; simpl; try (unfold unsigned; lia); [split; [done|]|]; solve_bounds. Qed.

(** ** Witnesses *)

Lemma dir_entries_roundtrip_witness :
  let n := [72; 101; 108; 108; 111; 44; 32; 0x4e16; 0x754c; 0x1f600; 46; 116; 120; 116] in
  exists es, lfn_sequence n sfn_new = Some (Some es) /\ length es = 3%nat /\
    exists sfn', last es = Some (Sfn sfn') /\ read_sequence Init es = Some (n, sfn').
Proof.
  intros n. destruct (dir_entries_roundtrip n sfn_new) as (r & Hr & Hes).
  - unfold n. repeat apply Forall_cons_2; try apply Forall_nil_2; unfold is_char; lia.
  - apply sfn_new_ok.
  - discriminate.
  - reflexivity.
  - destruct r as [es|]; [|vm_compute in Hr; discriminate]. exists es. split; [done|].
    destruct (Hes es eq_refl) as (_ & _ & Hrd).
    destruct Hrd as (sfn' & Hl & _ & Hrs); [discriminate|discriminate|].
    split; [|by exists sfn']. vm_compute in Hr. injection Hr as <-. reflexivity.
Defined.
