(* ===== verification/LowLevel.v ===== *)
(** * The FAT, clusters and cluster chains
      (src/ors-kernel/src/fs/fat/low_level.rs)

    The operations of [Root], [BufferedFat], [BufferedCluster],
    [ChainedCluster] and [DirEntries], over any [SectorCache] and for a boot
    sector [bs]. The source keeps the last [BufferedSectorRef] it used in a field
    [last]; so does the model, and the scopes of the values that own it are
    explicit: [held] keeps a local value alive unless an error leaves the scope,
    [scoped] drops it at the end. *)

From S2P Require Import Prelude Volume BootSector FatEntry DirEntry.
Local Open Scope Z_scope.
Local Open Scope rust_scope.

(** [fat::Error] (src/ors-kernel/src/fs/fat.rs) *)
Inductive Error :=
| VolumeE (e : VolumeError)
| BootSectorE (e : BootSectorError)
| Full
| DirectoryNotEmpty
| FileAlreadyExists
| InvalidFileName.

(** A handle on one cluster. *)
Record BufferedCluster := {
  bc_cluster : Z;
  bc_first_sector : Z;
  bc_sector_count : Z;
  bc_sector_size : Z;
  bc_last : option Z
}.

Definition with_last (l : option Z) (c : BufferedCluster) : BufferedCluster :=
  {| bc_cluster := bc_cluster c; bc_first_sector := bc_first_sector c;
     bc_sector_count := bc_sector_count c; bc_sector_size := bc_sector_size c; bc_last := l |}.

Section scopes.
Context {St : Type}.

(** A local value [l] with destructor [d]: kept with the result, dropped when
    an error leaves the scope. *)
Definition held {L E A} (l : L) (d : L -> M St E unit) (m : M (St * L) E A) : M St E (A * L) :=
  fun st =>
    match m (st, l) with
    | (Ok a, (st', l')) => (Ok (a, l'), st')
    | (Err e, (st', l')) =>
        match d l' st' with
        | (Ok _, st'') | (Err _, st'') => (Err e, st'')
        | (Panic, st'') => (Panic, st'')
        | (Diverge, st'') => (Diverge, st'')
        end
    | (Panic, (st', _)) => (Panic, st')
    | (Diverge, (st', _)) => (Diverge, st')
    end.

Definition scoped {L E A} (l : L) (d : L -> M St E unit) (m : M (St * L) E A) : M St E A :=
  '(a, l') <- held l d m ;; d l' ;;; ret a.

(** A result that is inspected, the local value being kept in both cases. *)
Definition attempt {L E F A} (l : L) (m : M (St * L) E A) : M St F (option A * L) := fun st =>
  match m (st, l) with
  | (Ok a, (st', l')) => (Ok (Some a, l'), st')
  | (Err _, (st', l')) => (Ok (None, l'), st')
  | (Panic, (st', _)) => (Panic, st')
  | (Diverge, (st', _)) => (Diverge, st')
  end.

End scopes.

Section low_level.
Context {St : Type} `{SectorCache St} (bs : BootSector).

Definition drop_last {E} (l : option Z) : M St E unit :=
  match l with Some s => c_drop s | None => ret tt end.

(** [if !matches!(self.last, Some(ref r) if r.sector() == sector)
    { self.last = Some(volume.sector(sector)?); }] *)
Definition hold (s : Z) : M (St * option Z) Error unit :=
  '(_, last) <- mget ;;
  if bool_decide (last = Some s) then ret tt
  else
    mfst (mmap_err VolumeE (c_sector s)) ;;;
    '(st, old) <- mget ;;
    mput (st, Some s) ;;;
    mfst (drop_last old).

(** The bytes of a held sector, read, and changed and marked as dirty. *)
Definition load {E} (s off n : Z) : M St E (list Z) :=
  b <- c_bytes s ;; munwrap (slice b off n).

Definition update {E} (s off : Z) (src : list Z) : M St E unit :=
  b <- c_bytes s ;; b' <- munwrap (splice b off src) ;; (c_set_bytes s b' ;;; c_mark_as_dirty s).

(** ** [BufferedFat]: the state is its field [last] *)

Definition entry (c : Z) : M (St * option Z) Error (Z * Z) :=
  '(s, off) <- munwrap (fat_entry_location bs c) ;;
  hold s ;;;
  ret (s, off).

Definition fat_read (c : Z) : M (St * option Z) Error FatEntry :=
  '(s, off) <- entry c ;;
  w <- mfst (load s off 4) ;;
  ret (from_u32 (from_le_bytes w)).

Definition fat_write (c : Z) (v : FatEntry) : M (St * option Z) Error unit :=
  '(s, off) <- entry c ;;
  mfst (update s off (to_le_bytes 4 (into_u32 v))).

(** [FatEntries::next] for the cursor [n]; an error ends the iteration. *)
Definition fat_entries_next (n : Z) : M (St * option Z) Error (option FatEntry) :=
  a <- munwrap (is_cluster_available bs n) ;;
  if a : bool then mok (fat_read n) else ret None.

Fixpoint allocate_loop (fuel : nat) (n : Z) : M (St * option Z) Error Z :=
  match fuel with
  | O => mdiverge
  | S fuel =>
      o <- fat_entries_next n ;;
      match o with
      | None => mfail Full
      | Some e =>
          if bool_decide (e = FatEntry.Unused) then fat_write n UsedEoc ;;; ret n
          else allocate_loop fuel (n + 1)
      end
  end.

Definition fat_fuel : nat := S (Z.to_nat (default 0 (cluster_count bs))).

Definition fat_allocate : M (St * option Z) Error Z := allocate_loop fat_fuel 2.

Fixpoint release_loop (fuel : nat) (c : Z) : M (St * option Z) Error unit :=
  match fuel with
  | O => mdiverge
  | S fuel =>
      e <- fat_read c ;;
      match e with
      | UsedChained c' => fat_write c FatEntry.Unused ;;; release_loop fuel c'
      | UsedEoc => fat_write c FatEntry.Unused
      | _ => ret tt
      end
  end.

Definition fat_release (c : Z) : M (St * option Z) Error unit := release_loop (S fat_fuel) c.

(** [self.root.fat().method(..)], the temporary dropped after the call. *)
Definition with_fat {A} (m : M (St * option Z) Error A) : M St Error A :=
  scoped None drop_last m.

(** ** [BufferedCluster] *)

(** [Root::cluster]; [None] is the failed [debug_assert!]. *)
Definition new_cluster (c : Z) : option BufferedCluster :=
  s ← cluster_location bs c;
  Some {| bc_cluster := c; bc_first_sector := s; bc_sector_count := cluster_size bs;
          bc_sector_size := BootSector.sector_size bs; bc_last := None |}.

Definition drop_cluster {E} (c : BufferedCluster) : M St E unit := drop_last (bc_last c).

Definition on_last {A} (m : M (St * option Z) Error A) : M (St * BufferedCluster) Error A :=
  fun '(st, c) => let '(o, (st', l)) := m (st, bc_last c) in (o, (st', with_last l c)).

Definition size (c : BufferedCluster) : Z := bc_sector_size c * bc_sector_count c.

Definition bc_sector (index : Z) : M (St * BufferedCluster) Error Z :=
  '(_, c) <- mget ;;
  massert (index <? bc_sector_count c) ;;;
  let s := bc_first_sector c + index in
  on_last (hold s) ;;;
  ret s.

(** The pieces [(sector, i, j)] of a byte range; [None] is the failed
    [debug_assert!]. *)
Definition sector_range (c : BufferedCluster) (start end_ : Z) : option (list (Z * Z * Z)) :=
  if (start <=? end_) && (end_ <=? size c) then
    let ss := start / bc_sector_size c in
    let es := end_ / bc_sector_size c in
    let so := start mod bc_sector_size c in
    let eo := end_ mod bc_sector_size c in
    Some (omap (fun sector =>
      let i := if sector =? ss then so else 0 in
      let j := if sector =? es then eo else bc_sector_size c in
      if i <? j then Some (sector, i, j) else None) (seqZ ss (es - ss + 1)))
  else None.

Fixpoint read_parts (l : list (Z * Z * Z)) : M (St * BufferedCluster) Error (list Z) :=
  match l with
  | [] => ret []
  | (sector, i, j) :: l =>
      s <- bc_sector sector ;;
      part <- mfst (load s i (j - i)) ;;
      rest <- read_parts l ;;
      ret (part ++ rest)
  end.

(** [BufferedCluster::read] of [len] bytes. *)
Definition bc_read (offset len : Z) : M (St * BufferedCluster) Error (list Z) :=
  '(_, c) <- mget ;;
  l <- munwrap (sector_range c offset (offset + len)) ;;
  read_parts l.

Fixpoint write_parts (l : list (Z * Z * Z)) (buf : list Z) : M (St * BufferedCluster) Error unit :=
  match l with
  | [] => ret tt
  | (sector, i, j) :: l =>
      s <- bc_sector sector ;;
      part <- munwrap (slice buf 0 (j - i)) ;;
      mfst (update s i part) ;;;
      write_parts l (drop (Z.to_nat (j - i)) buf)
  end.

Definition bc_write (offset : Z) (buf : list Z) : M (St * BufferedCluster) Error unit :=
  '(_, c) <- mget ;;
  l <- munwrap (sector_range c offset (offset + zlen buf)) ;;
  write_parts l buf.

Definition dir_entries_count (c : BufferedCluster) : Z := size c / SIZE.

Definition read_dir_entry (index : Z) : M (St * BufferedCluster) Error DirEntry :=
  buf <- bc_read (index * SIZE) SIZE ;;
  munwrap (from_bytes buf).

Definition write_dir_entry (index : Z) (e : DirEntry) : M (St * BufferedCluster) Error unit :=
  bc_write (index * SIZE) (into_bytes e).

(** ** [ChainedCluster]: the next cluster of [src] *)

Definition chained_read (src : Z) : M St Error (option Z) :=
  e <- with_fat (fat_read src) ;; ret (chain e).

Definition chained_get (src : Z) : M St Error (option BufferedCluster) :=
  o <- chained_read src ;;
  match o with
  | Some c => c <- munwrap (new_cluster c) ;; ret (Some c)
  | None => ret None
  end.

Definition chained_prepare (src : Z) : M St Error BufferedCluster :=
  o <- chained_read src ;;
  match o with
  | Some c => munwrap (new_cluster c)
  | None =>
      c <- with_fat fat_allocate ;;
      with_fat (fat_write src (UsedChained c)) ;;;
      munwrap (new_cluster c)
  end.

Definition chained_release (src : Z) : M St Error unit :=
  o <- chained_read src ;;
  match o with
  | Some c =>
      with_fat (fat_write src FatEntry.Unused) ;;;
      with_fat (fat_release c)
  | None => ret tt
  end.

(** ** [DirEntries] *)

Definition cursor : Type := option (BufferedCluster * Z).

Definition drop_cursor {E} (c : cursor) : M St E unit :=
  match c with Some (c, _) => drop_cluster c | None => ret tt end.

(** [Root::dir_entries] *)
Definition dir_entries (c : Z) : option cursor :=
  c ← new_cluster c; Some (Some (c, 0)).

(** [DirEntries::next]: the entry with its location, and the new cursor. The
    recursion goes to the next cluster of the chain and happens once. *)
Fixpoint dir_next (fuel : nat) (cur : cursor) : M St Error (option (Z * Z * DirEntry) * cursor) :=
  match fuel, cur with
  | O, _ => mdiverge
  | S _, None => ret (None, None)
  | S fuel, Some (c, n) =>
      if n <? dir_entries_count c then
        '(o, c) <- attempt c (read_dir_entry n) ;;
        match o with
        | None => drop_cluster c ;;; ret (None, None)
        | Some e =>
            if bool_decide (e = UnusedTerminal)
            then drop_cluster c ;;; ret (Some (bc_cluster c, n, e), None)
            else ret (Some (bc_cluster c, n, e), Some (c, n + 1))
        end
      else
        o <- mok (with_fat (fat_read (bc_cluster c))) ;;
        match e ← o; chain e with
        | None => drop_cluster c ;;; ret (None, None)
        | Some c' =>
            c' <- munwrap (new_cluster c') ;;
            r <- dir_next fuel (Some (c', 0)) ;;
            drop_cluster c ;;; ret r
        end
  end.

Definition DIR_FUEL : nat := 2.

End low_level.

(** ** The abstract file allocation table and clusters *)

(** The references of [h], and the one a field [last] owns. *)
Definition own (h : counts) (l : option Z) : counts :=
  match l with Some s => <[s := S (h s)]> h | None => h end.

Section abstraction.
Context (bs : BootSector).

(** The entry of cluster [c] in the first FAT, and the bytes of its sectors. *)
Definition fat_of (σ : disk) (c : Z) : FatEntry :=
  from_u32 (from_le_bytes (sub (σ (fat_sector bs c)) (fat_offset bs c) 4)).

Definition sectors_of (c : Z) : list Z := seqZ (first_sector bs c) (bpb_sec_per_clus bs).

Definition data_of (σ : disk) (c : Z) : list Z := mjoin (σ <$> sectors_of c).

(** The bytes of a cluster. *)
Definition cluster_bytes : Z := bpb_sec_per_clus bs * bpb_byts_per_sec bs.

(** The handle [Root::cluster] makes for [c]. *)
Definition handle_ok (c : BufferedCluster) : Prop :=
  available bs (bc_cluster c) /\ bc_first_sector c = first_sector bs (bc_cluster c) /\
  bc_sector_count c = bpb_sec_per_clus bs /\ bc_sector_size c = bpb_byts_per_sec bs.

End abstraction.

Section fs_rep.
Context {St : Type} `{SectorCacheLaws St n sz} (bs : BootSector).

(** A state of the cache represents a table [F], the contents [D] of the
    clusters, and the references [h]. *)
Definition fs_rep (st : St) (F : Z -> FatEntry) (D : Z -> list Z) (h : counts) : Prop :=
  exists σ, rep st σ h /\
    (forall c, available bs c -> fat_of bs σ c = F c) /\
    (forall c, available bs c -> data_of bs σ c = D c).

End fs_rep.

(** ** Lemmas: references *)

Section own_lemmas.
Context {St : Type} `{SectorCacheLaws St n sz}.
Implicit Types (st : St) (σ : disk) (h : counts).

Lemma own_comm h a b t : own (own h a) b t = own (own h b) a t.
Proof.
  destruct a as [a|], b as [b|]; try done. simpl.
  destruct (decide (a = b)) as [->|Hne]; [done|].
  destruct (decide (a = t)), (decide (b = t)); subst;
    repeat (rewrite fn_lookup_insert || rewrite fn_lookup_insert_ne by congruence); done.
Qed.

Lemma own_held h s : (0 < own h (Some s) s)%nat.
Proof. simpl. rewrite fn_lookup_insert. lia. Qed.

Lemma drop_last_spec {E} st σ h l :
  rep st σ (own h l) -> runs (E := E) (drop_last l) st (fun _ st' => rep st' σ h).
Proof.
  intros Hrep. destruct l as [s|]; [|done]. simpl in *.
  eapply runs_mono; [eapply (drop_law E _ _ _ s (h s) Hrep); by rewrite fn_lookup_insert|].
  intros [] st' Hr. eapply rep_ext; [exact Hr|done|]. intros t.
  destruct (decide (t = s)) as [->|]; [by rewrite fn_lookup_insert|].
  by rewrite !fn_lookup_insert_ne by congruence.
Qed.

(** A computation on the first component of the state. *)
Lemma runs_mfst {T E A} (m : M St E A) st (t : T) Q :
  runs m st Q -> runs (mfst m) (st, t) (fun a s' => s'.2 = t /\ Q a s'.1).
Proof. unfold runs, ends, mfst. simpl. by destruct (m st) as [[] ?]. Qed.

Lemma hold_spec st σ h l s :
  rep st σ (own h l) -> 0 <= s < n ->
  runs (hold s) (st, l) (fun _ s' => s'.2 = Some s /\ rep s'.1 σ (own h (Some s))).
Proof.
  intros Hrep Hs. unfold hold. apply (runs_bind _ _ _ (fun a b => a = (st, l) /\ b = (st, l))); [done|].
  intros ? ? [-> ->]. case_bool_decide as Hl; [by subst|].
  eapply runs_bind; [apply runs_mfst, runs_map_err, (sector_law _ _ _ s Hrep Hs)|].
  intros [] [st1 l1] [Hl1 Hr1]. simpl in Hl1, Hr1. subst l1.
  apply (runs_bind _ _ _ (fun a b => a = (st1, l) /\ b = (st1, l))); [done|]. intros ? ? [-> ->].
  apply (runs_bind _ _ _ (fun _ b => b = (st1, Some s))); [done|]. intros _ ? ->.
  eapply runs_mono; [apply runs_mfst, drop_last_spec|].
  - eapply rep_ext; [exact Hr1|done|]. intros t. apply (own_comm h l (Some s)).
  - cbn beta. tauto.
Qed.

Lemma load_spec {E} st σ h s off k :
  rep st σ h -> (0 < h s)%nat -> 0 <= s < n -> 0 <= off -> 0 <= k -> off + k <= sz ->
  runs (E := E) (load s off k) st (fun w st' => w = sub (σ s) off k /\ rep st' σ h).
Proof.
  intros Hrep Hh Hs Ho Hk Hb. unfold load. eapply runs_bind; [by apply bytes_law|].
  intros b st' [-> Hr]. rewrite slice_Some; [done..|]. by rewrite (rep_length _ _ _ _ Hr Hs).
Qed.

Lemma update_spec {E} st σ h s off src :
  rep st σ h -> (0 < h s)%nat -> 0 <= s < n -> 0 <= off -> off + zlen src <= sz -> bytes_ok src ->
  runs (E := E) (update s off src) st (fun _ st' => rep st' (<[s := upd (σ s) off src]> σ) h).
Proof.
  intros Hrep Hh Hs Ho Hb Hok. unfold update. eapply runs_bind; [by apply bytes_law|].
  intros b st' [-> Hr]. pose proof (rep_length _ _ _ _ Hr Hs) as Hl.
  rewrite splice_Some by lia. apply (runs_bind _ _ _ (fun a b => a = upd (σ s) off src /\ b = st')); [done|].
  intros ? ? [-> ->]. apply set_bytes_law; [done|done| |].
  - rewrite length_upd; lia.
  - apply Forall_upd; [by eapply rep_bytes|done].
Qed.

End own_lemmas.

(** ** Lemmas: the abstract table and clusters under writes *)

Section disk_lemmas.
Context {bs : BootSector} {n : Z} (Hg : geometry bs n).
Implicit Types σ : disk.

Lemma sector_of_elem c t : t ∈ sectors_of bs c -> exists i, t = first_sector bs c + i /\ 0 <= i < bpb_sec_per_clus bs.
Proof. intros Ht%elem_of_seqZ. exists (t - first_sector bs c). lia. Qed.

(** Writing a sector outside a cluster leaves its bytes alone. *)
Lemma data_of_other σ c s b :
  s ∉ sectors_of bs c -> data_of bs (<[s := b]> σ) c = data_of bs σ c.
Proof.
  intros Hs. unfold data_of. f_equal. apply list_fmap_ext. intros i t Ht.
  rewrite fn_lookup_insert_ne; [done|]. intros ->. by apply Hs, list_elem_of_lookup_2 with i.
Qed.

Lemma fat_sector_not_data c c' : available bs c -> available bs c' -> fat_sector bs c ∉ sectors_of bs c'.
Proof.
  intros Hc Hc' (i & Ht & Hi)%sector_of_elem. pose proof (fat_before_data Hg c Hc).
  pose proof (cluster_inside Hg c' i Hc' Hi). lia.
Qed.

Lemma fat_of_write σ c c' v :
  available bs c -> available bs c' -> encodable v ->
  zlen (σ (fat_sector bs c)) = bpb_byts_per_sec bs ->
  fat_of bs (<[fat_sector bs c := upd (σ (fat_sector bs c)) (fat_offset bs c) (to_le_bytes 4 (into_u32 v))]> σ) c'
  = (<[c := v]> (fat_of bs σ) : Z -> FatEntry) c'.
Proof.
  intros Hc Hc' Hv Hl. destruct (fat_entry_inside Hg c Hc) as (_ & Ho & Ho4).
  destruct (fat_entry_inside Hg c' Hc') as (_ & Ho' & Ho4'). unfold fat_of.
  destruct (decide (c = c')) as [<-|Hne].
  - rewrite !fn_lookup_insert. rewrite sub_upd_same_n by (rewrite ?length_to_le_bytes; lia).
    rewrite from_to_le_bytes by (pose proof (into_u32_bound v Hv); simpl; lia). by apply from_into_u32.
  - rewrite (fn_lookup_insert_ne (fat_of bs σ)) by done. unfold fat_of. destruct (decide (fat_sector bs c = fat_sector bs c')) as [He|He].
    + rewrite <- He, fn_lookup_insert. do 2 f_equal.
      apply sub_upd_disjoint; rewrite ?length_to_le_bytes; try lia.
      destruct (fat_entry_disjoint Hg c c' Hne He); lia.
    + by rewrite fn_lookup_insert_ne.
Qed.

Lemma sectors_lookup c (a : nat) :
  Z.of_nat a < bpb_sec_per_clus bs -> sectors_of bs c !! a = Some (first_sector bs c + Z.of_nat a).
Proof. intros Ha. unfold sectors_of. by rewrite lookup_seqZ_lt. Qed.

Lemma sectors_chunks σ c :
  available bs c -> (forall s, 0 <= s < n -> zlen (σ s) = bpb_byts_per_sec bs) ->
  Forall (fun l => zlen l = bpb_byts_per_sec bs) (σ <$> sectors_of bs c).
Proof.
  intros Hc Hl. apply Forall_fmap, Forall_forall. intros s (i & -> & Hi)%sector_of_elem. simpl.
  pose proof (cluster_inside Hg c i Hc Hi). pose proof (data_start_bound (g_valid _ _ Hg)).
  apply Hl. lia.
Qed.

Lemma data_of_length σ c :
  available bs c -> (forall s, 0 <= s < n -> zlen (σ s) = bpb_byts_per_sec bs) ->
  zlen (data_of bs σ c) = cluster_bytes bs.
Proof.
  intros Hc Hl. unfold data_of. rewrite (length_chunks _ _ (sectors_chunks σ c Hc Hl)).
  rewrite length_fmap. unfold sectors_of, cluster_bytes. rewrite length_seqZ.
  pose proof (v_sec_per_clus _ (g_valid _ _ Hg)). lia.
Qed.

Lemma data_of_sub σ c a i k :
  available bs c -> (forall s, 0 <= s < n -> zlen (σ s) = bpb_byts_per_sec bs) ->
  0 <= a < bpb_sec_per_clus bs -> 0 <= i -> 0 <= k -> i + k <= bpb_byts_per_sec bs ->
  sub (σ (first_sector bs c + a)) i k = sub (data_of bs σ c) (a * bpb_byts_per_sec bs + i) k.
Proof.
  intros Hc Hl Ha Hi Hk Hb. unfold data_of. rewrite <- (Z2Nat.id a) at 2 by lia. symmetry.
  apply sub_chunks; try done; [by apply sectors_chunks|].
  rewrite list_lookup_fmap, sectors_lookup by lia. simpl. by rewrite Z2Nat.id by lia.
Qed.

Lemma data_of_upd σ c c' a i src :
  available bs c -> available bs c' -> (forall s, 0 <= s < n -> zlen (σ s) = bpb_byts_per_sec bs) ->
  0 <= a < bpb_sec_per_clus bs -> 0 <= i -> i + zlen src <= bpb_byts_per_sec bs ->
  data_of bs (<[first_sector bs c + a := upd (σ (first_sector bs c + a)) i src]> σ) c' =
  (<[c := upd (data_of bs σ c) (a * bpb_byts_per_sec bs + i) src]> (data_of bs σ) : Z -> list Z) c'.
Proof.
  intros Hc Hc' Hl Ha Hi Hb. destruct (decide (c = c')) as [<-|Hne].
  - rewrite fn_lookup_insert. unfold data_of. rewrite <- (Z2Nat.id a) at 3 by lia.
    rewrite <- (upd_chunks _ _ _ (σ (first_sector bs c + a))); try done.
    + f_equal. apply list_eq. intros j. rewrite list_lookup_fmap.
      destruct (decide (Z.to_nat a = j)) as [<-|Hj].
      * rewrite list_lookup_insert_eq by (rewrite length_fmap; unfold sectors_of; rewrite length_seqZ; lia).
        rewrite sectors_lookup by lia. simpl. by rewrite Z2Nat.id, fn_lookup_insert by lia.
      * rewrite list_lookup_insert_ne, list_lookup_fmap by done.
        destruct (sectors_of bs c !! j) as [t|] eqn:Ht; [|done]. simpl.
        apply lookup_seqZ in Ht as [-> ?]. rewrite fn_lookup_insert_ne by lia. done.
    + by apply sectors_chunks.
    + rewrite list_lookup_fmap, sectors_lookup by lia. simpl. by rewrite Z2Nat.id by lia.
  - rewrite fn_lookup_insert_ne by done. apply data_of_other.
    intros (i' & He & Hi')%sector_of_elem. apply cluster_disjoint in He; [tauto|lia|lia].
Qed.

Lemma fat_of_data_write σ c c' a b :
  available bs c -> available bs c' -> 0 <= a < bpb_sec_per_clus bs ->
  fat_of bs (<[first_sector bs c + a := b]> σ) c' = fat_of bs σ c'.
Proof.
  intros Hc Hc' Ha. unfold fat_of. rewrite fn_lookup_insert_ne; [done|].
  pose proof (fat_before_data Hg c' Hc'). pose proof (cluster_inside Hg c a Hc Ha). lia.
Qed.

End disk_lemmas.

(** *** Directories *)

(** The slots of a list of clusters, in order, and the entries an iteration
    sees: up to the first terminal one. *)
Definition slots (bs : BootSector) (cs : list Z) : list (Z * Z) :=
  k ← cs; (fun i => (k, i)) <$> seqZ 0 (cluster_bytes bs / 32).

Definition entry_at (D : Z -> list Z) (k i : Z) : DirEntry :=
  default DirEntry.Unused (from_bytes (sub (D k) (i * SIZE) SIZE)).

Fixpoint walk (D : Z -> list Z) (l : list (Z * Z)) : list (Z * Z * DirEntry) :=
  match l with
  | [] => []
  | (k, i) :: l =>
      let e := entry_at D k i in
      (k, i, e) :: if bool_decide (e = UnusedTerminal) then [] else walk D l
  end.

(** ** Chains *)

Section chains.
Context (bs : BootSector).
Implicit Types (F : Z -> FatEntry) (c : Z) (l : list Z).

(** The clusters of a file from [c] on, up to its end-of-chain mark. *)
Inductive is_chain F : Z -> list Z -> Prop :=
| chain_end c : available bs c -> F c = UsedEoc -> is_chain F c [c]
| chain_next c c' l :
    available bs c -> F c = UsedChained c' -> is_chain F c' l -> is_chain F c (c :: l).

(** Every link of the table leads to a cluster of the volume. *)
Definition closed F : Prop := forall c c', available bs c -> F c = UsedChained c' -> available bs c'.

Definition free_all F l : Z -> FatEntry := fun c => if decide (c ∈ l) then FatEntry.Unused else F c.

(** The used clusters among the first [k] ones. *)
Fixpoint used_count F (k : nat) : nat :=
  match k with
  | O => 0
  | S k => (if decide (F (2 + Z.of_nat k)%Z = FatEntry.Unused) then 0 else 1) + used_count F k
  end%nat.

End chains.

Section chain_lemmas.
Context {bs : BootSector}.
Implicit Types (F : Z -> FatEntry) (c : Z) (l : list Z).

Lemma is_chain_fun F c l l' : is_chain bs F c l -> is_chain bs F c l' -> l = l'.
Proof.
  intros H1. revert l'. induction H1 as [c Ha Hc|c c' l Ha Hc H1 IH]; intros l' H2; inversion H2; subst.
  - done.
  - congruence.
  - congruence.
  - f_equal. apply IH. congruence.
Qed.

Lemma is_chain_suffix F c l x :
  is_chain bs F c l -> x ∈ l -> exists l1 l2, l = l1 ++ l2 /\ is_chain bs F x l2.
Proof.
  induction 1 as [c Ha Hc|c c' l Ha Hc H1 IH]; intros Hx.
  - apply list_elem_of_singleton in Hx as ->. exists [], [c]. split; [done|]. by constructor.
  - apply elem_of_cons in Hx as [->|Hx].
    + exists [], (c :: l). split; [done|]. by econstructor.
    + destruct (IH Hx) as (l1 & l2 & -> & Hl2). by exists (c :: l1), l2.
Qed.

Lemma is_chain_NoDup F c l : is_chain bs F c l -> NoDup l.
Proof.
  induction 1 as [c Ha Hc|c c' l Ha Hc H1 IH]; [apply NoDup_singleton|].
  apply NoDup_cons. split; [|done]. intros Hin.
  destruct (is_chain_suffix _ _ _ _ H1 Hin) as (l1 & l2 & -> & Hl2).
  pose proof (is_chain_fun _ _ _ _ Hl2 (chain_next _ _ _ _ _ Ha Hc H1)) as He.
  apply (f_equal length) in He. len.
Qed.

Lemma is_chain_available F c l : is_chain bs F c l -> Forall (available bs) l.
Proof. induction 1; apply Forall_cons_2; auto using Forall_nil_2. Qed.

Lemma is_chain_head F c l : is_chain bs F c l -> exists l', l = c :: l'.
Proof. destruct 1; eauto. Qed.

(** A chain depends on its own entries only. *)
Lemma is_chain_ext F F' c l :
  is_chain bs F c l -> (forall x, x ∈ l -> F' x = F x) -> is_chain bs F' c l.
Proof.
  induction 1 as [c Ha Hc|c c' l Ha Hc H1 IH]; intros He.
  - constructor; [done|]. rewrite He; [done|]. by apply list_elem_of_singleton.
  - econstructor; [done| |].
    + rewrite He; [done|]. by left.
    + apply IH. intros x Hx. apply He. by right.
Qed.

(** Two chains that share a cluster share their ends. *)
Lemma is_chain_length F c l : is_chain bs F c l -> zlen l <= clusters bs.
Proof.
  intros Hl. pose proof (is_chain_NoDup _ _ _ Hl) as Hnd. pose proof (is_chain_available _ _ _ Hl) as Ha.
  assert (Hc : 0 < clusters bs).
  { destruct (is_chain_head _ _ _ Hl) as [l' ->]. apply Forall_cons in Ha as [Ha _]. unfold available in Ha. lia. }
  assert (Hs : l ⊆+ seqZ 2 (clusters bs)).
  { apply NoDup_submseteq; [done|]. intros x Hx. apply elem_of_seqZ.
    apply (proj1 (Forall_forall _ _) Ha) in Hx. unfold available in Hx. lia. }
  apply submseteq_length in Hs. rewrite length_seqZ in Hs. lia.
Qed.

Lemma used_count_le F k : (used_count F k <= k)%nat.
Proof. induction k; simpl; [done|]. case_decide; lia. Qed.

Lemma used_count_free F c k :
  2 <= c < 2 + Z.of_nat k -> F c <> FatEntry.Unused ->
  used_count F k = S (used_count (<[c := FatEntry.Unused]> F) k).
Proof.
  induction k as [|k IH]; intros Hc Hu; [lia|]. simpl.
  destruct (decide (c = 2 + Z.of_nat k)) as [->|Hne].
  - rewrite fn_lookup_insert, decide_False, decide_True by done. simpl. f_equal.
    assert (Hx : forall j, (j <= k)%nat ->
      used_count F j = used_count (<[2 + Z.of_nat k := FatEntry.Unused]> F) j); [|by apply Hx].
    induction j as [|j IHj]; intros Hj; [done|]. simpl. rewrite fn_lookup_insert_ne by lia.
    rewrite IHj by lia. done.
  - rewrite IH by (done || lia). rewrite fn_lookup_insert_ne by done. lia.
Qed.

End chain_lemmas.

(** ** Lemmas: the FAT *)

Section fat_specs.
Context {St : Type} `{SectorCacheLaws St n sz} {bs : BootSector}
  (Hg : geometry bs n) (Hsz : sz = bpb_byts_per_sec bs).
Implicit Types (st : St) (F : Z -> FatEntry) (D : Z -> list Z) (h : counts) (l : option Z).

Abbreviation fs st := (fs_rep bs (St := St) (n := n) (sz := sz) st).

Lemma fs_rep_ext st F D h F' D' h' :
  fs st F D h -> (forall c, available bs c -> F c = F' c) ->
  (forall c, available bs c -> D c = D' c) -> (forall s, h s = h' s) -> fs st F' D' h'.
Proof.
  intros (σ & Hr & HF & HD) HF' HD' Hh. exists σ. split_and!.
  - by eapply rep_ext.
  - intros c Hc. rewrite HF by done. auto.
  - intros c Hc. rewrite HD by done. auto.
Qed.

Lemma fs_rep_encodable st F D h c : fs st F D h -> available bs c -> encodable (F c).
Proof. intros (σ & _ & HF & _) Hc. rewrite <- HF by done. apply from_u32_encodable. Qed.

Lemma fs_rep_length st F D h c : fs st F D h -> available bs c -> zlen (D c) = cluster_bytes bs.
Proof.
  intros (σ & Hr & _ & HD) Hc. rewrite <- HD by done. apply (data_of_length Hg); [done|].
  intros s Hs. rewrite <- Hsz. by eapply rep_length.
Qed.

Lemma fs_rep_bytes st F D h c : fs st F D h -> available bs c -> bytes_ok (D c).
Proof.
  intros (σ & Hr & _ & HD) Hc. rewrite <- HD by done. unfold data_of.
  apply Forall_forall. intros b Hb. apply list_elem_of_join in Hb as (x & Hb & Hx).
  apply list_elem_of_fmap in Hx as (s & -> & (i & -> & Hi)%sector_of_elem).
  pose proof (cluster_inside Hg c i Hc Hi). pose proof (data_start_bound (g_valid _ _ Hg)).
  eapply (proj1 (Forall_forall _ _)); [|exact Hb]. eapply rep_bytes; [exact Hr|lia].
Qed.

(** Finding the sector of an entry. *)
Lemma entry_spec st F D h l c :
  fs st F D (own h l) -> available bs c ->
  runs (entry bs c) (st, l) (fun r s' =>
    r = (fat_sector bs c, fat_offset bs c) /\ s'.2 = Some (fat_sector bs c) /\ fs s'.1 F D (own h s'.2)).
Proof.
  intros (σ & Hr & HF & HD) Hc. unfold entry. rewrite (fat_entry_location_spec Hg) by done.
  apply (runs_bind _ _ _ (fun a b => a = (fat_sector bs c, fat_offset bs c) /\ b = (st, l))); [done|].
  intros ? ? [-> ->]. pose proof (fat_before_data Hg c Hc).
  eapply runs_bind; [apply (hold_spec _ _ _ _ _ Hr); lia|].
  intros [] [st' l'] [Hl Hr']. simpl in *. subst l'. apply ends_ret. split_and!; [done..|].
  by exists σ.
Qed.

Lemma fat_read_spec st F D h l c :
  fs st F D (own h l) -> available bs c ->
  runs (fat_read bs c) (st, l) (fun e s' => e = F c /\ fs s'.1 F D (own h s'.2)).
Proof.
  intros Hf Hc. unfold fat_read. eapply runs_bind; [by apply entry_spec|].
  intros ? [st' l'] (-> & Hl & (σ & Hr & HF & HD)). simpl in *. subst l'.
  destruct (fat_entry_inside Hg c Hc) as (_ & Ho & Ho4). pose proof (fat_before_data Hg c Hc).
  eapply runs_bind; [apply runs_mfst, (load_spec _ _ _ _ (fat_offset bs c) 4 Hr); [apply own_held|lia..]|].
  intros w [st2 l2] [Hl2 [-> Hr2]]. simpl in *. subst l2. apply ends_ret. split; [by apply HF|].
  by exists σ.
Qed.

Lemma fat_write_spec st F D h l c v :
  fs st F D (own h l) -> available bs c -> encodable v ->
  runs (fat_write bs c v) (st, l) (fun _ s' => fs s'.1 (<[c := v]> F) D (own h s'.2)).
Proof.
  intros Hf Hc Hv. unfold fat_write. eapply runs_bind; [by apply entry_spec|].
  intros ? [st' l'] (-> & Hl & (σ & Hr & HF & HD)). simpl in *. subst l'.
  destruct (fat_entry_inside Hg c Hc) as (_ & Ho & Ho4). pose proof (fat_before_data Hg c Hc) as Hb.
  assert (Hlen : zlen (σ (fat_sector bs c)) = bpb_byts_per_sec bs).
  { rewrite <- Hsz. eapply rep_length; [exact Hr|lia]. }
  eapply runs_mono; [apply runs_mfst, (update_spec _ _ _ _ (fat_offset bs c)
    (to_le_bytes 4 (into_u32 v)) Hr); [apply own_held|lia|lia|rewrite length_to_le_bytes; lia|apply to_le_bytes_ok]|].
  intros [] [st2 l2] [Hl2 Hr2]. cbn [fst snd] in *. subst l2. eexists. split; [exact Hr2|]. split.
  - intros c' Hc'. rewrite (fat_of_write Hg) by done.
    destruct (decide (c = c')) as [<-|]; [by rewrite !fn_lookup_insert|].
    rewrite !fn_lookup_insert_ne by done. by apply HF.
  - intros c' Hc'. rewrite data_of_other; [by apply HD|]. by apply (fat_sector_not_data Hg).
Qed.

(** The temporary [BufferedFat] of a call gives its reference back. *)
Lemma with_fat_ends {A} (m : M (St * option Z) Error A) st h (Q : A -> _ -> _ -> Prop) (R : Error -> _ -> _ -> Prop) :
  ends m (st, None)
    (fun a s' => exists F' D', fs s'.1 F' D' (own h s'.2) /\ Q a F' D')
    (fun e s' => exists F' D', fs s'.1 F' D' (own h s'.2) /\ R e F' D') ->
  ends (with_fat m) st
    (fun a st' => exists F' D', fs st' F' D' h /\ Q a F' D')
    (fun e st' => exists F' D', fs st' F' D' h /\ R e F' D').
Proof.
  unfold with_fat, scoped, ends, held, mbnd.
  destruct (m (st, None)) as [[a|e| |] [st' l']]; simpl; try done.
  - intros (F' & D' & (σ & Hr & HF & HD) & HQ).
    destruct (proj1 (runs_Ok _ _ _) (drop_last_spec (E := Error) _ _ _ _ Hr)) as ([] & st2 & Hd & Hr2).
    rewrite Hd. simpl. exists F', D'. split; [by exists σ|done].
  - intros (F' & D' & (σ & Hr & HF & HD) & HQ).
    destruct (proj1 (runs_Ok _ _ _) (drop_last_spec (E := Error) _ _ _ _ Hr)) as ([] & st2 & Hd & Hr2).
    rewrite Hd. simpl. exists F', D'. split; [by exists σ|done].
Qed.

Lemma with_fat_runs {A} (m : M (St * option Z) Error A) st h (Q : A -> _ -> _ -> Prop) :
  runs m (st, None) (fun a s' => exists F' D', fs s'.1 F' D' (own h s'.2) /\ Q a F' D') ->
  runs (with_fat m) st (fun a st' => exists F' D', fs st' F' D' h /\ Q a F' D').
Proof.
  intros Hm. unfold runs in *. eapply ends_mono; [apply (with_fat_ends m st h Q (fun _ _ _ => False))|done|].
  - eapply ends_mono; [exact Hm|done|done].
  - naive_solver.
Qed.

Lemma with_fat_read st F D h c :
  fs st F D h -> available bs c ->
  runs (with_fat (fat_read bs c)) st (fun e st' => e = F c /\ fs st' F D h).
Proof.
  intros Hf Hc. eapply runs_mono; [apply (with_fat_runs _ _ h (fun e F' D' => e = F c /\ F' = F /\ D' = D))|].
  - eapply runs_mono; [by apply (fat_read_spec st F D h None)|]. cbn beta. intros e s' [-> ?]. eauto 10.
  - intros e st' (F' & D' & ? & -> & -> & ->). done.
Qed.

Lemma with_fat_write st F D h c v :
  fs st F D h -> available bs c -> encodable v ->
  runs (with_fat (fat_write bs c v)) st (fun _ st' => fs st' (<[c := v]> F) D h).
Proof.
  intros Hf Hc Hv. eapply runs_mono; [apply (with_fat_runs _ _ h (fun _ F' D' => F' = <[c := v]> F /\ D' = D))|].
  - eapply runs_mono; [by apply (fat_write_spec st F D h None)|].
    intros [] s' ?. by exists (<[c := v]> F), D.
  - intros [] st' (F' & D' & ? & -> & ->). done.
Qed.

(** ** Lemmas: allocation *)

Lemma fat_entries_next_spec st F D h l c :
  fs st F D (own h l) ->
  runs (fat_entries_next bs c) (st, l) (fun o s' =>
    o = (if decide (available bs c) then Some (F c) else None) /\ fs s'.1 F D (own h s'.2)).
Proof.
  intros Hf. unfold fat_entries_next. rewrite (is_cluster_available_spec Hg).
  apply (runs_bind _ _ _ (fun a b => a = bool_decide (available bs c) /\ b = (st, l))); [done|].
  intros ? ? [-> ->]. case_bool_decide as Hc.
  - apply runs_mok. rewrite decide_True by done. eapply runs_mono; [by apply fat_read_spec|].
    intros e s' [-> ?]. done.
  - rewrite decide_False by done. by apply ends_ret.
Qed.

Lemma allocate_loop_spec fuel st F D h l c :
  fs st F D (own h l) -> 2 <= c -> Z.max 0 (clusters bs + 2 - c) < Z.of_nat fuel ->
  ends (allocate_loop bs fuel c) (st, l)
    (fun r s' => fs s'.1 (<[r := UsedEoc]> F) D (own h s'.2) /\ available bs r /\ c <= r /\
      F r = FatEntry.Unused /\ forall c', c <= c' < r -> F c' <> FatEntry.Unused)
    (fun e s' => e = Full /\ fs s'.1 F D (own h s'.2) /\
      forall c', c <= c' -> available bs c' -> F c' <> FatEntry.Unused).
Proof.
  revert st l c. induction fuel as [|fuel IH]; intros st l c Hf Hc Hfuel.
  { lia. }
  simpl. eapply runs_ends_bind; [by apply fat_entries_next_spec|].
  intros o [st1 l1] [-> Hf1]. cbn [fst snd] in *. case_decide as Ha.
  - case_bool_decide as Hu.
    + eapply runs_ends_bind; [by apply fat_write_spec|]. intros [] [st2 l2] Hf2. cbn [fst snd] in *.
      apply ends_ret. split_and!; try done; lia.
    + eapply ends_mono; [apply (IH st1 l1 (c + 1)); [done|lia|unfold available in Ha; lia]| |].
      * intros r s' (? & ? & ? & ? & Hmin). split_and!; try done; [lia|]. intros c' Hc'.
        destruct (decide (c' = c)) as [->|]; [done|]. apply Hmin. lia.
      * intros e s' (? & ? & Hmin). split_and!; try done. intros c' Hc' Ha'.
        destruct (decide (c' = c)) as [->|]; [done|]. apply Hmin; [lia|done].
  - apply ends_fail. split_and!; try done. intros c' Hc' Ha'. unfold available in *. lia.
Qed.

(** What an allocation does to the table. *)
Definition allocated F c : Prop :=
  available bs c /\ F c = FatEntry.Unused /\
  forall c', available bs c' -> c' < c -> F c' <> FatEntry.Unused.

Lemma fat_allocate_spec st F D h l :
  fs st F D (own h l) ->
  ends (fat_allocate bs) (st, l)
    (fun r s' => fs s'.1 (<[r := UsedEoc]> F) D (own h s'.2) /\ allocated F r)
    (fun e s' => e = Full /\ fs s'.1 F D (own h s'.2) /\
      forall c', available bs c' -> F c' <> FatEntry.Unused).
Proof.
  intros Hf. unfold fat_allocate. destruct (cluster_count_valid (g_valid _ _ Hg) (g_data _ _ Hg)) as [Hc Hb].
  eapply ends_mono; [apply (allocate_loop_spec (fat_fuel bs) st F D h l 2); [done|lia|]| |].
  - unfold fat_fuel. rewrite Hc. simpl. lia.
  - intros r s' (? & ? & _ & ? & Hmin). split; [done|]. split_and!; try done.
    intros c' Ha Hlt. apply Hmin. unfold available in Ha. lia.
  - intros e s' (? & ? & Hmin). split_and!; try done. intros c' Ha. apply Hmin; [|done].
    unfold available in Ha. lia.
Qed.

Lemma with_fat_allocate st F D h :
  fs st F D h ->
  ends (with_fat (fat_allocate bs)) st
    (fun r st' => fs st' (<[r := UsedEoc]> F) D h /\ allocated F r)
    (fun e st' => e = Full /\ fs st' F D h /\ forall c', available bs c' -> F c' <> FatEntry.Unused).
Proof.
  intros Hf. eapply ends_mono; [apply (with_fat_ends _ _ h
    (fun r F' D' => F' = <[r := UsedEoc]> F /\ D' = D /\ allocated F r)
    (fun e F' D' => F' = F /\ D' = D /\ e = Full /\ forall c', available bs c' -> F c' <> FatEntry.Unused))| |].
  - eapply ends_mono; [apply (fat_allocate_spec st F D h None Hf)| |]; cbn beta.
    + intros r s' [? ?]. by exists (<[r := UsedEoc]> F), D.
    + intros e s' (? & ? & ?). by exists F, D.
  - intros r st' (F' & D' & ? & -> & -> & ?). done.
  - intros e st' (F' & D' & ? & -> & -> & ? & ?). done.
Qed.

(** ** Lemmas: release *)

(** Following the links and freeing: each step frees a used entry, so that it
    ends even on a cyclic table. *)
Lemma release_loop_total fuel st F D h l c :
  fs st F D (own h l) -> closed bs F -> available bs c ->
  (used_count F (Z.to_nat (clusters bs)) < fuel)%nat ->
  runs (release_loop bs fuel c) (st, l) (fun _ s' => exists F', fs s'.1 F' D (own h s'.2) /\
    forall x, F' x = F x \/ F' x = FatEntry.Unused).
Proof.
  revert st F l c. induction fuel as [|fuel IH]; intros st F l c Hf Hcl Hc Hfuel; [lia|].
  simpl. eapply runs_bind; [by apply fat_read_spec|]. intros e [st1 l1] [-> Hf1]. cbn [fst snd] in *.
  assert (Hin : 2 <= c < 2 + Z.of_nat (Z.to_nat (clusters bs))) by (unfold available in Hc; lia).
  destruct (F c) as [| |c'| |] eqn:HFc; try (apply ends_ret; exists F; by auto).
  - eapply runs_bind; [by apply fat_write_spec|]. intros [] [st2 l2] Hf2. cbn [fst snd] in *.
    rewrite (used_count_free F c) in Hfuel by (done || congruence).
    eapply runs_mono; [apply (IH st2 (<[c := FatEntry.Unused]> F) l2 c'); [done| |by eapply Hcl|lia]|].
    + intros x x' Hx. destruct (decide (c = x)) as [<-|]; [by rewrite fn_lookup_insert|].
      rewrite fn_lookup_insert_ne by done. by apply Hcl.
    + intros [] s' (F' & Hf' & HF'). exists F'. split; [done|]. intros x.
      destruct (HF' x) as [Hx|Hx]; [|by right]. rewrite Hx.
      destruct (decide (c = x)) as [<-|]; [right; by rewrite fn_lookup_insert|].
      left. by rewrite fn_lookup_insert_ne.
  - eapply runs_mono; [by apply fat_write_spec|]. intros [] s' Hf'. eexists. split; [exact Hf'|].
    intros x. destruct (decide (c = x)) as [<-|]; [right; by rewrite fn_lookup_insert|].
    left. by rewrite fn_lookup_insert_ne.
Qed.

(** On a chain, exactly its clusters are freed. *)
Lemma release_loop_chain fuel st F D h l c cs :
  fs st F D (own h l) -> is_chain bs F c cs -> (length cs <= fuel)%nat ->
  runs (release_loop bs fuel c) (st, l) (fun _ s' => fs s'.1 (free_all F cs) D (own h s'.2)).
Proof.
  revert st F l c cs. induction fuel as [|fuel IH]; intros st F l c cs Hf Hch Hfuel.
  { destruct (is_chain_head _ _ _ Hch) as [? ->]. simpl in Hfuel. lia. }
  pose proof (is_chain_NoDup _ _ _ Hch) as Hnd. simpl. destruct Hch as [c Ha Hc|c c' cs' Ha Hc Hch'].
  - eapply runs_bind; [by apply fat_read_spec|]. intros e [st1 l1] [-> Hf1]. rewrite Hc.
    eapply runs_mono; [by apply fat_write_spec|]. intros [] s' Hf'. eapply fs_rep_ext; [exact Hf'| |done|done].
    intros x Hx. unfold free_all. destruct (decide (c = x)) as [<-|Hne].
    + rewrite fn_lookup_insert, decide_True; [done|]. by left.
    + rewrite fn_lookup_insert_ne, decide_False; [done| |done]. intros [->|Hin%not_elem_of_nil]%elem_of_cons; done.
  - eapply runs_bind; [by apply fat_read_spec|]. intros e [st1 l1] [-> Hf1]. rewrite Hc.
    eapply runs_bind; [by apply fat_write_spec|]. intros [] [st2 l2] Hf2. cbn [fst snd] in *.
    apply NoDup_cons in Hnd as [Hnot Hnd].
    eapply runs_mono; [apply (IH st2 _ l2 c' cs' Hf2); [|simpl in Hfuel; lia]|].
    + eapply is_chain_ext; [exact Hch'|]. intros x Hx. rewrite fn_lookup_insert_ne; [done|]. by intros ->.
    + intros [] s' Hf'. eapply fs_rep_ext; [exact Hf'| |done|done]. intros x Hx. unfold free_all.
      destruct (decide (x ∈ cs')) as [Hin|Hin]; [rewrite decide_True; [done|by right]|].
      destruct (decide (c = x)) as [<-|Hne].
      * rewrite fn_lookup_insert, decide_True; [done|]. by left.
      * rewrite fn_lookup_insert_ne, decide_False; [done| |done]. intros [->|]%elem_of_cons; done.
Qed.

Lemma release_fuel : (Z.to_nat (clusters bs) < S (fat_fuel bs))%nat.
Proof.
  destruct (cluster_count_valid (g_valid _ _ Hg) (g_data _ _ Hg)) as [Hc Hb].
  unfold fat_fuel. rewrite Hc. simpl. lia.
Qed.

Lemma with_fat_release st F D h c cs :
  fs st F D h -> is_chain bs F c cs ->
  runs (with_fat (fat_release bs c)) st (fun _ st' => fs st' (free_all F cs) D h).
Proof.
  intros Hf Hch. eapply runs_mono; [apply (with_fat_runs _ _ h (fun _ F' D' => F' = free_all F cs /\ D' = D))|].
  - eapply runs_mono; [apply (release_loop_chain _ st F D h None c cs Hf Hch)|].
    + pose proof release_fuel. pose proof (is_chain_length _ _ _ Hch). lia.
    + intros [] s' ?. by exists (free_all F cs), D.
  - intros [] st' (F' & D' & ? & -> & ->). done.
Qed.

Lemma with_fat_release_total st F D h c :
  fs st F D h -> closed bs F -> available bs c ->
  runs (with_fat (fat_release bs c)) st (fun _ st' => exists F', fs st' F' D h /\
    forall x, F' x = F x \/ F' x = FatEntry.Unused).
Proof.
  intros Hf Hcl Hc. eapply runs_mono; [apply (with_fat_runs _ _ h (fun _ F' D' => D' = D /\
    forall x, F' x = F x \/ F' x = FatEntry.Unused))|].
  - eapply runs_mono; [apply (release_loop_total _ st F D h None c Hf Hcl Hc)|].
    + pose proof release_fuel. pose proof (used_count_le F (Z.to_nat (clusters bs))). lia.
    + intros [] s' (F' & ? & ?). by exists F', D.
  - intros [] st' (F' & D' & ? & -> & ?). by exists F'.
Qed.

End fat_specs.

(** ** Lemmas: clusters *)

Section cluster_specs.
Context {St : Type} `{SectorCacheLaws St n sz} {bs : BootSector}
  (Hg : geometry bs n) (Hsz : sz = bpb_byts_per_sec bs).
Implicit Types (st : St) (F : Z -> FatEntry) (D : Z -> list Z) (h : counts) (c : BufferedCluster).

Abbreviation fs st := (fs_rep bs (St := St) (n := n) (sz := sz) st).

(** The same handle up to the sector it holds. *)
Definition same_handle c c' : Prop := c' = with_last (bc_last c') c.

Lemma same_handle_ok c c' : same_handle c c' -> handle_ok bs c -> handle_ok bs c' /\ bc_cluster c' = bc_cluster c.
Proof. intros Hs Hc. by rewrite Hs. Qed.

Lemma same_handle_trans c1 c2 c3 : same_handle c1 c2 -> same_handle c2 c3 -> same_handle c1 c3.
Proof. destruct c1, c2, c3. unfold same_handle, with_last. cbn. congruence. Qed.

Lemma new_cluster_spec k :
  available bs k -> exists c, new_cluster bs k = Some c /\ handle_ok bs c /\ bc_cluster c = k /\ bc_last c = None.
Proof.
  intros Hk. unfold new_cluster. rewrite (cluster_location_spec Hg) by done. simpl. by eexists.
Qed.

Lemma size_ok c : handle_ok bs c -> size c = cluster_bytes bs.
Proof. intros (_ & _ & Hc & Hs). unfold size, cluster_bytes. rewrite Hc, Hs. lia. Qed.

Lemma bc_sector_spec st σ h c i :
  rep st σ (own h (bc_last c)) -> handle_ok bs c -> 0 <= i < bpb_sec_per_clus bs ->
  runs (bc_sector i) (st, c) (fun s s' => s = first_sector bs (bc_cluster c) + i /\
    rep s'.1 σ (own h (Some s)) /\ s'.2 = with_last (Some s) c).
Proof.
  intros Hr (Ha & Hf & Hc & Hs) Hi. unfold bc_sector.
  apply (runs_bind _ _ _ (fun a b => a = (st, c) /\ b = (st, c))); [done|]. intros ? ? [-> ->].
  apply (runs_bind _ _ _ (fun _ b => b = (st, c))).
  { rewrite Hc. unfold massert. by rewrite (proj2 (Z.ltb_lt _ _)) by lia. }
  intros [] ? ->. rewrite Hf. set (s := first_sector bs (bc_cluster c) + i).
  pose proof (cluster_inside Hg _ i Ha Hi). pose proof (data_start_bound (g_valid _ _ Hg)).
  destruct (proj1 (runs_Ok _ _ _) (hold_spec _ _ _ _ s Hr ltac:(lia))) as ([] & [st' l'] & Hh & Hl & Hr').
  simpl in Hl, Hr'. subst l'. apply runs_Ok. exists s, (st', with_last (Some s) c).
  split; [|by simpl]. unfold mbnd, on_last. by rewrite Hh.
Qed.

Section pieces.
Context (c : BufferedCluster) (Hc : handle_ok bs c) (ss so es eo : Z).
Let S := bpb_byts_per_sec bs.
Context (Hso : 0 <= so < S) (Heo : 0 <= eo < S) (Hss : 0 <= ss) (Hord : ss * S + so <= es * S + eo)
  (Hend : es * S + eo <= cluster_bytes bs).

Let piece (sector : Z) : option (Z * Z * Z) :=
  let i := if sector =? ss then so else 0 in
  let j := if sector =? es then eo else bc_sector_size c in
  if i <? j then Some (sector, i, j) else None.

(** Where the pieces from sector [a] on start. *)
Let from (a : Z) : Z := if a =? ss then ss * S + so else a * S.

Lemma piece_cases a :
  ss <= a <= es ->
  (exists i j, piece a = Some (a, i, j) /\ 0 <= i < j /\ j <= S /\ from a = a * S + i /\ a < bpb_sec_per_clus bs /\
    (a = es /\ j = eo \/ a < es /\ j = S)) \/
  (piece a = None /\ a = es /\ es * S + eo <= from a).
Proof.
  intros Ha. destruct Hc as (_ & _ & _ & Hsize). unfold piece, from. rewrite Hsize. fold S.
  unfold cluster_bytes in Hend. fold S in Hend.
  destruct (Z.eqb_spec a ss), (Z.eqb_spec a es); subst;
    case_cmp; try lia; try (right; split_and!; [done|done|lia]);
    left; eexists _, _; (split; [done|]); split_and!; try lia; nia.
Qed.

Lemma read_parts_spec k a st F D h l :
  fs st F D (own h l) -> es + 1 = a + Z.of_nat k -> ss <= a ->
  runs (read_parts (omap piece (seqZ a (Z.of_nat k)))) (st, with_last l c) (fun w s' =>
    w = sub (D (bc_cluster c)) (from a) (es * S + eo - from a) /\
    fs s'.1 F D (own h (bc_last s'.2)) /\ same_handle c s'.2).
Proof.
  revert a st l. induction k as [|k IH]; intros a st l Hf Hk Ha.
  - simpl. apply ends_ret. simpl. split_and!; [|done|done]. unfold sub.
    replace (Z.to_nat (es * S + eo - from a)) with 0%nat; [done|]. unfold from. case_cmp; nia.
  - rewrite seqZ_cons by lia. replace (Z.pred (Z.of_nat (Datatypes.S k))) with (Z.of_nat k) by lia. cbn [omap list_omap].
    destruct (piece_cases a ltac:(lia)) as [(i & j & -> & Hij & HjS & Hp & Hcnt & Hcase)|(-> & -> & Hp)].
    + destruct Hf as (σ & Hr & HF & HD). destruct Hc as (Hav & _).
      cbn [read_parts]. eapply runs_bind; [apply (bc_sector_spec st σ h (with_last l c) a); [done|done|lia]|].
      intros s [st1 c1] (-> & Hr1 & Hc1). cbn [fst snd bc_cluster with_last] in *. subst c1.
      assert (Hlen : forall s, 0 <= s < n -> zlen (σ s) = bpb_byts_per_sec bs).
      { intros s Hs. rewrite <- Hsz. by eapply rep_length. }
      pose proof (cluster_inside Hg _ a Hav ltac:(lia)). pose proof (data_start_bound (g_valid _ _ Hg)).
      eapply runs_bind; [apply runs_mfst, (load_spec _ _ _ _ i (j - i) Hr1); [apply own_held|lia..]|].
      intros w [st2 c2] [Hc2 [-> Hr2]]. cbn [fst snd] in *. subst c2.
      eapply runs_bind; [apply (IH (Z.succ a) st2 (Some (first_sector bs (bc_cluster c) + a))); [by exists σ|lia|lia]|].
      intros w [st3 c3] (-> & Hf3 & Hc3). apply ends_ret. split_and!; [|done|done].
      rewrite (data_of_sub Hg) by (done || lia). fold S. rewrite HD, <- Hp by done.
      assert (Hf1 : from (Z.succ a) = (a + 1) * S) by (unfold from; case_cmp; lia). rewrite Hf1.
      destruct Hcase as [[-> ->]|[Hlt ->]].
      * unfold sub at 2. replace (Z.to_nat (es * S + eo - (es + 1) * S)) with 0%nat by nia.
        simpl. rewrite app_nil_r. f_equal. lia.
      * replace ((a + 1) * S) with (from a + (S - i)) by lia. rewrite sub_sub_app by nia. f_equal. lia.
    + simpl. eapply runs_mono; [apply (IH (Z.succ es) st l Hf); lia|].
      intros w s' (-> & ? & ?). split_and!; try done.
      unfold sub. replace (Z.to_nat (es * S + eo - from es)) with 0%nat by lia.
      replace (Z.to_nat (es * S + eo - from (Z.succ es))) with 0%nat; [done|].
      unfold from. case_cmp; nia.
Qed.

(** One piece written: the bytes of the cluster change there. *)
Lemma write_piece_spec st F D h l a i part :
  fs st F D (own h l) -> 0 <= a < bpb_sec_per_clus bs -> 0 <= i -> i + zlen part <= S -> bytes_ok part ->
  runs (s <- bc_sector a ;; mfst (update s i part)) (st, with_last l c) (fun _ s' =>
    fs s'.1 F (<[bc_cluster c := upd (D (bc_cluster c)) (a * S + i) part]> D) (own h (bc_last s'.2)) /\
    same_handle c s'.2).
Proof.
  intros (σ & Hr & HF & HD) Ha Hi Hb Hok. pose proof Hc as (Hav & _).
  eapply runs_bind; [apply (bc_sector_spec st σ h (with_last l c) a); [done|done|lia]|].
  intros s [st1 c1] (-> & Hr1 & Hc1). cbn [fst snd bc_cluster with_last] in *. subst c1.
  assert (Hlen : forall s, 0 <= s < n -> zlen (σ s) = bpb_byts_per_sec bs).
  { intros s Hs. rewrite <- Hsz. by eapply rep_length. }
  pose proof (cluster_inside Hg _ a Hav ltac:(lia)). pose proof (data_start_bound (g_valid _ _ Hg)).
  eapply runs_mono; [apply runs_mfst, (update_spec _ _ _ _ i part Hr1); [apply own_held|lia|lia|lia|done]|].
  intros [] [st2 c2] [Hc2 Hr2]. cbn [fst snd] in *. subst c2. split; [|done].
  eexists. split; [exact Hr2|]. split.
  - intros k Hk. rewrite (fat_of_data_write Hg) by (done || lia). by apply HF.
  - intros k Hk. rewrite (data_of_upd Hg) by (done || lia). fold S.
    destruct (decide (bc_cluster c = k)) as [<-|]; [rewrite !fn_lookup_insert; by rewrite HD|].
    rewrite !fn_lookup_insert_ne by done. by apply HD.
Qed.

Lemma write_parts_spec k a st F D h l buf :
  fs st F D (own h l) -> es + 1 = a + Z.of_nat k -> ss <= a -> bytes_ok buf ->
  zlen buf = Z.max 0 (es * S + eo - from a) ->
  runs (write_parts (omap piece (seqZ a (Z.of_nat k))) buf) (st, with_last l c) (fun _ s' =>
    fs s'.1 F (<[bc_cluster c := upd (D (bc_cluster c)) (from a) buf]> D) (own h (bc_last s'.2)) /\
    same_handle c s'.2).
Proof.
  revert a st D l buf. induction k as [|k IH]; intros a st D l buf Hf Hk Ha Hok Hl.
  - assert (buf = []) as ->.
    { apply length_zero_iff_nil. assert (es * S + eo < from a) by (unfold from; case_cmp; nia). lia. }
    apply ends_ret. split; [|done]. eapply fs_rep_ext; [exact Hf|done| |done]. intros x Hx. rewrite upd_nil.
    destruct (decide (bc_cluster c = x)) as [<-|]; [by rewrite fn_lookup_insert|by rewrite fn_lookup_insert_ne].
  - rewrite seqZ_cons by lia. replace (Z.pred (Z.of_nat (Datatypes.S k))) with (Z.of_nat k) by lia. cbn [omap list_omap].
    assert (Hf1 : from (Z.succ a) = (a + 1) * S) by (unfold from; case_cmp; lia).
    destruct (piece_cases a ltac:(lia)) as [(i & j & -> & Hij & HjS & Hp & Hcnt & Hcase)|(-> & -> & Hp)].
    + assert (Hj : j - i <= zlen buf) by (destruct Hcase as [[-> ->]|[? ->]]; nia).
      cbn [write_parts]. rewrite slice_Some by lia.
      set (part := sub buf 0 (j - i)). set (rest := drop (Z.to_nat (j - i)) buf).
      assert (Hpl : zlen part = j - i) by (apply length_sub; lia).
      assert (Hbuf : buf = part ++ rest).
      { unfold part, rest, sub. rewrite drop_0. symmetry. apply take_drop. }
      apply (runs_eq ((s <- bc_sector a ;; mfst (update s i part)) ;;;
        write_parts (omap piece (seqZ (Z.succ a) (Z.of_nat k))) rest)).
      { unfold mbnd. by destruct (bc_sector a _) as [[] ?]. }
      eapply runs_bind; [apply (write_piece_spec st F D h l a i part); [done|lia|lia|lia|by apply Forall_sub]|].
      intros [] [st1 c1] [Hf2 Hc1]. cbn [fst snd] in *. rewrite Hc1.
      eapply runs_mono; [apply (IH (Z.succ a) st1 _ (bc_last c1) rest Hf2); [lia|lia|by apply Forall_drop|]|].
      * rewrite Hf1. unfold rest. rewrite length_drop. destruct Hcase as [[-> ->]|[? ->]]; nia.
      * intros [] s' [Hf3 Hc3]. split; [|done]. eapply fs_rep_ext; [exact Hf3|done| |done]. intros x Hx.
        destruct (decide (bc_cluster c = x)) as [<-|]; [|by rewrite !fn_lookup_insert_ne].
        rewrite !fn_lookup_insert. rewrite <- Hp, Hf1. pose proof (fs_rep_length Hg Hsz _ _ _ _ (bc_cluster c) Hf) as HD.
        destruct Hc as (Hav & _). specialize (HD Hav). rewrite Hbuf. destruct Hcase as [[-> ->]|[? ->]].
        -- assert (rest = []) as ->; [|by rewrite upd_nil, app_nil_r].
           apply length_zero_iff_nil. unfold rest. rewrite length_drop. nia.
        -- replace ((a + 1) * S) with (from a + zlen part) by lia. apply upd_upd_app; [nia|].
           rewrite HD. rewrite Hbuf in Hl. rewrite length_app in Hl. unfold cluster_bytes in *. nia.
    + assert (buf = []) as -> by (apply length_zero_iff_nil; lia).
      eapply runs_mono; [apply (IH (Z.succ es) st D l [] Hf); [lia|lia|done|]|].
      * rewrite Hf1. simpl. nia.
      * intros [] s' [Hf3 Hc3]. split; [|done]. eapply fs_rep_ext; [exact Hf3|done| |done]. intros x Hx.
        by rewrite !upd_nil.
Qed.

End pieces.

Lemma with_last_same c : with_last (bc_last c) c = c.
Proof. by destruct c. Qed.

Lemma sector_size_pos : 0 < bpb_byts_per_sec bs.
Proof. pose proof (valid_sector_size (g_valid _ _ Hg)). lia. Qed.

(** The range of [bc_read] and [bc_write], cut at the sectors. *)
Lemma sector_range_spec c off len :
  handle_ok bs c -> 0 <= off -> 0 <= len -> off + len <= cluster_bytes bs ->
  let S := bpb_byts_per_sec bs in
  exists ss so es eo, ss * S + so = off /\ es * S + eo = off + len /\ 0 <= so < S /\ 0 <= eo < S /\ 0 <= ss <= es /\
    sector_range c off (off + len) =
      Some (omap (fun sector =>
        let i := if sector =? ss then so else 0 in
        let j := if sector =? es then eo else bc_sector_size c in
        if i <? j then Some (sector, i, j) else None) (seqZ ss (Z.of_nat (Z.to_nat (es - ss + 1))))).
Proof.
  intros Hc Ho Hl Hb S. pose proof sector_size_pos as HS. fold S in HS.
  exists (off / S), (off mod S), ((off + len) / S), ((off + len) mod S).
  pose proof (Z.div_mod off S ltac:(lia)). pose proof (Z.div_mod (off + len) S ltac:(lia)).
  pose proof (Z.mod_pos_bound off S HS). pose proof (Z.mod_pos_bound (off + len) S HS).
  assert (0 <= off / S <= (off + len) / S) by (split; [apply Z.div_pos; lia|apply Z.div_le_mono; lia]).
  split_and!; try lia. unfold sector_range. rewrite (size_ok c Hc).
  rewrite !(proj2 (Z.leb_le _ _)) by lia. destruct Hc as (_ & _ & _ & Hs). rewrite Hs. fold S. simpl.
  rewrite Z2Nat.id by lia. done.
Qed.

Lemma bc_read_spec st F D h c off len :
  fs st F D (own h (bc_last c)) -> handle_ok bs c -> 0 <= off -> 0 <= len -> off + len <= cluster_bytes bs ->
  runs (bc_read off len) (st, c) (fun w s' => w = sub (D (bc_cluster c)) off len /\
    fs s'.1 F D (own h (bc_last s'.2)) /\ same_handle c s'.2).
Proof.
  intros Hf Hc Ho Hl Hb. unfold bc_read.
  apply (runs_bind _ _ _ (fun a b => a = (st, c) /\ b = (st, c))); [done|]. intros ? ? [-> ->].
  destruct (sector_range_spec c off len Hc Ho Hl Hb) as (ss & so & es & eo & Hs & He & Hso & Heo & Hord & ->).
  match goal with |- context [munwrap (Some ?x)] =>
    apply (runs_bind _ _ _ (fun a b => a = x /\ b = (st, c))); [done|] end. intros ? ? [-> ->].
  replace (st, c) with (st, with_last (bc_last c) c) by (by rewrite with_last_same).
  eapply runs_mono; [apply (read_parts_spec c Hc ss so es eo Hso Heo); try done; lia|].
  intros w s' (-> & ? & ?). split_and!; try done. rewrite Z.eqb_refl. f_equal; lia.
Qed.

Lemma bc_write_spec st F D h c off buf :
  fs st F D (own h (bc_last c)) -> handle_ok bs c -> 0 <= off -> off + zlen buf <= cluster_bytes bs -> bytes_ok buf ->
  runs (bc_write off buf) (st, c) (fun _ s' =>
    fs s'.1 F (<[bc_cluster c := upd (D (bc_cluster c)) off buf]> D) (own h (bc_last s'.2)) /\ same_handle c s'.2).
Proof.
  intros Hf Hc Ho Hb Hok. unfold bc_write.
  apply (runs_bind _ _ _ (fun a b => a = (st, c) /\ b = (st, c))); [done|]. intros ? ? [-> ->].
  destruct (sector_range_spec c off (zlen buf) Hc Ho ltac:(lia) Hb) as (ss & so & es & eo & Hs & He & Hso & Heo & Hord & ->).
  match goal with |- context [munwrap (Some ?x)] =>
    apply (runs_bind _ _ _ (fun a b => a = x /\ b = (st, c))); [done|] end. intros ? ? [-> ->].
  replace (st, c) with (st, with_last (bc_last c) c) by (by rewrite with_last_same).
  eapply runs_mono; [apply (write_parts_spec c Hc ss so es eo Hso Heo); try done; try lia; rewrite Z.eqb_refl; lia|].
  intros [] s' [Hf' ?]. split; [|done]. rewrite Z.eqb_refl, Hs in Hf'. exact Hf'.
Qed.

(** *** Directory entries in a cluster *)

Lemma dir_entries_count_ok c : handle_ok bs c -> dir_entries_count c = cluster_bytes bs / 32.
Proof. intros Hc. unfold dir_entries_count. by rewrite size_ok. Qed.

Lemma entry_range i : 0 <= i < cluster_bytes bs / 32 -> 0 <= i * 32 /\ i * 32 + 32 <= cluster_bytes bs.
Proof.
  intros Hi. pose proof (Z.mul_div_le (cluster_bytes bs) 32 ltac:(lia)). lia.
Qed.

Lemma read_dir_entry_spec st F D h c i :
  fs st F D (own h (bc_last c)) -> handle_ok bs c -> 0 <= i < cluster_bytes bs / 32 ->
  runs (read_dir_entry i) (st, c) (fun e s' => e = entry_at D (bc_cluster c) i /\
    fs s'.1 F D (own h (bc_last s'.2)) /\ same_handle c s'.2).
Proof.
  intros Hf Hc Hi. destruct (entry_range i Hi). unfold read_dir_entry, SIZE.
  eapply runs_bind; [apply bc_read_spec; try done; lia|].
  intros w s' (-> & Hf' & Hc'). unfold entry_at, SIZE.
  by destruct (from_bytes_total (sub (D (bc_cluster c)) (i * 32) 32)) as [e ->].
Qed.

Lemma write_dir_entry_spec st F D h c i e :
  fs st F D (own h (bc_last c)) -> handle_ok bs c -> 0 <= i < cluster_bytes bs / 32 ->
  length (into_bytes e) = 32%nat -> bytes_ok (into_bytes e) ->
  runs (write_dir_entry i e) (st, c) (fun _ s' =>
    fs s'.1 F (<[bc_cluster c := upd (D (bc_cluster c)) (i * 32) (into_bytes e)]> D) (own h (bc_last s'.2)) /\
    same_handle c s'.2).
Proof.
  intros Hf Hc Hi Hl Hb. destruct (entry_range i Hi). apply bc_write_spec; try done. unfold SIZE. lia.
Qed.

(** Scopes of a handle: it is kept, or its reference is given back. *)
Lemma drop_cluster_spec {E} st F D h c :
  fs st F D (own h (bc_last c)) -> runs (E := E) (drop_cluster c) st (fun _ st' => fs st' F D h).
Proof.
  intros (σ & Hr & HF & HD). eapply runs_mono; [by apply drop_last_spec|]. intros [] st' Hr'. by exists σ.
Qed.

Lemma runs_held {L E A} (l : L) (d : L -> M St E unit) (m : M (St * L) E A) st Q :
  runs m (st, l) (fun a s' => Q (a, s'.2) s'.1) -> runs (held l d m) st Q.
Proof. unfold runs, ends, held. by destruct (m (st, l)) as [[] [? ?]]. Qed.

Lemma runs_attempt {L E E' A} (l : L) (m : M (St * L) E A) st Q :
  runs m (st, l) (fun a s' => Q (Some a, s'.2) s'.1) -> runs (E := E') (attempt l m) st Q.
Proof. unfold runs, ends, attempt. by destruct (m (st, l)) as [[] [? ?]]. Qed.

Lemma scoped_cluster {A} (m : M (St * BufferedCluster) Error A) st h c (Q : A -> _ -> _ -> Prop) :
  runs m (st, c) (fun a s' => exists F D, fs s'.1 F D (own h (bc_last s'.2)) /\ Q a F D) ->
  runs (scoped c drop_cluster m) st (fun a st' => exists F D, fs st' F D h /\ Q a F D).
Proof.
  unfold scoped, runs, ends, held, mbnd. destruct (m (st, c)) as [[a|e| |] [st' c']]; simpl; try done.
  intros (F & D & Hf & HQ). destruct (proj1 (runs_Ok _ _ _) (drop_cluster_spec (E := Error) _ _ _ _ _ Hf)) as ([] & st2 & Hd & Hf2).
  rewrite Hd. simpl. eauto.
Qed.

(** *** [ChainedCluster] *)

Lemma chained_read_spec st F D h k :
  fs st F D h -> available bs k ->
  runs (chained_read bs k) st (fun o st' => o = chain (F k) /\ fs st' F D h).
Proof.
  intros Hf Hk. eapply runs_bind; [by apply (with_fat_read Hg Hsz)|]. intros e st' [-> ?]. done.
Qed.

Lemma chained_get_spec st F D h k :
  fs st F D h -> available bs k -> (forall k', F k = UsedChained k' -> available bs k') ->
  runs (chained_get bs k) st (fun o st' => fs st' F D h /\
    match chain (F k), o with
    | Some k', Some c => handle_ok bs c /\ bc_cluster c = k' /\ bc_last c = None
    | None, None => True
    | _, _ => False
    end).
Proof.
  intros Hf Hk Hcl. eapply runs_bind; [by apply chained_read_spec|]. intros o st' [-> Hf'].
  destruct (chain (F k)) as [k'|] eqn:Hch; [|by apply ends_ret].
  destruct (F k) eqn:HFk; simplify_eq/=. destruct (new_cluster_spec k' (Hcl _ eq_refl)) as (c & -> & ? & ? & ?).
  by apply (runs_bind _ _ _ (fun a b => a = c /\ b = st')); [|intros ? ? [-> ->]].
Qed.

Lemma available_encodable k : available bs k -> encodable (UsedChained k).
Proof. pose proof (g_max _ _ Hg). unfold available. simpl. lia. Qed.

Lemma chained_prepare_spec st F D h k :
  fs st F D h -> available bs k -> (forall k', F k = UsedChained k' -> available bs k') ->
  ends (chained_prepare bs k) st
    (fun c st' => handle_ok bs c /\ bc_last c = None /\
      match chain (F k) with
      | Some k' => bc_cluster c = k' /\ fs st' F D h
      | None => allocated (bs := bs) F (bc_cluster c) /\
          fs st' (<[k := UsedChained (bc_cluster c)]> (<[bc_cluster c := UsedEoc]> F)) D h
      end)
    (fun e st' => e = Full /\ fs st' F D h /\ chain (F k) = None /\
      forall k', available bs k' -> F k' <> FatEntry.Unused).
Proof.
  intros Hf Hk Hcl. eapply runs_ends_bind; [by apply chained_read_spec|]. intros o st1 [-> Hf1].
  destruct (chain (F k)) as [k'|] eqn:Hch.
  - destruct (F k) eqn:HFk; simplify_eq/=. destruct (new_cluster_spec k' (Hcl _ eq_refl)) as (c & -> & ? & ? & ?).
    by apply ends_ret.
  - apply ends_bind. eapply ends_mono; [by apply (with_fat_allocate Hg Hsz)| |by intros e st2 (? & ? & ?)].
    intros r st2 [Hf2 Hr]. cbn beta. pose proof Hr as (Hav & _).
    eapply runs_ends_bind; [apply (with_fat_write Hg Hsz _ _ _ _ k (UsedChained r) Hf2 Hk); by apply available_encodable|].
    intros [] st3 Hf3. destruct (new_cluster_spec r Hav) as (c & -> & ? & <- & ?). apply ends_ret.
    split_and!; done.
Qed.

(** [ChainedCluster::release] frees the clusters after [src], and [src] too:
    its own entry is overwritten with [Unused]. *)
Lemma chained_release_spec st F D h k cs :
  fs st F D h -> is_chain bs F k (k :: cs) ->
  runs (chained_release bs k) st (fun _ st' =>
    fs st' (if decide (cs = []) then F else free_all F (k :: cs)) D h).
Proof.
  intros Hf Hch. pose proof (is_chain_available _ _ _ Hch) as Hav. apply Forall_cons in Hav as [Hk Hav].
  pose proof (is_chain_NoDup _ _ _ Hch) as Hnd. apply NoDup_cons in Hnd as [Hnot _].
  eapply runs_bind; [by apply chained_read_spec|]. intros o st1 [-> Hf1].
  inversion Hch as [? ? Hc Heq|? k' cs' ? Hc Hch' Heq]; clear Heq.
  - rewrite Hc. by apply ends_ret.
  - rewrite Hc. simpl chain. cbn iota.
    destruct (is_chain_head _ _ _ Hch') as [cs2 ->]. rewrite decide_False by done.
    eapply runs_bind; [by apply (with_fat_write Hg Hsz)|]. intros [] st2 Hf2.
    eapply runs_mono; [apply (with_fat_release Hg Hsz _ _ _ _ k' (k' :: cs2) Hf2)|].
    + eapply is_chain_ext; [exact Hch'|]. intros x Hx. rewrite fn_lookup_insert_ne; [done|]. by intros ->.
    + intros [] st3 Hf3. eapply fs_rep_ext; [exact Hf3| |done|done]. intros x Hx. unfold free_all.
      destruct (decide (x ∈ k' :: cs2)) as [Hin|Hin]; [rewrite decide_True; [done|by right]|].
      destruct (decide (k = x)) as [<-|Hne].
      * rewrite fn_lookup_insert, decide_True; [done|]. by left.
      * rewrite fn_lookup_insert_ne, decide_False; [done| |done]. intros [->|]%elem_of_cons; done.
Qed.

(** *** [DirEntries] *)

Definition cursor_last (cur : cursor) : option Z :=
  match cur with Some (c, _) => bc_last c | None => None end.

(** The slots a cursor has still to visit. *)
Definition cursor_slots F (cur : cursor) (rem : list (Z * Z)) : Prop :=
  match cur with
  | None => rem = []
  | Some (c, i) =>
      handle_ok bs c /\ 0 <= i <= cluster_bytes bs / 32 /\ exists cs,
        is_chain bs F (bc_cluster c) (bc_cluster c :: cs) /\
        rem = ((fun i => (bc_cluster c, i)) <$> seqZ i (cluster_bytes bs / 32 - i)) ++ slots bs cs
  end.

Lemma cluster_bytes_entries : 16 <= cluster_bytes bs / 32.
Proof.
  pose proof (valid_sector_size (g_valid _ _ Hg)). pose proof (v_sec_per_clus _ (g_valid _ _ Hg)).
  unfold cluster_bytes. apply Z.div_le_lower_bound; nia.
Qed.

Lemma slots_cons k cs :
  slots bs (k :: cs) = ((fun i => (k, i)) <$> seqZ 0 (cluster_bytes bs / 32)) ++ slots bs cs.
Proof. done. Qed.

Lemma dir_entries_spec F k cs :
  is_chain bs F k (k :: cs) -> exists cur,
    dir_entries bs k = Some cur /\ cursor_slots F cur (slots bs (k :: cs)) /\ cursor_last cur = None.
Proof.
  intros Hch. pose proof (is_chain_available _ _ _ Hch) as Hav. apply Forall_cons in Hav as [Hk _].
  destruct (new_cluster_spec k Hk) as (c & Hc & Hok & Hck & Hl). unfold dir_entries. rewrite Hc. cbn [mbind option_bind].
  eexists. split; [done|]. split; [|done]. pose proof cluster_bytes_entries.
  split; [done|]. split; [lia|]. exists cs. rewrite Hck. split; [done|].
  by rewrite slots_cons, Z.sub_0_r.
Qed.

(** The result of [next] for the remaining slots [rem]. *)
(** The cluster a cursor is in. *)
Definition cursor_at (k : Z) (cur : cursor) : Prop :=
  match cur with Some (c, _) => bc_cluster c = k | None => False end.

Definition next_post F D (rem : list (Z * Z)) (r : option (Z * Z * DirEntry) * cursor) : Prop :=
  match rem with
  | [] => r = (None, None)
  | (k, i) :: rem' =>
      r.1 = Some (k, i, entry_at D k i) /\
      if bool_decide (entry_at D k i = UnusedTerminal) then r.2 = None else cursor_slots F r.2 rem' /\ cursor_at k r.2
  end.

(** [next] inside a cluster. *)
Lemma dir_next_here fuel st F D h c i rem :
  fs st F D (own h (bc_last c)) -> cursor_slots F (Some (c, i)) rem -> i < cluster_bytes bs / 32 ->
  runs (dir_next bs (S fuel) (Some (c, i))) st (fun r st' =>
    fs st' F D (own h (cursor_last r.2)) /\ next_post F D rem r).
Proof.
  intros Hf (Hok & Hi & cs & Hch & ->) Hlt. cbn [dir_next]. rewrite (dir_entries_count_ok c Hok).
  rewrite (proj2 (Z.ltb_lt _ _)) by lia. rewrite seqZ_cons by lia. cbn [fmap list_fmap app next_post].
  apply (runs_bind _ _ _ (fun r st' => r.1 = Some (entry_at D (bc_cluster c) i) /\
    fs st' F D (own h (bc_last r.2)) /\ same_handle c r.2)).
  { apply runs_attempt. eapply runs_mono; [apply (read_dir_entry_spec st F D h c i); [done|done|lia]|].
    intros e s' (-> & ? & ?). done. }
  intros [o c'] st1 (Ho & Hf1 & Hc'). cbn [fst snd] in *. subst o.
  destruct (same_handle_ok c c' Hc' Hok) as [Hok' Hcc]. rewrite Hcc.
  case_bool_decide as Ht.
  - eapply runs_bind; [by apply drop_cluster_spec|]. intros [] st2 Hf2. apply ends_ret. split; [done|].
    done.
  - apply ends_ret. split; [done|]. split; [done|]. split; [|done].
    split; [done|]. split; [lia|]. exists cs. rewrite Hcc. split; [done|].
    do 3 f_equal; lia.
Qed.

Lemma dir_next_spec st F D h cur rem :
  fs st F D (own h (cursor_last cur)) -> cursor_slots F cur rem ->
  runs (dir_next bs DIR_FUEL cur) st (fun r st' =>
    fs st' F D (own h (cursor_last r.2)) /\ next_post F D rem r).
Proof.
  intros Hf Hcur. destruct cur as [[c i]|]; [|by simpl in Hcur; subst; apply ends_ret].
  destruct (decide (i < cluster_bytes bs / 32)) as [Hlt|Hge]; [by apply dir_next_here|].
  destruct Hcur as (Hok & Hi & cs & Hch & ->). assert (i = cluster_bytes bs / 32) as -> by lia.
  rewrite Z.sub_diag. cbn [seqZ fmap list_fmap app]. simpl ([] ++ _).
  unfold DIR_FUEL. remember 1%nat as one. cbn [dir_next]. rewrite (dir_entries_count_ok c Hok), Z.ltb_irrefl.
  pose proof Hok as (Hav & _).
  apply (runs_bind _ _ _ (fun o st' => o = Some (F (bc_cluster c)) /\ fs st' F D (own h (bc_last c)))).
  { apply runs_mok. eapply runs_mono; [apply (with_fat_read Hg Hsz _ _ _ _ (bc_cluster c) Hf Hav)|].
    intros e s' [-> ?]. done. }
  intros ? st1 [-> Hf1]. cbn [mbind option_bind].
  inversion Hch as [? ? Hc Heq|? k' cs' ? Hc Hch' Heq]; clear Heq; rewrite Hc; cbn [chain].
  - eapply runs_bind; [by apply drop_cluster_spec|]. intros [] st2 Hf2. by apply ends_ret.
  - destruct (is_chain_head _ _ _ Hch') as [cs2 Hcs]. rewrite Hcs in *.
    pose proof (is_chain_available _ _ _ Hch') as Hav'. apply Forall_cons in Hav' as [Hk' _].
    destruct (new_cluster_spec k' Hk') as (c' & Hn & Hok' & Hck & Hl'). rewrite Hn.
    apply (runs_bind _ _ _ (fun a b => a = c' /\ b = st1)); [done|]. intros ? ? [-> ->]. rewrite Heqone.
    pose proof cluster_bytes_entries.
    eapply runs_bind; [apply (dir_next_here 0 st1 F D (own h (bc_last c)) c' 0 (slots bs (k' :: cs2)))|].
    + rewrite Hl'. exact Hf1.
    + split; [done|]. split; [lia|]. exists cs2. rewrite Hck. split; [done|].
      by rewrite slots_cons, Z.sub_0_r.
    + lia.
    + intros r st2 [Hf2 Hr]. eapply runs_bind; [apply (drop_cluster_spec st2 F D (own h (cursor_last r.2)) c)|].
      * eapply fs_rep_ext; [exact Hf2|done|done|]. intros s. apply own_comm.
      * intros [] st3 Hf3. by apply ends_ret.
Qed.

End cluster_specs.

(** ** The FAT and the clusters *)

Section claims.
Context {St : Type} `{SectorCacheLaws St n sz} {bs : BootSector}
  (Hg : geometry bs n) (Hsz : sz = bpb_byts_per_sec bs).
Implicit Types (st : St) (F : Z -> FatEntry) (D : Z -> list Z) (h : counts).

Abbreviation fs st := (fs_rep bs (St := St) (n := n) (sz := sz) st).

(** [C9]. [Fat::allocate] takes the lowest free cluster,
    marks it as the end of a chain and changes nothing else; it fails, with
    [Full] and an unchanged volume, only when no cluster is free. *)
Theorem fat_allocate_lowest st F D h :
  fs st F D h ->
  ends (with_fat (fat_allocate bs)) st
    (fun c st' => fs st' (<[c := UsedEoc]> F) D h /\ available bs c /\ F c = FatEntry.Unused /\
      forall c', available bs c' -> c' < c -> F c' <> FatEntry.Unused)
    (fun e st' => e = Full /\ fs st' F D h /\ forall c', available bs c' -> F c' <> FatEntry.Unused).
Proof. exact (with_fat_allocate Hg Hsz st F D h). Qed.

(** [Fat::release] of the head of a chain frees the
    clusters of the chain and no other, and leaves the contents of all
    clusters. *)
Theorem fat_release_chain st F D h c cs :
  fs st F D h -> is_chain bs F c cs ->
  runs (with_fat (fat_release bs c)) st (fun _ st' => fs st' (free_all F cs) D h).
Proof. exact (with_fat_release Hg Hsz st F D h c cs). Qed.

(** [C11]. [Fat::release] returns on every table whose
    links stay on the volume, cyclic chains included: each turn frees a cluster
    before its link is followed. It only ever frees. *)
Theorem fat_release_terminates st F D h c :
  fs st F D h -> closed bs F -> available bs c ->
  runs (with_fat (fat_release bs c)) st (fun _ st' => exists F', fs st' F' D h /\
    forall x, F' x = F x \/ F' x = FatEntry.Unused).
Proof. exact (with_fat_release_total Hg Hsz st F D h c). Qed.

(** After a write into a cluster, a read of any
    range of it returns the new bytes where the range meets the written one and
    the old bytes elsewhere, across sector boundaries; the table and every other
    cluster are as before. *)
Theorem cluster_write_then_read st F D h c off buf roff len :
  fs st F D (own h (bc_last c)) -> handle_ok bs c -> bytes_ok buf ->
  0 <= off -> off + zlen buf <= cluster_bytes bs -> 0 <= roff -> 0 <= len -> roff + len <= cluster_bytes bs ->
  runs (bc_write off buf ;;; bc_read roff len) (st, c) (fun w s' =>
    w = sub (upd (D (bc_cluster c)) off buf) roff len /\
    fs s'.1 F (<[bc_cluster c := upd (D (bc_cluster c)) off buf]> D) (own h (bc_last s'.2))).
Proof.
  intros Hf Hc Hb Ho Hl Hr Hn Hrl. eapply runs_bind; [by apply (bc_write_spec Hg Hsz st F D h c off buf)|].
  intros [] [st1 c1] [Hf1 Hs]. destruct (same_handle_ok (bs := bs) _ _ Hs Hc) as [Hc1 Hk]. cbn [fst snd] in *.
  eapply runs_mono; [by apply (bc_read_spec Hg Hsz st1 F _ h c1 roff len Hf1)|].
  intros w s' (-> & Hf2 & _). split; [|exact Hf2]. by rewrite Hk, fn_lookup_insert.
Qed.

(** [ChainedCluster::release], which a
    [FileWriter] calls to cut the chain behind its last cluster [k], also frees
    [k] when there is a chain to cut: the file keeps a cluster that the next
    allocation may hand out. *)
Theorem chained_release_frees_source st F D h k k' cs :
  fs st F D h -> is_chain bs F k (k :: k' :: cs) ->
  runs (chained_release bs k) st (fun _ st' => exists F', fs st' F' D h /\ F' k = FatEntry.Unused /\
    forall x, x ∉ k :: k' :: cs -> F' x = F x).
Proof.
  intros Hf Hch. eapply runs_mono; [by apply (chained_release_spec Hg Hsz st F D h k (k' :: cs))|].
  intros [] st' Hf'. rewrite decide_False in Hf' by done. eexists. split; [exact Hf'|]. unfold free_all. split.
  - by rewrite decide_True by left.
  - intros x Hx. by rewrite decide_False.
Qed.

End claims.

(** ** A concrete volume *)

(** A volume with the boot sector [demo_boot 1 64], the entries [fat] of the
    FAT, and the given contents of clusters. *)
Definition demo_volume (fat : list Z) (contents : list (Z * list Z)) : RamVolume := {|
  ram_count := 64; ram_size := 512;
  ram := list_to_map ((0, demo_boot 1 64) :: (2, mjoin (to_le_bytes 4 <$> fat)) ::
                      ((fun '(c, b) => (c + 1, b)) <$> contents)) |}.

Definition demo_fat (fat : list Z) (contents : list (Z * list Z)) : Z -> FatEntry :=
  fat_of demo_bs (ram_content (demo_volume fat contents)).
Definition demo_data (fat : list Z) (contents : list (Z * list Z)) : Z -> list Z :=
  data_of demo_bs (ram_content (demo_volume fat contents)).

#[export] Instance demo_laws : SectorCacheLaws (BufferedVolume RamVolume) 64 512 := BufferedVolume_laws 64 512.

Lemma demo_rep fat contents :
  fs_rep demo_bs (n := 64) (sz := 512) (new_volume (demo_volume fat contents))
    (demo_fat fat contents) (demo_data fat contents) (fun _ => 0%nat).
Proof.
  exists (ram_content (demo_volume fat contents)). split_and!; try done.
  exact (new_volume_rep 64 512 (demo_volume fat contents) (ram_healthy _) eq_refl eq_refl).
Qed.

(** A file of the clusters 3, 5, and the root directory in 2. *)
Definition demo_chain : list Z := [0x0ffffff8; 0x0fffffff; 0x0fffffff; 5; 0; 0x0fffffff].

Lemma demo_is_chain : is_chain demo_bs (demo_fat demo_chain []) 3 [3; 5].
Proof.
  eapply (chain_next _ _ 3 5); [vm_compute; split; discriminate|vm_compute; reflexivity|].
  apply chain_end; [vm_compute; split; discriminate|vm_compute; reflexivity].
Qed.

Lemma fat_allocate_lowest_witness :
  ends (with_fat (fat_allocate demo_bs)) (new_volume (demo_volume demo_chain []))
    (fun c st' => fs_rep demo_bs (n := 64) (sz := 512) st' (<[c := UsedEoc]> (demo_fat demo_chain []))
        (demo_data demo_chain []) (fun _ => 0%nat) /\
      available demo_bs c /\ demo_fat demo_chain [] c = FatEntry.Unused /\
      forall c', available demo_bs c' -> c' < c -> demo_fat demo_chain [] c' <> FatEntry.Unused)
    (fun e st' => e = Full /\
      fs_rep demo_bs (n := 64) (sz := 512) st' (demo_fat demo_chain []) (demo_data demo_chain []) (fun _ => 0%nat) /\
      forall c', available demo_bs c' -> demo_fat demo_chain [] c' <> FatEntry.Unused).
Proof. exact (fat_allocate_lowest demo_bs_geometry eq_refl _ _ _ _ (demo_rep demo_chain [])). Defined.

Lemma fat_release_chain_witness :
  runs (with_fat (fat_release demo_bs 3)) (new_volume (demo_volume demo_chain [])) (fun _ st' =>
    fs_rep demo_bs (n := 64) (sz := 512) st' (free_all (demo_fat demo_chain []) [3; 5])
      (demo_data demo_chain []) (fun _ => 0%nat)).
Proof.
  exact (fat_release_chain demo_bs_geometry eq_refl _ _ _ _ _ _ (demo_rep demo_chain []) demo_is_chain).
Defined.

(** The clusters 3 and 5 linked to each other. *)
Definition demo_cycle : list Z := [0x0ffffff8; 0x0fffffff; 0x0fffffff; 5; 0; 3].

Lemma demo_cycle_closed : closed demo_bs (demo_fat demo_cycle []).
Proof.
  assert (Hall : forallb (fun c => match demo_fat demo_cycle [] c with
    | UsedChained c' => bool_decide (available demo_bs c') | _ => true end) (seqZ 2 61) = true) by (vm_compute; reflexivity).
  intros c c' Hc Hl. apply (proj1 (forallb_forall _ _)) with (x := c) in Hall.
  - rewrite Hl in Hall. by apply bool_decide_eq_true in Hall.
  - apply list_elem_of_In, elem_of_seqZ. unfold available in Hc. change (clusters demo_bs) with 61 in Hc. lia.
Qed.

Lemma fat_release_terminates_witness :
  runs (with_fat (fat_release demo_bs 3)) (new_volume (demo_volume demo_cycle [])) (fun _ st' =>
    exists F', fs_rep demo_bs (n := 64) (sz := 512) st' F' (demo_data demo_cycle []) (fun _ => 0%nat) /\
      forall x, F' x = demo_fat demo_cycle [] x \/ F' x = FatEntry.Unused).
Proof.
  apply (fat_release_terminates demo_bs_geometry eq_refl _ _ _ _ _ (demo_rep demo_cycle []) demo_cycle_closed).
  vm_compute. split; discriminate.
Defined.

Definition demo_handle : BufferedCluster :=
  {| bc_cluster := 3; bc_first_sector := 4; bc_sector_count := 1; bc_sector_size := 512; bc_last := None |}.

Lemma cluster_write_then_read_witness :
  runs (bc_write 10 [1; 2; 3] ;;; bc_read 9 3) (new_volume (demo_volume demo_chain []), demo_handle) (fun w s' =>
    w = [0; 1; 2] /\
    fs_rep demo_bs (n := 64) (sz := 512) s'.1 (demo_fat demo_chain [])
      (<[3 := upd (demo_data demo_chain [] 3) 10 [1; 2; 3]]> (demo_data demo_chain []))
      (own (fun _ => 0%nat) (bc_last s'.2))).
Proof.
  apply (cluster_write_then_read demo_bs_geometry eq_refl _ _ _ (fun _ => 0%nat) demo_handle 10 [1; 2; 3] 9 3
    (demo_rep demo_chain [])); try (vm_compute; discriminate).
  - repeat split; vm_compute; try reflexivity; discriminate.
  - repeat apply Forall_cons_2; try apply Forall_nil_2; split; vm_compute; try reflexivity; discriminate.
Defined.

Lemma chained_release_frees_source_witness :
  runs (chained_release demo_bs 3) (new_volume (demo_volume demo_chain [])) (fun _ st' =>
    exists F', fs_rep demo_bs (n := 64) (sz := 512) st' F' (demo_data demo_chain []) (fun _ => 0%nat) /\
      F' 3 = FatEntry.Unused /\ forall x, (x ∉ [3; 5]) -> F' x = demo_fat demo_chain [] x).
Proof.
  exact (chained_release_frees_source demo_bs_geometry eq_refl _ _ _ _ _ _ _ (demo_rep demo_chain []) demo_is_chain).
Defined.
