(* ===== verification/Fat.v ===== *)
(** * Directories and files (src/ors-kernel/src/fs/fat.rs)

    [Dir], [DirIter], [File], [FileReader] and [FileWriter] over the clusters
    of LowLevel.v. A method with [&mut self] on a file or a writer is a computation
    on the pair of the cache and that value, so that the value is there after an
    error too, as it is in the source ([FileWriter] is dropped after a failed
    write). Loops and the recursion of [next] and [remove] carry fuel. *)

From stdpp Require Import strings.
From S2P Require Import Prelude Volume BootSector FatEntry DirEntry LowLevel.
Local Open Scope Z_scope.
Local Open Scope rust_scope.

Record File := {
  f_dir : Z;
  f_name : list Z;
  f_entry_location : Z * Z;
  f_last_entry : SfnEntry * Z * Z
}.

Definition f_sfn (f : File) : SfnEntry := fst (fst (f_last_entry f)).

Definition with_sfn (e : SfnEntry) (f : File) : File :=
  {| f_dir := f_dir f; f_name := f_name f; f_entry_location := f_entry_location f;
     f_last_entry := let '(_, c, n) := f_last_entry f in (e, c, n) |}.

Record FileReader := { r_rest_size : Z; r_cursor : cursor }.

Record FileWriter := { w_file : File; w_total_size : Z; w_cursor : cursor }.

Section fat.
Context {St : Type} `{SectorCache St} (bs : BootSector).

(** ** [DirIter::next] *)

Definition is_dots (n : list Z) : bool := bool_decide (n = [46]) || bool_decide (n = [46; 46]).

(** What the loop of [next] has in its variables: the reader, [(sc, sn)],
    [(ec, en)] and [entry]. *)
Definition iter_state : Type := LfnReader * (Z * Z) * (Z * Z) * DirEntry.

(** [None] is the start of [next]; the source calls [self.next()] to get back
    to it. *)
Fixpoint dir_iter_next (fuel : nat) (dir : Z) (cur : cursor) (s : option iter_state) :
    M St Error (option File * cursor) :=
  match fuel with
  | O => mdiverge
  | S fuel =>
      match s with
      | None =>
          '(o, cur) <- dir_next bs DIR_FUEL cur ;;
          match o with
          | None => ret (None, cur)
          | Some (c, n, e) => dir_iter_next fuel dir cur (Some (Init, (c, n), (c, n), e))
          end
      | Some (reader, sloc, eloc, e) =>
          '(reader, r) <- munwrap (reader_read reader e) ;;
          match r with
          | Meta UnusedTerminal => ret (None, cur)
          | Meta _ => dir_iter_next fuel dir cur None
          | Incomplete =>
              '(o, cur) <- dir_next bs DIR_FUEL cur ;;
              match o with
              | None => ret (None, cur)
              | Some (c, n, e) => dir_iter_next fuel dir cur (Some (reader, sloc, (c, n), e))
              end
          | Complete n sfn =>
              if is_dots n then dir_iter_next fuel dir cur None
              else ret (Some {| f_dir := dir; f_name := n; f_entry_location := sloc;
                                f_last_entry := (sfn, eloc.1, eloc.2) |}, cur)
          | DirEntry.Broken _ e => dir_iter_next fuel dir cur (Some (reader, eloc, eloc, e))
          end
      end
  end.

(** ** [Dir] *)

Definition files (dir : Z) : option cursor := dir_entries bs dir.

Definition dir_parent (dir : Z) : M St Error (option Z) :=
  if dir =? root_dir_cluster bs then ret None
  else
    c <- munwrap (new_cluster bs dir) ;;
    e <- scoped c drop_cluster (read_dir_entry 1) ;;
    match e with
    | Sfn sfn => ret (Some (default (root_dir_cluster bs) (DirEntry.cluster sfn)))
    | _ => ret None
    end.

(** [self.files().any(|f| f.name() == name)] *)
Fixpoint any_file (fuel : nat) (ifuel : nat) (dir : Z) (n : list Z) (cur : cursor) : M St Error bool :=
  match fuel with
  | O => mdiverge
  | S fuel =>
      '(o, cur) <- dir_iter_next ifuel dir cur None ;;
      match o with
      | None => drop_cursor cur ;;; ret false
      | Some f =>
          if bool_decide (f_name f = n) then drop_cursor cur ;;; ret true
          else any_file fuel ifuel dir n cur
      end
  end.

Definition check_name_conflict (fuel : nat) (dir : Z) (n : list Z) : M St Error unit :=
  cur <- munwrap (files dir) ;;
  b <- any_file fuel fuel dir n cur ;;
  if b : bool then mfail FileAlreadyExists else ret tt.

(** The search loop of [insert_dir_entries]: [writable_start] and
    [writable_len]. *)
Fixpoint find_writable (fuel : nat) (required_len : Z) (start : Z * Z) (len : Z) (cur : cursor) :
    M St Error ((Z * Z) * Z) :=
  match fuel with
  | O => mdiverge
  | S fuel =>
      '(o, cur) <- dir_next bs DIR_FUEL cur ;;
      match o with
      | None => ret (start, len)
      | Some (c, n, e) =>
          match e with
          | DirEntry.Unused =>
              let start := if len =? 0 then (c, n) else start in
              let len := len + 1 in
              if len =? required_len then drop_cursor cur ;;; ret (start, len)
              else find_writable fuel required_len start len cur
          | UnusedTerminal =>
              let start := if len =? 0 then (c, n) else start in
              drop_cursor cur ;;; ret (start, len)
          | _ => find_writable fuel required_len start 0 cur
          end
      end
  end.

(** The write loop, over the variables [c] and [n]. *)
Fixpoint write_entries (l : list DirEntry) (c : BufferedCluster) (n : Z) : M St Error unit :=
  match l with
  | [] => drop_cluster c
  | e :: l =>
      '(c, n) <- (if dir_entries_count c <=? n then
                    c' <- mcleanup (chained_prepare bs (bc_cluster c)) (drop_cluster c) ;;
                    drop_cluster c ;;; ret (c', 0)
                  else ret (c, n)) ;;
      '(_, c) <- held c drop_cluster (write_dir_entry n e) ;;
      write_entries l c (n + 1)
  end.

Definition insert_dir_entries (fuel : nat) (dir : Z) (entries : list DirEntry) : M St Error unit :=
  let required_len := zlen entries in
  if required_len =? 0 then ret tt
  else
    cur <- munwrap (dir_entries bs dir) ;;
    '(start, len) <- find_writable fuel required_len (dir, 0) 0 cur ;;
    let terminal := if len =? required_len then [] else [UnusedTerminal] in
    c <- munwrap (new_cluster bs start.1) ;;
    write_entries (entries ++ terminal) c start.2.

Definition create_file (fuel : nat) (dir : Z) (n : list Z) : M St Error unit :=
  check_name_conflict fuel dir n ;;;
  o <- munwrap (lfn_sequence n sfn_new) ;;
  match o with
  | None => mfail InvalidFileName
  | Some entries => insert_dir_entries fuel dir entries
  end.

(** The mutation of the last entry in [create_dir]; [None] is the [panic!]. *)
Definition set_last_dir (entries : list DirEntry) (c : Z) : option (list DirEntry) :=
  match last entries with
  | Some (Sfn sfn) =>
      Some (take (length entries - 1) entries ++
            [Sfn (set_cluster (Some c) (set_is_directory true sfn))])
  | _ => None
  end.

Definition create_dir (fuel : nat) (dir : Z) (n : list Z) : M St Error unit :=
  check_name_conflict fuel dir n ;;;
  o <- munwrap (lfn_sequence n sfn_new) ;;
  match o with
  | None => mfail InvalidFileName
  | Some entries =>
      c <- with_fat (fat_allocate bs) ;;
      let is_root := dir =? root_dir_cluster bs in
      let current_dir := current (Some c) in
      let parent_dir := parent (if is_root then None else Some dir) in
      h <- munwrap (new_cluster bs c) ;;
      scoped h drop_cluster
        (write_dir_entry 0 (Sfn current_dir) ;;;
         write_dir_entry 1 (Sfn parent_dir) ;;;
         write_dir_entry 2 UnusedTerminal) ;;;
      entries <- munwrap (set_last_dir entries c) ;;
      insert_dir_entries fuel dir entries
  end.

(** ** [File] *)

Definition write_back : M (St * File) Error unit :=
  '(st, f) <- mget ;;
  let f := with_sfn (mark_archive (f_sfn f)) f in
  mput (st, f) ;;;
  let '(e, c, n) := f_last_entry f in
  h <- munwrap (new_cluster bs c) ;;
  mfst (scoped h drop_cluster (write_dir_entry n (Sfn e))).

Definition file_is_dir (f : File) : bool := is_directory (f_sfn f).

Definition as_dir (f : File) : option Z :=
  if file_is_dir f then DirEntry.cluster (f_sfn f) else None.

Definition file_size (f : File) : Z := DirEntry.file_size (f_sfn f).

Definition file_set_size (size : Z) : M (St * File) Error unit :=
  '(st, f) <- mget ;;
  e <- munwrap (set_file_size size (f_sfn f)) ;;
  mput (st, with_sfn e f) ;;;
  write_back.

(** [File::cluster] *)
Definition file_cluster (f : File) : M St Error (option BufferedCluster) :=
  match DirEntry.cluster (f_sfn f) with
  | None => ret None
  | Some c => h <- munwrap (new_cluster bs c) ;; ret (Some h)
  end.

Definition prepare_cluster : M (St * File) Error BufferedCluster :=
  '(_, f) <- mget ;;
  match DirEntry.cluster (f_sfn f) with
  | Some c => munwrap (new_cluster bs c)
  | None =>
      c <- mfst (with_fat (fat_allocate bs)) ;;
      '(st, f) <- mget ;;
      mput (st, with_sfn (set_cluster (Some c) (f_sfn f)) f) ;;;
      write_back ;;;
      munwrap (new_cluster bs c)
  end.

Definition release_cluster : M (St * File) Error unit :=
  '(st, f) <- mget ;;
  match DirEntry.cluster (f_sfn f) with
  | Some c =>
      mput (st, with_sfn (set_cluster None (f_sfn f)) f) ;;;
      write_back ;;;
      mfst (with_fat (fat_release bs c))
  | None => ret tt
  end.

Definition reader (f : File) : M St Error (option FileReader) :=
  if file_is_dir f then ret None
  else
    o <- file_cluster f ;;
    ret (Some {| r_rest_size := file_size f; r_cursor := (fun c => (c, 0)) <$> o |}).

Definition overwriter (f : File) : option FileWriter :=
  if file_is_dir f then None
  else Some {| w_file := f; w_total_size := 0; w_cursor := None |}.

(** The loop of [appender]: [(c, rest_size)] and [total_size]. *)
Fixpoint appender_loop (fuel : nat) (c : BufferedCluster) (rest_size total_size : Z) :
    M St Error (BufferedCluster * Z * Z) :=
  match fuel with
  | O => mdiverge
  | S fuel =>
      if size c <? rest_size then
        o <- mok (chained_get bs (bc_cluster c)) ;;
        match o with
        | Some (Some next_c) =>
            drop_cluster c ;;;
            appender_loop fuel next_c (rest_size - size c) (total_size + size c)
        | _ => appender_loop fuel c (size c) total_size
        end
      else ret (c, rest_size, total_size + rest_size)
  end.

Definition appender (fuel : nat) (f : File) : M St Error (option FileWriter) :=
  if file_is_dir f then ret None
  else
    o <- file_cluster f ;;
    match o with
    | None => ret (Some {| w_file := f; w_total_size := 0; w_cursor := None |})
    | Some c =>
        '(c, offset, total) <- appender_loop fuel c (file_size f) 0 ;;
        ret (Some {| w_file := f; w_total_size := total; w_cursor := Some (c, offset) |})
    end.

(** ** [dir_entry_locations], [remove] and [mv] *)

(** One turn of the iterator: the range [i..=j] of [c], and the next cluster. *)
Definition location_step (f : File) (c : BufferedCluster) : M St Error (Z * Z * option BufferedCluster) :=
  let '(start_c, start_offset) := f_entry_location f in
  let '(_, end_c, end_offset) := f_last_entry f in
  let i := if bc_cluster c =? start_c then start_offset else 0 in
  let j := if bc_cluster c =? end_c then end_offset else dir_entries_count c - 1 in
  if bc_cluster c =? end_c then ret (i, j, None)
  else
    o <- mok (chained_get bs (bc_cluster c)) ;;
    ret (i, j, default None o).

(** [for offset in i..=j { c.write_dir_entry(offset, DirEntry::Unused)?; }] *)
Fixpoint clear_range (l : list Z) : M (St * BufferedCluster) Error unit :=
  match l with
  | [] => ret tt
  | offset :: l => write_dir_entry offset DirEntry.Unused ;;; clear_range l
  end.

Fixpoint clear_entries (fuel : nat) (f : File) (next_c : option BufferedCluster) : M St Error unit :=
  match fuel, next_c with
  | O, _ => mdiverge
  | _, None => ret tt
  | S fuel, Some c =>
      '(i, j, next_c) <- location_step f c ;;
      scoped c drop_cluster (clear_range (seqZ i (j - i + 1))) ;;;
      clear_entries fuel f next_c
  end.

Fixpoint read_range (l : list Z) : M (St * BufferedCluster) Error (list DirEntry) :=
  match l with
  | [] => ret []
  | offset :: l => e <- read_dir_entry offset ;; es <- read_range l ;; ret (e :: es)
  end.

Fixpoint read_entries (fuel : nat) (f : File) (next_c : option BufferedCluster) : M St Error (list DirEntry) :=
  match fuel, next_c with
  | O, _ => mdiverge
  | _, None => ret []
  | S fuel, Some c =>
      '(i, j, next_c) <- location_step f c ;;
      es <- scoped c drop_cluster (read_range (seqZ i (j - i + 1))) ;;
      rest <- read_entries fuel f next_c ;;
      ret (es ++ rest)
  end.

(** [remove] consumes the file; the files of a directory are removed while
    they are iterated over. *)
Fixpoint remove (fuel : nat) (recursive : bool) (f : File) : M St Error unit :=
  match fuel with
  | O => mdiverge
  | S fuel =>
      let remove_files := fix remove_files (k : nat) (dir : Z) (cur : cursor) : M St Error unit :=
        match k with
        | O => mdiverge
        | S k =>
            '(o, cur) <- dir_iter_next fuel dir cur None ;;
            match o with
            | None => drop_cursor cur
            | Some file =>
                (if recursive then mcleanup (remove fuel true file) (drop_cursor cur)
                 else drop_cursor cur ;;; mfail DirectoryNotEmpty) ;;;
                remove_files k dir cur
            end
        end in
      match as_dir f with
      | Some dir => cur <- munwrap (files dir) ;; remove_files fuel dir cur
      | None => ret tt
      end ;;;
      '(_, f) <- held f (fun _ => ret tt) release_cluster ;;
      c <- munwrap (new_cluster bs (fst (f_entry_location f))) ;;
      clear_entries fuel f (Some c)
  end.

Definition mv (fuel : nat) (f : File) (dir : option Z) (n : option (list Z)) : M St Error unit :=
  let move (n : list Z) (dir : Z) (entries : list DirEntry) :=
    check_name_conflict fuel dir n ;;;
    c <- munwrap (new_cluster bs (fst (f_entry_location f))) ;;
    clear_entries fuel f (Some c) ;;;
    insert_dir_entries fuel dir entries in
  let stay :=
    match dir with
    | Some d =>
        if d =? f_dir f then ret tt
        else
          c <- munwrap (new_cluster bs (fst (f_entry_location f))) ;;
          entries <- read_entries fuel f (Some c) ;;
          move (f_name f) d entries
    | None => ret tt
    end in
  match n with
  | Some n =>
      if bool_decide (n = f_name f) then stay
      else
        o <- munwrap (lfn_sequence n (f_sfn f)) ;;
        match o with
        | None => mfail InvalidFileName
        | Some entries => move n (default (f_dir f) dir) entries
        end
  | None => stay
  end.

(** ** [FileReader] *)

(** The loop of [read] for a buffer with [want] bytes left. *)
Fixpoint read_loop (fuel : nat) (want : Z) (r : FileReader) : M St Error (list Z * FileReader) :=
  match fuel with
  | O => mdiverge
  | S fuel =>
      if (want =? 0) || (r_rest_size r =? 0) then ret ([], r)
      else
        match r_cursor r with
        | None => ret ([], r)
        | Some (c, offset) =>
            room <- munwrap (sub_checked 64 (size c) offset) ;;
            let l := Z.min (Z.min want (r_rest_size r)) room in
            '(part, c) <- held c drop_cluster (bc_read offset l) ;;
            cur <- (if l =? room then
                      o <- mcleanup (chained_get bs (bc_cluster c)) (drop_cluster c) ;;
                      drop_cluster c ;;;
                      ret ((fun c => (c, 0)) <$> o)
                    else ret (Some (c, offset + l))) ;;
            '(rest, r) <- read_loop fuel (want - l) {| r_rest_size := r_rest_size r - l; r_cursor := cur |} ;;
            ret (part ++ rest, r)
        end
  end.

Definition CHUNK : Z := 4096.

(** [read_to_end], reading by 4096 bytes until nothing comes. *)
Fixpoint read_to_end (fuel : nat) (r : FileReader) : M St Error (list Z) :=
  match fuel with
  | O => mdiverge
  | S fuel' =>
      '(part, r) <- read_loop fuel CHUNK r ;;
      if 0 <? zlen part then
        rest <- read_to_end fuel' r ;;
        ret (part ++ rest)
      else drop_cursor (r_cursor r) ;;; ret []
  end.

(** ** [FileWriter] *)

Definition set_cursor (cur : cursor) (w : FileWriter) : FileWriter :=
  {| w_file := w_file w; w_total_size := w_total_size w; w_cursor := cur |}.

Definition on_file {A} (m : M (St * File) Error A) : M (St * FileWriter) Error A := fun '(st, w) =>
  let '(o, (st', f)) := m (st, w_file w) in
  (o, (st', {| w_file := f; w_total_size := w_total_size w; w_cursor := w_cursor w |})).

(** The cluster and the offset the next bytes go to; the cursor has been
    taken. *)
Definition next_position (cur : cursor) : M (St * FileWriter) Error (BufferedCluster * Z) :=
  match cur with
  | Some (c, offset) =>
      if offset <? size c then ret (c, offset)
      else
        c' <- mfst (mcleanup (chained_prepare bs (bc_cluster c)) (drop_cluster c)) ;;
        mfst (drop_cluster c) ;;;
        ret (c', 0)
  | None => c <- on_file prepare_cluster ;; ret (c, 0)
  end.

(** One turn of the loop of [FileWriter::write]: the number of bytes taken
    from [buf]. *)
Definition write_chunk (buf : list Z) : M (St * FileWriter) Error Z :=
  '(st, w) <- mget ;;
  mput (st, set_cursor None w) ;;;
  '(c, offset) <- next_position (w_cursor w) ;;
  let l := Z.min (zlen buf) (size c - offset) in
  '(_, c) <- mfst (held c drop_cluster (bc_write offset (sub buf 0 l))) ;;
  '(st, w) <- mget ;;
  mput (st, {| w_file := w_file w; w_total_size := w_total_size w + l;
               w_cursor := Some (c, offset + l) |}) ;;;
  ret l.

Fixpoint write (fuel : nat) (buf : list Z) : M (St * FileWriter) Error unit :=
  match buf, fuel with
  | [], _ => ret tt
  | _, O => mdiverge
  | _, S fuel => l <- write_chunk buf ;; write fuel (drop (Z.to_nat l) buf)
  end.

(** [Drop for FileWriter]: the results are ignored, then the cursor goes. *)
Definition drop_writer : M (St * FileWriter) Error unit :=
  '(_, w) <- mget ;;
  mok (match w_cursor w with
       | Some (c, _) => mfst (chained_release bs (bc_cluster c))
       | None => on_file release_cluster
       end) ;;;
  mok (on_file (file_set_size (w_total_size w))) ;;;
  '(_, w) <- mget ;;
  mfst (drop_cursor (w_cursor w)).

(** ** [FileSystem] *)

Definition commit : M St Error unit := mmap_err VolumeE c_commit.

Definition root_dir : Z := root_dir_cluster bs.

End fat.

(** [Root::new], which [FileSystem::new] calls: the boot sector of the volume
    a [BufferedVolume] is then made for. *)
Definition root_new {V : Type} `{Volume V} : M V Error BootSector :=
  v <- mget ;;
  let ss := Volume.sector_size v in
  buf <- (fun v => let '(o, (v', buf)) := Volume.read 0 (v, replicate (Z.to_nat ss) 0) in
                   (match o with Ok _ => Ok buf | Err e => Err (VolumeE e)
                               | Panic => Panic | Diverge => Diverge end, v')) ;;
  match try_from buf with
  | Ok bs =>
      if negb (BootSector.sector_size bs =? ss) then
        mfail (BootSectorE (BootSector.Broken "BytsPerSec (mismatch)"))
      else
        total <- munwrap (total_sector_count bs) ;;
        v <- mget ;;
        if sector_count v <? total then mfail (BootSectorE (BootSector.Broken "TotSec (mismatch)"))
        else ret bs
  | Err e => mfail (BootSectorE e)
  | Panic => mpanic
  | Diverge => mdiverge
  end.
