(* ===== verification/FatFiles.v ===== *)
(** * Reading and writing files

    What [FileReader] and [FileWriter] of Fat.v do to the chains and the
    contents of clusters. The contents of a file are the first [file_size] bytes
    of the concatenation of its clusters. *)

From S2P Require Import Prelude Volume BootSector FatEntry DirEntry LowLevel Fat.
Local Open Scope Z_scope.
Local Open Scope rust_scope.

(** The bytes of a list of clusters. *)
Definition bytes_of (D : Z -> list Z) (cs : list Z) : list Z := mjoin (D <$> cs).

(** The contents of a file. *)
Definition contents (D : Z -> list Z) (f : File) (cs : list Z) : list Z :=
  take (Z.to_nat (file_size f)) (bytes_of D cs).

(** The life of a [FileWriter] in the [write] and [append] commands of the
    shell: one [write], whose error is reported, then the destructor. *)
Section commands.
Context {St : Type} `{SectorCache St} (bs : BootSector).

Definition write_and_close (fuel : nat) (w : FileWriter) (buf : list Z) : M St Error (option unit * File) :=
  '(r, w) <- attempt w (Fat.write bs fuel buf) ;;
  '(_, w) <- attempt w (drop_writer bs) ;;
  ret (r, w_file w).

Definition with_writer (mk : M St Error (option FileWriter)) (fuel : nat) (buf : list Z) :
    M St Error (option (option unit * File)) :=
  o <- mk ;;
  match o with
  | Some w => r <- write_and_close fuel w buf ;; ret (Some r)
  | None => ret None
  end.

(** [file.appender()] and [file.overwriter()] *)
Definition append_file (fuel : nat) (f : File) (buf : list Z) := with_writer (appender bs fuel f) fuel buf.
Definition overwrite_file (fuel : nat) (f : File) (buf : list Z) := with_writer (ret (overwriter f)) fuel buf.

(** The [read] command: [None] for a directory. *)
Definition read_file (fuel : nat) (f : File) : M St Error (option (list Z)) :=
  o <- reader bs f ;;
  match o with
  | Some r => buf <- read_to_end bs fuel r ;; ret (Some buf)
  | None => ret None
  end.

End commands.

Section readers.
Context {St : Type} `{SectorCacheLaws St n sz} {bs : BootSector}
  (Hg : geometry bs n) (Hsz : sz = bpb_byts_per_sec bs).
Implicit Types (st : St) (F : Z -> FatEntry) (D : Z -> list Z) (h : counts).

Abbreviation fs st := (fs_rep bs (St := St) (n := n) (sz := sz) st).

Lemma cluster_bytes_pos : 0 < cluster_bytes bs.
Proof.
  pose proof (valid_sector_size (g_valid _ _ Hg)). pose proof (v_sec_per_clus _ (g_valid _ _ Hg)).
  unfold cluster_bytes. nia.
Qed.

Lemma cluster_bytes_u64 : cluster_bytes bs < 2 ^ 32.
Proof.
  pose proof (valid_sector_size (g_valid _ _ Hg)). pose proof (v_sec_per_clus _ (g_valid _ _ Hg)).
  unfold cluster_bytes. nia.
Qed.

Lemma bytes_of_length st F D h cs :
  fs st F D h -> Forall (available bs) cs -> zlen (bytes_of D cs) = zlen cs * cluster_bytes bs.
Proof.
  intros Hf Ha. unfold bytes_of. rewrite (length_chunks _ (cluster_bytes bs)); [by rewrite length_fmap|].
  apply Forall_fmap. eapply Forall_impl; [exact Ha|]. intros k Hk. by eapply fs_rep_length.
Qed.

(** The bytes in front of a cursor. *)
Definition cursor_bytes F D (cur : cursor) (rem : list Z) : Prop :=
  match cur with
  | None => rem = []
  | Some (c, off) =>
      handle_ok bs c /\ 0 <= off < cluster_bytes bs /\ exists cs,
        is_chain bs F (bc_cluster c) (bc_cluster c :: cs) /\
        rem = drop (Z.to_nat off) (bytes_of D (bc_cluster c :: cs))
  end.

(** Reading [l] bytes at the cursor, up to the end of its cluster. *)
Lemma cursor_part F D st h c off cs l :
  fs st F D h -> is_chain bs F (bc_cluster c) (bc_cluster c :: cs) -> 0 <= off -> 0 <= l ->
  off + l <= cluster_bytes bs ->
  sub (D (bc_cluster c)) off l = take (Z.to_nat l) (drop (Z.to_nat off) (bytes_of D (bc_cluster c :: cs))).
Proof.
  intros Hf Hch Ho Hl Hb. pose proof (is_chain_available _ _ _ Hch) as Hav. apply Forall_cons in Hav as [Hk _].
  pose proof (fs_rep_length Hg Hsz _ _ _ _ _ Hf Hk) as HD.
  unfold bytes_of. simpl. rewrite drop_app_le by lia. rewrite take_app_le; [done|]. rewrite length_drop. lia.
Qed.

(** The cursor after a cluster has been read to its end. *)
Lemma next_cursor st F D h c off cs :
  fs st F D (own h (bc_last c)) -> handle_ok bs c -> is_chain bs F (bc_cluster c) (bc_cluster c :: cs) ->
  0 <= off <= cluster_bytes bs ->
  runs (o <- mcleanup (chained_get bs (bc_cluster c)) (drop_cluster c) ;;
        drop_cluster c ;;; ret ((fun c => (c, 0)) <$> o)) st (fun cur st' =>
    fs st' F D (own h (cursor_last cur)) /\ cursor_last cur = None /\
    cursor_bytes F D cur (drop (Z.to_nat (cluster_bytes bs)) (bytes_of D (bc_cluster c :: cs)))).
Proof.
  intros Hf Hok Hch Hoff. pose proof Hok as (Hk & _).
  pose proof (fs_rep_length Hg Hsz _ _ _ _ _ Hf Hk) as HD. pose proof cluster_bytes_pos.
  assert (Hdrop : drop (Z.to_nat (cluster_bytes bs)) (bytes_of D (bc_cluster c :: cs)) = bytes_of D cs).
  { unfold bytes_of. simpl. rewrite drop_app_length'; [done|lia]. }
  rewrite Hdrop. eapply runs_bind.
  { apply runs_cleanup, (chained_get_spec Hg Hsz _ _ _ _ (bc_cluster c) Hf Hk).
    intros k' Hk'. inversion Hch as [|? ? ? ? Hc Hch']; [congruence|]. simplify_eq.
    rewrite Hc in Hk'. simplify_eq. pose proof (is_chain_available _ _ _ Hch') as Hav.
    destruct (is_chain_head _ _ _ Hch') as [? ->]. by apply Forall_cons in Hav as [? _]. }
  intros o st1 [Hf1 Ho]. eapply runs_bind; [exact (drop_cluster_spec _ _ _ _ _ Hf1)|]. intros [] st2 Hf2. apply ends_ret.
  inversion Hch as [? ? Hc|? k' cs' ? Hc Hch']; rewrite Hc in Ho; simpl in Ho.
  - destruct o; [done|]. simpl. done.
  - destruct o as [c'|]; [|done]. destruct Ho as (Hok' & Hck & Hl). simpl.
    destruct (is_chain_head _ _ _ Hch') as [cs2 Hcs]. rewrite Hcs in *. rewrite Hl. split; [done|]. split; [done|].
    split; [done|]. split; [lia|]. exists cs2. by rewrite Hck.
Qed.

Lemma read_loop_spec fuel st F D h want r rem :
  fs st F D (own h (cursor_last (r_cursor r))) -> cursor_bytes F D (r_cursor r) rem ->
  0 <= want -> 0 <= r_rest_size r -> (length rem < fuel)%nat ->
  runs (read_loop bs fuel want r) st (fun p st' =>
    let l := Z.min (Z.min want (r_rest_size r)) (zlen rem) in
    p.1 = take (Z.to_nat l) rem /\ r_rest_size p.2 = r_rest_size r - l /\
    fs st' F D (own h (cursor_last (r_cursor p.2))) /\
    cursor_bytes F D (r_cursor p.2) (drop (Z.to_nat l) rem)).
Proof.
  revert st want r rem. induction fuel as [|fuel IH]; intros st want r rem Hf Hcur Hw Hr Hfuel; [lia|].
  cbn [read_loop]. destruct (Z.eqb_spec want 0) as [->|Hw0]; [|destruct (Z.eqb_spec (r_rest_size r) 0) as [Hr0|Hr0]].
  1-2: simpl; apply ends_ret; simpl; rewrite ?Hr0;
    (assert (Z.min (Z.min _ _) (zlen rem) = 0) as -> by (destruct rem; simpl; lia)); by split_and!; try lia.
  simpl. destruct (r_cursor r) as [[c off]|] eqn:Hc.
  2: { simpl in Hcur. subst rem. apply ends_ret. cbn [fst snd length]. rewrite Hc.
    assert (Z.min (Z.min want (r_rest_size r)) (Z.of_nat 0) = 0) as -> by lia.
    split_and!; try done. lia. }
  destruct Hcur as (Hok & Hoff & cs & Hch & Hrem). cbn [cursor_last] in Hf.
  pose proof Hok as (Hk & _). pose proof (fs_rep_length Hg Hsz _ _ _ _ _ Hf Hk) as HD.
  pose proof (is_chain_available _ _ _ Hch) as Hav. pose proof cluster_bytes_u64.
  pose proof (bytes_of_length _ _ _ _ _ Hf Hav) as Hlen.
  assert (Hremlen : cluster_bytes bs - off <= zlen rem).
  { rewrite Hrem, length_drop. simpl in Hlen. nia. }
  rewrite (size_ok c Hok). unfold sub_checked. rewrite checked_Some by (unfold unsigned; lia).
  apply (runs_bind _ _ _ (fun a b => a = cluster_bytes bs - off /\ b = st)); [done|]. intros ? ? [-> ->].
  set (l := Z.min (Z.min want (r_rest_size r)) (cluster_bytes bs - off)).
  apply (runs_bind _ _ _ (fun p st' => p.1 = take (Z.to_nat l) rem /\ fs st' F D (own h (bc_last p.2)) /\ same_handle c p.2)).
  { apply runs_held. eapply runs_mono; [apply (bc_read_spec Hg Hsz st F D h c off l); [done|done|lia|lia|lia]|].
    intros w s' (-> & ? & ?). split_and!; try done. simpl. rewrite Hrem.
    eapply cursor_part; [exact Hf|exact Hch|lia..]. }
  intros [part c'] st1 (Hpart & Hf1 & Hc'). cbn [fst snd] in *. subst part.
  destruct (same_handle_ok c c' Hc' Hok) as [Hok' Hck].
  apply (runs_bind _ _ _ (fun cur st' => fs st' F D (own h (cursor_last cur)) /\
    cursor_bytes F D cur (drop (Z.to_nat l) rem))).
  { destruct (Z.eqb_spec l (cluster_bytes bs - off)) as [Hl|Hl].
    - eapply runs_mono; [apply (next_cursor st1 F D h c' off cs Hf1 Hok'); [by rewrite Hck|lia]|].
      intros cur st2 (Hf2 & Hlast & Hcb). split; [done|]. rewrite Hck in Hcb. rewrite Hrem, drop_drop.
      replace (Z.to_nat off + Z.to_nat l)%nat with (Z.to_nat (cluster_bytes bs)) by lia. done.
    - apply ends_ret. split; [done|]. split; [done|]. split; [lia|]. exists cs. rewrite Hck. split; [done|].
      rewrite Hrem, drop_drop. f_equal. lia. }
  intros cur st2 [Hf2 Hcb]. cbn [r_rest_size r_cursor].
  eapply runs_bind; [apply (IH st2 (want - l) {| r_rest_size := r_rest_size r - l; r_cursor := cur |} (drop (Z.to_nat l) rem));
    [done|done|lia|simpl; lia|rewrite length_drop; lia]|].
  intros [rest r'] st3 (Hrest & Hrs & Hf3 & Hcb3). cbn [fst snd r_rest_size] in *. apply ends_ret. cbn [fst snd].
  rewrite length_drop in Hrest, Hrs, Hcb3.
  set (l2 := Z.min (Z.min (want - l) (r_rest_size r - l)) (Z.of_nat (length rem - Z.to_nat l))) in *.
  assert (Htot : Z.min (Z.min want (r_rest_size r)) (zlen rem) = l + l2) by lia. rewrite Htot.
  assert (0 <= l2) by lia. replace (Z.to_nat (l + l2)) with (Z.to_nat l + Z.to_nat l2)%nat by lia.
  split_and!; [|lia|done|by rewrite <- drop_drop]. rewrite Hrest. by rewrite take_take_drop.
Qed.

Lemma drop_cursor_spec {E} st F D h cur :
  fs st F D (own h (cursor_last cur)) -> runs (E := E) (drop_cursor cur) st (fun _ st' => fs st' F D h).
Proof.
  intros Hf. destruct cur as [[c i]|]; [exact (drop_cluster_spec _ _ _ _ _ Hf)|]. by apply ends_ret.
Qed.

Lemma read_to_end_spec fuel st F D h r rem :
  fs st F D (own h (cursor_last (r_cursor r))) -> cursor_bytes F D (r_cursor r) rem ->
  0 <= r_rest_size r -> (length rem + 1 < fuel)%nat ->
  runs (read_to_end bs fuel r) st (fun w st' =>
    w = take (Z.to_nat (r_rest_size r)) rem /\ fs st' F D h).
Proof.
  revert st r rem. induction fuel as [|fuel IH]; intros st r rem Hf Hcur Hr Hfuel; [lia|].
  cbn [read_to_end]. eapply runs_bind; [apply read_loop_spec; [done|done|unfold CHUNK; lia|done|lia]|].
  intros [part r'] st1 (Hpart & Hrs & Hf1 & Hcb). cbn [fst snd] in *.
  set (l := Z.min (Z.min CHUNK (r_rest_size r)) (zlen rem)) in *.
  assert (Hchunk : CHUNK = 4096) by done.
  assert (Hpl : zlen part = l) by (rewrite Hpart, length_take; lia).
  destruct (Z.ltb_spec 0 (zlen part)) as [Hl|Hl].
  - eapply runs_bind; [apply (IH st1 r' (drop (Z.to_nat l) rem) Hf1 Hcb); [lia|rewrite length_drop; lia]|].
    intros w st2 [-> Hf2]. apply ends_ret. split; [|done]. rewrite Hpart, Hrs.
    rewrite take_take_drop. f_equal. lia.
  - eapply runs_bind; [by apply drop_cursor_spec|]. intros [] st2 Hf2. apply ends_ret. split; [|done].
    assert (l = 0) by lia. destruct (decide (r_rest_size r = 0)) as [->|]; [done|].
    destruct rem; [by rewrite take_nil|]. unfold l, CHUNK in *. simpl in *. lia.
Qed.

(** A file of the volume: its clusters, and as many bytes in them as its entry
    says. *)
Record file_ok F (f : File) (cs : list Z) : Prop := {
  fo_file : file_is_dir f = false;
  fo_chain : match DirEntry.cluster (f_sfn f) with
             | Some k => is_chain bs F k cs
             | None => cs = []
             end;
  fo_size : 0 <= file_size f <= zlen cs * cluster_bytes bs
}.

Lemma file_cluster_spec st F D h f cs :
  fs st F D h -> file_ok F f cs ->
  runs (file_cluster bs f) st (fun o st' => fs st' F D h /\
    match cs, o with
    | [], None => DirEntry.cluster (f_sfn f) = None
    | k :: _, Some c => handle_ok bs c /\ bc_cluster c = k /\ bc_last c = None
    | _, _ => False
    end).
Proof.
  intros Hf [_ Hch _]. unfold file_cluster. destruct (DirEntry.cluster (f_sfn f)) as [k|] eqn:Hk.
  - destruct (is_chain_head _ _ _ Hch) as [cs' ->]. pose proof (is_chain_available _ _ _ Hch) as Hav.
    apply Forall_cons in Hav as [Ha _]. destruct (new_cluster_spec Hg k Ha) as (c & -> & ? & ? & ?).
    by apply (runs_bind _ _ _ (fun a b => a = c /\ b = st)); [|intros ? ? [-> ->]].
  - subst cs. by apply ends_ret.
Qed.

Lemma read_file_spec fuel st F D h f cs :
  fs st F D h -> file_ok F f cs -> (length (bytes_of D cs) + 1 < fuel)%nat ->
  runs (o <- reader bs f ;; r <- munwrap o ;; read_to_end bs fuel r) st (fun w st' =>
    w = take (Z.to_nat (file_size f)) (bytes_of D cs) /\ fs st' F D h).
Proof.
  intros Hf Hok Hfuel. pose proof Hok as [Hd Hch Hs]. unfold reader. rewrite Hd.
  pose proof cluster_bytes_pos.
  apply (runs_bind _ _ _ (fun o st' => exists r, o = Some r /\ fs st' F D (own h (cursor_last (r_cursor r))) /\
    r_rest_size r = file_size f /\ cursor_bytes F D (r_cursor r) (bytes_of D cs))).
  { eapply runs_bind; [by apply file_cluster_spec|]. intros o st1 [Hf1 Ho]. apply ends_ret.
    eexists. split; [done|]. destruct cs as [|k cs], o as [c|]; try done; cbn [r_cursor r_rest_size fmap option_fmap option_map].
    destruct Ho as (Hcok & Hck & Hl). cbn [cursor_last]. rewrite Hl. split; [done|]. split; [done|].
    split; [done|]. split; [lia|]. exists cs. rewrite Hck. split; [|by rewrite drop_0].
    destruct (DirEntry.cluster (f_sfn f)) as [k'|]; [|done].
    destruct (is_chain_head _ _ _ Hch) as [? [= -> ->]]. done. }
  intros o st1 (r & -> & Hf1 & Hrs & Hcb).
  apply (runs_bind _ _ _ (fun a b => a = r /\ b = st1)); [done|]. intros ? ? [-> ->].
  rewrite <- Hrs. apply read_to_end_spec; [done|done|lia|done].
Qed.

End readers.

(** ** Lemmas: entries that are rewritten *)

Lemma archive_ok a :
  u8 a -> Z.land a LONG_FILE_NAME_MASK <> LONG_FILE_NAME ->
  u8 (Z.lor a ARCHIVE) /\ Z.land (Z.lor a ARCHIVE) LONG_FILE_NAME_MASK <> LONG_FILE_NAME.
Proof.
  intros Ha _. pose proof (u8_forall (fun a => unsignedb 8 (Z.lor a ARCHIVE) &&
    negb (Z.land (Z.lor a ARCHIVE) LONG_FILE_NAME_MASK =? LONG_FILE_NAME)) ltac:(vm_compute; reflexivity) a Ha) as He.
  apply andb_true_iff in He as [H1 H2]. apply unsignedb_spec in H1. split; [done|lia].
Qed.

Lemma mark_archive_ok e : entry_ok (Sfn e) -> entry_ok (Sfn (mark_archive e)).
Proof.
  intros ([Hn Ha Hr Ht Hts Hs] & Hst & Hat). destruct (archive_ok _ Ha Hat) as [H1 H2].
  split; [by split|]. done.
Qed.

Lemma set_cluster_entry_ok c e : entry_ok (Sfn e) -> entry_ok (Sfn (set_cluster c e)).
Proof. intros (Hok & Hst & Hat). split; [by apply set_cluster_ok|]. by destruct c. Qed.

Lemma set_file_size_ok s e :
  entry_ok (Sfn e) -> 0 <= s < 2 ^ 32 -> exists e',
    set_file_size s e = Some e' /\ entry_ok (Sfn e') /\ DirEntry.file_size e' = s /\
    DirEntry.cluster e' = DirEntry.cluster e /\
    is_directory e' = is_directory e /\ is_volume_id e' = is_volume_id e /\ DirEntry.name e' = DirEntry.name e /\ nt_res e' = nt_res e.
Proof.
  intros ([Hn Ha Hr Ht Hts Hsz] & Hst & Hat) Hs. unfold set_file_size.
  rewrite (proj2 (Z.leb_le _ _)) by lia. eexists. split; [done|].
  rewrite wrap_small by done. split; [|done]. split; [by split|]. done.
Qed.

(** The rest of a directory cluster when one of its slots is rewritten. *)
Definition slot_frame (D D' : Z -> list Z) (kd id : Z) : Prop :=
  D' kd = upd (D kd) (id * 32) (sub (D' kd) (id * 32) 32).

Lemma upd_sub {A} (l : list A) i k : 0 <= i -> 0 <= k -> i + k <= zlen l -> upd l i (sub l i k) = l.
Proof.
  intros Hi Hk Hl. apply list_eq. intros j. rewrite lookup_upd by (rewrite ?length_sub; lia).
  case_decide as Hj; [|done]. rewrite length_sub in Hj by lia. rewrite lookup_sub, decide_True by lia. f_equal. lia.
Qed.

Lemma upd_upd_same {A} (l : list A) i a b :
  0 <= i -> length a = length b -> i + zlen a <= zlen l -> upd (upd l i a) i b = upd l i b.
Proof.
  intros Hi Hab Hl. apply list_eq. intros j. rewrite !lookup_upd by (rewrite ?length_upd; lia).
  rewrite Hab. by case_decide.
Qed.

(** ** Lemmas: chains that grow *)

Section chain_growth.
Context {bs : BootSector}.
Implicit Types (F : Z -> FatEntry) (cs : list Z).

Lemma is_chain_used F k cs x : is_chain bs F k cs -> x ∈ cs -> F x <> FatEntry.Unused.
Proof.
  induction 1 as [c Ha Hc|c c' l Ha Hc H1 IH]; rewrite elem_of_cons; [rewrite elem_of_nil|]; naive_solver congruence.
Qed.

Lemma is_chain_cons_inv F k k' cs :
  is_chain bs F k (k :: k' :: cs) -> F k = UsedChained k' /\ is_chain bs F k' (k' :: cs).
Proof.
  intros Hch. inversion Hch as [|? k2 ? ? Hc Hch' Heq]. destruct (is_chain_head _ _ _ Hch') as [? [= ->]]. done.
Qed.

Lemma is_chain_last F k cs x : is_chain bs F k cs -> last cs = Some x -> F x = UsedEoc.
Proof.
  induction 1 as [c Ha Hc|c c' l Ha Hc H1 IH]; simpl; [congruence|].
  destruct (is_chain_head _ _ _ H1) as [l' ->]. exact IH.
Qed.

Lemma is_chain_suffix_last F k cs x : is_chain bs F k cs -> last cs = Some x -> is_chain bs F x [x].
Proof.
  intros Hch Hl. constructor; [|by eapply is_chain_last].
  apply (proj1 (Forall_forall _ _) (is_chain_available _ _ _ Hch)), last_Some_elem_of. done.
Qed.

Lemma is_chain_grow F k cs x r :
  is_chain bs F k cs -> last cs = Some x -> available bs r -> F r = FatEntry.Unused ->
  is_chain bs (<[x := UsedChained r]> (<[r := UsedEoc]> F)) k (cs ++ [r]).
Proof.
  intros Hch Hl Hr Hu. assert (Hxr : x <> r).
  { intros ->. pose proof (is_chain_last _ _ _ _ Hch Hl). congruence. }
  assert (Hend : is_chain bs (<[x := UsedChained r]> (<[r := UsedEoc]> F)) r [r]).
  { constructor; [done|]. by rewrite fn_lookup_insert_ne, fn_lookup_insert. }
  pose proof (is_chain_NoDup _ _ _ Hch) as Hnd. revert Hnd Hl.
  induction Hch as [c Ha Hc|c c' l Ha Hc H1 IH]; simpl; intros Hnd Hl.
  - simplify_eq. econstructor; [done| |exact Hend]. by rewrite fn_lookup_insert.
  - apply NoDup_cons in Hnd as [Hnot Hnd]. destruct (is_chain_head _ _ _ H1) as [l' Hl']. rewrite Hl' in Hl.
    simpl in Hl. rewrite <- Hl' in Hl. econstructor; [done| |by apply IH].
    rewrite fn_lookup_insert_ne, fn_lookup_insert_ne; [done| |].
    + intros <-. congruence.
    + intros ->. apply Hnot, last_Some_elem_of. done.
Qed.

Lemma is_chain_lookup F k0 cs a k :
  is_chain bs F k0 cs -> cs !! a = Some k -> chain (F k) = cs !! S a /\ (cs !! S a = None -> F k = UsedEoc).
Proof.
  intros Hch. revert a. induction Hch as [c Hc He|c c' l Hc He Hch IH]; intros a Hk.
  - destruct a as [|a]; simpl in Hk; simplify_eq. by rewrite He.
  - destruct a as [|a]; simpl in Hk; simplify_eq; [|by apply IH].
    rewrite He. destruct (is_chain_head _ _ _ Hch) as [l' ->]. done.
Qed.

End chain_growth.

Lemma take_upd_append {A} (P b data l : list A) off :
  take (length data) (P ++ b) = data -> off = zlen data - zlen P -> 0 <= off -> off + zlen l <= zlen b ->
  take (length (data ++ l)) (P ++ upd b off l) = data ++ l.
Proof.
  intros Hd -> Ho Hb. unfold upd. rewrite take_app_ge in Hd by lia.
  replace (Z.to_nat (zlen data - zlen P)) with (length data - length P)%nat by lia.
  by rewrite !app_assoc, Hd, take_app_length.
Qed.

(** ** Writing *)

Section writers.
Context {St : Type} `{SectorCacheLaws St n sz} {bs : BootSector}
  (Hg : geometry bs n) (Hsz : sz = bpb_byts_per_sec bs).
Implicit Types (st : St) (F : Z -> FatEntry) (D : Z -> list Z) (h : counts) (f : File) (cs : list Z).

Abbreviation fs st := (fs_rep bs (St := St) (n := n) (sz := sz) st).

(** A file that can be written: its entry has a slot in a used directory
    cluster outside its own chain, and names the head of the chain. *)
Definition writable F f cs : Prop :=
  let '(e, kd, id) := f_last_entry f in
  available bs kd /\ 0 <= id < cluster_bytes bs / 32 /\ F kd <> FatEntry.Unused /\ (kd ∉ cs) /\
  entry_ok (Sfn e) /\
  match cs with
  | [] => DirEntry.cluster e = None
  | k :: _ => DirEntry.cluster e = Some k /\ is_chain bs F k cs
  end.

(** The contents so far are [data], at the end of which the cursor is. *)
Definition at_end D cs (data : list Z) (cur : cursor) : Prop :=
  take (length data) (bytes_of D cs) = data /\
  match cur with
  | None => cs = [] /\ data = []
  | Some (c, off) =>
      handle_ok bs c /\ last cs = Some (bc_cluster c) /\
      off = zlen data - (zlen cs - 1) * cluster_bytes bs /\ 0 <= off <= cluster_bytes bs
  end.

(** What a write may change: the clusters of the file, which has only taken
    free ones, and the slot of its entry. *)
Record changes F D F' D' (kd id : Z) cs cs' : Prop := {
  ch_grow : exists new, cs' = cs ++ new /\ forall x, x ∈ new -> F x = FatEntry.Unused /\ available bs x;
  ch_fat : forall x, x ∉ cs' -> F' x = F x;
  ch_data : forall x, available bs x -> x ∉ cs' -> x <> kd -> D' x = D x;
  ch_slot : slot_frame D D' kd id
}.

Lemma slot_frame_refl st F D h kd id :
  fs st F D h -> available bs kd -> 0 <= id < cluster_bytes bs / 32 -> slot_frame D D kd id.
Proof.
  intros Hf Hk Hi. destruct (entry_range (bs := bs) id Hi). unfold slot_frame. rewrite upd_sub; [done|lia|lia|].
  rewrite (fs_rep_length Hg Hsz _ _ _ _ _ Hf Hk). lia.
Qed.

Lemma slot_frame_trans D1 D2 D3 kd id :
  zlen (D1 kd) = cluster_bytes bs -> 0 <= id < cluster_bytes bs / 32 -> zlen (D3 kd) = cluster_bytes bs ->
  slot_frame D1 D2 kd id -> slot_frame D2 D3 kd id -> slot_frame D1 D3 kd id.
Proof.
  intros Hl Hi Hl3 H12 H23. destruct (entry_range (bs := bs) id Hi). unfold slot_frame in *. rewrite H23 at 1. rewrite H12.
  apply upd_upd_same; [lia| |].
  - rewrite <- Nat2Z.inj_iff, !length_sub; try lia. rewrite H12, length_upd; [lia|lia|].
    unfold sub. rewrite length_take. lia.
  - unfold sub. rewrite length_take. lia.
Qed.

(** [write_back]: the slot gets the entry, marked as archived. *)
Lemma write_back_spec st F D h f cs :
  fs st F D h -> writable F f cs ->
  let '(e, kd, id) := f_last_entry f in
  let e' := mark_archive e in
  runs (write_back bs) (st, f) (fun _ s' =>
    s'.2 = with_sfn e' f /\
    fs s'.1 F (<[kd := upd (D kd) (id * 32) (into_bytes (Sfn e'))]> D) h).
Proof.
  intros Hf Hw. unfold writable in Hw. destruct (f_last_entry f) as [[e kd] id] eqn:Hlast.
  destruct Hw as (Hkd & Hid & _ & _ & He & _). unfold write_back.
  apply (runs_bind _ _ _ (fun a b => a = (st, f) /\ b = (st, f))); [done|]. intros ? ? [-> ->].
  unfold f_sfn. rewrite Hlast. cbn [fst snd].
  apply (runs_bind _ _ _ (fun _ b => b = (st, with_sfn (mark_archive e) f))); [done|]. intros [] ? ->.
  unfold with_sfn at 1. cbn [f_last_entry]. rewrite Hlast.
  destruct (new_cluster_spec Hg kd Hkd) as (c & -> & Hok & Hck & Hl).
  apply (runs_bind _ _ _ (fun a b => a = c /\ b = (st, with_sfn (mark_archive e) f))); [done|]. intros ? ? [-> ->].
  destruct (entry_codec _ (mark_archive_ok e He)) as (_ & Hlen & Hb).
  eapply runs_mono; [apply runs_mfst, (scoped_cluster (bs := bs) _ _ h c (fun _ F' D' => F' = F /\
    D' = <[kd := upd (D kd) (id * 32) (into_bytes (Sfn (mark_archive e)))]> D))|].
  - eapply runs_mono.
    + apply (write_dir_entry_spec Hg Hsz st F D h c id (Sfn (mark_archive e))); try done. by rewrite Hl.
    + intros [] s' [Hf' Hc']. rewrite Hck in Hf'. eauto 10.
  - intros [] s' [Hs (F' & D' & Hf' & -> & ->)]. done.
Qed.

Lemma changes_refl st F D h kd id cs :
  fs st F D h -> available bs kd -> 0 <= id < cluster_bytes bs / 32 -> changes F D F D kd id cs cs.
Proof.
  intros Hf Hk Hi. split; try done; [|by eapply slot_frame_refl].
  exists []. rewrite app_nil_r. split; [done|]. intros x Hx%not_elem_of_nil. done.
Qed.

Lemma changes_trans st1 st2 F1 D1 F2 D2 F3 D3 h1 h2 kd id cs1 cs2 cs3 :
  fs st1 F1 D1 h1 -> fs st2 F3 D3 h2 -> available bs kd -> 0 <= id < cluster_bytes bs / 32 ->
  changes F1 D1 F2 D2 kd id cs1 cs2 -> changes F2 D2 F3 D3 kd id cs2 cs3 ->
  (forall x, x ∈ cs2 -> F2 x <> FatEntry.Unused) ->
  changes F1 D1 F3 D3 kd id cs1 cs3.
Proof.
  intros Hf1 Hf3 Hk Hi [(n1 & -> & Hn1) HF1 HD1 HS1] [(n2 & -> & Hn2) HF2 HD2 HS2] Hused. split.
  - exists (n1 ++ n2). split; [by rewrite app_assoc|]. intros x [Hx|Hx]%elem_of_app; [by apply Hn1|].
    destruct (Hn2 x Hx) as [Hu Ha]. split; [|done]. rewrite <- HF1; [done|]. intros Hin. by destruct (Hused x Hin).
  - intros x Hx. rewrite HF2 by done. apply HF1. intros Hin. apply Hx, elem_of_app. by left.
  - intros x Ha Hx Hne. rewrite HD2 by done. apply HD1; [done| |done]. intros Hin. apply Hx, elem_of_app. by left.
  - eapply slot_frame_trans; [|done| |done|done].
    + by rewrite (fs_rep_length Hg Hsz _ _ _ _ _ Hf1 Hk).
    + by rewrite (fs_rep_length Hg Hsz _ _ _ _ _ Hf3 Hk).
Qed.

Lemma writable_grow F f cs k r :
  writable F f cs -> last cs = Some k -> available bs r -> F r = FatEntry.Unused ->
  writable (<[k := UsedChained r]> (<[r := UsedEoc]> F)) f (cs ++ [r]).
Proof.
  unfold writable. destruct (f_last_entry f) as [[e kd] id]. intros (Hkd & Hid & Hu & Hnot & He & Hcs) Hl Hr Hru.
  assert (kd <> r) by congruence.
  assert (kd <> k) by (intros ->; apply Hnot, last_Some_elem_of; done).
  split_and!; try done; try lia.
  - rewrite !fn_lookup_insert_ne by congruence. done.
  - rewrite elem_of_app, list_elem_of_singleton. naive_solver.
  - destruct cs as [|k0 cs]; [done|]. destruct Hcs as [Hc Hch]. simpl. split; [done|].
    by apply (is_chain_grow _ _ (k0 :: cs)).
Qed.

Lemma bytes_of_prefix D cs cs' data :
  take (length data) (bytes_of D cs) = data -> take (length data) (bytes_of D (cs ++ cs')) = data.
Proof.
  intros Hd. unfold bytes_of in *. rewrite fmap_app, join_app.
  assert (length data <= length (mjoin (D <$> cs)))%nat by (rewrite <- Hd, length_take; lia).
  by rewrite take_app_le.
Qed.

Definition no_free F : Prop := forall x, available bs x -> F x <> FatEntry.Unused.

(** A full last cluster: a free one is linked behind it. *)
Lemma grow_position st F D h f cs data c off :
  fs st F D (own h (bc_last c)) -> writable F f cs -> at_end D cs data (Some (c, off)) -> off = cluster_bytes bs ->
  ends (c' <- mcleanup (chained_prepare bs (bc_cluster c)) (drop_cluster c) ;; drop_cluster c ;;; ret c') st
    (fun c' st' => exists F' cs', fs st' F' D h /\ bc_last c' = None /\ writable F' f cs' /\
      at_end D cs' data (Some (c', 0)) /\ exists r, cs' = cs ++ [r] /\ available bs r /\ F r = FatEntry.Unused /\
      forall x, x ∉ cs' -> F' x = F x)
    (fun e st' => e = Full /\ fs st' F D h /\ no_free F).
Proof.
  intros Hf Hw [Hd (Hok & Hl & Hoff & Hb)] Hfull.
  assert (Hne : cs <> []) by (intros ->; done). pose proof Hw as Hw'. unfold writable in Hw'.
  destruct (f_last_entry f) as [[e kd] id]. destruct Hw' as (_ & _ & _ & _ & _ & Hcs).
  destruct cs as [|k0 cs]; [done|]. destruct Hcs as [_ Hch]. pose proof (is_chain_last _ _ _ _ Hch Hl) as Heoc.
  pose proof Hok as (Hk & _). pose proof cluster_bytes_pos Hg.
  apply ends_bind. unfold mcleanup at 1, ends at 1.
  pose proof (chained_prepare_spec Hg Hsz st F D _ (bc_cluster c) Hf Hk ltac:(congruence)) as Hp.
  unfold ends in Hp. destruct (chained_prepare bs (bc_cluster c) st) as [[c'|e'| |] st1]; try done.
  - destruct Hp as (Hok' & Hl' & Hp). rewrite Heoc in Hp. simpl in Hp. destruct Hp as [(Ha & Hu & _) Hf1].
    eapply runs_ends_bind; [exact (drop_cluster_spec _ _ _ _ _ Hf1)|]. intros [] st2 Hf2. apply ends_ret.
    eexists _, ((k0 :: cs) ++ [bc_cluster c']). split; [exact Hf2|]. split; [done|].
    split; [by apply writable_grow|]. split.
    + split; [by apply bytes_of_prefix|]. split; [done|]. split; [by rewrite last_snoc|].
      rewrite length_app. simpl in *. lia.
    + eexists. split; [done|]. split; [done|]. split; [done|]. intros x Hx. rewrite elem_of_app, list_elem_of_singleton in Hx.
      rewrite !fn_lookup_insert_ne; [done| |].
      * intros <-. tauto.
      * intros <-. apply Hx. left. by apply last_Some_elem_of.
  - destruct Hp as (-> & Hf1 & _ & Hnf).
    destruct (proj1 (runs_Ok _ _ _) (drop_cluster_spec (E := Error) _ _ _ _ _ Hf1)) as ([] & st2 & -> & Hf2). done.
Qed.

Lemma is_directory_archive e : is_directory (mark_archive e) = is_directory e.
Proof.
  unfold is_directory, mark_archive, has_bits. cbn [attr with_attr]. f_equal.
  rewrite Z.land_lor_distr_l. change (Z.land ARCHIVE DIRECTORY) with 0. apply Z.lor_0_r.
Qed.

Lemma is_volume_id_archive e : is_volume_id (mark_archive e) = is_volume_id e.
Proof.
  unfold is_volume_id, mark_archive, has_bits. cbn [attr with_attr]. f_equal.
  rewrite Z.land_lor_distr_l. change (Z.land ARCHIVE VOLUME_ID) with 0. apply Z.lor_0_r.
Qed.

(** An entry of the same kind and name. *)
Definition same_id (e e' : SfnEntry) : Prop :=
  is_directory e' = is_directory e /\ is_volume_id e' = is_volume_id e /\ DirEntry.name e' = DirEntry.name e /\ nt_res e' = nt_res e.

Lemma same_id_archive e e' : same_id e e' -> same_id e (mark_archive e').
Proof. unfold same_id. by rewrite is_directory_archive, is_volume_id_archive. Qed.

Lemma same_id_cluster c e : same_id e (set_cluster c e).
Proof. by destruct c. Qed.

(** The location of the entry of a file does not change, nor its kind. *)
Definition same_place f f' : Prop :=
  file_is_dir f' = file_is_dir f /\
  f_dir f' = f_dir f /\ f_name f' = f_name f /\ f_entry_location f' = f_entry_location f /\
  (f_last_entry f').1.2 = (f_last_entry f).1.2 /\ (f_last_entry f').2 = (f_last_entry f).2 /\ same_id (f_sfn f) (f_sfn f').

Lemma same_place_sfn e f : same_id (f_sfn f) e -> same_place f (with_sfn e f).
Proof. unfold same_place, same_id, with_sfn, file_is_dir, f_sfn. simpl. destruct (f_last_entry f) as [[? ?] ?]. simpl. naive_solver. Qed.

Definition slot_of f : Z * Z := ((f_last_entry f).1.2, (f_last_entry f).2).

Lemma with_sfn_with e e' f : with_sfn e (with_sfn e' f) = with_sfn e f.
Proof. unfold with_sfn. simpl. by destruct (f_last_entry f) as [[? ?] ?]. Qed.

(** A file without clusters gets its first one. *)
Lemma fresh_position st F D h f :
  fs st F D h -> writable F f [] ->
  ends (prepare_cluster bs) (st, f)
    (fun c s' => exists F' D' k, fs s'.1 F' D' h /\ bc_last c = None /\ writable F' s'.2 [k] /\
      at_end D' [k] [] (Some (c, 0)) /\ same_place f s'.2 /\
      changes F D F' D' (slot_of f).1 (slot_of f).2 [] [k])
    (fun e s' => e = Full /\ fs s'.1 F D h /\ s'.2 = f /\ no_free F).
Proof.
  intros Hf Hw. pose proof Hw as Hw'. unfold writable in Hw'. unfold prepare_cluster, slot_of.
  destruct (f_last_entry f) as [[e kd] id] eqn:Hlast. destruct Hw' as (Hkd & Hid & Hu & _ & He & Hc).
  assert (Hsfn : f_sfn f = e) by (unfold f_sfn; by rewrite Hlast). cbn [fst snd].
  apply (runs_ends_bind _ _ _ (fun a b => a = (st, f) /\ b = (st, f))); [done|]. intros ? ? [-> ->].
  rewrite Hsfn, Hc. apply ends_bind. unfold mfst at 1, ends at 1. cbn [fst snd].
  pose proof (with_fat_allocate Hg Hsz st F D h Hf) as Hal. unfold ends in Hal.
  destruct (with_fat (fat_allocate bs) st) as [[r|e'| |] st1]; try done; [|by destruct Hal as (-> & ? & ?)].
  destruct Hal as [Hf1 (Har & Hur & _)].
  apply (runs_ends_bind _ _ _ (fun a b => a = (st1, f) /\ b = (st1, f))); [done|]. intros ? ? [-> ->].
  rewrite Hsfn. set (e1 := set_cluster (Some r) e). set (f1 := with_sfn e1 f).
  apply (runs_ends_bind _ _ _ (fun _ b => b = (st1, f1))); [done|]. intros [] ? ->.
  assert (Hcr : DirEntry.cluster e1 = Some r).
  { apply cluster_set_cluster. pose proof (g_max _ _ Hg). unfold available in Har. lia. }
  assert (Hlast1 : f_last_entry f1 = (e1, kd, id)) by (unfold f1, with_sfn; simpl; by rewrite Hlast).
  assert (Hne : kd <> r) by congruence.
  assert (Hw1 : writable (<[r := UsedEoc]> F) f1 [r]).
  { unfold writable. rewrite Hlast1. split_and!; try done; try lia.
    - by rewrite fn_lookup_insert_ne by congruence.
    - by rewrite list_elem_of_singleton.
    - by apply set_cluster_entry_ok.
    - constructor; [done|]. by rewrite fn_lookup_insert. }
  pose proof (write_back_spec st1 _ _ _ f1 [r] Hf1 Hw1) as Hwb. rewrite Hlast1 in Hwb.
  eapply runs_ends_bind; [exact Hwb|]. intros [] [st2 f2] [Hf2e Hf2]. cbn [fst snd] in *. subst f2.
  destruct (new_cluster_spec Hg r Har) as (c & -> & Hok & Hck & Hl). apply ends_ret. cbn [fst snd].
  eexists _, _, r. split; [exact Hf2|]. split; [done|]. pose proof (cluster_bytes_pos Hg). split_and!.
  - unfold writable, with_sfn in *. rewrite Hlast1 in *. cbn [f_last_entry].
    destruct Hw1 as (? & ? & ? & ? & ? & ?). split_and!; try done; try lia; try tauto. by apply mark_archive_ok.
  - split; [done|]. split; [done|]. simpl. rewrite Hck. split; [done|]. lia.
  - unfold f1. rewrite with_sfn_with. apply same_place_sfn, same_id_archive. rewrite Hsfn. apply same_id_cluster.
  - destruct (entry_range (bs := bs) id Hid). destruct (entry_codec _ (mark_archive_ok _ (set_cluster_entry_ok (Some r) e He))) as (_ & Hlen & _).
    fold e1 in Hlen. pose proof (fs_rep_length Hg Hsz _ _ _ _ _ Hf Hkd) as HD. split.
    + exists [r]. split; [done|]. by intros x ->%list_elem_of_singleton.
    + intros x Hx. rewrite list_elem_of_singleton in Hx. by rewrite fn_lookup_insert_ne by congruence.
    + intros x _ _ Hx. by rewrite fn_lookup_insert_ne by congruence.
    + unfold slot_frame. rewrite fn_lookup_insert. rewrite sub_upd_same_n; rewrite ?Hlen; try done; lia.
Qed.

Lemma next_position_spec st F D h w cs data cur :
  fs st F D (own h (cursor_last cur)) -> writable F (w_file w) cs -> at_end D cs data cur ->
  ends (next_position bs cur) (st, w)
    (fun p s' => exists F' D' cs', fs s'.1 F' D' (own h (bc_last p.1)) /\ writable F' (w_file s'.2) cs' /\
      at_end D' cs' data (Some p) /\ p.2 < cluster_bytes bs /\ same_place (w_file w) (w_file s'.2) /\
      w_total_size s'.2 = w_total_size w /\
      changes F D F' D' (slot_of (w_file w)).1 (slot_of (w_file w)).2 cs cs')
    (fun e s' => e = Full /\ fs s'.1 F D h /\ s'.2 = w /\ no_free F /\ zlen data = zlen cs * cluster_bytes bs).
Proof.
  intros Hf Hw Hat. pose proof Hw as Hw'. unfold writable in Hw'. destruct w as [f total wcur]. cbn [w_file w_total_size] in *.
  destruct (f_last_entry f) as [[e kd] id] eqn:Hlast. destruct Hw' as (Hkd & Hid & _).
  assert (Hslot : slot_of f = (kd, id)) by (unfold slot_of; by rewrite Hlast). rewrite Hslot. cbn [fst snd].
  unfold next_position. destruct cur as [[c off]|].
  - pose proof Hat as [_ (Hok & Hl & Hoff & Hb)]. rewrite (size_ok c Hok).
    destruct (Z.ltb_spec off (cluster_bytes bs)) as [Hlt|Hge].
    + apply ends_ret. exists F, D, cs. split_and!; try done. by eapply changes_refl.
    + assert (off = cluster_bytes bs) as Hfull by lia.
      pose proof (grow_position _ _ _ h f cs data c off Hf Hw Hat Hfull) as Hgp.
      unfold ends, mbnd in Hgp. unfold ends, mbnd, mfst. cbn [fst snd].
      destruct (mcleanup (chained_prepare bs (bc_cluster c)) (drop_cluster c) st) as [[c'|e'| |] st1]; try done.
      * cbn [fst snd]. destruct (drop_cluster c st1) as [[[]|?| |] st2]; try done; [|destruct Hgp as (-> & ? & ?); split_and!; try done; lia].
        unfold ret in *.
        destruct Hgp as (F' & cs' & Hf' & Hl' & Hw' & Hat' & r & -> & Har & Hur & HF').
        exists F', D, (cs ++ [r]). cbn [fst snd w_file w_total_size]. rewrite Hl'. split_and!; try done.
        -- apply (cluster_bytes_pos Hg).
        -- split; try done; [|by eapply slot_frame_refl]. exists [r]. split; [done|]. by intros x ->%list_elem_of_singleton.
      * destruct Hgp as (-> & ? & ?). split_and!; try done; lia.
  - destruct Hat as [_ [-> ->]]. pose proof (fresh_position st F D h f Hf Hw) as Hfp.
    unfold ends, mbnd, on_file. cbn [w_file]. unfold ends in Hfp.
    destruct (prepare_cluster bs (st, f)) as [[c'|e'| |] [st1 f1]]; try done.
    + destruct Hfp as (F' & D' & k & Hf' & Hl' & Hw' & Hat' & Hsame & Hch). cbn [fst snd ret] in *.
      exists F', D', [k]. cbn [w_file w_total_size]. rewrite Hl'. rewrite Hslot in Hch. split_and!; try done.
      apply (cluster_bytes_pos Hg).
    + cbn [fst snd] in Hfp. destruct Hfp as (-> & ? & -> & ?). done.
Qed.

(** Bytes written at the cursor, within the last cluster. *)
Lemma put_bytes st F D h f cs data c off l :
  fs st F D (own h (bc_last c)) -> writable F f cs -> at_end D cs data (Some (c, off)) -> bytes_ok l ->
  off + zlen l <= cluster_bytes bs ->
  runs (bc_write off l) (st, c) (fun _ s' => exists D', fs s'.1 F D' (own h (bc_last s'.2)) /\
    at_end D' cs (data ++ l) (Some (s'.2, off + zlen l)) /\
    changes F D F D' (slot_of f).1 (slot_of f).2 cs cs).
Proof.
  intros Hf Hw [Hd (Hok & Hl & Hoff & Hb)] Hbl Hlen. pose proof Hw as Hw'. unfold writable in Hw'. unfold slot_of.
  destruct (f_last_entry f) as [[e kd] id]. destruct Hw' as (Hkd & Hid & _ & Hnot & _ & Hch). cbn [fst snd].
  eapply runs_mono; [apply (bc_write_spec Hg Hsz st F D h c off l); try done; lia|]. intros [] [st' c'] [Hf' Hsame]. cbn [fst snd] in *.
  destruct (same_handle_ok (bs := bs) _ _ Hsame Hok) as [Hok' Hk']. eexists. split; [exact Hf'|].
  assert (Hcs : exists k0 cs0, cs = k0 :: cs0 /\ is_chain bs F k0 cs) by (destruct cs as [|k0 cs0]; [done|naive_solver]).
  destruct Hcs as (k0 & cs0 & Hcs & Hchain). pose proof (is_chain_NoDup _ _ _ Hchain) as Hnd.
  pose proof (is_chain_available _ _ _ Hchain) as Hav. clear Hch Hcs Hchain k0 cs0.
  apply last_Some in Hl as [pre ->]. apply NoDup_app in Hnd as (_ & Hdis & _). apply Forall_app in Hav as [Hav Hk].
  apply Forall_inv in Hk. rewrite not_elem_of_app, list_elem_of_singleton in Hnot. split; [split|].
  - unfold bytes_of in *. rewrite fmap_app, join_app in Hd. rewrite fmap_app, join_app. simpl in *.
    rewrite fn_lookup_insert, app_nil_r in *.
    replace (<[bc_cluster c:=upd (D (bc_cluster c)) off l]> D <$> pre) with (D <$> pre).
    + apply take_upd_append; [done| |lia|by rewrite (fs_rep_length Hg Hsz _ _ _ _ _ Hf Hk)].
      pose proof (bytes_of_length Hg Hsz _ _ _ _ pre Hf Hav) as Hpre. unfold bytes_of in Hpre.
      rewrite Hpre, Hoff, length_app. simpl. lia.
    + apply list_fmap_ext. intros i x Hx%list_elem_of_lookup_2. rewrite fn_lookup_insert_ne; [done|].
      intros <-. apply (Hdis _ Hx). by left.
  - split; [done|]. rewrite last_snoc, Hk'. split; [done|]. rewrite length_app. lia.
  - split; try done.
    + exists []. rewrite app_nil_r. split; [done|]. by intros x Hx%not_elem_of_nil.
    + intros x _ Hx _. rewrite not_elem_of_app, list_elem_of_singleton in Hx. by rewrite fn_lookup_insert_ne by naive_solver.
    + pose proof (slot_frame_refl _ _ _ _ kd id Hf Hkd Hid) as Hfr. unfold slot_frame in *.
      by rewrite !fn_lookup_insert_ne by naive_solver.
Qed.

Lemma same_place_slot f f' : same_place f f' -> slot_of f' = slot_of f.
Proof. unfold slot_of. by intros (_ & _ & _ & _ & -> & -> & _). Qed.

Lemma same_place_trans f1 f2 f3 : same_place f1 f2 -> same_place f2 f3 -> same_place f1 f3.
Proof. unfold same_place, same_id. naive_solver congruence. Qed.

Lemma writable_slot F f cs : writable F f cs -> available bs (slot_of f).1 /\ 0 <= (slot_of f).2 < cluster_bytes bs / 32.
Proof. unfold writable, slot_of. destruct (f_last_entry f) as [[e kd] id]. naive_solver. Qed.

Lemma writable_used F f cs x : writable F f cs -> x ∈ cs -> F x <> FatEntry.Unused.
Proof.
  unfold writable. destruct (f_last_entry f) as [[e kd] id]. intros (_ & _ & _ & _ & _ & Hc) Hx.
  destruct cs as [|k cs]; [by apply not_elem_of_nil in Hx|]. destruct Hc as [_ Hch]. by eapply is_chain_used.
Qed.

Lemma changes_step st1 st2 F1 D1 F2 D2 F3 D3 h1 h2 f f2 cs1 cs2 cs3 :
  fs st1 F1 D1 h1 -> fs st2 F3 D3 h2 -> writable F1 f cs1 -> writable F2 f2 cs2 -> same_place f f2 ->
  changes F1 D1 F2 D2 (slot_of f).1 (slot_of f).2 cs1 cs2 ->
  changes F2 D2 F3 D3 (slot_of f2).1 (slot_of f2).2 cs2 cs3 ->
  changes F1 D1 F3 D3 (slot_of f).1 (slot_of f).2 cs1 cs3.
Proof.
  intros Hf1 Hf3 Hw Hw2 Hsame H1 H2. destruct (writable_slot _ _ _ Hw). rewrite (same_place_slot _ _ Hsame) in H2.
  eapply changes_trans; [exact Hf1|exact Hf3|done|done|done|done|]. intros x Hx. by eapply writable_used.
Qed.

(** A chain of exactly the clusters the size needs, or of one cluster. *)
Definition trimmed cs (s : Z) : Prop :=
  0 <= s <= zlen cs * cluster_bytes bs /\ (zlen cs <= 1 \/ (zlen cs - 1) * cluster_bytes bs < s).

Lemma trimmed_at_end D cs data c off :
  at_end D cs data (Some (c, off)) -> (0 < off \/ zlen cs <= 1) -> trimmed cs (zlen data).
Proof. intros [_ (_ & _ & -> & Hb)] Ho. unfold trimmed. lia. Qed.

(** A writer whose file holds [data] so far. *)
Definition writing st (w : FileWriter) F D h cs data : Prop :=
  fs st F D (own h (cursor_last (w_cursor w))) /\ writable F (w_file w) cs /\
  at_end D cs data (w_cursor w) /\ w_total_size w = zlen data /\ trimmed cs (zlen data).

(** One turn of the loop of [write]. *)
Lemma write_turn st F D h w cs data buf :
  writing st w F D h cs data -> bytes_ok buf -> buf <> [] ->
  ends (write_chunk bs buf) (st, w)
    (fun l s' => exists F' D' cs', 0 < l <= zlen buf /\ writing s'.1 s'.2 F' D' h cs' (data ++ sub buf 0 l) /\
      same_place (w_file w) (w_file s'.2) /\
      changes F D F' D' (slot_of (w_file w)).1 (slot_of (w_file w)).2 cs cs')
    (fun e s' => e = Full /\ fs s'.1 F D h /\ s'.2 = set_cursor None w /\ no_free F /\
      zlen data = zlen cs * cluster_bytes bs).
Proof.
  intros (Hf & Hw & Hat & Ht & Htr) Hb Hne. unfold write_chunk.
  apply (runs_ends_bind _ _ _ (fun a b => a = (st, w) /\ b = (st, w))); [done|]. intros ? ? [-> ->].
  apply (runs_ends_bind _ _ _ (fun _ b => b = (st, set_cursor None w))); [done|]. intros [] ? ->.
  apply ends_bind. eapply ends_mono; [apply (next_position_spec st F D h (set_cursor None w) cs data (w_cursor w)); done| |done].
  intros [c off] [st1 w1] (F1 & D1 & cs1 & Hf1 & Hw1 & Hat1 & Hoff & Hsame & Ht1 & Hch). cbn [fst snd w_file w_total_size set_cursor] in *.
  pose proof Hat1 as [_ (Hok & _ & _ & Hb1)]. rewrite (size_ok c Hok). set (l := Z.min _ _).
  assert (0 < zlen buf) by (destruct buf; simpl; [done|lia]).
  assert (Hl : zlen (sub buf 0 l) = l) by (rewrite length_sub; lia).
  apply (runs_ends_bind _ _ _ (fun a s' => exists D', s'.2 = w1 /\ fs s'.1 F1 D' (own h (bc_last a.2)) /\
    at_end D' cs1 (data ++ sub buf 0 l) (Some (a.2, off + l)) /\
    changes F1 D1 F1 D' (slot_of (w_file w1)).1 (slot_of (w_file w1)).2 cs1 cs1)).
  { assert (Hp : runs (held c drop_cluster (bc_write off (sub buf 0 l))) st1 (fun a st' => exists D',
      fs st' F1 D' (own h (bc_last a.2)) /\ at_end D' cs1 (data ++ sub buf 0 l) (Some (a.2, off + l)) /\
      changes F1 D1 F1 D' (slot_of (w_file w1)).1 (slot_of (w_file w1)).2 cs1 cs1)).
    { apply runs_held. eapply runs_mono; [apply (put_bytes st1 F1 D1 h (w_file w1) cs1 data); try done; [|lia]|].
      - by apply Forall_sub.
      - intros [] s'. by rewrite Hl. }
    eapply runs_mono; [apply runs_mfst, Hp|]. intros [[] c'] s' [Hs (D' & ? & ? & ?)]. by exists D'. }
  intros [[] c'] [st2 w2] (D' & Hw2 & Hf2 & Hat2 & Hch2). cbn [fst snd] in *. subst w2.
  apply (runs_ends_bind _ _ _ (fun a b => a = (st2, w1) /\ b = (st2, w1))); [done|]. intros ? ? [-> ->].
  match goal with |- context [mput ?x] => apply (runs_ends_bind _ _ _ (fun _ b => b = x)); [done|] end.
  intros [] ? ->. apply ends_ret.
  exists F1, D', cs1. cbn [w_file w_cursor w_total_size snd fst]. split; [lia|]. split_and!; try done.
  - unfold writing. cbn [w_file w_cursor w_total_size cursor_last]. split_and!; try done; [rewrite length_app; lia|].
    eapply trimmed_at_end; [exact Hat2|lia].
  - eapply changes_step; [exact Hf|exact Hf2|exact Hw|exact Hw1|done|done|done].
Qed.

(** [write] appends the whole buffer, or fails because the volume is full,
    the cursor then being lost. *)
Lemma write_spec fuel buf : forall st F D h w cs data,
  writing st w F D h cs data -> bytes_ok buf -> (length buf <= fuel)%nat ->
  ends (Fat.write bs fuel buf) (st, w)
    (fun _ s' => exists F' D' cs', writing s'.1 s'.2 F' D' h cs' (data ++ buf) /\
      same_place (w_file w) (w_file s'.2) /\
      changes F D F' D' (slot_of (w_file w)).1 (slot_of (w_file w)).2 cs cs')
    (fun e s' => e = Full /\ exists F' D' cs' k, fs s'.1 F' D' h /\ writable F' (w_file s'.2) cs' /\
      w_cursor s'.2 = None /\ same_place (w_file w) (w_file s'.2) /\
      w_total_size s'.2 = zlen data + k /\ 0 <= k < zlen buf /\
      no_free F' /\ w_total_size s'.2 = zlen cs' * cluster_bytes bs /\
      changes F D F' D' (slot_of (w_file w)).1 (slot_of (w_file w)).2 cs cs').
Proof.
  revert buf. induction fuel as [|fuel IH]; intros buf st F D h w cs data Hwr Hb Hfuel.
  all: destruct buf as [|b buf'] eqn:Hbuf; [|try (simpl in Hfuel; lia)].
  1,2: apply ends_ret; exists F, D, cs; rewrite app_nil_r; split; [done|]; split; [done|].
  1,2: destruct Hwr as (Hf & Hw & _); destruct (writable_slot _ _ _ Hw); by eapply changes_refl.
  rewrite <- Hbuf in *. replace (Fat.write bs (S fuel) buf) with
    (l <- write_chunk bs buf ;; Fat.write bs fuel (drop (Z.to_nat l) buf)) by (by rewrite Hbuf).
  pose proof Hwr as (Hf & Hw & Hat & Ht & _). destruct (writable_slot _ _ _ Hw).
  apply ends_bind. eapply ends_mono; [apply (write_turn st F D h w cs data buf); try done; by rewrite Hbuf| |].
  - intros l [st1 w1] (F1 & D1 & cs1 & Hl & Hwr1 & Hsame & Hch). cbn [fst snd] in *.
    pose proof Hwr1 as (Hf1 & Hw1 & _).
    eapply ends_mono; [apply (IH (drop (Z.to_nat l) buf) st1 F1 D1 h w1 cs1 _ Hwr1)| |].
    + by apply Forall_drop.
    + rewrite length_drop. lia.
    + intros [] [st2 w2] (F2 & D2 & cs2 & Hwr2 & Hsame2 & Hch2). exists F2, D2, cs2. cbn [fst snd] in *. split_and!.
      * rewrite <- app_assoc in Hwr2. unfold sub in Hwr2. change (Z.to_nat 0) with 0%nat in Hwr2.
        by rewrite drop_0, take_drop in Hwr2.
      * by eapply same_place_trans.
      * destruct Hwr2 as (Hf2 & _). eapply changes_step; [exact Hf|exact Hf2|exact Hw|exact Hw1|done..].
    + intros e [st2 w2] (-> & F2 & D2 & cs2 & k & Hf2 & Hw2 & Hc2 & Hsame2 & Ht2 & Hk & Hnf & Hcap & Hch2). cbn [fst snd] in *.
      split; [done|]. exists F2, D2, cs2, (l + k). rewrite length_app, Nat2Z.inj_add, length_sub in Ht2 by lia.
      rewrite length_drop in Hk. split_and!; try done; try lia.
      * by eapply same_place_trans.
      * eapply changes_step; [exact Hf|exact Hf2|exact Hw|exact Hw1|done..].
  - intros e [st1 w1] (-> & Hf1 & Hs & Hnf & Hcap). cbn [fst snd] in *. subst w1. split; [done|]. exists F, D, cs, 0. rewrite Hbuf.
    cbn [set_cursor w_file w_cursor w_total_size]. split_and!; try done; try (simpl; lia). by eapply changes_refl.
Qed.

(** The slot of a file holds its entry. *)
Definition stored D f : Prop :=
  sub (D (slot_of f).1) ((slot_of f).2 * 32) 32 = into_bytes (Sfn (f_sfn f)).

(** The contents of clusters outside the slot stay. *)
Definition only_slot D D' f : Prop :=
  (forall x, x <> (slot_of f).1 -> D' x = D x) /\ slot_frame D D' (slot_of f).1 (slot_of f).2.

Lemma f_sfn_with e f : f_sfn (with_sfn e f) = e.
Proof. unfold f_sfn, with_sfn. simpl. by destruct (f_last_entry f) as [[? ?] ?]. Qed.

Lemma slot_of_with e f : slot_of (with_sfn e f) = slot_of f.
Proof. unfold slot_of, with_sfn. simpl. by destruct (f_last_entry f) as [[? ?] ?]. Qed.

Lemma writable_with F f cs e :
  writable F f cs -> entry_ok (Sfn e) -> DirEntry.cluster e = DirEntry.cluster (f_sfn f) -> writable F (with_sfn e f) cs.
Proof.
  unfold writable, with_sfn, f_sfn. cbn [f_last_entry]. destruct (f_last_entry f) as [[e0 kd] id]. cbn [fst snd].
  intros (? & ? & ? & ? & ? & Hc) He ->. by destruct cs.
Qed.

(** The entry [e] is put on the volume. *)
Lemma store_spec st F D h f cs e :
  fs st F D h -> writable F (with_sfn e f) cs ->
  runs (write_back bs) (st, with_sfn e f) (fun _ s' => exists D', fs s'.1 F D' h /\
    s'.2 = with_sfn (mark_archive e) f /\ writable F s'.2 cs /\ stored D' s'.2 /\ only_slot D D' f).
Proof.
  intros Hf Hw. pose proof (write_back_spec st F D h _ cs Hf Hw) as Hwb.
  destruct (writable_slot _ _ _ Hw) as [Hk Hi]. rewrite slot_of_with in Hk, Hi.
  assert (Hlast : f_last_entry (with_sfn e f) = (e, (slot_of f).1, (slot_of f).2))
    by (unfold with_sfn, slot_of; simpl; by destruct (f_last_entry f) as [[? ?] ?]).
  assert (He : entry_ok (Sfn e)) by (unfold writable in Hw; rewrite Hlast in Hw; tauto).
  rewrite Hlast in Hwb. eapply runs_mono; [exact Hwb|]. intros [] s' [Hs Hf']. rewrite Hs.
  destruct (entry_codec _ (mark_archive_ok e He)) as (_ & Hlen & _).
  pose proof (fs_rep_length Hg Hsz _ _ _ _ _ Hf Hk) as HD. destruct (entry_range (bs := bs) _ Hi).
  assert (Hsub : sub (upd (D (slot_of f).1) ((slot_of f).2 * 32) (into_bytes (Sfn (mark_archive e))))
    ((slot_of f).2 * 32) 32 = into_bytes (Sfn (mark_archive e))) by (apply sub_upd_same_n; rewrite ?Hlen; lia).
  eexists. split; [exact Hf'|]. split; [by rewrite with_sfn_with|]. split_and!.
  - rewrite with_sfn_with. apply mark_archive_ok in He as Hm.
    replace (with_sfn (mark_archive e) f) with (with_sfn (mark_archive e) (with_sfn e f)) by apply with_sfn_with.
    apply writable_with; [done|done|by rewrite f_sfn_with].
  - unfold stored. rewrite !slot_of_with, f_sfn_with, fn_lookup_insert. exact Hsub.
  - split; [intros x Hx; by rewrite fn_lookup_insert_ne|]. unfold slot_frame. by rewrite fn_lookup_insert, Hsub.
Qed.

Lemma set_size_spec st F D h f cs s :
  fs st F D h -> writable F f cs -> 0 <= s < 2 ^ 32 ->
  runs (file_set_size bs s) (st, f) (fun _ s' => exists D', fs s'.1 F D' h /\
    writable F s'.2 cs /\ file_size s'.2 = s /\ stored D' s'.2 /\ same_place f s'.2 /\ only_slot D D' f).
Proof.
  intros Hf Hw Hs. unfold file_set_size.
  assert (He : entry_ok (Sfn (f_sfn f))) by (unfold writable, f_sfn in *; destruct (f_last_entry f) as [[? ?] ?]; tauto).
  apply (runs_bind _ _ _ (fun a b => a = (st, f) /\ b = (st, f))); [done|]. intros ? ? [-> ->].
  destruct (set_file_size_ok s _ He Hs) as (e & -> & Hok & Hsize & Hc & Hid).
  apply (runs_bind _ _ _ (fun a b => a = e /\ b = (st, f))); [done|]. intros ? ? [-> ->].
  apply (runs_bind _ _ _ (fun _ b => b = (st, with_sfn e f))); [done|]. intros [] ? ->.
  eapply runs_mono; [by apply (store_spec st F D h f cs e Hf), writable_with|].
  intros [] s' (D' & Hf' & Hs' & Hw' & Hst & Hos). exists D'. split_and!; try done.
  - rewrite Hs'. unfold file_size. by rewrite f_sfn_with.
  - rewrite Hs'. by apply same_place_sfn, same_id_archive.
Qed.

Lemma runs_on_file {A} (m : M (St * File) Error A) st w Q :
  runs m (st, w_file w) Q ->
  runs (on_file m) (st, w) (fun a s' => Q a (s'.1, w_file s'.2) /\
    w_total_size s'.2 = w_total_size w /\ w_cursor s'.2 = w_cursor w).
Proof. unfold runs, ends, on_file. by destruct (m (st, w_file w)) as [[] [? ?]]. Qed.

Lemma only_slot_changes F D D' f cs :
  only_slot D D' f -> changes F D F D' (slot_of f).1 (slot_of f).2 cs cs.
Proof.
  intros [Hx Hs]. split; try done; [|by intros x _ _ ?; apply Hx].
  exists []. rewrite app_nil_r. split; [done|]. by intros x Hin%not_elem_of_nil.
Qed.

Lemma only_slot_bytes F D D' f cs : writable F f cs -> only_slot D D' f -> bytes_of D' cs = bytes_of D cs.
Proof.
  intros Hw [Hx _]. unfold bytes_of. f_equal. apply list_fmap_ext. intros i x Hin%list_elem_of_lookup_2. apply Hx.
  unfold writable, slot_of in *. destruct (f_last_entry f) as [[e kd] id]. cbn [fst snd]. intros ->. naive_solver.
Qed.

(** The tail of [drop_writer], when the clusters have been settled. *)
Lemma finish_writer st F D h w cs :
  fs st F D (own h (cursor_last (w_cursor w))) -> writable F (w_file w) cs -> 0 <= w_total_size w < 2 ^ 32 ->
  runs (mok (F := Error) (on_file (file_set_size bs (w_total_size w))) ;;;
        '(_, w) <- mget ;; mfst (drop_cursor (w_cursor w))) (st, w) (fun _ s' => exists D', fs s'.1 F D' h /\
    writable F (w_file s'.2) cs /\ file_size (w_file s'.2) = w_total_size w /\ stored D' (w_file s'.2) /\
    same_place (w_file w) (w_file s'.2) /\ only_slot D D' (w_file w)).
Proof.
  intros Hf Hw Ht. apply (runs_bind _ _ _ (fun _ s' => (exists D', fs s'.1 F D' (own h (cursor_last (w_cursor w))) /\
    writable F (w_file s'.2) cs /\ file_size (w_file s'.2) = w_total_size w /\ stored D' (w_file s'.2) /\
    same_place (w_file w) (w_file s'.2) /\ only_slot D D' (w_file w)) /\
    w_total_size s'.2 = w_total_size w /\ w_cursor s'.2 = w_cursor w)).
  { apply runs_mok. eapply runs_mono; [by eapply runs_on_file, set_size_spec|]. by intros [] s'. }
  intros _ [st1 w1] ((D' & Hf1 & Hw1 & Hs1 & Hst1 & Hp1 & Ho1) & Ht1 & Hc1). cbn [fst snd] in *.
  apply (runs_bind _ _ _ (fun a b => a = (st1, w1) /\ b = (st1, w1))); [done|]. intros ? ? [-> ->].
  rewrite Hc1. eapply runs_mono; [apply runs_mfst; exact (drop_cursor_spec _ _ _ _ _ Hf1)|].
  intros [] [st2 w2] [Hw2 Hf2]. cbn [fst snd] in *. subst w2. by exists D'.
Qed.

(** [release_cluster] frees the chain and clears its head in the entry. *)
Lemma release_spec st F D h f cs :
  fs st F D h -> writable F f cs ->
  runs (release_cluster bs) (st, f) (fun _ s' => exists D', fs s'.1 (free_all F cs) D' h /\
    writable (free_all F cs) s'.2 [] /\ same_place f s'.2 /\ only_slot D D' f).
Proof.
  intros Hf Hw. unfold release_cluster.
  apply (runs_bind _ _ _ (fun a b => a = (st, f) /\ b = (st, f))); [done|]. intros ? ? [-> ->].
  assert (Hnil : writable (free_all F cs) (with_sfn (set_cluster None (f_sfn f)) f) [] /\
    writable F (with_sfn (set_cluster None (f_sfn f)) f) []).
  { unfold writable, with_sfn, f_sfn in *. cbn [f_last_entry]. destruct (f_last_entry f) as [[e kd] id]. cbn [fst snd].
    destruct Hw as (? & ? & ? & ? & ? & _). unfold free_all. rewrite decide_False by done.
    split; split_and!; try done; try lia; try (by apply not_elem_of_nil); by apply set_cluster_entry_ok. }
  destruct Hnil as [Hw1 Hw2]. destruct cs as [|k cs].
  - replace (DirEntry.cluster (f_sfn f)) with (@None Z)
      by (unfold writable, f_sfn in *; destruct (f_last_entry f) as [[? ?] ?]; symmetry; apply Hw).
    apply ends_ret. exists D. split_and!; try done. destruct (writable_slot _ _ _ Hw). split; [done|]. by eapply slot_frame_refl.
  - assert (Hc : DirEntry.cluster (f_sfn f) = Some k /\ is_chain bs F k (k :: cs))
      by (unfold writable, f_sfn in *; destruct (f_last_entry f) as [[? ?] ?]; tauto).
    destruct Hc as [-> Hch].
    apply (runs_bind _ _ _ (fun _ b => b = (st, with_sfn (set_cluster None (f_sfn f)) f))); [done|]. intros [] ? ->.
    eapply runs_bind; [by apply (store_spec st F D h f [])|]. intros [] [st1 f1] (D1 & Hf1 & Hs1 & Hw3 & _ & Ho).
    cbn [fst snd] in *. eapply runs_mono; [apply runs_mfst; by apply (with_fat_release Hg Hsz st1 F D1 h k (k :: cs))|].
    intros [] [st2 f2] [Hs2 Hf2]. cbn [fst snd] in *. subst f2. exists D1. split_and!; try done.
    + rewrite Hs1. replace (with_sfn _ f) with (with_sfn (mark_archive (set_cluster None (f_sfn f))) (with_sfn (set_cluster None (f_sfn f)) f)) by apply with_sfn_with.
      apply writable_with; [done| |by rewrite f_sfn_with]. apply mark_archive_ok.
      unfold writable in Hw2. rewrite <- (f_sfn_with (set_cluster None (f_sfn f)) f).
      unfold f_sfn at 1. destruct (f_last_entry (with_sfn _ f)) as [[? ?] ?]; tauto.
    + rewrite Hs1. apply same_place_sfn, same_id_archive, same_id_cluster.
Qed.

(** Closing a writer at the end of its file keeps the clusters and records the
    size. *)
Lemma drop_writer_ok st F D h w cs data :
  writing st w F D h cs data -> zlen data < 2 ^ 32 ->
  runs (drop_writer bs) (st, w) (fun _ s' => exists D', fs s'.1 F D' h /\ writable F (w_file s'.2) cs /\
    file_size (w_file s'.2) = zlen data /\ stored D' (w_file s'.2) /\
    take (length data) (bytes_of D' cs) = data /\ same_place (w_file w) (w_file s'.2) /\
    changes F D F D' (slot_of (w_file w)).1 (slot_of (w_file w)).2 cs cs).
Proof.
  intros (Hf & Hw & Hat & Ht & _) Hlen. unfold drop_writer.
  apply (runs_bind _ _ _ (fun a b => a = (st, w) /\ b = (st, w))); [done|]. intros ? ? [-> ->].
  apply (runs_bind _ _ _ (fun _ s' => fs s'.1 F D (own h (cursor_last (w_cursor w))) /\ s'.2 = w)).
  - apply runs_mok. destruct Hat as [_ Hcur]. unfold writable in Hw. destruct (w_cursor w) as [[c off]|].
    + destruct Hcur as (_ & Hl & _). eapply runs_mono; [apply runs_mfst, (chained_release_spec Hg Hsz st F D _ _ [] Hf)|].
      * destruct (f_last_entry (w_file w)) as [[e kd] id]. destruct Hw as (_ & _ & _ & _ & _ & Hch).
        destruct cs as [|k cs]; [done|]. destruct Hch as [_ Hch]. by apply (is_chain_suffix_last _ _ _ _ Hch).
      * intros [] s' [Hs Hf']. by rewrite decide_True in Hf'.
    + destruct Hcur as [-> _]. eapply runs_mono; [apply (runs_on_file _ _ _ (fun _ s' => s' = (st, w_file w)))|].
      * unfold release_cluster. apply (runs_bind _ _ _ (fun a b => a = (st, w_file w) /\ b = (st, w_file w))); [done|].
        intros ? ? [-> ->]. unfold f_sfn. destruct (f_last_entry (w_file w)) as [[e kd] id].
        destruct Hw as (_ & _ & _ & _ & _ & Hc). cbn [fst]. rewrite Hc. by apply ends_ret.
      * intros [] [st' w'] ([= -> Hw'] & Ht' & Hc'). split; [done|]. by destruct w, w'; simpl in *; subst.
  - intros _ [st1 w1] [Hf1 Hw1]. cbn [fst snd] in *. subst w1.
    eapply runs_mono; [apply (finish_writer st1 F D h w cs); try done; lia|].
    intros [] s' (D' & Hf' & Hw' & Hs & Hst & Hp & Ho). exists D'. rewrite Ht in Hs. split_and!; try done.
    + rewrite (only_slot_bytes _ _ _ _ _ Hw Ho). by destruct Hat.
    + by apply only_slot_changes.
Qed.

(** A writer that lost its cursor frees the whole file. *)
Lemma drop_writer_lost st F D h w cs :
  fs st F D h -> writable F (w_file w) cs -> w_cursor w = None -> 0 <= w_total_size w < 2 ^ 32 ->
  runs (drop_writer bs) (st, w) (fun _ s' => exists D', fs s'.1 (free_all F cs) D' h /\
    writable (free_all F cs) (w_file s'.2) [] /\ file_size (w_file s'.2) = w_total_size w /\
    stored D' (w_file s'.2) /\ same_place (w_file w) (w_file s'.2) /\
    forall x, x <> (slot_of (w_file w)).1 -> D' x = D x).
Proof.
  intros Hf Hw Hcur Ht. unfold drop_writer.
  apply (runs_bind _ _ _ (fun a b => a = (st, w) /\ b = (st, w))); [done|]. intros ? ? [-> ->]. rewrite Hcur.
  apply (runs_bind _ _ _ (fun _ s' => (exists D', fs s'.1 (free_all F cs) D' h /\ writable (free_all F cs) (w_file s'.2) [] /\
    same_place (w_file w) (w_file s'.2) /\ only_slot D D' (w_file w)) /\
    w_total_size s'.2 = w_total_size w /\ w_cursor s'.2 = w_cursor w)).
  - apply runs_mok. eapply runs_mono; [by eapply runs_on_file, release_spec|]. by intros [] s'.
  - intros _ [st1 w1] ((D1 & Hf1 & Hw1 & Hp1 & Ho1 & _) & Ht1 & Hc1). cbn [fst snd] in *. rewrite Hcur in Hc1.
    rewrite <- Ht1 in *. eapply runs_mono; [apply (finish_writer st1 (free_all F cs) D1 h w1 []); try done; by rewrite Hc1|].
    intros [] s' (D' & Hf' & Hw' & Hs & Hst & Hp & [Ho _]). exists D'. split_and!; try done.
    + by eapply same_place_trans.
    + intros x Hx. rewrite Ho, Ho1; [done|done|]. by rewrite (same_place_slot _ _ Hp1).
Qed.

Lemma appender_loop_spec cs : forall fuel st F D h c rest total,
  fs st F D (own h (bc_last c)) -> handle_ok bs c -> is_chain bs F (bc_cluster c) (bc_cluster c :: cs) ->
  trimmed (bc_cluster c :: cs) rest -> (length cs < fuel)%nat ->
  runs (appender_loop bs fuel c rest total) st (fun '(c', off, total') st' =>
    fs st' F D (own h (bc_last c')) /\ handle_ok bs c' /\ last (bc_cluster c :: cs) = Some (bc_cluster c') /\
    off = rest - zlen cs * cluster_bytes bs /\ total' = total + rest).
Proof.
  induction cs as [|k cs IH]; intros [|fuel] st F D h c rest total Hf Hok Hch [Hr Ht] Hfuel; try (simpl in *; lia).
  all: cbn [appender_loop]; rewrite (size_ok c Hok); pose proof (cluster_bytes_pos Hg).
  - rewrite (proj2 (Z.ltb_ge _ _)) by (simpl in Hr; lia). apply ends_ret. simpl. split_and!; try done; lia.
  - rewrite (proj2 (Z.ltb_lt _ _)) by (simpl in *; nia).
    pose proof (is_chain_available _ _ _ Hch) as Hav. apply Forall_cons in Hav as [Hk Hav]. apply Forall_cons in Hav as [Hk' _].
    destruct (is_chain_cons_inv _ _ _ _ Hch) as [Hc Hch'].
    apply (runs_bind _ _ _ (fun o st' => fs st' F D (own h (bc_last c)) /\ exists c', o = Some (Some c') /\
      handle_ok bs c' /\ bc_cluster c' = k /\ bc_last c' = None)).
    { apply runs_mok. eapply runs_mono; [apply (chained_get_spec Hg Hsz st F D (own h (bc_last c)) (bc_cluster c)); try done|].
      - intros k2. rewrite Hc. by intros [= <-].
      - intros [c'|] st' [Hf' Ho]; rewrite Hc in Ho; simpl in Ho; [|done]. eauto. }
    intros ? st1 (Hf1 & c' & -> & Hok' & Hck & Hl').
    eapply runs_bind; [exact (drop_cluster_spec _ _ _ _ _ Hf1)|]. intros [] st2 Hf2. subst k.
    eapply runs_mono; [apply (IH fuel st2 F D h c'); try done|].
    + by rewrite Hl'.
    + split; simpl in *; nia.
    + simpl in Hfuel. lia.
    + intros [[c2 off] tot] st3 (? & ? & ? & -> & ->). split_and!; try done; simpl; lia.
Qed.

Lemma writable_file_ok F f cs :
  writable F f cs -> file_is_dir f = false -> trimmed cs (file_size f) -> file_ok (bs := bs) F f cs.
Proof.
  intros Hw Hd [Hs _]. split; [done| |done]. unfold writable, f_sfn in *. destruct (f_last_entry f) as [[e kd] id].
  destruct Hw as (_ & _ & _ & _ & _ & Hc). cbn [fst]. destruct cs as [|k cs]; [by rewrite Hc|]. by destruct Hc as [-> ?].
Qed.

(** The appender starts with the contents of the file, at their end. *)
Lemma appender_spec fuel st F D h f cs :
  fs st F D h -> writable F f cs -> file_is_dir f = false -> trimmed cs (file_size f) -> (length cs <= fuel)%nat ->
  runs (appender bs fuel f) st (fun o st' => exists w, o = Some w /\ w_file w = f /\
    writing st' w F D h cs (take (Z.to_nat (file_size f)) (bytes_of D cs))).
Proof.
  intros Hf Hw Hd Ht Hfuel. unfold appender. rewrite Hd. pose proof (writable_file_ok _ _ _ Hw Hd Ht) as Hok.
  eapply runs_bind; [by apply (file_cluster_spec Hg st F D h f cs)|]. intros o st1 [Hf1 Ho].
  destruct cs as [|k cs], o as [c|]; try done.
  - apply ends_ret. eexists. split; [done|]. split; [done|]. unfold writing, trimmed. cbn. rewrite take_nil. split_and!; try done; simpl; lia.
  - destruct Ho as (Hcok & Hck & Hl). subst k. pose proof Hok as [_ Hch _].
    assert (Hchain : is_chain bs F (bc_cluster c) (bc_cluster c :: cs)).
    { destruct (DirEntry.cluster (f_sfn f)); [|done]. by destruct (is_chain_head _ _ _ Hch) as [? [= <- <-]]. }
    eapply runs_bind; [apply (appender_loop_spec cs fuel st1 F D h c); try done; by rewrite Hl|].
    intros [[c' off] total] st2 (Hf2 & Hok' & Hlast & -> & ->). apply ends_ret. eexists. split; [done|]. split; [done|].
    pose proof (bytes_of_length Hg Hsz _ _ _ _ _ Hf2 (is_chain_available _ _ _ Hchain)) as Hlen.
    destruct Ht as [Hs Ht]. pose proof (cluster_bytes_pos Hg).
    assert (Hdl : length (take (Z.to_nat (file_size f)) (bytes_of D (bc_cluster c :: cs))) = Z.to_nat (file_size f))
      by (rewrite length_take; lia).
    unfold writing. cbn [w_cursor w_file w_total_size cursor_last]. unfold at_end, trimmed. rewrite Hdl.
    rewrite Z2Nat.id by lia. split_and!; try done; try (simpl in *; nia).
Qed.

Lemma runs_attempt_any {L E' A} (l : L) (m : M (St * L) Error A) st Q Q' R :
  ends m (st, l) Q' R -> (forall a s', Q' a s' -> Q (Some a, s'.2) s'.1) ->
  (forall e s', R e s' -> Q (None, s'.2) s'.1) -> runs (attempt (F := E') l m) st Q.
Proof.
  unfold runs, ends, attempt. intros Hm HQ HR. destruct (m (st, l)) as [[a|e| |] [? ?]]; try done.
  - by apply HQ in Hm.
  - by apply HR in Hm.
Qed.

(** The state after a write that was closed: the contents are extended, or the
    volume cannot hold them and the file has been freed. *)
Definition appended st F D h f cs buf (ok : option unit) f' : Prop :=
  exists F' D', fs st F' D' h /\ stored D' f' /\ same_place f f' /\
  match ok with
  | Some _ => exists cs', writable F' f' cs' /\ trimmed cs' (file_size f') /\
      file_size f' = zlen (contents D f cs ++ buf) /\ contents D' f' cs' = contents D f cs ++ buf /\
      changes F D F' D' (slot_of f).1 (slot_of f).2 cs cs'
  | None => exists new, NoDup new /\ (forall x, x ∈ new <-> available bs x /\ F x = FatEntry.Unused) /\
      zlen (cs ++ new) * cluster_bytes bs < zlen (contents D f cs ++ buf) /\
      (forall x, available bs x -> F' x = if decide (x ∈ cs ++ new) then FatEntry.Unused else F x) /\
      DirEntry.cluster (f_sfn f') = None /\ file_size f' = zlen (cs ++ new) * cluster_bytes bs
  end.

Lemma writable_chain F f cs : writable F f cs -> NoDup cs /\ Forall (available bs) cs.
Proof.
  unfold writable. destruct (f_last_entry f) as [[e kd] id]. intros (_ & _ & _ & _ & _ & Hc). destruct cs as [|k cs].
  - split; constructor.
  - destruct Hc as [_ Hch]. split; [by eapply is_chain_NoDup|by eapply is_chain_available].
Qed.

Lemma close_written st F D F0 D0 h st0 h0 f0 w cs0 cs buf :
  fs st0 F0 D0 h0 -> writable F0 f0 cs0 -> same_place f0 (w_file w) ->
  writing st w F D h cs (contents D0 f0 cs0 ++ buf) -> zlen (contents D0 f0 cs0 ++ buf) < 2 ^ 32 ->
  changes F0 D0 F D (slot_of f0).1 (slot_of f0).2 cs0 cs ->
  runs (drop_writer bs) (st, w) (fun _ s' => appended s'.1 F0 D0 h f0 cs0 buf (Some tt) (w_file s'.2)).
Proof.
  intros Hf0 Hw0 Hs0 Hwr Hlen Hch. eapply runs_mono; [by apply (drop_writer_ok st F D h w cs _ Hwr)|].
  intros [] [st' w'] (D' & Hf' & Hw' & Hsize & Hst & Hdata & Hsame & Hch'). cbn [fst snd] in *.
  destruct Hwr as (_ & Hw & _ & _ & Htr). exists F, D'. split_and!; try done; [by eapply same_place_trans|].
  exists cs. rewrite Hsize. split_and!; try done.
  - unfold contents at 1. rewrite Hsize, Nat2Z.id. done.
  - eapply changes_step; [exact Hf0|exact Hf'|exact Hw0|exact Hw|done|done|done].
Qed.

Lemma close_lost st F D F0 D0 h f0 w cs0 cs buf :
  fs st F D h -> writable F0 f0 cs0 -> writable F (w_file w) cs -> same_place f0 (w_file w) -> w_cursor w = None ->
  no_free F -> w_total_size w = zlen cs * cluster_bytes bs -> w_total_size w < zlen (contents D0 f0 cs0 ++ buf) ->
  zlen (contents D0 f0 cs0 ++ buf) < 2 ^ 32 ->
  changes F0 D0 F D (slot_of f0).1 (slot_of f0).2 cs0 cs ->
  runs (drop_writer bs) (st, w) (fun _ s' => appended s'.1 F0 D0 h f0 cs0 buf None (w_file s'.2)).
Proof.
  intros Hf Hw0 Hw Hs0 Hcur Hnf Hcap Hlt Hlen [(new & -> & Hnew) HF _ _]. pose proof (cluster_bytes_pos Hg).
  destruct (writable_chain _ _ _ Hw) as [Hnd Hav]. eapply runs_mono; [apply (drop_writer_lost st F D h w _ Hf Hw Hcur); nia|].
  intros [] [st' w'] (D' & Hf' & Hw' & Hsize & Hst & Hsame & HD). cbn [fst snd] in *.
  exists (free_all F (cs0 ++ new)), D'. split_and!; try done; [by eapply same_place_trans|]. exists new. split_and!.
  - by apply NoDup_app in Hnd as (_ & _ & ?).
  - intros x. split; [by intros Hx; destruct (Hnew x Hx)|]. intros [Ha Hu]. destruct (decide (x ∈ new)) as [|Hx]; [done|].
    destruct (decide (x ∈ cs0)) as [Hc|Hc]; [by destruct (writable_used _ _ _ _ Hw0 Hc)|].
    destruct (Hnf x Ha). rewrite HF; [done|]. by rewrite elem_of_app; intros [|].
  - lia.
  - intros x Ha. unfold free_all. case_decide as Hx; [done|]. by apply HF.
  - unfold writable, f_sfn in *. destruct (f_last_entry (w_file w')) as [[? ?] ?]. apply Hw'.
  - lia.
Qed.

Lemma append_spec fuel st F D h f cs buf :
  fs st F D h -> writable F f cs -> file_is_dir f = false -> trimmed cs (file_size f) ->
  bytes_ok buf -> file_size f + zlen buf < 2 ^ 32 -> (length cs + length buf <= fuel)%nat ->
  runs (append_file bs fuel f buf) st (fun r st' => exists ok f', r = Some (ok, f') /\ appended st' F D h f cs buf ok f').
Proof.
  intros Hf Hw Hd Ht Hb Hlen Hfuel. unfold append_file, with_writer.
  eapply runs_bind; [apply (appender_spec fuel st F D h f cs); try done; lia|]. intros o st1 (w & -> & Hwf & Hwr).
  fold (contents D f cs) in Hwr. assert (Hold : zlen (contents D f cs) = file_size f).
  { unfold contents. destruct Ht as [Ht _]. destruct (writable_chain _ _ _ Hw) as [_ Hav].
    pose proof (bytes_of_length Hg Hsz _ _ _ _ _ Hf Hav). rewrite length_take. lia. }
  apply (runs_bind _ _ _ (fun r st' => appended st' F D h f cs buf r.1 r.2)).
  2: { intros [ok f'] st' Happ. apply ends_ret. eauto. }
  unfold write_and_close.
  apply (runs_bind _ _ _ (fun r st' => runs (drop_writer bs) (st', r.2) (fun _ s' =>
    appended s'.1 F D h f cs buf r.1 (w_file s'.2)))).
  - pose proof Hwr as (Hf1 & _). assert (Hl : zlen (contents D f cs ++ buf) < 2 ^ 32) by (rewrite length_app; lia).
    eapply runs_attempt_any; [apply (write_spec fuel buf st1 F D h w cs _ Hwr Hb); lia| |]; rewrite Hwf.
    + intros [] [st2 w2] (F2 & D2 & cs2 & Hwr2 & Hsame & Hch). cbn [fst snd] in *.
      eapply close_written; [exact Hf|exact Hw|done|exact Hwr2|done|done].
    + intros e [st2 w2] (-> & F2 & D2 & cs2 & k & Hf2 & Hw2 & Hcur & Hsame & Htot & Hk & Hnf & Hcap & Hch). cbn [fst snd] in *.
      eapply close_lost; [exact Hf2|exact Hw|exact Hw2|try done..]. rewrite length_app. lia.
  - intros [r w2] st2 Hdrop. cbn [fst snd] in *.
    apply (runs_bind _ _ _ (fun q st' => appended st' F D h f cs buf r (w_file q.2)));
      [|intros [o w3] st3 Happ; by apply ends_ret].
    eapply runs_attempt_any; [exact Hdrop|by intros [] s'|done].
Qed.

End writers.

(** ** Files *)

Section claims.
Context {St : Type} `{SectorCacheLaws St n sz} {bs : BootSector}
  (Hg : geometry bs n) (Hsz : sz = bpb_byts_per_sec bs).
Implicit Types (st : St) (F : Z -> FatEntry) (D : Z -> list Z) (h : counts) (f : File) (cs : list Z).

Abbreviation fs st := (fs_rep bs (St := St) (n := n) (sz := sz) st).

Lemma read_contents fuel st F D h f cs :
  fs st F D h -> file_ok (bs := bs) F f cs -> (length (bytes_of D cs) + 1 < fuel)%nat ->
  runs (read_file bs fuel f) st (fun r st' => r = Some (contents D f cs) /\ fs st' F D h).
Proof.
  intros Hf Hok Hfuel. pose proof (read_file_spec Hg Hsz fuel st F D h f cs Hf Hok Hfuel) as Hr. unfold read_file.
  unfold runs, ends, mbnd in *. destruct (reader bs f st) as [[[r|]| | |] st1]; try done. simpl in Hr.
  unfold mbnd. destruct (read_to_end bs fuel r st1) as [[]]; try done. destruct Hr as [-> ?]. done.
Qed.

(** Reading a file to its end returns the first
    [file_size] bytes of the concatenation of the clusters of its chain, and
    leaves the volume and the references as they were. *)
Theorem read_file_contents fuel st F D h f cs :
  fs st F D h -> file_ok (bs := bs) F f cs -> (length (bytes_of D cs) + 1 < fuel)%nat ->
  runs (read_file bs fuel f) st (fun r st' => r = Some (contents D f cs) /\ fs st' F D h).
Proof. exact (read_contents fuel st F D h f cs). Qed.

(** [C6]. Appending to a file, with its writer then
    dropped, returns. On success the contents are the old ones followed by the
    buffer, the entry on the volume records the new size, the file has only taken
    free clusters, and nothing else has changed but its clusters and its slot. It
    fails exactly when the free clusters do not suffice, and then every cluster of
    the file is freed and its entry has no cluster: what the file held before the
    append is lost. *)
Theorem append_extends_or_frees fuel st F D h f cs buf :
  fs st F D h -> writable (bs := bs) F f cs -> file_is_dir f = false -> trimmed (bs := bs) cs (file_size f) ->
  bytes_ok buf -> file_size f + zlen buf < 2 ^ 32 -> (length cs + length buf <= fuel)%nat ->
  runs (append_file bs fuel f buf) st (fun r st' => exists ok f', r = Some (ok, f') /\
    appended (bs := bs) (n := n) (sz := sz) st' F D h f cs buf ok f').
Proof. exact (append_spec Hg Hsz fuel st F D h f cs buf). Qed.

(** The append of a buffer for which the free clusters [new] suffice. *)
Lemma append_fits fuel st F D h f cs buf new :
  fs st F D h -> writable (bs := bs) F f cs -> file_is_dir f = false -> trimmed (bs := bs) cs (file_size f) ->
  bytes_ok buf -> file_size f + zlen buf < 2 ^ 32 ->
  NoDup new -> (forall x, x ∈ new -> available bs x /\ F x = FatEntry.Unused) ->
  zlen (contents D f cs ++ buf) <= zlen (cs ++ new) * cluster_bytes bs -> (length cs + length buf <= fuel)%nat ->
  runs (append_file bs fuel f buf) st (fun r st' => exists f', r = Some (Some tt, f') /\
    appended (bs := bs) (n := n) (sz := sz) st' F D h f cs buf (Some tt) f').
Proof.
  intros Hf Hw Hd Ht Hb Hlen Hnd Hnew Hfit Hfuel. eapply runs_mono; [by apply (append_spec Hg Hsz fuel st F D h f cs buf)|].
  intros r st1 (ok & f' & -> & Happ). destruct ok as [[]|]; [by exists f'|].
  destruct Happ as (F' & D' & _ & _ & _ & all & Hnd' & Hall & Hmany & _). exfalso.
  assert (length new <= length all)%nat as Hle.
  { apply submseteq_length, NoDup_submseteq; [done|]. intros x Hx. by apply Hall, Hnew. }
  pose proof (cluster_bytes_pos Hg). rewrite !length_app in *. nia.
Qed.

(** [C7]. When the free clusters [new] suffice for the
    longer file, appending and then reading the file returns the old contents
    followed by what was appended. *)
Theorem append_read_roundtrip fuel st F D h f cs buf new :
  fs st F D h -> writable (bs := bs) F f cs -> file_is_dir f = false -> trimmed (bs := bs) cs (file_size f) ->
  bytes_ok buf -> file_size f + zlen buf < 2 ^ 32 ->
  NoDup new -> (forall x, x ∈ new -> available bs x /\ F x = FatEntry.Unused) ->
  zlen (contents D f cs ++ buf) <= zlen (cs ++ new) * cluster_bytes bs ->
  (length cs + length (contents D f cs ++ buf) + Z.to_nat (cluster_bytes bs) + 1 < fuel)%nat ->
  runs (r <- append_file bs fuel f buf ;;
        match r with Some (Some _, f') => read_file bs fuel f' | _ => ret None end) st
    (fun o _ => o = Some (contents D f cs ++ buf)).
Proof.
  intros Hf Hw Hd Ht Hb Hlen Hnd Hnew Hfit Hfuel.
  eapply runs_bind; [apply (append_fits fuel st F D h f cs buf new); try done; rewrite length_app in Hfuel; lia|].
  intros ? st1 (f' & -> & F' & D' & Hf' & Hst & Hsame & cs' & Hw' & Ht' & Hs' & Hc' & Hch).
  assert (Hd' : file_is_dir f' = false) by (destruct Hsame as [-> _]; done).
  eapply runs_mono; [apply (read_contents fuel st1 F' D' h f' cs' Hf')|].
  - by apply writable_file_ok.
  - destruct (writable_chain _ _ _ Hw') as [_ Hav]. pose proof (bytes_of_length Hg Hsz _ _ _ _ _ Hf' Hav).
    pose proof (cluster_bytes_pos Hg). destruct Ht' as [_ Ht']. nia.
  - intros r st2 [-> _]. by rewrite Hc'.
Qed.

End claims.

(** ** A file on the concrete volume *)

(** The entry of [A.TXT] in the first slot of the root directory, 600 bytes in
    the clusters 3 and 5. *)
Definition demo_entry : SfnEntry :=
  with_file_size 600 (set_cluster (Some 3) (with_name [65; 32; 32; 32; 32; 32; 32; 32; 84; 88; 84] sfn_new)).

Definition demo_file : File :=
  {| f_dir := 2; f_name := [65; 46; 84; 88; 84]; f_entry_location := (2, 0); f_last_entry := (demo_entry, 2, 0) |}.

Definition demo_files : list (Z * list Z) := [(2, into_bytes (Sfn demo_entry)); (3, replicate 512 97); (5, replicate 88 98)].

Abbreviation demo_fs := (new_volume (demo_volume demo_chain demo_files)).
Abbreviation demo_F := (demo_fat demo_chain demo_files).
Abbreviation demo_D := (demo_data demo_chain demo_files).

Lemma demo_files_chain : is_chain demo_bs demo_F 3 [3; 5].
Proof.
  eapply (chain_next _ _ 3 5); [vm_compute; split; discriminate|vm_compute; reflexivity|].
  apply chain_end; [vm_compute; split; discriminate|vm_compute; reflexivity].
Qed.

Lemma demo_file_ok : file_ok (bs := demo_bs) demo_F demo_file [3; 5].
Proof. split; [reflexivity|exact demo_files_chain|vm_compute; split; discriminate]. Qed.

Lemma demo_entry_ok : entry_ok (Sfn demo_entry).
Proof.
  split; [|vm_compute; repeat split; discriminate].
  split; try (split; [reflexivity|]); try (by apply unsignedb_spec); apply Forall_unsignedb; vm_compute; reflexivity.
Qed.

Lemma demo_writable : writable (bs := demo_bs) demo_F demo_file [3; 5].
Proof.
  unfold writable, demo_file. cbn [f_last_entry].
  split; [vm_compute; split; discriminate|]. split; [vm_compute; split; [discriminate|reflexivity]|].
  split; [vm_compute; discriminate|]. split; [by rewrite !not_elem_of_cons; split_and!; [| |apply not_elem_of_nil]|].
  split; [apply demo_entry_ok|]. split; [vm_compute; reflexivity|apply demo_files_chain].
Qed.

Lemma demo_trimmed : trimmed (bs := demo_bs) [3; 5] (file_size demo_file).
Proof. split; [vm_compute; split; discriminate|right; vm_compute; reflexivity]. Qed.

Lemma demo_contents : contents demo_D demo_file [3; 5] = replicate 512 97 ++ replicate 88 98.
Proof. vm_compute. reflexivity. Qed.

Lemma read_file_contents_witness :
  runs (read_file demo_bs (Z.to_nat 1100) demo_file) demo_fs (fun r st' =>
    r = Some (replicate 512 97 ++ replicate 88 98) /\
    fs_rep demo_bs (n := 64) (sz := 512) st' demo_F demo_D (fun _ => 0%nat)).
Proof.
  rewrite <- demo_contents. apply (read_file_contents demo_bs_geometry eq_refl (Z.to_nat 1100) _ demo_F demo_D _ demo_file [3; 5]
    (demo_rep demo_chain demo_files) demo_file_ok).
  apply Nat.ltb_lt. vm_compute. reflexivity.
Defined.

Lemma append_extends_or_frees_witness :
  runs (append_file demo_bs 10 demo_file [7; 8; 9]) demo_fs (fun r st' => exists ok f', r = Some (ok, f') /\
    appended (bs := demo_bs) (n := 64) (sz := 512) st' demo_F demo_D (fun _ => 0%nat) demo_file [3; 5] [7; 8; 9] ok f').
Proof.
  apply (append_extends_or_frees demo_bs_geometry eq_refl 10 _ demo_F demo_D _ demo_file [3; 5] [7; 8; 9]
    (demo_rep demo_chain demo_files) demo_writable eq_refl demo_trimmed); [|vm_compute; reflexivity|simpl; lia].
  apply Forall_unsignedb. reflexivity.
Defined.

Lemma append_read_roundtrip_witness :
  runs (r <- append_file demo_bs (Z.to_nat 2000) demo_file [7; 8; 9] ;;
        match r with Some (Some _, f') => read_file demo_bs (Z.to_nat 2000) f' | _ => ret None end) demo_fs
    (fun o _ => o = Some ((replicate 512 97 ++ replicate 88 98) ++ [7; 8; 9])).
Proof.
  rewrite <- demo_contents.
  apply (append_read_roundtrip demo_bs_geometry eq_refl (Z.to_nat 2000) _ demo_F demo_D _ demo_file [3; 5] [7; 8; 9] [4]
    (demo_rep demo_chain demo_files) demo_writable eq_refl demo_trimmed).
  - apply Forall_unsignedb. reflexivity.
  - vm_compute. reflexivity.
  - apply NoDup_singleton.
  - intros x ->%list_elem_of_singleton. vm_compute. repeat split; discriminate.
  - vm_compute. discriminate.
  - apply Nat.ltb_lt. vm_compute. reflexivity.
Defined.

(** Overwriting a file of two clusters with
    a text that fits into the first one succeeds and leaves an entry whose cluster
    is free: the next allocation hands out the cluster that holds the text. *)
Theorem overwrite_frees_kept_cluster :
  let '(r, st) := overwrite_file demo_bs 10 demo_file [72; 105; 10] demo_fs in
  exists f', r = Ok (Some (Some tt, f')) /\ DirEntry.cluster (f_sfn f') = Some 3 /\ file_size f' = 3 /\
    fst (with_fat (fat_allocate demo_bs) st) = Ok 3.
Proof. vm_compute. eexists. repeat split. Qed.
