(* ===== verification/FatDirs.v ===== *)
(** * Directories

    What the iterator of Fat.v makes of the entries of a directory, and what
    creating a file does to them. A directory is the list of its slots, cluster by
    cluster, up to the terminal entry; [scan] is the list of the files such a list
    of entries stands for. *)

From S2P Require Import Prelude Volume BootSector FatEntry DirEntry LowLevel Fat FatFiles.
Local Open Scope Z_scope.
Local Open Scope rust_scope.

(** The files of a list of entries, for a reader in state [r] that started at
    [sl]: [None] when the reader panics or never gets past an entry. An entry that
    does not continue a sequence is read again from the start. *)
Fixpoint scan (dir : Z) (r : LfnReader) (sl : option (Z * Z)) (l : list (Z * Z * DirEntry)) : option (list File) :=
  match l with
  | [] => Some []
  | (c, n, e) :: l =>
      let settle (sl : option (Z * Z)) (x : option (LfnReader * ReadLfnResult)) (retry : option (list File)) :=
        match x with
        | Some (_, Meta UnusedTerminal) => Some []
        | Some (_, Meta _) => scan dir Init None l
        | Some (r, Incomplete) => scan dir r (Some (default (c, n) sl)) l
        | Some (_, Complete nm sfn) =>
            files ← scan dir Init None l;
            Some (if is_dots nm then files
                  else {| f_dir := dir; f_name := nm; f_entry_location := default (c, n) sl;
                          f_last_entry := (sfn, c, n) |} :: files)
        | Some (_, DirEntry.Broken _ _) => retry
        | None => None
        end in
      settle sl (reader_read r e) (settle None (reader_read Init e) None)
  end.

(** [for f in dir.files()], which is how the [ls] command visits a
    directory. *)
Section listing.
Context {St : Type} `{SectorCache St} (bs : BootSector).

Fixpoint collect (fuel ifuel : nat) (dir : Z) (cur : cursor) : M St Error (list File) :=
  match fuel with
  | O => mdiverge
  | S fuel =>
      '(o, cur) <- dir_iter_next bs ifuel dir cur None ;;
      match o with
      | None => drop_cursor cur ;;; ret []
      | Some f => l <- collect fuel ifuel dir cur ;; ret (f :: l)
      end
  end.

Definition list_files (fuel : nat) (dir : Z) : M St Error (list File) :=
  cur <- munwrap (files bs dir) ;;
  collect fuel fuel dir cur.

End listing.

(** One entry [e] at [(c, n)], read with result [x], in front of [l]. *)
Definition settle (dir c n : Z) (l : list (Z * Z * DirEntry)) (sl : option (Z * Z))
    (x : option (LfnReader * ReadLfnResult)) (retry : option (list File)) : option (list File) :=
  match x with
  | Some (_, Meta UnusedTerminal) => Some []
  | Some (_, Meta _) => scan dir Init None l
  | Some (r, Incomplete) => scan dir r (Some (default (c, n) sl)) l
  | Some (_, Complete nm sfn) =>
      files ← scan dir Init None l;
      Some (if is_dots nm then files
            else {| f_dir := dir; f_name := nm; f_entry_location := default (c, n) sl;
                    f_last_entry := (sfn, c, n) |} :: files)
  | Some (_, DirEntry.Broken _ _) => retry
  | None => None
  end.

Lemma scan_cons dir r sl c n e l :
  scan dir r sl ((c, n, e) :: l) =
  settle dir c n l sl (reader_read r e) (settle dir c n l None (reader_read Init e) None).
Proof. done. Qed.

(** A broken sequence leaves the reader at the start, with the entry at hand. *)
Lemma reader_read_broken r e r' r0 e0 : reader_read r e = Some (r', DirEntry.Broken r0 e0) -> r' = Init /\ e0 = e.
Proof.
  unfold reader_read. intros Hr. repeat (case_match; simplify_eq/=; try done).
  all: repeat match goal with H : context [mbind] |- _ => apply bind_Some in H as (? & ? & H) end; by simplify_eq.
Qed.

Lemma reader_read_meta r e r' e0 : reader_read r e = Some (r', Meta e0) -> e0 = e.
Proof.
  unfold reader_read. intros Hr. repeat (case_match; simplify_eq/=; try done).
  all: repeat match goal with H : context [mbind] |- _ => apply bind_Some in H as (? & ? & H) end; by simplify_eq.
Qed.

(** ** Lemmas: the iterator *)

Section iteration.
Context {St : Type} `{SectorCacheLaws St n sz} {bs : BootSector}
  (Hg : geometry bs n) (Hsz : sz = bpb_byts_per_sec bs).
Implicit Types (st : St) (F : Z -> FatEntry) (D : Z -> list Z) (h : counts).

Abbreviation fs st := (fs_rep bs (St := St) (n := n) (sz := sz) st).

(** The result of [next] when [scan] gives the files [l] of what is left: the
    cursor stops right after the last slot of the file. *)
Definition iter_post F D h dir (l : list File) (rem : list (Z * Z)) (r : option File * cursor) st : Prop :=
  fs st F D (own h (cursor_last r.2)) /\ exists seen rem', rem = seen ++ rem' /\
  cursor_slots (bs := bs) F r.2 rem' /\
  match r.1 with
  | None => l = []
  | Some f => exists l', l = f :: l' /\ scan dir Init None (walk D rem') = Some l' /\
      last seen = Some (slot_of f) /\ cursor_at (slot_of f).1 r.2
  end.

Lemma iter_post_cons F D h dir l x rem r st : iter_post F D h dir l rem r st -> iter_post F D h dir l (x :: rem) r st.
Proof.
  intros (Hf & seen & rem' & -> & Hcur & Hr). split; [done|]. exists (x :: seen), rem'. split_and!; try done.
  destruct r.1; [|done]. destruct Hr as (l' & ? & ? & Hl & ?). exists l'. rewrite last_cons, Hl. done.
Qed.

(** An entry that has been fetched and is read in state [r]. *)
Definition pending_scan D dir r sl c i (rem : list (Z * Z)) : option (list File) :=
  scan dir r (Some sl) ((c, i, entry_at D c i) :: if bool_decide (entry_at D c i = UnusedTerminal) then [] else walk D rem).

Definition fetched F D cur c i (rem : list (Z * Z)) : Prop :=
  if bool_decide (entry_at D c i = UnusedTerminal) then cur = None else cursor_slots (bs := bs) F cur rem /\ cursor_at c cur.

Definition iter_A F D h dir rem : Prop := forall fuel st cur l,
  fs st F D (own h (cursor_last cur)) -> cursor_slots (bs := bs) F cur rem ->
  scan dir Init None (walk D rem) = Some l -> (3 * length rem + 2 <= fuel)%nat ->
  runs (dir_iter_next bs fuel dir cur None) st (iter_post F D h dir l rem).

Definition iter_B F D h dir rem : Prop := forall fuel st cur r sl c i l,
  fs st F D (own h (cursor_last cur)) -> fetched F D cur c i rem ->
  pending_scan D dir r sl c i rem = Some l -> (3 * length rem + 4 <= fuel)%nat ->
  runs (dir_iter_next bs fuel dir cur (Some (r, sl, (c, i), entry_at D c i))) st (iter_post F D h dir l ((c, i) :: rem)).

Lemma iter_A_step F D h dir rem :
  match rem with [] => True | _ :: rem' => iter_B F D h dir rem' end -> iter_A F D h dir rem.
Proof.
  intros HB fuel st cur l Hf Hcur Hs Hfuel. destruct fuel as [|fuel]; [lia|]. cbn [dir_iter_next].
  eapply runs_bind; [by apply (dir_next_spec Hg Hsz)|]. intros [o cur'] st' [Hf' Hn]. destruct rem as [|[k i] rem'].
  - injection Hn as -> ->. apply ends_ret. simpl in Hs. simplify_eq. split; [done|]. by exists [], [].
  - destruct Hn as [Ho Hc]. cbn [fst snd] in *. subst o.
    apply (HB fuel st' cur' Init (k, i) k i l Hf'); [exact Hc|exact Hs|simpl in Hfuel; lia].
Qed.

(** A read that does not break the sequence. *)
Lemma iter_read F D h dir rem fuel st cur r sl c i l r' res :
  iter_A F D h dir rem -> match rem with [] => True | _ :: rem' => iter_B F D h dir rem' end ->
  fs st F D (own h (cursor_last cur)) -> fetched F D cur c i rem ->
  reader_read r (entry_at D c i) = Some (r', res) -> (forall x e, res <> DirEntry.Broken x e) ->
  settle dir c i (if bool_decide (entry_at D c i = UnusedTerminal) then [] else walk D rem) (Some sl)
    (Some (r', res)) None = Some l ->
  (3 * length rem + 3 <= fuel)%nat ->
  runs (dir_iter_next bs fuel dir cur (Some (r, sl, (c, i), entry_at D c i))) st (iter_post F D h dir l ((c, i) :: rem)).
Proof.
  intros HA HB Hf Hcur Hr Hnb Hs Hfuel. destruct fuel as [|fuel]; [lia|]. cbn [dir_iter_next]. rewrite Hr.
  apply (runs_bind _ _ _ (fun a b => a = (r', res) /\ b = st)); [done|]. intros ? ? [-> ->].
  unfold fetched in Hcur. destruct res as [e0|nm sfn| |]; [| | |by destruct (Hnb r0 e)].
  - apply reader_read_meta in Hr as He. subst e0. cbn [settle] in Hs.
    case_bool_decide as Ht.
    + rewrite Ht in *. simplify_eq. apply ends_ret. split; [done|]. eexists _, []. split; [symmetry; apply app_nil_r|done].
    + destruct Hcur as [Hcur _]. destruct (entry_at D c i) eqn:He; try done;
        (eapply runs_mono; [apply (HA fuel st cur l); try done; lia|intros x s'; apply iter_post_cons]).
  - cbn [settle] in Hs. case_bool_decide as Ht; [by rewrite Ht in Hr; destruct r|].
    destruct Hcur as [Hcur Hat]. apply bind_Some in Hs as (l' & Hl' & [= <-]). destruct (is_dots nm).
    + eapply runs_mono; [apply (HA fuel st cur l'); try done; lia|intros x s'; apply iter_post_cons].
    + apply ends_ret. split; [done|]. exists [(c, i)], rem. split_and!; try done. cbn [fst snd]. by exists l'.
  - cbn [settle] in Hs. case_bool_decide as Ht; [by rewrite Ht in Hr; destruct r|].
    destruct Hcur as [Hcur _].
    eapply runs_bind; [by apply (dir_next_spec Hg Hsz)|]. intros [o cur'] st' [Hf' Hn]. destruct rem as [|[k j] rem'].
    + injection Hn as -> ->. apply ends_ret. simpl in Hs. simplify_eq. split; [done|]. eexists _, []. split; [symmetry; apply app_nil_r|done].
    + destruct Hn as [Ho Hc]. cbn [fst snd] in *. subst o.
      eapply runs_mono; [apply (HB fuel st' cur' r' sl k j l Hf' Hc Hs); simpl in *; lia|].
      intros x s'. apply iter_post_cons.
Qed.

Lemma iter_B_step F D h dir rem :
  iter_A F D h dir rem -> match rem with [] => True | _ :: rem' => iter_B F D h dir rem' end -> iter_B F D h dir rem.
Proof.
  intros HA HB fuel st cur r sl c i l Hf Hcur Hs Hfuel. unfold pending_scan in Hs. rewrite scan_cons in Hs.
  destruct (reader_read r (entry_at D c i)) as [[r' res]|] eqn:Hr; [|done].
  assert (Hcase : (exists x e, res = DirEntry.Broken x e) \/ forall x e, res <> DirEntry.Broken x e)
    by (destruct res; eauto).
  destruct Hcase as [(x & e & ->)|Hnb].
  - apply reader_read_broken in Hr as Hb. destruct Hb as [-> ->]. cbn [settle] in Hs.
    destruct fuel as [|fuel]; [lia|]. cbn [dir_iter_next]. rewrite Hr.
    apply (runs_bind _ _ _ (fun a b => a = (Init, DirEntry.Broken x (entry_at D c i)) /\ b = st)); [done|].
    intros ? ? [-> ->]. destruct (reader_read Init (entry_at D c i)) as [[r2 res2]|] eqn:Hr2; [|done].
    apply (iter_read F D h dir rem fuel st cur Init (c, i) c i l r2 res2); try done; [|lia].
    intros y e ->. done.
  - apply (iter_read F D h dir rem fuel st cur r sl c i l r' res); try done; [|lia].
    destruct res as [| | |x e]; try done. by destruct (Hnb x e).
Qed.

Lemma iter_both F D h dir rem : iter_A F D h dir rem /\ iter_B F D h dir rem.
Proof.
  induction rem as [|s rem [_ IH]]; (split; [|apply iter_B_step; [|done]]); by apply iter_A_step.
Qed.

(** One call of [next]. *)
Lemma dir_iter_next_spec fuel st F D h dir cur rem l :
  fs st F D (own h (cursor_last cur)) -> cursor_slots (bs := bs) F cur rem ->
  scan dir Init None (walk D rem) = Some l -> (3 * length rem + 2 <= fuel)%nat ->
  runs (dir_iter_next bs fuel dir cur None) st (iter_post F D h dir l rem).
Proof. apply (proj1 (iter_both F D h dir rem)). Qed.

Lemma collect_spec l : forall fuel ifuel st F D h dir cur rem,
  fs st F D (own h (cursor_last cur)) -> cursor_slots (bs := bs) F cur rem ->
  scan dir Init None (walk D rem) = Some l -> (3 * length rem + 2 <= ifuel)%nat -> (length l < fuel)%nat ->
  runs (collect bs fuel ifuel dir cur) st (fun r st' => r = l /\ fs st' F D h).
Proof.
  induction l as [|f l IH]; intros [|fuel] ifuel st F D h dir cur rem Hf Hcur Hs Hi Hfuel; try (simpl in Hfuel; lia).
  all: cbn [collect]; (eapply runs_bind; [by apply (dir_iter_next_spec ifuel st F D h dir cur rem _ Hf Hcur Hs)|]).
  all: intros [o cur'] st' (Hf' & seen & rem' & -> & Hcur' & Ho); cbn [fst snd] in *; destruct o as [f'|]; try done.
  - by destruct Ho as (? & ? & _).
  - eapply runs_bind; [exact (drop_cursor_spec _ _ _ _ _ Hf')|]. intros [] st2 Hf2. by apply ends_ret.
  - rewrite length_app in Hi. destruct Ho as (l' & [= <- <-] & Hs' & _).
    eapply runs_bind; [apply (IH fuel ifuel st' F D h dir cur' rem'); try done; simpl in *; lia|].
    intros r st2 [-> Hf2]. by apply ends_ret.
Qed.

(** Whether some file has the name [nm]. *)
Lemma any_file_spec nm l : forall fuel ifuel st F D h dir cur rem,
  fs st F D (own h (cursor_last cur)) -> cursor_slots (bs := bs) F cur rem ->
  scan dir Init None (walk D rem) = Some l -> (3 * length rem + 2 <= ifuel)%nat -> (length l < fuel)%nat ->
  runs (any_file bs fuel ifuel dir nm cur) st (fun b st' => b = bool_decide (nm ∈ f_name <$> l) /\ fs st' F D h).
Proof.
  induction l as [|f l IH]; intros [|fuel] ifuel st F D h dir cur rem Hf Hcur Hs Hi Hfuel; try (simpl in Hfuel; lia).
  all: cbn [any_file]; (eapply runs_bind; [by apply (dir_iter_next_spec ifuel st F D h dir cur rem _ Hf Hcur Hs)|]).
  all: intros [o cur'] st' (Hf' & seen & rem' & -> & Hcur' & Ho); cbn [fst snd] in *; destruct o as [f'|]; try done.
  - by destruct Ho as (? & ? & _).
  - eapply runs_bind; [exact (drop_cursor_spec _ _ _ _ _ Hf')|]. intros [] st2 Hf2. by apply ends_ret.
  - rewrite length_app in Hi. destruct Ho as (l' & [= <- <-] & Hs' & _). destruct (bool_decide_reflect (f_name f = nm)) as [Hnm|Hnm].
    + eapply runs_bind; [exact (drop_cursor_spec _ _ _ _ _ Hf')|]. intros [] st2 Hf2. apply ends_ret.
      split; [|done]. rewrite bool_decide_eq_true_2; [done|]. rewrite <- Hnm. by left.
    + eapply runs_mono; [apply (IH fuel ifuel st' F D h dir cur' rem'); try done; simpl in *; lia|].
      intros b st2 [-> ?]. split; [|done]. apply bool_decide_ext. rewrite fmap_cons, elem_of_cons. naive_solver.
Qed.

(** An entry that is broken from the start is read again and again. *)
Lemma iter_orphan dir e : reader_read Init e = Some (Init, DirEntry.Broken Init e) -> forall fuel cur sl el st,
  (dir_iter_next bs fuel dir cur (Some (Init, sl, el, e)) st).1 = Diverge.
Proof.
  intros He. induction fuel as [|fuel IH]; intros cur sl el st; [done|]. cbn [dir_iter_next]. rewrite He. apply IH.
Qed.

End iteration.

(** ** Directories as lists of groups *)

(** The entries of all slots, and those an iteration visits. *)
Definition cells (D : Z -> list Z) (l : list (Z * Z)) : list (Z * Z * DirEntry) :=
  (fun '(k, i) => (k, i, entry_at D k i)) <$> l.

Fixpoint cut (l : list (Z * Z * DirEntry)) : list (Z * Z * DirEntry) :=
  match l with
  | [] => []
  | x :: l => x :: if bool_decide (x.2 = UnusedTerminal) then [] else cut l
  end.

Definition live (l : list (Z * Z * DirEntry)) : Prop := Forall (fun x => x.2 <> UnusedTerminal) l.

(** The file a group of entries stands for. *)
Definition group_file (dir : Z) (g : list (Z * Z * DirEntry)) (nm : list Z) (sfn : SfnEntry) : File :=
  {| f_dir := dir; f_name := nm;
     f_entry_location := match g with (c, n, _) :: _ => (c, n) | [] => (0, 0) end;
     f_last_entry := match last g with Some (c, n, _) => (sfn, c, n) | None => (sfn, 0, 0) end |}.

Definition shown (f : File) (l : list File) : list File := if is_dots (f_name f) then l else f :: l.

(** A directory without leftovers: unused slots, volume labels, and the
    complete sequences of its files, up to the terminal entry. *)
Inductive tidy (dir : Z) : list (Z * Z * DirEntry) -> list File -> Prop :=
| tidy_nil : tidy dir [] []
| tidy_terminal c n : tidy dir [(c, n, UnusedTerminal)] []
| tidy_unused c n l fl : tidy dir l fl -> tidy dir ((c, n, DirEntry.Unused) :: l) fl
| tidy_label c n sfn l fl : is_volume_id sfn = true -> tidy dir l fl -> tidy dir ((c, n, Sfn sfn) :: l) fl
| tidy_group g nm sfn l fl :
    read_sequence Init (snd <$> g) = Some (nm, sfn) -> tidy dir l fl ->
    tidy dir (g ++ l) (shown (group_file dir g nm sfn) fl).

(** ** Lemmas: tidy directories *)

Lemma walk_cut D l : walk D l = cut (cells D l).
Proof.
  induction l as [|[k i] l IH]; [done|]. simpl. rewrite IH. done.
Qed.

Lemma cut_live_app l1 l2 : live l1 -> cut (l1 ++ l2) = l1 ++ cut l2.
Proof.
  induction 1 as [|x l Hx Hl IH]; [done|]. simpl. rewrite bool_decide_eq_false_2, IH by done. done.
Qed.

(** The last entry of a group is the short one. *)
Lemma read_sequence_last es : forall r nm e, read_sequence r es = Some (nm, e) -> exists es0, es = es0 ++ [Sfn e].
Proof.
  induction es as [|x es IH]; intros r nm e Hr; [done|]. cbn [read_sequence] in Hr.
  destruct (reader_read r x) as [[r' [|nm' e0| |]]|] eqn:Hrd; try done.
  - destruct es; [|done]. injection Hr as -> ->. exists []. simpl. f_equal. unfold reader_read in Hrd. repeat (case_match; simplify_eq/=; try done).
    all: repeat match goal with H : context [mbind] |- _ => apply bind_Some in H as (? & ? & H) end; by simplify_eq.
  - destruct (IH r' nm e Hr) as [es0 ->]. by exists (x :: es0).
Qed.

(** A short entry with the same name ends the group of a file as well. *)
Definition same_name (e e' : SfnEntry) : Prop :=
  is_volume_id e' = is_volume_id e /\ DirEntry.name e' = DirEntry.name e /\ nt_res e' = nt_res e.

Lemma reader_read_id r e e' nm r' : same_name e e' -> reader_read r (Sfn e) = Some (r', Complete nm e) -> reader_read r (Sfn e') = Some (r', Complete nm e').
Proof.
  intros (Hv & Hn & Ht). assert (Hsum : sfn_checksum e' = sfn_checksum e) by (unfold sfn_checksum; by rewrite Hn).
  assert (Hnm : sfn_name e' = sfn_name e) by (unfold sfn_name; by rewrite Hn, Ht). destruct r as [|sum o buf]; simpl.
  - rewrite Hv, Hnm. destruct (is_volume_id e); [done|]. simpl. intros [= <- <-]. done.
  - rewrite Hsum. destruct ((o =? 0) && (sum =? sfn_checksum e)); [|done]. intros [= <- <-]. done.
Qed.

Lemma read_sequence_id es : forall r e nm e', same_name e e' ->
  read_sequence r (es ++ [Sfn e]) = Some (nm, e) -> read_sequence r (es ++ [Sfn e']) = Some (nm, e').
Proof.
  induction es as [|x es IH]; intros r e nm e' Hid Hr.
  - cbn [app read_sequence] in *. destruct (reader_read r (Sfn e)) as [[r' [| | |]]|] eqn:Hrd; try done. injection Hr as -> ->.
    by rewrite (reader_read_id _ _ _ _ _ Hid Hrd).
  - cbn [app read_sequence] in *. destruct (reader_read r x) as [[r' [|nm' e0| |]]|]; try done; [by destruct es|]. by apply (IH r' e).
Qed.

Lemma read_sequence_live r es nm sfn :
  read_sequence r es = Some (nm, sfn) -> Forall (fun e => e <> UnusedTerminal /\ e <> DirEntry.Unused) es.
Proof.
  revert r. induction es as [|e es IH]; intros r Hr; [done|]. simpl in Hr.
  destruct (reader_read r e) as [[r' [| | |]]|] eqn:He; try done.
  all: assert (e <> UnusedTerminal /\ e <> DirEntry.Unused) as Hne
    by (split; intros ->; destruct r; simpl in He; simplify_eq).
  - destruct es; [|done]. by apply Forall_singleton.
  - apply Forall_cons_2; [done|]. by eapply IH.
Qed.

(** A group read from the middle. *)
Lemma scan_group dir l fl : scan dir Init None l = Some fl -> forall g r sl nm sfn,
  read_sequence r (snd <$> g) = Some (nm, sfn) ->
  scan dir r sl (g ++ l) = Some (shown {| f_dir := dir; f_name := nm;
    f_entry_location := default (match g with (c, n, _) :: _ => (c, n) | [] => (0, 0) end) sl;
    f_last_entry := match last g with Some (c, n, _) => (sfn, c, n) | None => (sfn, 0, 0) end |} fl).
Proof.
  intros Hl. induction g as [|[[c n] e] g IH]; intros r sl nm sfn Hr; [done|].
  rewrite fmap_cons in Hr. cbn [snd read_sequence] in Hr. rewrite <- app_comm_cons, scan_cons.
  destruct (reader_read r e) as [[r' [| | |]]|] eqn:He; try done.
  - destruct g as [|x g]; [|done]. simpl in Hr. simplify_eq. simpl. rewrite Hl. done.
  - cbn [settle]. rewrite (IH r' (Some (default (c, n) sl)) nm sfn Hr). do 3 f_equal.
    destruct g as [|x g]; [done|]. by rewrite last_cons_cons.
Qed.

Lemma tidy_scan dir l fl : tidy dir l fl -> scan dir Init None l = Some fl.
Proof.
  induction 1 as [|c n|c n l fl _ IH|c n sfn l fl Hv _ IH|g nm sfn l fl Hr _ IH]; try done.
  - rewrite scan_cons. cbn. rewrite Hv. simpl. done.
  - by rewrite (scan_group dir l fl IH g Init None nm sfn Hr).
Qed.

Lemma tidy_app dir l1 l2 f1 f2 : tidy dir l1 f1 -> live l1 -> tidy dir l2 f2 -> tidy dir (l1 ++ l2) (f1 ++ f2).
Proof.
  intros Ht Hl H2. revert Hl.
  induction Ht as [|c n|c n l fl _ IH|c n sfn l fl Hv _ IH|g nm sfn l fl Hr _ IH]; intros Hl; try done.
  - by apply Forall_inv in Hl.
  - apply tidy_unused, IH. by apply Forall_cons in Hl as [_ ?].
  - apply tidy_label; [done|]. apply IH. by apply Forall_cons in Hl as [_ ?].
  - rewrite <- app_assoc. unfold shown in *. apply Forall_app in Hl as [_ Hl].
    pose proof (tidy_group dir g nm sfn _ _ Hr (IH Hl)) as Hg. unfold shown in Hg. by destruct (is_dots _).
Qed.

(** A group that is cut off at the end of the chain stands for no file. *)
Lemma scan_cut_off dir g : forall r sl es nm sfn,
  read_sequence r ((snd <$> g) ++ es) = Some (nm, sfn) -> es <> [] -> scan dir r sl g = Some [].
Proof.
  induction g as [|[[c n] e] g IH]; intros r sl es nm sfn Hr Hes; [done|]. cbn [fmap list_fmap app snd read_sequence] in Hr. rewrite scan_cons.
  destruct (reader_read r e) as [[r' [| | |]]|]; try done; [|by apply (IH r' _ es nm sfn)].
  destruct g; [|done]. by destruct es.
Qed.

Lemma scan_app dir l1 l2 f1 f2 : tidy dir l1 f1 -> live l1 -> scan dir Init None l2 = Some f2 -> scan dir Init None (l1 ++ l2) = Some (f1 ++ f2).
Proof.
  intros Ht Hl H2. revert Hl.
  induction Ht as [|c n|c n l fl _ IH|c n sfn l fl Hv _ IH|g nm sfn l fl Hr _ IH]; intros Hl.
  - done.
  - by apply Forall_inv in Hl.
  - apply Forall_cons in Hl as [_ Hl]. exact (IH Hl).
  - apply Forall_cons in Hl as [_ Hl]. rewrite <- app_comm_cons, scan_cons. cbn. rewrite Hv. simpl. exact (IH Hl).
  - apply Forall_app in Hl as [_ Hl]. rewrite <- app_assoc, (scan_group dir _ _ (IH Hl) g Init None nm sfn Hr). unfold shown, group_file. simpl. by destruct (is_dots nm).
Qed.

(** An unused slot separates groups. *)
Lemma tidy_split dir l fl : tidy dir l fl -> forall l1 x l2,
  l = l1 ++ x :: l2 -> x.2 = DirEntry.Unused \/ x.2 = UnusedTerminal ->
  exists f1 f2, tidy dir l1 f1 /\ tidy dir (x :: l2) f2 /\ fl = f1 ++ f2.
Proof.
  induction 1 as [|c n|c n l fl Ht IH|c n sfn l fl Hv Ht IH|g nm sfn l fl Hr Ht IH]; intros l1 x l2 Heq Hx.
  - by destruct l1.
  - destruct l1 as [|y l1]; [|by destruct l1]. simpl in Heq. simplify_eq. exists [], []. split_and!; try done; constructor.
  - destruct l1 as [|y l1]; simpl in Heq; simplify_eq.
    + exists [], fl. split_and!; [constructor|by constructor|done].
    + destruct (IH l1 x l2 eq_refl Hx) as (f1 & f2 & ? & ? & ->). exists f1, f2. split_and!; try done. by constructor.
  - destruct l1 as [|y l1]; simpl in Heq; simplify_eq; [by destruct Hx|].
    destruct (IH l1 x l2 eq_refl Hx) as (f1 & f2 & ? & ? & ->). exists f1, f2. split_and!; try done. by constructor.
  - assert (Hg : Forall (fun e => e <> UnusedTerminal /\ e <> DirEntry.Unused) (snd <$> g)) by (by eapply read_sequence_live).
    apply app_eq_app in Heq as [k [[Hgl Hk]|[Hl1 Hl]]].
    + destruct k as [|y k].
      * rewrite app_nil_r in Hgl. simpl in Hk. destruct (IH [] x l2 (eq_sym Hk) Hx) as (f1 & f2 & H1 & H2 & ->).
        subst. exists (shown (group_file dir l1 nm sfn) f1), f2. split_and!; try done.
        -- rewrite <- (app_nil_r l1) at 1. by apply tidy_group.
        -- unfold shown. by destruct (is_dots _).
      * simpl in Hk. simplify_eq. rewrite fmap_app, Forall_app, fmap_cons, Forall_cons in Hg. naive_solver.
    + subst. destruct (IH k x l2 eq_refl Hx) as (f1 & f2 & H1 & H2 & ->).
      exists (shown (group_file dir g nm sfn) f1), f2. split_and!; try done; [by apply tidy_group|].
      unfold shown. by destruct (is_dots _).
Qed.

(** ** Lemmas: the search for unused slots *)

(** What the loop of [insert_dir_entries] finds. *)
Fixpoint find (req : Z) (start : Z * Z) (len : Z) (l : list (Z * Z * DirEntry)) : (Z * Z) * Z :=
  match l with
  | [] => (start, len)
  | (c, n, e) :: l =>
      match e with
      | DirEntry.Unused =>
          let start := if len =? 0 then (c, n) else start in
          if len + 1 =? req then (start, len + 1) else find req start (len + 1) l
      | UnusedTerminal => (if len =? 0 then (c, n) else start, len)
      | _ => find req start 0 l
      end
  end.

Definition head_loc (l : list (Z * Z * DirEntry)) : Z * Z :=
  match l with (c, n, _) :: _ => (c, n) | [] => (0, 0) end.

Definition unused (l : list (Z * Z * DirEntry)) : Prop := Forall (fun x => x.2 = DirEntry.Unused) l.

(** A directory that ends with a terminal entry. *)
Definition terminated (l : list (Z * Z * DirEntry)) : Prop :=
  exists l0 c n, l = l0 ++ [(c, n, UnusedTerminal)] /\ live l0.

(** The number of slots up to the last one in use. *)
Fixpoint used_len (l : list (Z * Z * DirEntry)) : nat :=
  match l with
  | [] => 0
  | x :: l =>
      match used_len l with
      | O => if bool_decide (x.2 = DirEntry.Unused \/ x.2 = UnusedTerminal) then 0 else 1
      | S k => S (S k)
      end
  end.

Lemma used_len_cut pre run c n : unused run -> (forall x, last pre = Some x -> x.2 <> DirEntry.Unused) -> live pre ->
  used_len (pre ++ run ++ [(c, n, UnusedTerminal)]) = length pre.
Proof.
  intros Hrun. assert (Hz : used_len (run ++ [(c, n, UnusedTerminal)]) = 0%nat).
  { induction Hrun as [|x run Hx Hrun IH]; [done|]. cbn [app used_len]. rewrite IH, bool_decide_eq_true_2; [done|]. by left. }
  induction pre as [|x pre IH]; intros Hlast Hlive; [exact Hz|]. apply Forall_cons in Hlive as [Hx Hlive]. cbn [app used_len length].
  rewrite IH; [|intros y Hy; apply Hlast; by rewrite last_cons, Hy|done]. destruct pre as [|y pre]; [|done]. cbn [length].
  rewrite bool_decide_eq_false_2; [done|]. intros [Hu|Hu]; [by apply (Hlast x)|done].
Qed.

(** Where the entries go: into a run of unused slots of their number, or in
    front of the terminal entry. *)
Lemma find_spec req l : forall pre run start,
  terminated l -> zlen run < req -> unused run -> (run <> [] -> start = head_loc run) -> (forall x, last pre = Some x -> x.2 <> DirEntry.Unused) ->
  exists pre' run' post, pre ++ run ++ l = pre' ++ run' ++ post /\ unused run' /\ (forall x, last pre' = Some x -> x.2 <> DirEntry.Unused) /\
    find req start (zlen run) l = (head_loc (run' ++ post), zlen run') /\
    (zlen run' = req \/ zlen run' < req /\ exists c n, post = [(c, n, UnusedTerminal)]).
Proof.
  induction l as [|[[c n] e] l IH]; intros pre run start (l0 & c0 & n0 & Hl & Hlive) Hlen Hrun Hst Hpre.
  { by destruct l0. }
  assert (Hs : (if zlen run =? 0 then (c, n) else start) = head_loc (run ++ (c, n, e) :: l)).
  { destruct run as [|[[c1 n1] e1] run]; [done|]. simpl. by rewrite Hst. }
  destruct l0 as [|x l0]; simpl in Hl; [injection Hl as -> -> -> ->|injection Hl as <- ->].
  - exists pre, run, [(c0, n0, UnusedTerminal)]. split_and!; try done; [|right; eauto].
    cbn [find]. by rewrite Hs.
  - apply Forall_cons in Hlive as [Hx Hlive]. simpl in Hx.
    assert (Hterm : terminated (l0 ++ [(c0, n0, UnusedTerminal)])) by (by exists l0, c0, n0).
    assert (skip_find : e <> DirEntry.Unused -> exists pre' run' post, pre ++ run ++ (c, n, e) :: l0 ++ [(c0, n0, UnusedTerminal)] = pre' ++ run' ++ post /\
      unused run' /\ (forall x, last pre' = Some x -> x.2 <> DirEntry.Unused) /\
      find req start 0 (l0 ++ [(c0, n0, UnusedTerminal)]) = (head_loc (run' ++ post), zlen run') /\
      (zlen run' = req \/ zlen run' < req /\ exists c n, post = [(c, n, UnusedTerminal)])).
    { intros He. destruct (IH (pre ++ run ++ [(c, n, e)]) [] start) as (p & r & q & Heq & Hrest); [done|simpl; lia|constructor|done| |].
      - intros x. rewrite app_assoc, last_snoc. by intros [= <-].
      - exists p, r, q. split; [|done]. rewrite <- Heq, <- !app_assoc. done. }
    destruct e as [| |le|se]; try done; try (by apply skip_find).
    cbn [find]. rewrite Hs. replace (zlen run + 1) with (zlen (run ++ [(c, n, DirEntry.Unused)])) by (rewrite length_app; simpl; lia).
      assert (Hrun' : unused (run ++ [(c, n, DirEntry.Unused)])) by (apply Forall_app; split; [done|by apply Forall_singleton]).
      replace (pre ++ run ++ (c, n, DirEntry.Unused) :: l0 ++ [(c0, n0, UnusedTerminal)]) with
        (pre ++ (run ++ [(c, n, DirEntry.Unused)]) ++ l0 ++ [(c0, n0, UnusedTerminal)]) by (by rewrite <- (app_assoc run)).
      destruct (Z.eqb_spec (zlen (run ++ [(c, n, DirEntry.Unused)])) req) as [Heq|Hne].
      * eexists pre, _, _. split; [done|]. split; [done|]. split; [done|]. split; [by rewrite <- app_assoc|].
        left. rewrite length_app in *. simpl in *. lia.
      * apply (IH pre); try done; [rewrite length_app in *; simpl in *; lia|]. intros _. by destruct run as [|[[? ?] ?] ?].
Qed.

Lemma cut_prefix l : exists rest, l = cut l ++ rest.
Proof.
  induction l as [|x l [rest IH]]; [by exists []|]. simpl. case_bool_decide; [by exists l|]. exists rest. simpl. by f_equal.
Qed.

Lemma unused_live l : unused l -> live l.
Proof. intros Hl. eapply Forall_impl; [exact Hl|]. intros x ->. done. Qed.

Lemma terminated_app a b : terminated (a ++ b) -> b <> [] -> live a /\ terminated b.
Proof.
  intros (l0 & c & n & Heq & Hl) Hb. destruct b as [|y b _] using rev_ind; [done|].
  rewrite app_assoc in Heq. apply app_inj_tail in Heq as [<- ->]. apply Forall_app in Hl as [Ha Hb']. split; [done|].
  by exists b, c, n.
Qed.

Lemma terminated_cut l rest : terminated l -> cut (l ++ rest) = l.
Proof.
  intros (l0 & c & n & -> & Hl). rewrite <- app_assoc, (cut_live_app l0 _ Hl). simpl. done.
Qed.

Lemma terminated_prepend a b : live a -> terminated b -> terminated (a ++ b).
Proof.
  intros Ha (l0 & c & n & -> & Hl). exists (a ++ l0), c, n. rewrite app_assoc. split; [done|]. by apply Forall_app.
Qed.

Lemma group_live g r nm sfn : read_sequence r (snd <$> g) = Some (nm, sfn) -> live g.
Proof. intros Hr%read_sequence_live. apply Forall_fmap in Hr. eapply Forall_impl; [exact Hr|]. by intros x [? _]. Qed.

Lemma tidy_unused_inv dir run l fl : unused run -> tidy dir (run ++ l) fl -> tidy dir l fl.
Proof.
  intros Hrun. induction Hrun as [|[[c n] e] run Hx Hrun IH]; [done|]. simpl in Hx. subst e. intros Ht. apply IH.
  rewrite <- app_comm_cons in Ht. inversion Ht as [|? ? Heq|? ? l' fl' Ht' Heq|? ? ? ? ? ? ? Heq|g nm sfn l' fl' Hr Ht' Heq]; simplify_eq; [done|].
  destruct g as [|y g]; [done|]. simpl in Heq. by simplify_eq.
Qed.

Lemma tidy_terminal_inv dir c n fl : tidy dir [(c, n, UnusedTerminal)] fl -> fl = [].
Proof. intros Ht%tidy_scan. simpl in Ht. by simplify_eq. Qed.

(** The new group among the others. *)
Lemma tidy_insert dir pre run post fl g nm sfn :
  tidy dir (pre ++ run ++ post) fl -> live pre -> unused run -> run ++ post <> [] ->
  (run = [] -> exists c n, post = [(c, n, UnusedTerminal)]) -> read_sequence Init (snd <$> g) = Some (nm, sfn) ->
  exists f1 f2, fl = f1 ++ f2 /\ tidy dir post f2 /\
    tidy dir (pre ++ g ++ post) (f1 ++ shown (group_file dir g nm sfn) f2) /\
    forall c n, f2 = [] -> tidy dir (pre ++ g ++ [(c, n, UnusedTerminal)]) (f1 ++ shown (group_file dir g nm sfn) []).
Proof.
  intros Ht Hl Hu Hne Hrun Hr. destruct (run ++ post) as [|x rest] eqn:Hx; [done|].
  destruct (tidy_split dir _ _ Ht pre x rest eq_refl) as (f1 & f2 & H1 & H2 & ->).
  { destruct run as [|y run]; simpl in Hx.
    - destruct (Hrun eq_refl) as (c & n & ->). simplify_eq. by right.
    - simplify_eq. left. by apply Forall_inv in Hu. }
  rewrite <- Hx in H2. apply (tidy_unused_inv _ _ _ _ Hu) in H2. exists f1, f2. split_and!; try done.
  - apply tidy_app; [done|done|]. by apply tidy_group.
  - intros c n ->. apply tidy_app; [done|done|]. apply tidy_group; [done|constructor].
Qed.

Section insertion.
Context {St : Type} `{SectorCacheLaws St n sz} {bs : BootSector}
  (Hg : geometry bs n) (Hsz : sz = bpb_byts_per_sec bs).
Implicit Types (st : St) (F : Z -> FatEntry) (D : Z -> list Z) (h : counts).

Abbreviation fs st := (fs_rep bs (St := St) (n := n) (sz := sz) st).

Lemma find_writable_spec req F D h rem : forall fuel st start len cur,
  fs st F D (own h (cursor_last cur)) -> cursor_slots (bs := bs) F cur rem -> (length rem < fuel)%nat ->
  runs (find_writable bs fuel req start len cur) st (fun r st' => r = find req start len (walk D rem) /\ fs st' F D h).
Proof.
  induction rem as [|[k i] rem IH]; intros [|fuel] st start len cur Hf Hcur Hfuel; try (simpl in Hfuel; lia).
  all: cbn [find_writable]; (eapply runs_bind; [by apply (dir_next_spec Hg Hsz)|]); intros [o cur'] st' [Hf' Hn].
  - injection Hn as -> ->. apply ends_ret. done.
  - destruct Hn as [Ho Hc]. cbn [fst snd] in *. subst o. cbn [walk find]. simpl in Hfuel.
    assert (Hrec : forall s l', entry_at D k i <> UnusedTerminal ->
      runs (find_writable bs fuel req s l' cur') st' (fun r st' => r = find req s l' (walk D rem) /\ fs st' F D h)).
    { intros s l' Hne. rewrite bool_decide_eq_false_2 in Hc by done. destruct Hc as [Hc _]. apply IH; try done. lia. }
    destruct (entry_at D k i) eqn:He; try (apply Hrec; done).
    + eapply runs_bind; [exact (drop_cursor_spec _ _ _ _ _ Hf')|]. intros [] st2 Hf2. by apply ends_ret.
    + destruct (len + 1 =? req).
      * eapply runs_bind; [exact (drop_cursor_spec _ _ _ _ _ Hf')|]. intros [] st2 Hf2. by apply ends_ret.
      * by apply Hrec.
Qed.

(** *** Slots by position *)

Abbreviation cnt := (Z.to_nat (cluster_bytes bs / 32)).

Lemma cnt_pos : (0 < cnt)%nat.
Proof. pose proof (cluster_bytes_entries Hg). lia. Qed.

Lemma slots_length cs : length (slots bs cs) = (length cs * cnt)%nat.
Proof.
  induction cs as [|k cs IH]; [done|]. rewrite slots_cons, length_app, IH, length_fmap, length_seqZ. simpl. lia.
Qed.

Lemma slots_lookup cs a k i :
  cs !! a = Some k -> 0 <= i < cluster_bytes bs / 32 -> slots bs cs !! (a * cnt + Z.to_nat i)%nat = Some (k, i).
Proof.
  revert a. induction cs as [|k0 cs IH]; intros a Hk Hi; [done|]. rewrite slots_cons. destruct a as [|a].
  - simpl in Hk. simplify_eq. rewrite lookup_app_l by (rewrite length_fmap, length_seqZ; lia).
    rewrite list_lookup_fmap, lookup_seqZ_lt by lia. simpl. do 2 f_equal. lia.
  - rewrite lookup_app_r by (rewrite length_fmap, length_seqZ; simpl; lia). rewrite length_fmap, length_seqZ.
    rewrite <- (IH a Hk Hi). f_equal. simpl. lia.
Qed.

Lemma slots_elem cs k i : (k, i) ∈ slots bs cs <-> k ∈ cs /\ 0 <= i < cluster_bytes bs / 32.
Proof.
  unfold slots. rewrite list_elem_of_bind. split.
  - intros (k' & (i' & [= -> ->] & Hi)%list_elem_of_fmap & Hk). apply elem_of_seqZ in Hi. split; [done|lia].
  - intros [Hk Hi]. exists k. split; [|done]. apply list_elem_of_fmap. exists i. split; [done|]. apply elem_of_seqZ. lia.
Qed.

Lemma slots_NoDup cs : NoDup cs -> NoDup (slots bs cs).
Proof.
  induction 1 as [|k cs Hk Hnd IH]; [constructor|]. rewrite slots_cons. apply NoDup_app. split_and!; [|  |done].
  - apply NoDup_fmap_2; [by intros ? ? [= ->]|apply NoDup_seqZ].
  - intros [k' i] (? & [= -> ->] & _)%list_elem_of_fmap [? _]%slots_elem. done.
Qed.

Lemma slots_app cs1 cs2 : slots bs (cs1 ++ cs2) = slots bs cs1 ++ slots bs cs2.
Proof. unfold slots. apply bind_app. Qed.

(** Writing one entry changes one slot. *)
Lemma entry_at_put D k i e k' i' :
  zlen (D k) = cluster_bytes bs -> 0 <= i < cluster_bytes bs / 32 -> 0 <= i' < cluster_bytes bs / 32 -> entry_ok e ->
  entry_at (<[k := upd (D k) (i * 32) (into_bytes e)]> D) k' i' =
  if decide ((k', i') = (k, i)) then e else entry_at D k' i'.
Proof.
  intros HD Hi Hi' He. destruct (entry_codec e He) as (Hdec & Hlen & _). destruct (entry_range (bs := bs) i Hi).
  destruct (entry_range (bs := bs) i' Hi'). unfold entry_at, SIZE. destruct (decide (k = k')) as [<-|Hk].
  - rewrite fn_lookup_insert. destruct (decide ((k, i') = (k, i))) as [[= ->]|Hne].
    + rewrite sub_upd_same_n; rewrite ?Hlen; try lia. by rewrite Hdec.
    + rewrite sub_upd_disjoint; rewrite ?Hlen; try lia; [done|]. assert (i <> i') by congruence. lia.
  - rewrite fn_lookup_insert_ne, decide_False by congruence. done.
Qed.

(** The entries [es] are in the slots of [l] from position [p] on. *)
Definition overwritten D D' (l : list (Z * Z)) (p : nat) (es : list DirEntry) : Prop :=
  forall q k i, l !! q = Some (k, i) ->
    entry_at D' k i = if decide (p <= q < p + length es)%nat then default DirEntry.Unused (es !! (q - p)%nat) else entry_at D k i.

Lemma overwritten_nil D l p : overwritten D D l p [].
Proof. intros q k i _. rewrite decide_False; [done|]. simpl. lia. Qed.

Lemma overwritten_cons D D1 D2 l p e es :
  overwritten D D1 l p [e] -> overwritten D1 D2 l (S p) es -> overwritten D D2 l p (e :: es).
Proof.
  intros H1 H2 q k i Hq. rewrite (H2 q k i Hq), (H1 q k i Hq). cbn [length].
  destruct (decide (q = p)) as [->|Hne].
  - rewrite decide_False, !decide_True by lia. by rewrite Nat.sub_diag.
  - destruct (decide (S p <= q < S p + length es)%nat).
    + rewrite decide_True by lia. by replace (q - p)%nat with (S (q - S p)) by lia.
    + rewrite !decide_False by lia. done.
Qed.

Lemma overwritten_split D D' l1 l2 l3 es :
  overwritten D D' (l1 ++ l2 ++ l3) (length l1) es -> length l2 = length es ->
  cells D' (l1 ++ l2 ++ l3) = cells D l1 ++ cells D' l2 ++ cells D l3 /\ snd <$> cells D' l2 = es.
Proof.
  intros Ho Hlen. unfold cells. rewrite !fmap_app. split; [f_equal; [|f_equal]|].
  - apply list_fmap_ext. intros q [k i] Hq. rewrite (Ho q k i); [|by apply lookup_app_l_Some].
    rewrite decide_False; [done|]. apply lookup_lt_Some in Hq. lia.
  - apply list_fmap_ext. intros q [k i] Hq. rewrite (Ho (length l1 + (length l2 + q))%nat k i).
    + rewrite decide_False; [done|lia].
    + rewrite lookup_app_r by lia. rewrite lookup_app_r by lia. rewrite <- Hq. f_equal. lia.
  - apply list_eq. intros q. rewrite list_lookup_fmap, list_lookup_fmap.
    destruct (l2 !! q) as [[k i]|] eqn:Hq; simpl.
    + rewrite (Ho (length l1 + q)%nat k i).
      * apply lookup_lt_Some in Hq. rewrite decide_True by lia. replace (length l1 + q - length l1)%nat with q by lia.
        destruct (lookup_lt_is_Some_2 es q ltac:(lia)) as [e He]. by rewrite He.
      * rewrite lookup_app_r by lia. apply lookup_app_l_Some. rewrite <- Hq. f_equal. lia.
    + apply lookup_ge_None in Hq. symmetry. apply lookup_ge_None. lia.
Qed.

Lemma overwritten_cells D D' l p es :
  overwritten D D' l p es -> (p + length es <= length l)%nat -> exists g,
    cells D' l = take p (cells D l) ++ g ++ drop (p + length es) (cells D l) /\ snd <$> g = es.
Proof.
  intros Ho Hlen. assert (Hl : l = take p l ++ take (length es) (drop p l) ++ drop (p + length es) l)
    by (by rewrite <- drop_drop, !take_drop).
  exists (cells D' (take (length es) (drop p l))). unfold cells in *. rewrite <- fmap_take, <- fmap_drop.
  assert (Hp : length (take p l) = p) by (rewrite length_take; lia).
  destruct (overwritten_split D D' (take p l) (take (length es) (drop p l)) (drop (p + length es) l) es) as [Hc Hs].
  - rewrite Hp. by rewrite <- Hl.
  - rewrite length_take, length_drop. lia.
  - split; [|done]. unfold cells in Hc. by rewrite <- Hl in Hc.
Qed.

Lemma overwritten_app D D1 D2 l p es1 es2 :
  overwritten D D1 l p es1 -> overwritten D1 D2 l (p + length es1) es2 -> overwritten D D2 l p (es1 ++ es2).
Proof.
  intros H1 H2 q k i Hq. rewrite (H2 q k i Hq), (H1 q k i Hq), length_app.
  destruct (decide (p + length es1 <= q < p + length es1 + length es2)%nat).
  - rewrite decide_True by lia. rewrite lookup_app_r by lia. do 2 f_equal. lia.
  - destruct (decide (p <= q < p + length es1)%nat).
    + rewrite decide_True by lia. rewrite lookup_app_l by lia. done.
    + by rewrite decide_False by lia.
Qed.

(** *** Writing entries *)

(** A directory that has taken clusters. *)
Record grown F D F' D' (cs cs' : list Z) : Prop := {
  gr_grow : exists new, cs' = cs ++ new /\ forall x, x ∈ new -> F x = FatEntry.Unused /\ available bs x;
  gr_fat : forall x, x ∉ cs' -> F' x = F x;
  gr_data : forall x, x ∉ cs' -> D' x = D x
}.

Lemma grown_refl F D cs : grown F D F D cs cs.
Proof.
  split; try done. exists []. rewrite app_nil_r. split; [done|]. by intros x Hx%not_elem_of_nil.
Qed.

Lemma grown_trans F1 D1 F2 D2 F3 D3 k0 cs1 cs2 cs3 :
  grown F1 D1 F2 D2 cs1 cs2 -> grown F2 D2 F3 D3 cs2 cs3 -> is_chain bs F2 k0 cs2 -> grown F1 D1 F3 D3 cs1 cs3.
Proof.
  intros [(n1 & -> & Hn1) HF1 HD1] [(n2 & -> & Hn2) HF2 HD2] Hch. split.
  - exists (n1 ++ n2). split; [by rewrite app_assoc|]. intros x [Hx|Hx]%elem_of_app; [by apply Hn1|].
    destruct (Hn2 x Hx) as [Hu Ha]. split; [|done]. rewrite <- HF1; [done|]. intros Hin.
    by apply (is_chain_used _ _ _ _ Hch Hin).
  - intros x Hx. rewrite HF2 by done. apply HF1. intros Hin. apply Hx, elem_of_app. by left.
  - intros x Hx. rewrite HD2 by done. apply HD1. intros Hin. apply Hx, elem_of_app. by left.
Qed.

(** The cluster and offset of the next entry. *)
Lemma next_slot st F D h c i k0 cs a :
  fs st F D (own h (bc_last c)) -> handle_ok bs c -> is_chain bs F k0 cs -> cs !! a = Some (bc_cluster c) ->
  0 <= i <= cluster_bytes bs / 32 ->
  ends (if dir_entries_count c <=? i then
          c' <- mcleanup (chained_prepare bs (bc_cluster c)) (drop_cluster c) ;; drop_cluster c ;;; ret (c', 0)
        else ret (c, i)) st
    (fun r st' => exists F' cs' a', fs st' F' D (own h (bc_last r.1)) /\ handle_ok bs r.1 /\ is_chain bs F' k0 cs' /\
      grown F D F' D cs cs' /\ cs' !! a' = Some (bc_cluster r.1) /\ 0 <= r.2 < cluster_bytes bs / 32 /\
      (a' * cnt + Z.to_nat r.2 = a * cnt + Z.to_nat i)%nat)
    (fun e st' => e = Full /\ fs st' F D h /\ no_free (bs := bs) F /\ (a * cnt + Z.to_nat i = length (slots bs cs))%nat).
Proof.
  intros Hf Hok Hch Ha Hi. rewrite (dir_entries_count_ok c Hok). pose proof cnt_pos.
  destruct (Z.leb_spec (cluster_bytes bs / 32) i) as [Hge|Hlt].
  2: { apply ends_ret. exists F, cs, a. cbn [fst snd]. split_and!; try done; try lia. apply grown_refl. }
  pose proof Hok as (Hk & _). destruct (is_chain_lookup F k0 cs a _ Hch Ha) as [Hnext Heoc].
  assert (Hcl : forall k', F (bc_cluster c) = UsedChained k' -> available bs k').
  { intros k' Hk'. rewrite Hk' in Hnext. symmetry in Hnext. apply list_elem_of_lookup_2 in Hnext.
    by apply (proj1 (Forall_forall _ _) (is_chain_available _ _ _ Hch)). }
  apply ends_bind. unfold mcleanup at 1, ends at 1.
  pose proof (chained_prepare_spec Hg Hsz st F D _ (bc_cluster c) Hf Hk Hcl) as Hp. unfold ends in Hp.
  destruct (chained_prepare bs (bc_cluster c) st) as [[c'|e'| |] st1]; try done.
  - destruct Hp as (Hok' & Hl' & Hp). destruct (chain (F (bc_cluster c))) as [k'|] eqn:Hc.
    + destruct Hp as [Hk' Hf1]. eapply runs_ends_bind; [exact (drop_cluster_spec _ _ _ _ _ Hf1)|]. intros [] st2 Hf2. apply ends_ret.
      exists F, cs, (S a). cbn [fst snd]. rewrite Hl', Hk'. split_and!; try done; try lia. apply grown_refl.
    + destruct Hp as [(Har & Hur & _) Hf1]. eapply runs_ends_bind; [exact (drop_cluster_spec _ _ _ _ _ Hf1)|].
      intros [] st2 Hf2. apply ends_ret. symmetry in Hnext. specialize (Heoc Hnext).
      assert (Hlen : length cs = S a) by (apply lookup_lt_Some in Ha; apply lookup_ge_None in Hnext; lia).
      assert (Hlast : last cs = Some (bc_cluster c)) by (by rewrite last_lookup, Hlen).
      eexists _, (cs ++ [bc_cluster c']), (S a). cbn [fst snd]. rewrite Hl'. split; [exact Hf2|]. split_and!; try done; try lia.
      * by apply is_chain_grow.
      * split; try done; [exists [bc_cluster c']; split; [done|]; by intros x ->%list_elem_of_singleton|].
        intros x Hx. rewrite not_elem_of_app, list_elem_of_singleton in Hx.
        rewrite !fn_lookup_insert_ne; [done|intros <-; naive_solver|]. intros <-. destruct Hx as [Hx _].
        apply Hx. by eapply list_elem_of_lookup_2.
      * by rewrite list_lookup_middle by (by rewrite Hlen).
  - destruct Hp as (-> & Hf1 & Hnone & Hnf).
    destruct (proj1 (runs_Ok _ _ _) (drop_cluster_spec (E := Error) _ _ _ _ _ Hf1)) as ([] & st2 & -> & Hf2).
    split_and!; try done. rewrite slots_length. rewrite Hnone in Hnext. symmetry in Hnext.
    apply lookup_lt_Some in Ha. apply lookup_ge_None in Hnext. assert (length cs = S a) as -> by lia. simpl. lia.
Qed.

(** What is on the volume when [es] has been written from position [p] of the
    directory on; [P] holds for the table, the end of the entries and the number of slots. *)
Definition entered_in (P : (Z -> FatEntry) -> nat -> nat -> Prop) st F D h k0 cs p es : Prop := exists F' D' cs',
  fs st F' D' h /\ is_chain bs F' k0 cs' /\ grown F D F' D' cs cs' /\
  overwritten D D' (slots bs cs') p es /\ P F' (p + length es)%nat (length (slots bs cs')).

Definition entered := entered_in (fun _ m k => m <= k)%nat.

(** The entries end where the directory does, and there is no free cluster. *)
Definition stuck := entered_in (fun F' m k => m = k /\ no_free (bs := bs) F').

Lemma entered_trans P st F D h k0 cs F1 D1 cs1 p e es :
  is_chain bs F1 k0 cs1 -> grown F D F1 D1 cs cs1 ->
  (forall cs2, NoDup (cs1 ++ cs2) -> overwritten D D1 (slots bs (cs1 ++ cs2)) p [e]) ->
  entered_in P st F1 D1 h k0 cs1 (S p) es -> entered_in P st F D h k0 cs p (e :: es).
Proof.
  intros Hch Hgr Ho (F' & D' & cs' & Hf & Hch' & Hgr' & Ho' & Hlen). exists F', D', cs'. split_and!; try done.
  - by eapply grown_trans.
  - destruct Hgr' as [(new & -> & _) _ _]. eapply overwritten_cons; [|done]. apply Ho. by eapply is_chain_NoDup.
  - simpl. by rewrite <- plus_n_Sm.
Qed.

Lemma overwritten_one D k i e cs a :
  zlen (D k) = cluster_bytes bs -> NoDup cs -> 0 <= i < cluster_bytes bs / 32 -> entry_ok e -> cs !! a = Some k ->
  overwritten D (<[k := upd (D k) (i * 32) (into_bytes e)]> D) (slots bs cs) (a * cnt + Z.to_nat i)%nat [e].
Proof.
  intros HD Hnd Hi He Ha q k' i' Hq. pose proof (slots_lookup _ _ _ _ Ha Hi) as Hs.
  assert (Hi' : 0 <= i' < cluster_bytes bs / 32) by (apply list_elem_of_lookup_2, slots_elem in Hq; tauto).
  rewrite entry_at_put by done. destruct (decide ((k', i') = (k, i))) as [[= -> ->]|Hne].
  - assert (q = (a * cnt + Z.to_nat i)%nat) as -> by (by eapply NoDup_lookup; [apply slots_NoDup, Hnd| |]).
    rewrite decide_True by (simpl; lia). by rewrite Nat.sub_diag.
  - rewrite decide_False; [done|]. simpl. intros Hq'. assert (q = (a * cnt + Z.to_nat i)%nat) as -> by lia. congruence.
Qed.

(** Entries are written one after the other, in clusters that are taken as
    needed; when there is none the first ones fill the directory to its end. *)
Lemma write_entries_spec es : forall st F D h c i k0 cs a,
  fs st F D (own h (bc_last c)) -> handle_ok bs c -> is_chain bs F k0 cs -> cs !! a = Some (bc_cluster c) ->
  0 <= i <= cluster_bytes bs / 32 -> Forall entry_ok es ->
  ends (write_entries bs es c i) st
    (fun _ st' => entered st' F D h k0 cs (a * cnt + Z.to_nat i) es)
    (fun e st' => e = Full /\ exists es1 es2, es = es1 ++ es2 /\ es2 <> [] /\
      stuck st' F D h k0 cs (a * cnt + Z.to_nat i) es1).
Proof.
  induction es as [|e es IH]; intros st F D h c i k0 cs a Hf Hok Hch Ha Hi Hes.
  { apply ends_runs. eapply runs_mono; [exact (drop_cluster_spec _ _ _ _ _ Hf)|]. intros [] st' Hf'. exists F, D, cs.
    split_and!; try done; [apply grown_refl|apply overwritten_nil|]. rewrite slots_length. apply lookup_lt_Some in Ha. simpl. nia. }
  apply Forall_cons in Hes as [He Hes]. cbn [write_entries]. apply ends_bind.
  eapply ends_mono; [by apply (next_slot st F D h c i k0 cs a)| |].
  - intros [c1 i1] st1 (F1 & cs1 & a1 & Hf1 & Hok1 & Hch1 & Hgr1 & Ha1 & Hi1 & <-). cbn [fst snd] in *.
    destruct (entry_codec e He) as (_ & Hlen & Hb). pose proof Hok1 as (Hk1 & _).
    pose proof (fs_rep_length Hg Hsz _ _ _ _ _ Hf1 Hk1) as HD.
    apply (runs_ends_bind _ _ _ (fun r st' => fs st' F1 (<[bc_cluster c1 := upd (D (bc_cluster c1)) (i1 * 32) (into_bytes e)]> D)
      (own h (bc_last r.2)) /\ same_handle c1 r.2)).
    { by apply runs_held, (write_dir_entry_spec Hg Hsz). }
    intros [[] c2] st2 [Hf2 Hs2]. cbn [snd] in *. destruct (same_handle_ok (bs := bs) _ _ Hs2 Hok1) as [Hok2 Hk2].
    assert (Hgr : grown F D F1 (<[bc_cluster c1 := upd (D (bc_cluster c1)) (i1 * 32) (into_bytes e)]> D) cs cs1).
    { destruct Hgr1 as [Hnew HF _]. split; [done..|]. intros x Hx. rewrite fn_lookup_insert_ne; [done|].
      intros <-. by apply Hx, list_elem_of_lookup_2 with a1. }
    assert (Ho : forall cs2, NoDup (cs1 ++ cs2) -> overwritten D (<[bc_cluster c1 := upd (D (bc_cluster c1)) (i1 * 32) (into_bytes e)]> D)
      (slots bs (cs1 ++ cs2)) (a1 * cnt + Z.to_nat i1) [e]).
    { intros cs2 Hnd. apply overwritten_one; try done. by apply lookup_app_l_Some. }
    rewrite <- Hk2 in Ha1. eapply ends_mono; [apply (IH st2 _ _ h c2 (i1 + 1) k0 cs1 a1 Hf2); try done; lia| |].
    + intros [] st3 Hent. replace (a1 * cnt + Z.to_nat (i1 + 1))%nat with (S (a1 * cnt + Z.to_nat i1)) in Hent by lia.
      by eapply entered_trans.
    + intros er st3 (-> & es1 & es2 & -> & Hne & Hent). split; [done|]. exists (e :: es1), es2. split_and!; try done.
      replace (a1 * cnt + Z.to_nat (i1 + 1))%nat with (S (a1 * cnt + Z.to_nat i1)) in Hent by lia.
      by eapply entered_trans.
  - intros er st1 (-> & Hf1 & Hnf & Hend). split; [done|]. exists [], (e :: es). split_and!; try done.
    exists F, D, cs. split_and!; try done; [apply grown_refl|apply overwritten_nil|]. simpl. lia.
Qed.

Lemma slots_lookup_inv cs q k i :
  slots bs cs !! q = Some (k, i) ->
  exists a, cs !! a = Some k /\ 0 <= i < cluster_bytes bs / 32 /\ q = (a * cnt + Z.to_nat i)%nat.
Proof.
  revert q. induction cs as [|k0 cs IH]; intros q Hq; [done|]. rewrite slots_cons in Hq.
  apply lookup_app_Some in Hq as [Hq|[Hlen Hq]].
  - rewrite list_lookup_fmap_Some in Hq. destruct Hq as (i' & [= -> ->] & Hi). apply lookup_seqZ in Hi as [-> Hi].
    exists 0%nat. split_and!; try done; lia.
  - rewrite length_fmap, length_seqZ in *. destruct (IH _ Hq) as (a & Ha & Hi & Heq). exists (S a). split_and!; try done; simpl; lia.
Qed.

(** *** [insert_dir_entries] *)

(** The directory [dir] has the clusters [cs], and holds the files [fl]. *)
Definition directory F D dir cs fl : Prop :=
  is_chain bs F dir cs /\ tidy dir (walk D (slots bs cs)) fl /\ terminated (walk D (slots bs cs)).

Definition inserted F D h dir cs fl nm sfn st' : Prop :=
  exists F' D' cs' f f1 f2, fs st' F' D' h /\ grown F D F' D' cs cs' /\ fl = f1 ++ f2 /\
    directory F' D' dir cs' (f1 ++ shown f f2) /\ f_name f = nm /\ f_sfn f = sfn /\ f_dir f = dir.

Lemma entered_inserted st' F D h dir cs fl pre run post es nm sfn :
  directory F D dir cs fl -> walk D (slots bs cs) = pre ++ run ++ post -> unused run ->
  read_sequence Init es = Some (nm, sfn) ->
  (zlen run = zlen es \/ exists c n, post = [(c, n, UnusedTerminal)]) ->
  entered st' F D h dir cs (length pre) (es ++ if zlen run =? zlen es then [] else [UnusedTerminal]) ->
  inserted F D h dir cs fl nm sfn st'.
Proof.
  intros (Hch & Ht & Hterm) Hw Hu Hr Hcase (F' & D' & cs' & Hf' & Hch' & Hgr & Ho & Hlen).
  pose proof Hgr as [(new & Hcs' & _) _ _].
  destruct (cut_prefix (cells D (slots bs cs))) as [garb Hcells]. rewrite walk_cut in *.
  assert (Hall : cells D (slots bs cs') = pre ++ run ++ post ++ garb ++ cells D (slots bs new)).
  { rewrite Hcs', slots_app. unfold cells at 1. rewrite fmap_app. fold (cells D (slots bs cs)) (cells D (slots bs new)).
    rewrite Hcells, Hw, <- !app_assoc. done. }
  assert (Hes : es <> []) by (by intros ->).
  assert (Hpost : run ++ post <> [] /\ post <> []).
  { destruct Hcase as [Hc|(c & n0 & ->)]; [|by destruct run]. destruct run as [|x run]; [by destruct es|]. split; [done|].
    intros ->. rewrite Hw, app_nil_r in Hterm. destruct (terminated_app _ _ Hterm ltac:(done)) as [_ Hx].
    destruct Hx as (l0 & c & n0 & Heq & _). unfold unused in Hu. rewrite Heq, Forall_app in Hu. destruct Hu as [_ Hu]. by apply Forall_inv in Hu. }
  destruct Hpost as [Hne Hpost]. rewrite Hw in Hterm, Ht.
  destruct (terminated_app _ _ Hterm Hne) as [Hpre Hterm2]. destruct (terminated_app _ _ Hterm2 Hpost) as [_ Hterm3].
  destruct (overwritten_cells _ _ _ _ _ Ho Hlen) as (g & Hg' & Hsnd). rewrite Hall, take_app_length, drop_app_add' in Hg' by done.
  destruct (Z.eqb_spec (zlen run) (zlen es)) as [Heq|Hneq].
  - rewrite app_nil_r in *. rewrite <- Hsnd in Hr. rewrite drop_app_length' in Hg' by lia.
    destruct (tidy_insert dir pre run post fl g nm sfn Ht Hpre Hu Hne) as (f1 & f2 & -> & _ & Ht' & _); try done.
    { intros ->. by destruct es. }
    pose proof (group_live _ _ _ _ Hr) as Hgl.
    assert (Hw' : walk D' (slots bs cs') = pre ++ g ++ post)
      by (by rewrite walk_cut, Hg', (cut_live_app pre _ Hpre), (cut_live_app g _ Hgl), terminated_cut).
    exists F', D', cs', (group_file dir g nm sfn), f1, f2. split_and!; try done.
    + split_and!; [done|by rewrite Hw'|]. rewrite Hw'. by apply terminated_prepend, terminated_prepend.
    + unfold f_sfn, group_file. cbn. by destruct (last g) as [[[? ?] ?]|].
  - destruct Hcase as [|(c & n0 & ->)]; [done|].
    destruct g as [|x g _] using rev_ind; [by destruct es|]. rewrite fmap_app in Hsnd. apply app_inj_tail in Hsnd as [Hsnd Hx].
    rewrite <- Hsnd in Hr. pose proof (group_live _ _ _ _ Hr) as Hgl. destruct x as [[c1 n1] e1]. simpl in Hx. subst e1.
    destruct (tidy_insert dir pre run _ fl g nm sfn Ht Hpre Hu Hne) as (f1 & f2 & -> & Hf2 & _ & Ht'); [by eauto|done|].
    apply tidy_terminal_inv in Hf2 as ->. specialize (Ht' c1 n1 eq_refl).
    assert (Hw' : walk D' (slots bs cs') = pre ++ g ++ [(c1, n1, UnusedTerminal)]).
    { rewrite walk_cut, Hg', (cut_live_app pre _ Hpre), <- app_assoc, (cut_live_app g _ Hgl). done. }
    exists F', D', cs', (group_file dir g nm sfn), f1, []. split_and!; try done.
    + split_and!; [done|by rewrite Hw'|]. rewrite Hw'. apply terminated_prepend; [done|]. by exists g, c1, n1.
    + unfold f_sfn, group_file. cbn. by destruct (last g) as [[[? ?] ?]|].
Qed.

(** The table [F'] has no free cluster, and the entries of the name do not fit, with a terminal entry,
    behind the last entry of the directory that was in use. *)
Definition no_room D F' dir cs nm : Prop := no_free (bs := bs) F' /\ exists cs' es sfn,
  is_chain bs F' dir cs' /\ read_sequence Init es = Some (nm, sfn) /\
  (length (slots bs cs') <= used_len (walk D (slots bs cs)) + length es)%nat.

(** The directory [dir] had no room for the entries of a file. It has the files there were; when only the terminal entry did not fit, it has the new one as well. *)
Definition crowded F D h dir cs fl nm sfn st' : Prop :=
  exists F' D' cs', fs st' F' D' h /\ is_chain bs F' dir cs' /\ grown F D F' D' cs cs' /\ no_room D F' dir cs nm /\
    exists fl', scan dir Init None (walk D' (slots bs cs')) = Some fl' /\
      (fl' = fl \/ exists f, fl' = fl ++ shown f [] /\ f_name f = nm /\ f_sfn f = sfn).

Lemma stuck_crowded st' F D h dir cs fl pre run c0 n0 es1 es2 es nm sfn :
  directory F D dir cs fl -> walk D (slots bs cs) = pre ++ run ++ [(c0, n0, UnusedTerminal)] -> unused run ->
  (forall x, last pre = Some x -> x.2 <> DirEntry.Unused) -> read_sequence Init es = Some (nm, sfn) ->
  es ++ [UnusedTerminal] = es1 ++ es2 -> es2 <> [] -> stuck st' F D h dir cs (length pre) es1 ->
  crowded F D h dir cs fl nm sfn st'.
Proof.
  intros (Hch & Ht & Hterm) Hw Hu Hpre Hr Hsplit Hne (F' & D' & cs' & Hf' & Hch' & Hgr & Ho & Hlen & Hfree).
  destruct es2 as [|x es2 _] using rev_ind; [done|]. rewrite app_assoc in Hsplit. apply app_inj_tail in Hsplit as [Hes <-].
  pose proof Hgr as [(new & Hcs' & _) _ _]. destruct (cut_prefix (cells D (slots bs cs))) as [garb Hcells]. rewrite walk_cut in *.
  assert (Htake : take (length pre) (cells D (slots bs cs')) = pre).
  { rewrite Hcs', slots_app. unfold cells at 1. rewrite fmap_app. fold (cells D (slots bs cs)). rewrite Hcells, Hw, <- !app_assoc. apply take_app_length. }
  destruct (overwritten_cells _ _ _ _ _ Ho ltac:(lia)) as (g & Hg' & Hsnd). rewrite Htake, Hlen in Hg'.
  rewrite drop_ge, app_nil_r in Hg' by (unfold cells; by rewrite length_fmap).
  rewrite Hw in Hterm, Ht. destruct (terminated_app _ _ Hterm ltac:(by destruct run)) as [Hlive _].
  destruct (tidy_split dir _ _ Ht (pre ++ run) (c0, n0, UnusedTerminal) [] ltac:(by rewrite <- app_assoc) ltac:(by right)) as (f1 & f2 & _ & H2 & Hfl).
  apply tidy_terminal_inv in H2 as ->. rewrite app_nil_r in Hfl. subst f1.
  assert (Hpt : tidy dir pre fl).
  { destruct run as [|[[c n1] e] run].
    - destruct (tidy_split dir _ _ Ht pre _ [] eq_refl ltac:(by right)) as (a & b & Ha & ->%tidy_terminal_inv & ->). by rewrite app_nil_r.
    - pose proof (Forall_inv Hu) as He. simpl in He. subst e.
      destruct (tidy_split dir _ _ Ht pre _ _ eq_refl ltac:(by left)) as (a & b & Ha & Hb%(tidy_unused_inv dir ((c, n1, DirEntry.Unused) :: run) _ _ Hu)%tidy_terminal_inv & ->).
      subst b. by rewrite app_nil_r. }
  assert (Hgl : live g).
  { pose proof (read_sequence_live _ _ _ _ Hr) as Hl. rewrite Hes, <- Hsnd, Forall_app, Forall_fmap in Hl. destruct Hl as [Hl _].
    eapply Forall_impl; [exact Hl|]. by intros y [? _]. }
  assert (Hw' : walk D' (slots bs cs') = pre ++ g).
  { rewrite walk_cut, Hg', (cut_live_app pre _ Hlive), <- (app_nil_r g), (cut_live_app g _ Hgl). done. }
  exists F', D', cs'. split_and!; try done.
  - split; [done|]. exists cs', es, sfn. split_and!; try done. rewrite walk_cut, Hw, (used_len_cut pre run c0 n0 Hu Hpre Hlive), Hes, length_app. lia.
  - rewrite Hw'. destruct es2 as [|y es2].
    + rewrite app_nil_r in Hes. rewrite Hes, <- Hsnd in Hr. eexists. split; [apply (scan_app dir pre g fl (shown (group_file dir g nm sfn) []) Hpt Hlive)|].
      * rewrite <- (app_nil_r g) at 1. exact (scan_group dir [] [] eq_refl g Init None nm sfn Hr).
      * right. eexists. split; [done|]. split; [done|]. unfold f_sfn, group_file. cbn. by destruct (last g) as [[[? ?] ?]|].
    + eexists. split; [apply (scan_app dir pre g fl [] Hpt Hlive)|left; apply app_nil_r].
      apply (scan_cut_off dir g Init None (y :: es2) nm sfn); [|done]. by rewrite Hsnd, <- Hes.
Qed.

Lemma insert_spec fuel st F D h dir cs fl es nm sfn :
  fs st F D h -> directory F D dir cs fl -> Forall entry_ok es -> read_sequence Init es = Some (nm, sfn) ->
  (length (slots bs cs) < fuel)%nat ->
  ends (insert_dir_entries bs fuel dir es) st
    (fun _ st' => inserted F D h dir cs fl nm sfn st')
    (fun e st' => e = Full /\ crowded F D h dir cs fl nm sfn st').
Proof.
  intros Hf Hdir Hes Hr Hfuel. pose proof Hdir as (Hch & Ht & Hterm). unfold insert_dir_entries.
  assert (0 < zlen es) by (destruct es; simpl; [done|lia]). rewrite (proj2 (Z.eqb_neq _ _)) by lia.
  destruct (is_chain_head _ _ _ Hch) as [cs0 Hcs]. rewrite Hcs in Hch.
  destruct (dir_entries_spec Hg F dir cs0 Hch) as (cur & -> & Hcur & Hl). rewrite <- Hcs in *.
  apply (runs_ends_bind _ _ _ (fun a b => a = cur /\ b = st)); [done|]. intros ? ? [-> ->].
  eapply runs_ends_bind; [apply (find_writable_spec (zlen es) F D h (slots bs cs)); try done; by rewrite Hl|].
  intros [start len] st1 [Hfind Hf1].
  destruct (find_spec (zlen es) (walk D (slots bs cs)) [] [] (dir, 0) Hterm) as (pre & run & post & Hw & Hu & Hlast & Hfd & Hcase);
    [simpl; lia|constructor|done|done|]. simpl in Hw. change (zlen []) with 0 in Hfd. rewrite Hfd in Hfind. injection Hfind as -> ->.
  assert (Hloc : exists k i, head_loc (run ++ post) = (k, i) /\ slots bs cs !! length pre = Some (k, i)).
  { destruct (cut_prefix (cells D (slots bs cs))) as [garb Hc]. rewrite <- walk_cut, Hw in Hc.
    assert (Hx : exists k i e rest, run ++ post = (k, i, e) :: rest).
    { destruct (run ++ post) as [|[[k i] e] rest] eqn:Hrp; [|eauto]. apply app_eq_nil in Hrp as [-> ->].
      simpl in Hcase. destruct Hcase as [|[_ (? & ? & ?)]]; [lia|done]. }
    destruct Hx as (k & i & e & rest & Hx). exists k, i. rewrite Hx. split; [done|].
    assert (Hlk : cells D (slots bs cs) !! length pre = Some (k, i, e)).
    { rewrite Hc, <- app_assoc, Hx, lookup_app_r, Nat.sub_diag by lia. done. }
    unfold cells in Hlk. rewrite list_lookup_fmap_Some in Hlk. destruct Hlk as ([k' i'] & [= <- <- _] & ?). done. }
  destruct Hloc as (k & i & Hhead & Hslot). rewrite Hhead. cbn [fst snd].
  destruct (slots_lookup_inv _ _ _ _ Hslot) as (a & Ha & Hi & Hp).
  assert (Hk : available bs k) by (by apply (proj1 (Forall_forall _ _) (is_chain_available _ _ _ Hch)), list_elem_of_lookup_2 with a).
  destruct (new_cluster_spec Hg k Hk) as (c & -> & Hok & Hck & Hlc).
  apply (runs_ends_bind _ _ _ (fun a b => a = c /\ b = st1)); [done|]. intros ? ? [-> ->].
  eapply ends_mono; [apply (write_entries_spec _ st1 F D h c i dir cs a); try done; try lia| |].
  - by rewrite Hlc.
  - by rewrite Hck.
  - apply Forall_app. split; [done|]. destruct (zlen run =? zlen es); repeat constructor.
  - intros [] st2 Hent. rewrite <- Hp in Hent. eapply entered_inserted; try done. destruct Hcase as [|[_ ?]]; eauto.
  - intros e st2 (-> & es1 & es2 & Hsplit & Hne & Hst). rewrite <- Hp in Hst. split; [done|].
    destruct Hcase as [Heq|[Hlt (c0 & n0 & ->)]]; [|rewrite (proj2 (Z.eqb_neq _ _)) in Hsplit by lia; by eapply stuck_crowded].
    rewrite Heq, Z.eqb_refl, app_nil_r in Hsplit. destruct Hst as (F' & D' & cs' & _ & _ & [(new & -> & _) _ _] & _ & Hend & _).
    destruct (cut_prefix (cells D (slots bs cs))) as [garb Hc]. rewrite <- walk_cut, Hw in Hc. apply (f_equal length) in Hc.
    unfold cells in Hc. rewrite length_fmap, !length_app in Hc. rewrite slots_app, length_app in Hend. apply (f_equal length) in Hsplit. rewrite length_app in Hsplit.
    destruct es2; [done|]. simpl in *. lia.
Qed.

(** *** [create_file] *)

(** Enough turns for any iteration of a directory. *)
Definition dir_fuel : nat := (3 * (Z.to_nat (clusters bs) * cnt) + 3)%nat.

Lemma slots_fuel F k0 cs : is_chain bs F k0 cs -> (3 * length (slots bs cs) + 3 <= dir_fuel)%nat.
Proof.
  intros Hch. pose proof (is_chain_length _ _ _ Hch). rewrite slots_length. unfold dir_fuel. nia.
Qed.

Lemma tidy_length dir l fl : tidy dir l fl -> (length fl <= length l)%nat.
Proof.
  induction 1 as [|c n0|c n0 l fl _ IH|c n0 sfn l fl Hv _ IH|g nm sfn l fl Hr _ IH]; simpl; try lia.
  rewrite length_app. unfold shown. assert (0 < length g)%nat by (destruct g; [done|simpl; lia]). destruct (is_dots _); simpl; lia.
Qed.

Lemma walk_length D l : (length (walk D l) <= length l)%nat.
Proof. induction l as [|[k i] l IH]; [done|]. simpl. case_bool_decide; simpl; lia. Qed.

Lemma scan_length dir l : forall r sl fl, scan dir r sl l = Some fl -> (length fl <= length l)%nat.
Proof.
  induction l as [|[[c n0] e] l IH]; intros r sl fl Hs; [by simpl in Hs; simplify_eq|]. rewrite scan_cons in Hs.
  assert (Hset : forall sl x retry, settle dir c n0 l sl x retry = Some fl -> (length fl <= S (length l))%nat \/ retry = Some fl).
  { intros sl' x retry Hx. destruct x as [[r' [e0|nm sfn| |]]|]; simpl in Hx; try done.
    - destruct e0; simplify_eq; simpl; try (left; lia); left; apply IH in Hx; lia.
    - apply bind_Some in Hx as (fl' & Hfl & [= <-]). apply IH in Hfl. left. destruct (is_dots nm); simpl; lia.
    - left. apply IH in Hx. lia.
    - by right. }
  apply Hset in Hs as [|Hs]; [done|]. apply Hset in Hs as [|Hs]; done.
Qed.

Lemma list_files_spec fuel st F D h dir cs l :
  fs st F D h -> is_chain bs F dir cs -> scan dir Init None (walk D (slots bs cs)) = Some l -> (dir_fuel <= fuel)%nat ->
  runs (list_files bs fuel dir) st (fun r st' => r = l /\ fs st' F D h).
Proof.
  intros Hf Hch Hs Hfuel. pose proof (slots_fuel _ _ _ Hch). pose proof (scan_length _ _ _ _ _ Hs). pose proof (walk_length D (slots bs cs)).
  destruct (is_chain_head _ _ _ Hch) as [cs0 ->].
  unfold list_files, files. destruct (dir_entries_spec Hg F dir cs0 Hch) as (cur & -> & Hcur & Hl).
  apply (runs_bind _ _ _ (fun a b => a = cur /\ b = st)); [done|]. intros ? ? [-> ->].
  apply (collect_spec Hg Hsz l fuel fuel st F D h dir cur (slots bs (dir :: cs0))); try done; try lia. by rewrite Hl.
Qed.

(** What a directory without room for a file lists. *)
Definition crowded_list fl nm sfn (l : list File) : Prop := l = fl \/ exists f, l = fl ++ [f] /\ f_name f = nm /\ f_sfn f = sfn.

Lemma crowded_listed fuel st' F D h dir cs fl nm sfn : crowded F D h dir cs fl nm sfn st' -> is_dots nm = false -> (dir_fuel <= fuel)%nat ->
  exists F' D' cs', fs st' F' D' h /\ grown F D F' D' cs cs' /\ no_room D F' dir cs nm /\
    forall st, fs st F' D' h -> runs (list_files bs fuel dir) st (fun l st2 => crowded_list fl nm sfn l /\ fs st2 F' D' h).
Proof.
  intros (F' & D' & cs' & Hf' & Hch & Hgr & Hroom & fl' & Hs & Hfl) Hdots Hfuel. exists F', D', cs'. split_and!; try done.
  intros st Hf. eapply runs_mono; [by apply (list_files_spec fuel st F' D' h dir cs' fl')|]. intros l st2 [-> Hf2]. split; [|done].
  destruct Hfl as [->|(f & -> & Hn & Hf0)]; [by left|]. right. exists f. unfold shown. by rewrite Hn, Hdots.
Qed.

Lemma check_name_conflict_spec fuel st F D h dir cs fl nm :
  fs st F D h -> directory F D dir cs fl -> (dir_fuel <= fuel)%nat ->
  ends (check_name_conflict bs fuel dir nm) st
    (fun _ st' => (nm ∉ f_name <$> fl) /\ fs st' F D h)
    (fun e st' => e = FileAlreadyExists /\ nm ∈ f_name <$> fl /\ fs st' F D h).
Proof.
  intros Hf (Hch & Ht & _) Hfuel. pose proof (slots_fuel _ _ _ Hch). pose proof (tidy_length _ _ _ Ht).
  pose proof (walk_length D (slots bs cs)). destruct (is_chain_head _ _ _ Hch) as [cs0 ->].
  unfold check_name_conflict, files. destruct (dir_entries_spec Hg F dir cs0 Hch) as (cur & -> & Hcur & Hl).
  apply (runs_ends_bind _ _ _ (fun a b => a = cur /\ b = st)); [done|]. intros ? ? [-> ->].
  eapply runs_ends_bind; [apply (any_file_spec Hg Hsz nm fl fuel fuel st F D h dir cur (slots bs (dir :: cs0))); try done; try lia|].
  - by rewrite Hl.
  - by apply tidy_scan.
  - intros b st1 [-> Hf1]. case_bool_decide; [by apply ends_fail|by apply ends_ret].
Qed.

Lemma create_file_spec fuel st F D h dir cs fl nm :
  fs st F D h -> directory F D dir cs fl -> Forall is_char nm -> last nm <> Some 0 -> last nm <> Some 0xffff ->
  (dir_fuel <= fuel)%nat ->
  ends (create_file bs fuel dir nm) st
    (fun _ st' => (nm ∉ f_name <$> fl) /\ exists sfn, same_but_name sfn_new sfn /\ inserted F D h dir cs fl nm sfn st')
    (fun e st' => match e with
      | FileAlreadyExists => nm ∈ f_name <$> fl /\ fs st' F D h
      | InvalidFileName => ~ storable nm /\ fs st' F D h
      | Full => exists sfn, same_but_name sfn_new sfn /\ crowded F D h dir cs fl nm sfn st'
      | _ => False
      end).
Proof.
  intros Hf Hdir Hc Hz Hffff Hfuel. unfold create_file. apply ends_bind.
  eapply ends_mono; [by apply (check_name_conflict_spec fuel st F D h dir cs fl nm)| |by intros e st' (-> & ? & ?)].
  intros [] st1 [Hnm Hf1]. cbn beta.
  destruct (lfn_sequence_ok nm sfn_new Hc sfn_new_ok) as (r & Hr & Hes); [discriminate|reflexivity|].
  rewrite Hr. apply (runs_ends_bind _ _ _ (fun a b => a = r /\ b = st1)); [done|]. intros ? ? [-> ->].
  pose proof (lfn_sequence_storable _ _ _ Hr) as Hst.
  destruct r as [es|]; [|apply ends_fail; split; [by intros [? ?]%Hst|done]]. destruct (Hes es eq_refl) as (pre & sfn' & -> & Hoks & Hsame & Hrd).
  eapply ends_mono; [apply (insert_spec fuel st1 F D h dir cs fl (pre ++ [Sfn sfn']) nm sfn'); try done; [by apply Hrd|]| |].
  - destruct Hdir as (Hch & _). pose proof (slots_fuel _ _ _ Hch). lia.
  - intros [] st2 Hi. eauto.
  - intros e st2 (-> & ?). by exists sfn'.
Qed.

End insertion.

(** ** Lemmas: removing entries *)

(** The group of a file of the directory. *)
Lemma tidy_pick dir l fl : tidy dir l fl -> forall f1 f f2, fl = f1 ++ f :: f2 ->
  exists l1 g l2 nm sfn, l = l1 ++ g ++ l2 /\ read_sequence Init (snd <$> g) = Some (nm, sfn) /\
    f = group_file dir g nm sfn /\ tidy dir l1 f1 /\ tidy dir l2 f2.
Proof.
  induction 1 as [|c n|c n l fl Ht IH|c n sfn l fl Hv Ht IH|g nm sfn l fl Hr Ht IH]; intros f1 f f2 Heq.
  - by destruct f1.
  - by destruct f1.
  - destruct (IH f1 f f2 Heq) as (l1 & g & l2 & nm & sfn & -> & ? & ? & ? & ?).
    exists ((c, n, DirEntry.Unused) :: l1), g, l2, nm, sfn. split_and!; try done. by constructor.
  - destruct (IH f1 f f2 Heq) as (l1 & g & l2 & nm & sfn' & -> & ? & ? & ? & ?).
    exists ((c, n, Sfn sfn) :: l1), g, l2, nm, sfn'. split_and!; try done. by constructor.
  - assert (Hskip : forall f1', shown (group_file dir g nm sfn) f1' = f1 -> fl = f1' ++ f :: f2 ->
      exists l1 g' l2 nm' sfn', g ++ l = l1 ++ g' ++ l2 /\ read_sequence Init (snd <$> g') = Some (nm', sfn') /\
        f = group_file dir g' nm' sfn' /\ tidy dir l1 f1 /\ tidy dir l2 f2).
    { intros f1' <- Hfl. destruct (IH f1' f f2 Hfl) as (l1 & g' & l2 & nm' & sfn' & -> & ? & ? & ? & ?).
      exists (g ++ l1), g', l2, nm', sfn'. rewrite <- !app_assoc. split_and!; try done. by apply tidy_group. }
    unfold shown in Heq, Hskip. destruct (is_dots _); [by apply (Hskip f1)|].
    destruct f1 as [|f0 f1]; simpl in Heq; simplify_eq; [|by apply (Hskip f1)].
    exists [], g, l, nm, sfn. split_and!; try done. constructor.
Qed.

Lemma tidy_skip_unused dir run l fl : unused run -> tidy dir l fl -> tidy dir (run ++ l) fl.
Proof.
  induction 1 as [|[[c n] e] run Hx Hrun IH]; intros Ht; [done|]. simpl in Hx. subst e. apply tidy_unused. by apply IH.
Qed.

Section removal.
Context {St : Type} `{SectorCacheLaws St n sz} {bs : BootSector}
  (Hg : geometry bs n) (Hsz : sz = bpb_byts_per_sec bs).
Implicit Types (st : St) (F : Z -> FatEntry) (D : Z -> list Z) (h : counts).

Abbreviation fs st := (fs_rep bs (St := St) (n := n) (sz := sz) st).
Abbreviation cnt := (Z.to_nat (cluster_bytes bs / 32)).

Lemma clear_range_spec m : forall st F D h c i cs a,
  fs st F D (own h (bc_last c)) -> handle_ok bs c -> NoDup cs -> cs !! a = Some (bc_cluster c) ->
  0 <= i -> i + Z.of_nat m <= cluster_bytes bs / 32 ->
  runs (clear_range (seqZ i (Z.of_nat m))) (st, c) (fun _ s' => exists D', fs s'.1 F D' (own h (bc_last s'.2)) /\
    overwritten D D' (slots bs cs) (a * cnt + Z.to_nat i) (replicate m DirEntry.Unused) /\
    forall x, x <> bc_cluster c -> D' x = D x).
Proof.
  induction m as [|m IH]; intros st F D h c i cs a Hf Hok Hnd Ha Hi Hm.
  { apply ends_ret. exists D. split_and!; try done. apply overwritten_nil. }
  rewrite seqZ_cons by lia. cbn [clear_range]. pose proof Hok as (Hk & _).
  pose proof (fs_rep_length Hg Hsz _ _ _ _ _ Hf Hk) as HD.
  destruct (entry_codec DirEntry.Unused I) as (_ & Hlen & Hb).
  eapply runs_bind; [apply (write_dir_entry_spec Hg Hsz st F D h c i DirEntry.Unused); try done; lia|].
  intros [] [st1 c1] [Hf1 Hs1]. cbn [fst snd] in *. destruct (same_handle_ok (bs := bs) _ _ Hs1 Hok) as [Hok1 Hk1].
  replace (Z.pred (Z.of_nat (S m))) with (Z.of_nat m) by lia. rewrite <- Hk1 in Ha.
  eapply runs_mono; [apply (IH st1 F _ h c1 (Z.succ i) cs a Hf1); try done; lia|].
  intros [] s' (D' & Hf' & Ho & Hx). exists D'. split_and!; try done.
  - change (replicate (S m) DirEntry.Unused) with ([DirEntry.Unused] ++ replicate m DirEntry.Unused).
    eapply overwritten_app; [apply overwritten_one; try done; [lia|by rewrite <- Hk1]|].
    replace (a * cnt + Z.to_nat i + length [DirEntry.Unused])%nat with (a * cnt + Z.to_nat (Z.succ i))%nat by (simpl; lia). done.
  - intros x Hne. rewrite Hx by congruence. by rewrite fn_lookup_insert_ne by congruence.
Qed.

(** One turn: the slots [i..i + m) of a cluster. *)
Lemma clear_turn m st F D h c i cs a :
  fs st F D (own h (bc_last c)) -> handle_ok bs c -> NoDup cs -> cs !! a = Some (bc_cluster c) ->
  0 <= i -> 0 <= m -> i + m <= cluster_bytes bs / 32 ->
  runs (scoped c drop_cluster (clear_range (seqZ i m))) st (fun _ st' => exists D', fs st' F D' h /\
    overwritten D D' (slots bs cs) (a * cnt + Z.to_nat i) (replicate (Z.to_nat m) DirEntry.Unused) /\
    forall x, x ∉ cs -> D' x = D x).
Proof.
  intros Hf Hok Hnd Ha Hi Hm Hb. eapply runs_mono.
  - apply (scoped_cluster (bs := bs) _ _ h c (fun _ F' D' => F' = F /\
      overwritten D D' (slots bs cs) (a * cnt + Z.to_nat i) (replicate (Z.to_nat m) DirEntry.Unused) /\
      forall x, x ∉ cs -> D' x = D x)).
    replace m with (Z.of_nat (Z.to_nat m)) at 1 by lia.
    eapply runs_mono; [apply (clear_range_spec (Z.to_nat m) st F D h c i cs a); try done; lia|].
    intros [] s' (D' & Hf' & Ho & Hx). exists F, D'. split_and!; try done. intros x Hin. apply Hx. intros ->.
    by apply Hin, list_elem_of_lookup_2 with a.
  - intros [] st' (F' & D' & Hf' & -> & Ho & Hx). by exists D'.
Qed.

(** The places of the first and of the last slot of a file in the chain of its directory. *)
Record located F k0 cs f ks i_s ke ie (a_s ae : nat) : Prop := {
  lo_chain : is_chain bs F k0 cs;
  lo_first : f_entry_location f = (ks, i_s);
  lo_last : exists sfn, f_last_entry f = (sfn, ke, ie);
  lo_first_at : cs !! a_s = Some ks;
  lo_last_at : cs !! ae = Some ke;
  lo_first_in : 0 <= i_s < cluster_bytes bs / 32;
  lo_last_in : 0 <= ie < cluster_bytes bs / 32;
  lo_order : (a_s * cnt + Z.to_nat i_s <= ae * cnt + Z.to_nat ie)%nat
}.

(** One turn of the iterator: the slots of the file in cluster [a] of the chain, and the next cluster. *)
Lemma location_step_spec F k0 cs f ks i_s ke ie a_s ae st D h c a :
  located F k0 cs f ks i_s ke ie a_s ae -> fs st F D (own h (bc_last c)) -> handle_ok bs c ->
  cs !! a = Some (bc_cluster c) -> (a_s <= a <= ae)%nat ->
  let i := if decide (a = a_s) then i_s else 0 in
  runs (location_step bs f c) st (fun r st' => fs st' F D (own h (bc_last c)) /\
    if decide (a = ae) then r = (i, ie, None)
    else exists c', r = (i, cluster_bytes bs / 32 - 1, Some c') /\ handle_ok bs c' /\
      cs !! S a = Some (bc_cluster c') /\ bc_last c' = None).
Proof.
  intros [Hch Hs [sfn He] Has Hae His Hie Hle] Hf Hok Ha Hr i. pose proof (is_chain_NoDup _ _ _ Hch) as Hnd.
  assert (Heqb : forall a' k, cs !! a' = Some k -> (bc_cluster c =? k) = bool_decide (a = a')).
  { intros a' k Ha'. destruct (Z.eqb_spec (bc_cluster c) k) as [<-|Hne]; symmetry.
    - apply bool_decide_eq_true_2. by eapply NoDup_lookup.
    - apply bool_decide_eq_false_2. congruence. }
  unfold location_step. rewrite Hs, He, (Heqb a_s ks Has), (Heqb ae ke Hae), (dir_entries_count_ok c Hok).
  assert (Hi : (if bool_decide (a = a_s) then i_s else 0) = i) by (unfold i; by case_bool_decide; case_decide).
  rewrite Hi. destruct (decide (a = ae)) as [Heq|Hne].
  { rewrite bool_decide_eq_true_2 by done. by apply ends_ret. }
  rewrite bool_decide_eq_false_2 by done. destruct (is_chain_lookup F k0 cs a _ Hch Ha) as [Hnext _].
  destruct (cs !! S a) as [k'|] eqn:Hk'; [|apply lookup_ge_None in Hk'; apply lookup_lt_Some in Hae; lia].
  assert (Hav' : available bs k')
    by (by apply (proj1 (Forall_forall _ _) (is_chain_available _ _ _ Hch)), list_elem_of_lookup_2 with (S a)).
  pose proof Hok as (Hk & _).
  apply (runs_bind _ _ _ (fun o st' => fs st' F D (own h (bc_last c)) /\ exists c', o = Some (Some c') /\
    handle_ok bs c' /\ bc_cluster c' = k' /\ bc_last c' = None)).
  - apply runs_mok. eapply runs_mono; [apply (chained_get_spec Hg Hsz st F D (own h (bc_last c)) (bc_cluster c) Hf Hk)|].
    + intros k2 Hk2. rewrite Hk2 in Hnext. simpl in Hnext. by simplify_eq.
    + intros o st' [Hf' Ho]. rewrite Hnext in Ho. destruct o as [c'|]; [|done]. eauto.
  - intros ? st' (Hf' & c' & -> & Hok' & Hck & Hl'). apply ends_ret. split; [done|]. exists c'. by rewrite Hck.
Qed.

(** The slots between the first and the last one of a file, cluster by
    cluster. *)
Lemma clear_entries_spec F k0 cs f ks i_s ke ie a_s ae :
  located F k0 cs f ks i_s ke ie a_s ae -> forall d fuel st D h c a i,
  fs st F D (own h (bc_last c)) -> handle_ok bs c -> cs !! a = Some (bc_cluster c) ->
  (a_s <= a)%nat -> (a + d = ae)%nat -> i = (if decide (a = a_s) then i_s else 0) -> (S d < fuel)%nat ->
  runs (clear_entries bs fuel f (Some c)) st (fun _ st' => exists D', fs st' F D' h /\
    overwritten D D' (slots bs cs) (a * cnt + Z.to_nat i)
      (replicate (ae * cnt + Z.to_nat ie + 1 - (a * cnt + Z.to_nat i)) DirEntry.Unused) /\
    forall x, x ∉ cs -> D' x = D x).
Proof.
  intros Hloc. pose proof Hloc as [Hch _ _ _ Hae His Hie Hle]. pose proof (is_chain_NoDup _ _ _ Hch) as Hnd. pose proof (cnt_pos Hg).
  induction d as [|d IH]; intros [|fuel] st D h c a i Hf Hok Ha Hge Hd Hi Hfuel; try lia; cbn [clear_entries].
  all: eapply runs_bind; [apply (location_step_spec F k0 cs f ks i_s ke ie a_s ae st D h c a Hloc Hf Hok Ha); lia|].
  all: rewrite <- Hi; intros r st1 [Hf1 Hr].
  - rewrite decide_True in Hr by lia. subst r. assert (i <= ie + 1) by (case_decide; subst; lia).
    eapply runs_bind; [apply (clear_turn (ie - i + 1) st1 F D h c i cs a); try done; [case_decide|..]; lia|].
    intros [] st2 (D1 & Hf2 & Ho1 & Hx1). destruct fuel as [|fuel]; [lia|]. apply ends_ret. exists D1. split_and!; try done.
    replace (ae * cnt + Z.to_nat ie + 1 - (a * cnt + Z.to_nat i))%nat with (Z.to_nat (ie - i + 1)); [done|].
    assert (0 <= i) by (case_decide; lia). subst ae. nia.
  - rewrite decide_False in Hr by lia. destruct Hr as (c' & -> & Hok' & Ha' & Hl').
    assert (Hib : 0 <= i < cluster_bytes bs / 32) by (case_decide; lia).
    eapply runs_bind; [apply (clear_turn (cluster_bytes bs / 32 - 1 - i + 1) st1 F D h c i cs a); try done; lia|].
    intros [] st2 (D1 & Hf2 & Ho1 & Hx1).
    eapply runs_mono; [apply (IH fuel st2 D1 h c' (S a) 0); try done; try lia|].
    + by rewrite Hl'.
    + by rewrite decide_False by lia.
    + intros [] st3 (D2 & Hf3 & Ho2 & Hx2). exists D2. split_and!; [done| |intros x Hx; by rewrite Hx2, Hx1].
      replace (ae * cnt + Z.to_nat ie + 1 - (a * cnt + Z.to_nat i))%nat with
        (Z.to_nat (cluster_bytes bs / 32 - 1 - i + 1) + (ae * cnt + Z.to_nat ie + 1 - (S a * cnt + Z.to_nat 0)))%nat
        by (subst ae; nia).
      rewrite replicate_add. eapply overwritten_app; [exact Ho1|]. rewrite length_replicate.
      replace (a * cnt + Z.to_nat i + Z.to_nat (cluster_bytes bs / 32 - 1 - i + 1))%nat with (S a * cnt + Z.to_nat 0)%nat by lia. done.
Qed.

Lemma walk_lookup D l q k i e : walk D l !! q = Some (k, i, e) -> l !! q = Some (k, i).
Proof.
  intros Hq. destruct (cut_prefix (cells D l)) as [rest Hc]. rewrite walk_cut in Hq.
  assert (Hl : cells D l !! q = Some (k, i, e)) by (rewrite Hc; by apply lookup_app_l_Some).
  unfold cells in Hl. rewrite list_lookup_fmap_Some in Hl. destruct Hl as ([k' i'] & [= <- <- _] & ?). done.
Qed.

(** The first and the last slot of a group. *)
Lemma group_slots F D cs l1 g l2 dir nm sfn :
  walk D (slots bs cs) = l1 ++ g ++ l2 -> g <> [] -> is_chain bs F dir cs -> exists ks i_s ke ie a_s ae,
    located F dir cs (group_file dir g nm sfn) ks i_s ke ie a_s ae /\
    f_last_entry (group_file dir g nm sfn) = (sfn, ke, ie) /\
    length l1 = (a_s * cnt + Z.to_nat i_s)%nat /\ (length l1 + length g = ae * cnt + Z.to_nat ie + 1)%nat.
Proof.
  intros Hw Hne Hch. destruct g as [|[[ks i_s] e0] g'] eqn:Hgr; [done|].
  destruct (last g) as [[[ke ie] e1]|] eqn:Hlast; [|by rewrite Hgr, last_None in Hlast].
  rewrite <- Hgr in *. assert (H1 : slots bs cs !! length l1 = Some (ks, i_s)).
  { eapply walk_lookup. rewrite Hw, lookup_app_r, Nat.sub_diag, Hgr by lia. done. }
  assert (H2 : slots bs cs !! (length l1 + (length g - 1))%nat = Some (ke, ie)).
  { assert (0 < length g)%nat by (rewrite Hgr; simpl; lia). eapply walk_lookup. rewrite Hw, lookup_app_r by lia.
    rewrite lookup_app_l by lia. rewrite last_lookup in Hlast. rewrite <- Hlast. f_equal. lia. }
  destruct (slots_lookup_inv _ _ _ _ H1) as (a_s & ? & ? & ?). destruct (slots_lookup_inv _ _ _ _ H2) as (ae & ? & ? & ?).
  exists ks, i_s, ke, ie, a_s, ae. assert (0 < length g)%nat by (rewrite Hgr; simpl; lia).
  assert (Hle : f_last_entry (group_file dir g nm sfn) = (sfn, ke, ie)) by (unfold group_file; cbn; by rewrite Hlast).
  split_and!; [|done|lia|lia]. split; try done; [by rewrite Hgr|by eexists|lia].
Qed.

(** A slot rewritten before all of them are cleared. *)
Lemma overwritten_slot D D1 D2 cs p es f q :
  only_slot D D1 f -> slots bs cs !! q = Some (slot_of f) -> (p <= q < p + length es)%nat ->
  zlen (D (slot_of f).1) = cluster_bytes bs -> zlen (D1 (slot_of f).1) = cluster_bytes bs -> 
  overwritten D1 D2 (slots bs cs) p es -> NoDup cs -> overwritten D D2 (slots bs cs) p es.
Proof.
  intros [Hx Hfr] Hq Hp HD HD1 Ho Hnd q' k i Hq'. rewrite (Ho q' k i Hq'). case_decide as Hin; [done|].
  assert (Hi : 0 <= i < cluster_bytes bs / 32) by (apply list_elem_of_lookup_2, slots_elem in Hq'; tauto).
  destruct (slot_of f) as [kf jf] eqn:Hsl. cbn [fst snd] in *.
  assert (Hj : 0 <= jf < cluster_bytes bs / 32) by (apply list_elem_of_lookup_2, slots_elem in Hq; tauto).
  destruct (decide (k = kf)) as [->|Hk]; [|unfold entry_at; by rewrite Hx].
  assert (Hne : i <> jf)
    by (intros ->; assert (q' = q) by (exact (NoDup_lookup _ _ _ _ (slots_NoDup (bs := bs) _ Hnd) Hq' Hq)); lia).
  destruct (entry_range (bs := bs) i Hi), (entry_range (bs := bs) jf Hj).
  unfold entry_at, SIZE. unfold slot_frame in Hfr. rewrite Hfr. rewrite sub_upd_disjoint; rewrite ?length_sub; try lia. done.
Qed.

(** The directory without the group [g]. *)
Lemma cleared_directory F' D D2 dir cs f1 f2 l1 g l2 :
  is_chain bs F' dir cs -> terminated (walk D (slots bs cs)) -> walk D (slots bs cs) = l1 ++ g ++ l2 -> live g -> g <> [] ->
  tidy dir l1 f1 -> tidy dir l2 f2 ->
  overwritten D D2 (slots bs cs) (length l1) (replicate (length g) DirEntry.Unused) ->
  directory (bs := bs) F' D2 dir cs (f1 ++ f2).
Proof.
  intros Hch Hterm Hw Hl Hne Ht1 Ht2 Ho. rewrite Hw in Hterm.
  assert (Hl2 : l2 <> []).
  { intros ->. rewrite app_nil_r in Hterm. destruct (terminated_app _ _ Hterm Hne) as [_ (l0 & c & n0 & -> & _)].
    apply Forall_app in Hl as [_ Hl]. by apply Forall_inv in Hl. }
  destruct (terminated_app _ _ Hterm) as [Hlive1 Hterm2]; [by destruct g|].
  destruct (terminated_app _ _ Hterm2 Hl2) as [_ Hterm3].
  destruct (cut_prefix (cells D (slots bs cs))) as [garb Hc]. rewrite <- walk_cut, Hw in Hc.
  destruct (overwritten_cells _ _ _ _ _ Ho) as (g' & Hg' & Hsnd).
  { rewrite length_replicate. apply (f_equal length) in Hc. unfold cells in Hc. rewrite length_fmap, !length_app in Hc. lia. }
  rewrite length_replicate in Hg'. rewrite Hc, <- !app_assoc, take_app_length, drop_app_add, drop_app_length in Hg'.
  assert (Hu : unused g').
  { assert (Hall : Forall (fun e => e = DirEntry.Unused) (snd <$> g')) by (rewrite Hsnd; by apply Forall_replicate).
    by apply Forall_fmap in Hall. }
  assert (Hw' : walk D2 (slots bs cs) = l1 ++ g' ++ l2)
    by (by rewrite walk_cut, Hg', (cut_live_app l1 _ Hlive1), (cut_live_app g' _ (unused_live _ Hu)), terminated_cut).
  split; [done|]. rewrite Hw'. split.
  - apply tidy_app; [done|done|]. by apply tidy_skip_unused.
  - apply terminated_prepend; [done|]. apply terminated_prepend; [|done]. by apply unused_live.
Qed.

(** The slots [p..p + m) of a file are cleared. *)
Lemma erase_file_spec fuel st F D h dir cs f ks i_s ke ie a_s ae p m :
  fs st F D h -> located F dir cs f ks i_s ke ie a_s ae ->
  p = (a_s * cnt + Z.to_nat i_s)%nat -> (p + m = ae * cnt + Z.to_nat ie + 1)%nat -> (dir_fuel (bs := bs) <= fuel)%nat ->
  exists c, new_cluster bs (fst (f_entry_location f)) = Some c /\
    runs (clear_entries bs fuel f (Some c)) st (fun _ st' => exists D', fs st' F D' h /\
      overwritten D D' (slots bs cs) p (replicate m DirEntry.Unused) /\ forall x, x ∉ cs -> D' x = D x).
Proof.
  intros Hf Hloc -> Hm Hfuel. pose proof Hloc as [Hch Hfirst _ Has Hae His Hie Hord]. rewrite Hfirst. cbn [fst].
  assert (Hks : available bs ks)
    by (by apply (proj1 (Forall_forall _ _) (is_chain_available _ _ _ Hch)), list_elem_of_lookup_2 with a_s).
  destruct (new_cluster_spec Hg ks Hks) as (c & -> & Hok & Hck & Hlc). exists c. split; [done|].
  pose proof (is_chain_length _ _ _ Hch) as Hlen. pose proof (cnt_pos Hg). pose proof (lookup_lt_Some _ _ _ Hae).
  assert (Hle : (a_s <= ae)%nat) by nia.
  eapply runs_mono; [apply (clear_entries_spec F dir cs f ks i_s ke ie a_s ae Hloc (ae - a_s) fuel st D h c a_s i_s)|];
    try done; try lia.
  - by rewrite Hlc.
  - by rewrite Hck.
  - by rewrite decide_True.
  - unfold dir_fuel in Hfuel. nia.
  - intros [] st' (D' & Hf' & Ho & Hx). exists D'. split_and!; try done.
    by replace (ae * cnt + Z.to_nat ie + 1 - (a_s * cnt + Z.to_nat i_s))%nat with m in Ho by lia.
Qed.

(** What [remove] does to the file itself, after the files of a directory are removed:
    the clusters of the file are released and its slots, up to the one of its short entry,
    are cleared. *)
Definition unlink (fuel : nat) (f : File) : M St Error unit :=
  '(_, f) <- held f (fun _ => ret tt) (release_cluster bs) ;;
  c <- munwrap (new_cluster bs (fst (f_entry_location f))) ;;
  clear_entries bs fuel f (Some c).

Record unlinked F D h dir cs f fl (used touched : list Z) D' st' : Prop := {
  un_fs : fs st' (free_all F used) D' h;
  un_directory : directory (bs := bs) (free_all F used) D' dir cs fl;
  un_outside : forall x, x ∉ touched -> D' x = D x;
  un_slots : exists p m, overwritten D D' (slots bs cs) p (replicate (S m) DirEntry.Unused) /\
    slots bs cs !! (p + m)%nat = Some (slot_of f)
}.

Lemma located_same F k0 cs f f' ks i_s ke ie a_s ae :
  same_place f f' -> located F k0 cs f ks i_s ke ie a_s ae -> located F k0 cs f' ks i_s ke ie a_s ae.
Proof.
  intros (_ & _ & _ & H4 & H1 & H2 & _) [? Hfirst [sfn Hle] ? ? ? ? ?]. split; try done; [congruence|].
  rewrite Hle in H1, H2. destruct (f_last_entry f') as [[e0 ?] ?]. simpl in *. exists e0. congruence.
Qed.

Lemma unlink_spec fuel st F D h dir cs f1 f f2 fcs :
  fs st F D h -> directory (bs := bs) F D dir cs (f1 ++ f :: f2) -> writable (bs := bs) F f fcs ->
  (forall x, x ∈ fcs -> x ∉ cs) -> (dir_fuel (bs := bs) <= fuel)%nat ->
  runs (unlink fuel f) st (fun _ st' => exists D', unlinked F D h dir cs f (f1 ++ f2) fcs cs D' st').
Proof.
  intros Hf (Hch & Ht & Hterm) Hw Hdis Hfuel. pose proof (is_chain_NoDup _ _ _ Hch) as Hnd.
  destruct (tidy_pick _ _ _ Ht f1 f f2 eq_refl) as (l1 & g & l2 & nm & sfn & Hwalk & Hr & Hfg & Ht1 & Ht2).
  assert (Hgne : g <> []) by (by intros ->).
  assert (Hch' : is_chain bs (free_all F fcs) dir cs).
  { eapply is_chain_ext; [exact Hch|]. intros x Hx. unfold free_all. rewrite decide_False; [done|]. intros Hin. by apply (Hdis x). }
  destruct (group_slots (free_all F fcs) D cs l1 g l2 dir nm sfn Hwalk Hgne Hch') as (ks & i_s & ke & ie & a_s & ae & Hloc & Hle & Hp & Hq).
  rewrite <- Hfg in Hloc, Hle. unfold unlink.
  apply (runs_bind _ _ _ (fun r st' => exists D1, fs st' (free_all F fcs) D1 h /\ same_place f r.2 /\ only_slot D D1 f)).
  { apply runs_held. eapply runs_mono; [by apply (release_spec Hg Hsz st F D h f fcs)|].
    intros [] s' (D1 & ? & _ & ? & ?). by exists D1. }
  intros [[] f'] st1 (D1 & Hf1 & Hsame & Hos). cbn [snd] in *. pose proof (located_same _ _ _ _ _ _ _ _ _ _ _ Hsame Hloc) as Hloc'.
  destruct (erase_file_spec fuel st1 _ D1 h dir cs f' ks i_s ke ie a_s ae (length l1) (length g) Hf1 Hloc' Hp Hq Hfuel) as (c & -> & Herase).
  apply (runs_bind _ _ _ (fun a b => a = c /\ b = st1)); [done|]. intros ? ? [-> ->].
  eapply runs_mono; [exact Herase|]. intros [] st2 (D2 & Hf2 & Ho & Hx). exists D2.
  assert (Hslot : slot_of f = (ke, ie)) by (unfold slot_of; by rewrite Hle). pose proof Hloc as [_ _ _ _ Hae _ Hie _].
  assert (Hke : available bs ke)
    by (by apply (proj1 (Forall_forall _ _) (is_chain_available _ _ _ Hch)), list_elem_of_lookup_2 with ae).
  assert (Hat : slots bs cs !! (ae * cnt + Z.to_nat ie)%nat = Some (slot_of f)) by (rewrite Hslot; by apply slots_lookup).
  assert (Hm : length g = S (length g - 1)) by (destruct g; [done|simpl; lia]).
  assert (Ho' : overwritten D D2 (slots bs cs) (length l1) (replicate (length g) DirEntry.Unused)).
  { eapply (overwritten_slot D D1 D2 cs _ _ f (ae * cnt + Z.to_nat ie)); try done; rewrite ?length_replicate, ?Hslot; cbn [fst]; try lia.
    - by apply (fs_rep_length Hg Hsz _ _ _ _ _ Hf).
    - by apply (fs_rep_length Hg Hsz _ _ _ _ _ Hf1). }
  split; [done| | |].
  - eapply cleared_directory; try done. by eapply group_live.
  - intros x Hnot. rewrite Hx by done. destruct Hos as [Hos _]. apply Hos. rewrite Hslot. intros ->.
    by apply Hnot, list_elem_of_lookup_2 with ae.
  - exists (length l1), (length g - 1)%nat. rewrite <- Hm. split; [done|]. rewrite <- Hat. f_equal. lia.
Qed.

(** Removing a file that is not a directory. *)
Lemma remove_file_spec fuel recursive st F D h dir cs f1 f f2 fcs :
  fs st F D h -> directory (bs := bs) F D dir cs (f1 ++ f :: f2) -> file_is_dir f = false -> writable (bs := bs) F f fcs ->
  (forall x, x ∈ fcs -> x ∉ cs) -> (dir_fuel (bs := bs) <= fuel)%nat ->
  runs (remove bs (S fuel) recursive f) st (fun _ st' => exists D', unlinked F D h dir cs f (f1 ++ f2) fcs cs D' st').
Proof.
  intros Hf Hdir Hd Hw Hdis Hfuel. cbn [remove]. unfold as_dir. rewrite Hd.
  apply (runs_bind _ _ _ (fun _ b => b = st)); [done|]. intros [] ? ->. by apply unlink_spec.
Qed.

End removal.

(** ** Lemmas: what a directory depends on *)

Lemma tidy_shown dir l fl : tidy dir l fl -> Forall (fun f => is_dots (f_name f) = false) fl.
Proof.
  induction 1 as [| | | |g nm sfn l fl _ _ IH]; try done; try constructor. unfold shown. destruct (is_dots _) eqn:Hd; [done|]. by constructor.
Qed.

Section frames.
Context {bs : BootSector}.
Implicit Types (F : Z -> FatEntry) (D : Z -> list Z).

Lemma walk_frame D D' l : (forall k i, (k, i) ∈ l -> D' k = D k) -> walk D' l = walk D l.
Proof.
  induction l as [|[k i] l IH]; intros Hl; [done|]. cbn [walk]. rewrite IH by (intros k' i' Hin; apply (Hl k' i'); by right).
  assert (He : entry_at D' k i = entry_at D k i) by (unfold entry_at; rewrite (Hl k i); [done|by left]). by rewrite He.
Qed.

Lemma slots_frame D D' cs : (forall x, x ∈ cs -> D' x = D x) -> walk D' (slots bs cs) = walk D (slots bs cs).
Proof. intros Hx. apply walk_frame. intros k i Hin. apply slots_elem in Hin as [Hk _]. by apply Hx. Qed.

Lemma directory_frame F D F' D' dir cs fl : directory (bs := bs) F D dir cs fl ->
  (forall x, x ∈ cs -> F' x = F x /\ D' x = D x) -> directory (bs := bs) F' D' dir cs fl.
Proof.
  intros (Hch & Ht & Hterm) Hx. assert (Hw : walk D' (slots bs cs) = walk D (slots bs cs)) by (apply slots_frame; intros x Hin; by apply Hx).
  split; [|by rewrite Hw]. eapply is_chain_ext; [exact Hch|]. intros x Hin. by apply Hx.
Qed.

End frames.

(** ** Directories *)

Section claims.
Context {St : Type} `{SectorCacheLaws St n sz} {bs : BootSector}
  (Hg : geometry bs n) (Hsz : sz = bpb_byts_per_sec bs).
Implicit Types (st : St) (F : Z -> FatEntry) (D : Z -> list Z) (h : counts).

Abbreviation fs st := (fs_rep bs (St := St) (n := n) (sz := sz) st).

(** Iterating over a directory returns, in order, exactly
    the files its entries stand for: unused slots, labels, the entries of the
    directory itself and of its parent, and broken name sequences are skipped, the
    iteration ends at the terminal entry or at the end of the chain, and the volume
    is as before. *)
Theorem list_files_scan fuel st F D h dir cs l :
  fs st F D h -> is_chain bs F dir cs -> scan dir Init None (walk D (slots bs cs)) = Some l ->
  (dir_fuel (bs := bs) <= fuel)%nat ->
  runs (list_files bs fuel dir) st (fun r st' => r = l /\ fs st' F D h).
Proof. exact (list_files_spec Hg Hsz fuel st F D h dir cs l). Qed.

(** Creating a file in a directory that ends with a
    terminal entry, and then listing the directory, returns the files there were
    with the new, empty one among them, whatever run of unused slots or however many
    new clusters its entries took. The creation fails only when the name cannot be stored,
    which changes nothing, or when the volume has no free cluster left and the entries do not fit
    into the directory, which then has its old files and at most the new one. *)
Theorem create_file_listed fuel st F D h dir cs fl nm :
  fs st F D h -> directory (bs := bs) F D dir cs fl -> Forall is_char nm -> is_dots nm = false ->
  last nm <> Some 0 -> last nm <> Some 0xffff -> (nm ∉ f_name <$> fl) -> (dir_fuel (bs := bs) <= fuel)%nat ->
  ends (create_file bs fuel dir nm ;;; list_files bs fuel dir) st
    (fun l _ => exists f1 f f2, fl = f1 ++ f2 /\ l = f1 ++ f :: f2 /\ f_name f = nm /\ file_size f = 0 /\
      file_is_dir f = false /\ DirEntry.cluster (f_sfn f) = None)
    (fun e st' => match e with
      | InvalidFileName => ~ storable nm /\ fs st' F D h
      | Full => exists F' D' sfn, fs st' F' D' h /\ no_room (bs := bs) D F' dir cs nm /\
          runs (list_files bs fuel dir) st' (fun l _ => crowded_list fl nm sfn l)
      | _ => False
      end).
Proof.
  intros Hf Hdir Hc Hdots Hz Hffff Hnm Hfuel. apply ends_bind.
  eapply ends_mono; [by apply (create_file_spec Hg Hsz fuel st F D h dir cs fl nm)| |].
  - intros [] st1 [_ (sfn & Hsame & F' & D' & cs' & f & f1 & f2 & Hf1 & Hgr & -> & Hdir' & Hn & Hs & _)]. cbn beta.
    destruct Hdir' as (Hch' & Ht' & _). apply ends_runs.
    eapply runs_mono; [by apply (list_files_spec Hg Hsz fuel st1 F' D' h dir cs' _ Hf1 Hch' (tidy_scan _ _ _ Ht'))|].
    intros l st2 [-> _]. exists f1, f, f2. unfold shown. rewrite Hn, Hdots. unfold file_size, file_is_dir. rewrite Hs.
    unfold same_but_name in Hsame. split_and!; try done.
    + by apply (f_equal DirEntry.file_size) in Hsame.
    + apply (f_equal attr) in Hsame. unfold is_directory. simpl in Hsame. by rewrite Hsame.
    + apply (f_equal DirEntry.cluster) in Hsame. unfold DirEntry.cluster in *. simpl in Hsame. done.
  - intros e st1 He. destruct e; try done; [|by destruct He]. destruct He as (sfn & _ & Hcr).
    destruct (crowded_listed Hg Hsz fuel _ _ _ _ _ _ _ _ _ Hcr Hdots Hfuel) as (F' & D' & cs' & Hf' & _ & Hroom & Hls). exists F', D', sfn.
    split_and!; try done. eapply runs_mono; [exact (Hls st1 Hf')|]. by intros l st2 [? _].
Qed.

(** Creating a file under a name the directory
    already has fails with [FileAlreadyExists] and changes nothing. *)
Theorem create_file_conflict fuel st F D h dir cs fl nm :
  fs st F D h -> directory (bs := bs) F D dir cs fl -> nm ∈ f_name <$> fl -> (dir_fuel (bs := bs) <= fuel)%nat ->
  ends (create_file bs fuel dir nm) st (fun _ _ => False) (fun e st' => e = FileAlreadyExists /\ fs st' F D h).
Proof.
  intros Hf Hdir Hnm Hfuel. unfold create_file. apply ends_bind.
  eapply ends_mono; [by apply (check_name_conflict_spec Hg Hsz fuel st F D h dir cs fl nm)| |by intros e st' (-> & _ & ?)].
  by intros [] st1 [? _].
Qed.

(** Removing a file frees the clusters of its chain
    and no others, clears exactly its entries, across clusters of the directory if
    need be, and a listing afterwards returns the other files in their order; the
    clusters outside the directory keep their contents. *)
Theorem remove_file_unlisted fuel recursive st F D h dir cs f1 f f2 fcs :
  fs st F D h -> directory (bs := bs) F D dir cs (f1 ++ f :: f2) -> file_is_dir f = false ->
  writable (bs := bs) F f fcs -> (forall x, x ∈ fcs -> x ∉ cs) -> (dir_fuel (bs := bs) <= fuel)%nat ->
  runs (remove bs (S fuel) recursive f ;;; list_files bs fuel dir) st (fun l st' => l = f1 ++ f2 /\
    exists D', fs st' (free_all F fcs) D' h /\ forall x, x ∉ cs -> D' x = D x).
Proof.
  intros Hf Hdir Hd Hw Hdis Hfuel.
  eapply runs_bind; [by apply (remove_file_spec Hg Hsz fuel recursive st F D h dir cs f1 f f2 fcs)|].
  intros [] st1 (D' & [Hf1 (Hch & Ht & _) Hx _]).
  eapply runs_mono; [by apply (list_files_spec Hg Hsz fuel st1 _ D' h dir cs _ Hf1 Hch (tidy_scan _ _ _ Ht))|].
  intros l st2 [-> Hf2]. split; [done|]. by exists D'.
Qed.

(** A directory that starts with an entry of a long
    name that is not the last part of one, which an interrupted write or another
    driver can leave behind, makes every listing run forever: the iterator reads
    the entry again after finding it out of place. *)
Theorem orphan_entry_diverges fuel st F D h dir cs :
  fs st F D h -> is_chain bs F dir (dir :: cs) ->
  reader_read Init (entry_at D dir 0) = Some (Init, DirEntry.Broken Init (entry_at D dir 0)) ->
  (list_files bs fuel dir st).1 = Diverge.
Proof.
  intros Hf Hch Hor. unfold list_files, files. destruct (dir_entries_spec Hg F dir cs Hch) as (cur & -> & Hcur & Hl).
  rewrite slots_cons in Hcur. pose proof (cluster_bytes_entries Hg).
  assert (Hseq : seqZ 0 (cluster_bytes bs / 32) = 0 :: seqZ 1 (cluster_bytes bs / 32 - 1)).
  { rewrite seqZ_cons by lia. f_equal. }
  rewrite Hseq in Hcur. destruct fuel as [|fuel]; [done|].
  assert (Hn : runs (dir_next bs DIR_FUEL cur) st (fun r _ => r.1 = Some (dir, 0, entry_at D dir 0))).
  { eapply runs_mono; [eapply (dir_next_spec Hg Hsz st F D h cur); [by rewrite Hl|exact Hcur]|]. by intros r st' [_ [? _]]. }
  apply runs_Ok in Hn as ([o cur'] & st' & Hn & Ho). cbn [fst] in Ho. subst o.
  unfold mbnd, munwrap, ret. cbn [collect dir_iter_next]. unfold mbnd. rewrite Hn.
  pose proof (iter_orphan (bs := bs) dir (entry_at D dir 0) Hor fuel cur' (dir, 0) (dir, 0) st') as Hd.
  destruct (dir_iter_next bs fuel dir cur' _ st') as [o st2]. simpl in Hd. by rewrite Hd.
Qed.

End claims.

(** ** Concrete directories *)

Abbreviation demo_dir es := (new_volume (demo_volume demo_chain [(2, mjoin (into_bytes <$> es))])).
Abbreviation dir_F es := (demo_fat demo_chain [(2, mjoin (into_bytes <$> es))]).
Abbreviation dir_D es := (demo_data demo_chain [(2, mjoin (into_bytes <$> es))]).

(** The entry of a file with a one-letter name. *)
Definition letter (c : Z) : DirEntry := Sfn (with_name (c :: replicate 10 32) sfn_new).

Definition demo_entries : list DirEntry := [letter 65; DirEntry.Unused; letter 66; DirEntry.Unused; DirEntry.Unused].

Definition letter_file (c i : Z) : File :=
  {| f_dir := 2; f_name := [c]; f_entry_location := (2, i);
     f_last_entry := (with_name (c :: replicate 10 32) sfn_new, 2, i) |}.

Lemma demo_walk : walk (dir_D demo_entries) (slots demo_bs [2]) =
  [(2, 0, letter 65); (2, 1, DirEntry.Unused); (2, 2, letter 66); (2, 3, DirEntry.Unused);
   (2, 4, DirEntry.Unused); (2, 5, UnusedTerminal)].
Proof. vm_compute. reflexivity. Qed.

Lemma demo_root_chain : is_chain demo_bs (dir_F demo_entries) 2 [2].
Proof. apply chain_end; [vm_compute; split; discriminate|vm_compute; reflexivity]. Qed.

Lemma demo_directory :
  directory (bs := demo_bs) (dir_F demo_entries) (dir_D demo_entries) 2 [2] [letter_file 65 0; letter_file 66 2].
Proof.
  split; [exact demo_root_chain|]. rewrite demo_walk. split.
  - apply (tidy_group 2 [(2, 0, letter 65)] [65] (with_name (65 :: replicate 10 32) sfn_new) _ [letter_file 66 2]); [reflexivity|].
    apply tidy_unused.
    apply (tidy_group 2 [(2, 2, letter 66)] [66] (with_name (66 :: replicate 10 32) sfn_new) _ []); [reflexivity|].
    do 2 apply tidy_unused. apply tidy_terminal.
  - eexists [_; _; _; _; _], 2, 5. split; [reflexivity|]. repeat apply Forall_cons_2; try apply Forall_nil_2; discriminate.
Qed.

Lemma list_files_scan_witness :
  runs (list_files demo_bs (Z.to_nat 4000) 2) (demo_dir demo_entries) (fun r st' =>
    r = [letter_file 65 0; letter_file 66 2] /\
    fs_rep demo_bs (n := 64) (sz := 512) st' (dir_F demo_entries) (dir_D demo_entries) (fun _ => 0%nat)).
Proof.
  apply (list_files_scan demo_bs_geometry eq_refl (Z.to_nat 4000) _ _ _ _ 2 [2] _ (demo_rep demo_chain _) demo_root_chain).
  - rewrite demo_walk. reflexivity.
  - apply Nat.leb_le. vm_compute. reflexivity.
Defined.

Lemma create_file_listed_witness :
  runs (create_file demo_bs (Z.to_nat 4000) 2 [67; 68] ;;; list_files demo_bs (Z.to_nat 4000) 2) (demo_dir demo_entries)
    (fun l _ => exists f1 f f2, [letter_file 65 0; letter_file 66 2] = f1 ++ f2 /\ l = f1 ++ f :: f2 /\
      f_name f = [67; 68] /\ file_size f = 0 /\ file_is_dir f = false /\ DirEntry.cluster (f_sfn f) = None).
Proof.
  eapply ends_returns; [|vm_compute; reflexivity].
  apply (create_file_listed demo_bs_geometry eq_refl (Z.to_nat 4000) _ _ _ _ 2 [2] _ [67; 68] (demo_rep demo_chain _) demo_directory);
    try reflexivity; try discriminate.
  - repeat apply Forall_cons_2; try apply Forall_nil_2; unfold is_char; lia.
  - apply (bool_decide_eq_false_1 _). vm_compute. reflexivity.
  - apply Nat.leb_le. vm_compute. reflexivity.
Defined.

Lemma create_file_conflict_witness :
  ends (create_file demo_bs (Z.to_nat 4000) 2 [66]) (demo_dir demo_entries) (fun _ _ => False) (fun e st' =>
    e = FileAlreadyExists /\
    fs_rep demo_bs (n := 64) (sz := 512) st' (dir_F demo_entries) (dir_D demo_entries) (fun _ => 0%nat)).
Proof.
  apply (create_file_conflict demo_bs_geometry eq_refl (Z.to_nat 4000) _ _ _ _ 2 [2] _ [66] (demo_rep demo_chain _) demo_directory).
  - right. left.
  - apply Nat.leb_le. vm_compute. reflexivity.
Defined.

(** In a directory whose only cluster is
    full, with no terminal entry, as FAT allows, the search for slots ends with its
    initial position: creating a file overwrites the first file and writes a
    terminal entry behind it, and of 16 files none is left but the new one. *)
Theorem full_directory_overwritten :
  let v := demo_dir (letter <$> seqZ 65 16) in
  (exists l st, list_files demo_bs (Z.to_nat 100) 2 v = (Ok l, st) /\ f_name <$> l = (fun c => [c]) <$> seqZ 65 16) /\
  exists l st, (create_file demo_bs (Z.to_nat 100) 2 [90] ;;; list_files demo_bs (Z.to_nat 100) 2) v = (Ok l, st) /\
    f_name <$> l = [[90]].
Proof.
  split; eexists _, _; (split; [vm_compute; reflexivity|vm_compute; reflexivity]).
Qed.

(** The first part of a name of two entries, without the second. *)
Definition orphan : LfnEntry :=
  {| ord := 1; name1 := replicate 10 65; lattr := LONG_FILE_NAME; ty := 0; chksum := 0; name2 := replicate 12 65;
     lfst_clus_lo := 0; name3 := replicate 4 65 |}.

Lemma orphan_entry_diverges_witness : (list_files demo_bs (Z.to_nat 1000000) 2 (demo_dir [Lfn orphan])).1 = Diverge.
Proof.
  apply (orphan_entry_diverges demo_bs_geometry eq_refl _ _ _ _ _ 2 [] (demo_rep demo_chain _)).
  - apply chain_end; [vm_compute; split; discriminate|vm_compute; reflexivity].
  - vm_compute. reflexivity.
Defined.

Lemma demo_file_directory : directory (bs := demo_bs) demo_F demo_D 2 [2] ([] ++ demo_file :: []).
Proof.
  assert (Hw : walk demo_D (slots demo_bs [2]) = [(2, 0, Sfn demo_entry); (2, 1, UnusedTerminal)]) by (vm_compute; reflexivity).
  split; [apply chain_end; [vm_compute; split; discriminate|vm_compute; reflexivity]|]. rewrite Hw. split.
  - apply (tidy_group 2 [(2, 0, Sfn demo_entry)] [65; 46; 84; 88; 84] demo_entry [(2, 1, UnusedTerminal)] []);
      [vm_compute; reflexivity|apply tidy_terminal].
  - exists [(2, 0, Sfn demo_entry)], 2, 1. split; [reflexivity|]. apply Forall_cons_2; [discriminate|apply Forall_nil_2].
Qed.

Lemma remove_file_unlisted_witness :
  runs (remove demo_bs (S (Z.to_nat 4000)) false demo_file ;;; list_files demo_bs (Z.to_nat 4000) 2) demo_fs (fun l st' =>
    l = [] /\ exists D', fs_rep demo_bs (n := 64) (sz := 512) st' (free_all demo_F [3; 5]) D' (fun _ => 0%nat) /\
      forall x, (x ∉ [2]) -> D' x = demo_D x).
Proof.
  apply (remove_file_unlisted demo_bs_geometry eq_refl (Z.to_nat 4000) false _ _ _ _ 2 [2] [] demo_file [] [3; 5]
    (demo_rep demo_chain _) demo_file_directory eq_refl demo_writable).
  - intros x Hx ->%list_elem_of_singleton. rewrite !elem_of_cons in Hx. destruct Hx as [|[|Hx%not_elem_of_nil]]; done.
  - apply Nat.leb_le. vm_compute. reflexivity.
Defined.
