(* ===== verification/FatMove.v ===== *)
(** * Moving files and making directories (src/ors-kernel/src/fs/fat.rs)

    What [File::mv] and [Dir::create_dir] do to the directories of a volume: a
    file that is moved leaves one list of files and enters another, or changes its
    name in place, and its clusters keep their contents; a new directory is listed in
    its parent and holds the entries of itself and of its parent. Each error comes with its condition and with
    what it leaves; when no cluster is free a move can lose the file. *)

From S2P Require Import Prelude Volume BootSector FatEntry DirEntry LowLevel Fat FatFiles FatDirs.
Local Open Scope Z_scope.
Local Open Scope rust_scope.

Section moving.
Context {St : Type} `{SectorCacheLaws St n sz} {bs : BootSector}
  (Hg : geometry bs n) (Hsz : sz = bpb_byts_per_sec bs).
Implicit Types (st : St) (F : Z -> FatEntry) (D : Z -> list Z) (h : counts).

Abbreviation fs st := (fs_rep bs (St := St) (n := n) (sz := sz) st).
Abbreviation cnt := (Z.to_nat (cluster_bytes bs / 32)).

(** ** Reading the entries of a file *)

(** The entries in the slots [p..p + m). *)
Definition entries_in D cs (p m : nat) : list DirEntry :=
  (fun '(k, i) => entry_at D k i) <$> take m (drop p (slots bs cs)).

Lemma entries_in_app D cs p m1 m2 :
  entries_in D cs p (m1 + m2) = entries_in D cs p m1 ++ entries_in D cs (p + m1) m2.
Proof. unfold entries_in. by rewrite <- drop_drop, <- fmap_app, take_take_drop. Qed.

Lemma entries_in_cons D cs p m k i :
  slots bs cs !! p = Some (k, i) -> entries_in D cs p (S m) = entry_at D k i :: entries_in D cs (S p) m.
Proof. intros Hp. unfold entries_in. by rewrite (drop_S _ _ _ Hp). Qed.

Lemma read_range_spec m : forall st F D h c i cs a,
  fs st F D (own h (bc_last c)) -> handle_ok bs c -> cs !! a = Some (bc_cluster c) ->
  0 <= i -> i + Z.of_nat m <= cluster_bytes bs / 32 ->
  runs (read_range (seqZ i (Z.of_nat m))) (st, c) (fun es s' => fs s'.1 F D (own h (bc_last s'.2)) /\
    es = entries_in D cs (a * cnt + Z.to_nat i) m).
Proof.
  induction m as [|m IH]; intros st F D h c i cs a Hf Hok Ha Hi Hm.
  { apply ends_ret. split; [done|]. done. }
  rewrite seqZ_cons by lia. cbn [read_range]. replace (Z.pred (Z.of_nat (S m))) with (Z.of_nat m) by lia.
  eapply runs_bind; [apply (read_dir_entry_spec Hg Hsz st F D h c i); try done; lia|].
  intros e [st1 c1] (-> & Hf1 & Hs1). cbn [fst snd] in *. destruct (same_handle_ok (bs := bs) _ _ Hs1 Hok) as [Hok1 Hk1].
  eapply runs_bind; [apply (IH st1 F D h c1 (Z.succ i) cs a); try done; [congruence|lia|lia]|].
  intros es [st2 c2] [Hf2 ->]. apply ends_ret. split; [done|].
  assert (Hib : 0 <= i < cluster_bytes bs / 32) by lia.
  rewrite (entries_in_cons D cs (a * cnt + Z.to_nat i) _ (bc_cluster c) i (slots_lookup Hsz cs a _ i Ha Hib)).
  by replace (a * cnt + Z.to_nat (Z.succ i))%nat with (S (a * cnt + Z.to_nat i))%nat by lia.
Qed.

Lemma read_turn m st F D h c i cs a :
  fs st F D (own h (bc_last c)) -> handle_ok bs c -> cs !! a = Some (bc_cluster c) ->
  0 <= i -> 0 <= m -> i + m <= cluster_bytes bs / 32 ->
  runs (scoped c drop_cluster (read_range (seqZ i m))) st (fun es st' => fs st' F D h /\
    es = entries_in D cs (a * cnt + Z.to_nat i) (Z.to_nat m)).
Proof.
  intros Hf Hok Ha Hi Hm Hb. eapply runs_mono.
  - apply (scoped_cluster (bs := bs) _ _ h c (fun es F' D' => (F' = F /\ D' = D) /\ es = entries_in D cs (a * cnt + Z.to_nat i) (Z.to_nat m))).
    replace m with (Z.of_nat (Z.to_nat m)) at 1 by lia.
    eapply runs_mono; [apply (read_range_spec (Z.to_nat m) st F D h c i cs a); try done; lia|].
    intros es s' [Hf' ->]. by exists F, D.
  - by intros es st' (F' & D' & Hf' & [-> ->] & ->).
Qed.

Lemma read_entries_spec F k0 cs f ks i_s ke ie a_s ae :
  located (bs := bs) F k0 cs f ks i_s ke ie a_s ae -> forall d fuel st D h c a i,
  fs st F D (own h (bc_last c)) -> handle_ok bs c -> cs !! a = Some (bc_cluster c) ->
  (a_s <= a)%nat -> (a + d = ae)%nat -> i = (if decide (a = a_s) then i_s else 0) -> (S d < fuel)%nat ->
  runs (read_entries bs fuel f (Some c)) st (fun es st' => fs st' F D h /\
    es = entries_in D cs (a * cnt + Z.to_nat i) (ae * cnt + Z.to_nat ie + 1 - (a * cnt + Z.to_nat i))).
Proof.
  intros Hloc. pose proof Hloc as [Hch _ _ _ Hae His Hie Hle]. pose proof (cnt_pos Hg).
  induction d as [|d IH]; intros [|fuel] st D h c a i Hf Hok Ha Hge Hd Hi Hfuel; try lia; cbn [read_entries].
  all: eapply runs_bind; [apply (location_step_spec Hg Hsz F k0 cs f ks i_s ke ie a_s ae st D h c a Hloc Hf Hok Ha); lia|].
  all: rewrite <- Hi; intros r st1 [Hf1 Hr].
  - rewrite decide_True in Hr by lia. subst r. assert (i <= ie + 1) by (case_decide; subst; lia).
    eapply runs_bind; [apply (read_turn (ie - i + 1) st1 F D h c i cs a); try done; [case_decide|..]; lia|].
    intros es st2 [Hf2 ->]. destruct fuel as [|fuel]; [lia|]. apply ends_ret. split; [done|]. rewrite app_nil_r. f_equal.
    assert (0 <= i) by (case_decide; lia). subst ae. nia.
  - rewrite decide_False in Hr by lia. destruct Hr as (c' & -> & Hok' & Ha' & Hl').
    assert (Hib : 0 <= i < cluster_bytes bs / 32) by (case_decide; lia).
    eapply runs_bind; [apply (read_turn (cluster_bytes bs / 32 - 1 - i + 1) st1 F D h c i cs a); try done; lia|].
    intros es st2 [Hf2 ->].
    eapply runs_bind; [apply (IH fuel st2 D h c' (S a) 0); try done; try lia|].
    + by rewrite Hl'.
    + by rewrite decide_False by lia.
    + intros es st3 [Hf3 ->]. apply ends_ret. split; [done|].
      replace (ae * cnt + Z.to_nat ie + 1 - (a * cnt + Z.to_nat i))%nat with
        (Z.to_nat (cluster_bytes bs / 32 - 1 - i + 1) + (ae * cnt + Z.to_nat ie + 1 - (S a * cnt + Z.to_nat 0)))%nat
        by (subst ae; nia).
      rewrite entries_in_app. do 2 f_equal. lia.
Qed.

(** ** Taking a file out of its directory *)

Lemma entries_in_group D cs l1 g l2 :
  walk D (slots bs cs) = l1 ++ g ++ l2 -> entries_in D cs (length l1) (length g) = snd <$> g.
Proof.
  intros Hw. destruct (cut_prefix (cells D (slots bs cs))) as [rest Hc]. rewrite <- walk_cut, Hw in Hc.
  assert (Hs : entries_in D cs (length l1) (length g) = snd <$> take (length g) (drop (length l1) (cells D (slots bs cs)))).
  { unfold entries_in, cells. rewrite <- fmap_drop, <- fmap_take, <- list_fmap_compose.
    apply list_fmap_ext. by intros q [k i] _. }
  by rewrite Hs, Hc, <- !app_assoc, drop_app_length, take_app_length.
Qed.

(** The entries of file [f] of a directory: they can be read and cleared, which takes [f]
    out of the directory and nothing else. *)
Lemma file_entries fuel F D h dir cs f1 f f2 :
  directory (bs := bs) F D dir cs (f1 ++ f :: f2) -> (dir_fuel (bs := bs) <= fuel)%nat -> exists c g,
    new_cluster bs (fst (f_entry_location f)) = Some c /\ f_dir f = dir /\
    read_sequence Init (snd <$> g) = Some (f_name f, f_sfn f) /\ g ⊆ walk D (slots bs cs) /\
    (forall st, fs st F D h -> runs (read_entries bs fuel f (Some c)) st (fun es st' => es = snd <$> g /\ fs st' F D h)) /\
    (forall st, fs st F D h -> runs (clear_entries bs fuel f (Some c)) st (fun _ st' => exists D', fs st' F D' h /\
       directory (bs := bs) F D' dir cs (f1 ++ f2) /\ forall x, x ∉ cs -> D' x = D x)).
Proof.
  intros (Hch & Ht & Hterm) Hfuel. pose proof (cnt_pos Hg).
  destruct (tidy_pick _ _ _ Ht f1 f f2 eq_refl) as (l1 & g & l2 & nm & sfn & Hwalk & Hr & Hfg & Ht1 & Ht2).
  assert (Hgne : g <> []) by (by intros ->).
  destruct (group_slots F D cs l1 g l2 dir nm sfn Hwalk Hgne Hch) as (ks & i_s & ke & ie & a_s & ae & Hloc & Hle & Hp & Hq).
  rewrite <- Hfg in Hloc, Hle. pose proof Hloc as [_ Hfirst _ Has Hae His Hie Hord].
  assert (Hks : available bs ks)
    by (by apply (proj1 (Forall_forall _ _) (is_chain_available _ _ _ Hch)), list_elem_of_lookup_2 with a_s).
  destruct (new_cluster_spec Hg ks Hks) as (c & Hc & Hok & Hck & Hlc). exists c, g. rewrite Hfirst. cbn [fst].
  pose proof (is_chain_length _ _ _ Hch) as Hlen. pose proof (lookup_lt_Some _ _ _ Hae).
  assert (Hse : (a_s <= ae)%nat) by nia.
  assert (Hsfn : f_sfn f = sfn) by (unfold f_sfn; by rewrite Hle).
  split_and!; [done|by rewrite Hfg|rewrite Hsfn, Hfg; done|rewrite Hwalk; set_solver| |].
  - intros st Hf. eapply runs_mono; [apply (read_entries_spec F dir cs f ks i_s ke ie a_s ae Hloc (ae - a_s) fuel st D h c a_s i_s)|];
      try done; try lia; [by rewrite Hlc|by rewrite Hck|by rewrite decide_True|unfold dir_fuel in Hfuel; nia|].
    intros es st' [Hf' ->]. split; [|done]. rewrite <- Hp, <- Hq.
    replace (length l1 + length g - length l1)%nat with (length g) by lia. by eapply entries_in_group.
  - intros st Hf. destruct (erase_file_spec Hg Hsz fuel st F D h dir cs f ks i_s ke ie a_s ae (length l1) (length g) Hf Hloc Hp Hq Hfuel)
      as (c' & Hc' & Herase). rewrite Hfirst in Hc'. cbn [fst] in Hc'. rewrite Hc in Hc'. injection Hc' as <-.
    eapply runs_mono; [exact Herase|]. intros [] st' (D' & Hf' & Ho & Hx). exists D'. split_and!; try done.
    eapply cleared_directory; try done. by eapply group_live.
Qed.

(** ** [mv] *)

(** The entries of a directory are as this driver writes them. *)
Definition plain D cs : Prop := Forall (fun x => entry_ok x.2) (walk D (slots bs cs)).

(** The file has left its directory; the directory [dest] had the files [el] then. *)
Definition moved F D h dir cs fl dest ecs el nm sfn st' : Prop :=
  exists D1, directory (bs := bs) F D1 dir cs fl /\ (forall x, x ∉ cs -> D1 x = D x) /\
    inserted (bs := bs) (n := n) (sz := sz) F D1 h dest ecs el nm sfn st'.

(** The file has left its directory, and the directory [dest] had no room for it. *)
Definition lost F D h dir cs fl dest ecs el nm sfn st' : Prop :=
  exists D1, directory (bs := bs) F D1 dir cs fl /\ (forall x, x ∉ cs -> D1 x = D x) /\
    crowded (bs := bs) (n := n) (sz := sz) F D1 h dest ecs el nm sfn st'.

(** The second half of [mv]. *)
Lemma move_entries_spec fuel st F D h dir cs f1 f f2 dest ecs el el' es nm sfn :
  fs st F D h -> directory (bs := bs) F D dir cs (f1 ++ f :: f2) -> directory (bs := bs) F D dest ecs el ->
  (forall D1, directory (bs := bs) F D1 dir cs (f1 ++ f2) -> (forall x, x ∉ cs -> D1 x = D x) ->
     directory (bs := bs) F D1 dest ecs el') ->
  Forall entry_ok es -> read_sequence Init es = Some (nm, sfn) -> (dir_fuel (bs := bs) <= fuel)%nat ->
  ends (check_name_conflict bs fuel dest nm ;;;
        c <- munwrap (new_cluster bs (fst (f_entry_location f))) ;;
        clear_entries bs fuel f (Some c) ;;;
        insert_dir_entries bs fuel dest es) st
    (fun _ st' => (nm ∉ f_name <$> el) /\ moved F D h dir cs (f1 ++ f2) dest ecs el' nm sfn st')
    (fun e st' => e = FileAlreadyExists /\ nm ∈ f_name <$> el /\ fs st' F D h \/
       e = Full /\ (nm ∉ f_name <$> el) /\ lost F D h dir cs (f1 ++ f2) dest ecs el' nm sfn st').
Proof.
  intros Hf Hdir Hdest Hafter Hes Hr Hfuel.
  destruct (file_entries fuel F D h dir cs f1 f f2 Hdir Hfuel) as (c & g & Hc & _ & _ & _ & _ & Hclear).
  apply ends_bind. eapply ends_mono; [by apply (check_name_conflict_spec Hg Hsz fuel st F D h dest ecs el nm)| |by left].
  intros [] st1 [Hnm Hf1]. cbn beta. rewrite Hc.
  apply (runs_ends_bind _ _ _ (fun a b => a = c /\ b = st1)); [done|]. intros ? ? [-> ->].
  eapply runs_ends_bind; [exact (Hclear st1 Hf1)|]. intros [] st2 (D1 & Hf2 & Hdir1 & Hx1).
  pose proof (Hafter D1 Hdir1 Hx1) as Hdest1. pose proof Hdest1 as (Hchd & _). pose proof (slots_fuel _ _ _ Hchd).
  eapply ends_mono; [apply (insert_spec Hg Hsz fuel st2 F D1 h dest ecs el' es nm sfn); try done; lia| |].
  - intros [] st3 Hi. split; [done|]. by exists D1.
  - intros e st3 (-> & ?). right. split; [done|]. split; [done|]. by exists D1.
Qed.

(** Without a new name the entries are copied. *)
Lemma mv_keep fuel st F D h dir cs f1 f f2 dest ecs el el' nm :
  fs st F D h -> directory (bs := bs) F D dir cs (f1 ++ f :: f2) -> plain D cs ->
  directory (bs := bs) F D dest ecs el ->
  (forall D1, directory (bs := bs) F D1 dir cs (f1 ++ f2) -> (forall x, x ∉ cs -> D1 x = D x) ->
     directory (bs := bs) F D1 dest ecs el') ->
  (nm = None \/ nm = Some (f_name f)) -> dest <> dir -> (dir_fuel (bs := bs) <= fuel)%nat ->
  ends (mv bs fuel f (Some dest) nm) st
    (fun _ st' => (f_name f ∉ f_name <$> el) /\ moved F D h dir cs (f1 ++ f2) dest ecs el' (f_name f) (f_sfn f) st')
    (fun e st' => e = FileAlreadyExists /\ f_name f ∈ f_name <$> el /\ fs st' F D h \/
       e = Full /\ (f_name f ∉ f_name <$> el) /\ lost F D h dir cs (f1 ++ f2) dest ecs el' (f_name f) (f_sfn f) st').
Proof.
  intros Hf Hdir Hplain Hdest Hafter Hnm Hne Hfuel.
  destruct (file_entries fuel F D h dir cs f1 f f2 Hdir Hfuel) as (c & g & Hc & Hfd & Hrd & Hsub & Hread & _).
  assert (Hgok : Forall entry_ok (snd <$> g)).
  { apply Forall_fmap, Forall_forall. intros x Hx. by apply (proj1 (Forall_forall _ _) Hplain), Hsub. }
  assert (Hstay : forall Q R, ends (c <- munwrap (new_cluster bs (fst (f_entry_location f))) ;;
      es <- read_entries bs fuel f (Some c) ;;
      check_name_conflict bs fuel dest (f_name f) ;;;
      c <- munwrap (new_cluster bs (fst (f_entry_location f))) ;;
      clear_entries bs fuel f (Some c) ;;; insert_dir_entries bs fuel dest es) st Q R ->
    ends (mv bs fuel f (Some dest) nm) st Q R).
  { intros Q R HQ. unfold mv. rewrite Hfd, (proj2 (Z.eqb_neq _ _) Hne).
    destruct Hnm as [->| ->]; [done|]. by rewrite bool_decide_eq_true_2. }
  apply Hstay. rewrite Hc at 1. apply (runs_ends_bind _ _ _ (fun a b => a = c /\ b = st)); [done|]. intros ? ? [-> ->].
  eapply runs_ends_bind; [exact (Hread st Hf)|]. intros es st1 [-> Hf1]. by apply move_entries_spec.
Qed.

(** The entries for the new name: generated, or those of the old one. *)
Lemma mv_spec fuel st F D h dir cs f1 f f2 dest ecs el el' nm :
  fs st F D h -> directory (bs := bs) F D dir cs (f1 ++ f :: f2) -> plain D cs -> is_volume_id (f_sfn f) = false ->
  directory (bs := bs) F D (default dir dest) ecs el ->
  (forall D1, directory (bs := bs) F D1 dir cs (f1 ++ f2) -> (forall x, x ∉ cs -> D1 x = D x) ->
     directory (bs := bs) F D1 (default dir dest) ecs el') ->
  let name := default (f_name f) nm in
  Forall is_char name -> last name <> Some 0 -> last name <> Some 0xffff ->
  (name <> f_name f \/ default dir dest <> dir) -> (dir_fuel (bs := bs) <= fuel)%nat ->
  ends (mv bs fuel f dest nm) st
    (fun _ st' => (name ∉ f_name <$> el) /\ (name = f_name f \/ storable name) /\ exists sfn, same_but_name (f_sfn f) sfn /\
       moved F D h dir cs (f1 ++ f2) (default dir dest) ecs el' name sfn st')
    (fun e st' => e = FileAlreadyExists /\ name ∈ f_name <$> el /\ fs st' F D h \/
       e = InvalidFileName /\ name <> f_name f /\ ~ storable name /\ fs st' F D h \/
       e = Full /\ (name ∉ f_name <$> el) /\ (name = f_name f \/ storable name) /\ exists sfn, same_but_name (f_sfn f) sfn /\
         lost F D h dir cs (f1 ++ f2) (default dir dest) ecs el' name sfn st').
Proof.
  intros Hf Hdir Hplain Hvol Hdest Hafter name Hchar Hz Hffff Hchange Hfuel.
  destruct (file_entries fuel F D h dir cs f1 f f2 Hdir Hfuel) as (c & g & Hc & Hfd & Hrd & Hsub & Hread & _).
  assert (Hgok : Forall entry_ok (snd <$> g)).
  { apply Forall_fmap, Forall_forall. intros x Hx. by apply (proj1 (Forall_forall _ _) Hplain), Hsub. }
  assert (Hsfn : entry_ok (Sfn (f_sfn f))).
  { apply (proj1 (Forall_forall _ _) Hgok). destruct (read_sequence_last _ _ _ _ Hrd) as [es0 ->].
    apply elem_of_app. right. by left. }
  destruct (decide (name = f_name f)) as [Heq|Hne].
  - destruct Hchange as [|Hd]; [done|]. destruct dest as [d|]; [|done]. simpl in *.
    eapply ends_mono; [apply (mv_keep fuel st F D h dir cs f1 f f2 d ecs el el'); try done| |].
    + destruct nm; simpl in *; [right; by f_equal|by left].
    + rewrite Heq. intros [] st' [? ?]. split; [done|]. split; [by left|]. exists (f_sfn f). split; [|done]. by destruct (f_sfn f).
    + rewrite Heq. intros e st' [?|(-> & ? & ?)]; [by left|]. right. right. split_and!; [done|done|by left|]. exists (f_sfn f). split; [|done]. by destruct (f_sfn f).
  - destruct nm as [nm|]; [|done]. simpl in name. subst name. unfold mv. rewrite bool_decide_eq_false_2 by done.
    destruct Hsfn as (Hok & _ & Hat). destruct (lfn_sequence_ok nm (f_sfn f) Hchar Hok Hat Hvol) as (r & Hr & Hes).
    rewrite Hr. apply (runs_ends_bind _ _ _ (fun a b => a = r /\ b = st)); [done|]. intros ? ? [-> ->].
    pose proof (lfn_sequence_storable _ _ _ Hr) as Hst.
    destruct r as [es|]; [|apply ends_fail; right; left; split_and!; [done|done|by intros [? ?]%Hst|done]]. pose proof (proj1 Hst ltac:(by eexists)) as Hstore.
    destruct (Hes es eq_refl) as (pre & sfn' & -> & Hoks & Hsame & Hrd'). rewrite Hfd.
    eapply ends_mono; [by apply (move_entries_spec fuel st F D h dir cs f1 f f2 _ ecs el el' _ nm sfn'); auto| |].
    + intros [] st' [? ?]. split; [done|]. split; [by right|]. by exists sfn'.
    + intros e st' [?|(-> & ? & ?)]; [by left|]. right. right. split_and!; [done|done|by right|]. by exists sfn'.
Qed.

(** ** Where the clusters are *)

(** The clusters in use outside of [l], in the table and their contents, are as before. *)
Definition unchanged F D F' D' (l : list Z) : Prop :=
  forall x, x ∉ l -> F x <> FatEntry.Unused -> F' x = F x /\ D' x = D x.

(** What a file outside of the two directories has on the volume is as before. *)
Lemma moved_frame F D h dir cs fl dest ecs el nm sfn st' :
  moved F D h dir cs fl dest ecs el nm sfn st' -> exists F' D' ecs' f e1 e2,
    fs st' F' D' h /\ el = e1 ++ e2 /\ directory (bs := bs) F' D' dest ecs' (e1 ++ shown f e2) /\
    f_name f = nm /\ f_sfn f = sfn /\
    unchanged F D F' D' (cs ++ ecs) /\
    ((forall x, x ∈ cs -> x ∉ ecs) -> directory (bs := bs) F' D' dir cs fl).
Proof.
  intros (D1 & Hdir1 & Hx1 & F' & D' & ecs' & f & e1 & e2 & Hf' & [(new & -> & Hnew) Hfat Hdata] & -> & Hdest & Hn & Hs & _).
  exists F', D', (ecs ++ new), f, e1, e2. split_and!; try done.
  - intros x [Hc He]%not_elem_of_app Hu. assert (Hnot : x ∉ ecs ++ new) by (rewrite elem_of_app; intros [?|?%Hnew]; naive_solver).
    by rewrite Hfat, Hdata, Hx1.
  - intros Hdis. eapply directory_frame; [exact Hdir1|]. intros x Hx. destruct Hdir1 as (Hch & _).
    assert (Hnot : x ∉ ecs ++ new).
    { rewrite elem_of_app. intros [?|[? _]%Hnew]; [by apply (Hdis x)|]. by apply (is_chain_used _ _ _ _ Hch Hx). }
    by rewrite Hfat, Hdata.
Qed.

(** The directory [dest] without room for the file. *)
Lemma lost_frame fuel F D h dir cs fl dest ecs el nm sfn st' :
  lost F D h dir cs fl dest ecs el nm sfn st' -> is_dots nm = false -> (dir_fuel (bs := bs) <= fuel)%nat -> exists D1 F' D',
    fs st' F' D' h /\ unchanged F D F' D' (cs ++ ecs) /\ (forall x, x ∉ cs -> D1 x = D x) /\
    no_room (bs := bs) D1 F' dest ecs nm /\
    (forall st, fs st F' D' h -> runs (list_files bs fuel dest) st (fun l st2 => crowded_list el nm sfn l /\ fs st2 F' D' h)) /\
    ((forall x, x ∈ cs -> x ∉ ecs) -> directory (bs := bs) F' D' dir cs fl).
Proof.
  intros (D1 & Hdir1 & Hx1 & Hcr) Hdots Hfuel.
  destruct (crowded_listed Hg Hsz fuel _ _ _ _ _ _ _ _ _ Hcr Hdots Hfuel) as (F' & D' & ecs' & Hf' & [(new & -> & Hnew) Hfat Hdata] & Hroom & Hls).
  exists D1, F', D'. split_and!; try done.
  - intros x [Hc He]%not_elem_of_app Hu. assert (Hnot : x ∉ ecs ++ new) by (rewrite elem_of_app; intros [?|?%Hnew]; naive_solver).
    by rewrite Hfat, Hdata, Hx1.
  - intros Hdis. eapply directory_frame; [exact Hdir1|]. intros x Hx. destruct Hdir1 as (Hch & _).
    assert (Hnot : x ∉ ecs ++ new).
    { rewrite elem_of_app. intros [?|[? _]%Hnew]; [by apply (Hdis x)|]. by apply (is_chain_used _ _ _ _ Hch Hx). }
    by rewrite Hfat, Hdata.
Qed.

Definition list_both (fuel : nat) (dir dest : Z) : M St Error (list File * list File) :=
  a <- list_files bs fuel dir ;; b <- list_files bs fuel dest ;; ret (a, b).

Lemma list_both_spec fuel st F D h dir cs fl dest (P : list File -> Prop) :
  fs st F D h -> directory (bs := bs) F D dir cs fl -> (dir_fuel (bs := bs) <= fuel)%nat ->
  (forall st, fs st F D h -> runs (list_files bs fuel dest) st (fun l st2 => P l /\ fs st2 F D h)) ->
  runs (list_both fuel dir dest) st (fun r st' => r.1 = fl /\ P r.2 /\ fs st' F D h).
Proof.
  intros Hf (Hch & Ht & _) Hfuel Hls. unfold list_both.
  eapply runs_bind; [by apply (list_files_spec Hg Hsz fuel st F D h dir cs _ Hf Hch (tidy_scan _ _ _ Ht))|].
  intros a st2 [-> Hf2]. eapply runs_bind; [exact (Hls st2 Hf2)|]. intros b st3 [HP Hf3]. by apply ends_ret.
Qed.

(** [C39]. Moving a file into another directory, under its name or a new one, takes it out
    of the list of files of the one and puts it into that of the other, with the same
    size, attributes and first cluster; the table and the contents of all clusters
    in use outside of the two directories are as before, so that its contents are the same. A
    name that the other directory has already, or a new one that cannot be stored, changes nothing. The only other error is
    [Full], and only when no cluster is free and the entries of the name do not fit into the directory: the file is then out of the
    first directory, and the other one has its old files, and at most that one besides. *)
Theorem mv_moves_file fuel st F D h dir cs f1 f f2 dest ecs el nm :
  fs st F D h -> directory (bs := bs) F D dir cs (f1 ++ f :: f2) -> plain D cs -> is_volume_id (f_sfn f) = false ->
  directory (bs := bs) F D dest ecs el -> (forall x, x ∈ cs -> x ∉ ecs) ->
  let name := default (f_name f) nm in
  Forall is_char name -> is_dots name = false -> last name <> Some 0 -> last name <> Some 0xffff ->
  (dir_fuel (bs := bs) <= fuel)%nat ->
  ends (mv bs fuel f (Some dest) nm ;;; list_both fuel dir dest) st
    (fun r st' => (name ∉ f_name <$> el) /\ (name = f_name f \/ storable name) /\ r.1 = f1 ++ f2 /\
       (exists e1 f' e2, el = e1 ++ e2 /\ r.2 = e1 ++ f' :: e2 /\ f_name f' = name /\ same_but_name (f_sfn f) (f_sfn f')) /\
       exists F' D', fs st' F' D' h /\ unchanged F D F' D' (cs ++ ecs))
    (fun e st' => match e with
       | FileAlreadyExists => name ∈ f_name <$> el /\ fs st' F D h
       | InvalidFileName => name <> f_name f /\ ~ storable name /\ fs st' F D h
       | Full => (name ∉ f_name <$> el) /\ (name = f_name f \/ storable name) /\
           (exists F' D', fs st' F' D' h /\ unchanged F D F' D' (cs ++ ecs) /\ no_room (bs := bs) D F' dest ecs name) /\
           exists sfn, same_but_name (f_sfn f) sfn /\
             runs (list_both fuel dir dest) st' (fun r _ => r.1 = f1 ++ f2 /\ crowded_list el name sfn r.2)
       | _ => False
       end).
Proof.
  intros Hf Hdir Hplain Hvol Hdest Hdis name Hchar Hdots Hz Hffff Hfuel. apply ends_bind.
  assert (Hne : dest <> dir).
  { intros ->. destruct Hdir as (Hch & _), Hdest as (Hchd & _). pose proof (is_chain_fun _ _ _ _ Hch Hchd) as ->.
    destruct (is_chain_head _ _ _ Hch) as [cs0 ->]. by apply (Hdis dir); left. }
  eapply ends_mono; [apply (mv_spec fuel st F D h dir cs f1 f f2 (Some dest) ecs el el nm); try done; [|by right]| |].
  - intros D1 _ Hx. eapply directory_frame; [exact Hdest|]. intros x Hin. split; [done|]. apply Hx. intros Hc. by apply (Hdis x).
  - intros [] st1 (Hnot & Hst & sfn & Hsame & Hmv). cbn beta.
    destruct (moved_frame _ _ _ _ _ _ _ _ _ _ _ _ Hmv) as (F' & D' & ecs' & f' & e1 & e2 & Hf1 & -> & (Hch2 & Ht2 & _) & Hn & Hs & Hframe & Hsrc).
    apply ends_runs. eapply runs_mono; [apply (list_both_spec fuel st1 F' D' h dir cs (f1 ++ f2) dest (fun l => l = e1 ++ shown f' e2) Hf1 (Hsrc Hdis) Hfuel)|].
    { intros st2 Hf2. by apply (list_files_spec Hg Hsz fuel st2 F' D' h dest ecs' _ Hf2 Hch2 (tidy_scan _ _ _ Ht2)). }
    intros [a b] st3 (-> & -> & Hf3). cbn [fst snd]. split_and!; [done|done|done| |by exists F', D'].
    exists e1, f', e2. unfold shown. rewrite Hn. simpl. fold name. rewrite Hdots. by rewrite Hs.
  - intros e st1 [(-> & ? & ?)|[(-> & ? & ? & ?)|(-> & Hnot & Hst & sfn & Hsame & Hlost)]]; [done|done|]. split_and!; [done|done| |].
    all: destruct (lost_frame fuel _ _ _ _ _ _ _ _ _ _ _ _ Hlost Hdots Hfuel) as (D1 & F' & D' & Hf1 & Hframe & Hx1 & Hroom & Hls & Hsrc).
    + exists F', D'. split_and!; try done. unfold no_room in *. rewrite (slots_frame D D1) in Hroom; [done|]. intros x Hx. apply Hx1. intros Hc. by apply (Hdis x).
    + exists sfn. split; [done|]. eapply runs_mono; [by apply (list_both_spec fuel st1 F' D' h dir cs _ dest _ Hf1 (Hsrc Hdis) Hfuel Hls)|]. by intros r st2 (? & ? & _).
Qed.

(** A new name in the same directory replaces the file in its list by one with
    the same size, attributes and first cluster under that name. A name that the directory has already or that cannot be
    stored changes nothing. When no cluster is free and the new entries do not fit, the file is lost. *)
Theorem mv_renames_file fuel st F D h dir cs f1 f f2 nm :
  fs st F D h -> directory (bs := bs) F D dir cs (f1 ++ f :: f2) -> plain D cs -> is_volume_id (f_sfn f) = false ->
  Forall is_char nm -> is_dots nm = false -> last nm <> Some 0 -> last nm <> Some 0xffff -> nm <> f_name f ->
  (dir_fuel (bs := bs) <= fuel)%nat ->
  ends (mv bs fuel f None (Some nm) ;;; list_files bs fuel dir) st
    (fun l st' => (exists g1 f' g2, f1 ++ f2 = g1 ++ g2 /\ l = g1 ++ f' :: g2 /\ f_name f' = nm /\ same_but_name (f_sfn f) (f_sfn f')) /\
       exists F' D', fs st' F' D' h /\ unchanged F D F' D' cs)
    (fun e st' => match e with
       | FileAlreadyExists => nm ∈ f_name <$> f1 ++ f :: f2 /\ fs st' F D h
       | InvalidFileName => ~ storable nm /\ fs st' F D h
       | Full => (exists F' D', fs st' F' D' h /\ unchanged F D F' D' cs /\ no_free (bs := bs) F') /\
           exists sfn, runs (list_files bs fuel dir) st' (fun l _ => crowded_list (f1 ++ f2) nm sfn l)
       | _ => False
       end).
Proof.
  intros Hf Hdir Hplain Hvol Hchar Hdots Hz Hffff Hne Hfuel. apply ends_bind.
  assert (Happ : forall F' D', unchanged F D F' D' (cs ++ cs) -> unchanged F D F' D' cs).
  { intros F' D' Hu x Hx. apply Hu. rewrite elem_of_app. by intros [?|?]. }
  eapply ends_mono; [apply (mv_spec fuel st F D h dir cs f1 f f2 None cs (f1 ++ f :: f2) (f1 ++ f2) (Some nm)); try done; by left| |].
  - intros [] st1 (_ & _ & sfn & Hsame & Hmv). cbn beta.
    destruct (moved_frame _ _ _ _ _ _ _ _ _ _ _ _ Hmv) as (F' & D' & cs' & f' & g1 & g2 & Hf1 & Heq & Hdir' & Hn & Hs & Hframe & _).
    destruct Hdir' as (Hch & Ht & _). apply ends_runs.
    eapply runs_mono; [by apply (list_files_spec Hg Hsz fuel st1 F' D' h dir cs' _ Hf1 Hch (tidy_scan _ _ _ Ht))|].
    intros l st2 [-> Hf2]. split; [|exists F', D'; auto].
    exists g1, f', g2. unfold shown. rewrite Hn. simpl. rewrite Hdots. by rewrite Hs.
  - intros e st1 [(-> & ? & ?)|[(-> & _ & ? & ?)|(-> & _ & _ & sfn & _ & Hlost)]]; [done|done|].
    destruct (lost_frame fuel _ _ _ _ _ _ _ _ _ _ _ _ Hlost Hdots Hfuel) as (D1 & F' & D' & Hf1 & Hframe & _ & (Hfree & _) & Hls & _). split.
    + exists F', D'. auto.
    + exists sfn. eapply runs_mono; [exact (Hls st1 Hf1)|]. by intros l st2 [? _].
Qed.

(** ** [create_dir] *)

(** The attributes of a directory. *)
Lemma directory_attr a :
  u8 a -> Z.land a LONG_FILE_NAME_MASK <> LONG_FILE_NAME -> has_bits a VOLUME_ID = false ->
  u8 (Z.lor a DIRECTORY) /\ Z.land (Z.lor a DIRECTORY) LONG_FILE_NAME_MASK <> LONG_FILE_NAME /\
  has_bits (Z.lor a DIRECTORY) VOLUME_ID = false /\ has_bits (Z.lor a DIRECTORY) DIRECTORY = true.
Proof.
  intros Ha _ Hv.
  pose proof (u8_forall (fun a => unsignedb 8 (Z.lor a DIRECTORY) &&
    negb (Z.land (Z.lor a DIRECTORY) LONG_FILE_NAME_MASK =? LONG_FILE_NAME) &&
    (has_bits a VOLUME_ID || negb (has_bits (Z.lor a DIRECTORY) VOLUME_ID)) &&
    has_bits (Z.lor a DIRECTORY) DIRECTORY) ltac:(vm_compute; reflexivity) a Ha) as He.
  cbv beta in He. rewrite Hv, !andb_true_iff in He. destruct He as (((H1 & H2) & H3) & H4). apply unsignedb_spec in H1.
  split_and!; [done|lia| |done]. by destruct (has_bits (Z.lor a DIRECTORY) VOLUME_ID).
Qed.

(** The last entry of a new directory. *)
Lemma dir_entry_ok c e :
  entry_ok (Sfn e) -> is_volume_id e = false -> 0 < c < 2 ^ 32 ->
  let e' := set_cluster (Some c) (set_is_directory true e) in
  entry_ok (Sfn e') /\ same_name e e' /\ is_directory e' = true /\ DirEntry.cluster e' = Some c.
Proof.
  intros (Hok & Hst & Hat) Hv Hc e'. destruct (directory_attr _ (so_attr _ Hok) Hat Hv) as (H1 & H2 & H3 & H4).
  split_and!.
  - apply set_cluster_entry_ok. destruct Hok. split; [by split|]. split; [exact Hst|exact H2].
  - unfold same_name, is_volume_id in *. simpl. by rewrite Hv, H3.
  - done.
  - by apply cluster_set_cluster.
Qed.

Lemma set_last_dir_snoc es e c :
  set_last_dir (es ++ [Sfn e]) c = Some (es ++ [Sfn (set_cluster (Some c) (set_is_directory true e))]).
Proof.
  unfold set_last_dir. rewrite last_snoc, length_app. simpl. replace (length es + 1 - 1)%nat with (length es) by lia.
  by rewrite take_app_length.
Qed.

(** The entries a directory starts with. *)
Definition first_entries (c : Z) (up : option Z) : list DirEntry := [Sfn (current (Some c)); Sfn (parent up); UnusedTerminal].

Lemma first_entries_ok c up : Forall entry_ok (first_entries c up).
Proof.
  assert (Hok : forall nm c, length nm = 11%nat -> Forall (unsigned 8) nm -> 0 < at_ nm 0 < 0xe5 ->
    entry_ok (Sfn (set_cluster c (set_is_directory true (with_name nm sfn_new))))).
  { intros nm c' Hl Hb Hnm. apply set_cluster_entry_ok. destruct sfn_new_ok. split; [by split|]. split; [exact Hnm|done]. }
  assert (Hsp : forall k, Forall (unsigned 8) (replicate k 32)) by (intros k; apply Forall_replicate; unfold unsigned; lia).
  repeat apply Forall_cons_2; [| |done|by apply List.Forall_nil]; apply Hok; try done;
    try (unfold at_, index; simpl; lia); repeat first [apply Hsp|apply Forall_cons_2]; unfold unsigned; lia.
Qed.

(** What is written into the cluster of a new directory makes it an empty one. *)
Lemma new_directory F D D' c up :
  available bs c -> F c = UsedEoc -> overwritten D D' (slots bs [c]) 0 (first_entries c up) ->
  directory (bs := bs) F D' c [c] [].
Proof.
  intros Ha Hc Ho. pose proof (cluster_bytes_entries Hg). pose proof (slots_length (bs := bs) [c]) as Hlen. simpl in Hlen.
  destruct (overwritten_cells _ _ _ _ _ Ho) as (g & Hcells & Hsnd); [simpl; lia|].
  rewrite take_0, app_nil_l in Hcells.
  destruct g as [|[[c0 i0] e0] [|[[c1 i1] e1] [|[[c2 i2] e2] [|? ?]]]]; try done.
  injection Hsnd as -> -> ->.
  assert (Hw : walk D' (slots bs [c]) = [(c0, i0, Sfn (current (Some c))); (c1, i1, Sfn (parent up)); (c2, i2, UnusedTerminal)]).
  { rewrite walk_cut, Hcells. etransitivity; [apply (cut_live_app [(c0, i0, Sfn (current (Some c))); (c1, i1, Sfn (parent up))])|done].
    by repeat apply Forall_cons_2. }
  split; [by apply chain_end|]. rewrite Hw. split.
  - apply (tidy_group c [(c0, i0, Sfn (current (Some c)))] [46] (current (Some c)) _ []); [done|].
    apply (tidy_group c [(c1, i1, Sfn (parent up))] [46; 46] (parent up) _ []); [by destruct up|].
    apply tidy_terminal.
  - exists [(c0, i0, Sfn (current (Some c))); (c1, i1, Sfn (parent up))], c2, i2. split; [done|].
    by repeat apply Forall_cons_2.
Qed.

(** One entry of a cluster is written. *)
Lemma write_first st F D h c e i cs :
  fs st F D (own h (bc_last c)) -> handle_ok bs c -> 0 <= i < cluster_bytes bs / 32 -> entry_ok e -> cs = [bc_cluster c] ->
  runs (write_dir_entry i e) (st, c) (fun _ s' => exists D', fs s'.1 F D' (own h (bc_last s'.2)) /\ same_handle c s'.2 /\
    overwritten D D' (slots bs cs) (Z.to_nat i) [e] /\ forall x, x <> bc_cluster c -> D' x = D x).
Proof.
  intros Hf Hok Hi He ->. destruct (entry_codec e He) as (_ & Hlen & Hb). pose proof Hok as (Hk & _).
  eapply runs_mono; [by apply (write_dir_entry_spec Hg Hsz st F D h c i e)|].
  intros [] s' [Hf' Hs']. eexists. split_and!; [exact Hf'|done| |].
  - apply (overwritten_one Hsz D (bc_cluster c) i e [bc_cluster c] 0); try done; [|by apply NoDup_singleton].
    by apply (fs_rep_length Hg Hsz _ _ _ _ _ Hf).
  - intros x Hx. by rewrite fn_lookup_insert_ne.
Qed.

(** The three entries of a new directory. *)
Lemma write_first_entries st F D h c up :
  fs st F D h -> available bs c -> exists hd, new_cluster bs c = Some hd /\
    runs (scoped hd drop_cluster (write_dir_entry 0 (Sfn (current (Some c))) ;;; write_dir_entry 1 (Sfn (parent up)) ;;;
            write_dir_entry 2 UnusedTerminal)) st
      (fun _ st' => exists D', fs st' F D' h /\ overwritten D D' (slots bs [c]) 0 (first_entries c up) /\
         forall x, x <> c -> D' x = D x).
Proof.
  intros Hf Hc. destruct (new_cluster_spec Hg c Hc) as (hd & -> & Hok & Hck & Hlc). exists hd. split; [done|].
  pose proof (cluster_bytes_entries Hg). pose proof (first_entries_ok c up) as Hes.
  apply Forall_cons in Hes as [He1 Hes]. apply Forall_cons in Hes as [He2 _].
  eapply runs_mono.
  - apply (scoped_cluster (bs := bs) _ _ h hd (fun _ F' D' => F' = F /\ overwritten D D' (slots bs [c]) 0 (first_entries c up) /\
      forall x, x <> c -> D' x = D x)).
    eapply runs_bind; [apply (write_first st F D h hd (Sfn (current (Some c))) 0 [c]); try done; [by rewrite Hlc|lia|by rewrite Hck]|].
    intros [] [st1 hd1] (D1 & Hf1 & Hs1 & Ho1 & Hx1). cbn [fst snd] in *. destruct (same_handle_ok (bs := bs) _ _ Hs1 Hok) as [Hok1 Hk1].
    eapply runs_bind; [apply (write_first st1 F D1 h hd1 (Sfn (parent up)) 1 [c]); try done; [lia|by rewrite Hk1, Hck]|].
    intros [] [st2 hd2] (D2 & Hf2 & Hs2 & Ho2 & Hx2). cbn [fst snd] in *. destruct (same_handle_ok (bs := bs) _ _ Hs2 Hok1) as [Hok2 Hk2].
    eapply runs_mono; [apply (write_first st2 F D2 h hd2 UnusedTerminal 2 [c]); try done; [lia|by rewrite Hk2, Hk1, Hck]|].
    intros [] s3 (D3 & Hf3 & _ & Ho3 & Hx3). exists F, D3. split_and!; try done.
    + eapply overwritten_cons; [exact Ho1|]. eapply overwritten_cons; [exact Ho2|exact Ho3].
    + intros x Hx. rewrite Hx3, Hx2, Hx1 by congruence. done.
  - intros [] st' (F' & D' & Hf' & -> & Ho & Hx). by exists D'.
Qed.

(** A directory [c] has been made in [dir]: it is listed, and it is empty. *)
Definition made F D h dir (cs : list Z) fl nm st' : Prop :=
  exists F' D' cs' f f1 f2 c, fs st' F' D' h /\ fl = f1 ++ f2 /\ directory (bs := bs) F' D' dir cs' (f1 ++ shown f f2) /\
    f_name f = nm /\ as_dir f = Some c /\ directory (bs := bs) F' D' c [c] [] /\ F c = FatEntry.Unused /\
    unchanged F D F' D' cs.

(** The parent has grown with the cluster [c] taken: [c] is as it was written, and so is what was in use outside of the parent. *)
Lemma grown_taken F D D3 F' D' cs cs' c dir :
  is_chain bs F dir cs -> F c = FatEntry.Unused -> (forall x, x <> c -> D3 x = D x) ->
  grown (bs := bs) (<[c := UsedEoc]> F) D3 F' D' cs cs' -> F' c = UsedEoc /\ D' c = D3 c /\ unchanged F D F' D' cs.
Proof.
  intros Hch Hun Hx3 [(new & -> & Hnew) Hfat Hdata]. assert (Hcs : c ∉ cs) by (intros Hin; by apply (is_chain_used _ _ _ _ Hch Hin)).
  assert (Hnot : c ∉ cs ++ new).
  { rewrite elem_of_app. intros [?|[Hu _]%Hnew]; [done|]. by rewrite fn_lookup_insert in Hu. }
  split; [by rewrite Hfat, fn_lookup_insert|]. split; [by apply Hdata|]. intros x Hx Hu. assert (x <> c) by (by intros ->).
  assert (Hxn : x ∉ cs ++ new).
  { rewrite elem_of_app. intros [?|[Hux _]%Hnew]; [done|]. by rewrite fn_lookup_insert_ne in Hux. }
  by rewrite Hfat, Hdata, fn_lookup_insert_ne, Hx3.
Qed.

Lemma inserted_made st' F D D3 h dir cs fl nm sfn c up :
  is_chain bs F dir cs -> available bs c -> F c = FatEntry.Unused ->
  overwritten D D3 (slots bs [c]) 0 (first_entries c up) -> (forall x, x <> c -> D3 x = D x) ->
  is_directory sfn = true -> DirEntry.cluster sfn = Some c ->
  inserted (bs := bs) (n := n) (sz := sz) (<[c := UsedEoc]> F) D3 h dir cs fl nm sfn st' -> made F D h dir cs fl nm st'.
Proof.
  intros Hch Hav Hun Ho Hx3 Hd Hc (F' & D' & cs' & f & f1 & f2 & Hf' & Hgr & Hfl & Hdir' & Hn & Hs & _).
  destruct (grown_taken _ _ _ _ _ _ _ _ _ Hch Hun Hx3 Hgr) as (Hc' & Hd' & Hun').
  exists F', D', cs', f, f1, f2, c. split_and!; try done.
  - unfold as_dir, file_is_dir. by rewrite Hs, Hd.
  - apply (directory_frame (<[c := UsedEoc]> F) D3).
    + apply (new_directory _ D D3 c up); try done. apply fn_lookup_insert.
    + intros x ->%list_elem_of_singleton. by rewrite Hc', Hd', fn_lookup_insert.
Qed.

(** The cluster [c] has been taken for the new directory, and its parent had no room for its entries. *)
Definition leaked fuel F D h dir cs fl nm st' : Prop := exists F' D' c,
  fs st' F' D' h /\ unchanged F D F' D' cs /\ F c = FatEntry.Unused /\ F' c = UsedEoc /\ no_room (bs := bs) D F' dir cs nm /\
  runs (list_files bs fuel dir) st' (fun l _ => l = fl \/ exists f, l = fl ++ [f] /\ f_name f = nm /\ as_dir f = Some c).

Lemma crowded_leaked fuel st' F D D3 h dir cs fl nm sfn c :
  is_chain bs F dir cs -> F c = FatEntry.Unused -> (forall x, x <> c -> D3 x = D x) ->
  is_directory sfn = true -> DirEntry.cluster sfn = Some c -> is_dots nm = false -> (dir_fuel (bs := bs) <= fuel)%nat ->
  crowded (bs := bs) (n := n) (sz := sz) (<[c := UsedEoc]> F) D3 h dir cs fl nm sfn st' -> leaked fuel F D h dir cs fl nm st'.
Proof.
  intros Hch Hun Hx3 Hd Hc Hdots Hfuel Hcr.
  destruct (crowded_listed Hg Hsz fuel _ _ _ _ _ _ _ _ _ Hcr Hdots Hfuel) as (F' & D' & cs' & Hf' & Hgr & Hroom & Hls).
  destruct (grown_taken _ _ _ _ _ _ _ _ _ Hch Hun Hx3 Hgr) as (Hc' & _ & Hun').
  exists F', D', c. split_and!; try done.
  - unfold no_room in *. rewrite (slots_frame D D3) in Hroom; [done|]. intros x Hx. apply Hx3. intros ->. by apply (is_chain_used _ _ _ _ Hch Hx).
  - eapply runs_mono; [exact (Hls st' Hf')|]. intros l st2 [[->|(f & -> & Hn & Hs)] _]; [by left|]. right. exists f. split_and!; try done.
    unfold as_dir, file_is_dir. by rewrite Hs, Hd.
Qed.

Lemma create_dir_spec fuel st F D h dir cs fl nm :
  fs st F D h -> directory (bs := bs) F D dir cs fl -> Forall is_char nm -> is_dots nm = false -> last nm <> Some 0 -> last nm <> Some 0xffff ->
  (dir_fuel (bs := bs) <= fuel)%nat ->
  ends (create_dir bs fuel dir nm) st
    (fun _ st' => (nm ∉ f_name <$> fl) /\ storable nm /\ made F D h dir cs fl nm st')
    (fun e st' => match e with
       | FileAlreadyExists => nm ∈ f_name <$> fl /\ fs st' F D h
       | InvalidFileName => (nm ∉ f_name <$> fl) /\ ~ storable nm /\ fs st' F D h
       | Full => (nm ∉ f_name <$> fl) /\ storable nm /\ (no_free (bs := bs) F /\ fs st' F D h \/ leaked fuel F D h dir cs fl nm st')
       | _ => False
       end).
Proof.
  intros Hf Hdir Hchar Hdots Hz Hffff Hfuel. unfold create_dir. apply ends_bind.
  eapply ends_mono; [by apply (check_name_conflict_spec Hg Hsz fuel st F D h dir cs fl nm)| |by intros e st' (-> & ? & ?)].
  intros [] st1 [Hnm Hf1]. cbn beta.
  destruct (lfn_sequence_ok nm sfn_new Hchar sfn_new_ok) as (r & Hr & Hes); [discriminate|reflexivity|].
  rewrite Hr. apply (runs_ends_bind _ _ _ (fun a b => a = r /\ b = st1)); [done|]. intros ? ? [-> ->].
  pose proof (lfn_sequence_storable _ _ _ Hr) as Hst.
  destruct r as [es|]; [|apply ends_fail; split_and!; [done|by intros [? ?]%Hst|done]]. pose proof (proj1 Hst ltac:(by eexists)) as Hstore. destruct (Hes es eq_refl) as (pre & sfn' & -> & Hoks & Hsame & Hrd).
  apply ends_bind. eapply ends_mono; [by apply (with_fat_allocate Hg Hsz st1 F D h)| |by intros e st' (-> & ? & ?); auto].
  intros c st2 [Hf2 (Hav & Hun & _)]. cbn beta zeta.
  set (up := if dir =? root_dir_cluster bs then None else Some dir).
  destruct (write_first_entries st2 _ D h c up Hf2 Hav) as (hd & -> & Hwrite).
  apply (runs_ends_bind _ _ _ (fun a b => a = hd /\ b = st2)); [done|]. intros ? ? [-> ->].
  eapply runs_ends_bind; [exact Hwrite|]. intros [] st3 (D3 & Hf3 & Ho3 & Hx3).
  rewrite set_last_dir_snoc. set (sfn := set_cluster (Some c) (set_is_directory true sfn')).
  apply (runs_ends_bind _ _ _ (fun a b => a = pre ++ [Sfn sfn] /\ b = st3)); [done|]. intros ? ? [-> ->].
  assert (Hvol : is_volume_id sfn' = false).
  { unfold same_but_name in Hsame. apply (f_equal is_volume_id) in Hsame. exact Hsame. }
  apply Forall_app in Hoks as [Hpre Hlast]. apply Forall_cons in Hlast as [Hlast _].
  destruct (dir_entry_ok c sfn' Hlast Hvol) as (Hok & Hid & Hdd & Hcc).
  { pose proof (g_max _ _ Hg). unfold available in Hav. lia. }
  pose proof Hdir as (Hch & _). pose proof (slots_fuel _ _ _ Hch).
  eapply ends_mono; [apply (insert_spec Hg Hsz fuel st3 (<[c := UsedEoc]> F) D3 h dir cs fl (pre ++ [Sfn sfn]) nm sfn); try done| |].
  - eapply directory_frame; [exact Hdir|]. intros x Hx.
    assert (x <> c) by (intros ->; by apply (is_chain_used _ _ _ _ Hch Hx)). by rewrite fn_lookup_insert_ne, Hx3.
  - apply Forall_app. split; [done|]. by apply Forall_singleton.
  - apply (read_sequence_id _ _ sfn'); [done|]. by apply Hrd.
  - lia.
  - intros [] st4 Hi. split; [done|]. split; [done|]. by eapply inserted_made.
  - intros e st4 (-> & Hcr). split; [done|]. split; [done|]. right. by eapply crowded_leaked.
Qed.

(** [C40]. A new directory is listed in its parent under its name, among the files there
    were, and is empty; the table and the contents of all other clusters in use are as before. A name that is taken, or that cannot
    be stored, is refused and changes nothing. The only other error is [Full]: either no cluster was free, and nothing has changed, or the last free cluster has been
    taken for the new directory and the entries of its name do not fit into the parent. The parent then lists the files there were and at most
    the new directory besides, and all clusters in use outside of it are as before. *)
Theorem create_dir_listed fuel st F D h dir cs fl nm :
  fs st F D h -> directory (bs := bs) F D dir cs fl -> Forall is_char nm -> is_dots nm = false ->
  last nm <> Some 0 -> last nm <> Some 0xffff -> (dir_fuel (bs := bs) <= fuel)%nat ->
  ends (create_dir bs fuel dir nm ;;; list_files bs fuel dir) st
    (fun l st' => (nm ∉ f_name <$> fl) /\ storable nm /\
       exists f1 f f2 c, fl = f1 ++ f2 /\ l = f1 ++ f :: f2 /\ f_name f = nm /\ as_dir f = Some c /\
       runs (list_files bs fuel c) st' (fun l' _ => l' = []) /\
       exists F' D', fs st' F' D' h /\ unchanged F D F' D' cs)
    (fun e st' => match e with
       | FileAlreadyExists => nm ∈ f_name <$> fl /\ fs st' F D h
       | InvalidFileName => (nm ∉ f_name <$> fl) /\ ~ storable nm /\ fs st' F D h
       | Full => (nm ∉ f_name <$> fl) /\ storable nm /\ (no_free (bs := bs) F /\ fs st' F D h \/ leaked fuel F D h dir cs fl nm st')
       | _ => False
       end).
Proof.
  intros Hf Hdir Hchar Hdots Hz Hffff Hfuel. apply ends_bind.
  eapply ends_mono; [by apply (create_dir_spec fuel st F D h dir cs fl nm)| |done].
  intros [] st1 (Hnot & Hst & F' & D' & cs' & f & f1 & f2 & c & Hf1 & -> & (Hch & Ht & _) & Hn & Has & (Hchc & Htc & _) & _ & Hframe).
  cbn beta. apply ends_runs.
  eapply runs_mono; [by apply (list_files_spec Hg Hsz fuel st1 F' D' h dir cs' _ Hf1 Hch (tidy_scan _ _ _ Ht))|].
  intros l st2 [-> Hf2]. split; [done|]. split; [done|]. exists f1, f, f2, c. unfold shown. rewrite Hn, Hdots. split_and!; try done; [|by exists F', D'].
  eapply runs_mono; [by apply (list_files_spec Hg Hsz fuel st2 F' D' h c [c] _ Hf2 Hchc (tidy_scan _ _ _ Htc))|]. by intros l' st3 [-> _].
Qed.

End moving.

(** ** Concrete moves *)

Module Demo.

(** The empty directory in cluster 5 beside the root directory. *)
Lemma demo_empty_directory : directory (bs := demo_bs) (dir_F demo_entries) (dir_D demo_entries) 5 [5] [].
Proof.
  assert (Hw : walk (dir_D demo_entries) (slots demo_bs [5]) = [(5, 0, UnusedTerminal)]) by (vm_compute; reflexivity).
  split; [apply chain_end; [vm_compute; split; discriminate|vm_compute; reflexivity]|]. rewrite Hw. split.
  - apply tidy_terminal.
  - exists [], 5, 0. split; [reflexivity|]. apply Forall_nil_2.
Qed.

Lemma letter_ok c : 32 <= c <= 126 -> entry_ok (letter c).
Proof.
  intros Hc. split; [|split; [unfold at_, index; simpl; lia|discriminate]]. destruct sfn_new_ok. split; try done. split; [done|].
  apply Forall_cons_2; [unfold unsigned; lia|]. apply Forall_replicate. unfold unsigned. lia.
Qed.

Lemma demo_plain : plain (bs := demo_bs) (dir_D demo_entries) [2].
Proof.
  unfold plain. rewrite demo_walk.
  repeat apply Forall_cons_2; try apply Forall_nil_2; try exact I; apply letter_ok; lia.
Qed.

Lemma mv_moves_file_witness :
  runs (mv demo_bs (Z.to_nat 4000) (letter_file 66 2) (Some 5) (Some [90]) ;;; list_both (bs := demo_bs) (Z.to_nat 4000) 2 5)
    (demo_dir demo_entries)
    (fun r st' => r.1 = [letter_file 65 0] ++ [] /\
       (exists e1 f' e2, [] = e1 ++ e2 /\ r.2 = e1 ++ f' :: e2 /\ f_name f' = [90] /\
          same_but_name (f_sfn (letter_file 66 2)) (f_sfn f')) /\
       exists F' D', fs_rep demo_bs (n := 64) (sz := 512) st' F' D' (fun _ => 0%nat) /\
         unchanged (dir_F demo_entries) (dir_D demo_entries) F' D' [2; 5]).
Proof.
  eapply runs_mono; [eapply ends_returns; [apply (mv_moves_file demo_bs_geometry eq_refl (Z.to_nat 4000) _ _ _ _ 2 [2] [letter_file 65 0] (letter_file 66 2) [] 5 [5] []
    (Some [90]) (demo_rep demo_chain _) demo_directory demo_plain eq_refl demo_empty_directory); try reflexivity; try discriminate|vm_compute; reflexivity]|].
  - intros x ->%list_elem_of_singleton ?%list_elem_of_singleton. done.
  - apply Forall_cons_2; [unfold is_char; lia|apply Forall_nil_2].
  - apply Nat.leb_le. vm_compute. reflexivity.
  - intros r st' (_ & _ & Hr). exact Hr.
Defined.

Lemma mv_renames_file_witness :
  runs (mv demo_bs (Z.to_nat 4000) (letter_file 66 2) None (Some [90]) ;;; list_files demo_bs (Z.to_nat 4000) 2)
    (demo_dir demo_entries)
    (fun l _ => exists g1 f' g2, [letter_file 65 0] ++ [] = g1 ++ g2 /\ l = g1 ++ f' :: g2 /\ f_name f' = [90]).
Proof.
  eapply runs_mono; [eapply ends_returns; [apply (mv_renames_file demo_bs_geometry eq_refl (Z.to_nat 4000) _ _ _ _ 2 [2] [letter_file 65 0] (letter_file 66 2) []
    [90] (demo_rep demo_chain _) demo_directory demo_plain eq_refl); try reflexivity; try discriminate|vm_compute; reflexivity]|].
  - apply Forall_cons_2; [unfold is_char; lia|apply Forall_nil_2].
  - apply Nat.leb_le. vm_compute. reflexivity.
  - intros l st' [(g1 & f' & g2 & ? & ? & ? & _) _]. exists g1, f', g2. done.
Defined.

Lemma create_dir_listed_witness :
  runs (create_dir demo_bs (Z.to_nat 4000) 2 [67; 68] ;;; list_files demo_bs (Z.to_nat 4000) 2) (demo_dir demo_entries)
    (fun l st' => exists f1 f f2 c, [letter_file 65 0; letter_file 66 2] = f1 ++ f2 /\ l = f1 ++ f :: f2 /\
       f_name f = [67; 68] /\ as_dir f = Some c /\ runs (list_files demo_bs (Z.to_nat 4000) c) st' (fun l' _ => l' = [])).
Proof.
  eapply runs_mono; [eapply ends_returns; [apply (create_dir_listed demo_bs_geometry eq_refl (Z.to_nat 4000) _ _ _ _ 2 [2] _ [67; 68]
    (demo_rep demo_chain _) demo_directory); try reflexivity; try discriminate|vm_compute; reflexivity]|].
  - repeat apply Forall_cons_2; try apply Forall_nil_2; unfold is_char; lia.
  - apply Nat.leb_le. vm_compute. reflexivity.
  - intros l st' (_ & _ & f1 & f & f2 & c & ? & ? & ? & ? & ? & _). exists f1, f, f2, c. done.
Defined.

(** A volume without free clusters: the file A in the root directory, and 15 files in the directory of cluster 5. *)
Definition full_volume : BufferedVolume RamVolume :=
  new_volume (demo_volume (0x0ffffff8 :: replicate 127 0x0fffffff)
    [(2, into_bytes (letter 65)); (5, mjoin (into_bytes <$> (letter <$> seqZ 66 15)))]).

(** When the entries do not fit into the directory and the volume is full, [mv]
    returns [Full] after it has cleared the old entries: the file is in neither directory. *)
Theorem mv_full_loses_file : exists st l1 l2 st',
  mv demo_bs 200 (letter_file 65 0) (Some 5) (Some [65; 98; 99]) full_volume = (Err Full, st) /\
  (exists st0, list_files demo_bs 200 2 full_volume = (Ok [letter_file 65 0], st0)) /\
  list_both (bs := demo_bs) 200 2 5 st = (Ok (l1, l2), st') /\ l1 = [] /\ f_name <$> l2 = (fun c => [c]) <$> seqZ 66 15.
Proof.
  eexists _, _, _, _. split; [vm_compute; reflexivity|]. split; [eexists; vm_compute; reflexivity|].
  split; [vm_compute; reflexivity|]. split; vm_compute; reflexivity.
Qed.

(** A volume with one free cluster, and room for one entry in the root directory. *)
Definition tight_volume : BufferedVolume RamVolume :=
  new_volume (demo_volume (0x0ffffff8 :: replicate 9 0x0fffffff ++ 0 :: replicate 117 0x0fffffff)
    [(2, mjoin (into_bytes <$> (letter <$> seqZ 65 15)))]).

(** [create_dir] takes the cluster of the new directory before it inserts the
    entries; when these need a cluster as well and there is none, it returns [Full] and the
    first cluster stays allocated although no directory refers to it. *)
Theorem create_dir_full_leaks : exists st l st',
  create_dir demo_bs 200 2 [65; 98; 99] tight_volume = (Err Full, st) /\
  (exists st0, with_fat (fat_allocate demo_bs) tight_volume = (Ok 10, st0)) /\
  list_files demo_bs 200 2 st = (Ok l, st') /\ f_name <$> l = (fun c => [c]) <$> seqZ 65 15 /\
  (with_fat (fat_allocate demo_bs) st').1 = Err Full.
Proof.
  eexists _, _, _. split; [vm_compute; reflexivity|]. split; [eexists; vm_compute; reflexivity|].
  split; [vm_compute; reflexivity|]. split; vm_compute; reflexivity.
Qed.

End Demo.
