(* ===== verification/FatRemove.v ===== *)
(** * Removing directories (src/ors-kernel/src/fs/fat.rs)

    What [File::remove] does to a directory: with [recursive] the files below it
    are removed while the directory is iterated over, and exactly the clusters of the
    whole tree are freed; without it a directory that has a file is refused. *)

From S2P Require Import Prelude Volume BootSector FatEntry DirEntry LowLevel Fat FatFiles FatDirs.
Local Open Scope Z_scope.
Local Open Scope rust_scope.

Section removing.
Context {St : Type} `{SectorCacheLaws St n sz} {bs : BootSector}
  (Hg : geometry bs n) (Hsz : sz = bpb_byts_per_sec bs).
Implicit Types (st : St) (F : Z -> FatEntry) (D : Z -> list Z) (h : counts).

Abbreviation fs st := (fs_rep bs (St := St) (n := n) (sz := sz) st).

(** The loop of [remove] over the files of a directory. *)
Definition remove_files (rm : File -> M St Error unit) (recursive : bool) (fuel : nat) :=
  fix remove_files (k : nat) (dir : Z) (cur : cursor) : M St Error unit :=
    match k with
    | O => mdiverge
    | S k =>
        '(o, cur) <- dir_iter_next bs fuel dir cur None ;;
        match o with
        | None => drop_cursor cur
        | Some file =>
            (if recursive then mcleanup (rm file) (drop_cursor cur)
             else drop_cursor cur ;;; mfail DirectoryNotEmpty) ;;;
            remove_files k dir cur
        end
    end.

Lemma remove_unfold fuel recursive f : remove bs (S fuel) recursive f =
  (match as_dir f with
   | Some dir => cur <- munwrap (files bs dir) ;; remove_files (remove bs fuel true) recursive fuel fuel dir cur
   | None => ret tt
   end ;;; unlink (bs := bs) fuel f).
Proof. reflexivity. Qed.

(** [f] is the root of a tree at most [n] high, all of whose clusters are [used]. *)
Fixpoint tree (n : nat) F D (f : File) (used : list Z) : Prop :=
  match n with
  | O => False
  | S n => exists fcs, writable (bs := bs) F f fcs /\
      match as_dir f with
      | None => used = fcs
      | Some d => exists fl uss, directory (bs := bs) F D d fcs fl /\ Forall2 (tree n F D) fl uss /\
          NoDup (fcs ++ mjoin uss) /\ used = fcs ++ mjoin uss
      end
  end.

(** ** What a tree depends on *)

Lemma writable_frame F F' f fcs : writable (bs := bs) F f fcs ->
  (forall x, x ∈ fcs -> F' x = F x) -> F' (slot_of f).1 = F (slot_of f).1 -> writable (bs := bs) F' f fcs.
Proof.
  unfold writable, slot_of. destruct (f_last_entry f) as [[e kd] id]. cbn [fst snd].
  intros (? & ? & ? & ? & ? & Hc) HF Hkd. rewrite Hkd. split_and!; try done; try tauto.
  destruct fcs as [|k fcs]; [done|]. destruct Hc. split; [done|]. eapply is_chain_ext; [done|]. intros x Hx. by apply HF.
Qed.

Lemma directory_slot F D d dcs fl f : directory (bs := bs) F D d dcs fl -> f ∈ fl -> (slot_of f).1 ∈ dcs.
Proof.
  intros (Hch & Ht & _) Hin. apply list_elem_of_split in Hin as (f1 & f2 & ->).
  destruct (tidy_pick _ _ _ Ht f1 f f2 eq_refl) as (l1 & g & l2 & nm & sfn & Hwalk & Hr & Hfg & _).
  assert (Hgne : g <> []) by (by intros ->).
  destruct (group_slots F D dcs l1 g l2 d nm sfn Hwalk Hgne Hch) as (ks & i_s & ke & ie & a_s & ae & [] & Hle & _).
  rewrite <- Hfg in Hle. unfold slot_of. rewrite Hle. by apply list_elem_of_lookup_2 with ae.
Qed.

Lemma tree_frame k : forall F D F' D' f used, tree k F D f used ->
  (forall x, x ∈ used -> F' x = F x /\ D' x = D x) -> F' (slot_of f).1 = F (slot_of f).1 -> tree k F' D' f used.
Proof.
  induction k as [|k IH]; [done|]. intros F D F' D' f used (fcs & Hw & Hd) Hx Hs. exists fcs. destruct (as_dir f) as [d|].
  - destruct Hd as (fl & uss & Hdir & Hall & Hnd & ->). split.
    { eapply writable_frame; [done| |done]. intros x Hin. apply Hx. set_solver. }
    exists fl, uss. split_and!; try done.
    { eapply directory_frame; [done|]. intros x Hin. apply Hx. set_solver. }
    apply Forall2_same_length_lookup. split; [by eapply Forall2_length|]. intros i f' us Hf' Hus.
    apply (IH F D); [by eapply Forall2_lookup_lr| |].
    + intros x Hin. apply Hx, elem_of_app. right. apply list_elem_of_join. exists us. split; [done|]. by eapply list_elem_of_lookup_2.
    + apply Hx, elem_of_app. left. eapply directory_slot; [done|]. by eapply list_elem_of_lookup_2.
  - subst used. split; [|done]. eapply writable_frame; [done| |done]. intros x Hin. by apply Hx.
Qed.

(** The cursor of a directory, while other chains change. *)
Lemma cursor_slots_frame F F' d dcs k cur rem : cursor_slots (bs := bs) F cur rem -> cursor_at k cur -> k ∈ dcs ->
  is_chain bs F d dcs -> (forall x, x ∈ dcs -> F' x = F x) -> cursor_slots (bs := bs) F' cur rem.
Proof.
  destruct cur as [[c i]|]; [|done]. cbn [cursor_slots cursor_at]. intros (Hok & Hi & cs & Hch & ->) <- Hk Hd HF.
  destruct (is_chain_suffix _ _ _ _ Hd Hk) as (l1 & l2 & -> & Hl2). rewrite (is_chain_fun _ _ _ _ Hl2 Hch) in *.
  split_and!; try done; try lia. exists cs. split; [|done]. eapply is_chain_ext; [done|]. intros x Hx. apply HF. set_solver.
Qed.

Lemma walk_entries D D' l : (forall k i, (k, i) ∈ l -> entry_at D' k i = entry_at D k i) -> walk D' l = walk D l.
Proof.
  induction l as [|[k i] l IH]; intros Hl; [done|]. cbn [walk]. rewrite IH by (intros k' i' Hin; apply (Hl k' i'); by right).
  by rewrite (Hl k i) by (by left).
Qed.

(** What was cleared up to the last slot seen is not in front of the cursor. *)
Lemma unlinked_rest D D' cs f p m seen rem : NoDup (slots bs cs) -> slots bs cs = seen ++ rem -> last seen = Some (slot_of f) ->
  overwritten D D' (slots bs cs) p (replicate (S m) DirEntry.Unused) -> slots bs cs !! (p + m)%nat = Some (slot_of f) ->
  walk D' rem = walk D rem.
Proof.
  intros Hnd Hs Hl Ho Hat. rewrite last_lookup in Hl. pose proof (lookup_lt_Some _ _ _ Hl).
  assert (Hl' : slots bs cs !! Nat.pred (length seen) = Some (slot_of f)) by (by rewrite Hs, lookup_app_l).
  pose proof (NoDup_lookup _ _ _ _ Hnd Hat Hl') as Hpm. apply walk_entries. intros k i Hin. apply list_elem_of_lookup in Hin as [q Hq].
  rewrite (Ho (length seen + q)%nat k i) by (by rewrite Hs, lookup_app_r, Nat.add_sub_swap, Nat.sub_diag by lia).
  rewrite decide_False; [done|]. rewrite length_replicate. lia.
Qed.

Lemma free_all_app F l1 l2 x : free_all (free_all F l1) l2 x = free_all F (l1 ++ l2) x.
Proof. unfold free_all. repeat case_decide; set_solver. Qed.

Lemma free_all_outside F l x : x ∉ l -> free_all F l x = F x.
Proof. intros Hx. unfold free_all. by rewrite decide_False. Qed.

(** ** [remove] with [recursive] *)

Definition removes (k : nat) : Prop := forall fuel st F D h dir cs f1 f f2 used,
  fs st F D h -> directory (bs := bs) F D dir cs (f1 ++ f :: f2) -> tree k F D f used ->
  (forall x, x ∈ used -> x ∉ cs) -> (dir_fuel (bs := bs) + k <= fuel)%nat ->
  runs (remove bs fuel true f) st (fun _ st' => exists D', unlinked (bs := bs) F D h dir cs f (f1 ++ f2) used (cs ++ used) D' st').

Lemma remove_files_spec k : removes k -> forall fl uss turns fuel st F D h d dcs cur seen rem,
  fs st F D (own h (cursor_last cur)) -> directory (bs := bs) F D d dcs fl -> cursor_slots (bs := bs) F cur rem ->
  slots bs dcs = seen ++ rem -> scan d Init None (walk D rem) = Some fl -> Forall2 (tree k F D) fl uss ->
  NoDup (dcs ++ mjoin uss) -> (length fl < turns)%nat -> (dir_fuel (bs := bs) + k <= fuel)%nat ->
  runs (remove_files (remove bs fuel true) true fuel turns d cur) st (fun _ st' => exists D',
    fs st' (free_all F (mjoin uss)) D' h /\ forall x, x ∉ dcs ++ mjoin uss -> D' x = D x).
Proof.
  intros Hrm. induction fl as [|f fl IH]; intros uss [|turns] fuel st F D h d dcs cur seen rem Hf Hdir Hcur Hsl Hs Hall Hnd Ht Hfuel;
    try (simpl in Ht; lia).
  all: pose proof Hdir as (Hch & _); pose proof (slots_fuel _ _ _ Hch) as Hfu; rewrite Hsl, length_app in Hfu.
  all: cbn [remove_files]; (eapply runs_bind; [apply (dir_iter_next_spec Hg Hsz fuel st F D h d cur rem _ Hf Hcur Hs); lia|]).
  all: intros [o cur'] st' (Hf' & seen' & rem' & -> & Hcur' & Ho); cbn [fst snd] in *; destruct o as [f'|]; try done.
  - by destruct Ho as (? & ? & _).
  - apply Forall2_nil_inv_l in Hall as ->. eapply runs_mono; [exact (drop_cursor_spec _ _ _ _ _ Hf')|]. intros [] st2 Hf2. exists D.
    split; [|done]. eapply fs_rep_ext; [exact Hf2| |done|done]. intros x _. by rewrite free_all_outside by set_solver.
  - destruct Ho as (l' & [= <- <-] & Hs' & Hlast & Hat). apply Forall2_cons_inv_l in Hall as (us & uss' & Htf & Hall & ->).
    change (mjoin (us :: uss')) with (us ++ mjoin uss') in *.
    apply NoDup_app in Hnd as (Hndd & Hdis & Hnd'). apply NoDup_app in Hnd' as (_ & Hdis' & Hndu).
    assert (Hsd : (slot_of f).1 ∈ dcs) by (eapply directory_slot; [done|by left]).
    eapply runs_bind; [apply runs_cleanup, (Hrm fuel st' F D _ d dcs [] f fl us Hf' Hdir Htf); [set_solver|lia]|].
    intros [] st1 (D1 & [Hf1 Hdir1 Hx1 (p & m & Ho & Hpm)]). cbn [app] in Hdir1.
    assert (HF1 : forall x, x ∈ dcs -> free_all F us x = F x) by (intros x Hx; apply free_all_outside; set_solver).
    eapply runs_mono; [eapply (IH uss' turns fuel st1 (free_all F us) D1 h d dcs cur' (seen ++ seen') rem'); try done; try (simpl in Ht; lia)|].
    + by eapply cursor_slots_frame.
    + by rewrite <- app_assoc.
    + rewrite (unlinked_rest D D1 dcs f p m (seen ++ seen') rem'); try done; [by apply slots_NoDup|by rewrite <- app_assoc|].
      by rewrite last_app, Hlast.
    + apply Forall2_same_length_lookup. split; [by eapply Forall2_length|]. intros i f' us' Hf'' Hus.
      assert (Hsub : forall x, x ∈ us' -> x ∈ mjoin uss')
        by (intros x Hx; apply list_elem_of_join; exists us'; split; [done|by eapply list_elem_of_lookup_2]).
      apply (tree_frame k F D); [by eapply Forall2_lookup_lr| |].
      * intros x Hx. pose proof (Hsub x Hx). split; [apply free_all_outside|apply Hx1]; set_solver.
      * apply HF1. eapply directory_slot; [exact Hdir1|]. by eapply list_elem_of_lookup_2.
    + apply NoDup_app. set_solver.
    + intros [] st2 (D2 & Hf2 & Hx2). exists D2. split.
      * eapply fs_rep_ext; [exact Hf2| |done|done]. intros x _. apply free_all_app.
      * intros x Hx. rewrite Hx2 by set_solver. apply Hx1. set_solver.
Qed.

(** The file itself, after [inner] has been freed and emptied. *)
Lemma unlink_after fuel st F D h dir cs f1 f f2 fcs inner D1 :
  directory (bs := bs) F D dir cs (f1 ++ f :: f2) -> writable (bs := bs) F f fcs -> NoDup (fcs ++ inner) ->
  (forall x, x ∈ fcs ++ inner -> x ∉ cs) -> (dir_fuel (bs := bs) <= fuel)%nat ->
  fs st (free_all F inner) D1 h -> (forall x, x ∉ fcs ++ inner -> D1 x = D x) ->
  runs (unlink (bs := bs) fuel f) st (fun _ st' => exists D',
    unlinked (bs := bs) F D h dir cs f (f1 ++ f2) (fcs ++ inner) (cs ++ fcs ++ inner) D' st').
Proof.
  intros Hdir Hw Hnd Hdis Hfuel Hf1 Hx1. pose proof Hdir as (Hch & _). apply NoDup_app in Hnd as (_ & Hnd & _).
  assert (Hcs : forall x, x ∈ cs -> free_all F inner x = F x /\ D1 x = D x)
    by (intros x Hx; split; [apply free_all_outside|apply Hx1]; set_solver).
  assert (Hsl : (slot_of f).1 ∈ cs) by (eapply directory_slot; [done|set_solver]).
  assert (Hfree : forall x, free_all (free_all F inner) fcs x = free_all F (fcs ++ inner) x)
    by (intros x; rewrite free_all_app; unfold free_all; repeat case_decide; set_solver).
  eapply runs_mono; [apply (unlink_spec Hg Hsz fuel st (free_all F inner) D1 h dir cs f1 f f2 fcs); try done|].
  - by eapply directory_frame.
  - eapply writable_frame; [done| |by apply Hcs]. intros x Hx. apply free_all_outside. by apply Hnd.
  - set_solver.
  - intros [] st' (D' & [Hf2 Hdir2 Hx2 (p & m & Ho & Hpm)]). exists D'. split.
    + eapply fs_rep_ext; [exact Hf2| |done|done]. intros x _. apply Hfree.
    + eapply directory_frame; [exact Hdir2|]. intros x _. by rewrite Hfree.
    + intros x Hx. rewrite Hx2 by set_solver. apply Hx1. set_solver.
    + exists p, m. split; [|done]. intros q k i Hq. rewrite (Ho q k i Hq). case_decide; [done|].
      apply list_elem_of_lookup_2, slots_elem in Hq as [Hk _]. unfold entry_at. by rewrite (proj2 (Hcs k Hk)).
Qed.

Lemma files_open F D d dcs fl : directory (bs := bs) F D d dcs fl -> exists cur,
  files bs d = Some cur /\ cursor_slots (bs := bs) F cur (slots bs dcs) /\ cursor_last cur = None /\
  scan d Init None (walk D (slots bs dcs)) = Some fl /\ (length fl < dir_fuel (bs := bs))%nat.
Proof.
  intros (Hch & Ht & _). destruct (is_chain_head _ _ _ Hch) as [dcs' ->].
  destruct (dir_entries_spec Hg F d dcs' Hch) as (cur & ? & ? & ?). exists cur. pose proof (tidy_length _ _ _ Ht).
  pose proof (walk_length D (slots bs (d :: dcs'))). pose proof (slots_fuel _ _ _ Hch). split_and!; try done; [by apply tidy_scan|lia].
Qed.

Lemma remove_spec k : removes k.
Proof.
  induction k as [|k IH]; intros fuel st F D h dir cs f1 f f2 used Hf Hdir Ht Hdis Hfuel; [done|].
  destruct Ht as (fcs & Hw & Hd). destruct fuel as [|fuel]; [lia|]. rewrite remove_unfold. destruct (as_dir f) as [d|] eqn:Hfd.
  - destruct Hd as (fl & uss & Hdd & Hall & Hnd & ->). destruct (files_open _ _ _ _ _ Hdd) as (cur & Hcur & Hcs & Hcl & Hs & Hlen).
    rewrite Hcur. eapply runs_bind.
    + apply (runs_bind _ _ _ (fun a b => a = cur /\ b = st)); [done|]. intros ? ? [-> ->].
      apply (remove_files_spec k IH fl uss fuel fuel st F D h d fcs cur [] (slots bs fcs)); try done; try lia. by rewrite Hcl.
    + intros [] st1 (D1 & Hf1 & Hx1). apply (unlink_after fuel st1 F D h dir cs f1 f f2 fcs (mjoin uss) D1); try done; lia.
  - subst used. apply (runs_bind _ _ _ (fun _ b => b = st)); [done|]. intros [] ? ->.
    eapply runs_mono; [apply (unlink_spec Hg Hsz fuel st F D h dir cs f1 f f2 fcs); try done; lia|].
    intros [] st' (D' & [Hf2 Hdir2 Hx2 Ho]). exists D'. split; try done. intros x Hx. apply Hx2. set_solver.
Qed.

(** ** [remove] without [recursive] *)

(** [f] is the entry of the directory [d], which has the clusters [dcs] and the files [fl]. *)
Definition directory_file F D f d dcs fl : Prop :=
  as_dir f = Some d /\ writable (bs := bs) F f dcs /\ directory (bs := bs) F D d dcs fl.

Lemma remove_files_flat turns fuel st F D h d dcs fl cur rm :
  fs st F D (own h (cursor_last cur)) -> is_chain bs F d dcs -> cursor_slots (bs := bs) F cur (slots bs dcs) ->
  scan d Init None (walk D (slots bs dcs)) = Some fl -> (dir_fuel (bs := bs) <= fuel)%nat ->
  ends (remove_files rm false fuel (S turns) d cur) st
    (fun _ st' => fl = [] /\ fs st' F D h) (fun e st' => fl <> [] /\ e = DirectoryNotEmpty /\ fs st' F D h).
Proof.
  intros Hf Hch Hcur Hs Hfuel. pose proof (slots_fuel _ _ _ Hch). cbn [remove_files]. apply ends_bind, ends_runs.
  eapply runs_mono; [apply (dir_iter_next_spec Hg Hsz fuel st F D h d cur _ _ Hf Hcur Hs); lia|].
  intros [o cur'] st' (Hf' & seen & rem' & _ & _ & Ho). cbn [fst snd] in *. destruct o as [f|].
  - destruct Ho as (l' & -> & _). apply ends_bind, ends_bind, ends_runs.
    eapply runs_mono; [exact (drop_cursor_spec _ _ _ _ _ Hf')|]. intros [] st2 Hf2. by apply ends_fail.
  - apply ends_runs. eapply runs_mono; [exact (drop_cursor_spec _ _ _ _ _ Hf')|]. by intros [] st2 Hf2.
Qed.

Lemma remove_flat_spec fuel st F D h dir cs f1 f f2 d dcs fl :
  fs st F D h -> directory (bs := bs) F D dir cs (f1 ++ f :: f2) -> directory_file F D f d dcs fl ->
  (forall x, x ∈ dcs -> x ∉ cs) -> (dir_fuel (bs := bs) < fuel)%nat ->
  ends (remove bs fuel false f) st
    (fun _ st' => fl = [] /\ exists D', unlinked (bs := bs) F D h dir cs f (f1 ++ f2) dcs cs D' st')
    (fun e st' => fl <> [] /\ e = DirectoryNotEmpty /\ fs st' F D h).
Proof.
  intros Hf Hdir (Hfd & Hw & Hdd) Hdis Hfuel. destruct fuel as [|[|fuel]]; [lia|unfold dir_fuel in Hfuel; lia|].
  rewrite remove_unfold, Hfd. destruct (files_open _ _ _ _ _ Hdd) as (cur & Hcur & Hcs & Hcl & Hs & _). rewrite Hcur.
  apply ends_bind, ends_bind, ends_runs. apply (runs_mono _ _ (fun a b => a = cur /\ b = st)); [done|]. intros ? ? [-> ->].
  eapply ends_mono; [apply (remove_files_flat fuel (S fuel) st F D h d dcs fl cur); try done; [by rewrite Hcl|apply Hdd|lia]| |done].
  intros [] st1 [-> Hf1]. apply ends_runs.
  eapply runs_mono; [apply (unlink_spec Hg Hsz (S fuel) st1 F D h dir cs f1 f f2 dcs); try done; lia|]. done.
Qed.

End removing.

(** ** Removing directories *)

Section claims.
Context {St : Type} `{SectorCacheLaws St n sz} {bs : BootSector}
  (Hg : geometry bs n) (Hsz : sz = bpb_byts_per_sec bs).
Implicit Types (st : St) (F : Z -> FatEntry) (D : Z -> list Z) (h : counts).

Abbreviation fs st := (fs_rep bs (St := St) (n := n) (sz := sz) st).

(** [C38]. Removing a file or a directory with everything below
    it, while the entries are being iterated over, succeeds; it frees exactly the clusters of
    the whole tree, a listing of the parent afterwards returns the other files in their
    order, and clusters outside the parent and the tree keep their contents. *)
Theorem remove_tree_frees k fuel st F D h dir cs f1 f f2 used :
  fs st F D h -> directory (bs := bs) F D dir cs (f1 ++ f :: f2) -> tree (bs := bs) k F D f used ->
  (forall x, x ∈ used -> x ∉ cs) -> (dir_fuel (bs := bs) + k <= fuel)%nat ->
  runs (remove bs fuel true f ;;; list_files bs fuel dir) st (fun l st' => l = f1 ++ f2 /\
    exists D', fs st' (free_all F used) D' h /\ forall x, x ∉ cs -> x ∉ used -> D' x = D x).
Proof.
  intros Hf Hdir Ht Hdis Hfuel. eapply runs_bind; [by apply (remove_spec Hg Hsz k fuel st F D h dir cs f1 f f2 used)|].
  intros [] st1 (D' & [Hf1 (Hch & Ht' & _) Hx _]).
  eapply runs_mono; [apply (list_files_spec Hg Hsz fuel st1 _ D' h dir cs _ Hf1 Hch (tidy_scan _ _ _ Ht')); lia|].
  intros l st2 [-> Hf2]. split; [done|]. exists D'. split; [done|]. intros x H1 H2. apply Hx. set_solver.
Qed.

(** Without [recursive], a directory is removed exactly when it
    has no files, and its clusters are freed; otherwise the call returns
    [DirectoryNotEmpty], nothing is changed and no sector stays referenced. *)
Theorem remove_dir_flat fuel st F D h dir cs f1 f f2 d dcs fl :
  fs st F D h -> directory (bs := bs) F D dir cs (f1 ++ f :: f2) -> directory_file (bs := bs) F D f d dcs fl ->
  (forall x, x ∈ dcs -> x ∉ cs) -> (dir_fuel (bs := bs) < fuel)%nat ->
  ends (remove bs fuel false f ;;; list_files bs fuel dir) st
    (fun l st' => fl = [] /\ l = f1 ++ f2 /\
       exists D', fs st' (free_all F dcs) D' h /\ forall x, x ∉ cs -> D' x = D x)
    (fun e st' => fl <> [] /\ e = DirectoryNotEmpty /\ fs st' F D h).
Proof.
  intros Hf Hdir Hd Hdis Hfuel. apply ends_bind.
  eapply ends_mono; [by apply (remove_flat_spec Hg Hsz fuel st F D h dir cs f1 f f2 d dcs fl)| |done].
  intros [] st1 [-> (D' & [Hf1 (Hch & Ht' & _) Hx _])]. apply ends_runs.
  eapply runs_mono; [apply (list_files_spec Hg Hsz fuel st1 _ D' h dir cs _ Hf1 Hch (tidy_scan _ _ _ Ht')); lia|].
  intros l st2 [-> Hf2]. split_and!; try done. by exists D'.
Qed.

End claims.

(** ** A directory with a directory in it *)

Module Demo.

(** The root directory holds the directory S in the clusters 3, 5, and the file A; S holds the
    directory T in cluster 6 and the file B in cluster 7, and T an empty file C. *)
Definition tree_chain : list Z := demo_chain ++ [0x0fffffff; 0x0fffffff].

Definition dir_sfn (c k : Z) : SfnEntry := set_cluster (Some k) (set_is_directory true (with_name (c :: replicate 10 32) sfn_new)).
Definition file_sfn (c k : Z) : SfnEntry := set_cluster (Some k) (with_name (c :: replicate 10 32) sfn_new).

Definition tree_contents : list (Z * list Z) :=
  [(2, mjoin (into_bytes <$> [Sfn (dir_sfn 83 3); letter 65]));
   (3, mjoin (into_bytes <$> [Sfn (current (Some 3)); Sfn (parent None); Sfn (dir_sfn 84 6); Sfn (file_sfn 66 7)]));
   (6, mjoin (into_bytes <$> [Sfn (current (Some 6)); Sfn (parent (Some 3)); letter 67]))].

Abbreviation tree_fs := (new_volume (demo_volume tree_chain tree_contents)).
Abbreviation tree_F := (demo_fat tree_chain tree_contents).
Abbreviation tree_D := (demo_data tree_chain tree_contents).

Definition entry_file (dir i c : Z) (e : SfnEntry) : File :=
  {| f_dir := dir; f_name := [c]; f_entry_location := (dir, i); f_last_entry := (e, dir, i) |}.

Definition S_file : File := entry_file 2 0 83 (dir_sfn 83 3).
Definition T_file : File := entry_file 3 2 84 (dir_sfn 84 6).
Definition B_file : File := entry_file 3 3 66 (file_sfn 66 7).
Definition C_file : File := entry_file 6 2 67 (with_name (67 :: replicate 10 32) sfn_new).

Lemma tidy_one dir k i nm e l fl : read_sequence Init [Sfn e] = Some (nm, e) -> tidy dir l fl ->
  tidy dir ((k, i, Sfn e) :: l) (shown (group_file dir [(k, i, Sfn e)] nm e) fl).
Proof. intros Hr Ht. by apply (tidy_group dir [(k, i, Sfn e)] nm e). Qed.

Lemma root_directory : directory (bs := demo_bs) tree_F tree_D 2 [2] ([] ++ S_file :: [letter_file 65 1]).
Proof.
  assert (Hw : walk tree_D (slots demo_bs [2]) = [(2, 0, Sfn (dir_sfn 83 3)); (2, 1, letter 65); (2, 2, UnusedTerminal)])
    by (vm_compute; reflexivity).
  split; [apply chain_end; [vm_compute; split; discriminate|vm_compute; reflexivity]|]. rewrite Hw. split.
  - apply (tidy_one 2 2 0 [83] _ _ [letter_file 65 1]); [reflexivity|]. apply (tidy_one 2 2 1 [65] _ _ []); [reflexivity|]. apply tidy_terminal.
  - eexists [_; _], 2, 2. split; [reflexivity|]. repeat apply Forall_cons_2; try apply Forall_nil_2; discriminate.
Qed.

Lemma S_chain : is_chain demo_bs tree_F 3 [3; 5].
Proof.
  eapply (chain_next _ _ 3 5); [vm_compute; split; discriminate|vm_compute; reflexivity|].
  apply chain_end; [vm_compute; split; discriminate|vm_compute; reflexivity].
Qed.

Lemma S_directory : directory (bs := demo_bs) tree_F tree_D 3 [3; 5] [T_file; B_file].
Proof.
  assert (Hw : walk tree_D (slots demo_bs [3; 5]) = [(3, 0, Sfn (current (Some 3))); (3, 1, Sfn (parent None));
    (3, 2, Sfn (dir_sfn 84 6)); (3, 3, Sfn (file_sfn 66 7)); (3, 4, UnusedTerminal)]) by (vm_compute; reflexivity).
  split; [exact S_chain|]. rewrite Hw. split.
  - apply (tidy_one 3 3 0 [46] _ _ [T_file; B_file]); [reflexivity|]. apply (tidy_one 3 3 1 [46; 46] _ _ [T_file; B_file]); [reflexivity|].
    apply (tidy_one 3 3 2 [84] _ _ [B_file]); [reflexivity|]. apply (tidy_one 3 3 3 [66] _ _ []); [reflexivity|]. apply tidy_terminal.
  - eexists [_; _; _; _], 3, 4. split; [reflexivity|]. repeat apply Forall_cons_2; try apply Forall_nil_2; discriminate.
Qed.

Lemma T_directory : directory (bs := demo_bs) tree_F tree_D 6 [6] [C_file].
Proof.
  assert (Hw : walk tree_D (slots demo_bs [6]) = [(6, 0, Sfn (current (Some 6))); (6, 1, Sfn (parent (Some 3)));
    (6, 2, letter 67); (6, 3, UnusedTerminal)]) by (vm_compute; reflexivity).
  split; [apply chain_end; [vm_compute; split; discriminate|vm_compute; reflexivity]|]. rewrite Hw. split.
  - apply (tidy_one 6 6 0 [46] _ _ [C_file]); [reflexivity|]. apply (tidy_one 6 6 1 [46; 46] _ _ [C_file]); [reflexivity|].
    apply (tidy_one 6 6 2 [67] _ _ []); [reflexivity|]. apply tidy_terminal.
  - eexists [_; _; _], 6, 3. split; [reflexivity|]. repeat apply Forall_cons_2; try apply Forall_nil_2; discriminate.
Qed.

(** The parts of [writable] that do not depend on the chain. *)
Lemma entry_writable dir i c e cs : available demo_bs dir -> 0 <= i < 16 -> tree_F dir <> FatEntry.Unused -> dir ∉ cs ->
  entry_ok (Sfn e) ->
  match cs with [] => DirEntry.cluster e = None | k :: _ => DirEntry.cluster e = Some k /\ is_chain demo_bs tree_F k cs end ->
  writable (bs := demo_bs) tree_F (entry_file dir i c e) cs.
Proof. done. Qed.

Ltac entry_ok_tac :=
  split; [|vm_compute; repeat split; discriminate];
  split; try (split; [reflexivity|]); try (by apply unsignedb_spec); apply Forall_unsignedb; vm_compute; reflexivity.

Ltac writable_tac :=
  apply entry_writable; [vm_compute; split; discriminate|lia|vm_compute; discriminate|
    apply (bool_decide_eq_false_1 _); vm_compute; reflexivity|entry_ok_tac|].

Lemma S_writable : writable (bs := demo_bs) tree_F S_file [3; 5].
Proof. writable_tac. split; [vm_compute; reflexivity|exact S_chain]. Qed.

Lemma T_writable : writable (bs := demo_bs) tree_F T_file [6].
Proof. writable_tac. split; [vm_compute; reflexivity|apply T_directory]. Qed.

Lemma B_writable : writable (bs := demo_bs) tree_F B_file [7].
Proof.
  writable_tac. split; [vm_compute; reflexivity|]. apply chain_end; [vm_compute; split; discriminate|vm_compute; reflexivity].
Qed.

Lemma C_writable : writable (bs := demo_bs) tree_F C_file [].
Proof. writable_tac. vm_compute. reflexivity. Qed.

Lemma demo_tree : tree (bs := demo_bs) 3 tree_F tree_D S_file [3; 5; 6; 7].
Proof.
  exists [3; 5]. split; [exact S_writable|]. exists [T_file; B_file], [[6]; [7]].
  split; [exact S_directory|]. split; [|split; [apply (bool_decide_eq_true_1 _); vm_compute; reflexivity|reflexivity]].
  repeat apply Forall2_cons_2; [| |apply Forall2_nil_2].
  - exists [6]. split; [exact T_writable|]. exists [C_file], [[]]. split; [exact T_directory|].
    split; [|split; [apply (bool_decide_eq_true_1 _); vm_compute; reflexivity|reflexivity]].
    apply Forall2_cons_2; [|apply Forall2_nil_2]. exists []. split; [exact C_writable|reflexivity].
  - exists [7]. split; [exact B_writable|reflexivity].
Qed.

Lemma remove_tree_frees_witness :
  runs (remove demo_bs (Z.to_nat 4000) true S_file ;;; list_files demo_bs (Z.to_nat 4000) 2) tree_fs (fun l st' =>
    l = [letter_file 65 1] /\ exists D', fs_rep demo_bs (n := 64) (sz := 512) st' (free_all tree_F [3; 5; 6; 7]) D' (fun _ => 0%nat) /\
    forall x, x ∉ [2] -> x ∉ [3; 5; 6; 7] -> D' x = tree_D x).
Proof.
  apply (remove_tree_frees demo_bs_geometry eq_refl 3 (Z.to_nat 4000) _ _ _ _ 2 [2] [] S_file [letter_file 65 1] [3; 5; 6; 7]
    (demo_rep tree_chain tree_contents) root_directory demo_tree).
  - intros x Hx ->%list_elem_of_singleton. by rewrite !elem_of_cons, elem_of_nil in Hx; destruct_or!.
  - apply Nat.leb_le. vm_compute. reflexivity.
Defined.

Lemma remove_dir_flat_witness :
  ends (remove demo_bs (Z.to_nat 4000) false S_file ;;; list_files demo_bs (Z.to_nat 4000) 2) tree_fs (fun _ _ => False)
    (fun e st' => e = DirectoryNotEmpty /\ fs_rep demo_bs (n := 64) (sz := 512) st' tree_F tree_D (fun _ => 0%nat)).
Proof.
  eapply ends_mono; [apply (remove_dir_flat demo_bs_geometry eq_refl (Z.to_nat 4000) _ _ _ _ 2 [2] [] S_file [letter_file 65 1] 3 [3; 5]
    [T_file; B_file] (demo_rep tree_chain tree_contents) root_directory)| |].
  - split; [vm_compute; reflexivity|]. split; [exact S_writable|exact S_directory].
  - intros x Hx ->%list_elem_of_singleton. by rewrite !elem_of_cons, elem_of_nil in Hx; destruct_or!.
  - apply Nat.leb_le. vm_compute. reflexivity.
  - by intros l st' [? _].
  - by intros e st' (_ & ? & ?).
Defined.

End Demo.
