(* ===== verification/NonContiguous.v ===== *)
(** * Arrays with non-contiguous indices (src/ors-common/src/non_contiguous.rs)

    A hash table of a fixed number of buckets with open addressing and without
    removal. The index types are unsigned integers. [None] is a panic. *)

From stdpp Require Import gmap.
From S2P Require Import Prelude.
Local Open Scope Z_scope.

Section array.
Context {V : Type}.

Record Array := { len : Z; buckets : list (option (Z * V)) }.

Inductive BucketIndex := Vacant (index : nat) | Occupied (index : nat).

(** [Array::new] with [N] buckets. *)
Definition Array_new (N : nat) : Array := {| len := 0; buckets := replicate N None |}.

Definition Array_len (a : Array) : Z := len a.

Definition clear (a : Array) : Array := {| len := 0; buckets := (fun _ => None) <$> buckets a |}.

(** The loop of [bucket_index] over the offsets. *)
Fixpoint probe (bs : list (option (Z * V))) (i : Z) (offsets : list Z) : option (option BucketIndex) :=
  match offsets with
  | [] => Some None
  | offset :: offsets =>
      s ← add_checked 64 i offset;
      let index := Z.to_nat (s mod zlen bs) in
      bucket ← bs !! index;
      match bucket with
      | None => Some (Some (Vacant index))
      | Some (j, _) => if i =? j then Some (Some (Occupied index)) else probe bs i offsets
      end
  end.

Definition bucket_index (a : Array) (i : Z) : option (option BucketIndex) := probe (buckets a) i (seqZ 0 (zlen (buckets a))).

Definition get (a : Array) (i : Z) : option (option V) :=
  b ← bucket_index a i;
  match b with
  | Some (Occupied index) => bucket ← buckets a !! index; x ← bucket; Some (Some x.2)
  | _ => Some None
  end.

(** [get_mut] and a write of the value. *)
Definition set (a : Array) (i : Z) (v : V) : option Array :=
  b ← bucket_index a i;
  match b with
  | Some (Occupied index) => bucket ← buckets a !! index; x ← bucket; Some {| len := len a; buckets := <[index := Some (x.1, v)]> (buckets a) |}
  | _ => Some a
  end.

Definition insert (a : Array) (i : Z) (v : V) : option (option V * Array) :=
  b ← bucket_index a i;
  b ← b; (* expect: the array is full *)
  match b with
  | Vacant index => n ← add_checked 64 (len a) 1; Some (None, {| len := n; buckets := <[index := Some (i, v)]> (buckets a) |})
  | Occupied index =>
      bucket ← buckets a !! index; x ← bucket;
      Some (Some x.2, {| len := len a; buckets := <[index := Some (x.1, v)]> (buckets a) |})
  end.

(** [IntoIterator] *)
Definition into_iter (a : Array) : list (Z * V) := omap id (buckets a).

Fixpoint insert_all (a : Array) (kvs : list (Z * V)) : option Array :=
  match kvs with
  | [] => Some a
  | (i, v) :: kvs => '(_, a) ← insert a i v; insert_all a kvs
  end.

Definition from_iter (N : nat) (kvs : list (Z * V)) : option Array := insert_all (Array_new N) kvs.

(** ** Invariant *)

Definition slot (bs : list (option (Z * V))) (i o : Z) : nat := Z.to_nat ((i + o) mod zlen bs).

(** The array stands for the map [m]: every entry is in the first bucket of its
    probe sequence that other indices do not occupy. *)
Record arr_rep (a : Array) (m : gmap Z V) : Prop := {
  rep_sound : forall k i v, buckets a !! k = Some (Some (i, v)) -> m !! i = Some v /\ u32 i;
  rep_complete : forall i v, m !! i = Some v -> exists o, 0 <= o < zlen (buckets a) /\ buckets a !! slot (buckets a) i o = Some (Some (i, v)) /\
    forall p, 0 <= p < o -> exists j w, buckets a !! slot (buckets a) i p = Some (Some (j, w)) /\ j <> i;
  rep_unique : forall k k' i v v', buckets a !! k = Some (Some (i, v)) -> buckets a !! k' = Some (Some (i, v')) -> k = k';
  rep_len : len a = Z.of_nat (size m) /\ zlen (buckets a) < 2 ^ 32;
}.

(** ** Lemmas *)

Lemma slot_lt (bs : list (option (Z * V))) i o : 0 < zlen bs -> (slot bs i o < length bs)%nat.
Proof. intros Hb. unfold slot. pose proof (Z.mod_pos_bound (i + o) (zlen bs) Hb). lia. Qed.

(** The probe sequence visits every bucket. *)
Lemma slot_onto (bs : list (option (Z * V))) i (k : nat) : (k < length bs)%nat -> exists o, 0 <= o < zlen bs /\ slot bs i o = k.
Proof.
  intros Hk. set (n := zlen bs). assert (Hn : 0 < n) by (unfold n; lia). exists ((Z.of_nat k - i) mod n). pose proof (Z.mod_pos_bound (Z.of_nat k - i) n Hn). split; [done|].
  unfold slot. fold n. rewrite Zplus_mod_idemp_r. replace (i + (Z.of_nat k - i)) with (Z.of_nat k) by lia. rewrite Z.mod_small by (unfold n; lia). lia.
Qed.

(** What probing for an index finds, from the offset [o] on. *)
Lemma probe_spec (bs : list (option (Z * V))) i (n : nat) : u32 i -> zlen bs < 2 ^ 32 -> forall o, 0 <= o -> o + Z.of_nat n = zlen bs ->
  exists r, probe bs i (seqZ o (Z.of_nat n)) = Some r /\
  match r with
  | Some (Occupied k) => exists v q, o <= q < zlen bs /\ k = slot bs i q /\ bs !! k = Some (Some (i, v)) /\ forall p, o <= p < q -> exists j w, bs !! slot bs i p = Some (Some (j, w)) /\ j <> i
  | Some (Vacant k) => exists q, o <= q < zlen bs /\ k = slot bs i q /\ bs !! k = Some None /\ forall p, o <= p < q -> exists j w, bs !! slot bs i p = Some (Some (j, w)) /\ j <> i
  | None => forall p, o <= p < zlen bs -> exists j w, bs !! slot bs i p = Some (Some (j, w)) /\ j <> i
  end.
Proof.
  intros Hi Hb. unfold unsigned in Hi. induction n as [|n IH]; intros o Ho Hn.
  { exists None. split; [done|]. lia. }
  rewrite Nat2Z.inj_succ, seqZ_cons by lia. replace (Z.pred (Z.succ (Z.of_nat n))) with (Z.of_nat n) by lia. replace (Z.succ o) with (o + 1) by lia. cbn [probe].
  unfold add_checked. rewrite checked_Some by (unfold unsigned; lia). cbn [mbind option_bind]. fold (slot bs i o).
  destruct (lookup_lt_is_Some_2 bs (slot bs i o)) as [b Hbk]; [apply slot_lt; lia|]. rewrite Hbk. cbn [mbind option_bind]. destruct b as [[j w]|].
  2: { exists (Some (Vacant (slot bs i o))). split; [done|]. exists o. split; [lia|]. split; [done|]. split; [done|]. lia. }
  destruct (i =? j) eqn:Hij.
  { apply Z.eqb_eq in Hij. subst j. exists (Some (Occupied (slot bs i o))). split; [done|]. exists w, o. split; [lia|]. split; [done|]. split; [done|]. lia. }
  apply Z.eqb_neq in Hij. destruct (IH (o + 1)) as (r & -> & Hr); [lia|lia|]. exists r. split; [done|].
  assert (Hext : forall q, (forall p, o + 1 <= p < q -> exists j w, bs !! slot bs i p = Some (Some (j, w)) /\ j <> i) -> forall p, o <= p < q -> exists j w, bs !! slot bs i p = Some (Some (j, w)) /\ j <> i).
  { intros q Hq p Hp. destruct (decide (p = o)) as [->|]; [exists j, w; split; [done|by apply not_eq_sym]|apply Hq; lia]. }
  destruct r as [[k|k]|].
  - destruct Hr as (q & Hq & Hk & Hv & Hp). exists q. split; [lia|]. split; [done|]. split; [done|]. by apply Hext.
  - destruct Hr as (v & q & Hq & Hk & Hv & Hp). exists v, q. split; [lia|]. split; [done|]. split; [done|]. by apply Hext.
  - by apply Hext.
Qed.
Lemma omap_id_elem (bs : list (option (Z * V))) x : x ∈ omap id bs <-> exists k, bs !! k = Some (Some x).
Proof. rewrite list_elem_of_omap. setoid_rewrite list_elem_of_lookup. split; [intros (y & (k & Hk) & Hy); simpl in Hy; subst; by exists k|intros [k Hk]; eexists; split; [by exists k|done]]. Qed.

Lemma omap_id_NoDup (bs : list (option (Z * V))) : (forall k k' x, bs !! k = Some (Some x) -> bs !! k' = Some (Some x) -> k = k') -> NoDup (omap id bs).
Proof.
  induction bs as [|b bs IH]; intros Hu; [constructor|]. assert (Hbs : NoDup (omap id bs)) by (apply IH; intros k k' x Hk Hk'; specialize (Hu (S k) (S k') x Hk Hk'); lia).
  destruct b as [x|]; cbn [omap list_omap id]; [|done]. constructor; [|done]. intros (k & Hk)%omap_id_elem. specialize (Hu O (S k) x eq_refl Hk). lia.
Qed.

Lemma omap_id_length (bs : list (option (Z * V))) : (length (omap id bs) <= length bs)%nat /\ (length (omap id bs) = length bs <-> forall k, bs !! k <> Some None).
Proof.
  induction bs as [|b bs [IH1 IH2]]; [split; [done|]; split; [by intros _ k; rewrite lookup_nil|done]|]. destruct b as [x|]; cbn [omap list_omap id length].
  - split; [lia|]. split.
    + intros Hl [|k]; cbn [lookup list_lookup]; [done|]. apply IH2. lia.
    + intros Hk. f_equal. apply IH2. intros k. apply (Hk (S k)).
  - split; [lia|]. split; [lia|]. intros Hk. by destruct (Hk O).
Qed.

Lemma iter_perm a m : arr_rep a m -> into_iter a ≡ₚ map_to_list m.
Proof.
  intros [Hs Hc Hu _]. apply NoDup_Permutation; [|apply NoDup_map_to_list|].
  - apply omap_id_NoDup. intros k k' [i v]. by apply Hu.
  - intros [i v]. unfold into_iter. rewrite elem_of_map_to_list, omap_id_elem. split.
    + intros [k Hk]. by apply Hs in Hk as [? _].
    + intros Hm. destruct (Hc i v Hm) as (o & _ & Ho & _). by eexists.
Qed.

Lemma size_buckets a m : arr_rep a m -> (size m <= length (buckets a))%nat /\ (size m = length (buckets a) <-> forall k, buckets a !! k <> Some None).
Proof.
  intros Hr. assert (Hl : size m = length (omap id (buckets a))) by (rewrite <- length_map_to_list; by rewrite <- (Permutation_length (iter_perm a m Hr))).
  rewrite Hl. apply omap_id_length.
Qed.

Lemma bucket_index_spec a m i : arr_rep a m -> u32 i -> exists r, bucket_index a i = Some r /\
  match r with
  | Some (Occupied k) => exists v, m !! i = Some v /\ buckets a !! k = Some (Some (i, v))
  | Some (Vacant k) => m !! i = None /\ buckets a !! k = Some None /\ (size m < length (buckets a))%nat /\ exists q, 0 <= q < zlen (buckets a) /\ k = slot (buckets a) i q /\
      forall p, 0 <= p < q -> exists j w, buckets a !! slot (buckets a) i p = Some (Some (j, w)) /\ j <> i
  | None => m !! i = None /\ size m = length (buckets a)
  end.
Proof.
  intros Hr Hi. pose proof Hr as [Hs Hc Hu [Hlen Hlt]]. unfold bucket_index. destruct (probe_spec (buckets a) i (length (buckets a)) Hi Hlt 0) as (r & -> & Hp); [lia|lia|].
  exists r. split; [done|]. destruct r as [[k|k]|].
  - destruct Hp as (q & Hq & -> & Hk & Hp). split.
    + apply eq_None_not_Some. intros [v Hv]. destruct (Hc i v Hv) as (o & Ho & Hko & Hpo). destruct (decide (o < q)).
      * destruct (Hp o) as (j & w & Hj & Hne); [lia|]. congruence.
      * destruct (decide (o = q)) as [->|]; [congruence|]. destruct (Hpo q) as (j & w & Hj & _); [lia|]. congruence.
    + split; [done|]. split; [|by exists q]. destruct (size_buckets a m Hr) as [Hle Heq]. destruct (decide (size m = length (buckets a))) as [E|]; [|lia]. by destruct (proj1 Heq E (slot (buckets a) i q)).
  - destruct Hp as (v & q & Hq & -> & Hk & Hp). exists v. split; [|done]. by apply Hs in Hk as [? _].
  - split.
    + apply eq_None_not_Some. intros [v Hv]. destruct (Hc i v Hv) as (o & Ho & Hko & _). destruct (Hp o Ho) as (j & w & Hj & Hne). congruence.
    + apply size_buckets; [done|]. intros k Hk. destruct (slot_onto (buckets a) i k) as (o & Ho & <-); [by eapply lookup_lt_Some|]. destruct (Hp o Ho) as (j & w & Hj & _). congruence.
Qed.

Lemma slot_insert (bs : list (option (Z * V))) k b i o : slot (<[k := b]> bs) i o = slot bs i o.
Proof. unfold slot. by rewrite length_insert. Qed.

(** A value is replaced in place. *)
Lemma rep_replace a m k i v w : arr_rep a m -> buckets a !! k = Some (Some (i, v)) -> arr_rep {| len := len a; buckets := <[k := Some (i, w)]> (buckets a) |} (<[i := w]> m).
Proof.
  intros [Hs Hc Hu [Hlen Hlt]] Hk. destruct (Hs k i v Hk) as [Hm Hi]. assert (Hkl : (k < length (buckets a))%nat) by by eapply lookup_lt_Some. split; cbn [len buckets].
  - intros k' j x Hk'. apply list_lookup_insert_Some in Hk' as [(<- & [= <- <-] & _)|[Hne Hk']]; [by rewrite lookup_insert_eq|].
    destruct (Hs k' j x Hk') as [Hmj Hj]. rewrite lookup_insert_ne; [done|]. intros ->. by destruct Hne; eapply Hu.
  - rewrite length_insert. intros j x Hj. destruct (decide (j = i)) as [->|Hne].
    + rewrite lookup_insert_eq in Hj. injection Hj as <-. destruct (Hc i v Hm) as (o & Ho & Hko & Hp). exists o. rewrite slot_insert. split; [done|].
      assert (Ek : slot (buckets a) i o = k) by by eapply Hu. rewrite Ek. split; [by apply list_lookup_insert_eq|]. intros p Hpo. destruct (Hp p Hpo) as (j & y & Hj & Hne). exists j, y. split; [|done].
      rewrite slot_insert, list_lookup_insert_ne; [done|]. intros E. rewrite <- E in Hj. congruence.
    + rewrite lookup_insert_ne in Hj by done. destruct (Hc j x Hj) as (o & Ho & Hko & Hp). exists o. rewrite slot_insert. split; [done|]. split; [rewrite list_lookup_insert_ne; [done|]; intros E; rewrite <- E in Hko; congruence|].
      intros p Hpo. rewrite slot_insert. destruct (Hp p Hpo) as (j' & y & Hj' & Hne'). destruct (decide (slot (buckets a) j p = k)) as [E|].
      * rewrite E in *. exists i, w. split; [by apply list_lookup_insert_eq|by apply not_eq_sym].
      * exists j', y. split; [|done]. by rewrite list_lookup_insert_ne.
  - intros k1 k2 j x y H1 H2. apply list_lookup_insert_Some in H1 as [(<- & E1 & _)|[Hne1 H1]]; apply list_lookup_insert_Some in H2 as [(<- & E2 & _)|[Hne2 H2]]; simplify_eq; [done| | |]; by eapply Hu.
  - rewrite length_insert. split; [|done]. rewrite map_size_insert_Some by done. done.
Qed.

(** A vacant bucket takes a new index. *)
Lemma rep_vacant a m k i v q : arr_rep a m -> u32 i -> m !! i = None -> buckets a !! k = Some None -> 0 <= q < zlen (buckets a) -> k = slot (buckets a) i q ->
  (forall p, 0 <= p < q -> exists j w, buckets a !! slot (buckets a) i p = Some (Some (j, w)) /\ j <> i) ->
  arr_rep {| len := len a + 1; buckets := <[k := Some (i, v)]> (buckets a) |} (<[i := v]> m).
Proof.
  intros [Hs Hc Hu [Hlen Hlt]] Hi Hm Hk Hq Ekq Hpq. assert (Hkl : (k < length (buckets a))%nat) by by eapply lookup_lt_Some.
  assert (Hother : forall k' j x, buckets a !! k' = Some (Some (j, x)) -> j <> i) by (intros k' j x Hk' ->; apply Hs in Hk' as [? _]; congruence).
  assert (Hkeep : forall k' x, buckets a !! k' = Some (Some x) -> <[k := Some (i, v)]> (buckets a) !! k' = Some (Some x)) by (intros k' x Hk'; rewrite list_lookup_insert_ne; [done|congruence]).
  split; cbn [len buckets].
  - intros k' j x Hk'. apply list_lookup_insert_Some in Hk' as [(<- & [= <- <-] & _)|[Hne Hk']]; [by rewrite lookup_insert_eq|].
    rewrite lookup_insert_ne by (apply not_eq_sym; by eapply Hother). by eapply Hs.
  - rewrite length_insert. intros j x Hj. destruct (decide (j = i)) as [->|Hne].
    + rewrite lookup_insert_eq in Hj. injection Hj as <-. exists q. rewrite slot_insert, <- Ekq. split; [done|]. split; [by apply list_lookup_insert_eq|].
      intros p Hp. destruct (Hpq p Hp) as (j & w & Hj & Hne). exists j, w. rewrite slot_insert. auto.
    + rewrite lookup_insert_ne in Hj by done. destruct (Hc j x Hj) as (o & Ho & Hko & Hp). exists o. rewrite slot_insert. split; [done|]. split; [by apply Hkeep|].
      intros p Hpo. destruct (Hp p Hpo) as (j' & w & Hj' & Hne'). exists j', w. rewrite slot_insert. auto.
  - intros k1 k2 j x y H1 H2. apply list_lookup_insert_Some in H1 as [(<- & E1 & _)|[Hne1 H1]]; apply list_lookup_insert_Some in H2 as [(<- & E2 & _)|[Hne2 H2]]; simplify_eq; [done| | |by eapply Hu].
    + by destruct (Hother _ _ _ H2).
    + by destruct (Hother _ _ _ H1).
  - rewrite length_insert. split; [|done]. rewrite map_size_insert_None by done. lia.
Qed.

Lemma get_spec a m i : arr_rep a m -> u32 i -> get a i = Some (m !! i).
Proof.
  intros Hr Hi. unfold get. destruct (bucket_index_spec a m i Hr Hi) as (r & -> & Hb). cbn [mbind option_bind]. destruct r as [[k|k]|].
  - by destruct Hb as [-> _].
  - destruct Hb as (v & -> & ->). done.
  - by destruct Hb as [-> _].
Qed.

Lemma set_rep a m i v : arr_rep a m -> u32 i -> exists a', set a i v = Some a' /\ arr_rep a' (if m !! i is Some _ then <[i := v]> m else m) /\ length (buckets a') = length (buckets a).
Proof.
  intros Hr Hi. unfold set. destruct (bucket_index_spec a m i Hr Hi) as (r & -> & Hb). cbn [mbind option_bind]. destruct r as [[k|k]|].
  - destruct Hb as [-> _]. by exists a.
  - destruct Hb as (w & -> & Hk). rewrite Hk. cbn [mbind option_bind]. eexists. split; [reflexivity|]. split; [by eapply rep_replace|]. cbn [buckets]. by rewrite length_insert.
  - destruct Hb as [-> _]. by exists a.
Qed.

Lemma insert_rep a m i v : arr_rep a m -> u32 i ->
  match insert a i v with
  | Some (old, a') => old = m !! i /\ arr_rep a' (<[i := v]> m) /\ length (buckets a') = length (buckets a)
  | None => m !! i = None /\ size m = length (buckets a)
  end.
Proof.
  intros Hr Hi. unfold insert. destruct (bucket_index_spec a m i Hr Hi) as (r & -> & Hb). cbn [mbind option_bind]. destruct r as [[k|k]|]; cbn [mbind option_bind].
  - destruct Hb as (Hm & Hk & Hsz & q & Hq & Ek & Hp). destruct (rep_len _ _ Hr) as [Hlen Hlt]. unfold add_checked. rewrite checked_Some by (unfold unsigned; lia). cbn [mbind option_bind].
    split; [done|]. split; [by eapply rep_vacant|]. cbn [buckets]. by rewrite length_insert.
  - destruct Hb as (w & Hm & Hk). rewrite Hk. cbn [mbind option_bind]. split; [done|]. split; [by eapply rep_replace|]. cbn [buckets]. by rewrite length_insert.
  - done.
Qed.

Lemma new_rep N : Z.of_nat N < 2 ^ 32 -> arr_rep (Array_new N) ∅.
Proof.
  intros HN. split; cbn [Array_new buckets len].
  - intros k i v Hk. by apply lookup_replicate in Hk as [? _].
  - intros i v Hm. by rewrite lookup_empty in Hm.
  - intros k k' i v v' Hk. by apply lookup_replicate in Hk as [? _].
  - rewrite map_size_empty, length_replicate. done.
Qed.

Lemma clear_rep a m : arr_rep a m -> arr_rep (clear a) ∅.
Proof.
  intros Hr. destruct (rep_len _ _ Hr) as [_ Hlt]. pose proof (new_rep (length (buckets a)) Hlt) as Hn. unfold clear, Array_new in *.
  by replace ((fun _ => None) <$> buckets a) with (replicate (length (buckets a)) (@None (Z * V))) by (clear; induction (buckets a); simpl; by f_equal).
Qed.

(** The map after insertions, of which the last for an index counts. *)
Definition insertions (m : gmap Z V) (kvs : list (Z * V)) : gmap Z V := foldl (fun m x => <[x.1 := x.2]> m) m kvs.

Lemma insertions_size kvs : forall m, (size m <= size (insertions m kvs))%nat.
Proof.
  induction kvs as [|x kvs IH]; intros m; [done|]. etrans; [|apply (IH (<[x.1 := x.2]> m))]. rewrite map_size_insert. destruct (m !! x.1); simpl; lia.
Qed.

Lemma insert_all_rep kvs : forall a m, arr_rep a m -> Forall (fun x => u32 x.1) kvs -> (size (insertions m kvs) <= length (buckets a))%nat ->
  exists a', insert_all a kvs = Some a' /\ arr_rep a' (insertions m kvs) /\ length (buckets a') = length (buckets a).
Proof.
  induction kvs as [|[i v] kvs IH]; intros a m Hr Hk Hsz; cbn [insert_all]; [by exists a|].
  apply Forall_cons in Hk as [Hi Hk]. cbn [fst] in Hi. change (insertions m ((i, v) :: kvs)) with (insertions (<[i := v]> m) kvs) in *.
  pose proof (insert_rep a m i v Hr Hi) as Hin. destruct (insert a i v) as [[old a1]|] eqn:E.
  - destruct Hin as (_ & Hr1 & Hl1). cbn [mbind option_bind]. destruct (IH a1 (<[i := v]> m) Hr1 Hk) as (a2 & E2 & Hr2 & Hl2); [lia|]. exists a2. split; [done|]. split; [done|]. lia.
  - destruct Hin as [Hm Hfull]. exfalso. pose proof (insertions_size kvs (<[i := v]> m)) as Hle. rewrite map_size_insert_None in Hle by done. lia.
Qed.

End array.

Arguments Array V : clear implicits.

(** ** Properties *)

(** [C25]. An array implements a finite map as long as no more indices are inserted
    than it has buckets: after any insertions, lookups give the last value inserted
    for an index and nothing for other indices, the length is the number of indices,
    and iterating gives every entry once. Another index that is inserted into a full array is
    the only panic. *)
Theorem array_refines_map {V : Type} (N : nat) (kvs : list (Z * V)) (m : gmap Z V) :
  m = insertions ∅ kvs -> Z.of_nat N < 2 ^ 32 -> Forall (fun x => u32 x.1) kvs -> (size m <= N)%nat ->
  exists a, from_iter N kvs = Some a /\ (forall i, u32 i -> get a i = Some (m !! i)) /\ len a = Z.of_nat (size m) /\ into_iter a ≡ₚ map_to_list m /\
    forall i v, u32 i -> insert a i v = None <-> m !! i = None /\ size m = N.
Proof.
  intros -> HN Hk Hsz. destruct (insert_all_rep kvs (Array_new N) ∅ (new_rep N HN) Hk) as (a & E & Hr & Hl); [cbn [Array_new buckets]; by rewrite length_replicate|].
  cbn [Array_new buckets] in Hl. rewrite length_replicate in Hl. exists a. split; [exact E|]. split; [intros i Hi; by apply get_spec|]. split; [by destruct (rep_len _ _ Hr)|]. split; [by apply iter_perm|].
  intros i v Hi. pose proof (insert_rep a _ i v Hr Hi) as Hin. pose proof (bucket_index_spec a _ i Hr Hi) as (r & Eb & Hb). destruct (insert a i v) as [[old a']|] eqn:Ei.
  - split; [done|]. intros [Hm Hfull]. unfold insert in Ei. rewrite Eb in Ei. cbn [mbind option_bind] in Ei. destruct r as [[k|k]|]; [|destruct Hb as (w & Hw & _); congruence|done].
    destruct Hb as (_ & _ & Hlt & _). lia.
  - split; [|done]. intros _. by rewrite <- Hl.
Qed.

(** ** Witnesses *)

Lemma array_refines_map_witness : exists a : Array Z, from_iter 4 [(1, 10); (5, 20); (1, 30); (9, 40)] = Some a /\ get a 1 = Some (Some 30) /\ get a 9 = Some (Some 40) /\ get a 2 = Some None /\ len a = 3.
Proof.
  destruct (array_refines_map 4 [(1, 10); (5, 20); (1, 30); (9, 40)] (insertions ∅ [(1, 10); (5, 20); (1, 30); (9, 40)]) eq_refl) as (a & E & Hg & Hl & _);
    [simpl; lia|repeat constructor; simpl; lia|vm_compute; lia|].
  exists a. split; [exact E|]. rewrite !Hg by (unfold unsigned; lia). rewrite Hl. vm_compute. done.
Defined.
