(* ===== verification/Cpu.v ===== *)
(** * Interrupt locks (src/ors-kernel/src/cpu.rs, src/ors-kernel/src/interrupts.rs)

    The part of the state of a CPU that [Cli] works on: the depth of nested
    locks, whether interrupts were already disabled outside of them, and the
    interrupt flag of the processor. *)

From stdpp Require Import gmap.
From S2P Require Import Prelude NonContiguous.
Local Open Scope Z_scope.

Record CpuThreadState := { ncli : Z; zcli : bool }.

#[export] Instance CpuThreadState_eq_dec : EqDecision CpuThreadState.
Proof. solve_decision. Defined.

(** [CpuThreadState::new] *)
Definition cts_new : CpuThreadState := {| ncli := 0; zcli := false |}.

(** A processor: the thread state of its [CpuState] and its interrupt flag. *)
Record Hart := { thread_state : CpuThreadState; enabled : bool }.

#[export] Instance Hart_eq_dec : EqDecision Hart.
Proof. solve_decision. Defined.

(** [Cli::new]; [None] is the overflow of the depth. *)
Definition cli_new (h : Hart) : option Hart :=
  let cli := negb (enabled h) in
  let ts := thread_state h in
  d ← add_checked 32 (ncli ts) 1;
  Some {| thread_state := {| ncli := d; zcli := if ncli ts =? 0 then cli else zcli ts |}; enabled := false |}.

(** [Drop for Cli]; [None] is the failed assertion or the underflow. *)
Definition cli_drop (h : Hart) : option Hart :=
  if enabled h then None
  else
    let ts := thread_state h in
    d ← sub_checked 32 (ncli ts) 1;
    Some {| thread_state := {| ncli := d; zcli := zcli ts |}; enabled := (d =? 0) && negb (zcli ts) |}.

(** ** Nested locks *)

Inductive bracket := Acquire | Drop.

Definition apply_bracket (b : bracket) (h : Hart) : option Hart :=
  match b with Acquire => cli_new h | Drop => cli_drop h end.

(** The states a sequence of operations goes through. *)
Fixpoint run_brackets (l : list bracket) (h : Hart) : option (list Hart) :=
  match l with
  | [] => Some []
  | b :: l => h' ← apply_bracket b h; hs ← run_brackets l h'; Some (h' :: hs)
  end.

(** The depth after a sequence that starts at depth [d]; [None] when it drops
    a lock that is not held. *)
Fixpoint depth (d : nat) (l : list bracket) : option nat :=
  match l with
  | [] => Some d
  | Acquire :: l => depth (S d) l
  | Drop :: l => match d with S d => depth d l | O => None end
  end.

(** Inside a lock interrupts are disabled. *)
Definition consistent (h : Hart) : Prop :=
  0 <= ncli (thread_state h) < 2 ^ 32 /\ (0 < ncli (thread_state h) -> enabled h = false).

(** [h] with [d] more locks than [h0]. *)
Definition nested (h0 : Hart) (d : nat) (h : Hart) : Prop :=
  ncli (thread_state h) = ncli (thread_state h0) + Z.of_nat d /\
  enabled h = (if decide (d = 0%nat) then enabled h0 else false) /\
  (if decide (ncli (thread_state h0) = 0) then d <> 0%nat -> zcli (thread_state h) = negb (enabled h0)
   else zcli (thread_state h) = zcli (thread_state h0)).

Lemma nested_new h0 d h :
  consistent h0 -> nested h0 d h -> ncli (thread_state h) + 1 < 2 ^ 32 ->
  exists h', cli_new h = Some h' /\ nested h0 (S d) h'.
Proof.
  intros [Hc He] (Hn & Hen & Hz) Hb. unfold cli_new, add_checked. rewrite checked_Some by (unfold unsigned; lia). simpl.
  eexists. split; [done|]. unfold nested. cbn [thread_state ncli zcli enabled]. split; [lia|]. split; [done|].
  rewrite Hn. destruct (decide (ncli (thread_state h0) = 0)) as [H0|H0].
  - intros _. rewrite H0. destruct (decide (d = 0%nat)) as [->|Hd].
    + simpl. by rewrite Hen.
    + rewrite (proj2 (Z.eqb_neq _ _)) by lia. by apply Hz.
  - rewrite (proj2 (Z.eqb_neq _ _)) by lia. done.
Qed.

Lemma nested_drop h0 d h :
  consistent h0 -> nested h0 (S d) h -> ncli (thread_state h) < 2 ^ 32 -> exists h', cli_drop h = Some h' /\ nested h0 d h'.
Proof.
  intros [Hc He] (Hn & Hen & Hz) Hb. unfold cli_drop, sub_checked. rewrite Hen. simpl.
  rewrite checked_Some by (unfold unsigned; lia). simpl. eexists. split; [done|].
  unfold nested. cbn [thread_state ncli zcli enabled]. split; [lia|]. rewrite Hn.
  destruct (decide (ncli (thread_state h0) = 0)) as [H0|H0].
  - rewrite (Hz ltac:(done)), negb_involutive, H0. split; [|done]. destruct (decide (d = 0%nat)) as [->|Hd]; [done|].
    by rewrite (proj2 (Z.eqb_neq _ _)) by lia.
  - split; [|done]. rewrite (proj2 (Z.eqb_neq _ _)) by lia. destruct (decide (d = 0%nat)); [|done]. symmetry. apply He. lia.
Qed.

Lemma run_brackets_nested h0 l : consistent h0 -> forall d h d',
  nested h0 d h -> depth d l = Some d' -> ncli (thread_state h0) + Z.of_nat d + zlen l < 2 ^ 32 ->
  exists hs, run_brackets l h = Some hs /\ nested h0 d' (default h (last hs)) /\
    forall i h', hs !! i = Some h' -> exists di, depth d (take (S i) l) = Some di /\ nested h0 di h'.
Proof.
  intros Hc. induction l as [|b l IH]; intros d h d' Hn Hd Hb; simpl in Hd.
  { simplify_eq. exists []. done. }
  pose proof Hn as (Hnc & _). simpl in Hb.
  assert (Hstep : exists d1 h1, apply_bracket b h = Some h1 /\ nested h0 d1 h1 /\ depth d1 l = Some d' /\
    (forall k, depth d (b :: k) = depth d1 k) /\ (d1 <= S d)%nat).
  { destruct b; simpl.
    - destruct (nested_new h0 d h Hc Hn) as (h1 & -> & ?); [lia|]. exists (S d), h1. split_and!; try done; lia.
    - destruct d as [|d]; [done|]. destruct (nested_drop h0 d h Hc Hn) as (h1 & -> & ?); [lia|]. exists d, h1.
      split_and!; try done. lia. }
  destruct Hstep as (d1 & h1 & Ha & Hn1 & Hd1 & Hk & Hle). cbn [run_brackets]. rewrite Ha. simpl.
  destruct (IH d1 h1 d' Hn1 Hd1) as (hs & -> & Hlast & Hall); [lia|]. simpl. exists (h1 :: hs). split; [done|]. split.
  - rewrite last_cons. by destruct (last hs).
  - intros [|i] h' Hi.
    + simpl in Hi. injection Hi as <-. exists d1. split; [|done]. exact (Hk []).
    + destruct (Hall i h' Hi) as (di & Hdi & ?). exists di. split; [|done]. rewrite <- Hdi. exact (Hk (take (S i) l)).
Qed.

(** Interrupt locks nest: along any well bracketed sequence
    of acquiring and dropping them no assertion fails, interrupts are disabled
    wherever a lock is held, and at the end the interrupt flag and the depth are
    what they were before, also when interrupts were disabled at the start. *)
Theorem cli_nesting (h : Hart) (l : list bracket) :
  consistent h -> depth 0 l = Some 0%nat -> ncli (thread_state h) + zlen l < 2 ^ 32 ->
  exists hs, run_brackets l h = Some hs /\ enabled (default h (last hs)) = enabled h /\
    ncli (thread_state (default h (last hs))) = ncli (thread_state h) /\
    forall i h' d, hs !! i = Some h' -> depth 0 (take (S i) l) = Some (S d) -> enabled h' = false.
Proof.
  intros Hc Hd Hb. assert (Hn : nested h 0 h) by (split_and!; [lia|done|by case_decide]).
  destruct (run_brackets_nested h l Hc 0 h 0 Hn Hd) as (hs & Hr & Hlast & Hall); [lia|]. exists hs.
  destruct Hlast as (Hnc & Hen & _). split_and!; try done; [lia|]. intros i h' d Hi Hdep.
  destruct (Hall i h' Hi) as (di & Hdi & Hni). assert (di = S d) as -> by congruence. by destruct Hni as (_ & -> & _).
Qed.

Lemma cli_nesting_witness :
  let h := {| thread_state := cts_new; enabled := true |} in
  exists hs, run_brackets [Acquire; Acquire; Drop; Drop] h = Some hs /\ enabled (default h (last hs)) = true /\
    ncli (thread_state (default h (last hs))) = 0 /\
    forall i h' d, hs !! i = Some h' -> depth 0 (take (S i) [Acquire; Acquire; Drop; Drop]) = Some (S d) -> enabled h' = false.
Proof.
  apply (cli_nesting {| thread_state := cts_new; enabled := true |} [Acquire; Acquire; Drop; Drop]).
  - split; [simpl; lia|]. simpl. lia.
  - reflexivity.
  - simpl. lia.
Defined.

(** ** Processors *)

(** What the ACPI tables say about the processors. *)
Record ProcessorInfo := { boot_processor : Z; application_processors : list Z }.

Section Cpus.
(** The state of a CPU behind its mutex. *)
Context {CpuState : Type}.

Record SystemInfo := { boot_strap_lapic_id : Z; application_cpu_state : Array CpuState }.

(** The closure of [initialize]; [None] is the panic of a full array. *)
Definition system_info (st : CpuState) (p : ProcessorInfo) : option SystemInfo :=
  a ← from_iter 64 ((fun id => (id, st)) <$> application_processors p);
  Some {| boot_strap_lapic_id := boot_processor p; application_cpu_state := a |}.

Inductive CpuKind := BootStrap (id : option Z) | Application (id : Z).

(** [Cpu::current] on the processor whose LAPIC reads [id]. *)
Definition current (info : option SystemInfo) (id : Z) : CpuKind :=
  match info with
  | Some info => if id =? boot_strap_lapic_id info then BootStrap (Some id) else Application id
  | None => BootStrap None
  end.

Definition boot_strap : CpuKind := BootStrap None.

Definition cpu_list (info : option SystemInfo) : list CpuKind :=
  BootStrap None :: match info with Some info => (fun x => Application x.1) <$> into_iter (application_cpu_state info) | None => [] end.

Definition lapic_id (info : option SystemInfo) (c : CpuKind) : option Z :=
  match c with
  | BootStrap (Some id) => Some id
  | BootStrap None => boot_strap_lapic_id <$> info
  | Application id => Some id
  end.

(** The mutex that [Cpu::state] refers to. *)
Inductive StateRef := BOOT_STRAP_CPU_STATE | CpuStateOf (index : nat).

(** [None]: the processor is not known. *)
Definition state (info : option SystemInfo) (c : CpuKind) : option StateRef :=
  match c with
  | BootStrap _ => Some BOOT_STRAP_CPU_STATE
  | Application id =>
      info ← info;
      b ← bucket_index (application_cpu_state info) id;
      match b with Some (Occupied k) => Some (CpuStateOf k) | _ => None end
  end.
End Cpus.

Lemma insertions_app {V : Type} (v : V) ids m i : insertions m ((fun id => (id, v)) <$> ids) !! i = if decide (i ∈ ids) then Some v else m !! i.
Proof.
  revert m. induction ids as [|j ids IH]; intros m; [done|]. change (insertions m ((fun id => (id, v)) <$> (j :: ids))) with (insertions (<[j := v]> m) ((fun id => (id, v)) <$> ids)).
  rewrite IH. destruct (decide (i ∈ ids)) as [Hin|Hin]; [rewrite decide_True by (by right); done|]. destruct (decide (i = j)) as [->|Hne].
  - rewrite decide_True by (by left). by rewrite lookup_insert_eq.
  - rewrite lookup_insert_ne by done. rewrite decide_False; [done|]. by rewrite not_elem_of_cons.
Qed.

Lemma insertions_dom_size {V : Type} (v : V) ids : NoDup ids -> size (insertions ∅ ((fun id => (id, v)) <$> ids)) = length ids /\ (map_to_list (insertions ∅ ((fun id => (id, v)) <$> ids))).*1 ≡ₚ ids.
Proof.
  intros Hnd. set (m := insertions ∅ ((fun id => (id, v)) <$> ids)). assert (Hp : (map_to_list m).*1 ≡ₚ ids).
  { apply NoDup_Permutation; [apply NoDup_fst_map_to_list|done|]. intros i. rewrite list_elem_of_fmap. split.
    - intros ([j w] & -> & Hj%elem_of_map_to_list). unfold m in Hj. rewrite insertions_app in Hj. by destruct (decide (j ∈ ids)).
    - intros Hi. exists (i, v). split; [done|]. apply elem_of_map_to_list. unfold m. rewrite insertions_app. by rewrite decide_True. }
  split; [|done]. rewrite <- length_map_to_list, <- (length_fmap fst). by rewrite Hp.
Qed.

(** Every processor has a state of its own. When the tables name up to 64
    application processors besides the boot processor, initialization succeeds; after
    it each processor finds a state, two processors find different ones, the boot
    processor finds the one it used before, and the list of CPUs names every
    processor once. *)
Theorem cpu_states_distinct {CpuState : Type} (st : CpuState) (p : ProcessorInfo) (ids : list Z) :
  ids = boot_processor p :: application_processors p -> NoDup ids -> Forall (unsigned 32) ids -> (length (application_processors p) <= 64)%nat ->
  exists info, system_info st p = Some info /\
    (forall i, i ∈ ids -> lapic_id (Some info) (current (Some info) i) = Some i /\ exists r, state (Some info) (current (Some info) i) = Some r /\
       forall j, j ∈ ids -> state (Some info) (current (Some info) j) = Some r -> i = j) /\
    state (Some info) (current (Some info) (boot_processor p)) = state (CpuState := CpuState) None (current (CpuState := CpuState) None (boot_processor p)) /\
    omap (lapic_id (Some info)) (cpu_list (Some info)) ≡ₚ ids.
Proof.
  intros -> Hnd Hu Hle. apply NoDup_cons in Hnd as [Hb Hnd]. apply Forall_cons in Hu as [Hub Hua]. destruct (insertions_dom_size st _ Hnd) as [Hsz Hdom].
  set (kvs := (fun id => (id, st)) <$> application_processors p) in *.
  assert (Hk : Forall (fun x => u32 x.1) kvs) by (apply Forall_fmap; done).
  destruct (insert_all_rep kvs (Array_new 64) ∅ (new_rep 64 ltac:(done)) Hk) as (a & E & Hr & Hl); [cbn [Array_new buckets]; rewrite length_replicate; lia|].
  unfold system_info, from_iter. fold kvs. rewrite E. cbn [mbind option_bind]. eexists. split; [reflexivity|]. set (info := {| boot_strap_lapic_id := _; application_cpu_state := a |}).
  assert (Hocc : forall i, i ∈ application_processors p -> exists k v, state (Some info) (current (Some info) i) = Some (CpuStateOf k) /\ buckets a !! k = Some (Some (i, v))).
  { intros i Hi. unfold current. cbn [boot_strap_lapic_id info]. destruct (Z.eqb_spec i (boot_processor p)) as [->|Hne]; [done|]. cbn [state]. cbn [mbind option_bind application_cpu_state info].
    assert (Hui : u32 i) by (rewrite Forall_forall in Hua; by apply Hua). destruct (bucket_index_spec a _ i Hr Hui) as (r & -> & Hbk). cbn [mbind option_bind].
    assert (Him : insertions ∅ kvs !! i = Some st) by (unfold kvs; rewrite insertions_app; by rewrite decide_True).
    destruct r as [[k|k]|]; [destruct Hbk as [? _]; congruence|destruct Hbk as (v & _ & Hk'); by exists k, v|destruct Hbk as [? _]; congruence]. }
  assert (Hboot : current (Some info) (boot_processor p) = BootStrap (Some (boot_processor p))) by (unfold current; cbn [boot_strap_lapic_id info]; by rewrite Z.eqb_refl).
  split; [|split; [by rewrite Hboot|]].
  - intros i Hi. split; [unfold current; by destruct (i =? boot_strap_lapic_id info)|]. apply elem_of_cons in Hi as [->|Hi].
    + exists BOOT_STRAP_CPU_STATE. rewrite Hboot. split; [done|]. intros j [->|Hj]%elem_of_cons Hs; [done|]. destruct (Hocc j Hj) as (k & v & Ek & _). congruence.
    + destruct (Hocc i Hi) as (k & v & Ek & Hk1). exists (CpuStateOf k). split; [done|]. intros j [->|Hj]%elem_of_cons Hs; [rewrite Hboot in Hs; done|].
      destruct (Hocc j Hj) as (k' & v' & Ek' & Hk2). rewrite Ek' in Hs. injection Hs as ->. rewrite Hk1 in Hk2. by injection Hk2.
  - unfold cpu_list. cbn [omap list_omap lapic_id fmap option_fmap option_map boot_strap_lapic_id info]. apply perm_skip. cbn [application_cpu_state].
    assert (Eo : forall l : list (Z * CpuState), omap (lapic_id (Some info)) ((fun x => Application x.1) <$> l) = l.*1) by (induction l as [|x l IH]; [done|]; cbn [fmap list_fmap omap list_omap lapic_id]; by f_equal).
    rewrite Eo. etrans; [|exact Hdom]. apply fmap_Permutation, (iter_perm a _ Hr).
Qed.

Lemma cpu_states_distinct_witness : exists info, system_info tt {| boot_processor := 0; application_processors := [2; 66; 4] |} = Some info /\
  state (Some info) (current (Some info) 66) = Some (CpuStateOf 3).
Proof.
  destruct (cpu_states_distinct tt {| boot_processor := 0; application_processors := [2; 66; 4] |} [0; 2; 66; 4] eq_refl) as (info & E & _ & _ & _).
  - apply (bool_decide_unpack _). vm_compute. done.
  - repeat constructor; lia.
  - simpl. lia.
  - exists info. split; [exact E|]. vm_compute in E. injection E as <-. vm_compute. reflexivity.
Defined.
