(* ===== verification/Task.v ===== *)
(** * The task scheduler (src/ors-kernel/src/task.rs)

    [TaskQueue] as a record of the runnable queues (one per priority), the
    pending tasks, the wait channels and the timeouts, with one function per
    operation, and [TaskScheduler] as a transition system over the CPUs: the
    operations that hold the lock of the queue are the steps. A [BTreeMap] is a
    finite map and the [BinaryHeap] of [Reverse] keys an ascending list, whose head
    is what [peek] sees. A context is known by the id of its task. *)

From S2P Require Import Prelude.
Local Open Scope Z_scope.

Inductive Priority := L0 | L1 | L2 | L3.

#[export] Instance Priority_eq_dec : EqDecision Priority.
Proof. solve_decision. Defined.

Definition index (p : Priority) : nat :=
  match p with L0 => 0 | L1 => 1 | L2 => 2 | L3 => 3 end.

Definition MIN : Priority := L0.
Definition MAX : Priority := L3.
Definition SIZE : nat := 4.

Record Task := { t_id : Z; t_priority : Priority }.

#[export] Instance Task_eq_dec : EqDecision Task.
Proof. solve_decision. Defined.

Inductive Switch :=
| Blocked (chan : Z) (timeout : option Z)
| Sleep (ticks : Z)
| Yield.

(** [(deadline, pending id, channel)] *)
Definition Timeout : Type := Z * Z * option Z.

Record TaskQueue := {
  pending_id_gen : Z;
  runnable_tasks : list (list Task);
  pending_tasks : gmap Z Task;
  blocks : gmap Z (list Z);
  timeouts : list Timeout
}.

Definition queue_new : TaskQueue :=
  {| pending_id_gen := 0; runnable_tasks := replicate SIZE []; pending_tasks := ∅; blocks := ∅; timeouts := [] |}.

(** The order of the tuples, [None] before [Some]. *)
Definition timeout_leb (a b : Timeout) : bool :=
  let '(t1, i1, c1) := a in
  let '(t2, i2, c2) := b in
  if t1 =? t2 then
    if i1 =? i2 then match c1, c2 with None, _ => true | Some _, None => false | Some x, Some y => x <=? y end
    else i1 <? i2
  else t1 <? t2.

(** [BinaryHeap::push] *)
Fixpoint heap_push (x : Timeout) (l : list Timeout) : list Timeout :=
  match l with
  | [] => [x]
  | y :: l' => if timeout_leb x y then x :: l else y :: heap_push x l'
  end.

Definition with_runnable (r : list (list Task)) (q : TaskQueue) : TaskQueue :=
  {| pending_id_gen := pending_id_gen q; runnable_tasks := r; pending_tasks := pending_tasks q;
     blocks := blocks q; timeouts := timeouts q |}.

(** [self.runnable_tasks[task.priority().index()].push_back(task)], which is
    [enqueue]; [None] is the index panic. *)
Definition enqueue (t : Task) (q : TaskQueue) : option TaskQueue :=
  l ← runnable_tasks q !! index (t_priority t);
  Some (with_runnable (<[index (t_priority t) := l ++ [t]]> (runnable_tasks q)) q).

(** [issue_pending_id]; [None] is the overflow of the counter. *)
Definition issue_pending_id (q : TaskQueue) : option (Z * TaskQueue) :=
  g ← add_checked 64 (pending_id_gen q) 1;
  Some (pending_id_gen q,
        {| pending_id_gen := g; runnable_tasks := runnable_tasks q; pending_tasks := pending_tasks q;
           blocks := blocks q; timeouts := timeouts q |}).

(** The search of [dequeue]: the front of the highest queue that is not empty,
    among those from [lo] on, below [hi]. *)
Fixpoint pop_highest (lo hi : nat) (r : list (list Task)) : option (Task * list (list Task)) :=
  match hi with
  | O => None
  | S hi =>
      if (lo <=? hi)%nat then
        match r !! hi with
        | Some (t :: l) => Some (t, <[hi := l]> r)
        | _ => pop_highest lo hi r
        end
      else None
  end.

(** Where the current task goes, at time [now]. *)
Definition park (now : Z) (current_task : Task) (current_switch : Switch) (q : TaskQueue) : option TaskQueue :=
  match current_switch with
  | Blocked chan timeout =>
      '(id, q) ← issue_pending_id q;
      ts ← match timeout with
           | Some t => d ← add_checked 64 now t; Some (heap_push (d, id, Some chan) (timeouts q))
           | None => Some (timeouts q)
           end;
      Some {| pending_id_gen := pending_id_gen q; runnable_tasks := runnable_tasks q;
              pending_tasks := <[id := current_task]> (pending_tasks q);
              blocks := <[chan := default [] (blocks q !! chan) ++ [id]]> (blocks q); timeouts := ts |}
  | Sleep t =>
      '(id, q) ← issue_pending_id q;
      d ← add_checked 64 now t;
      Some {| pending_id_gen := pending_id_gen q; runnable_tasks := runnable_tasks q;
              pending_tasks := <[id := current_task]> (pending_tasks q);
              blocks := blocks q; timeouts := heap_push (d, id, None) (timeouts q) |}
  | Yield => enqueue current_task q
  end.

Definition minimum_level (current_task : Task) (current_switch : Switch) : nat :=
  match current_switch with Yield => index (t_priority current_task) | _ => 0 end.

(** [dequeue], but for the marks of the contexts: the task to run next. *)
Definition dequeue (now : Z) (current_task : Task) (current_switch : Switch) (q : TaskQueue) :
    option (Task * TaskQueue) :=
  match pop_highest (minimum_level current_task current_switch) SIZE (runnable_tasks q) with
  | Some (next_task, r) =>
      q ← park now current_task current_switch (with_runnable r q);
      Some (next_task, q)
  | None => Some (current_task, q)
  end.

(** The loop body of [release] and the first half of the one of [elapse]: a
    pending task becomes runnable. *)
Definition wake (id : Z) (q : TaskQueue) : option TaskQueue :=
  match pending_tasks q !! id with
  | Some t =>
      enqueue t {| pending_id_gen := pending_id_gen q; runnable_tasks := runnable_tasks q;
                   pending_tasks := delete id (pending_tasks q); blocks := blocks q; timeouts := timeouts q |}
  | None => Some q
  end.

Fixpoint wake_all (ids : list Z) (q : TaskQueue) : option TaskQueue :=
  match ids with
  | [] => Some q
  | id :: ids => q ← wake id q; wake_all ids q
  end.

Definition release (chan : Z) (q : TaskQueue) : option TaskQueue :=
  match blocks q !! chan with
  | Some ids =>
      wake_all ids {| pending_id_gen := pending_id_gen q; runnable_tasks := runnable_tasks q;
                      pending_tasks := pending_tasks q; blocks := delete chan (blocks q); timeouts := timeouts q |}
  | None => Some q
  end.

(** One turn of the loop of [elapse]. *)
Definition expire (id : Z) (chan : option Z) (rest : list Timeout) (q : TaskQueue) : option TaskQueue :=
  q ← wake id q;
  let b := match chan with
           | Some chan => match blocks q !! chan with
                          | Some ids => <[chan := base.filter (fun i => i <> id) ids]> (blocks q)
                          | None => blocks q
                          end
           | None => blocks q
           end in
  Some {| pending_id_gen := pending_id_gen q; runnable_tasks := runnable_tasks q;
          pending_tasks := pending_tasks q; blocks := b; timeouts := rest |}.

Fixpoint elapse_loop (now : Z) (l : list Timeout) (q : TaskQueue) : option TaskQueue :=
  match l with
  | (t, id, chan) :: rest => if t <=? now then q ← expire id chan rest q; elapse_loop now rest q else Some q
  | [] => Some q
  end.

Definition elapse (now : Z) (q : TaskQueue) : option TaskQueue := elapse_loop now (timeouts q) q.

(** ** What a queue holds *)

(** The tasks of the queue. *)
Definition queue_tasks (q : TaskQueue) : list Task :=
  mjoin (runnable_tasks q) ++ (snd <$> map_to_list (pending_tasks q)).

(** A pending task has something that wakes it up: its channel lists it, or a
    deadline does. *)
Definition registered (q : TaskQueue) (id : Z) : Prop :=
  (exists chan ids, blocks q !! chan = Some ids /\ id ∈ ids) \/ (exists t chan, (t, id, chan) ∈ timeouts q).

Definition timeout_id (x : Timeout) : Z := x.1.2.

Record queue_wf (q : TaskQueue) : Prop := {
  wf_levels : length (runnable_tasks q) = SIZE;
  wf_priority : forall i l, runnable_tasks q !! i = Some l -> Forall (fun t => index (t_priority t) = i) l;
  wf_gen : 0 <= pending_id_gen q;
  wf_pending : forall id t, pending_tasks q !! id = Some t -> 0 <= id < pending_id_gen q /\ registered q id;
  wf_blocks : forall chan ids, blocks q !! chan = Some ids ->
    NoDup ids /\ Forall (fun id => 0 <= id < pending_id_gen q) ids;
  wf_timeouts : Forall (fun x => 0 <= x.1.2 < pending_id_gen q) (timeouts q);
  wf_distinct : NoDup (timeout_id <$> timeouts q);
  wf_sorted : Sorted (fun a b => timeout_leb a b = true) (timeouts q)
}.

(** ** Lemmas: the heap *)

Lemma heap_push_perm x l : heap_push x l ≡ₚ x :: l.
Proof.
  induction l as [|y l IH]; [done|]. simpl. case_match; [done|]. rewrite IH. apply perm_swap.
Qed.

Lemma timeout_leb_total a b : timeout_leb a b = false -> timeout_leb b a = true.
Proof.
  destruct a as [[t1 i1] c1], b as [[t2 i2] c2]. simpl.
  destruct (Z.eqb_spec t1 t2), (Z.eqb_spec t2 t1), (Z.eqb_spec i1 i2), (Z.eqb_spec i2 i1); subst; try lia; try done.
  destruct c1, c2; try done; lia.
Qed.

Lemma heap_push_sorted x l :
  Sorted (fun a b => timeout_leb a b = true) l -> Sorted (fun a b => timeout_leb a b = true) (heap_push x l).
Proof.
  induction 1 as [|y l Hs IH Hhd]; simpl; [by constructor|]. destruct (timeout_leb x y) eqn:Hxy.
  - constructor; [by constructor|]. by constructor.
  - constructor; [done|]. apply timeout_leb_total in Hxy. destruct l as [|z l]; simpl; [by constructor|].
    destruct (timeout_leb x z); constructor; [done|]. by inversion Hhd.
Qed.

(** ** Lemmas: runnable queues *)

Lemma enqueue_wf_spec t q :
  queue_wf q -> exists l, runnable_tasks q !! index (t_priority t) = Some l /\
    enqueue t q = Some (with_runnable (<[index (t_priority t) := l ++ [t]]> (runnable_tasks q)) q).
Proof.
  intros Hwf. destruct (lookup_lt_is_Some_2 (runnable_tasks q) (index (t_priority t))) as [l Hl].
  { rewrite (wf_levels _ Hwf). unfold SIZE. destruct (t_priority t); simpl; lia. }
  exists l. split; [done|]. unfold enqueue. by rewrite Hl.
Qed.

Lemma join_insert {A} (ls : list (list A)) i l l' :
  ls !! i = Some l -> mjoin (<[i := l ++ l']> ls) ≡ₚ l' ++ mjoin ls.
Proof.
  revert i. induction ls as [|k ls IH]; intros [|i] Hi; simplify_eq/=.
  - rewrite <- app_assoc, (Permutation_app_comm l' (l ++ _)), <- app_assoc.
    by rewrite (Permutation_app_comm l' (mjoin ls)).
  - rewrite (IH i Hi). by rewrite !app_assoc, (Permutation_app_comm k l').
Qed.

Lemma join_pop {A} (ls : list (list A)) i (x : A) l :
  ls !! i = Some (x :: l) -> mjoin ls ≡ₚ x :: mjoin (<[i := l]> ls).
Proof.
  revert i. induction ls as [|k ls IH]; intros [|i] Hi; simplify_eq/=; [done|]. rewrite (IH i Hi). by rewrite Permutation_middle.
Qed.

(** [enqueue] adds the task, at the back of its level. *)
Lemma enqueue_ok t q :
  queue_wf q -> exists q', enqueue t q = Some q' /\ queue_wf q' /\ queue_tasks q' ≡ₚ t :: queue_tasks q.
Proof.
  intros Hwf. destruct (enqueue_wf_spec t q Hwf) as (l & Hl & ->). eexists. split; [done|]. split.
  - destruct Hwf. split; simpl; try done.
    + by rewrite length_insert.
    + intros i l' Hi. destruct (decide (i = index (t_priority t))) as [->|Hne].
      * rewrite list_lookup_insert_eq in Hi by (by apply lookup_lt_Some in Hl). simplify_eq.
        apply Forall_app. split; [by apply wf_priority0|by apply Forall_singleton].
      * rewrite list_lookup_insert_ne in Hi by done. by apply wf_priority0.
  - unfold queue_tasks. simpl. by rewrite (join_insert _ _ _ _ Hl).
Qed.

Lemma pop_highest_spec lo hi r :
  match pop_highest lo hi r with
  | Some (t, r') => exists i l, (lo <= i < hi)%nat /\ r !! i = Some (t :: l) /\ r' = <[i := l]> r /\
      forall j l', (i < j < hi)%nat -> r !! j = Some l' -> l' = []
  | None => forall j l', (lo <= j < hi)%nat -> r !! j = Some l' -> l' = []
  end.
Proof.
  induction hi as [|hi IH]; simpl; [intros; lia|]. destruct (Nat.leb_spec lo hi) as [Hle|Hgt]; [|intros; lia].
  assert (Hstep : (forall l', r !! hi = Some l' -> l' = []) ->
    match pop_highest lo hi r with
    | Some (t, r') => exists i l, (lo <= i < S hi)%nat /\ r !! i = Some (t :: l) /\ r' = <[i := l]> r /\
        forall j l', (i < j < S hi)%nat -> r !! j = Some l' -> l' = []
    | None => forall j l', (lo <= j < S hi)%nat -> r !! j = Some l' -> l' = []
    end).
  { intros Hempty. destruct (pop_highest lo hi r) as [[t r']|].
    - destruct IH as (i & l & Hi & Hl & -> & Hhi). exists i, l. split_and!; try done; try lia.
      intros j l' Hj Hjl. destruct (decide (j = hi)) as [->|]; [by apply Hempty|]. apply (Hhi j); [lia|done].
    - intros j l' Hj Hjl. destruct (decide (j = hi)) as [->|]; [by apply Hempty|]. apply (IH j); [lia|done]. }
  destruct (r !! hi) as [[|t l]|] eqn:Hr.
  - apply Hstep. intros l' [= <-]. done.
  - exists hi, l. split_and!; try done; intros; lia.
  - apply Hstep. by intros l' [=].
Qed.

(** ** Lemmas: parking and waking *)

(** The counters and the clock are in range for one more step. *)
Definition room (now : Z) (sw : Switch) (q : TaskQueue) : Prop :=
  pending_id_gen q + 1 < 2 ^ 64 /\ 0 <= now /\
  match sw with
  | Blocked _ (Some t) | Sleep t => 0 <= t /\ now + t < 2 ^ 64
  | _ => True
  end.

Lemma fresh_pending q : queue_wf q -> pending_tasks q !! pending_id_gen q = None.
Proof.
  intros Hwf. apply eq_None_not_Some. intros [t Ht]. destruct (wf_pending _ Hwf _ _ Ht). lia.
Qed.

Lemma Forall_gen_mono (g g' : Z) l :
  g <= g' -> Forall (fun id => 0 <= id < g) l -> Forall (fun id => 0 <= id < g') l.
Proof. intros Hg Hl. eapply Forall_impl; [exact Hl|]. simpl. lia. Qed.

Lemma timeouts_gen_mono (g g' : Z) (l : list Timeout) :
  g <= g' -> Forall (fun x => 0 <= x.1.2 < g) l -> Forall (fun x => 0 <= x.1.2 < g') l.
Proof. intros Hg Hl. eapply Forall_impl; [exact Hl|]. simpl. lia. Qed.

Lemma push_distinct q t c : queue_wf q -> NoDup (timeout_id <$> heap_push (t, pending_id_gen q, c) (timeouts q)).
Proof.
  intros Hwf. rewrite heap_push_perm. apply NoDup_cons. split; [|apply Hwf]. intros (x & Hx & Hin)%list_elem_of_fmap.
  apply (proj1 (Forall_forall _ _) (wf_timeouts _ Hwf)) in Hin. unfold timeout_id in Hx. simpl in *. lia.
Qed.

(** A task becomes pending under a fresh id, registered with [b] and [ts]. *)
Lemma pending_wf q t b ts :
  queue_wf q ->
  let id := pending_id_gen q in
  let q' := {| pending_id_gen := id + 1; runnable_tasks := runnable_tasks q;
               pending_tasks := <[id := t]> (pending_tasks q); blocks := b; timeouts := ts |} in
  registered q' id -> (forall i, registered q i -> registered q' i) ->
  (forall chan ids, b !! chan = Some ids -> NoDup ids /\ Forall (fun i => 0 <= i < id + 1) ids) ->
  Forall (fun x => 0 <= x.1.2 < id + 1) ts -> NoDup (timeout_id <$> ts) -> Sorted (fun a b => timeout_leb a b = true) ts ->
  queue_wf q' /\ queue_tasks q' ≡ₚ t :: queue_tasks q.
Proof.
  intros Hwf id q' Hreg Hmono Hb Hts Hnd Hsort. pose proof (fresh_pending q Hwf) as Hfresh. pose proof (wf_gen _ Hwf). split.
  - split; simpl; try done; try apply Hwf; [lia|]. intros i t' Hi. destruct (decide (i = id)) as [->|Hne].
    + split; [lia|done].
    + rewrite lookup_insert_ne in Hi by done. destruct (wf_pending _ Hwf _ _ Hi). split; [lia|by apply Hmono].
  - unfold queue_tasks, q'. simpl. rewrite map_to_list_insert by done. simpl. by rewrite Permutation_middle.
Qed.

Lemma park_ok now t sw q :
  queue_wf q -> room now sw q ->
  exists q', park now t sw q = Some q' /\ queue_wf q' /\ queue_tasks q' ≡ₚ t :: queue_tasks q.
Proof.
  intros Hwf (Hgen & Hnow & Ht). pose proof (wf_gen _ Hwf). destruct sw as [chan timeout|d|]; simpl.
  - unfold issue_pending_id, add_checked. rewrite checked_Some by (unfold unsigned; lia). simpl.
    assert (Hts : exists ts, match timeout with
        | Some t => d ← checked 64 (now + t); Some (heap_push (d, pending_id_gen q, Some chan) (timeouts q))
        | None => Some (timeouts q) end = Some ts /\ (forall x, x ∈ timeouts q -> x ∈ ts) /\
      Forall (fun x => 0 <= x.1.2 < pending_id_gen q + 1) ts /\ NoDup (timeout_id <$> ts) /\ Sorted (fun a b => timeout_leb a b = true) ts).
    { destruct timeout as [d|].
      - rewrite checked_Some by (unfold unsigned; lia). eexists. split; [done|]. split_and!.
        + intros x Hx. rewrite heap_push_perm. by right.
        + rewrite heap_push_perm. apply Forall_cons_2; [simpl; lia|]. eapply timeouts_gen_mono; [|apply Hwf]. lia.
        + by apply push_distinct.
        + apply heap_push_sorted, Hwf.
      - eexists. split_and!; [done|done| |apply Hwf|apply Hwf]. eapply timeouts_gen_mono; [|apply Hwf]. lia. }
    destruct Hts as (ts & -> & Hsub & Hfor & Hdis & Hsort). simpl. eexists. split; [done|]. apply pending_wf; try done.
    + left. exists chan. eexists. simpl. rewrite lookup_insert_eq. split; [done|]. apply elem_of_app. right. by left.
    + intros i [(c & ids & Hc & Hi)|(d & c & Hd)]; [left|right; exists d, c; by apply Hsub].
      destruct (decide (c = chan)) as [->|Hne].
      * exists chan. eexists. simpl. rewrite lookup_insert_eq, Hc. split; [done|]. apply elem_of_app. by left.
      * exists c, ids. simpl. by rewrite lookup_insert_ne by done.
    + intros c ids Hc. destruct (decide (c = chan)) as [->|Hne].
      * rewrite lookup_insert_eq in Hc. simplify_eq. assert (Hold : NoDup (default [] (blocks q !! chan)) /\
          Forall (fun i => 0 <= i < pending_id_gen q) (default [] (blocks q !! chan))).
        { destruct (blocks q !! chan) as [ids|] eqn:Hb; simpl; [by eapply wf_blocks|]. split; constructor. }
        destruct Hold as [Hnd Hall]. split.
        -- apply NoDup_app. split_and!; [done| |apply NoDup_singleton]. intros i Hi ->%list_elem_of_singleton.
           apply (proj1 (Forall_forall _ _) Hall) in Hi. lia.
        -- apply Forall_app. split; [eapply Forall_gen_mono; [|done]; lia|apply Forall_singleton; lia].
      * rewrite lookup_insert_ne in Hc by done. destruct (wf_blocks _ Hwf _ _ Hc). split; [done|].
        eapply Forall_gen_mono; [|done]. lia.
  - unfold issue_pending_id, add_checked. rewrite !checked_Some by (unfold unsigned; lia). simpl. eexists. split; [done|].
    apply pending_wf; try done.
    + right. exists (now + d), None. simpl. rewrite heap_push_perm. by left.
    + intros i [?|(d' & c & Hd)]; [by left|]. right. exists d', c. simpl. rewrite heap_push_perm. by right.
    + intros c ids Hc. destruct (wf_blocks _ Hwf _ _ Hc). split; [done|]. eapply Forall_gen_mono; [|done]. lia.
    + rewrite heap_push_perm. apply Forall_cons_2; [simpl; lia|]. eapply timeouts_gen_mono; [|apply Hwf]. lia.
    + by apply push_distinct.
    + apply heap_push_sorted, Hwf.
  - by apply enqueue_ok.
Qed.

Lemma with_runnable_wf q i l l' :
  queue_wf q -> runnable_tasks q !! i = Some l -> (forall t, t ∈ l' -> t ∈ l) -> queue_wf (with_runnable (<[i := l']> (runnable_tasks q)) q).
Proof.
  intros [] Hl Hsub. split; simpl; try done; [by rewrite length_insert|]. intros j k Hj.
  destruct (decide (j = i)) as [->|Hne].
  - rewrite list_lookup_insert_eq in Hj by (by apply lookup_lt_Some in Hl). simplify_eq. apply Forall_forall. intros t Ht.
    apply (proj1 (Forall_forall _ _) (wf_priority0 _ _ Hl)). by apply Hsub.
  - rewrite list_lookup_insert_ne in Hj by done. by apply wf_priority0.
Qed.

(** [dequeue]: the current task keeps running when no queue from its minimum
    level on has a task; otherwise the front of the highest such queue runs, and
    the current task is parked. *)
Lemma dequeue_spec now cur sw q :
  queue_wf q -> room now sw q ->
  ((forall i l, (minimum_level cur sw <= i < SIZE)%nat -> runnable_tasks q !! i = Some l -> l = []) /\
   dequeue now cur sw q = Some (cur, q)) \/
  (exists i next l q', (minimum_level cur sw <= i < SIZE)%nat /\ runnable_tasks q !! i = Some (next :: l) /\
   (forall j l', (i < j < SIZE)%nat -> runnable_tasks q !! j = Some l' -> l' = []) /\
   park now cur sw (with_runnable (<[i := l]> (runnable_tasks q)) q) = Some q' /\
   dequeue now cur sw q = Some (next, q') /\ queue_wf q' /\ next :: queue_tasks q' ≡ₚ cur :: queue_tasks q).
Proof.
  intros Hwf Hroom. unfold dequeue. pose proof (pop_highest_spec (minimum_level cur sw) SIZE (runnable_tasks q)) as Hpop.
  destruct (pop_highest _ _ _) as [[next r]|]; [right|by left].
  destruct Hpop as (i & l & Hi & Hl & -> & Hhi).
  assert (Hwf1 : queue_wf (with_runnable (<[i := l]> (runnable_tasks q)) q)) by (eapply with_runnable_wf; [done|done|by right]).
  destruct (park_ok now cur sw _ Hwf1 Hroom) as (q' & Hp & Hwf' & Hperm). exists i, next, l, q'. rewrite Hp. split_and!; try done; try lia.
  rewrite Hperm, Permutation_swap. f_equiv. unfold queue_tasks. simpl. by rewrite (join_pop _ _ _ _ Hl).
Qed.

(** *** Waking up *)

(** As [queue_wf], with tasks in [ids] that nothing else wakes up. *)
Record waking (ids : list Z) (q : TaskQueue) : Prop := {
  wk_levels : length (runnable_tasks q) = SIZE;
  wk_priority : forall i l, runnable_tasks q !! i = Some l -> Forall (fun t => index (t_priority t) = i) l;
  wk_gen : 0 <= pending_id_gen q;
  wk_pending : forall id t, pending_tasks q !! id = Some t -> 0 <= id < pending_id_gen q /\ (id ∈ ids \/ registered q id);
  wk_blocks : forall chan ids, blocks q !! chan = Some ids ->
    NoDup ids /\ Forall (fun id => 0 <= id < pending_id_gen q) ids;
  wk_timeouts : Forall (fun x => 0 <= x.1.2 < pending_id_gen q) (timeouts q);
  wk_distinct : NoDup (timeout_id <$> timeouts q);
  wk_sorted : Sorted (fun a b => timeout_leb a b = true) (timeouts q)
}.

Lemma waking_nil q : waking [] q <-> queue_wf q.
Proof.
  split; intros []; split; try done; intros id t Ht.
  - destruct (wk_pending0 id t Ht) as [? [?%not_elem_of_nil|?]]; done.
  - destruct (wf_pending0 id t Ht). auto.
Qed.

(** The level [i] of the tasks that [ids] name. *)
Definition woken (i : nat) (ids : list Z) (p : gmap Z Task) : list Task :=
  base.filter (fun t => index (t_priority t) = i) (omap (fun id => p !! id) ids).

Lemma wake_ok id ids q :
  waking (id :: ids) q -> exists q', wake id q = Some q' /\ waking ids q' /\ queue_tasks q' ≡ₚ queue_tasks q /\
    pending_tasks q' = delete id (pending_tasks q) /\ blocks q' = blocks q /\ timeouts q' = timeouts q /\
    pending_id_gen q' = pending_id_gen q /\
    forall i l, runnable_tasks q !! i = Some l -> runnable_tasks q' !! i = Some (l ++ woken i [id] (pending_tasks q)).
Proof.
  intros Hw. unfold wake. destruct (pending_tasks q !! id) as [t|] eqn:Hid.
  - unfold enqueue. cbn [runnable_tasks]. destruct (lookup_lt_is_Some_2 (runnable_tasks q) (index (t_priority t))) as [l Hl].
    { rewrite (wk_levels _ _ Hw). unfold SIZE. destruct (t_priority t); simpl; lia. }
    rewrite Hl. simpl. eexists. split; [done|]. split_and!; try done.
    + destruct Hw. split; simpl; try done.
      * by rewrite length_insert.
      * intros i l' Hi. destruct (decide (i = index (t_priority t))) as [->|Hne].
        -- rewrite list_lookup_insert_eq in Hi by (by apply lookup_lt_Some in Hl). simplify_eq.
           apply Forall_app. split; [by apply wk_priority0|by apply Forall_singleton].
        -- rewrite list_lookup_insert_ne in Hi by done. by apply wk_priority0.
      * intros i t' [Hne Hi]%lookup_delete_Some. destruct (wk_pending0 i t' Hi) as [? [[->|?]%elem_of_cons|?]]; [done|auto..].
    + unfold queue_tasks. simpl. rewrite (join_insert _ _ _ _ Hl). simpl.
      rewrite <- (map_to_list_delete (pending_tasks q) id t Hid) at 1. simpl. by rewrite Permutation_middle.
    + intros i l' Hi. unfold woken. simpl. rewrite Hid. simpl. destruct (decide (index (t_priority t) = i)) as [<-|Hne].
      * simplify_eq. rewrite filter_cons_True by done. simpl. rewrite list_lookup_insert_eq; [done|]. by apply lookup_lt_Some in Hl.
      * rewrite filter_cons_False by done. simpl. by rewrite list_lookup_insert_ne, app_nil_r.
  - exists q. split; [done|]. split_and!; try done.
    + destruct Hw. split; try done. intros i t Hi. destruct (wk_pending0 i t Hi) as [? [[->|?]%elem_of_cons|?]]; [congruence|auto..].
    + by rewrite delete_id.
    + intros i l Hi. unfold woken. simpl. by rewrite Hid, app_nil_r.
Qed.

Lemma woken_cons i id ids p :
  id ∉ ids -> woken i (id :: ids) p = woken i [id] p ++ woken i ids (delete id p).
Proof.
  intros Hid. unfold woken. change (id :: ids) with ([id] ++ ids). rewrite omap_app, filter_app. f_equal. f_equal.
  induction ids as [|j ids IH]; [done|]. rewrite not_elem_of_cons in Hid. destruct Hid as [Hj Hid]. simpl.
  rewrite lookup_delete_ne by done. specialize (IH Hid). destruct (p !! j); [f_equal|]; exact IH.
Qed.

(** The tasks that [ids] name become runnable, in that order. *)
Definition woke (ids : list Z) (q q' : TaskQueue) : Prop :=
  queue_tasks q' ≡ₚ queue_tasks q /\ pending_id_gen q' = pending_id_gen q /\
  (forall id, pending_tasks q' !! id = if decide (id ∈ ids) then None else pending_tasks q !! id) /\
  forall i l, runnable_tasks q !! i = Some l -> runnable_tasks q' !! i = Some (l ++ woken i ids (pending_tasks q)).

Lemma woke_nil q : woke [] q q.
Proof.
  split_and!; try done. intros i l Hi. by rewrite app_nil_r.
Qed.

Lemma woke_cons id ids q q1 q' :
  id ∉ ids -> woke [id] q q1 -> pending_tasks q1 = delete id (pending_tasks q) -> woke ids q1 q' -> woke (id :: ids) q q'.
Proof.
  intros Hid (Hp1 & Hg1 & _ & Hr1) Hdel (Hp2 & Hg2 & Hpend & Hr2). split_and!.
  - by rewrite Hp2.
  - congruence.
  - intros j. rewrite Hpend, Hdel. destruct (decide (j = id)) as [->|Hne].
    + rewrite lookup_delete_eq, (decide_True (P := id ∈ id :: ids)) by left. by case_decide.
    + rewrite lookup_delete_ne by done. destruct (decide (j ∈ ids)).
      * rewrite decide_True; [done|by right].
      * rewrite decide_False; [done|]. by intros [?|?]%elem_of_cons.
  - intros i l Hi. rewrite (Hr2 i _ (Hr1 i l Hi)), (woken_cons i id ids _ Hid), Hdel. by rewrite <- app_assoc.
Qed.

Lemma wake_woke id ids q :
  waking (id :: ids) q -> exists q', wake id q = Some q' /\ waking ids q' /\ woke [id] q q' /\
    pending_tasks q' = delete id (pending_tasks q) /\ blocks q' = blocks q /\ timeouts q' = timeouts q.
Proof.
  intros Hw. destruct (wake_ok id ids q Hw) as (q' & -> & Hw' & Hp & Hpend & Hb & Ht & Hg & Hr).
  exists q'. split_and!; try done. unfold woke. split_and!; try done. intros j. rewrite Hpend. destruct (decide (j = id)) as [->|Hne].
  - rewrite lookup_delete_eq, decide_True; [done|by left].
  - rewrite lookup_delete_ne, decide_False; [done| |done]. by intros ->%list_elem_of_singleton.
Qed.

Lemma wake_all_ok ids : forall q, NoDup ids -> waking ids q ->
  exists q', wake_all ids q = Some q' /\ waking [] q' /\ woke ids q q' /\ blocks q' = blocks q /\ timeouts q' = timeouts q.
Proof.
  induction ids as [|id ids IH]; intros q Hnd Hw.
  { exists q. split_and!; try done. apply woke_nil. }
  apply NoDup_cons in Hnd as [Hid Hnd]. simpl.
  destruct (wake_woke id ids q Hw) as (q1 & -> & Hw1 & Hk1 & Hdel & Hb1 & Ht1). simpl.
  destruct (IH q1 Hnd Hw1) as (q' & -> & Hw' & Hk2 & Hb2 & Ht2). exists q'. split_and!; try done; try congruence.
  by eapply woke_cons.
Qed.

(** [release] wakes up the tasks of the channel. *)
Lemma release_ok chan q :
  queue_wf q -> exists q', release chan q = Some q' /\ queue_wf q' /\ blocks q' = delete chan (blocks q) /\
    timeouts q' = timeouts q /\ woke (default [] (blocks q !! chan)) q q'.
Proof.
  intros Hwf. unfold release. destruct (blocks q !! chan) as [ids|] eqn:Hb; simpl.
  - set (q0 := {| pending_id_gen := _ |}). destruct (wf_blocks _ Hwf _ _ Hb) as [Hnd _].
    assert (Hw : waking ids q0).
    { destruct Hwf. split; try done; simpl.
      - intros id t Ht. destruct (wf_pending0 id t Ht) as [Hr [(c & l & Hc & Hi)|Hreg]]; split; try done.
        + destruct (decide (c = chan)) as [->|Hne]; [left; congruence|]. right. left. exists c, l. simpl.
          by rewrite lookup_delete_ne by done.
        + right. by right.
      - intros c l [_ Hc]%lookup_delete_Some. by eapply wf_blocks0. }
    destruct (wake_all_ok ids q0 Hnd Hw) as (q' & -> & Hw' & Hk & Hb' & Ht'). exists q'. split_and!; try done.
    by apply waking_nil.
  - exists q. split_and!; try done; [by rewrite delete_id|apply woke_nil].
Qed.

(** The entries that are due. *)
Definition due (now : Z) (l : list Timeout) : list Timeout := base.filter (fun x => x.1.1 <= now) l.
Definition not_due (now : Z) (l : list Timeout) : list Timeout := base.filter (fun x => ~ x.1.1 <= now) l.

Lemma timeout_leb_deadline a b : timeout_leb a b = true -> a.1.1 <= b.1.1.
Proof.
  destruct a as [[t1 i1] c1], b as [[t2 i2] c2]. simpl. destruct (Z.eqb_spec t1 t2); [lia|]. intros ?%Z.ltb_lt. lia.
Qed.

Lemma timeout_leb_trans : Transitive (fun a b => timeout_leb a b = true).
Proof.
  intros [[t1 i1] c1] [[t2 i2] c2] [[t3 i3] c3]. simpl.
  destruct (Z.eqb_spec t1 t2), (Z.eqb_spec t2 t3), (Z.eqb_spec t1 t3); subst; try lia; try done; try (intros ?%Z.ltb_lt; lia).
  all: destruct (Z.eqb_spec i1 i2), (Z.eqb_spec i2 i3), (Z.eqb_spec i1 i3); subst; try lia; try done.
  destruct c1, c2, c3; try done; lia.
Qed.

(** A sorted list with a head that is not due has none. *)
Lemma sorted_not_due now x l :
  Sorted (fun a b => timeout_leb a b = true) (x :: l) -> now < x.1.1 -> due now (x :: l) = [] /\ not_due now (x :: l) = x :: l.
Proof.
  intros Hs Hx. assert (Hall : Forall (fun y => ~ y.1.1 <= now) (x :: l)).
  { apply Sorted_StronglySorted in Hs; [|apply timeout_leb_trans]. inversion Hs as [|? ? _ Hl]; subst.
    apply Forall_cons_2; [lia|]. eapply Forall_impl; [exact Hl|]. intros y Hy%timeout_leb_deadline. simpl in Hy. lia. }
  unfold due, not_due. clear Hs Hx. induction Hall as [|y k Hy Hk [IH1 IH2]]; [done|].
  rewrite filter_cons_False, filter_cons_True by done. split; [done|by f_equal].
Qed.

Lemma expire_ok t id chan rest q :
  queue_wf q -> timeouts q = (t, id, chan) :: rest -> exists q', expire id chan rest q = Some q' /\
    queue_wf q' /\ timeouts q' = rest /\ woke [id] q q' /\ pending_tasks q' = delete id (pending_tasks q).
Proof.
  intros Hwf Ht. unfold expire.
  assert (Hw : waking [id] q).
  { apply waking_nil in Hwf. destruct Hwf. split; try done. intros i x Hi. destruct (wk_pending0 i x Hi) as [? [Hn|?]]; [by apply not_elem_of_nil in Hn|auto]. }
  destruct (wake_woke id [] q Hw) as (q1 & -> & Hw1%waking_nil & Hk & Hdel & Hb & Ht1). simpl. eexists. split; [done|].
  set (b := match chan with Some _ => _ | None => _ end).
  assert (Hblocks : forall c l, b !! c = Some l ->
    (exists l0, blocks q1 !! c = Some l0 /\ l = base.filter (fun i => i <> id) l0) \/ blocks q1 !! c = Some l).
  { intros c l Hc. unfold b in Hc. destruct chan as [ch|]; [|eauto]. destruct (blocks q1 !! ch) as [l0|] eqn:Hl0; [|eauto].
    destruct (decide (c = ch)) as [->|Hne]; [rewrite lookup_insert_eq in Hc; simplify_eq; eauto|].
    rewrite lookup_insert_ne in Hc by done. eauto. }
  assert (Hkeep : forall c l i, i <> id -> blocks q1 !! c = Some l -> i ∈ l -> exists l', b !! c = Some l' /\ i ∈ l').
  { intros c l i Hne Hc Hi. unfold b. destruct chan as [ch|]; [|eauto]. destruct (blocks q1 !! ch) as [l0|] eqn:Hl0; [|eauto].
    destruct (decide (c = ch)) as [->|]; [|rewrite lookup_insert_ne by done; eauto].
    rewrite lookup_insert_eq. eexists. split; [done|]. apply list_elem_of_filter. simplify_eq. done. }
  split_and!; try done. rewrite Ht in Ht1. destruct Hw1 as [Hl Hp Hg Hpend Hbl Hts Hd Hs].
  rewrite Ht1 in Hts, Hd, Hs. split; simpl; try done.
  - intros i x Hi. destruct (Hpend i x Hi) as [Hr Hreg]. split; [done|].
    assert (Hne : i <> id) by (intros ->; by rewrite Hdel, lookup_delete_eq in Hi).
    destruct Hreg as [(c & l & Hc & Hil)|(d & c & Hin)].
    + left. destruct (Hkeep c l i Hne Hc Hil) as (l' & ? & ?). by exists c, l'.
    + right. exists d, c. rewrite Ht1 in Hin. by apply elem_of_cons in Hin as [[= _ -> _]|].
  - intros c l Hc. destruct (Hblocks c l Hc) as [(l0 & Hl0 & ->)|Hl0]; destruct (Hbl _ _ Hl0) as [Hn0 Hf0]; [|done].
    split; [by apply NoDup_filter|]. apply Forall_forall. intros i [_ Hi]%list_elem_of_filter.
    by apply (proj1 (Forall_forall _ _) Hf0).
  - by apply Forall_cons in Hts as [_ ?].
  - rewrite fmap_cons in Hd. by apply NoDup_cons in Hd as [_ ?].
  - by inversion Hs.
Qed.

Lemma elapse_loop_ok now l : forall q, queue_wf q -> timeouts q = l ->
  exists q', elapse_loop now l q = Some q' /\ queue_wf q' /\ timeouts q' = not_due now l /\ woke (timeout_id <$> due now l) q q'.
Proof.
  induction l as [|[[t id] chan] rest IH]; intros q Hwf Ht.
  { exists q. split_and!; try done. apply woke_nil. }
  cbn [elapse_loop]. destruct (Z.leb_spec t now) as [Hle|Hgt].
  - destruct (expire_ok t id chan rest q Hwf Ht) as (q1 & -> & Hwf1 & Ht1 & Hk & Hdel). simpl.
    destruct (IH q1 Hwf1 Ht1) as (q' & -> & Hwf' & Ht' & Hk'). exists q'. unfold due, not_due in *.
    rewrite filter_cons_False by (simpl; lia). rewrite filter_cons_True by (simpl; lia). split_and!; try done.
    rewrite fmap_cons. eapply woke_cons; [|exact Hk|done|done].
    pose proof (wf_distinct _ Hwf) as Hd. rewrite Ht, fmap_cons in Hd. apply NoDup_cons in Hd as [Hd _].
    intros (x & Hx & [_ Hin]%list_elem_of_filter)%list_elem_of_fmap. apply Hd. apply list_elem_of_fmap. eauto.
  - exists q. pose proof (wf_sorted _ Hwf) as Hs. rewrite Ht in Hs. destruct (sorted_not_due now _ _ Hs Hgt) as [-> ->].
    split_and!; try done. apply woke_nil.
Qed.

Lemma elapse_ok now q :
  queue_wf q -> exists q', elapse now q = Some q' /\ queue_wf q' /\ timeouts q' = not_due now (timeouts q) /\
    woke (timeout_id <$> due now (timeouts q)) q q'.
Proof. intros Hwf. by apply elapse_loop_ok. Qed.

Lemma queue_new_wf : queue_wf queue_new.
Proof.
  split; simpl; try done; try (intros ? ? ?; by simplify_map_eq); try lia; try constructor.
  intros i l Hi. change ([[]; []; []; []] : list (list Task)) with (replicate SIZE ([] : list Task)) in Hi.
  apply lookup_replicate in Hi as [-> _]. constructor.
Qed.

(** *** Yields *)

(** The task that runs after [n] yields in a row, and the queue then. *)
Fixpoint yields (n : nat) (now : Z) (cur : Task) (q : TaskQueue) : option (Task * TaskQueue) :=
  match n with
  | O => Some (cur, q)
  | S n => '(cur, q) ← dequeue now cur Yield q; yields n now cur q
  end.

(** The level of [cur] holds [ts], and no higher one holds anything. *)
Definition top_level (cur : Task) (ts : list Task) (q : TaskQueue) : Prop :=
  runnable_tasks q !! index (t_priority cur) = Some ts /\
  forall j l, (index (t_priority cur) < j < SIZE)%nat -> runnable_tasks q !! j = Some l -> l = [].

Lemma index_lt p : (index p < SIZE)%nat.
Proof. unfold SIZE. destruct p; simpl; lia. Qed.

Lemma index_inj p p' : index p = index p' -> p = p'.
Proof. by destruct p, p'. Qed.

(** A yield to the front of the level of the current task. *)
Lemma dequeue_yield now cur t ts q :
  queue_wf q -> top_level cur (t :: ts) q ->
  exists q', dequeue now cur Yield q = Some (t, q') /\ queue_wf q' /\ t_priority t = t_priority cur /\
    q' = with_runnable (<[index (t_priority cur) := ts ++ [cur]]> (runnable_tasks q)) q.
Proof.
  intros Hwf [Hl Hhi]. unfold dequeue. pose proof (index_lt (t_priority cur)) as Hlt.
  pose proof (pop_highest_spec (minimum_level cur Yield) SIZE (runnable_tasks q)) as Hpop. cbn [minimum_level] in Hpop |- *.
  assert (Hprio : t_priority t = t_priority cur).
  { apply index_inj. pose proof (wf_priority _ Hwf _ _ Hl) as Hf. by apply Forall_cons in Hf as [? _]. }
  destruct (pop_highest _ _ _) as [[next r]|]; [|discriminate (Hpop _ _ (conj (le_n _) Hlt) Hl)].
  destruct Hpop as (i & l & Hi & Hil & -> & _).
  assert (i = index (t_priority cur)) as ->.
  { destruct (decide (i = index (t_priority cur))); [done|]. discriminate (Hhi i _ ltac:(lia) Hil). }
  rewrite Hl in Hil. simplify_eq. cbn [park].
  assert (Hwf1 : queue_wf (with_runnable (<[index (t_priority cur) := l]> (runnable_tasks q)) q)) by (eapply with_runnable_wf; [done|done|by right]).
  destruct (enqueue_ok cur _ Hwf1) as (q' & He & Hwf' & _). rewrite He. simpl. exists q'. split_and!; try done.
  unfold enqueue in He. cbn [runnable_tasks with_runnable] in He.
  rewrite list_lookup_insert_eq in He by (by apply lookup_lt_Some in Hl). simpl in He. injection He as <-.
  unfold with_runnable. simpl. by rewrite list_insert_insert_eq.
Qed.

Lemma yields_rotate now n : forall cur ts q,
  queue_wf q -> top_level cur ts q -> (n <= length ts)%nat ->
  exists t q', yields n now cur q = Some (t, q') /\ (cur :: ts) !! n = Some t /\ queue_wf q' /\ t_priority t = t_priority cur /\
    q' = with_runnable (<[index (t_priority cur) := drop (S n) (cur :: ts) ++ take n (cur :: ts)]> (runnable_tasks q)) q.
Proof.
  induction n as [|n IH]; intros cur ts q Hwf Htop Hn.
  { exists cur, q. split_and!; try done. simpl. rewrite app_nil_r, drop_0. destruct Htop as [Hl _].
    rewrite list_insert_id by done. by destruct q. }
  destruct ts as [|t ts]; simpl in Hn; [lia|].
  destruct (dequeue_yield now cur t ts q Hwf Htop) as (q1 & Hd & Hwf1 & Hp & Hq1). simpl. rewrite Hd. simpl.
  destruct Htop as [Hl Hhi].
  assert (Htop1 : top_level t (ts ++ [cur]) q1).
  { unfold top_level. rewrite Hp, Hq1. simpl. split.
    - rewrite list_lookup_insert_eq; [done|by apply lookup_lt_Some in Hl].
    - intros j l Hj. rewrite list_lookup_insert_ne by lia. by apply Hhi. }
  destruct (IH t (ts ++ [cur]) q1 Hwf1 Htop1) as (t' & q' & Hy & Hlook & Hwf' & Hp' & Hq'); [rewrite length_app; simpl; lia|].
  exists t', q'. split_and!; try done; [|congruence|].
  - destruct n as [|n]; [done|]. simpl in Hlook |- *. rewrite lookup_app_l in Hlook by lia. done.
  - rewrite Hq', Hq1, Hp. unfold with_runnable. simpl. rewrite list_insert_insert_eq. do 2 f_equal.
    rewrite drop_app_le by lia. rewrite <- app_assoc. f_equal. destruct n as [|n]; [done|].
    simpl. rewrite take_app_le by lia. done.
Qed.

Lemma yields_round now cur ts q :
  queue_wf q -> top_level cur ts q -> yields (S (length ts)) now cur q = Some (cur, q).
Proof.
  intros Hwf Htop. pose proof Htop as [Hl Hhi]. destruct ts as [|t ts].
  - simpl. unfold dequeue. cbn [minimum_level].
    pose proof (pop_highest_spec (index (t_priority cur)) SIZE (runnable_tasks q)) as Hpop.
    destruct (pop_highest _ _ _) as [[next r]|]; [|done]. destruct Hpop as (i & l & Hi & Hil & _).
    destruct (decide (i = index (t_priority cur))) as [->|]; [congruence|]. discriminate (Hhi i _ ltac:(lia) Hil).
  - destruct (dequeue_yield now cur t ts q Hwf Htop) as (q1 & Hd & Hwf1 & Hp & Hq1).
    assert (Htop1 : top_level t (ts ++ [cur]) q1).
    { unfold top_level. rewrite Hp, Hq1. simpl. split.
      - rewrite list_lookup_insert_eq; [done|by apply lookup_lt_Some in Hl].
      - intros j l Hj. rewrite list_lookup_insert_ne by lia. by apply Hhi. }
    destruct (yields_rotate now (length (ts ++ [cur])) t (ts ++ [cur]) q1 Hwf1 Htop1 (le_n _)) as (t' & q' & Hy & Hlook & _ & _ & Hq').
    change (yields (S (length (t :: ts))) now cur q) with ('(cur, q) ← dequeue now cur Yield q; yields (length (t :: ts)) now cur q).
    rewrite Hd. cbn [mbind option_bind]. replace (length (t :: ts)) with (length (ts ++ [cur])) by (rewrite length_app; simpl; lia). rewrite Hy.
    assert (t' = cur) as ->. { rewrite length_app, Nat.add_1_r in Hlook. simpl in Hlook. rewrite lookup_app_r, Nat.sub_diag in Hlook by lia. by injection Hlook as ->. }
    rewrite Hq', Hq1, Hp. unfold with_runnable. simpl. rewrite list_insert_insert_eq, drop_all. cbn [app].
    rewrite length_app, Nat.add_1_r. cbn [take]. rewrite take_app_le, take_ge by lia.
    rewrite list_insert_id by done. by destruct q.
Qed.

(** ** Properties *)

(** Where a task that gives up its CPU is found: at the back of its level, or
    pending at the end of its channel and with its deadline. *)
Definition parked (now : Z) (t : Task) (sw : Switch) (q : TaskQueue) : Prop :=
  match sw with
  | Yield => exists l, runnable_tasks q !! index (t_priority t) = Some (l ++ [t])
  | Sleep d => exists id, pending_tasks q !! id = Some t /\ (now + d, id, None) ∈ timeouts q
  | Blocked chan timeout => exists id ids, pending_tasks q !! id = Some t /\ blocks q !! chan = Some (ids ++ [id]) /\
      match timeout with Some d => (now + d, id, Some chan) ∈ timeouts q | None => True end
  end.

Lemma park_parked now t sw q q' : queue_wf q -> room now sw q -> park now t sw q = Some q' -> parked now t sw q'.
Proof.
  intros Hwf (Hgen & Hnow & Ht) Hp. pose proof (wf_gen _ Hwf). destruct sw as [chan timeout|d|]; simpl in *.
  - unfold issue_pending_id, add_checked in Hp. rewrite checked_Some in Hp by (unfold unsigned; lia). simpl in Hp.
    exists (pending_id_gen q), (default [] (blocks q !! chan)). destruct timeout as [d|].
    + rewrite checked_Some in Hp by (unfold unsigned; lia). simpl in Hp. injection Hp as <-. simpl. rewrite !lookup_insert_eq.
      split_and!; try done. rewrite heap_push_perm. by left.
    + simpl in Hp. injection Hp as <-. simpl. by rewrite !lookup_insert_eq.
  - unfold issue_pending_id, add_checked in Hp. rewrite !checked_Some in Hp by (unfold unsigned; lia). simpl in Hp. injection Hp as <-.
    exists (pending_id_gen q). simpl. rewrite lookup_insert_eq, heap_push_perm. split; [done|by left].
  - destruct (enqueue_wf_spec t q Hwf) as (l & Hl & He). rewrite He in Hp. injection Hp as <-. exists l. simpl.
    rewrite list_lookup_insert_eq; [done|by apply lookup_lt_Some in Hl].
Qed.

(** The next task to run is the front of the
    highest level that holds a task, among all levels when the current task blocks
    or sleeps and among those not below its own when it yields. The current task
    is then parked, and no task appears or disappears; when there is no such level
    the current task goes on and the queue is unchanged. *)
Theorem dequeue_highest_priority (now : Z) (cur : Task) (sw : Switch) (q : TaskQueue) :
  queue_wf q -> room now sw q ->
  exists next q', dequeue now cur sw q = Some (next, q') /\ queue_wf q' /\
    next :: queue_tasks q' ≡ₚ cur :: queue_tasks q /\
    ((exists i l, (minimum_level cur sw <= i < SIZE)%nat /\ runnable_tasks q !! i = Some (next :: l) /\
        (forall j l', (i < j < SIZE)%nat -> runnable_tasks q !! j = Some l' -> l' = []) /\ parked now cur sw q') \/
     ((forall i l, (minimum_level cur sw <= i < SIZE)%nat -> runnable_tasks q !! i = Some l -> l = []) /\ next = cur /\ q' = q)).
Proof.
  intros Hwf Hroom. destruct (dequeue_spec now cur sw q Hwf Hroom) as [[Hempty ->]|(i & next & l & q' & Hi & Hl & Hhi & Hp & -> & Hwf' & Hperm)].
  - exists cur, q. split_and!; try done. by right.
  - exists next, q'. split_and!; try done. left. exists i, l. assert (Hroom' : room now sw (with_runnable (<[i := l]> (runnable_tasks q)) q)) by done.
    split_and!; try done; try lia. eapply park_parked; [|exact Hroom'|exact Hp].
    eapply with_runnable_wf; [done|done|by right].
Qed.

Definition demo_task (id : Z) (p : Priority) : Task := {| t_id := id; t_priority := p |}.

(** Two tasks of level 1 and one of level 3. *)
Definition demo_queue : option TaskQueue :=
  q ← enqueue (demo_task 1 L1) queue_new; q ← enqueue (demo_task 2 L3) q; enqueue (demo_task 3 L1) q.

Lemma demo_queue_wf : exists q, demo_queue = Some q /\ queue_wf q.
Proof.
  unfold demo_queue. destruct (enqueue_ok (demo_task 1 L1) _ queue_new_wf) as (q1 & -> & H1 & _). simpl.
  destruct (enqueue_ok (demo_task 2 L3) _ H1) as (q2 & -> & H2 & _). simpl.
  destruct (enqueue_ok (demo_task 3 L1) _ H2) as (q3 & -> & H3 & _). by exists q3.
Qed.

Lemma dequeue_highest_priority_witness :
  exists q next q', demo_queue = Some q /\ dequeue 7 (demo_task 0 L0) (Sleep 5) q = Some (next, q') /\ queue_wf q'.
Proof.
  destruct demo_queue_wf as (q & Hq & Hwf).
  destruct (dequeue_highest_priority 7 (demo_task 0 L0) (Sleep 5) q Hwf) as (next & q' & Hd & Hwf' & _).
  - assert (pending_id_gen q = 0) as Hg by (vm_compute in Hq; injection Hq as <-; reflexivity).
    unfold room. rewrite Hg. lia.
  - by exists q, next, q'.
Defined.

(** [release] makes every task that is blocked on the
    channel runnable, at the back of its level and in the order in which they
    blocked; tasks waiting for other channels stay, and no task is lost. *)
Theorem release_wakes_waiters (chan : Z) (q : TaskQueue) :
  queue_wf q -> exists q', release chan q = Some q' /\ queue_wf q' /\ queue_tasks q' ≡ₚ queue_tasks q /\
    blocks q' = delete chan (blocks q) /\
    (forall id, pending_tasks q' !! id = if decide (id ∈ default [] (blocks q !! chan)) then None else pending_tasks q !! id) /\
    forall i l, runnable_tasks q !! i = Some l ->
      runnable_tasks q' !! i = Some (l ++ woken i (default [] (blocks q !! chan)) (pending_tasks q)).
Proof.
  intros Hwf. destruct (release_ok chan q Hwf) as (q' & Hr & Hwf' & Hb & _ & Hp & _ & Hpend & Hrun). exists q'. by split_and!.
Qed.

Lemma release_wakes_waiters_witness :
  exists q q' q'', (q ← demo_queue; '(_, q) ← dequeue 7 (demo_task 0 L2) (Blocked 9 None) q; Some q) = Some q /\
    release 9 q = Some q' /\ release 9 q' = Some q''.
Proof.
  destruct demo_queue_wf as (q0 & Hq & Hwf).
  assert (Hroom : room 7 (Blocked 9 None) q0).
  { assert (pending_id_gen q0 = 0) as Hg by (vm_compute in Hq; injection Hq as <-; reflexivity). unfold room. rewrite Hg. lia. }
  destruct (dequeue_spec 7 (demo_task 0 L2) (Blocked 9 None) q0 Hwf Hroom) as [[_ Hd]|(i & n & l & q & _ & _ & _ & _ & Hd & Hwf1 & _)].
  - destruct (release_wakes_waiters 9 q0 Hwf) as (q' & Hr & Hwf' & _). destruct (release_wakes_waiters 9 q' Hwf') as (q'' & Hr' & _).
    exists q0, q', q''. rewrite Hq. simpl. by rewrite Hd.
  - destruct (release_wakes_waiters 9 q Hwf1) as (q' & Hr & Hwf' & _). destruct (release_wakes_waiters 9 q' Hwf') as (q'' & Hr' & _).
    exists q, q', q''. rewrite Hq. simpl. by rewrite Hd.
Defined.

(** [elapse] makes exactly the tasks runnable whose
    deadline has passed, in the order of their deadlines, and keeps the later
    deadlines; a task that was woken up before is not woken up again. *)
Theorem elapse_wakes_due (now : Z) (q : TaskQueue) :
  queue_wf q -> exists q', elapse now q = Some q' /\ queue_wf q' /\ queue_tasks q' ≡ₚ queue_tasks q /\
    timeouts q' = not_due now (timeouts q) /\
    (forall id, pending_tasks q' !! id = if decide (id ∈ timeout_id <$> due now (timeouts q)) then None else pending_tasks q !! id) /\
    forall i l, runnable_tasks q !! i = Some l ->
      runnable_tasks q' !! i = Some (l ++ woken i (timeout_id <$> due now (timeouts q)) (pending_tasks q)).
Proof.
  intros Hwf. destruct (elapse_ok now q Hwf) as (q' & Hr & Hwf' & Ht & Hp & _ & Hpend & Hrun). exists q'. by split_and!.
Qed.

Lemma elapse_wakes_due_witness :
  exists q q', demo_queue = Some q /\ elapse 100 q = Some q' /\ queue_wf q' /\ timeouts q' = not_due 100 (timeouts q).
Proof.
  destruct demo_queue_wf as (q & Hq & Hwf). destruct (elapse_wakes_due 100 q Hwf) as (q' & He & Hwf' & _ & Ht & _). by exists q, q'.
Defined.

(** Tasks of one priority that only yield take turns: with
    [ts] behind the current task at its level and nothing above, the task that runs
    after [n] yields is the [n]-th of them, and a full round restores the queue. *)
Theorem yield_round_robin (now : Z) (cur : Task) (ts : list Task) (q : TaskQueue) :
  queue_wf q -> top_level cur ts q ->
  (forall n t, (cur :: ts) !! n = Some t -> exists q', yields n now cur q = Some (t, q')) /\
  yields (S (length ts)) now cur q = Some (cur, q).
Proof.
  intros Hwf Htop. split.
  - intros n t Hn. destruct (yields_rotate now n cur ts q Hwf Htop) as (t' & q' & Hy & Hl & _).
    { apply lookup_lt_Some in Hn. simpl in Hn. lia. }
    exists q'. congruence.
  - by apply yields_round.
Qed.

Lemma yield_round_robin_witness :
  exists q, demo_queue = Some q /\ yields 2 7 (demo_task 0 L3) q = Some (demo_task 0 L3, q).
Proof.
  destruct demo_queue_wf as (q & Hq & Hwf). exists q. split; [done|].
  apply (yield_round_robin 7 (demo_task 0 L3) [demo_task 2 L3] q Hwf).
  assert (runnable_tasks q !! 3%nat = Some [demo_task 2 L3]) as Hl by (vm_compute in Hq; injection Hq as <-; reflexivity).
  split; [exact Hl|]. simpl. intros j l Hj. unfold SIZE in Hj. lia.
Defined.
