(* ===== verification/Scheduler.v ===== *)
(** * Switching between tasks (src/ors-kernel/src/task.rs, src/ors-kernel/src/context.rs)

    [TaskScheduler] as a transition system over the CPUs. A task stands for
    its stack and registers; its context keeps what a switch hands over: whether it
    has been saved, the thread state, the interrupt flag and where it goes on. The
    steps are what a CPU does while it holds the lock of the queue, the wait for
    a context that another CPU still saves, and the two halves of [switch_context]:
    up to the mark that the old context is saved, and from there to the jump into
    the new one. *)

From S2P Require Import Prelude Cpu Task.
Local Open Scope Z_scope.

(** Where a saved context goes on: at the entry of a new task, or behind
    [Context::switch] inside of [switch]. *)
Inductive resume_point := AtEntry | InSwitch.

Record Context := { saved : bool; cts : CpuThreadState; interrupt_flag : bool; resume : resume_point }.

(** [Context::new] *)
Definition context_new : Context := {| saved := true; cts := cts_new; interrupt_flag := true; resume := AtEntry |}.

(** [Context::uninitialized] *)
Definition uninitialized : Context := {| saved := false; cts := cts_new; interrupt_flag := false; resume := AtEntry |}.

(** What a CPU is doing: running the code of its task, waiting in [dequeue] until
    the context of [next] has been saved, in front of [Context::switch], or in
    [switch_context] behind the mark that [current] is saved: it then still uses
    the stack of [current] until [iret]. *)
Inductive phase :=
| Running
| WaitSaved (current next : Task)
| Switching (current next : Task)
| Restoring (current next : Task).

Record CpuState := { running_task : option Task; hart : Hart; at_ : phase }.

(** [queue_lock] is the CPU that holds the lock of the queue across a step. *)
Record System := {
  queue : TaskQueue;
  queue_lock : option nat;
  task_id_gen : Z;
  contexts : gmap Z Context;
  cpus : list CpuState;
  ticks : Z
}.

(** [TaskScheduler::new], with CPUs that start with the given interrupt flags. *)
Definition cpu_new (flag : bool) : CpuState :=
  {| running_task := None; hart := {| thread_state := cts_new; enabled := flag |}; at_ := Running |}.

Definition scheduler_new (flags : list bool) : System :=
  {| queue := queue_new; queue_lock := None; task_id_gen := 0; contexts := ∅; cpus := cpu_new <$> flags; ticks := 0 |}.

Definition set_cpu (c : nat) (x : CpuState) (s : System) : System :=
  {| queue := queue s; queue_lock := queue_lock s; task_id_gen := task_id_gen s; contexts := contexts s;
     cpus := <[c := x]> (cpus s); ticks := ticks s |}.

Definition set_hart (c : nat) (x : CpuState) (h : Hart) (s : System) : System :=
  set_cpu c {| running_task := running_task x; hart := h; at_ := at_ x |} s.

Definition set_queue (q : TaskQueue) (s : System) : System :=
  {| queue := q; queue_lock := queue_lock s; task_id_gen := task_id_gen s; contexts := contexts s;
     cpus := cpus s; ticks := ticks s |}.

Definition set_lock (l : option nat) (s : System) : System :=
  {| queue := queue s; queue_lock := l; task_id_gen := task_id_gen s; contexts := contexts s;
     cpus := cpus s; ticks := ticks s |}.

Definition set_context (id : Z) (ctx : Context) (s : System) : System :=
  {| queue := queue s; queue_lock := queue_lock s; task_id_gen := task_id_gen s; contexts := <[id := ctx]> (contexts s);
     cpus := cpus s; ticks := ticks s |}.

(** [issue_task_id]: [fetch_add] wraps around. *)
Definition issue_task_id (s : System) : Z * System :=
  (task_id_gen s,
   {| queue := queue s; queue_lock := queue_lock s; task_id_gen := (task_id_gen s + 1) mod 2 ^ 64; contexts := contexts s;
      cpus := cpus s; ticks := ticks s |}).

(** An operation of the queue under its lock, on the CPU [c]. *)
Definition with_queue (c : nat) (f : TaskQueue -> option TaskQueue) (s : System) : option System :=
  x ← cpus s !! c;
  h ← cli_new (hart x);
  q ← f (queue s);
  h ← cli_drop h;
  Some (set_hart c x h (set_queue q s)).

(** [add], with [Task::new]. *)
Definition add (c : nat) (p : Priority) (s : System) : option System :=
  let '(id, s) := issue_task_id s in
  with_queue c (enqueue {| t_id := id; t_priority := p |}) (set_context id context_new s).

(** [running_task.take()], or [Task::new_current] for a context that has no task. *)
Definition take_task (x : CpuState) (s : System) : Task * System :=
  match running_task x with
  | Some t => (t, s)
  | None =>
      let '(id, s) := issue_task_id s in
      ({| t_id := id; t_priority := MIN |}, set_context id uninitialized s)
  end.

(** [mark_as_not_saved] *)
Definition mark_as_not_saved (id : Z) (s : System) : option System :=
  ctx ← contexts s !! id;
  Some (set_context id {| saved := false; cts := cts ctx; interrupt_flag := interrupt_flag ctx; resume := resume ctx |} s).

(** The end of [switch] for a task that keeps the CPU: the lock of the queue is
    dropped, then the task is put back, then [cli] is dropped. *)
Definition switch_return (c : nat) (t : Task) (h : Hart) (s : System) : option System :=
  h ← cli_drop h;
  h ← cli_drop h;
  Some (set_cpu c {| running_task := Some t; hart := h; at_ := Running |} s).

(** [switch] up to the wait in [dequeue]. [scheduling_op] drops a guard first
    when [guard], and then answers [op]. *)
Definition switch_enter (c : nat) (op : option Switch) (guard : bool) (s : System) : option System :=
  let other_cli := if guard then 1 else 0 in
  x ← cpus s !! c;
  h ← cli_new (hart x);
  if negb (ncli (thread_state h) =? 1 + other_cli) then None
  else
    let '(current, s) := take_task x s in
    h ← cli_new h;
    h ← (if guard then cli_drop h else Some h);
    match op with
    | None => switch_return c current h s
    | Some sw =>
        '(next, q) ← dequeue (ticks s) current sw (queue s);
        match pop_highest (minimum_level current sw) SIZE (runnable_tasks (queue s)) with
        | Some _ =>
            s ← mark_as_not_saved (t_id current) s;
            Some (set_lock (Some c) (set_cpu c {| running_task := None; hart := h; at_ := WaitSaved current next |} (set_queue q s)))
        | None => switch_return c current h s
        end
    end.

(** The condition of the loop of [wait_saved]. *)
Definition is_saved (t : Task) (s : System) : bool :=
  match contexts s !! t_id t with Some ctx => saved ctx | None => false end.

(** Behind [wait_saved]: the lock of the queue is dropped, and the next task
    becomes the running one. *)
Definition switch_dequeued (c : nat) (s : System) : option System :=
  x ← cpus s !! c;
  match at_ x with
  | WaitSaved current next =>
      h ← cli_drop (hart x);
      match running_task x with
      | Some _ => None
      | None =>
          if t_id current =? t_id next then
            h ← cli_drop h;
            Some (set_lock None (set_cpu c {| running_task := Some next; hart := h; at_ := Running |} s))
          else Some (set_lock None (set_cpu c {| running_task := Some next; hart := h; at_ := Switching current next |} s))
      end
  | _ => None
  end.

(** [Context::switch] and the first half of [switch_context]: the thread states
    are exchanged and the registers are saved, and then [current] is marked as saved. *)
Definition context_save (c : nat) (s : System) : option System :=
  x ← cpus s !! c;
  match at_ x with
  | Switching current next =>
      nctx ← contexts s !! t_id next;
      let h := hart x in
      let s := set_context (t_id current)
        {| saved := true; cts := thread_state h; interrupt_flag := enabled h; resume := InSwitch |} s in
      let h := {| thread_state := cts nctx; enabled := enabled h |} in
      Some (set_cpu c {| running_task := running_task x; hart := h; at_ := Restoring current next |} s)
  | _ => None
  end.

(** The second half of [switch_context], which ends with [iret], and what the next
    context does first. *)
Definition context_restore (c : nat) (s : System) : option System :=
  x ← cpus s !! c;
  match at_ x with
  | Restoring current next =>
      nctx ← contexts s !! t_id next;
      let h := {| thread_state := thread_state (hart x); enabled := interrupt_flag nctx |} in
      h ← match resume nctx with InSwitch => cli_drop h | AtEntry => Some h end;
      Some (set_cpu c {| running_task := running_task x; hart := h; at_ := Running |} s)
  | _ => None
  end.

(** [yield], [block] and [sleep] *)
Definition yield (c : nat) (s : System) : option System := switch_enter c (Some Yield) false s.
Definition block (c : nat) (chan : Z) (timeout : option Z) (s : System) : option System :=
  switch_enter c (Some (Blocked chan timeout)) true s.
Definition sleep (c : nat) (t : Z) (s : System) : option System := switch_enter c (Some (Sleep t)) false s.

(** [TICKS.fetch_add], [elapse] and [release] *)
Definition tick (s : System) : System :=
  {| queue := queue s; queue_lock := queue_lock s; task_id_gen := task_id_gen s; contexts := contexts s;
     cpus := cpus s; ticks := (ticks s + 1) mod 2 ^ 64 |}.
Definition sched_elapse (c : nat) (s : System) : option System := with_queue c (elapse (ticks s)) s.
Definition sched_release (c : nat) (chan : Z) (s : System) : option System := with_queue c (release chan) s.

(** [issue_wait_channel] on the counter: [fetch_sub] wraps around. *)
Definition issue_wait_channel (wait_channel_gen : Z) : Z * Z :=
  (wait_channel_gen, if wait_channel_gen =? - 2 ^ 63 then 2 ^ 63 - 1 else wait_channel_gen - 1).

(** [WaitChannel::from_ptr_index] for the address [ptr]; [None] is the overflow. *)
Definition from_ptr_index (ptr index : Z) : option Z :=
  let p := if ptr <? 2 ^ 63 then ptr else ptr - 2 ^ 64 in
  if (- 2 ^ 63 <=? p + index) && (p + index <? 2 ^ 63) then Some (Z.land (p + index) (2 ^ 63 - 1)) else None.

(** ** The transition system *)

(** The CPU [c] runs a task and is free to take the lock of the queue. *)
Definition ready (s : System) (c : nat) : Prop :=
  queue_lock s = None /\ exists x, cpus s !! c = Some x /\ at_ x = Running.

Inductive step : System -> System -> Prop :=
| step_add c p s s' :
    ready s c -> task_id_gen s + 1 < 2 ^ 64 -> add c p s = Some s' -> step s s'
| step_switch c op guard s s' :
    ready s c -> task_id_gen s + 1 < 2 ^ 64 -> 0 <= ticks s ->
    match op with Some sw => room (ticks s) sw (queue s) | None => True end ->
    switch_enter c op guard s = Some s' -> step s s'
| step_dequeued c x current next s s' :
    cpus s !! c = Some x -> at_ x = WaitSaved current next -> is_saved next s = true ->
    switch_dequeued c s = Some s' -> step s s'
| step_context_save c s s' :
    context_save c s = Some s' -> step s s'
| step_context_restore c s s' :
    context_restore c s = Some s' -> step s s'
| step_release c chan s s' :
    ready s c -> sched_release c chan s = Some s' -> step s s'
| step_elapse c s s' :
    ready s c -> sched_elapse c s = Some s' -> step s s'
| step_tick s : step s (tick s)
| step_cli c x b h s :
    cpus s !! c = Some x -> at_ x = Running -> apply_bracket b (hart x) = Some h -> step s (set_hart c x h s)
| step_flag c x b s :
    cpus s !! c = Some x -> at_ x = Running -> ncli (thread_state (hart x)) = 0 ->
    step s (set_hart c x {| thread_state := thread_state (hart x); enabled := b |} s).

Definition reachable (flags : list bool) (s : System) : Prop := rtc step (scheduler_new flags) s.

(** ** The invariant *)

(** The task a CPU has taken out of the queue. *)
Definition hand (x : CpuState) : option Task :=
  match at_ x with WaitSaved _ next => Some next | _ => running_task x end.

(** The task whose context a CPU is about to save. *)
Definition leaving (x : CpuState) : option Task :=
  match at_ x with WaitSaved current _ | Switching current _ => Some current | _ => None end.

(** The saved context a CPU is about to resume. *)
Definition incoming (x : CpuState) : option Task :=
  match at_ x with Switching _ next | Restoring _ next => Some next | _ => None end.

(** The task on whose stack a CPU executes. *)
Definition executing (x : CpuState) : option Task :=
  match at_ x with
  | Running => running_task x
  | WaitSaved current _ | Switching current _ | Restoring current _ => Some current
  end.

Definition restoring (x : CpuState) : bool :=
  match at_ x with Restoring _ _ => true | _ => false end.

(** The ids of the tasks in the queue. *)
Definition queued (s : System) : list Z := t_id <$> queue_tasks (queue s).

Definition held (s : System) (c : nat) (id : Z) : Prop :=
  exists x t, cpus s !! c = Some x /\ hand x = Some t /\ t_id t = id.

Definition saving (s : System) (c : nat) (id : Z) : Prop :=
  exists x t, cpus s !! c = Some x /\ leaving x = Some t /\ t_id t = id.

Definition runs_task (s : System) (c : nat) (id : Z) : Prop :=
  exists x t, cpus s !! c = Some x /\ at_ x = Running /\ running_task x = Some t /\ t_id t = id.

(** A saved context can be resumed. *)
Definition context_ok (ctx : Context) : Prop :=
  match resume ctx with
  | AtEntry => cts ctx = cts_new
  | InSwitch => ncli (cts ctx) = 1 /\ interrupt_flag ctx = false
  end.

Definition cpu_ok (x : CpuState) : Prop :=
  match at_ x with
  | Running => consistent (hart x)
  | WaitSaved current next =>
      running_task x = None /\ ncli (thread_state (hart x)) = 2 /\ enabled (hart x) = false /\ t_id current <> t_id next
  | Switching current next =>
      running_task x = Some next /\ ncli (thread_state (hart x)) = 1 /\ enabled (hart x) = false /\ t_id current <> t_id next
  | Restoring current next =>
      running_task x = Some next /\ enabled (hart x) = false /\ t_id current <> t_id next
  end.

(** The context [ctx] can be resumed by [x]. *)
Definition arriving (x : CpuState) (ctx : Context) : Prop :=
  saved ctx = true /\ (restoring x = true -> thread_state (hart x) = cts ctx).

Record sys_inv (s : System) : Prop := {
  si_queue : queue_wf (queue s);
  si_gen : 0 <= task_id_gen s;
  si_located : forall id, 0 <= id < task_id_gen s <-> id ∈ queued s \/ exists c, held s c id;
  si_queued : NoDup (queued s);
  si_apart : forall c id, held s c id -> id ∉ queued s;
  si_held : forall c c' id, held s c id -> held s c' id -> c = c';
  si_ctx : forall id, is_Some (contexts s !! id) <-> 0 <= id < task_id_gen s;
  si_saved : forall id ctx, contexts s !! id = Some ctx -> saved ctx = true -> context_ok ctx;
  si_unsaved : forall id ctx, contexts s !! id = Some ctx -> saved ctx = false ->
    (exists c, runs_task s c id) \/ (exists c, saving s c id);
  si_saving : forall c id, saving s c id -> exists ctx, contexts s !! id = Some ctx /\ saved ctx = false;
  si_saving_inj : forall c c' id, saving s c id -> saving s c' id -> c = c';
  si_runs : forall c c' id, runs_task s c id -> saving s c' id -> False;
  si_next : forall c x t, cpus s !! c = Some x -> incoming x = Some t -> exists ctx, contexts s !! t_id t = Some ctx /\ arriving x ctx;
  si_lock : forall c, queue_lock s = Some c <-> exists x current next, cpus s !! c = Some x /\ at_ x = WaitSaved current next;
  si_cpu : forall c x, cpus s !! c = Some x -> cpu_ok x
}.

Lemma incoming_hand x t : incoming x = Some t -> cpu_ok x -> hand x = Some t.
Proof. unfold incoming, cpu_ok, hand. destruct (at_ x); intros; naive_solver. Qed.

Lemma runs_task_held s c id : runs_task s c id -> held s c id.
Proof. intros (x & t & Hx & Hat & Ht & Hid). exists x, t. unfold hand. by rewrite Hat. Qed.

(** ** Interrupt locks on the way *)

Lemma bracket_consistent b h h' : consistent h -> apply_bracket b h = Some h' -> consistent h'.
Proof.
  intros [Hn He] Hb. destruct b; simpl in Hb; unfold cli_new, cli_drop, add_checked, sub_checked in Hb.
  - apply bind_Some in Hb as (d & Hd & [= <-]). apply checked_inv in Hd as [-> Hd]. unfold unsigned in Hd. split; simpl; [lia|done].
  - destruct (enabled h) eqn:Hen; [done|]. apply bind_Some in Hb as (d & Hd & [= <-]). apply checked_inv in Hd as [-> Hd]. unfold unsigned in Hd.
    split; simpl; [lia|]. intros H. rewrite (proj2 (Z.eqb_neq _ _)) by lia. done.
Qed.

Lemma cli_new_inv h h' : cli_new h = Some h' -> ncli (thread_state h') = ncli (thread_state h) + 1 /\ enabled h' = false.
Proof.
  unfold cli_new, add_checked. intros (d & Hd & [= <-])%bind_Some. by apply checked_inv in Hd as [-> _].
Qed.

Lemma cli_drop_inv h h' : cli_drop h = Some h' -> ncli (thread_state h') = ncli (thread_state h) - 1 /\
  (ncli (thread_state h) <> 1 -> enabled h' = false) /\ enabled h = false.
Proof.
  unfold cli_drop, sub_checked. destruct (enabled h); [done|]. intros (d & Hd & [= <-])%bind_Some.
  apply checked_inv in Hd as [-> _]. simpl. split_and!; try done. intros Hne. by rewrite (proj2 (Z.eqb_neq _ _)) by lia.
Qed.

Lemma cli_drop_Some h : enabled h = false -> 0 < ncli (thread_state h) < 2 ^ 32 -> exists h', cli_drop h = Some h'.
Proof. intros He Hn. unfold cli_drop, sub_checked. rewrite He, checked_Some by (unfold unsigned; lia). simpl. eauto. Qed.

Lemma cli_new_Some h : 0 <= ncli (thread_state h) < 2 ^ 32 - 1 -> exists h', cli_new h = Some h'.
Proof. intros Hn. unfold cli_new, add_checked. rewrite checked_Some by (unfold unsigned; lia). simpl. eauto. Qed.

(** ** Changing one CPU *)

Section one_cpu.
Context (s s' : System) (c : nat) (x x' : CpuState).
Context (Hc : cpus s !! c = Some x) (Hs' : cpus s' = <[c := x']> (cpus s)).

Lemma cpu_at : cpus s' !! c = Some x'.
Proof using Hc Hs'. rewrite Hs'. apply list_lookup_insert_eq. by apply lookup_lt_Some in Hc. Qed.

Lemma cpu_other c' : c' <> c -> cpus s' !! c' = cpus s !! c'.
Proof using Hs'. intros Hne. rewrite Hs'. by rewrite list_lookup_insert_ne by done. Qed.

Lemma cpu_cases c' y : cpus s' !! c' = Some y -> (c' = c /\ y = x') \/ (c' <> c /\ cpus s !! c' = Some y).
Proof using Hc Hs'.
  intros Hy. destruct (decide (c' = c)) as [->|Hne]; [left|right].
  - rewrite cpu_at in Hy. by simplify_eq.
  - by rewrite <- cpu_other.
Qed.

Lemma held_at id : held s' c id <-> exists t, hand x' = Some t /\ t_id t = id.
Proof using Hc Hs'.
  unfold held. rewrite cpu_at. split; [intros (y & t & [= <-] & ?); by exists t|]. intros (t & ?). by exists x', t.
Qed.

Lemma held_other c' id : c' <> c -> held s' c' id <-> held s c' id.
Proof using Hs'. intros Hne. unfold held. by rewrite (cpu_other c' Hne). Qed.

Lemma saving_at id : saving s' c id <-> exists t, leaving x' = Some t /\ t_id t = id.
Proof using Hc Hs'.
  unfold saving. rewrite cpu_at. split; [intros (y & t & [= <-] & ?); by exists t|]. intros (t & ?). by exists x', t.
Qed.

Lemma saving_other c' id : c' <> c -> saving s' c' id <-> saving s c' id.
Proof using Hs'. intros Hne. unfold saving. by rewrite (cpu_other c' Hne). Qed.

Lemma runs_at id : runs_task s' c id <-> at_ x' = Running /\ exists t, running_task x' = Some t /\ t_id t = id.
Proof using Hc Hs'.
  unfold runs_task. rewrite cpu_at. split; [intros (y & t & [= <-] & ? & ?); eauto|]. intros (? & t & ?). by exists x', t.
Qed.

Lemma runs_other c' id : c' <> c -> runs_task s' c' id <-> runs_task s c' id.
Proof using Hs'. intros Hne. unfold runs_task. by rewrite (cpu_other c' Hne). Qed.

(** Nothing about the tasks of [c] has changed. *)
Lemma one_cpu_same :
  hand x' = hand x -> leaving x' = leaving x -> at_ x' = Running -> at_ x = Running ->
  (forall c' id, held s' c' id <-> held s c' id) /\ (forall c' id, saving s' c' id <-> saving s c' id) /\
  (forall c' id, runs_task s' c' id <-> runs_task s c' id).
Proof using Hc Hs'.
  intros Hh Hl Hr' Hr. assert (Hrt : running_task x' = running_task x) by (unfold hand in Hh; by rewrite Hr, Hr' in Hh).
  split_and!; intros c' id; (destruct (decide (c' = c)) as [->|Hne]; [|by auto using held_other, saving_other, runs_other]).
  - rewrite held_at, Hh. unfold held. rewrite Hc. naive_solver.
  - rewrite saving_at, Hl. unfold saving. rewrite Hc. naive_solver.
  - rewrite runs_at, Hrt. unfold runs_task. rewrite Hc. naive_solver.
Qed.

End one_cpu.

(** ** The steps preserve the invariant *)

(** Steps that move no task on or off a CPU. *)
Lemma inv_local s s' c x h :
  sys_inv s -> cpus s !! c = Some x -> at_ x = Running -> consistent h ->
  cpus s' = <[c := {| running_task := running_task x; hart := h; at_ := Running |}]> (cpus s) ->
  contexts s' = contexts s -> task_id_gen s' = task_id_gen s -> queue_lock s' = queue_lock s ->
  queue_wf (queue s') -> queue_tasks (queue s') ≡ₚ queue_tasks (queue s) -> sys_inv s'.
Proof.
  intros Hinv Hc Hat Hh Hcpus Hctx Hgen Hlock Hwf Hperm.
  destruct (one_cpu_same s s' c x _ Hc Hcpus) as (Hheld & Hsav & Hruns); [unfold hand; by rewrite Hat|unfold leaving; by rewrite Hat|done|done|].
  assert (Hq : queued s' ≡ₚ queued s) by (unfold queued; by rewrite Hperm).
  destruct Hinv. split; try done; rewrite ?Hgen, ?Hctx; try done; setoid_rewrite Hheld || idtac; try done.
  all: try (by setoid_rewrite Hsav); try (by setoid_rewrite Hruns; setoid_rewrite Hsav).
  - intros id. rewrite Hq. apply si_located0.
  - by rewrite Hq.
  - intros c' id. rewrite Hq. apply si_apart0.
  - intros c' y t Hy Hin. destruct (cpu_cases s s' c x _ Hc Hcpus c' y Hy) as [[-> ->]|[_ Hy']]; [done|]. by eapply si_next0.
  - intros c'. rewrite Hlock, si_lock0. destruct (decide (c' = c)) as [->|Hne].
    + rewrite Hc, (cpu_at s s' c x _ Hc Hcpus). split; intros (y & cur & next & [= <-] & Hy); simpl in Hy; congruence.
    + by rewrite (cpu_other s s' c _ Hcpus c' Hne).
  - intros c' y Hy. destruct (cpu_cases s s' c x _ Hc Hcpus c' y Hy) as [[-> ->]|[_ Hy']]; [done|]. by eapply si_cpu0.
Qed.

(** A new task in the queue. *)
Lemma inv_created s s' t :
  sys_inv s -> cpus s' = cpus s -> queue_lock s' = queue_lock s -> t_id t = task_id_gen s ->
  task_id_gen s' = task_id_gen s + 1 -> contexts s' = <[task_id_gen s := context_new]> (contexts s) ->
  queue_wf (queue s') -> queue_tasks (queue s') ≡ₚ t :: queue_tasks (queue s) -> sys_inv s'.
Proof.
  intros [] Hcpus Hlock Hid Hgen Hctx Hwf Hperm.
  assert (Hq : queued s' ≡ₚ task_id_gen s :: queued s) by (unfold queued; rewrite Hperm; simpl; by rewrite Hid).
  assert (Hh : forall c id, held s' c id <-> held s c id) by (intros; unfold held; by rewrite Hcpus).
  assert (Hfresh : contexts s !! task_id_gen s = None) by (apply eq_None_not_Some; intros Hn; apply si_ctx0 in Hn; lia).
  assert (Hnew : forall c id, held s c id -> id <> task_id_gen s).
  { intros c id Hc ->. assert (0 <= task_id_gen s < task_id_gen s) by (apply si_located0; eauto). lia. }
  assert (Hsv : forall id ctx, contexts s' !! id = Some ctx -> saved ctx = false -> contexts s !! id = Some ctx).
  { intros id ctx. rewrite Hctx. intros [[<- <-]|[_ ?]]%lookup_insert_Some; done. }
  split; try done; rewrite ?Hgen; unfold saving, runs_task; rewrite ?Hcpus, ?Hlock; try done.
  - lia.
  - intros id. rewrite Hq, elem_of_cons. setoid_rewrite Hh. pose proof (si_located0 id). split; [|naive_solver lia].
    intros Hr. destruct (decide (id = task_id_gen s)); [auto|]. assert (0 <= id < task_id_gen s) by lia. tauto.
  - rewrite Hq. apply NoDup_cons. split; [|done]. intros Hin. assert (0 <= task_id_gen s < task_id_gen s) by (apply si_located0; auto). lia.
  - intros c id Hc. apply Hh in Hc. rewrite Hq. apply not_elem_of_cons. eauto.
  - intros c c' id Hc Hc'. apply Hh in Hc, Hc'. eauto.
  - intros id. rewrite Hctx, lookup_insert_is_Some, si_ctx0. lia.
  - intros id ctx. rewrite Hctx. intros [[<- <-]|[_ Hc]]%lookup_insert_Some Hs; [done|eauto].
  - intros id ctx Hc Hs. eapply si_unsaved0; [by apply Hsv|done].
  - intros c id Hc. destruct (si_saving0 c id Hc) as (ctx & Hx & Hs). exists ctx. split; [|done]. rewrite Hctx.
    rewrite lookup_insert_ne; [done|]. intros <-. congruence.
  - intros c x u Hx Hin. destruct (si_next0 c x u Hx Hin) as (ctx & Hu & ?). exists ctx. split; [|done]. rewrite Hctx.
    rewrite lookup_insert_ne; [done|]. intros E. by rewrite <- E, Hfresh in Hu.
Qed.

Lemma current_view s s' c x x' t :
  cpus s !! c = Some x -> cpus s' = <[c := x']> (cpus s) -> at_ x = Running -> running_task x = None ->
  at_ x' = Running -> running_task x' = Some t ->
  (forall c' id, held s' c' id <-> held s c' id \/ c' = c /\ id = t_id t) /\
  (forall c' id, saving s' c' id <-> saving s c' id) /\
  (forall c' id, runs_task s' c' id <-> runs_task s c' id \/ c' = c /\ id = t_id t).
Proof.
  intros Hc Hcpus Hat Hnone Hat' Ht.
  assert (Hno : forall id, ~ held s c id).
  { intros id (y & t' & Hy & Ht' & _). unfold hand in Ht'. simplify_eq. rewrite Hat in Ht'. congruence. }
  split_and!; intros c' id; (destruct (decide (c' = c)) as [->|Hne]).
  - rewrite (held_at s s' c x _ Hc Hcpus). unfold hand. rewrite Hat', Ht. specialize (Hno id). naive_solver.
  - rewrite (held_other s s' c _ Hcpus c' id Hne). naive_solver.
  - rewrite (saving_at s s' c x _ Hc Hcpus). unfold saving, leaving. rewrite Hc, Hat'. split; [naive_solver|].
    intros (y & t' & [= <-] & Hl & _). by rewrite Hat in Hl.
  - exact (saving_other s s' c _ Hcpus c' id Hne).
  - rewrite (runs_at s s' c x _ Hc Hcpus), Ht. split; [naive_solver|]. intros [Hr%runs_task_held|[_ ->]]; [by apply Hno in Hr|eauto].
  - rewrite (runs_other s s' c _ Hcpus c' id Hne). naive_solver.
Qed.

(** A context that is running becomes a task. *)
Lemma inv_current s s' c x h t :
  sys_inv s -> cpus s !! c = Some x -> at_ x = Running -> running_task x = None -> consistent h ->
  t_id t = task_id_gen s -> task_id_gen s' = task_id_gen s + 1 -> contexts s' = <[task_id_gen s := uninitialized]> (contexts s) ->
  cpus s' = <[c := {| running_task := Some t; hart := h; at_ := Running |}]> (cpus s) ->
  queue s' = queue s -> queue_lock s' = queue_lock s -> sys_inv s'.
Proof.
  intros [] Hc Hat Hnone Hcons Hid Hgen Hctx Hcpus Hqueue Hlock.
  assert (Hq : queued s' = queued s) by (unfold queued; by rewrite Hqueue).
  assert (Hfresh : contexts s !! task_id_gen s = None) by (apply eq_None_not_Some; intros Hn; apply si_ctx0 in Hn; lia).
  assert (Hnew : forall c id, held s c id -> id <> task_id_gen s).
  { intros c' id Hc' ->. assert (0 <= task_id_gen s < task_id_gen s) by (apply si_located0; eauto). lia. }
  destruct (current_view s s' c x _ t Hc Hcpus Hat Hnone) as (Hh & Hs & Hr); [done..|]. rewrite Hid in Hh, Hr.
  split; try done; rewrite ?Hgen, ?Hqueue, ?Hq, ?Hlock; try done.
  - lia.
  - intros id. setoid_rewrite Hh. pose proof (si_located0 id). split; [|naive_solver lia].
    intros Hrg. destruct (decide (id = task_id_gen s)); [right; eauto|]. assert (Hin : 0 <= id < task_id_gen s) by lia.
    apply H in Hin as [?|[c' ?]]; eauto.
  - intros c' id [Hc'|[-> ->]]%Hh; [eauto|]. intros Hin. assert (0 <= task_id_gen s < task_id_gen s) by (apply si_located0; auto). lia.
  - intros c1 c2 id [H1|[-> ->]]%Hh [H2|[-> E2]]%Hh; [eauto|by apply Hnew in H1|by apply Hnew in H2|done].
  - intros id. rewrite Hctx, lookup_insert_is_Some, si_ctx0. lia.
  - intros id ctx. rewrite Hctx. intros [[<- <-]|[_ Hx]]%lookup_insert_Some Hsv; [done|eauto].
  - intros id ctx. rewrite Hctx. intros [[<- <-]|[_ Hx]]%lookup_insert_Some Hsv; [left; exists c; apply Hr; auto|].
    destruct (si_unsaved0 id ctx Hx Hsv) as [[c' ?]|[c' ?]]; [left; exists c'; apply Hr; auto|right; exists c'; by apply Hs].
  - intros c' id Hsv%Hs. destruct (si_saving0 c' id Hsv) as (ctx & Hx & ?). exists ctx. split; [|done]. rewrite Hctx.
    rewrite lookup_insert_ne; [done|]. intros <-. congruence.
  - intros c1 c2 id H1%Hs H2%Hs. eauto.
  - intros c1 c2 id [H1|[-> ->]]%Hr H2%Hs; [eauto|]. destruct (si_saving0 c2 _ H2) as (ctx & Hx & _). congruence.
  - intros c' y u Hy Hin. destruct (cpu_cases s s' c x _ Hc Hcpus c' y Hy) as [[-> ->]|[_ Hy']]; [done|].
    destruct (si_next0 c' y u Hy' Hin) as (ctx & Hu & ?). exists ctx. split; [|done]. rewrite Hctx.
    rewrite lookup_insert_ne; [done|]. intros E. by rewrite <- E, Hfresh in Hu.
  - intros c'. rewrite si_lock0. destruct (decide (c' = c)) as [->|Hne].
    + rewrite Hc, (cpu_at s s' c x _ Hc Hcpus). split; intros (y & cur & next & [= <-] & Hy); simpl in Hy; congruence.
    + by rewrite (cpu_other s s' c _ Hcpus c' Hne).
  - intros c' y Hy. destruct (cpu_cases s s' c x _ Hc Hcpus c' y Hy) as [[-> ->]|[_ Hy']]; [done|]. by eapply si_cpu0.
Qed.

(** The running task gives up its CPU, and [next] leaves the queue. *)
Lemma park_view s s' c x x' current next :
  cpus s !! c = Some x -> cpus s' = <[c := x']> (cpus s) -> at_ x = Running -> running_task x = Some current ->
  at_ x' = WaitSaved current next ->
  (forall c' id, held s' c' id <-> c' <> c /\ held s c' id \/ c' = c /\ id = t_id next) /\
  (forall c' id, saving s' c' id <-> saving s c' id \/ c' = c /\ id = t_id current) /\
  (forall c' id, runs_task s' c' id <-> c' <> c /\ runs_task s c' id) /\
  held s c (t_id current) /\ runs_task s c (t_id current) /\ (forall id, held s c id -> id = t_id current).
Proof.
  intros Hc Hcpus Hat Ht Hat'. assert (Hrun : runs_task s c (t_id current)) by by exists x, current. split_and!.
  - intros c' id. destruct (decide (c' = c)) as [->|Hne].
    + rewrite (held_at s s' c x _ Hc Hcpus). unfold hand. rewrite Hat'. naive_solver.
    + rewrite (held_other s s' c _ Hcpus c' id Hne). naive_solver.
  - intros c' id. destruct (decide (c' = c)) as [->|Hne].
    + rewrite (saving_at s s' c x _ Hc Hcpus). unfold saving, leaving. rewrite Hat', Hc. split; [naive_solver|].
      intros [(y & t & [= <-] & Hl & _)|[_ ->]]; [by rewrite Hat in Hl|eauto].
    + rewrite (saving_other s s' c _ Hcpus c' id Hne). naive_solver.
  - intros c' id. destruct (decide (c' = c)) as [->|Hne].
    + rewrite (runs_at s s' c x _ Hc Hcpus), Hat'. naive_solver.
    + rewrite (runs_other s s' c _ Hcpus c' id Hne). naive_solver.
  - by apply runs_task_held.
  - done.
  - intros id (y & t & Hy & Hl & <-). unfold hand in Hl. simplify_eq. rewrite Hat in Hl. congruence.
Qed.

Lemma inv_park s s' c x h current next ctx :
  sys_inv s -> queue_lock s = None -> cpus s !! c = Some x -> at_ x = Running -> running_task x = Some current ->
  ncli (thread_state h) = 2 -> enabled h = false -> saved ctx = false ->
  cpus s' = <[c := {| running_task := None; hart := h; at_ := WaitSaved current next |}]> (cpus s) ->
  contexts s' = <[t_id current := ctx]> (contexts s) -> task_id_gen s' = task_id_gen s -> queue_lock s' = Some c ->
  queue_wf (queue s') -> next ∈ queue_tasks (queue s) -> next :: queue_tasks (queue s') ≡ₚ current :: queue_tasks (queue s) -> sys_inv s'.
Proof.
  intros [] Hfree Hc Hat Ht Hn Hen Hctx Hcpus Hctxs Hgen Hlock Hwf Hnext Hperm.
  destruct (park_view s s' c x _ current next Hc Hcpus Hat Ht) as (Hh & Hs & Hr & Hcur & Hrun & Honly); [done|].
  assert (Hq : t_id next :: queued s' ≡ₚ t_id current :: queued s) by (exact (fmap_Permutation t_id _ _ Hperm)).
  assert (Hnq : t_id next ∈ queued s) by (apply list_elem_of_fmap; eauto).
  assert (Hapart : t_id current ∉ queued s) by by eapply si_apart0.
  assert (Hne : t_id current <> t_id next) by (intros E; by rewrite E in Hapart).
  assert (Hnd : NoDup (t_id next :: queued s')) by (rewrite Hq; by apply NoDup_cons).
  apply NoDup_cons in Hnd as [Hnn Hnd]. assert (Hin : forall id, id ∈ queued s' <-> id <> t_id next /\ (id = t_id current \/ id ∈ queued s)).
  { intros id. rewrite <- elem_of_cons, <- Hq, elem_of_cons. split; [|naive_solver]. intros Hid. split; [|auto]. by intros ->. }
  split; try done; rewrite ?Hgen; try done.
  - intros id. rewrite si_located0. rewrite Hin. setoid_rewrite Hh. split.
    + intros [Hid|[c' Hid]].
      * destruct (decide (id = t_id next)) as [->|]; [right; exists c; auto|left; auto].
      * destruct (decide (c' = c)) as [->|]; [apply Honly in Hid as ->; left; auto|right; eauto].
    + intros [[_ [->|Hid]]|[c' [[_ Hid]|[-> ->]]]]; eauto.
  - intros c' id. rewrite Hin. intros [[Hne' Hid]|[-> ->]]%Hh; [|naive_solver]. intros [_ [->|Hq']]; [|by eapply si_apart0].
    by rewrite (si_held0 _ _ _ Hid Hcur) in Hne'.
  - intros c1 c2 id [[H1 H1']|[-> ->]]%Hh [[H2 H2']|[-> E]]%Hh; try done; [eauto|subst id; by apply si_apart0 in H1'|by apply si_apart0 in H2'].
  - intros id. rewrite Hctxs, lookup_insert_is_Some, <- si_ctx0. split; [|by destruct (decide (t_id current = id)); auto].
    intros [<-|[_ ?]]; [|done]. apply si_ctx0, si_located0. eauto.
  - intros id k. rewrite Hctxs. intros [[<- <-]|[_ Hk]]%lookup_insert_Some Hsv; [congruence|eauto].
  - intros id k. rewrite Hctxs. intros [[<- <-]|[Hidne Hk]]%lookup_insert_Some Hsv; [right; exists c; apply Hs; auto|].
    destruct (si_unsaved0 id k Hk Hsv) as [[c' Hr']|[c' Hs']]; [left|right; exists c'; apply Hs; auto]. exists c'. apply Hr. split; [|done].
    intros ->. apply runs_task_held, Honly in Hr'. congruence.
  - intros c' id Hid. rewrite Hctxs. destruct (decide (id = t_id current)) as [->|Hidne]; [rewrite lookup_insert_eq; eauto|].
    rewrite lookup_insert_ne by done. apply Hs in Hid as [Hid|[_ ->]]; [eauto|done].
  - intros c1 c2 id [H1|[-> ->]]%Hs [H2|[-> E]]%Hs; try done; [eauto|subst id; exfalso; eauto|exfalso; eauto].
  - intros c1 c2 id [H1 H1']%Hr [H2|[-> ->]]%Hs; [eauto|]. apply H1. eapply si_held0; [by apply runs_task_held|done].
  - intros c' y u Hy Hinc. destruct (cpu_cases s s' c x _ Hc Hcpus c' y Hy) as [[-> ->]|[Hne' Hy']]; [done|].
    destruct (si_next0 c' y u Hy' Hinc) as (k & Hu & ?). exists k. split; [|done]. rewrite Hctxs, lookup_insert_ne; [done|]. intros E. apply Hne'.
    eapply si_held0; [|exact Hcur]. exists y, u. split_and!; [done| |done]. apply incoming_hand; [done|by eapply si_cpu0].
  - intros c'. rewrite Hlock. destruct (decide (c' = c)) as [->|Hne'].
    + rewrite (cpu_at s s' c x _ Hc Hcpus). naive_solver.
    + rewrite (cpu_other s s' c _ Hcpus c' Hne'), <- si_lock0, Hfree. naive_solver.
  - intros c' y Hy. destruct (cpu_cases s s' c x _ Hc Hcpus c' y Hy) as [[-> ->]|[_ Hy']]; [done|]. by eapply si_cpu0.
Qed.

Lemma dequeued_view s s' c x x' current next :
  cpus s !! c = Some x -> cpus s' = <[c := x']> (cpus s) -> at_ x = WaitSaved current next ->
  at_ x' = Switching current next -> running_task x' = Some next ->
  (forall c' id, held s' c' id <-> held s c' id) /\ (forall c' id, saving s' c' id <-> saving s c' id) /\
  (forall c' id, runs_task s' c' id <-> runs_task s c' id).
Proof.
  intros Hc Hcpus Hat Hat' Ht. split_and!; intros c' id; (destruct (decide (c' = c)) as [->|Hne];
    [|first [exact (held_other s s' c _ Hcpus c' id Hne) | exact (saving_other s s' c _ Hcpus c' id Hne) |
             exact (runs_other s s' c _ Hcpus c' id Hne)]]).
  - rewrite (held_at s s' c x _ Hc Hcpus). unfold held, hand. rewrite Hc, Hat', Ht.
    split; [intros (t & ? & ?); exists x, t; by rewrite Hat|]. intros (y & t & [= <-] & Hl & ?). rewrite Hat in Hl. eauto.
  - rewrite (saving_at s s' c x _ Hc Hcpus). unfold saving, leaving. rewrite Hc, Hat'.
    split; [intros (t & ? & ?); exists x, t; by rewrite Hat|]. intros (y & t & [= <-] & Hl & ?). rewrite Hat in Hl. eauto.
  - rewrite (runs_at s s' c x _ Hc Hcpus), Hat'. unfold runs_task. rewrite Hc. split; [by intros [? _]|]. intros (y & t & [= <-] & ? & _). congruence.
Qed.

(** The wait for the next context ends. *)
Lemma inv_dequeued s s' c x h current next :
  sys_inv s -> cpus s !! c = Some x -> at_ x = WaitSaved current next -> is_saved next s = true ->
  ncli (thread_state h) = 1 -> enabled h = false ->
  cpus s' = <[c := {| running_task := Some next; hart := h; at_ := Switching current next |}]> (cpus s) ->
  contexts s' = contexts s -> task_id_gen s' = task_id_gen s -> queue_lock s' = None -> queue s' = queue s -> sys_inv s'.
Proof.
  intros [] Hc Hat Hsaved Hn Hen Hcpus Hctx Hgen Hlock Hqueue.
  assert (Hlk : queue_lock s = Some c) by (apply si_lock0; eauto).
  assert (Hq : queued s' = queued s) by (unfold queued; by rewrite Hqueue).
  destruct (dequeued_view s s' c x _ current next Hc Hcpus Hat) as (Hh & Hs & Hr); [done..|].
  split; try done; rewrite ?Hgen, ?Hctx, ?Hqueue, ?Hq; try done; setoid_rewrite Hh || idtac; try done.
  all: try (by setoid_rewrite Hs); try (by setoid_rewrite Hr; setoid_rewrite Hs).
  - intros c' y u Hy Hin. destruct (cpu_cases s s' c x _ Hc Hcpus c' y Hy) as [[-> ->]|[Hne' Hy']]; [|by eapply si_next0].
    injection Hin as <-. unfold is_saved in Hsaved. destruct (contexts s !! t_id next) as [k|]; [|done]. by exists k.
  - intros c'. rewrite Hlock. destruct (decide (c' = c)) as [->|Hne].
    + rewrite (cpu_at s s' c x _ Hc Hcpus). split; [done|]. by intros (y & cur & nx & [= <-] & ?).
    + rewrite (cpu_other s s' c _ Hcpus c' Hne), <- si_lock0, Hlk. split; [done|]. by intros [= ->].
  - intros c' y Hy. destruct (cpu_cases s s' c x _ Hc Hcpus c' y Hy) as [[-> ->]|[_ Hy']]; [|by eapply si_cpu0].
    specialize (si_cpu0 c x Hc). unfold cpu_ok in *. rewrite Hat in si_cpu0. simpl. by destruct si_cpu0 as (_ & _ & _ & ?).
Qed.

(** The context of the current task is saved. *)
Lemma save_view s s' c x x' current next :
  cpus s !! c = Some x -> cpus s' = <[c := x']> (cpus s) -> at_ x = Switching current next -> running_task x = Some next ->
  at_ x' = Restoring current next -> running_task x' = Some next ->
  (forall c' id, held s' c' id <-> held s c' id) /\
  (forall c' id, saving s' c' id <-> c' <> c /\ saving s c' id) /\
  (forall c' id, runs_task s' c' id <-> runs_task s c' id) /\
  (forall id, saving s c id <-> id = t_id current).
Proof.
  intros Hc Hcpus Hat Ht Hat' Ht'. split_and!.
  - intros c' id. destruct (decide (c' = c)) as [->|Hne]; [|by apply (held_other s s' c _ Hcpus)].
    rewrite (held_at s s' c x _ Hc Hcpus). unfold held, hand. rewrite Hc, Hat', Ht'.
    split; [intros (t & ? & ?); exists x, t; by rewrite Hat, Ht|]. intros (y & t & [= <-] & Hl & ?). rewrite Hat, Ht in Hl. eauto.
  - intros c' id. destruct (decide (c' = c)) as [->|Hne]; [|rewrite (saving_other s s' c _ Hcpus c' id Hne); naive_solver].
    rewrite (saving_at s s' c x _ Hc Hcpus). unfold leaving. rewrite Hat'. naive_solver.
  - intros c' id. destruct (decide (c' = c)) as [->|Hne]; [|exact (runs_other s s' c _ Hcpus c' id Hne)].
    rewrite (runs_at s s' c x _ Hc Hcpus), Hat'. unfold runs_task. rewrite Hc. split; [by intros [? _]|].
    intros (y & t & [= <-] & ? & _). congruence.
  - intros id. unfold saving, leaving. rewrite Hc. split; [intros (y & t & [= <-] & Hl & <-); rewrite Hat in Hl; by injection Hl as <-|].
    intros ->. exists x, current. by rewrite Hat.
Qed.

Lemma inv_save s s' c x h current next ctx nctx :
  sys_inv s -> cpus s !! c = Some x -> at_ x = Switching current next -> contexts s !! t_id next = Some nctx ->
  thread_state h = cts nctx -> enabled h = false -> saved ctx = true -> context_ok ctx ->
  cpus s' = <[c := {| running_task := Some next; hart := h; at_ := Restoring current next |}]> (cpus s) ->
  contexts s' = <[t_id current := ctx]> (contexts s) -> task_id_gen s' = task_id_gen s -> queue_lock s' = queue_lock s ->
  queue s' = queue s -> sys_inv s'.
Proof.
  intros [] Hc Hat Hnctx Hth Hen Hsv Hok Hcpus Hctx Hgen Hlock Hqueue. pose proof (si_cpu0 c x Hc) as Hcok. unfold cpu_ok in Hcok. rewrite Hat in Hcok.
  destruct Hcok as (Ht & _ & _ & Hne).
  destruct (save_view s s' c x _ current next Hc Hcpus Hat Ht) as (Hh & Hs & Hr & Hcs); [done..|].
  assert (Hq : queued s' = queued s) by (unfold queued; by rewrite Hqueue).
  assert (Hcur : saving s c (t_id current)) by by apply Hcs.
  split; try done; rewrite ?Hgen, ?Hqueue, ?Hq; try done; setoid_rewrite Hh || idtac; try done.
  - intros id. rewrite Hctx, lookup_insert_is_Some, <- si_ctx0. split; [|by destruct (decide (t_id current = id)); auto].
    intros [<-|[_ ?]]; [|done]. destruct (si_saving0 _ _ Hcur) as (k & -> & _). eauto.
  - intros id k. rewrite Hctx. intros [[<- <-]|[_ Hk]]%lookup_insert_Some Hsk; [done|eauto].
  - intros id k. rewrite Hctx. intros [[<- <-]|[Hidne Hk]]%lookup_insert_Some Hsk; [congruence|].
    destruct (si_unsaved0 id k Hk Hsk) as [[c' Hr']|[c' Hs']]; [left; exists c'; by apply Hr|]. right. exists c'. apply Hs. split; [|done].
    intros ->. by apply Hcs in Hs'.
  - intros c' id [Hc' Hid]%Hs. rewrite Hctx. rewrite lookup_insert_ne; [eauto|]. intros <-. eauto.
  - intros c1 c2 id [_ H1]%Hs [_ H2]%Hs. eauto.
  - intros c1 c2 id H1%Hr [H2 H2']%Hs. eauto.
  - intros c' y u Hy Hin. destruct (cpu_cases s s' c x _ Hc Hcpus c' y Hy) as [[-> ->]|[Hne' Hy']].
    + injection Hin as <-. exists nctx. rewrite Hctx, lookup_insert_ne by done. split; [done|]. split; [|done].
      destruct (si_next0 c x next Hc) as (k & Hk & [? _]); [unfold incoming; by rewrite Hat|]. congruence.
    + destruct (si_next0 c' y u Hy' Hin) as (k & Hk & Harr). exists k. split; [|done]. rewrite Hctx, lookup_insert_ne; [done|].
      intros E. destruct (si_saving0 _ _ Hcur) as (k' & Hk' & ?). destruct Harr. rewrite E in Hk'. congruence.
  - intros c'. rewrite Hlock, si_lock0. destruct (decide (c' = c)) as [->|Hne'].
    + rewrite Hc, (cpu_at s s' c x _ Hc Hcpus). split; intros (y & cur & nx & [= <-] & Hy); simpl in Hy; congruence.
    + by rewrite (cpu_other s s' c _ Hcpus c' Hne').
  - intros c' y Hy. destruct (cpu_cases s s' c x _ Hc Hcpus c' y Hy) as [[-> ->]|[_ Hy']]; [done|]. by eapply si_cpu0.
Qed.

(** The next context goes on. *)
Lemma restore_view s s' c x x' current next :
  cpus s !! c = Some x -> cpus s' = <[c := x']> (cpus s) -> at_ x = Restoring current next -> running_task x = Some next ->
  at_ x' = Running -> running_task x' = Some next ->
  (forall c' id, held s' c' id <-> held s c' id) /\ (forall c' id, saving s' c' id <-> saving s c' id) /\
  (forall c' id, runs_task s' c' id <-> runs_task s c' id \/ c' = c /\ id = t_id next).
Proof.
  intros Hc Hcpus Hat Ht Hat' Ht'. split_and!.
  - intros c' id. destruct (decide (c' = c)) as [->|Hne]; [|by apply (held_other s s' c _ Hcpus)].
    rewrite (held_at s s' c x _ Hc Hcpus). unfold held, hand. rewrite Hc, Hat', Ht'.
    split; [intros (t & ? & ?); exists x, t; by rewrite Hat, Ht|]. intros (y & t & [= <-] & Hl & ?). rewrite Hat, Ht in Hl. eauto.
  - intros c' id. destruct (decide (c' = c)) as [->|Hne]; [|exact (saving_other s s' c _ Hcpus c' id Hne)].
    rewrite (saving_at s s' c x _ Hc Hcpus). unfold saving, leaving. rewrite Hat', Hc. split; [naive_solver|].
    intros (y & t & [= <-] & Hl & _). by rewrite Hat in Hl.
  - intros c' id. destruct (decide (c' = c)) as [->|Hne]; [|rewrite (runs_other s s' c _ Hcpus c' id Hne); naive_solver].
    rewrite (runs_at s s' c x _ Hc Hcpus), Ht'. unfold runs_task. rewrite Hc. split; [naive_solver|].
    intros [(y & t & [= <-] & ? & _)|[_ ->]]; [congruence|eauto].
Qed.

Lemma inv_restore s s' c x h current next :
  sys_inv s -> cpus s !! c = Some x -> at_ x = Restoring current next -> consistent h ->
  cpus s' = <[c := {| running_task := Some next; hart := h; at_ := Running |}]> (cpus s) ->
  contexts s' = contexts s -> task_id_gen s' = task_id_gen s -> queue_lock s' = queue_lock s -> queue s' = queue s -> sys_inv s'.
Proof.
  intros [] Hc Hat Hcons Hcpus Hctx Hgen Hlock Hqueue. pose proof (si_cpu0 c x Hc) as Hcok. unfold cpu_ok in Hcok. rewrite Hat in Hcok.
  destruct Hcok as (Ht & _ & Hne).
  destruct (restore_view s s' c x _ current next Hc Hcpus Hat Ht) as (Hh & Hs & Hr); [done..|].
  assert (Hq : queued s' = queued s) by (unfold queued; by rewrite Hqueue).
  split; try done; rewrite ?Hgen, ?Hctx, ?Hqueue, ?Hq; try done; setoid_rewrite Hh || idtac; try done.
  all: try (by setoid_rewrite Hs).
  - intros id k Hk Hsk. destruct (si_unsaved0 id k Hk Hsk) as [[c' Hr']|[c' Hs']]; [left; exists c'; apply Hr; auto|]. right. exists c'. by apply Hs.
  - intros c1 c2 id [H1|[-> ->]]%Hr H2%Hs; [eauto|]. destruct (si_saving0 _ _ H2) as (k & Hk & Hsk).
    destruct (si_next0 c x next Hc) as (k' & Hk' & [? _]); [unfold incoming; by rewrite Hat|]. congruence.
  - intros c' y u Hy Hin. destruct (cpu_cases s s' c x _ Hc Hcpus c' y Hy) as [[-> ->]|[_ Hy']]; [done|by eapply si_next0].
  - intros c'. rewrite Hlock, si_lock0. destruct (decide (c' = c)) as [->|Hne'].
    + rewrite Hc, (cpu_at s s' c x _ Hc Hcpus). split; intros (y & cur & nx & [= <-] & Hy); simpl in Hy; congruence.
    + by rewrite (cpu_other s s' c _ Hcpus c' Hne').
  - intros c' y Hy. destruct (cpu_cases s s' c x _ Hc Hcpus c' y Hy) as [[-> ->]|[_ Hy']]; [done|]. by eapply si_cpu0.
Qed.

Lemma cpu_consistent s c x : sys_inv s -> cpus s !! c = Some x -> at_ x = Running -> consistent (hart x).
Proof. intros Hinv Hc Hat. pose proof (si_cpu _ Hinv c x Hc) as H. unfold cpu_ok in H. by rewrite Hat in H. Qed.

Lemma with_queue_inv s s' c f :
  sys_inv s -> ready s c -> with_queue c f s = Some s' ->
  (forall q, f (queue s) = Some q -> queue_wf q /\ queue_tasks q ≡ₚ queue_tasks (queue s)) -> sys_inv s'.
Proof.
  intros Hinv (_ & x & Hc & Hat) Hw Hf. unfold with_queue in Hw. rewrite Hc in Hw. simpl in Hw.
  apply bind_Some in Hw as (h1 & Hh1 & Hw). apply bind_Some in Hw as (q & Hq & Hw). apply bind_Some in Hw as (h2 & Hh2 & [= <-]).
  destruct (Hf q Hq) as [Hwf Hperm]. unfold set_hart. rewrite Hat. eapply inv_local; try done.
  apply (bracket_consistent Drop h1); [|done]. apply (bracket_consistent Acquire (hart x)); [|done]. by eapply cpu_consistent.
Qed.

Lemma add_inv s s' c p : sys_inv s -> ready s c -> task_id_gen s + 1 < 2 ^ 64 -> add c p s = Some s' -> sys_inv s'.
Proof.
  intros Hinv Hr Hb Ha. unfold add, issue_task_id in Ha. pose proof (si_gen _ Hinv).
  set (t := {| t_id := task_id_gen s; t_priority := p |}) in Ha.
  destruct (enqueue_ok t _ (si_queue _ Hinv)) as (q & Hq & Hwf & Hperm). destruct Hr as (_ & x & Hc & Hat).
  unfold with_queue in Ha. simpl in Ha. rewrite Hc in Ha. simpl in Ha.
  apply bind_Some in Ha as (h1 & Hh1 & Ha). rewrite Hq in Ha. simpl in Ha. apply bind_Some in Ha as (h2 & Hh2 & [= <-]).
  set (s1 := {| queue := q; queue_lock := queue_lock s; task_id_gen := (task_id_gen s + 1) mod 2 ^ 64;
                contexts := <[task_id_gen s := context_new]> (contexts s); cpus := cpus s; ticks := ticks s |}).
  assert (Hinv1 : sys_inv s1) by (eapply (inv_created s s1 t); try done; simpl; rewrite Z.mod_small; lia).
  unfold set_hart. rewrite Hat. eapply (inv_local s1); try done.
  apply (bracket_consistent Drop h1); [|done]. apply (bracket_consistent Acquire (hart x)); [|done]. by eapply cpu_consistent.
Qed.

(** The state of [switch] once the current context has a task. *)
Lemma take_task_inv s s1 c x current :
  sys_inv s -> cpus s !! c = Some x -> at_ x = Running -> task_id_gen s + 1 < 2 ^ 64 -> take_task x s = (current, s1) ->
  sys_inv (set_cpu c {| running_task := Some current; hart := hart x; at_ := Running |} s1) /\
  cpus s1 = cpus s /\ queue s1 = queue s /\ queue_lock s1 = queue_lock s /\ ticks s1 = ticks s.
Proof.
  intros Hinv Hc Hat Hb Ht. pose proof (cpu_consistent s c x Hinv Hc Hat) as Hcons. pose proof (si_gen _ Hinv).
  unfold take_task in Ht. destruct (running_task x) as [t|] eqn:Hrt.
  - injection Ht as <- <-. split; [|done]. eapply (inv_local s _ c x (hart x)); try done; [|apply Hinv]. simpl. by rewrite Hrt.
  - simpl in Ht. injection Ht as <- <-. split; [|done]. eapply (inv_current s _ c x (hart x) {| t_id := task_id_gen s; t_priority := MIN |}); try done. simpl. rewrite Z.mod_small; lia.
Qed.

Lemma pop_highest_elem lo hi r t r' : pop_highest lo hi r = Some (t, r') -> t ∈ mjoin r.
Proof.
  intros Hp. pose proof (pop_highest_spec lo hi r) as Hs. rewrite Hp in Hs. destruct Hs as (i & l & _ & Hi & _).
  rewrite (join_pop _ _ _ _ Hi). by left.
Qed.

Lemma switch_return_inv s s' c x t h :
  sys_inv s -> cpus s !! c = Some x -> at_ x = Running -> running_task x = Some t -> consistent h ->
  switch_return c t h s = Some s' -> sys_inv s'.
Proof.
  intros Hinv Hc Hat Ht Hh Hs. unfold switch_return in Hs. apply bind_Some in Hs as (h1 & Hh1 & Hs). apply bind_Some in Hs as (h2 & Hh2 & [= <-]).
  eapply (inv_local s _ c x h2); try done; [|simpl; by rewrite Ht|apply Hinv].
  apply (bracket_consistent Drop h1); [|done]. by apply (bracket_consistent Drop h).
Qed.

(** What [dequeue] does when it finds a task. *)
Lemma dequeue_found now current sw q t r :
  queue_wf q -> room now sw q -> pop_highest (minimum_level current sw) SIZE (runnable_tasks q) = Some (t, r) ->
  exists next q', dequeue now current sw q = Some (next, q') /\ queue_wf q' /\ next ∈ queue_tasks q /\
    next :: queue_tasks q' ≡ₚ current :: queue_tasks q.
Proof.
  intros Hwf Hroom Hp. destruct (dequeue_spec now current sw q Hwf Hroom) as [[Hempty _]|(i & next & l & q' & _ & Hl & _ & _ & Hd & Hwf' & Hperm)].
  - pose proof (pop_highest_spec (minimum_level current sw) SIZE (runnable_tasks q)) as Hs. rewrite Hp in Hs.
    destruct Hs as (i & l & Hi & Hl & _). discriminate (Hempty i _ Hi Hl).
  - exists next, q'. split_and!; try done. unfold queue_tasks. apply elem_of_app. left. rewrite (join_pop _ _ _ _ Hl). by left.
Qed.

(** The interrupt lock of [switch] and the one of the queue are left. *)
Lemma enter_hart h h1 h2 h3 (guard : bool) :
  consistent h -> cli_new h = Some h1 -> ncli (thread_state h1) = 1 + (if guard then 1 else 0) -> cli_new h1 = Some h2 ->
  (if guard then cli_drop h2 else Some h2) = Some h3 ->
  consistent h3 /\ ncli (thread_state h3) = 2 /\ enabled h3 = false.
Proof.
  intros Hcons Hh1 Hn Hh2 Hh3. apply (bracket_consistent Acquire h h1) in Hcons; [|done].
  apply (bracket_consistent Acquire h1 h2) in Hcons; [|done]. destruct (cli_new_inv _ _ Hh2) as [Hn2 Hen2].
  destruct guard; [|injection Hh3 as <-; split_and!; [apply Hcons..|lia|done]]. destruct (cli_drop_inv _ _ Hh3) as (Hn3 & Hen3 & _).
  split; [by apply (bracket_consistent Drop h2)|]. split; [lia|apply Hen3; lia].
Qed.

Lemma switch_enter_inv s s' c op guard :
  sys_inv s -> ready s c -> task_id_gen s + 1 < 2 ^ 64 ->
  match op with Some sw => room (ticks s) sw (queue s) | None => True end ->
  switch_enter c op guard s = Some s' -> sys_inv s'.
Proof.
  intros Hinv (Hfree & x & Hc & Hat) Hb Hroom He. unfold switch_enter in He. rewrite Hc in He. cbn [mbind option_bind] in He.
  apply bind_Some in He as (h1 & Hh1 & He). destruct (Z.eqb_spec (ncli (thread_state h1)) (1 + (if guard then 1 else 0))) as [Hn|]; [|done]. cbn [negb] in He.
  destruct (take_task x s) as [current s1] eqn:Htake.
  destruct (take_task_inv s s1 c x current Hinv Hc Hat Hb Htake) as (Hinv1 & Hcpus & Hqueue & Hlock & Htk).
  apply bind_Some in He as (h2 & Hh2 & He). apply bind_Some in He as (h3 & Hh3 & He).
  destruct (enter_hart (hart x) h1 h2 h3 guard (cpu_consistent s c x Hinv Hc Hat) Hh1 Hn Hh2 Hh3) as (Hcons3 & Hn3 & Hen3).
  set (x1 := {| running_task := Some current; hart := hart x; at_ := Running |}) in *.
  assert (Hc1 : cpus (set_cpu c x1 s1) !! c = Some x1).
  { simpl. apply list_lookup_insert_eq. rewrite Hcpus. by apply lookup_lt_Some in Hc. }
  assert (Hret : forall s2, switch_return c current h3 s1 = Some s2 -> sys_inv s2).
  { intros s2 Hs2. apply (switch_return_inv (set_cpu c x1 s1) s2 c x1 current h3); try done. unfold switch_return in *.
    apply bind_Some in Hs2 as (h4 & -> & Hs2). simpl. apply bind_Some in Hs2 as (h5 & -> & [= <-]). simpl. unfold set_cpu. simpl.
    by rewrite list_insert_insert_eq. }
  destruct op as [sw|]; [|by apply Hret].
  apply bind_Some in He as ([next q] & Hd & He).
  destruct (pop_highest _ _ _) as [[t r]|] eqn:Hp; [|by apply Hret]. rewrite Htk, Hqueue in Hd. rewrite Hqueue in Hp.
  destruct (dequeue_found _ _ _ _ _ _ (si_queue _ Hinv) Hroom Hp) as (next' & q' & Hd' & Hwf & Hin & Hperm).
  rewrite Hd in Hd'. injection Hd' as <- <-. apply bind_Some in He as (s2 & Hmark & [= <-]).
  unfold mark_as_not_saved in Hmark. apply bind_Some in Hmark as (ctx & Hctx & [= <-]).
  eapply (inv_park (set_cpu c x1 s1) _ c x1 h3 current next); try done; simpl; try by rewrite ?Hqueue.
  - by rewrite Hlock.
  - by rewrite list_insert_insert_eq.
Qed.

Lemma switch_dequeued_inv s s' c x current next :
  sys_inv s -> cpus s !! c = Some x -> at_ x = WaitSaved current next -> is_saved next s = true ->
  switch_dequeued c s = Some s' -> sys_inv s'.
Proof.
  intros Hinv Hc Hat Hsaved Hs. pose proof (si_cpu _ Hinv c x Hc) as Hok. unfold cpu_ok in Hok. rewrite Hat in Hok.
  destruct Hok as (Hnone & Hn & Hen & Hne). unfold switch_dequeued in Hs. rewrite Hc in Hs. simpl in Hs. rewrite Hat in Hs.
  apply bind_Some in Hs as (h & Hh & Hs). rewrite Hnone, (proj2 (Z.eqb_neq _ _) Hne) in Hs. injection Hs as <-.
  destruct (cli_drop_inv _ _ Hh) as (Hn' & Hen' & _). eapply (inv_dequeued s _ c x h current next); try done; [lia|apply Hen'; lia].
Qed.

Lemma context_save_inv s s' c : sys_inv s -> context_save c s = Some s' -> sys_inv s'.
Proof.
  intros Hinv Hs. unfold context_save in Hs. apply bind_Some in Hs as (x & Hc & Hs). destruct (at_ x) as [| |current next|] eqn:Hat; try done.
  apply bind_Some in Hs as (nctx & Hctx & [= <-]).
  pose proof (si_cpu _ Hinv c x Hc) as Hok. unfold cpu_ok in Hok. rewrite Hat in Hok. destruct Hok as (Hrt & Hn & Hen & Hne).
  eapply (inv_save s _ c x {| thread_state := cts nctx; enabled := enabled (hart x) |} current next
    {| saved := true; cts := thread_state (hart x); interrupt_flag := enabled (hart x); resume := InSwitch |} nctx); try done. simpl. by rewrite Hrt.
Qed.

(** A context that can be resumed gives up at most the interrupt lock of [switch]. *)
Lemma arriving_hart x ctx : arriving x ctx -> restoring x = true -> context_ok ctx ->
  exists h, match resume ctx with InSwitch => cli_drop {| thread_state := thread_state (hart x); enabled := interrupt_flag ctx |}
    | AtEntry => Some {| thread_state := thread_state (hart x); enabled := interrupt_flag ctx |} end = Some h /\ consistent h.
Proof.
  intros [_ Hth] Hr Hcok. rewrite (Hth Hr). unfold context_ok in Hcok. destruct (resume ctx).
  - eexists. split; [done|]. rewrite Hcok. split; simpl; lia.
  - destruct Hcok as [Hn He]. destruct (cli_drop_Some {| thread_state := cts ctx; enabled := interrupt_flag ctx |}) as [h Hh]; [done|simpl; lia|].
    exists h. split; [done|]. apply (bracket_consistent Drop _ _) in Hh; [done|]. split; simpl; [lia|done].
Qed.

Lemma context_restore_Some s c x current next :
  sys_inv s -> cpus s !! c = Some x -> at_ x = Restoring current next ->
  exists s' x', context_restore c s = Some s' /\ sys_inv s' /\ cpus s' !! c = Some x' /\ at_ x' = Running /\ running_task x' = Some next.
Proof.
  intros Hinv Hc Hat. pose proof (si_cpu _ Hinv c x Hc) as Hok. unfold cpu_ok in Hok. rewrite Hat in Hok. destruct Hok as (Hrt & _).
  destruct (si_next _ Hinv c x next Hc) as (nctx & Hctx & Harr); [unfold incoming; by rewrite Hat|].
  destruct (arriving_hart x nctx Harr) as (h & Hh & Hcons); [unfold restoring; by rewrite Hat|eapply (si_saved _ Hinv); [done|apply Harr]|].
  unfold context_restore. rewrite Hc. cbn [mbind option_bind]. rewrite Hat, Hctx. cbn [mbind option_bind]. rewrite Hh. cbn [mbind option_bind].
  eexists _, _. split; [done|]. split; [eapply (inv_restore s _ c x h current next); try done; simpl; by rewrite Hrt|].
  simpl. split; [apply list_lookup_insert_eq; by apply lookup_lt_Some in Hc|done].
Qed.

Lemma context_restore_inv s s' c : sys_inv s -> context_restore c s = Some s' -> sys_inv s'.
Proof.
  intros Hinv Hs. assert (Hx : exists x current next, cpus s !! c = Some x /\ at_ x = Restoring current next).
  { unfold context_restore in Hs. apply bind_Some in Hs as (x & Hc & Hs). destruct (at_ x) eqn:Hat; try done. eauto. }
  destruct Hx as (x & current & next & Hc & Hat). destruct (context_restore_Some s c x current next Hinv Hc Hat) as (s'' & _ & Hs' & ? & _). congruence.
Qed.

Lemma sched_step_inv s s' : sys_inv s -> step s s' -> sys_inv s'.
Proof.
  intros Hinv Hstep.
  destruct Hstep as [c p s s' ? ? ?|c op guard s s' ? ? ? ? ?|c x cur next s s' ? ? ? ?|c s s' ?|c s s' ?|c chan s s' ? ?|c s s' ? ?|s|c x b h s Hc Hat Hb|c x b s Hc Hat Hn].
  - by eapply add_inv.
  - by eapply switch_enter_inv.
  - by eapply switch_dequeued_inv.
  - by eapply context_save_inv.
  - by eapply context_restore_inv.
  - eapply with_queue_inv; try done. intros q Hq. destruct (release_ok chan _ (si_queue _ Hinv)) as (q' & Hq' & Hwf & _ & _ & Hk & _).
    rewrite Hq in Hq'. injection Hq' as <-. done.
  - eapply with_queue_inv; try done. intros q Hq. destruct (elapse_ok (ticks s) _ (si_queue _ Hinv)) as (q' & Hq' & Hwf & _ & Hk & _).
    rewrite Hq in Hq'. injection Hq' as <-. done.
  - by destruct Hinv.
  - unfold set_hart. rewrite Hat. eapply (inv_local s _ c x h); try done; [|apply Hinv].
    eapply bracket_consistent; [|done]. by eapply cpu_consistent.
  - unfold set_hart. rewrite Hat. eapply (inv_local s _ c x); try done; [|apply Hinv]. split; simpl; lia.
Qed.

Lemma scheduler_new_inv flags : sys_inv (scheduler_new flags).
Proof.
  assert (Hcpu : forall c x, cpus (scheduler_new flags) !! c = Some x -> exists b, x = cpu_new b).
  { intros c x Hx. apply list_lookup_fmap_Some in Hx as (b & -> & _). eauto. }
  assert (Hh : forall c id, ~ held (scheduler_new flags) c id) by (intros c id (x & t & [b ->]%Hcpu & ? & _); done).
  assert (Hs : forall c id, ~ saving (scheduler_new flags) c id) by (intros c id (x & t & [b ->]%Hcpu & ? & _); done).
  assert (Hq : queued (scheduler_new flags) = []) by done.
  split; rewrite ?Hq; try done; try (simpl; lia).
  - apply queue_new_wf.
  - intros id. split; [simpl; lia|]. intros [?%not_elem_of_nil|[c ?%Hh]]; done.
  - constructor.
  - intros c id ?%Hh. done.
  - intros c c' id ?%Hh. done.
  - intros id. simpl. rewrite lookup_empty. split; [by intros [? ?]|lia].
  - intros c id ?%Hs. done.
  - intros c c' id ?%Hs. done.
  - intros c c' id _ ?%Hs. done.
  - intros c x u [b ->]%Hcpu. done.
  - intros c. simpl. split; [done|]. intros (x & cur & next & [b ->]%Hcpu & ?). done.
  - intros c x [b ->]%Hcpu. split; simpl; lia.
Qed.

Lemma sched_reachable_inv flags s : reachable flags s -> sys_inv s.
Proof.
  unfold reachable. intros Hr. pose proof (scheduler_new_inv flags) as H. induction Hr as [|a b d Hab _ IH]; [done|].
  apply IH. by eapply sched_step_inv.
Qed.

(** ** Progress *)

Lemma switch_return_Some c t h s :
  ncli (thread_state h) = 2 -> enabled h = false -> exists s', switch_return c t h s = Some s'.
Proof.
  intros Hn He. unfold switch_return. destruct (cli_drop_Some h He) as [h1 Hh1]; [lia|]. rewrite Hh1. simpl.
  destruct (cli_drop_inv _ _ Hh1) as (Hn1 & He1 & _). destruct (cli_drop_Some h1) as [h2 ->]; [apply He1; lia|lia|]. simpl. eauto.
Qed.

Lemma switch_enter_Some s c x op (guard : bool) :
  sys_inv s -> ready s c -> cpus s !! c = Some x -> ncli (thread_state (hart x)) = (if guard then 1 else 0) ->
  task_id_gen s + 1 < 2 ^ 64 -> match op with Some sw => room (ticks s) sw (queue s) | None => True end ->
  exists s', switch_enter c op guard s = Some s'.
Proof.
  intros Hinv (_ & y & Hy & Hat) Hc Hn Hb Hroom. rewrite Hc in Hy. injection Hy as <-.
  unfold switch_enter. rewrite Hc. cbn [mbind option_bind].
  destruct (cli_new_Some (hart x)) as [h1 Hh1]; [destruct guard; lia|]. rewrite Hh1. cbn [mbind option_bind].
  destruct (cli_new_inv _ _ Hh1) as [Hn1 He1]. rewrite (proj2 (Z.eqb_eq _ _)) by lia. cbn [negb].
  destruct (take_task x s) as [current s1] eqn:Htake.
  destruct (take_task_inv s s1 c x current Hinv Hc Hat Hb Htake) as (Hinv1 & Hcpus & Hqueue & Hlock & Htk).
  destruct (cli_new_Some h1) as [h2 Hh2]; [destruct guard; lia|]. rewrite Hh2. cbn [mbind option_bind].
  destruct (cli_new_inv _ _ Hh2) as [Hn2 He2].
  assert (H3 : exists h3, (if guard then cli_drop h2 else Some h2) = Some h3).
  { destruct guard; [|eauto]. apply cli_drop_Some; [done|lia]. }
  destruct H3 as [h3 Hh3]. rewrite Hh3. cbn [mbind option_bind].
  destruct (enter_hart (hart x) h1 h2 h3 guard (cpu_consistent s c x Hinv Hc Hat) Hh1 ltac:(lia) Hh2 Hh3) as (_ & Hn3 & He3).
  destruct (switch_return_Some c current h3 s1 Hn3 He3) as [sr Hsr]. destruct op as [sw|]; [|eauto]. rewrite Htk, Hqueue.
  assert (Hd : exists next q, dequeue (ticks s) current sw (queue s) = Some (next, q)).
  { destruct (dequeue_spec (ticks s) current sw _ (si_queue _ Hinv) Hroom) as [[_ ->]|(? & ? & ? & ? & _ & _ & _ & _ & -> & _)]; eauto. }
  destruct Hd as (next & q & ->). cbn [mbind option_bind]. destruct (pop_highest _ _ _); [|eauto].
  unfold mark_as_not_saved. set (x1 := {| running_task := Some current; hart := hart x; at_ := Running |}) in *.
  assert (Hctx : is_Some (contexts s1 !! t_id current)).
  { apply (si_ctx _ Hinv1), (si_located _ Hinv1). right. exists c, x1, current. split_and!; try done. simpl.
    apply list_lookup_insert_eq. rewrite Hcpus. by apply lookup_lt_Some in Hc. }
  destruct Hctx as [ctx ->]. cbn [mbind option_bind]. eauto.
Qed.

Lemma switch_dequeued_Some s c x current next :
  sys_inv s -> cpus s !! c = Some x -> at_ x = WaitSaved current next -> exists s', switch_dequeued c s = Some s'.
Proof.
  intros Hinv Hc Hat. pose proof (si_cpu _ Hinv c x Hc) as Hok. unfold cpu_ok in Hok. rewrite Hat in Hok.
  destruct Hok as (Hnone & Hn & Hen & Hne). unfold switch_dequeued. rewrite Hc. simpl. rewrite Hat, Hnone.
  destruct (cli_drop_Some (hart x) Hen) as [h ->]; [lia|]. simpl. rewrite (proj2 (Z.eqb_neq _ _) Hne). eauto.
Qed.

Lemma context_save_Some s c x current next :
  sys_inv s -> cpus s !! c = Some x -> at_ x = Switching current next ->
  exists s' x', context_save c s = Some s' /\ is_saved current s' = true /\ cpus s' !! c = Some x' /\ at_ x' = Restoring current next.
Proof.
  intros Hinv Hc Hat. destruct (si_next _ Hinv c x next Hc) as (nctx & Hctx & _); [unfold incoming; by rewrite Hat|].
  unfold context_save. rewrite Hc. simpl. rewrite Hat, Hctx. simpl.
  eexists _, _. split; [done|]. split; [unfold is_saved; simpl; by rewrite lookup_insert_eq|].
  simpl. split; [apply list_lookup_insert_eq; by apply lookup_lt_Some in Hc|done].
Qed.

(** The context a CPU waits for is saved, or another CPU is about to save it. *)
Lemma wait_saved_ends s c x current next :
  sys_inv s -> cpus s !! c = Some x -> at_ x = WaitSaved current next ->
  is_saved next s = true \/ exists c' x' next', c' <> c /\ cpus s !! c' = Some x' /\
    exists current', at_ x' = Switching current' next' /\ t_id current' = t_id next.
Proof.
  intros Hinv Hc Hat. assert (Hheld : held s c (t_id next)) by (exists x, next; unfold hand; by rewrite Hat).
  assert (Hctx : is_Some (contexts s !! t_id next)) by (apply (si_ctx _ Hinv), (si_located _ Hinv); eauto).
  destruct Hctx as [ctx Hctx]. unfold is_saved. rewrite Hctx. destruct (saved ctx) eqn:Hsv; [by left|right].
  pose proof (si_cpu _ Hinv c x Hc) as Hok. unfold cpu_ok in Hok. rewrite Hat in Hok. destruct Hok as (Hnone & _ & _ & Hne).
  destruct (si_unsaved _ Hinv _ _ Hctx Hsv) as [[c' Hr]|[c' (y & t & Hy & Hl & Ht)]].
  - pose proof (si_held _ Hinv _ _ _ (runs_task_held _ _ _ Hr) Hheld) as ->. destruct Hr as (y & t & Hy & Hr & _). congruence.
  - assert (Hne' : c' <> c) by (intros ->; rewrite Hc in Hy; injection Hy as <-; unfold leaving in Hl; rewrite Hat in Hl; congruence).
    unfold leaving in Hl. destruct (at_ y) as [|cur nx|cur nx|] eqn:Haty; [done| |injection Hl as <-; eauto 10|done].
    assert (H1 : queue_lock s = Some c) by (apply (si_lock _ Hinv); eauto).
    assert (H2 : queue_lock s = Some c') by (apply (si_lock _ Hinv); eauto). congruence.
Qed.

(** ** Properties *)

(** [C35]. Every task that was ever created, and no other, is
    in exactly one place: once in the queue, or in the hands of exactly one CPU,
    after any interleaving of task creation, switches, wake-ups and timer ticks. *)
Theorem task_in_one_place (flags : list bool) (s : System) :
  reachable flags s ->
  (forall id, 0 <= id < task_id_gen s <-> id ∈ queued s \/ exists c, held s c id) /\ NoDup (queued s) /\
  forall c id, held s c id -> (id ∉ queued s) /\ forall c', held s c' id -> c' = c.
Proof.
  intros Hr%sched_reachable_inv. split_and!; [apply Hr..|]. intros c id Hc. split; [by eapply si_apart|]. intros c' Hc'. by eapply si_held.
Qed.

(** Two CPUs never execute on the stack of the same task, not
    even while one of them is still leaving it and the other already wants it,
    unless one of them is in the second half of [switch_context], behind the mark
    that the context has been saved. *)
Theorem stacks_exclusive (flags : list bool) (s : System) (c1 c2 : nat) (x1 x2 : CpuState) (t1 t2 : Task) :
  reachable flags s -> cpus s !! c1 = Some x1 -> cpus s !! c2 = Some x2 ->
  executing x1 = Some t1 -> executing x2 = Some t2 -> restoring x1 = false -> restoring x2 = false ->
  c1 <> c2 -> t_id t1 <> t_id t2.
Proof.
  intros Hr%sched_reachable_inv H1 H2 E1 E2 R1 R2 Hne Hid. unfold executing, restoring in *.
  assert (Hrun : forall c x t, cpus s !! c = Some x -> at_ x = Running -> running_task x = Some t -> runs_task s c (t_id t)) by (intros; eexists _, _; eauto).
  assert (Hsav : forall c x t, cpus s !! c = Some x -> leaving x = Some t -> saving s c (t_id t)) by (intros; eexists _, _; eauto).
  destruct (at_ x1) eqn:A1, (at_ x2) eqn:A2; try done.
  1: { apply Hne. eapply (si_held _ Hr); [by eapply runs_task_held, Hrun|]. rewrite Hid. by eapply runs_task_held, Hrun. }
  1,2: eapply (si_runs _ Hr); [by eapply (Hrun c1)|]; rewrite Hid; eapply (Hsav c2); [done|]; unfold leaving; by rewrite A2.
  1,4: eapply (si_runs _ Hr); [by eapply (Hrun c2)|]; rewrite <- Hid; eapply (Hsav c1); [done|]; unfold leaving; by rewrite A1.
  all: apply Hne; eapply (si_saving_inj _ Hr); [eapply (Hsav c1); [done|]; unfold leaving; by rewrite A1|].
  all: rewrite Hid; eapply (Hsav c2); [done|]; unfold leaving; by rewrite A2.
Qed.

(** [C34]. A task switch gets through. Called with the interrupt
    locks it expects it passes all assertions up to the wait for the next context;
    that wait, during which the lock of the queue is held, is over or ends with one
    step that another CPU can take without any lock; and the switch then saves the
    current context and runs the next task. *)
Theorem switch_progress (flags : list bool) (s : System) (c : nat) (x : CpuState) :
  reachable flags s -> cpus s !! c = Some x ->
  match at_ x with
  | Running => forall op (guard : bool), ready s c -> ncli (thread_state (hart x)) = (if guard then 1 else 0) ->
      task_id_gen s + 1 < 2 ^ 64 -> match op with Some sw => room (ticks s) sw (queue s) | None => True end ->
      exists s', switch_enter c op guard s = Some s'
  | WaitSaved current next =>
      (exists s', switch_dequeued c s = Some s') /\
      (is_saved next s = true \/ exists c' s', c' <> c /\ context_save c' s = Some s' /\ is_saved next s' = true)
  | Switching current next =>
      exists s' x', context_save c s = Some s' /\ is_saved current s' = true /\ cpus s' !! c = Some x' /\ at_ x' = Restoring current next
  | Restoring current next =>
      exists s' x', context_restore c s = Some s' /\ cpus s' !! c = Some x' /\ at_ x' = Running /\ running_task x' = Some next
  end.
Proof.
  intros Hr%sched_reachable_inv Hc. destruct (at_ x) as [|current next|current next|current next] eqn:Hat.
  - intros op guard Hrd Hn Hb Hroom. by eapply switch_enter_Some.
  - split; [by eapply switch_dequeued_Some|].
    destruct (wait_saved_ends s c x current next Hr Hc Hat) as [?|(c' & x' & next' & Hne & Hc' & cur' & Hat' & Hid)]; [by left|right].
    destruct (context_save_Some s c' x' cur' next' Hr Hc' Hat') as (s' & y & Hs & Hsv & _). exists c', s'. split_and!; try done.
    unfold is_saved in *. by rewrite <- Hid.
  - by eapply context_save_Some.
  - destruct (context_restore_Some s c x current next Hr Hc Hat) as (s' & x' & ? & _ & ?). eauto.
Qed.

(** Two CPUs: the first creates a task and yields to it, and the second yields to the
    first context of the first CPU before that has been saved. *)
Definition demo_run : option System :=
  s ← add 0 L1 (scheduler_new [true; true]);
  s ← switch_enter 0 (Some Yield) false s;
  s ← switch_dequeued 0 s;
  switch_enter 1 (Some Yield) false s.

Lemma demo_run_reachable : exists s, demo_run = Some s /\ reachable [true; true] s.
Proof.
  unfold demo_run, reachable. set (s0 := scheduler_new _).
  assert (H0 : ready s0 0) by (split; [done|eexists; done]).
  destruct (add 0 L1 s0) as [s1|] eqn:E1; [|by vm_compute in E1]. cbn [mbind option_bind].
  assert (S1 : step s0 s1) by (by eapply (step_add 0 L1)).
  assert (R1 : ready s1 0 /\ task_id_gen s1 + 1 < 2 ^ 64 /\ 0 <= ticks s1 /\ room (ticks s1) Yield (queue s1)).
  { vm_compute in E1. injection E1 as <-. by split_and!. }
  destruct R1 as (R1 & B1 & T1 & Q1).
  destruct (switch_enter 0 (Some Yield) false s1) as [s2|] eqn:E2; [|vm_compute in E1; injection E1 as <-; by vm_compute in E2]. cbn [mbind option_bind].
  assert (S2 : step s1 s2) by (by eapply (step_switch 0 (Some Yield) false)).
  assert (R2 : exists x cur next, cpus s2 !! 0%nat = Some x /\ at_ x = WaitSaved cur next /\ is_saved next s2 = true).
  { vm_compute in E1. injection E1 as <-. vm_compute in E2. injection E2 as <-. by eexists _, _, _. }
  destruct R2 as (x & cur & next & X2 & A2 & V2).
  destruct (switch_dequeued 0 s2) as [s3|] eqn:E3; [|vm_compute in E1; injection E1 as <-; vm_compute in E2; injection E2 as <-; by vm_compute in E3].
  cbn [mbind option_bind]. assert (S3 : step s2 s3) by exact (step_dequeued 0 x cur next s2 s3 X2 A2 V2 E3).
  assert (E23 : s3 = default s0 (Some s3)) by done.
  clear A2 V2 X2. vm_compute in E1. injection E1 as <-. vm_compute in E2. injection E2 as <-. vm_compute in E3. injection E3 as <-.
  destruct (switch_enter 1 _ _ _) as [s4|] eqn:E4; [|by vm_compute in E4]. exists s4. split; [done|].
  eapply rtc_l; [exact S1|]. eapply rtc_l; [exact S2|]. eapply rtc_l; [exact S3|]. eapply rtc_l; [|apply rtc_refl].
  eapply (step_switch 1 (Some Yield) false); [|by vm_compute|by vm_compute|by vm_compute|exact E4]. split; [done|eexists; done].
Qed.

Lemma task_in_one_place_witness : exists s, demo_run = Some s /\ NoDup (queued s).
Proof.
  destruct demo_run_reachable as (s & Hs & Hr). destruct (task_in_one_place [true; true] s Hr) as (_ & Hnd & _). by exists s.
Defined.

Lemma stacks_exclusive_witness :
  exists s x1 x2 t1 t2, demo_run = Some s /\ cpus s !! 0%nat = Some x1 /\ cpus s !! 1%nat = Some x2 /\
    executing x1 = Some t1 /\ executing x2 = Some t2 /\ t_id t1 <> t_id t2.
Proof.
  destruct demo_run_reachable as (s & Hs & Hr).
  assert (Hx : exists x1 x2 t1 t2, cpus s !! 0%nat = Some x1 /\ cpus s !! 1%nat = Some x2 /\ executing x1 = Some t1 /\ executing x2 = Some t2 /\
    restoring x1 = false /\ restoring x2 = false).
  { vm_compute in Hs. injection Hs as <-. by eexists _, _, _, _. }
  destruct Hx as (x1 & x2 & t1 & t2 & H1 & H2 & E1 & E2 & R1 & R2). exists s, x1, x2, t1, t2. split_and!; try done.
  apply (stacks_exclusive [true; true] s 0 1 x1 x2 t1 t2 Hr H1 H2 E1 E2 R1 R2). lia.
Defined.

Lemma switch_progress_witness :
  exists s current next, demo_run = Some s /\ (at_ <$> cpus s !! 1%nat) = Some (WaitSaved current next) /\
    exists c' s', c' <> 1%nat /\ context_save c' s = Some s' /\ is_saved next s' = true.
Proof.
  destruct demo_run_reachable as (s & Hs & Hr).
  assert (Hx : exists x current next, cpus s !! 1%nat = Some x /\ at_ x = WaitSaved current next /\ is_saved next s = false).
  { vm_compute in Hs. injection Hs as <-. by eexists _, _, _. }
  destruct Hx as (x & current & next & Hx & Hat & Hsv). exists s, current, next. split_and!; [done|by rewrite Hx; simpl; rewrite Hat|].
  pose proof (switch_progress [true; true] s 1 x Hr Hx) as H. rewrite Hat in H. destruct H as [_ [H|H]]; [congruence|exact H].
Defined.

(** Channels made from addresses of the lower half and issued channels differ. *)
Lemma channels_differ ptr index gen ch :
  from_ptr_index ptr index = Some ch -> - 2 ^ 63 <= gen < 0 -> ch <> (issue_wait_channel gen).1.
Proof.
  unfold from_ptr_index. intros Hf Hg. simpl. case_match; [|done]. injection Hf as <-.
  pose proof (Z.land_nonneg ((if ptr <? 2 ^ 63 then ptr else ptr - 2 ^ 64) + index) (2 ^ 63 - 1)) as Hn. lia.
Qed.

(** The two channels of a queue are different. *)
Lemma from_ptr_index_differ ptr a b : from_ptr_index ptr 0 = Some a -> from_ptr_index ptr 1 = Some b -> a <> b.
Proof.
  unfold from_ptr_index. set (p := if ptr <? 2 ^ 63 then ptr else ptr - 2 ^ 64). intros Ha Hb.
  destruct ((- 2 ^ 63 <=? p + 0) && (p + 0 <? 2 ^ 63)); [|done]. destruct ((- 2 ^ 63 <=? p + 1) && (p + 1 <? 2 ^ 63)); [|done].
  injection Ha as <-. injection Hb as <-. change (2 ^ 63 - 1) with (Z.ones 63). rewrite !Z.land_ones by lia.
  intros E. assert (Hm : ((p + 1) - (p + 0)) mod 2 ^ 63 = 0) by (rewrite Zminus_mod, E, Z.sub_diag; done).
  replace (p + 1 - (p + 0)) with 1 in Hm by lia. done.
Qed.
(** Behind the mark the stack of the saved task is no longer the CPU's own: the second
    CPU can run the task while the first one still uses its stack in [switch_context]. *)
Definition demo_shared : option System :=
  s ← demo_run; s ← context_save 0 s; s ← switch_dequeued 1 s; s ← context_save 1 s; context_restore 1 s.

Lemma stack_shared_after_mark : exists s x0 x1 t, reachable [true; true] s /\ cpus s !! 0%nat = Some x0 /\ cpus s !! 1%nat = Some x1 /\
  restoring x0 = true /\ executing x0 = Some t /\ restoring x1 = false /\ executing x1 = Some t.
Proof.
  destruct demo_run_reachable as (s & Hs & Hr). destruct demo_shared as [s'|] eqn:E; [|by vm_compute in E].
  assert (Hx : exists x0 x1 t, cpus s' !! 0%nat = Some x0 /\ cpus s' !! 1%nat = Some x1 /\
    restoring x0 = true /\ executing x0 = Some t /\ restoring x1 = false /\ executing x1 = Some t).
  { vm_compute in E. injection E as <-. by eexists _, _, _. }
  destruct Hx as (x0 & x1 & t & Hx). exists s', x0, x1, t. split; [|exact Hx]. clear Hx.
  unfold demo_shared in E. rewrite Hs in E. cbn [mbind option_bind] in E.
  apply bind_Some in E as (s1 & E1 & E). apply bind_Some in E as (s2 & E2 & E). apply bind_Some in E as (s3 & E3 & E4).
  assert (H2 : step s1 s2).
  { unfold switch_dequeued in E2. apply bind_Some in E2 as (x & Hx & E2). destruct (at_ x) eqn:Hat; try done.
    eapply step_dequeued; [exact Hx|exact Hat| |unfold switch_dequeued; rewrite Hx; simpl; by rewrite Hat].
    vm_compute in Hs. injection Hs as <-. vm_compute in E1. injection E1 as <-. vm_compute in Hx. injection Hx as <-. by injection Hat as <- <-. }
  unfold reachable. etrans; [exact Hr|]. eapply rtc_l; [by eapply (step_context_save 0)|]. eapply rtc_l; [exact H2|].
  eapply rtc_l; [by eapply (step_context_save 1)|]. apply rtc_once. by eapply (step_context_restore 1).
Qed.
