(* ===== verification/Sync.v ===== *)
(** * Blocking synchronisation (src/ors-kernel/src/sync)

    [Mutex] and [Queue] on top of the task queue, as transition systems over the
    tasks that the CPUs run. What a task does while it holds the spin lock of the
    mutex or the lock of the task queue is one step. The queue of the crate
    [heapless] is a parameter. *)

From S2P Require Import Prelude Task.
Local Open Scope Z_scope.

(** A task waits on the channel. *)
Definition waiting (chan : Z) (q : TaskQueue) : Prop :=
  exists ids id t, blocks q !! chan = Some ids /\ id ∈ ids /\ pending_tasks q !! id = Some t.

(** What the rest of the kernel does with the task queue and the running tasks:
    tasks switch without blocking on one of the channels [own], channels are
    released, deadlines pass and tasks are added. *)
Inductive environment (own : Z -> Prop) (busy : Z -> Prop) : TaskQueue * list Task -> TaskQueue * list Task -> Prop :=
| env_switch i t now sw next q q' run :
    run !! i = Some t -> ~ busy (t_id t) -> (forall chan timeout, sw = Blocked chan timeout -> ~ own chan) ->
    room now sw q -> dequeue now t sw q = Some (next, q') -> environment own busy (q, run) (q', <[i := next]> run)
| env_release chan q q' run : release chan q = Some q' -> environment own busy (q, run) (q', run)
| env_elapse now q q' run : elapse now q = Some q' -> environment own busy (q, run) (q', run)
| env_add t q q' run : enqueue t q = Some q' -> environment own busy (q, run) (q', run).

(** ** Lemmas: who waits *)

Lemma release_not_waiting chan q q' : queue_wf q -> release chan q = Some q' -> ~ waiting chan q'.
Proof.
  intros Hwf Hr (ids & id & t & Hb & _). destruct (release_ok chan q Hwf) as (q2 & Hr2 & _ & Hb2 & _).
  rewrite Hr in Hr2. injection Hr2 as <-. by rewrite Hb2, lookup_delete_eq in Hb.
Qed.

Lemma release_waiting chan chan' q q' : queue_wf q -> release chan' q = Some q' -> waiting chan q' -> waiting chan q.
Proof.
  intros Hwf Hr (ids & id & t & Hb & Hid & Ht). destruct (release_ok chan' q Hwf) as (q2 & Hr2 & _ & Hb2 & _ & _ & _ & Hp & _).
  rewrite Hr in Hr2. injection Hr2 as <-. rewrite Hb2 in Hb. apply lookup_delete_Some in Hb as [_ Hb]. rewrite Hp in Ht. case_decide; [done|].
  by exists ids, id, t.
Qed.

Lemma wake_waiting id q q' :
  wake id q = Some q' -> blocks q' = blocks q /\ forall i t, pending_tasks q' !! i = Some t -> pending_tasks q !! i = Some t.
Proof.
  unfold wake. destruct (pending_tasks q !! id) as [t0|] eqn:H0; [|by intros [= <-]]. unfold enqueue. intros (l & _ & [= <-])%bind_Some.
  simpl. split; [done|]. intros i t Hi. by apply lookup_delete_Some in Hi as [_ ?].
Qed.

Lemma expire_waiting chan id c rest q q' : expire id c rest q = Some q' -> waiting chan q' -> waiting chan q.
Proof.
  unfold expire. intros (q1 & Hw & [= <-])%bind_Some (ids & j & t & Hb & Hj & Ht). simpl in *.
  destruct (wake_waiting id q q1 Hw) as [Hblocks Hpend]. rewrite Hblocks in Hb. apply Hpend in Ht.
  assert (Hold : exists ids0, blocks q !! chan = Some ids0 /\ j ∈ ids0).
  { destruct c as [c|]; [|eauto]. destruct (blocks q !! c) as [l|] eqn:Hl; [|eauto]. destruct (decide (c = chan)) as [->|Hne].
    - rewrite lookup_insert_eq in Hb. injection Hb as <-. apply list_elem_of_filter in Hj as [_ Hj]. eauto.
    - rewrite lookup_insert_ne in Hb by done. eauto. }
  destruct Hold as (ids0 & ? & ?). by exists ids0, j, t.
Qed.

Lemma elapse_waiting chan now q q' : elapse now q = Some q' -> waiting chan q' -> waiting chan q.
Proof.
  unfold elapse. generalize (timeouts q) as l. intros l. revert q. induction l as [|[[t id] c] l IH]; intros q; simpl; [by intros [= <-]|].
  case_match; [|by intros [= <-]]. intros (q1 & Hx & He)%bind_Some Hw. eapply expire_waiting; [done|]. by eapply IH.
Qed.

Lemma enqueue_waiting chan t q q' : enqueue t q = Some q' -> waiting chan q' -> waiting chan q.
Proof. unfold enqueue. by intros (l & _ & [= <-])%bind_Some. Qed.

(** Only a task that blocks on the channel comes to wait on it. *)
Lemma park_waiting chan now t sw q q' :
  queue_wf q -> park now t sw q = Some q' -> waiting chan q' -> waiting chan q \/ exists timeout, sw = Blocked chan timeout.
Proof.
  intros Hwf Hp (ids & id & t' & Hb & Hid & Ht). destruct sw as [c timeout|d|]; simpl in Hp.
  - destruct (decide (c = chan)) as [->|Hne]; [eauto|left]. unfold issue_pending_id in Hp.
    apply bind_Some in Hp as ([g q1] & Hg & Hp). apply bind_Some in Hg as (g' & _ & [= <- <-]).
    apply bind_Some in Hp as (ts & _ & [= <-]). simpl in *. rewrite lookup_insert_ne in Hb by done.
    apply lookup_insert_Some in Ht as [[<- _]|[_ Ht]]; [|by exists ids, id, t'].
    destruct (wf_blocks _ Hwf _ _ Hb) as [_ Hf]. apply (proj1 (Forall_forall _ _) Hf) in Hid. lia.
  - left. unfold issue_pending_id in Hp. apply bind_Some in Hp as ([g q1] & Hg & Hp). apply bind_Some in Hg as (g' & _ & [= <- <-]).
    apply bind_Some in Hp as (d' & _ & [= <-]). simpl in *. apply lookup_insert_Some in Ht as [[<- _]|[_ Ht]]; [|by exists ids, id, t'].
    destruct (wf_blocks _ Hwf _ _ Hb) as [_ Hf]. apply (proj1 (Forall_forall _ _) Hf) in Hid. lia.
  - left. eapply enqueue_waiting; [done|]. by exists ids, id, t'.
Qed.

Lemma dequeue_waiting chan now t sw q next q' :
  queue_wf q -> room now sw q -> dequeue now t sw q = Some (next, q') -> waiting chan q' ->
  waiting chan q \/ exists timeout, sw = Blocked chan timeout.
Proof.
  intros Hwf Hroom Hd Hw. destruct (dequeue_spec now t sw q Hwf Hroom) as [[_ Hd']|(i & n & l & q2 & _ & Hl & _ & Hp & Hd' & _)];
    rewrite Hd in Hd'; injection Hd' as -> ->; [by left|].
  by apply (park_waiting chan now t sw (with_runnable (<[i := l]> (runnable_tasks q)) q)) in Hw; [|eapply with_runnable_wf; [done|done|by right]|].
Qed.

Lemma dequeue_keeps_wf now t sw q next q' : queue_wf q -> room now sw q -> dequeue now t sw q = Some (next, q') -> queue_wf q'.
Proof.
  intros Hwf Hroom Hd. destruct (dequeue_spec now t sw q Hwf Hroom) as [[_ Hd']|(i & n & l & q2 & _ & _ & _ & _ & Hd' & Hwf' & _)];
    rewrite Hd in Hd'; by injection Hd' as -> ->.
Qed.

(** The rest of the kernel adds no waiter. *)
Lemma environment_ok own busy q run q' run' :
  queue_wf q -> environment own busy (q, run) (q', run') ->
  queue_wf q' /\ forall chan, own chan -> waiting chan q' -> waiting chan q.
Proof.
  intros Hwf He. inversion He as [i t now sw next ? ? ? Ht Hbusy Hown Hroom Hd|c ? ? ? Hr|now ? ? ? Hr|t ? ? ? Hr]; subst; clear He.
  - split; [by eapply dequeue_keeps_wf|]. intros chan Hchan Hw.
    destruct (dequeue_waiting chan _ _ _ _ _ _ Hwf Hroom Hd Hw) as [?|[to ->]]; [done|]. by destruct (Hown chan to).
  - destruct (release_ok c q Hwf) as (q2 & Hr2 & Hwf2 & _). rewrite Hr in Hr2. injection Hr2 as <-.
    split; [done|]. intros chan _. by eapply release_waiting.
  - destruct (elapse_ok now q Hwf) as (q2 & Hr2 & Hwf2 & _). rewrite Hr in Hr2. injection Hr2 as <-.
    split; [done|]. intros chan _. by eapply elapse_waiting.
  - destruct (enqueue_ok t q Hwf) as (q2 & Hr2 & Hwf2 & _). rewrite Hr in Hr2. injection Hr2 as <-.
    split; [done|]. intros chan _. by eapply enqueue_waiting.
Qed.

(** ** Mutex *)

Module Mutex.

(** Where a task is: outside, in front of the spin lock of [lock], in front of
    [block] with the spin lock held, in the critical section, in front of [release]
    in [drop]. *)
Inductive pc := Idle | Trying | Blocking | Holding | Releasing.

#[export] Instance pc_eq_dec : EqDecision pc.
Proof. solve_decision. Defined.

(** [spin] is the task that holds the spin lock across a step. *)
Record state := {
  tasks : TaskQueue;
  running : list Task;
  locked : bool;
  spin : option Z;
  at_ : Z -> pc
}.

Section mutex.
Context (chan : Z).

(** [MutexGuard::new], the part under the spin lock. *)
Definition lock_locked (i : nat) (s : state) : option state :=
  t ← running s !! i;
  if locked s then
    Some {| tasks := tasks s; running := running s; locked := true; spin := Some (t_id t); at_ := <[t_id t := Blocking]> (at_ s) |}
  else
    Some {| tasks := tasks s; running := running s; locked := true; spin := None; at_ := <[t_id t := Holding]> (at_ s) |}.

(** [block(chan, None, locked)]: drops the spin lock under the lock of the queue. *)
Definition lock_block (now : Z) (i : nat) (s : state) : option state :=
  t ← running s !! i;
  '(next, q) ← dequeue now t (Blocked chan None) (tasks s);
  Some {| tasks := q; running := <[i := next]> (running s); locked := locked s; spin := None; at_ := <[t_id t := Trying]> (at_ s) |}.

(** [drop], the part under the spin lock and the release. *)
Definition drop_unlock (i : nat) (s : state) : option state :=
  t ← running s !! i;
  Some {| tasks := tasks s; running := running s; locked := false; spin := None; at_ := <[t_id t := Releasing]> (at_ s) |}.

Definition drop_release (i : nat) (s : state) : option state :=
  t ← running s !! i;
  q ← release chan (tasks s);
  Some {| tasks := q; running := running s; locked := locked s; spin := spin s; at_ := <[t_id t := Idle]> (at_ s) |}.

(** The task of the CPU [i] is at [p]. *)
Definition here (s : state) (i : nat) (p : pc) : Prop := exists t, running s !! i = Some t /\ at_ s (t_id t) = p.

Definition initial (run : list Task) : state :=
  {| tasks := queue_new; running := run; locked := false; spin := None; at_ := fun _ => Idle |}.

Inductive step : state -> state -> Prop :=
| step_call i t s :
    running s !! i = Some t -> at_ s (t_id t) = Idle ->
    step s {| tasks := tasks s; running := running s; locked := locked s; spin := spin s; at_ := <[t_id t := Trying]> (at_ s) |}
| step_lock i s s' : here s i Trying -> spin s = None -> lock_locked i s = Some s' -> step s s'
| step_block now i s s' : here s i Blocking -> room now (Blocked chan None) (tasks s) -> lock_block now i s = Some s' -> step s s'
| step_unlock i s s' : here s i Holding -> spin s = None -> drop_unlock i s = Some s' -> step s s'
| step_release i s s' : here s i Releasing -> drop_release i s = Some s' -> step s s'
| step_other q run s :
    environment (fun c => c = chan) (fun id => at_ s id = Blocking) (tasks s, running s) (q, run) ->
    step s {| tasks := q; running := run; locked := locked s; spin := spin s; at_ := at_ s |}.

Definition reachable (run : list Task) (s : state) : Prop := rtc step (initial run) s.

Record inv (s : state) : Prop := {
  iv_queue : queue_wf (tasks s);
  iv_holder : locked s = true <-> exists id, at_ s id = Holding;
  iv_one : forall id id', at_ s id = Holding -> at_ s id' = Holding -> id = id';
  iv_spin : forall id, spin s = Some id <-> at_ s id = Blocking;
  iv_locked : is_Some (spin s) -> locked s = true;
  iv_waiting : waiting chan (tasks s) -> locked s = true \/ exists id, at_ s id = Releasing
}.

(** *** Lemmas *)

(** Moving a task from [f id] to [p] does not change who is at [r]. *)
Lemma moved (f : Z -> pc) id p r : f id <> r -> p <> r -> forall id', (<[id := p]> f) id' = r <-> f id' = r.
Proof.
  intros Hf Hp id'. destruct (decide (id' = id)) as [->|Hne]; [by rewrite fn_lookup_insert|by rewrite fn_lookup_insert_ne].
Qed.

Lemma initial_inv run : inv (initial run).
Proof.
  split; simpl; try done; try naive_solver.
  - apply queue_new_wf.
  - intros (ids & id & t & Hb & _). done.
Qed.

Lemma mutex_step_inv s s' : inv s -> step s s' -> inv s'.
Proof.
  intros [Hq Hh Ho Hs Hl Hw] Hstep.
  destruct Hstep as [i t s Ht Hi|i s s' (t & Ht & Hi) Hsp Hf|now i s s' (t & Ht & Hi) Hroom Hf|i s s' (t & Ht & Hi) Hsp Hf|i s s' (t & Ht & Hi) Hf|q run s He].
  - assert (Hm : forall r, Trying <> r -> Idle <> r -> forall id, (<[t_id t := Trying]> (at_ s)) id = r <-> at_ s id = r)
      by (intros r ? ?; apply moved; congruence).
    split; simpl; try setoid_rewrite Hm; done.
  - assert (Hm : forall p r, p <> r -> Trying <> r -> forall id, (<[t_id t := p]> (at_ s)) id = r <-> at_ s id = r)
      by (intros p r ? ?; apply moved; congruence).
    unfold lock_locked in Hf. rewrite Ht in Hf. simpl in Hf. destruct (locked s) eqn:Hlk; injection Hf as <-.
    + split; simpl; try (setoid_rewrite Hm; done); [done| |done]. intros id. destruct (decide (id = t_id t)) as [->|Hne].
      * by rewrite fn_lookup_insert.
      * rewrite fn_lookup_insert_ne by done. rewrite <- Hs, Hsp. naive_solver.
    + assert (Hno : forall id, at_ s id <> Holding) by (intros id Hid; assert (false = true) by (apply Hh; eauto); done).
      split; simpl; try done.
      * split; [|done]. intros _. exists (t_id t). by rewrite fn_lookup_insert.
      * intros id id'. destruct (decide (id = t_id t)) as [->|Hne], (decide (id' = t_id t)) as [->|Hne']; try done.
        all: rewrite ?fn_lookup_insert, ?fn_lookup_insert_ne by done; intros H1 H2; exfalso; eapply Hno; eauto.
      * setoid_rewrite Hm; [|done|done]. by rewrite <- Hsp.
      * auto.
  - unfold lock_block in Hf. rewrite Ht in Hf. simpl in Hf. apply bind_Some in Hf as ([next q] & Hd & [= <-]).
    apply Hs in Hi as Hsp. assert (Hlk : locked s = true) by (apply Hl; eauto).
    assert (Hm : forall r, Trying <> r -> Blocking <> r -> forall id, (<[t_id t := Trying]> (at_ s)) id = r <-> at_ s id = r)
      by (intros r ? ?; apply moved; congruence).
    split; simpl; try (setoid_rewrite Hm; done); [by eapply dequeue_keeps_wf| |by intros [? ?]|auto].
    intros id. split; [done|]. destruct (decide (id = t_id t)) as [->|Hne]; [by rewrite fn_lookup_insert|].
    rewrite fn_lookup_insert_ne by done. intros Hid%Hs. congruence.
  - unfold drop_unlock in Hf. rewrite Ht in Hf. injection Hf as <-. split; simpl; try done.
    + split; [done|]. intros [id Hid]. destruct (decide (id = t_id t)) as [->|Hne]; [by rewrite fn_lookup_insert in Hid|].
      rewrite fn_lookup_insert_ne in Hid by done. by rewrite (Ho id (t_id t) Hid Hi) in Hne.
    + intros id id' H1 H2. destruct (decide (id = t_id t)) as [->|Hne]; [by rewrite fn_lookup_insert in H1|].
      rewrite fn_lookup_insert_ne in H1 by done. by rewrite (Ho id (t_id t) H1 Hi) in Hne.
    + intros id. rewrite moved by congruence. by rewrite <- Hsp.
    + intros _. right. exists (t_id t). by rewrite fn_lookup_insert.
  - unfold drop_release in Hf. rewrite Ht in Hf. simpl in Hf. apply bind_Some in Hf as (q & Hr & [= <-]).
    pose proof (release_not_waiting chan _ _ Hq Hr) as Hnw. destruct (release_ok chan _ Hq) as (q2 & Hr2 & Hwf2 & _).
    rewrite Hr in Hr2. injection Hr2 as <-.
    assert (Hm : forall r, Idle <> r -> Releasing <> r -> forall id, (<[t_id t := Idle]> (at_ s)) id = r <-> at_ s id = r)
      by (intros r ? ?; apply moved; congruence).
    split; simpl; try (setoid_rewrite Hm; done); done.
  - destruct (environment_ok _ _ _ _ _ _ Hq He) as [Hwf Hwt]. split; simpl; try done. intros H. apply Hw. by apply Hwt.
Qed.

Lemma mutex_reachable_inv run s : reachable run s -> inv s.
Proof.
  unfold reachable. intros Hr. pose proof (initial_inv run) as H. induction Hr as [|a b d Hab _ IH]; [done|]. apply IH. by eapply mutex_step_inv.
Qed.

(** *** Properties *)

(** [C17]. Whatever the tasks of all CPUs and the rest of the kernel do, at most one
    task is in the critical section of a mutex, and there is one exactly when the mutex
    is marked as locked. No wake-up is lost: while a task waits for the
    mutex there is a task that holds it, or one that has unlocked it and whose next
    step makes all waiting tasks runnable. *)
Theorem mutex_exclusive (run : list Task) (s : state) :
  reachable run s ->
  (forall id id', at_ s id = Holding -> at_ s id' = Holding -> id = id') /\
  (locked s = true <-> exists id, at_ s id = Holding) /\
  (waiting chan (tasks s) ->
    (exists id, at_ s id = Holding) \/
    (exists id, at_ s id = Releasing /\ forall i t, running s !! i = Some t -> t_id t = id ->
      exists s', drop_release i s = Some s' /\ ~ waiting chan (tasks s') /\ queue_tasks (tasks s') ≡ₚ queue_tasks (tasks s))).
Proof.
  intros Hr%mutex_reachable_inv. split; [apply Hr|]. split; [apply Hr|]. intros Hw.
  destruct (iv_waiting _ Hr Hw) as [Hl|[id Hid]]; [left; by apply Hr|right].
  exists id. split; [done|]. intros i t Ht _. destruct (release_ok chan _ (iv_queue _ Hr)) as (q & Hq & _ & _ & _ & Hp & _).
  pose proof (release_not_waiting chan _ _ (iv_queue _ Hr) Hq) as Hnw. unfold drop_release. rewrite Ht. simpl. rewrite Hq. simpl. eauto.
Qed.

End mutex.

(** Two CPUs and a third task in the queue: the task 1 holds the mutex, and the
    task 2 waits for it. *)
Definition demo_tasks : list Task := [demo_task 1 L1; demo_task 2 L1].

Lemma demo_reachable : exists s, reachable 5 demo_tasks s /\ waiting 5 (tasks s) /\ locked s = true /\ at_ s 1 = Holding.
Proof.
  eexists. split; [unfold reachable|].
  { eapply rtc_l; [eapply (step_other 5 _ demo_tasks); eapply (env_add _ _ (demo_task 3 L1)); reflexivity|].
    eapply rtc_l; [eapply (step_call 5 0); reflexivity|]. eapply rtc_l; [eapply (step_call 5 1); reflexivity|].
    eapply rtc_l; [eapply (step_lock 5 0); [eexists; split; reflexivity|reflexivity|reflexivity]|].
    eapply rtc_l; [eapply (step_lock 5 1); [eexists; split; reflexivity|reflexivity|reflexivity]|].
    eapply rtc_l; [eapply (step_block 5 7 1); [eexists; split; reflexivity|by vm_compute|reflexivity]|]. apply rtc_refl. }
  split_and!; try done. exists [0], 0, (demo_task 2 L1). split_and!; try done. by left.
Qed.

Lemma mutex_exclusive_witness : exists s, reachable 5 demo_tasks s /\ (forall id, at_ s id = Holding -> id = 1) /\ waiting 5 (tasks s) /\
  ((exists id, at_ s id = Holding) \/ (exists id, at_ s id = Releasing)).
Proof.
  destruct demo_reachable as (s & Hr & Hw & _ & H1). exists s. destruct (mutex_exclusive 5 demo_tasks s Hr) as (Hone & _ & Hwake).
  split; [done|]. split; [intros id Hid; by apply Hone|]. split; [done|]. destruct (Hwake Hw) as [?|(id & ? & _)]; eauto.
Defined.

End Mutex.

(** ** Queue *)

(** [heapless::mpmc::MpMcQueue]: [enqueue] hands the item back when the queue is
    full, and [dequeue] answers [None] when it is empty. *)
Class MpMcQueue (Q T : Type) := {
  mq_enqueue : T -> Q -> option Q;
  mq_dequeue : Q -> option (T * Q)
}.

(** It is a bounded first-in first-out queue of capacity [n]. *)
Class MpMcLaws (Q T : Type) `{MpMcQueue Q T} (n : nat) (contents : Q -> list T) : Prop := {
  mq_enqueue_ok x q : (length (contents q) < n)%nat -> exists q', mq_enqueue x q = Some q' /\ contents q' = contents q ++ [x];
  mq_enqueue_full x q : (n <= length (contents q))%nat -> mq_enqueue x q = None;
  mq_dequeue_ok q x l : contents q = x :: l -> exists q', mq_dequeue q = Some (x, q') /\ contents q' = l;
  mq_dequeue_empty q : contents q = [] -> mq_dequeue q = None
}.

(** A list of at most four items. *)
#[export] Instance list4_queue : MpMcQueue (list Z) Z := {
  mq_enqueue x q := if (length q <? 4)%nat then Some (q ++ [x]) else None;
  mq_dequeue q := match q with [] => None | x :: q => Some (x, q) end
}.

#[export] Instance list4_laws : MpMcLaws (list Z) Z 4 (fun q => q).
Proof.
  split; simpl.
  - intros x q Hq. rewrite (proj2 (Nat.ltb_lt _ _) Hq). eauto.
  - intros x q Hq. by rewrite (proj2 (Nat.ltb_ge _ _) Hq).
  - intros q x l ->. eauto.
  - by intros q ->.
Qed.

Module Queue.

(** [enqueue] and [dequeue], the variants with a timeout, and the [try_] variants. *)
Inductive mode := Forever | Within (timeout : Z) | Try.

(** Where a thread is: outside, in front of the first attempt, in front of
    [switch], in front of the last attempt of a variant with timeout, and behind
    a successful attempt in front of [release]. *)
Inductive pc (T : Type) :=
| Idle
| Enqueue (m : mode) (item : T) | EnqueueSwitch (m : mode) (item : T) | EnqueueLast (item : T) | Enqueued
| Dequeue (m : mode) | DequeueSwitch (m : mode) | DequeueLast | Dequeued (item : T).
Arguments Idle {T}. Arguments Enqueue {T}. Arguments EnqueueSwitch {T}. Arguments EnqueueLast {T}. Arguments Enqueued {T}.
Arguments Dequeue {T}. Arguments DequeueSwitch {T}. Arguments DequeueLast {T}. Arguments Dequeued {T}.

(** [accepted] and [returned] record the items of all successful attempts. *)
Record state (Q T : Type) := {
  tasks : TaskQueue;
  running : list Task;
  inner : Q;
  at_ : Z -> pc T;
  accepted : list T;
  returned : list T
}.
Arguments tasks {Q T}. Arguments running {Q T}. Arguments inner {Q T}. Arguments at_ {Q T}.
Arguments accepted {Q T}. Arguments returned {Q T}.

Section queue.
Context {Q T : Type} `{MpMcQueue Q T}.
Context (empty_chan full_chan : Z).

Definition set_at (a : Z) (p : pc T) (s : state Q T) : state Q T :=
  {| tasks := tasks s; running := running s; inner := inner s; at_ := <[a := p]> (at_ s); accepted := accepted s; returned := returned s |}.

(** [self.inner.enqueue(item)] by the thread [a], which goes on at [p] on failure. *)
Definition try_inner_enqueue (a : Z) (item : T) (p : pc T) (s : state Q T) : state Q T :=
  match mq_enqueue item (inner s) with
  | Some q => {| tasks := tasks s; running := running s; inner := q; at_ := <[a := Enqueued]> (at_ s);
                 accepted := accepted s ++ [item]; returned := returned s |}
  | None => set_at a p s
  end.

(** [self.inner.dequeue()] *)
Definition try_inner_dequeue (a : Z) (p : pc T) (s : state Q T) : state Q T :=
  match mq_dequeue (inner s) with
  | Some (item, q) => {| tasks := tasks s; running := running s; inner := q; at_ := <[a := Dequeued item]> (at_ s);
                         accepted := accepted s; returned := returned s ++ [item] |}
  | None => set_at a p s
  end.

(** What follows a failed first attempt. *)
Definition enqueue_failed (m : mode) (item : T) : pc T := match m with Try => Idle | _ => EnqueueSwitch m item end.
Definition dequeue_failed (m : mode) : pc T := match m with Try => Idle | _ => DequeueSwitch m end.

(** What follows the return of [switch]. *)
Definition enqueue_again (m : mode) (item : T) : pc T := match m with Within _ => EnqueueLast item | _ => Enqueue m item end.
Definition dequeue_again (m : mode) : pc T := match m with Within _ => DequeueLast | _ => Dequeue m end.

Definition timeout_of (m : mode) : option Z := match m with Within t => Some t | _ => None end.

(** [switch] on the CPU [i]: another attempt under the lock of the task queue,
    and blocking on [chan] when it fails. *)
Definition block_on (now : Z) (i : nat) (t : Task) (chan : Z) (m : mode) (p : pc T) (s : state Q T) : option (state Q T) :=
  '(next, q) ← dequeue now t (Blocked chan (timeout_of m)) (tasks s);
  Some {| tasks := q; running := <[i := next]> (running s); inner := inner s; at_ := <[t_id t := p]> (at_ s);
          accepted := accepted s; returned := returned s |}.

Definition enqueue_switch (now : Z) (i : nat) (m : mode) (item : T) (s : state Q T) : option (state Q T) :=
  t ← running s !! i;
  match mq_enqueue item (inner s) with
  | Some _ => Some (try_inner_enqueue (t_id t) item Idle s)
  | None => block_on now i t full_chan m (enqueue_again m item) s
  end.

Definition dequeue_switch (now : Z) (i : nat) (m : mode) (s : state Q T) : option (state Q T) :=
  t ← running s !! i;
  match mq_dequeue (inner s) with
  | Some _ => Some (try_inner_dequeue (t_id t) Idle s)
  | None => block_on now i t empty_chan m (dequeue_again m) s
  end.

(** [release(chan)], the end of every successful operation. *)
Definition finish (a : Z) (chan : Z) (s : state Q T) : option (state Q T) :=
  q ← release chan (tasks s);
  Some {| tasks := q; running := running s; inner := inner s; at_ := <[a := Idle]> (at_ s);
          accepted := accepted s; returned := returned s |}.

(** The thread of a running task, or an interrupt handler, which may only try. *)
Definition active (handler : Z -> Prop) (s : state Q T) (a : Z) : Prop :=
  (exists i t, running s !! i = Some t /\ t_id t = a) \/ handler a.

Definition allowed (handler : Z -> Prop) (a : Z) (m : mode) : Prop := handler a -> m = Try.

Inductive step (handler : Z -> Prop) : state Q T -> state Q T -> Prop :=
| step_call_enqueue a m item s :
    active handler s a -> allowed handler a m -> at_ s a = Idle -> step handler s (set_at a (Enqueue m item) s)
| step_call_dequeue a m s :
    active handler s a -> allowed handler a m -> at_ s a = Idle -> step handler s (set_at a (Dequeue m) s)
| step_enqueue a m item s :
    active handler s a -> at_ s a = Enqueue m item -> step handler s (try_inner_enqueue a item (enqueue_failed m item) s)
| step_dequeue a m s :
    active handler s a -> at_ s a = Dequeue m -> step handler s (try_inner_dequeue a (dequeue_failed m) s)
| step_enqueue_switch now i t m item s s' :
    running s !! i = Some t -> at_ s (t_id t) = EnqueueSwitch m item ->
    room now (Blocked full_chan (timeout_of m)) (tasks s) -> enqueue_switch now i m item s = Some s' -> step handler s s'
| step_dequeue_switch now i t m s s' :
    running s !! i = Some t -> at_ s (t_id t) = DequeueSwitch m ->
    room now (Blocked empty_chan (timeout_of m)) (tasks s) -> dequeue_switch now i m s = Some s' -> step handler s s'
| step_enqueue_last a item s :
    active handler s a -> at_ s a = EnqueueLast item -> step handler s (try_inner_enqueue a item Idle s)
| step_dequeue_last a s :
    active handler s a -> at_ s a = DequeueLast -> step handler s (try_inner_dequeue a Idle s)
| step_enqueued a s s' :
    active handler s a -> at_ s a = Enqueued -> finish a empty_chan s = Some s' -> step handler s s'
| step_dequeued a item s s' :
    active handler s a -> at_ s a = Dequeued item -> finish a full_chan s = Some s' -> step handler s s'
| step_other q run s :
    environment (fun c => c = empty_chan \/ c = full_chan) (fun _ => False) (tasks s, running s) (q, run) ->
    step handler s {| tasks := q; running := run; inner := inner s; at_ := at_ s; accepted := accepted s; returned := returned s |}.

Definition initial (run : list Task) (q : Q) : state Q T :=
  {| tasks := queue_new; running := run; inner := q; at_ := fun _ => Idle; accepted := []; returned := [] |}.

Definition reachable (handler : Z -> Prop) (run : list Task) (q : Q) (s : state Q T) : Prop :=
  rtc (step handler) (initial run q) s.

(** *** The invariant *)

Context (n : nat) (contents : Q -> list T) `{!MpMcLaws Q T n contents}.
Context (handler : Z -> Prop).

(** A thread is about to release the channel that enqueuing resp. dequeuing wakes. *)
Definition to_release_empty (s : state Q T) : Prop := exists a, at_ s a = Enqueued.
Definition to_release_full (s : state Q T) : Prop := exists a item, at_ s a = Dequeued item.

Record inv (s : state Q T) : Prop := {
  iv_queue : queue_wf (tasks s);
  iv_fifo : accepted s = returned s ++ contents (inner s);
  iv_empty : waiting empty_chan (tasks s) -> contents (inner s) = [] \/ to_release_empty s;
  iv_full : waiting full_chan (tasks s) -> (n <= length (contents (inner s)))%nat \/ to_release_full s
}.

(** *** Lemmas *)

Lemma inner_enqueued x q q' : mq_enqueue x q = Some q' -> (length (contents q) < n)%nat /\ contents q' = contents q ++ [x].
Proof using Type*.
  intros He. destruct (decide (length (contents q) < n)%nat) as [Hlt|Hge].
  - destruct (mq_enqueue_ok x q Hlt) as (q2 & He2 & Hc). rewrite He in He2. injection He2 as <-. done.
  - rewrite mq_enqueue_full in He by lia. done.
Qed.

Lemma inner_not_enqueued x q : mq_enqueue x q = None -> (n <= length (contents q))%nat.
Proof using Type*.
  intros He. destruct (decide (length (contents q) < n)%nat) as [Hlt|Hge]; [|lia].
  destruct (mq_enqueue_ok x q Hlt) as (q2 & He2 & _). congruence.
Qed.

Lemma inner_dequeued x q q' : mq_dequeue q = Some (x, q') -> contents q = x :: contents q'.
Proof using Type*.
  intros Hd. destruct (contents q) as [|y l] eqn:Hc.
  - by rewrite mq_dequeue_empty in Hd.
  - destruct (mq_dequeue_ok q y l Hc) as (q2 & Hd2 & Hc2). rewrite Hd in Hd2. injection Hd2 as <- <-. by rewrite Hc2.
Qed.

Lemma inner_not_dequeued q : mq_dequeue q = None -> contents q = [].
Proof using Type*.
  intros Hd. destruct (contents q) as [|y l] eqn:Hc; [done|]. destruct (mq_dequeue_ok q y l Hc) as (q2 & Hd2 & _). congruence.
Qed.

(** A thread that is not about to release a channel moves. *)
Definition settled (p : pc T) : Prop := match p with Enqueued | Dequeued _ => False | _ => True end.

Lemma move_empty (f : Z -> pc T) a p : f a <> Enqueued -> (exists a', f a' = Enqueued) -> exists a', (<[a := p]> f) a' = Enqueued.
Proof.
  intros Ha (a' & Ha'). exists a'. rewrite fn_lookup_insert_ne; [done|]. by intros ->.
Qed.

Lemma move_full (f : Z -> pc T) a p :
  (forall i, f a <> Dequeued i) -> (exists a' i, f a' = Dequeued i) -> exists a' i, (<[a := p]> f) a' = Dequeued i.
Proof.
  intros Ha (a' & i & Ha'). exists a', i. rewrite fn_lookup_insert_ne; [done|]. intros ->. by apply (Ha i).
Qed.

Lemma set_at_inv a p s : inv s -> settled (at_ s a) -> inv (set_at a p s).
Proof.
  intros [Hq Hf He Hu] Ha. split; simpl; try done.
  - intros Hw. destruct (He Hw) as [?|Hr]; [by left|right]. apply move_empty; [|done]. by intros E; rewrite E in Ha.
  - intros Hw. destruct (Hu Hw) as [?|Hr]; [by left|right]. apply move_full; [|done]. by intros i E; rewrite E in Ha.
Qed.

Lemma try_inner_enqueue_inv a item p s : inv s -> settled (at_ s a) -> inv (try_inner_enqueue a item p s).
Proof using Type*.
  intros Hinv Ha. unfold try_inner_enqueue. destruct (mq_enqueue item (inner s)) as [q|] eqn:Hm; [|by apply set_at_inv].
  destruct (inner_enqueued _ _ _ Hm) as [Hlt Hc]. destruct Hinv as [Hq Hf He Hu]. split; simpl; try done.
  - by rewrite Hf, Hc, app_assoc.
  - intros _. right. exists a. apply fn_lookup_insert.
  - intros Hw. destruct (Hu Hw) as [?|Hr]; [lia|right]. apply move_full; [|done]. by intros i E; rewrite E in Ha.
Qed.

Lemma try_inner_dequeue_inv a p s : inv s -> settled (at_ s a) -> inv (try_inner_dequeue a p s).
Proof using Type*.
  intros Hinv Ha. unfold try_inner_dequeue. destruct (mq_dequeue (inner s)) as [[item q]|] eqn:Hm; [|by apply set_at_inv].
  pose proof (inner_dequeued _ _ _ Hm) as Hc. destruct Hinv as [Hq Hf He Hu]. split; simpl; try done.
  - by rewrite Hf, Hc, <- app_assoc.
  - intros Hw. destruct (He Hw) as [?|Hr]; [congruence|right]. apply move_empty; [|done]. by intros E; rewrite E in Ha.
  - intros _. right. exists a, item. apply fn_lookup_insert.
Qed.

(** Blocking on a channel on which it is right to wait. *)
Lemma block_on_inv now i t chan m p s s' :
  inv s -> settled (at_ s (t_id t)) -> room now (Blocked chan (timeout_of m)) (tasks s) ->
  (chan = empty_chan -> contents (inner s) = []) -> (chan = full_chan -> (n <= length (contents (inner s)))%nat) ->
  block_on now i t chan m p s = Some s' -> inv s'.
Proof.
  intros [Hq Hf He Hu] Ha Hroom Hce Hcf Hb. unfold block_on in Hb. apply bind_Some in Hb as ([next q] & Hd & [= <-]).
  assert (Hwait : forall c, waiting c q -> waiting c (tasks s) \/ chan = c).
  { intros c Hw. destruct (dequeue_waiting c _ _ _ _ _ _ Hq Hroom Hd Hw) as [?|[to [= -> _]]]; auto. }
  split; simpl; try done; [by eapply dequeue_keeps_wf| |].
  - intros [Hw|?]%Hwait; [|by auto]. destruct (He Hw) as [?|Hr]; [by left|right]. apply move_empty; [|done]. by intros E; rewrite E in Ha.
  - intros [Hw|?]%Hwait; [|by auto]. destruct (Hu Hw) as [?|Hr]; [by left|right]. apply move_full; [|done]. by intros j E; rewrite E in Ha.
Qed.

Lemma finish_inv a chan s s' :
  inv s -> finish a chan s = Some s' -> (at_ s a = Enqueued -> chan = empty_chan) ->
  (forall item, at_ s a = Dequeued item -> chan = full_chan) -> inv s'.
Proof.
  intros [Hq Hf He Hu] Hfin Ha Ha'. unfold finish in Hfin. apply bind_Some in Hfin as (q & Hr & [= <-]).
  pose proof (release_not_waiting chan _ _ Hq Hr) as Hnw.
  assert (Hwait : forall c, waiting c q -> waiting c (tasks s)) by (intros c; by eapply release_waiting).
  assert (Hwf : queue_wf q) by (destruct (release_ok chan _ Hq) as (q2 & Hr2 & Hwf2 & _); congruence).
  split; simpl; try done.
  - intros Hw. destruct (He (Hwait _ Hw)) as [?|Hr']; [by left|right]. apply move_empty; [|done]. intros E. by rewrite (Ha E) in Hnw.
  - intros Hw. destruct (Hu (Hwait _ Hw)) as [?|Hr']; [by left|right]. apply move_full; [|done]. intros j E. by rewrite (Ha' j E) in Hnw.
Qed.

Context (Hdiffer : empty_chan <> full_chan).

Lemma queue_step_inv s s' : inv s -> step handler s s' -> inv s'.
Proof using Type*.
  intros Hinv Hstep.
  destruct Hstep as [a m item s _ _ Ha|a m s _ _ Ha|a m item s _ Ha|a m s _ Ha|now i t m item s s' Ht Ha Hroom Hs|now i t m s s' Ht Ha Hroom Hs
                    |a item s _ Ha|a s _ Ha|a s s' _ Ha Hs|a item s s' _ Ha Hs|q run s He].
  1,2: apply set_at_inv; [done|by rewrite Ha].
  1,5: apply try_inner_enqueue_inv; [done|by rewrite Ha].
  1,4: apply try_inner_dequeue_inv; [done|by rewrite Ha].
  - unfold enqueue_switch in Hs. rewrite Ht in Hs. simpl in Hs. destruct (mq_enqueue item (inner s)) as [q|] eqn:Hm.
    + injection Hs as <-. apply try_inner_enqueue_inv; [done|by rewrite Ha].
    + eapply block_on_inv; try done; [by rewrite Ha|]. intros _. by eapply inner_not_enqueued.
  - unfold dequeue_switch in Hs. rewrite Ht in Hs. simpl in Hs. destruct (mq_dequeue (inner s)) as [[x q]|] eqn:Hm.
    + injection Hs as <-. apply try_inner_dequeue_inv; [done|by rewrite Ha].
    + eapply block_on_inv; try done; [by rewrite Ha|]. intros _. by apply inner_not_dequeued.
  - eapply finish_inv; try done. intros j. congruence.
  - eapply finish_inv; try done. congruence.
  - destruct Hinv as [Hq Hf He' Hu]. destruct (environment_ok _ _ _ _ _ _ Hq He) as [Hwf Hwt]. split; simpl; try done; intros Hw.
    + apply He', Hwt; auto.
    + apply Hu, Hwt; auto.
Qed.

Lemma queue_reachable_inv run q s : contents q = [] -> reachable handler run q s -> inv s.
Proof using Type*.
  unfold reachable. intros Hq Hr. assert (H1 : inv (initial run q)).
  { split; simpl; try done; [apply queue_new_wf| |]; by intros (ids & id & t & Hb & _). }
  induction Hr as [|a b d Hab _ IH]; [done|]. apply IH; by eapply queue_step_inv.
Qed.

(** *** Properties *)

(** [C18]. The queue delivers its items in order and loses no
    wake-up: the accepted items are the returned ones followed by those in the
    queue; a task waits for an item only while the queue is empty or a thread has
    enqueued one and is about to wake the waiters; and a task waits for room only
    while the queue is full or a thread has dequeued an item and is about to wake
    them. Threads are the tasks of all CPUs and interrupt handlers. *)
Theorem queue_no_lost_wakeup (run : list Task) (q : Q) (s : state Q T) :
  contents q = [] -> reachable handler run q s ->
  accepted s = returned s ++ contents (inner s) /\
  (waiting empty_chan (tasks s) -> contents (inner s) = [] \/ exists a, at_ s a = Enqueued /\
     exists s', finish a empty_chan s = Some s' /\ ~ waiting empty_chan (tasks s')) /\
  (waiting full_chan (tasks s) -> (n <= length (contents (inner s)))%nat \/ exists a item, at_ s a = Dequeued item /\
     exists s', finish a full_chan s = Some s' /\ ~ waiting full_chan (tasks s')).
Proof using Type*.
  intros Hq Hr. pose proof (queue_reachable_inv run q s Hq Hr) as [Hwf Hf He Hu].
  assert (Hfin : forall a chan, exists s', finish a chan s = Some s' /\ ~ waiting chan (tasks s')).
  { intros a chan. destruct (release_ok chan _ Hwf) as (q' & Hq' & _). unfold finish. rewrite Hq'. simpl. eexists. split; [done|].
    by eapply release_not_waiting. }
  split_and!; [done| |].
  - intros Hw. destruct (He Hw) as [?|[a Ha]]; eauto.
  - intros Hw. destruct (Hu Hw) as [?|(a & i & Ha)]; [by left|]. right. exists a, i. auto.
Qed.

End queue.

Lemma queue_no_lost_wakeup_witness :
  exists s : state (list Z) Z, reachable 5 6 (fun a => a < 0) [demo_task 1 L1] [] s /\ accepted s = [8] /\ accepted s = returned s ++ inner s.
Proof.
  set (h := fun a : Z => a < 0).
  assert (Hr : exists s : state (list Z) Z, reachable 5 6 h [demo_task 1 L1] [] s /\ accepted s = [8]).
  { eexists. split; [unfold reachable|].
    - eapply rtc_l; [eapply (step_call_enqueue _ _ h (-1) Try 8); [by right|done|done]|].
      eapply rtc_l; [eapply (step_enqueue _ _ h (-1) Try 8); [by right|reflexivity]|]. apply rtc_refl.
    - reflexivity. }
  destruct Hr as (s & Hr & Ha). exists s. split_and!; try done.
  apply (queue_no_lost_wakeup (Q := list Z) (T := Z) 5 6 4 (fun q => q) h ltac:(lia) [demo_task 1 L1] [] s eq_refl Hr).
Defined.

End Queue.
