(* ===== verification/Spin.v ===== *)
(** * Spin locks and one-time initialisation (src/ors-kernel/src/sync/spin.rs, once.rs, lazy.rs)

    [Spin], [Once] and [Lazy] put an interrupt lock around the types of the crate
    [spin], which are interfaces. A CPU is a stack of activations: the code it was
    running, and the interrupt handlers on top of it. The steps of all CPUs
    interleave; an interrupt pushes an activation when the interrupt flag is set. *)

From S2P Require Import Prelude Cpu.
Local Open Scope Z_scope.

(** ** The crate [spin] *)

(** [spin::Mutex]: [acquire] is the compare-and-exchange of [try_lock] and of the loop
    of [lock]; it fails while the mutex is locked. *)
Class SpinMutex := {
  mutex : Type;
  mutex_new : mutex;
  locked : mutex -> bool;
  acquire : mutex -> option mutex;
  unlock : mutex -> mutex;
  mutex_new_free : locked mutex_new = false;
  acquire_locked m : locked m = true -> acquire m = None;
  acquire_free m : locked m = false -> exists m', acquire m = Some m' /\ locked m' = true;
  unlock_free m : locked (unlock m) = false
}.

(** [spin::Once]: [begin_once] is the transition from incomplete to running, and
    [finish_once] the one to complete. *)
Class SpinOnce (T : Type) := {
  once : Type;
  once_new : once;
  get_once : once -> option T;
  running_once : once -> bool;
  begin_once : once -> option once;
  finish_once : T -> once -> once;
  once_new_get : get_once once_new = None;
  once_new_idle : running_once once_new = false;
  begin_idle o : get_once o = None -> running_once o = false -> exists o', begin_once o = Some o' /\ running_once o' = true /\ get_once o' = None;
  begin_busy o : running_once o = true \/ is_Some (get_once o) -> begin_once o = None;
  finish_get v o : get_once (finish_once v o) = Some v /\ running_once (finish_once v o) = false
}.

(** ** CPUs with interrupts *)

Section cpus.
Context {A : Type}.

(** The activations of a CPU, the running one first *)
Record Core := { core_hart : Hart; frames : list A }.

(** An interrupt is taken when the flag is set, and clears it; [iret] sets it again. *)
Definition interrupt (handler : A) (x : Core) : option Core :=
  if enabled (core_hart x) then
    Some {| core_hart := {| thread_state := thread_state (core_hart x); enabled := false |}; frames := handler :: frames x |}
  else None.

Definition iret (x : Core) : option Core :=
  match frames x with
  | _ :: (_ :: _) as rest =>
      Some {| core_hart := {| thread_state := thread_state (core_hart x); enabled := true |}; frames := rest |}
  | _ => None
  end.

End cpus.
Arguments Core : clear implicits.

(** ** [Spin] *)

Section spin.
Context `{SpinMutex}.

(** An activation: the guards it has, the lock it waits for in [Spin::lock], and whether it is in the drop of a guard, between its two fields *)
Record Frame := { guards : list Z; wanted : option Z; dropping : bool }.

Definition idle : Frame := {| guards := []; wanted := None; dropping := false |}.

Record Spins := { spins : Z -> mutex; cores : list (Core Frame) }.

Definition spins_new (flags : list bool) : Spins :=
  {| spins := fun _ => mutex_new; cores := (fun b => {| core_hart := {| thread_state := cts_new; enabled := b |}; frames := [idle] |}) <$> flags |}.

Definition set_core (c : nat) (x : Core Frame) (s : Spins) : Spins := {| spins := spins s; cores := <[c := x]> (cores s) |}.
Definition set_spin (l : Z) (m : mutex) (s : Spins) : Spins := {| spins := fun k => if k =? l then m else spins s k; cores := cores s |}.

(** [Spin::lock] up to the loop of [inner.lock()] *)
Definition lock_enter (c : nat) (l : Z) (s : Spins) : option Spins :=
  x ← cores s !! c;
  match frames x with
  | {| guards := g; wanted := None; dropping := false |} :: rest =>
      h ← cli_new (core_hart x);
      Some (set_core c {| core_hart := h; frames := {| guards := g; wanted := Some l; dropping := false |} :: rest |} s)
  | _ => None
  end.

(** The loop of [inner.lock()] gets the lock. *)
Definition lock_acquire (c : nat) (s : Spins) : option Spins :=
  x ← cores s !! c;
  match frames x with
  | {| guards := g; wanted := Some l; dropping := false |} :: rest =>
      m ← acquire (spins s l);
      Some (set_spin l m (set_core c {| core_hart := core_hart x; frames := {| guards := l :: g; wanted := None; dropping := false |} :: rest |} s))
  | _ => None
  end.

(** [Spin::try_lock]: when the lock is taken the interrupt lock is dropped. *)
Definition try_lock (c : nat) (l : Z) (s : Spins) : option Spins :=
  x ← cores s !! c;
  match frames x with
  | {| guards := g; wanted := None; dropping := false |} :: rest =>
      h ← cli_new (core_hart x);
      match acquire (spins s l) with
      | Some m => Some (set_spin l m (set_core c {| core_hart := h; frames := {| guards := l :: g; wanted := None; dropping := false |} :: rest |} s))
      | None => h ← cli_drop h; Some (set_core c {| core_hart := h; frames := frames x |} s)
      end
  | _ => None
  end.

(** The drop of a [SpinGuard]: its fields are dropped in order, first the guard of the crate *)
Definition inner_drop (c : nat) (l : Z) (s : Spins) : option Spins :=
  x ← cores s !! c;
  match frames x with
  | {| guards := g; wanted := None; dropping := false |} :: rest =>
      if decide (l ∈ g) then
        Some (set_spin l (unlock (spins s l))
          (set_core c {| core_hart := core_hart x; frames := {| guards := filter (fun k => k <> l) g; wanted := None; dropping := true |} :: rest |} s))
      else None
  | _ => None
  end.

(** and then [cli]. *)
Definition guard_cli_drop (c : nat) (s : Spins) : option Spins :=
  x ← cores s !! c;
  match frames x with
  | {| guards := g; wanted := None; dropping := true |} :: rest =>
      h ← cli_drop (core_hart x);
      Some (set_core c {| core_hart := h; frames := {| guards := g; wanted := None; dropping := false |} :: rest |} s)
  | _ => None
  end.

Definition guard_drop (c : nat) (l : Z) (s : Spins) : option Spins := s ← inner_drop c l s; guard_cli_drop c s.

(** The steps; an activation does not ask for a lock it has, nests fewer than [2 ^ 32] locks, and a handler returns without guards. *)
Inductive spin_step : Spins -> Spins -> Prop :=
| spin_lock_enter c l x f rest s s' :
    cores s !! c = Some x -> frames x = f :: rest -> l ∉ guards f -> lock_enter c l s = Some s' -> spin_step s s'
| spin_lock_acquire c s s' : lock_acquire c s = Some s' -> spin_step s s'
| spin_try_lock c l s s' : try_lock c l s = Some s' -> spin_step s s'
| spin_inner_drop c l s s' : inner_drop c l s = Some s' -> spin_step s s'
| spin_cli_drop c s s' : guard_cli_drop c s = Some s' -> spin_step s s'
| spin_interrupt c x x' s : cores s !! c = Some x -> interrupt idle x = Some x' -> spin_step s (set_core c x' s)
| spin_iret c x x' rest s : cores s !! c = Some x -> frames x = idle :: rest -> iret x = Some x' -> spin_step s (set_core c x' s).

Definition spin_reachable (flags : list bool) (s : Spins) : Prop := rtc spin_step (spins_new flags) s.

(** ** The invariant *)

(** The interrupt locks of an activation *)
Definition clis (f : Frame) : Z := zlen (guards f) + (match wanted f with Some _ => 1 | None => 0 end) + (if dropping f then 1 else 0).

(** Only the running activation has guards or waits, and then with interrupts disabled. *)
Definition core_ok (x : Core Frame) : Prop :=
  exists f rest, frames x = f :: rest /\ Forall (fun g => g = idle) rest /\ NoDup (guards f) /\
    (ncli (thread_state (core_hart x)) = clis f /\ clis f < 2 ^ 32) /\ (0 < clis f -> enabled (core_hart x) = false) /\
    (forall l, wanted f = Some l -> (l ∉ guards f) /\ dropping f = false).

(** The guards of the running activation *)
Definition guards_of (x : Core Frame) : list Z := match frames x with f :: _ => guards f | [] => [] end.

Definition holds (s : Spins) (c : nat) (l : Z) : Prop := exists x, cores s !! c = Some x /\ l ∈ guards_of x.

Record spins_ok (s : Spins) : Prop := {
  sp_cores : forall c x, cores s !! c = Some x -> core_ok x;
  sp_locked : forall l, locked (spins s l) = true <-> exists c, holds s c l;
  sp_one : forall c c' l, holds s c l -> holds s c' l -> c = c'
}.

Lemma spins_new_ok flags : spins_ok (spins_new flags).
Proof.
  assert (Hc : forall c x, cores (spins_new flags) !! c = Some x -> exists b, x = {| core_hart := {| thread_state := cts_new; enabled := b |}; frames := [idle] |}).
  { intros c x Hx. apply list_lookup_fmap_Some in Hx as (b & -> & _). eauto. }
  assert (Hn : forall c l, ~ holds (spins_new flags) c l).
  { intros c l (x & Hx & Hl). destruct (Hc c x Hx) as [b ->]. by apply not_elem_of_nil in Hl. }
  split.
  - intros c x Hx. destruct (Hc c x Hx) as [b ->]. exists idle, []. split_and!; [done|by apply List.Forall_nil|by apply NoDup_nil|done|done|by unfold clis; cbn; intros; lia|done].
  - intros l. cbn. rewrite mutex_new_free. split; [done|]. intros [c Hh]. by apply Hn in Hh.
  - intros c c' l Hh. by apply Hn in Hh.
Qed.

(** One core and the locks it has change. *)
Lemma spins_ok_core s s' c x x' :
  spins_ok s -> cores s !! c = Some x -> cores s' = <[c := x']> (cores s) -> core_ok x' ->
  (forall l, locked (spins s' l) = true <-> (exists c', c' <> c /\ holds s c' l) \/ l ∈ guards_of x') ->
  (forall l, l ∈ guards_of x' -> l ∈ guards_of x \/ locked (spins s l) = false) -> spins_ok s'.
Proof.
  intros [Hco Hlk Hone] Hc Hs Hok Hl Hg.
  assert (Hat : cores s' !! c = Some x') by (rewrite Hs; apply list_lookup_insert_eq; by apply lookup_lt_Some in Hc).
  assert (Hot : forall c', c' <> c -> cores s' !! c' = cores s !! c') by (intros c' Hne; rewrite Hs; by apply list_lookup_insert_ne).
  assert (Hhc : forall l, holds s' c l <-> l ∈ guards_of x') by (intros l; unfold holds; rewrite Hat; naive_solver).
  assert (Hho : forall c' l, c' <> c -> holds s' c' l <-> holds s c' l) by (intros c' l Hne; unfold holds; by rewrite Hot).
  assert (Hfresh : forall c' l, c' <> c -> holds s c' l -> l ∉ guards_of x').
  { intros c' l Hne Hh Hin. destruct (Hg l Hin) as [Hin'|Hfree].
    - apply Hne, (Hone c' c l Hh). by exists x.
    - assert (locked (spins s l) = true) by (apply Hlk; eauto). congruence. }
  split.
  - intros c' y Hy. destruct (decide (c' = c)) as [->|Hne]; [congruence|]. rewrite Hot in Hy by done. by eapply Hco.
  - intros l. rewrite Hl. split.
    + intros [(c' & Hne & Hh)|Hin]; [exists c'; by apply Hho|exists c; by apply Hhc].
    + intros [c' Hh]. destruct (decide (c' = c)) as [->|Hne]; [right; by apply Hhc|left; exists c'; split; [done|by apply Hho]].
  - intros c1 c2 l Hh1 Hh2. destruct (decide (c1 = c)) as [->|N1], (decide (c2 = c)) as [->|N2]; [done| | |].
    + apply Hhc in Hh1. apply Hho in Hh2; [|done]. by apply (Hfresh c2 l) in Hh2.
    + apply Hhc in Hh2. apply Hho in Hh1; [|done]. by apply (Hfresh c1 l) in Hh1.
    + apply Hho in Hh1, Hh2; [|done..]. by eapply Hone.
Qed.

(** The locks a core has do not change. *)
Lemma spins_ok_same s s' c x x' :
  spins_ok s -> cores s !! c = Some x -> cores s' = <[c := x']> (cores s) -> spins s' = spins s -> core_ok x' -> guards_of x' = guards_of x -> spins_ok s'.
Proof.
  intros Hok Hc Hs Hm Hx Hg. eapply spins_ok_core; try done; [|intros l; rewrite Hg; auto]. intros l. rewrite Hm, Hg, (sp_locked _ Hok). split.
  - intros [c' Hh]. destruct (decide (c' = c)) as [->|Hne]; [|by left; eauto]. right. destruct Hh as (y & Hy & ?). congruence.
  - intros [(c' & _ & Hh)|Hin]; [eauto|]. exists c. by exists x.
Qed.

Lemma core_cases s c x : spins_ok s -> cores s !! c = Some x -> core_ok x.
Proof. intros Hok. apply (sp_cores _ Hok). Qed.

Lemma cli_new_clis h h' : cli_new h = Some h' -> ncli (thread_state h') = ncli (thread_state h) + 1 /\ enabled h' = false /\ ncli (thread_state h') < 2 ^ 32.
Proof. unfold cli_new, add_checked. intros (d & Hd & [= <-])%bind_Some. apply checked_inv in Hd as [-> Hd]. unfold unsigned in Hd. cbn. split_and!; [done|done|lia]. Qed.

Lemma cli_drop_clis h h' : cli_drop h = Some h' -> ncli (thread_state h') = ncli (thread_state h) - 1 /\ (1 < ncli (thread_state h) -> enabled h' = false).
Proof.
  unfold cli_drop, sub_checked. destruct (enabled h); [done|]. intros (d & Hd & [= <-])%bind_Some. apply checked_inv in Hd as [-> _]. cbn.
  split; [done|]. intros Hn. by rewrite (proj2 (Z.eqb_neq _ _)) by lia.
Qed.

Lemma lock_enter_ok s s' c l x f rest :
  spins_ok s -> cores s !! c = Some x -> frames x = f :: rest -> l ∉ guards f -> lock_enter c l s = Some s' -> spins_ok s'.
Proof.
  intros Hok Hc Hf Hl Hs. destruct (core_cases s c x Hok Hc) as (f' & rest' & Hf' & Hidle & Hnd & [Hn Hlt] & _ & _). rewrite Hf in Hf'. injection Hf' as <- <-.
  unfold lock_enter in Hs. rewrite Hc in Hs. cbn [mbind option_bind] in Hs. rewrite Hf in Hs. destruct f as [g [w|] []]; try done.
  apply bind_Some in Hs as (h & Hh & [= <-]). destruct (cli_new_clis _ _ Hh) as (Hn' & He' & Hb').
  eapply (spins_ok_same s _ c x); try done; [|unfold guards_of; by rewrite Hf].
  exists {| guards := g; wanted := Some l; dropping := false |}, rest. cbn in *. unfold clis in *. cbn in *. split_and!; try done; [lia|lia|]. intros k [= <-]. done.
Qed.

(** A core has got the lock [l]. *)
Lemma acquired_ok s c x h g rest l m :
  spins_ok s -> cores s !! c = Some x -> guards_of x = g -> l ∉ g -> acquire (spins s l) = Some m ->
  core_ok {| core_hart := h; frames := {| guards := l :: g; wanted := None; dropping := false |} :: rest |} ->
  spins_ok (set_spin l m (set_core c {| core_hart := h; frames := {| guards := l :: g; wanted := None; dropping := false |} :: rest |} s)).
Proof.
  intros Hok Hc Hg Hl Ha Hx. assert (Hfree : locked (spins s l) = false) by (destruct (locked (spins s l)) eqn:E; [by rewrite acquire_locked in Ha|done]).
  assert (Hm : locked m = true) by (destruct (acquire_free _ Hfree) as (m' & Ha' & ?); congruence).
  eapply (spins_ok_core s _ c x); try done.
  - intros k. cbn. destruct (Z.eqb_spec k l) as [->|Hne].
    + rewrite Hm. split; [intros _; right; by left|done].
    + rewrite (sp_locked _ Hok), elem_of_cons. split.
      * intros [c' Hh]. destruct (decide (c' = c)) as [->|]; [|left; eauto]. destruct Hh as (y & Hy & Hk). right. right. congruence.
      * intros [(c' & _ & Hh)|[->|Hk]]; [eauto|done|]. exists c, x. by rewrite Hg.
  - intros k. cbn. rewrite elem_of_cons, Hg. intros [->|Hk]; [by right|by left].
Qed.

Lemma lock_acquire_ok s s' c : spins_ok s -> lock_acquire c s = Some s' -> spins_ok s'.
Proof.
  intros Hok Hs. unfold lock_acquire in Hs. apply bind_Some in Hs as (x & Hc & Hs). destruct (core_cases s c x Hok Hc) as (f & rest & Hf & Hidle & Hnd & [Hn Hlt] & He & Hw).
  rewrite Hf in Hs. destruct f as [g [l|] []]; try done. apply bind_Some in Hs as (m & Hm & [= <-]). unfold clis in *. cbn in *.
  eapply acquired_ok; try done; [unfold guards_of; by rewrite Hf|by apply Hw|].
  exists {| guards := l :: g; wanted := None; dropping := false |}, rest. unfold clis. cbn. split_and!; try done; [constructor; [by apply Hw|done]|lia|lia|intros _; apply He; lia].
Qed.

Lemma try_lock_ok s s' c l : spins_ok s -> try_lock c l s = Some s' -> spins_ok s'.
Proof.
  intros Hok Hs. unfold try_lock in Hs. apply bind_Some in Hs as (x & Hc & Hs). destruct (core_cases s c x Hok Hc) as (f & rest & Hf & Hidle & Hnd & [Hn Hlt] & He & Hw).
  rewrite Hf in Hs. destruct f as [g [w|] []]; try done. apply bind_Some in Hs as (h & Hh & Hs). destruct (cli_new_clis _ _ Hh) as (Hn1 & He1 & Hb1). unfold clis in *. cbn in *.
  destruct (acquire (spins s l)) as [m|] eqn:Ha.
  - injection Hs as <-. assert (Hl : l ∉ g).
    { intros Hl. assert (locked (spins s l) = true) by (apply (sp_locked _ Hok); exists c, x; unfold guards_of; by rewrite Hf). by rewrite acquire_locked in Ha. }
    eapply acquired_ok; try done; [unfold guards_of; by rewrite Hf|].
    exists {| guards := l :: g; wanted := None; dropping := false |}, rest. unfold clis. cbn. split_and!; try done; [by constructor|lia|lia].
  - apply bind_Some in Hs as (h2 & Hh2 & [= <-]). destruct (cli_drop_clis _ _ Hh2) as [Hn2 He2].
    eapply (spins_ok_same s _ c x); try done; [|unfold guards_of; cbn; by rewrite Hf].
    exists {| guards := g; wanted := None; dropping := false |}, rest. unfold clis. cbn. split_and!; try done; [lia|]. intros Hpos. apply He2. lia.
Qed.

Lemma filter_length_one (g : list Z) l : NoDup g -> l ∈ g -> zlen (filter (fun k => k <> l) g) = zlen g - 1.
Proof.
  induction 1 as [|k g Hk Hg IH]; intros Hl; [by apply not_elem_of_nil in Hl|]. rewrite filter_cons. apply elem_of_cons in Hl as [->|Hl].
  - rewrite decide_False by naive_solver. assert (E : filter (fun k0 => k0 <> k) g = g).
    { clear -Hk. induction g as [|a g IH]; [done|]. apply not_elem_of_cons in Hk as [? ?]. rewrite filter_cons, decide_True by done. by rewrite IH. }
    rewrite E. cbn [length]. lia.
  - rewrite decide_True by (intros ->; done). cbn [length]. rewrite Nat2Z.inj_succ, IH by done. lia.
Qed.

Lemma inner_drop_ok s s' c l : spins_ok s -> inner_drop c l s = Some s' -> spins_ok s'.
Proof.
  intros Hok Hs. unfold inner_drop in Hs. apply bind_Some in Hs as (x & Hc & Hs). destruct (core_cases s c x Hok Hc) as (f & rest & Hf & Hidle & Hnd & [Hn Hlt] & He & Hw).
  rewrite Hf in Hs. destruct f as [g [w|] []]; try done. case_decide as Hl; [|done]. injection Hs as <-.
  unfold clis in *. cbn in *. pose proof (filter_length_one g l Hnd Hl) as Hlen.
  assert (Hx : guards_of x = g) by (unfold guards_of; by rewrite Hf).
  eapply (spins_ok_core s _ c x); try done.
  - exists {| guards := filter (fun k => k <> l) g; wanted := None; dropping := true |}, rest. unfold clis. cbn. split_and!; try done; [by apply NoDup_filter|lia|lia|]. intros Hpos. apply He. lia.
  - intros k. cbn. rewrite list_elem_of_filter. destruct (Z.eqb_spec k l) as [->|Hne].
    + rewrite unlock_free. split; [done|]. intros [(c' & Hne & Hh')|[? _]]; [|done]. exfalso. apply Hne. eapply (sp_one _ Hok); [done|]. exists x. by rewrite Hx.
    + rewrite (sp_locked _ Hok). split.
      * intros [c' Hh']. destruct (decide (c' = c)) as [->|]; [|left; eauto]. destruct Hh' as (y & Hy & Hk). right. split; [done|]. congruence.
      * intros [(c' & _ & Hh')|[_ Hk]]; [eauto|]. exists c, x. by rewrite Hx.
  - intros k. cbn. rewrite list_elem_of_filter, Hx. intros [_ ?]. by left.
Qed.

Lemma guard_cli_drop_ok s s' c : spins_ok s -> guard_cli_drop c s = Some s' -> spins_ok s'.
Proof.
  intros Hok Hs. unfold guard_cli_drop in Hs. apply bind_Some in Hs as (x & Hc & Hs). destruct (core_cases s c x Hok Hc) as (f & rest & Hf & Hidle & Hnd & [Hn Hlt] & He & Hw).
  rewrite Hf in Hs. destruct f as [g [w|] []]; try done. apply bind_Some in Hs as (h & Hh & [= <-]). destruct (cli_drop_clis _ _ Hh) as [Hn1 He1]. unfold clis in *. cbn in *.
  eapply (spins_ok_same s _ c x); try done; [|unfold guards_of; cbn; by rewrite Hf].
  exists {| guards := g; wanted := None; dropping := false |}, rest. unfold clis. cbn. split_and!; try done; [lia|lia|]. intros Hpos. apply He1. lia.
Qed.

Lemma interrupt_ok s c x x' : spins_ok s -> cores s !! c = Some x -> interrupt idle x = Some x' -> spins_ok (set_core c x' s).
Proof.
  intros Hok Hc Hi. destruct (core_cases s c x Hok Hc) as (f & rest & Hf & Hidle & Hnd & [Hn Hlt] & He & Hw). unfold interrupt in Hi.
  destruct (enabled (core_hart x)) eqn:Hen; [|done]. injection Hi as <-.
  assert (Hz : f = idle). { destruct f as [[|k g] [w|] []]; unfold clis in *; cbn in *; try done; discriminate He; lia. } subst f.
  eapply (spins_ok_same s _ c x); try done; [|unfold guards_of; cbn; by rewrite Hf].
  exists idle, (frames x). cbn. rewrite Hf. split_and!; try done. by constructor.
Qed.

Lemma iret_ok s c x x' rest : spins_ok s -> cores s !! c = Some x -> frames x = idle :: rest -> iret x = Some x' -> spins_ok (set_core c x' s).
Proof.
  intros Hok Hc Hf Hi. destruct (core_cases s c x Hok Hc) as (f & rest' & Hf' & Hidle & _ & [Hn Hlt] & _ & _). rewrite Hf in Hf'. injection Hf' as <- <-.
  unfold iret in Hi. rewrite Hf in Hi. destruct rest as [|g rest]; [done|]. injection Hi as <-. apply Forall_cons in Hidle as [-> Hidle].
  eapply (spins_ok_same s _ c x); try done; [|unfold guards_of; cbn; by rewrite Hf]. exists idle, rest. cbn. split_and!; try done. by apply NoDup_nil.
Qed.

Lemma spin_reachable_ok flags s : spin_reachable flags s -> spins_ok s.
Proof.
  intros Hr. pose proof (spins_new_ok flags) as Hok. unfold spin_reachable in Hr. induction Hr as [|a b d Hab _ IH]; [done|]. apply IH.
  destruct Hab; [by eapply lock_enter_ok|by eapply lock_acquire_ok|by eapply try_lock_ok|by eapply inner_drop_ok|by eapply guard_cli_drop_ok|by eapply interrupt_ok|by eapply iret_ok].
Qed.

Lemma inner_drop_some s c x f rest l : cores s !! c = Some x -> frames x = f :: rest -> wanted f = None -> dropping f = false -> l ∈ guards f ->
  exists s' x' f', inner_drop c l s = Some s' /\ cores s' !! c = Some x' /\ frames x' = f' :: rest /\ dropping f' = true.
Proof.
  intros Hc Hf Hw Hd Hl. unfold inner_drop. rewrite Hc. cbn [mbind option_bind]. rewrite Hf. destruct f as [g w d]. cbn in *. subst w d.
  rewrite decide_True by done. eexists _, _, _. split; [done|]. cbn. split; [apply list_lookup_insert_eq; by apply lookup_lt_Some in Hc|done].
Qed.

Lemma guard_cli_drop_some s c x f rest : spins_ok s -> cores s !! c = Some x -> frames x = f :: rest -> dropping f = true -> exists s', guard_cli_drop c s = Some s'.
Proof.
  intros Hok Hc Hf Hd. destruct (core_cases s c x Hok Hc) as (f' & rest' & Hf' & _ & _ & [Hn Hlt] & He & Hw). rewrite Hf in Hf'. injection Hf' as <- <-.
  unfold guard_cli_drop. rewrite Hc. cbn [mbind option_bind]. rewrite Hf. destruct f as [g [w|] []]; try done; [by destruct (Hw w eq_refl)|]. unfold clis in *. cbn in *.
  unfold cli_drop, sub_checked. rewrite He by lia. rewrite checked_Some by (unfold unsigned; lia). cbn. eauto.
Qed.

(** [C19]. At any time of any interleaving with interrupts: a lock has at most one
    holder; a CPU that has a lock or waits for one has interrupts disabled; an activation that
    waits gets the lock, or another CPU has it, so that a handler never waits for the
    code it has interrupted; an interrupted activation has no lock; and the drop of a
    guard, which releases the lock and then allows interrupts, does not panic in either part. *)
Theorem spin_interrupt_safe (flags : list bool) (s : Spins) :
  spin_reachable flags s ->
  (forall c c' l, holds s c l -> holds s c' l -> c = c') /\
  forall c x f rest, cores s !! c = Some x -> frames x = f :: rest ->
    Forall (fun g => g = idle) rest /\ (f <> idle -> enabled (core_hart x) = false) /\
    (forall l, wanted f = Some l -> (exists s', lock_acquire c s = Some s') \/ exists c', c' <> c /\ holds s c' l) /\
    (forall l, wanted f = None -> dropping f = false -> l ∈ guards f -> exists s', guard_drop c l s = Some s') /\
    (dropping f = true -> exists s', guard_cli_drop c s = Some s').
Proof.
  intros Hr%spin_reachable_ok. split; [apply Hr|]. intros c x f rest Hc Hf.
  destruct (core_cases s c x Hr Hc) as (f' & rest' & Hf' & Hidle & Hnd & [Hn Hlt] & He & Hw). rewrite Hf in Hf'. injection Hf' as <- <-.
  assert (Hdis : f <> idle -> enabled (core_hart x) = false).
  { intros Hne. apply He. destruct f as [[|k g] [w|] []]; unfold clis; cbn; try lia. done. }
  split; [done|]. split; [done|]. split; [|split].
  - intros l Hl. destruct (locked (spins s l)) eqn:Hlk.
    + right. apply (sp_locked _ Hr) in Hlk as [c' Hh]. exists c'. split; [|done]. intros ->. destruct Hh as (y & Hy & Hin). unfold guards_of in Hin.
      assert (y = x) as -> by congruence. rewrite Hf in Hin. by destruct (Hw l).
    + left. destruct (acquire_free _ Hlk) as (m & Ha & _). unfold lock_acquire. rewrite Hc. cbn [mbind option_bind]. rewrite Hf.
      destruct f as [g w []]; cbn in Hl; subst w; [by destruct (Hw l)|]. rewrite Ha. cbn. eauto.
  - intros l Hl Hd Hin. destruct (inner_drop_some s c x f rest l Hc Hf Hl Hd Hin) as (s' & x' & f' & Hs' & Hc' & Hf' & Hd').
    unfold guard_drop. rewrite Hs'. cbn [mbind option_bind]. eapply guard_cli_drop_some; [by eapply inner_drop_ok|exact Hc'|exact Hf'|exact Hd'].
  - intros Hd. by eapply guard_cli_drop_some.
Qed.

End spin.

(** ** [Once] and [Lazy] *)

Section lazy.
Context {T Fn : Type} `{SpinOnce T} (call : Fn -> T).

(** An activation in [Lazy::force]: behind the test of [get] with the interrupt lock, in the initialiser,
    with the value and still with the interrupt lock, or with the result *)
Inductive Phase := Out | Entering | Initializing (f : Fn) | Leaving (v : T) | Returned (v : T).

(** [Lazy]: the cell of [Once] and the initialiser; [calls] counts the calls of initialisers. *)
Record Lazy := { cell : once; init : option Fn; calls : nat; lcores : list (Core Phase) }.

(** [Lazy::new], with CPUs that start with the given interrupt flags *)
Definition lazy_new (f : Fn) (flags : list bool) : Lazy :=
  {| cell := once_new; init := Some f; calls := 0;
     lcores := (fun b => {| core_hart := {| thread_state := cts_new; enabled := b |}; frames := [Out] |}) <$> flags |}.

Definition set_lcore (c : nat) (x : Core Phase) (s : Lazy) : Lazy :=
  {| cell := cell s; init := init s; calls := calls s; lcores := <[c := x]> (lcores s) |}.

(** [Once::call_once] up to [inner.call_once]; [None] is a panic or another phase. *)
Definition force_enter (c : nat) (s : Lazy) : option Lazy :=
  x ← lcores s !! c;
  match frames x with
  | Out :: rest =>
      match get_once (cell s) with
      | Some data => Some (set_lcore c {| core_hart := core_hart x; frames := Returned data :: rest |} s)
      | None =>
          h ← cli_new (core_hart x);
          Some (set_lcore c {| core_hart := h; frames := Entering :: rest |} s)
      end
  | _ => None
  end.

(** One turn of the loop of [inner.call_once]: the value is there; or this activation may run the initialiser, which it takes
    out of its cell, with a panic when it is gone; or another activation runs it ([Err]). *)
Definition force_turn (c : nat) (s : Lazy) : outcome unit Lazy :=
  match lcores s !! c with
  | Some x =>
      match frames x with
      | Entering :: rest =>
          match get_once (cell s) with
          | Some data => Ok (set_lcore c {| core_hart := core_hart x; frames := Leaving data :: rest |} s)
          | None =>
              match begin_once (cell s) with
              | None => Err tt
              | Some o =>
                  match init s with
                  | Some f => Ok {| cell := o; init := None; calls := S (calls s);
                                    lcores := <[c := {| core_hart := core_hart x; frames := Initializing f :: rest |}]> (lcores s) |}
                  | None => Panic
                  end
              end
          end
      | _ => Err tt
      end
  | None => Err tt
  end.

(** The initialiser returns, and the cell is complete. *)
Definition force_finish (c : nat) (s : Lazy) : option Lazy :=
  x ← lcores s !! c;
  match frames x with
  | Initializing f :: rest =>
      Some {| cell := finish_once (call f) (cell s); init := init s; calls := calls s;
              lcores := <[c := {| core_hart := core_hart x; frames := Leaving (call f) :: rest |}]> (lcores s) |}
  | _ => None
  end.

(** [drop(cli)] and the result *)
Definition force_leave (c : nat) (s : Lazy) : option Lazy :=
  x ← lcores s !! c;
  match frames x with
  | Leaving v :: rest =>
      h ← cli_drop (core_hart x);
      Some (set_lcore c {| core_hart := h; frames := Returned v :: rest |} s)
  | _ => None
  end.

Inductive lazy_step : Lazy -> Lazy -> Prop :=
| lazy_enter c s s' : force_enter c s = Some s' -> lazy_step s s'
| lazy_turn c s s' : force_turn c s = Ok s' -> lazy_step s s'
| lazy_finish c s s' : force_finish c s = Some s' -> lazy_step s s'
| lazy_leave c s s' : force_leave c s = Some s' -> lazy_step s s'
| lazy_again c x v rest s : lcores s !! c = Some x -> frames x = Returned v :: rest ->
    lazy_step s (set_lcore c {| core_hart := core_hart x; frames := Out :: rest |} s)
| lazy_interrupt c x x' s : lcores s !! c = Some x -> interrupt Out x = Some x' -> lazy_step s (set_lcore c x' s)
| lazy_iret c x x' p rest s : lcores s !! c = Some x -> frames x = p :: rest -> p = Out \/ (exists v, p = Returned v) -> iret x = Some x' ->
    lazy_step s (set_lcore c x' s).

Definition lazy_reachable (f : Fn) (flags : list bool) (s : Lazy) : Prop := rtc lazy_step (lazy_new f flags) s.

(** *** The invariant *)

Definition resting (p : Phase) : Prop := p = Out \/ exists v, p = Returned v.

(** The phase agrees with the cell, and with the interrupt lock of its CPU. *)
Definition phase_ok (s : Lazy) (p : Phase) : Prop :=
  match p with Leaving v | Returned v => get_once (cell s) = Some v | _ => True end.

Definition lcore_ok (s : Lazy) (x : Core Phase) : Prop :=
  exists p rest, frames x = p :: rest /\ Forall resting rest /\ Forall (phase_ok s) (p :: rest) /\
    (resting p -> ncli (thread_state (core_hart x)) = 0) /\
    (~ resting p -> ncli (thread_state (core_hart x)) = 1 /\ enabled (core_hart x) = false).

Definition initializing (s : Lazy) (c : nat) (f : Fn) : Prop :=
  exists x rest, lcores s !! c = Some x /\ frames x = Initializing f :: rest.

(** Before, during and after the initialisation *)
Definition stage_ok (f0 : Fn) (s : Lazy) : Prop :=
  match get_once (cell s), running_once (cell s) with
  | None, false => init s = Some f0 /\ calls s = 0%nat /\ forall c f, ~ initializing s c f
  | None, true => init s = None /\ calls s = 1%nat /\ exists c, initializing s c f0 /\ forall c' f, initializing s c' f -> c' = c /\ f = f0
  | Some v, r => v = call f0 /\ r = false /\ init s = None /\ calls s = 1%nat /\ forall c f, ~ initializing s c f
  end.

Definition lazy_ok (f0 : Fn) (s : Lazy) : Prop := stage_ok f0 s /\ forall c x, lcores s !! c = Some x -> lcore_ok s x.

Lemma lazy_new_ok f flags : lazy_ok f (lazy_new f flags).
Proof.
  assert (Hc : forall c x, lcores (lazy_new f flags) !! c = Some x -> exists b, x = {| core_hart := {| thread_state := cts_new; enabled := b |}; frames := [Out] |}).
  { intros c x Hx. apply list_lookup_fmap_Some in Hx as (b & -> & _). eauto. }
  split.
  - unfold stage_ok. cbn [cell lazy_new]. rewrite once_new_get, once_new_idle. split_and!; try done. intros c g (x & rest & Hx & Hf). destruct (Hc c x Hx) as [b ->]. done.
  - intros c x Hx. destruct (Hc c x Hx) as [b ->]. exists Out, []. split_and!; [done|by apply List.Forall_nil|by repeat constructor|done|]. intros Hn. destruct Hn. by left.
Qed.

(** A core moves to [x'] while the cell keeps its value if it has one. *)
Lemma lcore_ok_mono s s' x : (forall v, get_once (cell s) = Some v -> get_once (cell s') = Some v) -> lcore_ok s x -> lcore_ok s' x.
Proof.
  intros Hg (p & rest & Hf & Hr & Hp & H1 & H2). exists p, rest. split_and!; try done. apply (Forall_impl _ _ _ Hp).
  intros q. unfold phase_ok. destruct q; auto.
Qed.

Lemma lazy_cores s s' c x x' : lcores s !! c = Some x -> lcores s' = <[c := x']> (lcores s) ->
  (forall v, get_once (cell s) = Some v -> get_once (cell s') = Some v) ->
  (forall c x, lcores s !! c = Some x -> lcore_ok s x) -> lcore_ok s' x' -> forall c x, lcores s' !! c = Some x -> lcore_ok s' x.
Proof.
  intros Hc Hs Hg Hok Hx c' y Hy. rewrite Hs in Hy. apply list_lookup_insert_Some in Hy as [(-> & -> & _)|[_ Hy]]; [done|].
  eapply lcore_ok_mono; [done|by eapply Hok].
Qed.

Lemma initializing_at s s' c x x' f : lcores s !! c = Some x -> lcores s' = <[c := x']> (lcores s) ->
  forall c', initializing s' c' f <-> (c' <> c /\ initializing s c' f) \/ (c' = c /\ exists rest, frames x' = Initializing f :: rest).
Proof.
  intros Hc Hs c'. unfold initializing. rewrite Hs. destruct (decide (c' = c)) as [->|Hne].
  - rewrite list_lookup_insert_eq by (by apply lookup_lt_Some in Hc). split; [intros (y & rest & [= <-] & ?); eauto|]. intros [[? _]|[_ [rest ?]]]; [done|eauto].
  - rewrite list_lookup_insert_ne by done. split; [eauto|]. intros [[_ ?]|[? _]]; done.
Qed.

(** A step that leaves the cell alone and does not start or end an initialiser *)
Lemma lazy_ok_core f0 s c x x' : lazy_ok f0 s -> lcores s !! c = Some x ->
  (forall f rest, frames x = Initializing f :: rest -> False) -> (forall f rest, frames x' = Initializing f :: rest -> False) ->
  lcore_ok s x' -> lazy_ok f0 (set_lcore c x' s).
Proof.
  intros [Hst Hco] Hc Hn Hn' Hx. assert (Hi : forall c' f, initializing (set_lcore c x' s) c' f <-> initializing s c' f).
  { intros c' f. rewrite (initializing_at s (set_lcore c x' s) c x x' f Hc eq_refl). split; [intros [[_ ?]|[_ [rest ?]]]; [done|exfalso; eauto]|].
    intros Hh. destruct (decide (c' = c)) as [->|]; [|auto]. destruct Hh as (y & rest & Hy & Hf). exfalso. eapply Hn. rewrite Hc in Hy. injection Hy as <-. exact Hf. }
  split; [|eapply (lazy_cores s); done].
  unfold stage_ok in *. cbn [cell set_lcore] in *. destruct (get_once (cell s)).
  - destruct Hst as (? & ? & ? & ? & Hnone). split_and!; try done. intros c' f. rewrite Hi. apply Hnone.
  - destruct (running_once (cell s)); [|destruct Hst as (? & ? & Hnone); split_and!; try done; intros c' f; rewrite Hi; apply Hnone].
    destruct Hst as (? & ? & c0 & Hc0 & Hu). split_and!; try done. exists c0. split; [by apply Hi|]. intros c' f. rewrite Hi. apply Hu.
Qed.

Lemma force_enter_ok f0 s s' c : lazy_ok f0 s -> force_enter c s = Some s' -> lazy_ok f0 s'.
Proof.
  intros Hok Hs. unfold force_enter in Hs. apply bind_Some in Hs as (x & Hc & Hs). destruct (proj2 Hok c x Hc) as (p & rest & Hf & Hr & Hp & Hn0 & Hn1).
  rewrite Hf in Hs. destruct p; try done. apply Forall_cons in Hp as [_ Hp]. specialize (Hn0 ltac:(by left)). destruct (get_once (cell s)) as [v|] eqn:Hg.
  - injection Hs as <-. eapply lazy_ok_core; try done; [intros f r E; congruence|]. exists (Returned v), rest. split_and!; try done; [by constructor|].
    intros Hn. destruct Hn. right. eauto.
  - apply bind_Some in Hs as (h & Hh & [= <-]). destruct (cli_new_clis _ _ Hh) as (Hn' & He' & _).
    eapply lazy_ok_core; try done; [intros f r E; congruence|]. exists Entering, rest. split_and!; try done; [by constructor|by intros [?|[? ?]]|]. intros _. cbn. split; [lia|done].
Qed.

Lemma force_leave_ok f0 s s' c : lazy_ok f0 s -> force_leave c s = Some s' -> lazy_ok f0 s'.
Proof.
  intros Hok Hs. unfold force_leave in Hs. apply bind_Some in Hs as (x & Hc & Hs). destruct (proj2 Hok c x Hc) as (p & rest & Hf & Hr & Hp & Hn0 & Hn1).
  rewrite Hf in Hs. destruct p as [| | |v|]; try done. apply bind_Some in Hs as (h & Hh & [= <-]). destruct (cli_drop_clis _ _ Hh) as [Hn' _].
  destruct (Hn1 ltac:(by intros [?|[? ?]])) as [Hn _].
  eapply lazy_ok_core; try done; [intros f r E; congruence|]. exists (Returned v), rest. apply Forall_cons in Hp as [Hp0 Hp]. split_and!; [done|done|by constructor|intros _; cbn; lia|]. intros Hnr. destruct Hnr. right. eauto.
Qed.

Lemma again_ok f0 s c x v rest : lazy_ok f0 s -> lcores s !! c = Some x -> frames x = Returned v :: rest ->
  lazy_ok f0 (set_lcore c {| core_hart := core_hart x; frames := Out :: rest |} s).
Proof.
  intros Hok Hc Hf. destruct (proj2 Hok c x Hc) as (p & rest' & Hf' & Hr & Hp & Hn0 & Hn1). rewrite Hf in Hf'. injection Hf' as <- <-.
  apply Forall_cons in Hp as [_ Hp]. eapply lazy_ok_core; try done; [intros f r E; congruence|]. exists Out, rest. split_and!; try done; [by constructor| |].
  - intros _. apply Hn0. right. eauto.
  - intros Hn. destruct Hn. by left.
Qed.

Lemma lazy_interrupt_ok f0 s c x x' : lazy_ok f0 s -> lcores s !! c = Some x -> interrupt Out x = Some x' -> lazy_ok f0 (set_lcore c x' s).
Proof.
  intros Hok Hc Hi. destruct (proj2 Hok c x Hc) as (p & rest & Hf & Hr & Hp & Hn0 & Hn1). unfold interrupt in Hi.
  destruct (enabled (core_hart x)) eqn:He; [|done]. injection Hi as <-.
  assert (Hrest : resting p). { destruct p; try (by left); try (right; by eauto); destruct (Hn1 ltac:(by intros [?|[? ?]])); congruence. }
  eapply lazy_ok_core; try done; [intros f r E; rewrite Hf in E; injection E as -> _; by destruct Hrest as [?|[? ?]]|].
  exists Out, (frames x). rewrite Hf. split_and!; try done; [by constructor|by constructor|intros _; by apply Hn0|]. intros Hn. destruct Hn. by left.
Qed.

Lemma lazy_iret_ok f0 s c x x' p rest : lazy_ok f0 s -> lcores s !! c = Some x -> frames x = p :: rest -> resting p -> iret x = Some x' -> lazy_ok f0 (set_lcore c x' s).
Proof.
  intros Hok Hc Hf Hrp Hi. destruct (proj2 Hok c x Hc) as (p' & rest' & Hf' & Hr & Hp & Hn0 & Hn1). rewrite Hf in Hf'. injection Hf' as <- <-.
  unfold iret in Hi. rewrite Hf in Hi. destruct rest as [|q rest]; [done|]. injection Hi as <-. apply Forall_cons in Hr as [Hrq Hr]. apply Forall_cons in Hp as [_ Hp].
  eapply lazy_ok_core; try done.
  - intros f r E. rewrite Hf in E. injection E as -> _. by destruct Hrp as [?|[? ?]].
  - intros f r E. injection E as -> _. by destruct Hrq as [?|[? ?]].
  - exists q, rest. split_and!; try done. intros _. by apply Hn0.
Qed.

Lemma force_turn_ok f0 s s' c : lazy_ok f0 s -> force_turn c s = Ok s' -> lazy_ok f0 s'.
Proof.
  intros Hok Hs. unfold force_turn in Hs. destruct (lcores s !! c) as [x|] eqn:Hc; [|done]. destruct (proj2 Hok c x Hc) as (p & rest & Hf & Hr & Hp & Hn0 & Hn1).
  rewrite Hf in Hs. destruct p; try done. destruct (Hn1 ltac:(by intros [?|[? ?]])) as [Hn He]. apply Forall_cons in Hp as [_ Hp]. destruct (get_once (cell s)) as [v|] eqn:Hg.
  - injection Hs as <-. eapply lazy_ok_core; try done; [intros f r E; congruence|]. exists (Leaving v), rest. split_and!; try done; [by constructor|by intros [?|[? ?]]].
  - destruct (begin_once (cell s)) as [o|] eqn:Hb; [|done]. destruct (init s) as [f|] eqn:Hi; [|done]. injection Hs as <-.
    destruct (running_once (cell s)) eqn:Hrun; [rewrite begin_busy in Hb by auto; done|]. destruct (begin_idle _ Hg Hrun) as (o' & Hb' & Hro & Hgo).
    rewrite Hb in Hb'. injection Hb' as <-. destruct Hok as [Hst Hco]. unfold stage_ok in Hst. rewrite Hg, Hrun in Hst. destruct Hst as (Hf0 & Hcalls & Hnone).
    set (x' := {| core_hart := core_hart x; frames := Initializing f :: rest |}). set (s' := {| cell := o; init := None; calls := S (calls s); lcores := _ |}).
    assert (f = f0) as -> by congruence. pose proof (fun f => initializing_at s s' c x x' f Hc eq_refl) as Hat. split.
    + unfold stage_ok. cbn [cell s']. rewrite Hgo, Hro. cbn. split; [done|]. split; [lia|]. exists c. split; [apply Hat; eauto|].
      intros c' f Hin. apply Hat in Hin as [[_ Hin]|[-> [r E]]]; [by apply Hnone in Hin|]. by injection E as <- _.
    + eapply (lazy_cores s s' c x x'); try done; [intros v; by rewrite Hg|]. exists (Initializing f0), rest. split_and!; try done.
      * constructor; [done|]. apply (Forall_impl _ _ _ Hp). intros q. unfold phase_ok. destruct q; [done..| |]; rewrite Hg; done.
      * by intros [?|[? ?]].
Qed.

Lemma force_finish_ok f0 s s' c : lazy_ok f0 s -> force_finish c s = Some s' -> lazy_ok f0 s'.
Proof.
  intros [Hst Hco] Hs. unfold force_finish in Hs. apply bind_Some in Hs as (x & Hc & Hs). destruct (Hco c x Hc) as (p & rest & Hf & Hr & Hp & Hn0 & Hn1).
  rewrite Hf in Hs. destruct p as [| |f| |]; try done. injection Hs as <-. destruct (Hn1 ltac:(by intros [?|[? ?]])) as [Hn He]. apply Forall_cons in Hp as [_ Hp].
  assert (Hin : initializing s c f) by (by exists x, rest). unfold stage_ok in Hst. destruct (get_once (cell s)) as [v|] eqn:Hg; [destruct Hst as (_ & _ & _ & _ & Hnone); by apply Hnone in Hin|].
  destruct (running_once (cell s)) eqn:Hrun; [|destruct Hst as (_ & _ & Hnone); by apply Hnone in Hin]. destruct Hst as (Hi & Hcalls & c0 & Hc0 & Hu).
  destruct (Hu _ _ Hin) as [<- ->]. destruct (finish_get (call f0) (cell s)) as [Hg' Hr'].
  set (x' := {| core_hart := core_hart x; frames := Leaving (call f0) :: rest |}). set (s' := {| cell := finish_once _ _; init := init s; calls := calls s; lcores := _ |}).
  pose proof (fun f => initializing_at s s' c x x' f Hc eq_refl) as Hat. split.
  - unfold stage_ok. cbn [cell s']. rewrite Hg', Hr'. cbn. split_and!; try done. intros c' f Hi'. apply Hat in Hi' as [[Hne Hi']|[-> [r E]]]; [|done]. by destruct (Hu _ _ Hi').
  - eapply (lazy_cores s s' c x x'); try done; [intros v; by rewrite Hg|]. exists (Leaving (call f0)), rest. split_and!; try done.
    + constructor; [done|]. apply (Forall_impl _ _ _ Hp). intros q. unfold phase_ok. destruct q; [done..| |]; rewrite Hg; done.
    + by intros [?|[? ?]].
Qed.

Lemma lazy_reachable_ok f flags s : lazy_reachable f flags s -> lazy_ok f s.
Proof.
  intros Hr. pose proof (lazy_new_ok f flags) as Hok. unfold lazy_reachable in Hr. induction Hr as [|a b d Hab _ IH]; [done|]. apply IH.
  destruct Hab; [by eapply force_enter_ok|by eapply force_turn_ok|by eapply force_finish_ok|by eapply force_leave_ok|by eapply again_ok|
    by eapply lazy_interrupt_ok|by eapply lazy_iret_ok].
Qed.

(** [C20]. At any time of any interleaving with interrupts: the initialiser of a
    [Lazy] has been called at most once, every result is its value, the panic of a missing initialiser is
    never reached, and an activation that has to wait waits for an initialiser that runs
    on another CPU, with interrupts disabled there. *)
Theorem lazy_initialized_once (f : Fn) (flags : list bool) (s : Lazy) :
  lazy_reachable f flags s ->
  (calls s <= 1)%nat /\
  forall c x p rest, lcores s !! c = Some x -> frames x = p :: rest ->
    (forall v, p = Returned v -> v = call f) /\ force_turn c s <> Panic /\
    (p = Entering -> enabled (core_hart x) = false /\ (force_turn c s = Err tt -> exists c' y rest', c' <> c /\ lcores s !! c' = Some y /\
      frames y = Initializing f :: rest' /\ enabled (core_hart y) = false)).
Proof.
  intros Hr%lazy_reachable_ok. destruct Hr as [Hst Hco]. split; [unfold stage_ok in Hst; destruct (get_once (cell s)), (running_once (cell s)); lia || naive_solver lia|].
  intros c x p rest Hc Hf. destruct (Hco c x Hc) as (p' & rest' & Hf' & Hrest & Hp & Hn0 & Hn1). rewrite Hf in Hf'. injection Hf' as <- <-. apply Forall_cons in Hp as [Hp _].
  split; [|split].
  - intros v ->. cbn in Hp. unfold stage_ok in Hst. rewrite Hp in Hst. by destruct Hst.
  - unfold force_turn. rewrite Hc, Hf. destruct p; try done. destruct (get_once (cell s)) as [v|] eqn:Hg; [done|]. destruct (begin_once (cell s)) as [o|] eqn:Hb; [|done].
    unfold stage_ok in Hst. rewrite Hg in Hst. destruct (running_once (cell s)) eqn:Hrun; [by rewrite begin_busy in Hb by auto|]. destruct Hst as [-> _]. done.
  - intros ->. split; [by destruct (Hn1 ltac:(by intros [?|[? ?]]))|]. unfold force_turn. rewrite Hc, Hf. unfold stage_ok in Hst.
    destruct (get_once (cell s)) as [v|] eqn:Hg; [done|]. destruct (running_once (cell s)) eqn:Hrun.
    + destruct Hst as (_ & _ & c0 & (y & r & Hy & Hfy) & _). intros _. exists c0, y, r. split_and!; try done; [intros ->; congruence|].
      destruct (Hco c0 y Hy) as (q & rq & Hq & _ & _ & _ & Hq1). rewrite Hfy in Hq. injection Hq as <- _. by destruct (Hq1 ltac:(by intros [?|[? ?]])).
    + destruct (begin_idle _ Hg Hrun) as (o & -> & _). destruct Hst as [-> _]. done.
Qed.

End lazy.

(** ** Concrete instances *)

Module Demo.

(** The mutex as its flag, and the cell as incomplete, running, or complete *)
#[export] Instance flag_mutex : SpinMutex.
Proof.
  refine {| mutex := bool; mutex_new := false; locked := id; acquire m := if m then None else Some true; unlock _ := false |}; cbn; try done.
  - by intros [].
  - intros [] ?; [done|eauto].
Defined.

Inductive status := Incomplete | Running | Complete (v : Z).

#[export] Instance status_once : SpinOnce Z.
Proof.
  refine {| once := status; once_new := Incomplete; get_once o := match o with Complete v => Some v | _ => None end;
            running_once o := match o with Running => true | _ => false end;
            begin_once o := match o with Incomplete => Some Running | _ => None end; finish_once v _ := Complete v |}; try done.
  - intros []; try done. intros _ _. by exists Running.
  - intros []; cbn; try done. intros [?|[? ?]]; done.
Defined.

(** CPU 0 has lock 7 and CPU 1, which has taken an interrupt, waits for it. *)
Definition demo_spins : Spins := default (spins_new []) (
  let s0 := spins_new [true; true] in
  s1 ← lock_enter 0 7 s0; s2 ← lock_acquire 0 s1;
  x ← cores s2 !! 1%nat; y ← interrupt idle x;
  lock_enter 1 7 (set_core 1 y s2)).

Lemma demo_spins_reachable : spin_reachable [true; true] demo_spins.
Proof.
  unfold spin_reachable.
  eapply rtc_l; [eapply (spin_lock_enter 0 7); [reflexivity|reflexivity|apply not_elem_of_nil|reflexivity]|].
  eapply rtc_l; [eapply (spin_lock_acquire 0); reflexivity|].
  eapply rtc_l; [eapply (spin_interrupt 1); reflexivity|].
  eapply rtc_l; [eapply (spin_lock_enter 1 7); [reflexivity|reflexivity|apply not_elem_of_nil|reflexivity]|]. apply rtc_refl.
Defined.

Lemma spin_interrupt_safe_witness : holds demo_spins 0 7 /\ (forall c', holds demo_spins c' 7 -> c' = 0%nat) /\
  lock_acquire 1 demo_spins = None /\ (exists c', c' <> 1%nat /\ holds demo_spins c' 7) /\
  exists s', guard_drop 0 7 demo_spins = Some s' /\ exists s'', lock_acquire 1 s' = Some s''.
Proof.
  destruct (spin_interrupt_safe _ _ demo_spins_reachable) as [Hone Hall].
  assert (H0 : holds demo_spins 0 7) by (eexists; split; [reflexivity|by left]).
  split; [exact H0|]. split; [intros c' Hc; exact (Hone c' 0%nat 7 Hc H0)|]. split; [reflexivity|]. split.
  - destruct (Hall 1%nat _ _ _ eq_refl eq_refl) as (_ & _ & Hw & _). destruct (Hw 7 eq_refl) as [[s' Hs']|Hw']; [discriminate Hs'|exact Hw'].
  - destruct (Hall 0%nat _ _ _ eq_refl eq_refl) as (_ & _ & _ & Hd & _). destruct (Hd 7 eq_refl eq_refl) as [s' Hs']; [by left|]. exists s'. split; [exact Hs'|].
    injection Hs' as <-. eexists. reflexivity.
Defined.

(** CPU 0 runs the initialiser; a handler on CPU 1 waits for it. *)
Definition demo_lazy : Lazy (T := Z) (Fn := Z) := default (lazy_new 5 []) (
  s1 ← force_enter 0 (lazy_new 5 [true; true]);
  match force_turn 0 s1 with
  | Ok s2 => x ← lcores s2 !! 1%nat; y ← interrupt Out x; force_enter 1 (set_lcore 1 y s2)
  | _ => None
  end).

Lemma demo_lazy_reachable : lazy_reachable (Z.mul 2) 5 [true; true] demo_lazy.
Proof.
  unfold lazy_reachable.
  eapply rtc_l; [eapply (lazy_enter _ 0); reflexivity|]. eapply rtc_l; [eapply (lazy_turn _ 0); reflexivity|].
  eapply rtc_l; [eapply (lazy_interrupt _ 1); reflexivity|]. eapply rtc_l; [eapply (lazy_enter _ 1); reflexivity|]. apply rtc_refl.
Defined.

Lemma lazy_initialized_once_witness : calls demo_lazy = 1%nat /\ force_turn 1 demo_lazy = Err tt /\
  (exists c' y rest, c' <> 1%nat /\ lcores demo_lazy !! c' = Some y /\ frames y = Initializing 5 :: rest /\ enabled (core_hart y) = false) /\
  exists s', force_finish (Z.mul 2) 0 demo_lazy = Some s' /\ force_turn 1 s' <> Panic.
Proof.
  destruct (lazy_initialized_once _ _ _ _ demo_lazy_reachable) as [_ Hall]. split; [reflexivity|]. split; [reflexivity|]. split.
  - destruct (Hall 1%nat _ _ _ eq_refl eq_refl) as (_ & _ & Hw). destruct (Hw eq_refl) as [_ Hw']. exact (Hw' eq_refl).
  - eexists. split; [reflexivity|]. discriminate.
Defined.

End Demo.
