(* ===== verification/Hardware.v ===== *)
(** * Interfaces to the hardware and to small crates

    Port and memory-mapped I/O, the crate [bit_field] and the vectors of the crate
    [heapless] as classes: what drivers assume of them are the laws, and the
    instances at the end show that the laws can hold. *)

From S2P Require Import Prelude.
Local Open Scope Z_scope.
Local Open Scope rust_scope.

(** ** I/O

    [x64::Port] of a width in bits, and [read_volatile] and [write_volatile] of
    32-bit words. A read may change the state of the device. *)
Class PortIO (H : Type) := {
  port_read : Z -> Z -> H -> Z * H;
  port_write : Z -> Z -> Z -> H -> H
}.

Class Mmio (H : Type) := {
  mmio_read : Z -> H -> Z * H;
  mmio_write : Z -> Z -> H -> H
}.

Definition inp {H E} `{PortIO H} (w port : Z) : M H E Z := fun h => let '(x, h') := port_read w port h in (Ok x, h').
Definition outp {H E} `{PortIO H} (w port value : Z) : M H E unit := fun h => (Ok tt, port_write w port value h).
Definition read_volatile {H E} `{Mmio H} (ptr : Z) : M H E Z := fun h => let '(x, h') := mmio_read ptr h in (Ok x, h').
Definition write_volatile {H E} `{Mmio H} (ptr value : Z) : M H E unit := fun h => (Ok tt, mmio_write ptr value h).

(** Registers that behave as memory: the words that a device keeps. *)
Class MmioMemory (H : Type) `{Mmio H} := {
  word : H -> Z -> Z;
  word_u32 h p : u32 (word h p);
  mmio_read_word h p : exists h', mmio_read p h = (word h p, h') /\ forall q, word h' q = word h q;
  mmio_write_word h p v q : u32 v -> word (mmio_write p v h) q = if decide (p = q) then v else word h q
}.

(** ** Crates *)

(** [bit_field]: [set_bits lo hi x v] replaces the bits [lo..hi] of [v] by [x]; it
    panics when [x] does not fit. *)
Class BitField := {
  set_bits : Z -> Z -> Z -> Z -> option Z;
  set_bits_ok lo hi x v : 0 <= lo < hi -> 0 <= x < 2 ^ (hi - lo) -> 0 <= v -> exists v',
    set_bits lo hi x v = Some v' /\ 0 <= v' /\
    forall i, 0 <= i -> Z.testbit v' i = if (lo <=? i) && (i <? hi) then Z.testbit x (i - lo) else Z.testbit v i;
  set_bits_panic lo hi x v : 0 <= lo < hi -> 2 ^ (hi - lo) <= x -> set_bits lo hi x v = None
}.

(** [heapless::Vec] with room for [n] elements: [push] fails when it is full. *)
Class Heapless := {
  push {A} (n : nat) (l : list A) (a : A) : option (list A);
  push_ok {A} n (l : list A) a : (length l < n)%nat -> push n l a = Some (l ++ [a]);
  push_full {A} n (l : list A) a : (n <= length l)%nat -> push n l a = None
}.

(** ** Loops over ranges *)

(** [for x in l { acc = f(x, acc)? }] *)
Fixpoint mfor {S E A B} (f : A -> B -> M S E B) (l : list A) (acc : B) : M S E B :=
  match l with
  | [] => ret acc
  | x :: l => acc <- f x acc ;; mfor f l acc
  end.

(** ** Memory

    The memory as a function from addresses to bytes, with little-endian words. *)
Module Ram.

Definition load (m : Z -> Z) (a : Z) (n : nat) : list Z := (fun i => m (a + Z.of_nat i)) <$> seq 0 n.
Definition store (m : Z -> Z) (a : Z) (bs : list Z) : Z -> Z := fun b =>
  if (a <=? b) && (b <? a + zlen bs) then default 0 (bs !! Z.to_nat (b - a)) else m b.
Definition load64 (m : Z -> Z) (a : Z) : Z := from_le_bytes (load m a 8).
Definition store64 (m : Z -> Z) (a v : Z) : Z -> Z := store m a (to_le_bytes 8 v).

Lemma length_ram_load m a n : length (load m a n) = n.
Proof. unfold load. by rewrite length_fmap, length_seq. Qed.

Lemma lookup_load m a n i : (i < n)%nat -> load m a n !! i = Some (m (a + Z.of_nat i)).
Proof. intros Hi. unfold load. rewrite list_lookup_fmap, lookup_seq_lt by done. done. Qed.

Lemma ram_load_ext m m' a n : (forall b, a <= b < a + Z.of_nat n -> m' b = m b) -> load m' a n = load m a n.
Proof.
  intros Hb. apply list_eq_same_length with n; [apply length_ram_load..|]. intros i x y Hi. rewrite !lookup_load by done.
  intros [= <-] [= <-]. apply Hb. lia.
Qed.

Lemma load64_ext m m' a : (forall b, a <= b < a + 8 -> m' b = m b) -> load64 m' a = load64 m a.
Proof. intros Hb. unfold load64. f_equal. by apply ram_load_ext. Qed.

Lemma ram_store_other m a bs b : b < a \/ a + zlen bs <= b -> store m a bs b = m b.
Proof. intros Hb. unfold store. destruct (_ && _) eqn:E; [lia|done]. Qed.

Lemma ram_load_store m a bs : load (store m a bs) a (length bs) = bs.
Proof.
  apply list_eq_same_length with (length bs); [done|apply length_ram_load|]. intros i x y Hi. rewrite lookup_load by done.
  unfold store. rewrite (proj2 (andb_true_iff _ _)) by (split; lia). intros [= <-] Hy.
  replace (Z.to_nat _) with i by lia. by rewrite Hy.
Qed.

Lemma store64_other m a v b : b < a \/ a + 8 <= b -> store64 m a v b = m b.
Proof. apply (ram_store_other m a (to_le_bytes 8 v)). Qed.

Lemma load64_store64 m a v : u64 v -> load64 (store64 m a v) a = v.
Proof. intros Hv. unfold load64, store64. change 8%nat with (length (to_le_bytes 8 v)) at 1. rewrite ram_load_store. by apply from_to_le_bytes. Qed.

Lemma load64_store64_other m a v b : b + 8 <= a \/ a + 8 <= b -> load64 (store64 m a v) b = load64 m b.
Proof. intros Hb. apply load64_ext. intros i Hi. apply store64_other. lia. Qed.

Lemma load_bytes m a n : (forall b, u8 (m b)) -> bytes_ok (load m a n).
Proof. intros Hm. unfold load. apply Forall_fmap, Forall_true. intros i. apply Hm. Qed.

Lemma load64_u64 m a : (forall b, u8 (m b)) -> u64 (load64 m a).
Proof.
  intros Hm. pose proof (from_le_bytes_bound (load m a 8) (load_bytes m a 8 Hm)) as Hb. rewrite length_ram_load in Hb. exact Hb.
Qed.

Lemma store_bytes m a bs : (forall b, u8 (m b)) -> bytes_ok bs -> forall b, u8 (store m a bs b).
Proof.
  intros Hm Hbs b. unfold store. destruct (_ && _) eqn:E; [|done]. apply andb_true_iff in E as [E1 E2].
  destruct (lookup_lt_is_Some_2 bs (Z.to_nat (b - a))) as [v Hv]; [lia|]. rewrite Hv. exact (proj1 (Forall_lookup _ _) Hbs _ _ Hv).
Qed.

Lemma store64_bytes m a v : (forall b, u8 (m b)) -> forall b, u8 (store64 m a v b).
Proof. intros Hm. apply store_bytes; [done|apply to_le_bytes_ok]. Qed.

End Ram.

(** ** Lemmas: bits *)

Lemma bits_above x k i : 0 <= x < 2 ^ k -> 0 <= k <= i -> Z.testbit x i = false.
Proof.
  intros Hx Hk. destruct (decide (x = 0)) as [->|]; [apply Z.bits_0|].
  apply Z.bits_above_log2; [lia|]. assert (Z.log2 x < k) by (apply Z.log2_lt_pow2; lia). lia.
Qed.

Lemma add_shiftl_testbit v x lo i : 0 <= lo -> 0 <= v < 2 ^ lo -> 0 <= i ->
  Z.testbit (v + x * 2 ^ lo) i = if i <? lo then Z.testbit v i else Z.testbit x (i - lo).
Proof.
  intros Hl Hv Hi. destruct (Z.ltb_spec i lo).
  - rewrite <- (Z.mod_pow2_bits_low _ lo) by done. rewrite Z.mod_add by lia. by rewrite Z.mod_small.
  - replace i with ((i - lo) + lo) at 1 by lia. rewrite <- Z.div_pow2_bits by lia.
    rewrite Z.div_add by lia. by rewrite Z.div_small.
Qed.

Lemma lor_low_high lo hi k : 0 <= k -> 0 <= lo < 2 ^ k -> 0 <= hi -> Z.lor lo (Z.shiftl hi k) = lo + hi * 2 ^ k.
Proof.
  intros Hk Hlo Hhi. apply Z.bits_inj'. intros i Hi. rewrite Z.lor_spec, Z.shiftl_spec, add_shiftl_testbit by lia.
  destruct (Z.ltb_spec i k); [rewrite (Z.testbit_neg_r _ (i - k)) by lia; apply orb_false_r|].
  rewrite (bits_above lo k) by lia. done.
Qed.

Lemma lor_unsigned w a b : 0 < w -> unsigned w a -> unsigned w b -> unsigned w (Z.lor a b).
Proof.
  unfold unsigned. intros Hw Ha Hb. split; [apply Z.lor_nonneg; lia|]. destruct (Z.eqb_spec (Z.lor a b) 0) as [->|]; [lia|].
  apply Z.log2_lt_pow2; [pose proof (proj2 (Z.lor_nonneg a b)); lia|]. rewrite Z.log2_lor by lia.
  assert (forall x, 0 <= x < 2 ^ w -> Z.log2 x < w).
  { intros x Hx. destruct (decide (x = 0)) as [->|]; [done|]. apply Z.log2_lt_pow2; lia. }
  apply Z.max_lub_lt; auto.
Qed.

Lemma land_high w k x : 0 <= k <= w -> 0 <= x < 2 ^ w -> Z.land x (2 ^ w - 2 ^ k) = x / 2 ^ k * 2 ^ k.
Proof.
  intros Hk Hx. rewrite <- Z.shiftl_mul_pow2, <- Z.shiftr_div_pow2 by lia.
  replace (2 ^ w - 2 ^ k) with (Z.shiftl (Z.ones (w - k)) k).
  2: { rewrite Z.shiftl_mul_pow2, Z.ones_equiv by lia. replace w with ((w - k) + k) at 2 by lia. rewrite Z.pow_add_r by lia. lia. }
  apply Z.bits_inj'. intros i Hi. rewrite Z.land_spec, !Z.shiftl_spec by lia.
  destruct (Z.ltb_spec i k); [rewrite !(Z.testbit_neg_r _ (i - k)) by lia; apply andb_false_r|].
  rewrite Z.shiftr_spec by lia. replace (i - k + k) with i by lia. rewrite Z.testbit_ones_nonneg by lia.
  destruct (Z.ltb_spec (i - k) (w - k)); [apply andb_true_r|]. rewrite andb_false_r. symmetry. apply (bits_above x w); lia.
Qed.

Lemma land_bit x k : 0 <= k -> (Z.land x (2 ^ k) =? 0) = negb (Z.testbit x k).
Proof.
  intros Hk. destruct (Z.testbit x k) eqn:Hb; simpl.
  - apply Z.eqb_neq. intros Hz. pose proof (f_equal (fun z => Z.testbit z k) Hz) as Hc. cbn beta in Hc.
    rewrite Z.land_spec, Z.pow2_bits_true, Hb, Z.bits_0 in Hc by lia. done.
  - apply Z.eqb_eq. apply Z.bits_inj'. intros i Hi. rewrite Z.land_spec, Z.bits_0, Z.pow2_bits_eqb by lia.
    destruct (Z.eqb_spec k i) as [<-|]; [by rewrite Hb|apply andb_false_r].
Qed.

Lemma testbit_low a b k m : 0 <= k < m -> (2 ^ m | a) -> Z.testbit (a + b) k = Z.testbit b k.
Proof.
  intros Hk [c ->]. rewrite <- (Z.mod_pow2_bits_low (_ + b) m k), <- (Z.mod_pow2_bits_low b m k) by lia.
  f_equal. rewrite Z.add_comm. apply Z.mod_add. lia.
Qed.

(** The address in a register with the low bits [b]. *)
Lemma high_part w k a b : 0 <= k <= w -> 0 <= a < 2 ^ w -> (2 ^ k | a) -> 0 <= b < 2 ^ k -> Z.land (a + b) (2 ^ w - 2 ^ k) = a.
Proof.
  intros Hk Ha [c ->] Hb. assert (Hw : 2 ^ w = 2 ^ (w - k) * 2 ^ k) by (rewrite <- Z.pow_add_r by lia; f_equal; lia).
  assert (c < 2 ^ (w - k)) by nia. rewrite land_high by nia. rewrite (Z.add_comm _ b), Z.div_add, (Z.div_small b) by lia. lia.
Qed.

(** ** Instances *)

#[export] Instance bit_field_model : BitField.
Proof.
  refine {| set_bits := fun lo hi x v =>
    if x <? 2 ^ (hi - lo) then Some (Z.lor (Z.shiftl x lo) (Z.ldiff v (Z.shiftl (Z.ones (hi - lo)) lo))) else None |}.
  - intros lo hi x v Hl Hx Hv. eexists. split; [by rewrite (proj2 (Z.ltb_lt _ _)) by lia|]. split.
    + apply Z.lor_nonneg. split; [apply Z.shiftl_nonneg; lia|]. apply Z.ldiff_nonneg. lia.
    + intros i Hi. rewrite Z.lor_spec, Z.ldiff_spec, !Z.shiftl_spec by lia.
      destruct (Z.leb_spec lo i); simpl.
      * rewrite Z.testbit_ones_nonneg by lia. destruct (Z.ltb_spec (i - lo) (hi - lo)), (Z.ltb_spec i hi); try lia; simpl.
        -- by rewrite andb_false_r, orb_false_r.
        -- by rewrite (bits_above x (hi - lo)), andb_true_r by lia.
      * rewrite !(Z.testbit_neg_r _ (i - lo)) by lia. by rewrite andb_true_r.
  - intros lo hi x v Hl Hx. simpl. by rewrite (proj2 (Z.ltb_ge _ _)).
Defined.

#[export] Instance heapless_model : Heapless.
Proof.
  refine {| push := fun A n l a => if (length l <? n)%nat then Some (l ++ [a]) else None |}.
  - intros A n l a Hl. by rewrite (proj2 (Nat.ltb_lt _ _)).
  - intros A n l a Hl. by rewrite (proj2 (Nat.ltb_ge _ _)).
Defined.
