(* ===== verification/ContextSwitch.v ===== *)
(** * Contexts and their switch in assembly (src/ors-kernel/asm.s, src/ors-kernel/src/context.rs)

    [switch_context] as a list of instructions of the processor, with a semantics of
    the instructions it uses; the contexts it saves and restores as the records
    of the Rust code, with their layout in memory; and the first context of a task
    ([Context::new], [Task::new]). *)

From S2P Require Import Prelude Hardware Cpu Task.
Import Ram.
Local Open Scope Z_scope.

(** ** The machine *)

Inductive reg := RAX | RBX | RCX | RDX | RDI | RSI | RSP | RBP | R8 | R9 | R10 | R11 | R12 | R13 | R14 | R15.
Inductive seg := CS | SS | FS | GS.

#[global] Instance reg_eq_dec : EqDecision reg.
Proof. solve_decision. Defined.

(** The numbers of the registers in the encoding of instructions *)
Definition reg_code (r : reg) : nat :=
  match r with
  | RAX => 0 | RCX => 1 | RDX => 2 | RBX => 3 | RSP => 4 | RBP => 5 | RSI => 6 | RDI => 7
  | R8 => 8 | R9 => 9 | R10 => 10 | R11 => 11 | R12 => 12 | R13 => 13 | R14 => 14 | R15 => 15
  end.
Definition seg_code (s : seg) : nat := match s with CS => 1 | SS => 2 | FS => 4 | GS => 5 end.

(** The state of the x87 and SSE units, the image [fxsave] makes of it in an area with
    the given contents, and the image [fxrstor] accepts; and the selectors that the
    descriptor tables allow to load. The null selector can be loaded into FS and GS,
    and the initial [MXCSR] is accepted in an image that is zero otherwise. *)
Class Processor := {
  FX : Type;
  fxsave : FX -> list Z -> list Z;
  fxrstor : list Z -> option FX;
  selector_ok : seg -> Z -> bool;
  fxsave_length x l : length (fxsave x l) = length l;
  fxsave_bytes x l : bytes_ok l -> bytes_ok (fxsave x l);
  fxrstor_fxsave x l : length l = 512%nat -> fxrstor (fxsave x l) = Some x;
  selector_null : selector_ok FS 0 = true /\ selector_ok GS 0 = true;
  fxrstor_initial : is_Some (fxrstor (upd (replicate 512 0) 24 (to_le_bytes 4 0x1f80)))
}.

Section machine.
Context `{Processor}.

(** The memory is the address space of the tables in [cr3]. *)
Record Machine := {
  regs : reg -> Z;
  segs : seg -> Z;
  m_rip : Z;
  m_rflags : Z;
  m_cr3 : Z;
  fx : FX;
  mem : Z -> Z
}.

Definition set_reg (r : reg) (v : Z) (x : Machine) : Machine :=
  {| regs := fun r' => if (reg_code r =? reg_code r')%nat then v else regs x r'; segs := segs x; m_rip := m_rip x; m_rflags := m_rflags x;
     m_cr3 := m_cr3 x; fx := fx x; mem := mem x |}.
Definition set_seg (s : seg) (v : Z) (x : Machine) : Machine :=
  {| regs := regs x; segs := fun s' => if (seg_code s =? seg_code s')%nat then v else segs x s'; m_rip := m_rip x; m_rflags := m_rflags x;
     m_cr3 := m_cr3 x; fx := fx x; mem := mem x |}.
Definition set_mem (f : Z -> Z) (x : Machine) : Machine :=
  {| regs := regs x; segs := segs x; m_rip := m_rip x; m_rflags := m_rflags x; m_cr3 := m_cr3 x; fx := fx x; mem := f |}.
Definition set_fx (f : FX) (x : Machine) : Machine :=
  {| regs := regs x; segs := segs x; m_rip := m_rip x; m_rflags := m_rflags x; m_cr3 := m_cr3 x; fx := f; mem := mem x |}.

(** Writing the low 16 or 8 bits of a register keeps the others. *)
Definition low16 (v : Z) : Z := v mod 2 ^ 16.
Definition put16 (old v : Z) : Z := old / 2 ^ 16 * 2 ^ 16 + v.
Definition put8 (old v : Z) : Z := old / 2 ^ 8 * 2 ^ 8 + v.

(** [pushfq] stores the flags without RF and VM; [iret] loads the flags and leaves the
    reserved bits as they have to be. *)
Definition pushfq_image (f : Z) : Z := Z.land f (2 ^ 64 - 1 - 0x30000).
Definition iret_flags (f : Z) : Z := Z.lor (Z.land f 0x3d7fd5) 2.

(** The operand [base + offset]. *)
Record address := at_offset { base : reg; offset : Z }.

Inductive instr :=
| MovMR (d : address) (r : reg)      (* mov [d], r *)
| MovRM (r : reg) (d : address)      (* mov r, [d] *)
| Lea (r : reg) (d : address)
| MovFromCr3 (r : reg)
| MovToCr3 (r : reg)
| MovFromSeg (r : reg) (s : seg)     (* mov r16, s *)
| MovToSeg (s : seg) (r : reg)       (* mov s, r16 *)
| MovImm8 (r : reg) (v : Z)          (* mov r8, v *)
| Xchg8 (d : address) (r : reg)      (* xchg [d], r8 *)
| Pushfq
| PopM (d : address)
| PushM (d : address)
| Fxsave (d : address)
| Fxrstor (d : address)
| Iret.

Definition ea (x : Machine) (d : address) : Z := wrap 64 (regs x (base d) + offset d).

Definition push (v : Z) (x : Machine) : Machine :=
  let sp := wrap 64 (regs x RSP - 8) in
  set_reg RSP sp (set_mem (store64 (mem x) sp v) x).

Definition pop (x : Machine) : Z * Machine :=
  let sp := regs x RSP in
  (load64 (mem x) sp, set_reg RSP (wrap 64 (sp + 8)) x).

(** One instruction; [None] is an exception of the processor. A load of another [cr3]
    would leave the address space. *)
Definition exec1 (i : instr) (x : Machine) : option Machine :=
  match i with
  | MovMR d r => Some (set_mem (store64 (mem x) (ea x d) (regs x r)) x)
  | MovRM r d => Some (set_reg r (load64 (mem x) (ea x d)) x)
  | Lea r d => Some (set_reg r (ea x d) x)
  | MovFromCr3 r => Some (set_reg r (m_cr3 x) x)
  | MovToCr3 r => if regs x r =? m_cr3 x then Some x else None
  | MovFromSeg r s => Some (set_reg r (put16 (regs x r) (segs x s)) x)
  | MovToSeg s r => let v := low16 (regs x r) in if selector_ok s v then Some (set_seg s v x) else None
  | MovImm8 r v => Some (set_reg r (put8 (regs x r) v) x)
  | Xchg8 d r =>
      let a := ea x d in
      Some (set_reg r (put8 (regs x r) (mem x a)) (set_mem (store (mem x) a [regs x r mod 2 ^ 8]) x))
  | Pushfq => Some (push (pushfq_image (m_rflags x)) x)
  | PopM d => let '(v, x) := pop x in Some (set_mem (store64 (mem x) (ea x d) v) x)
  | PushM d => Some (push (load64 (mem x) (ea x d)) x)
  | Fxsave d =>
      let a := ea x d in
      if a mod 16 =? 0 then Some (set_mem (store (mem x) a (fxsave (fx x) (load (mem x) a 512))) x) else None
  | Fxrstor d =>
      let a := ea x d in
      if a mod 16 =? 0 then f ← fxrstor (load (mem x) a 512); Some (set_fx f x) else None
  | Iret =>
      let '(ip, x) := pop x in
      let '(cs, x) := pop x in
      let '(flags, x) := pop x in
      let '(sp, x) := pop x in
      let '(ss, x) := pop x in
      if selector_ok CS (low16 cs) && selector_ok SS (low16 ss) then
        let x := set_reg RSP sp (set_seg SS (low16 ss) (set_seg CS (low16 cs) x)) in
        Some {| regs := regs x; segs := segs x; m_rip := ip; m_rflags := iret_flags flags; m_cr3 := m_cr3 x; fx := fx x; mem := mem x |}
      else None
  end.

Fixpoint exec (code : list instr) (x : Machine) : option Machine :=
  match code with
  | [] => Some x
  | i :: code => x ← exec1 i x; exec code x
  end.

(** ** Contexts *)

(** [Context], with its layout in memory: 24 words, the area for [fxsave] and the mark. *)
Record Context := {
  cr3 : Z; rip : Z; rflags : Z; _reserved1 : Z; cs : Z; ss : Z; fs : Z; gs : Z;
  rax : Z; rbx : Z; rcx : Z; rdx : Z; rdi : Z; rsi : Z; rsp : Z; rbp : Z;
  r8 : Z; r9 : Z; r10 : Z; r11 : Z; r12 : Z; r13 : Z; r14 : Z; r15 : Z;
  fxsave_area : list Z;
  saved : bool;
  cts : CpuThreadState
}.

Definition words (c : Context) : list Z :=
  [cr3 c; rip c; rflags c; _reserved1 c; cs c; ss c; fs c; gs c; rax c; rbx c; rcx c; rdx c; rdi c; rsi c; rsp c; rbp c;
   r8 c; r9 c; r10 c; r11 c; r12 c; r13 c; r14 c; r15 c].

(** The context [c] is in memory at [p]. *)
Definition context_at (m : Z -> Z) (p : Z) (c : Context) : Prop :=
  (forall i w, words c !! i = Some w -> load64 m (p + 8 * Z.of_nat i) = w) /\
  load m (p + 0xc0) 512 = fxsave_area c /\ m (p + 0x2c0) = Z.b2z (saved c).

(** ** [switch_context] *)

Definition save_words : list instr :=
  [MovMR (at_offset RSI 0x40) RAX; MovMR (at_offset RSI 0x48) RBX; MovMR (at_offset RSI 0x50) RCX; MovMR (at_offset RSI 0x58) RDX;
   MovMR (at_offset RSI 0x60) RDI; MovMR (at_offset RSI 0x68) RSI;
   Lea RAX (at_offset RSP 8); MovMR (at_offset RSI 0x70) RAX; MovMR (at_offset RSI 0x78) RBP;
   MovMR (at_offset RSI 0x80) R8; MovMR (at_offset RSI 0x88) R9; MovMR (at_offset RSI 0x90) R10; MovMR (at_offset RSI 0x98) R11;
   MovMR (at_offset RSI 0xa0) R12; MovMR (at_offset RSI 0xa8) R13; MovMR (at_offset RSI 0xb0) R14; MovMR (at_offset RSI 0xb8) R15;
   MovFromCr3 RAX; MovMR (at_offset RSI 0x00) RAX].

(** The return address, and the flags by way of the stack *)
Definition save_rip : list instr :=
  [MovRM RAX (at_offset RSP 0); MovMR (at_offset RSI 0x08) RAX; Pushfq; PopM (at_offset RSI 0x10)].

Definition save_segs : list instr :=
  [MovFromSeg RAX CS; MovMR (at_offset RSI 0x20) RAX;
   MovFromSeg RBX SS; MovMR (at_offset RSI 0x28) RBX;
   MovFromSeg RCX FS; MovMR (at_offset RSI 0x30) RCX;
   MovFromSeg RDX GS; MovMR (at_offset RSI 0x38) RDX].

Definition save_fx : list instr := [Fxsave (at_offset RSI 0xc0)].

(** Mark as saved *)
Definition switch_mark : list instr := [MovImm8 RAX 1; Xchg8 (at_offset RSI 0x2c0) RAX].

(** The stack frame for [iret] *)
Definition switch_frame : list instr :=
  [PushM (at_offset RDI 0x28); PushM (at_offset RDI 0x70); PushM (at_offset RDI 0x10); PushM (at_offset RDI 0x20);
   PushM (at_offset RDI 0x08)].

Definition switch_restore : list instr :=
  [Fxrstor (at_offset RDI 0xc0);
   MovRM RAX (at_offset RDI 0x00); MovToCr3 RAX;
   MovRM RAX (at_offset RDI 0x30); MovToSeg FS RAX;
   MovRM RAX (at_offset RDI 0x38); MovToSeg GS RAX;
   MovRM RAX (at_offset RDI 0x40); MovRM RBX (at_offset RDI 0x48); MovRM RCX (at_offset RDI 0x50); MovRM RDX (at_offset RDI 0x58);
   MovRM RSI (at_offset RDI 0x68); MovRM RBP (at_offset RDI 0x78);
   MovRM R8 (at_offset RDI 0x80); MovRM R9 (at_offset RDI 0x88); MovRM R10 (at_offset RDI 0x90); MovRM R11 (at_offset RDI 0x98);
   MovRM R12 (at_offset RDI 0xa0); MovRM R13 (at_offset RDI 0xa8); MovRM R14 (at_offset RDI 0xb0); MovRM R15 (at_offset RDI 0xb8);
   MovRM RDI (at_offset RDI 0x60);
   Iret].

(** [switch_context] up to the mark, and from there *)
Definition switch_save : list instr := save_words ++ save_rip ++ save_segs ++ save_fx ++ switch_mark.
Definition switch_load : list instr := switch_frame ++ switch_restore.
Definition switch_context : list instr := switch_save ++ switch_load.

(** ** New contexts *)

(** [EntryPoint] *)
Class EntryPoint (E Arg : Type) := prepare_context : E -> Context -> Arg -> Context.

(** [Context::uninitialized] *)
Definition uninitialized : Context :=
  {| cr3 := 0; rip := 0; rflags := 0; _reserved1 := 0; cs := 0; ss := 0; fs := 0; gs := 0;
     rax := 0; rbx := 0; rcx := 0; rdx := 0; rdi := 0; rsi := 0; rsp := 0; rbp := 0;
     r8 := 0; r9 := 0; r10 := 0; r11 := 0; r12 := 0; r13 := 0; r14 := 0; r15 := 0;
     fxsave_area := replicate 512 0; saved := false; cts := cts_new |}.

Definition INTERRUPT_FLAG : Z := 0x200.

Definition set_saved (b : bool) (c : Context) : Context :=
  {| cr3 := cr3 c; rip := rip c; rflags := rflags c; _reserved1 := _reserved1 c; cs := cs c; ss := ss c; fs := fs c; gs := gs c;
     rax := rax c; rbx := rbx c; rcx := rcx c; rdx := rdx c; rdi := rdi c; rsi := rsi c; rsp := rsp c; rbp := rbp c;
     r8 := r8 c; r9 := r9 c; r10 := r10 c; r11 := r11 c; r12 := r12 c; r13 := r13 c; r14 := r14 c; r15 := r15 c;
     fxsave_area := fxsave_area c; saved := b; cts := cts c |}.

(** [Context::new], on a machine with the tables [cr3]; [kernel_cs] and [kernel_ss] are the
    cells that [segmentation::initialize] sets. *)
Definition context_new {E Arg} `{EntryPoint E Arg} (get_cr3 : Z) (kernel_cs kernel_ss : option Z)
    (stack_end : Z) (entry_point : E) (args : Arg) : option Context :=
  kcs ← kernel_cs;
  kss ← kernel_ss;
  sp ← sub_checked 64 (Z.land stack_end (2 ^ 64 - 16)) 8;
  let u := uninitialized in
  let ctx :=
    {| cr3 := get_cr3; rip := rip u; rflags := Z.lor INTERRUPT_FLAG 2; _reserved1 := _reserved1 u;
       cs := kcs; ss := kss; fs := fs u; gs := gs u;
       rax := rax u; rbx := rbx u; rcx := rcx u; rdx := rdx u; rdi := rdi u; rsi := rsi u; rsp := sp; rbp := rbp u;
       r8 := r8 u; r9 := r9 u; r10 := r10 u; r11 := r11 u; r12 := r12 u; r13 := r13 u; r14 := r14 u; r15 := r15 u;
       fxsave_area := upd (fxsave_area u) 24 (to_le_bytes 4 0x1f80); saved := saved u; cts := cts u |} in
  Some (set_saved true (prepare_context entry_point ctx args)).

(** [TaskEntryPoint]: the address of the function; [task_init] is the address of the routine
    of the same name, which calls the function in its first argument with the third one. *)
Record TaskEntryPoint := { task_init : Z; task_function : Z }.

#[export] Instance task_entry_point : EntryPoint TaskEntryPoint (Z * Z) := fun e c arg =>
  {| cr3 := cr3 c; rip := task_init e; rflags := rflags c; _reserved1 := _reserved1 c; cs := cs c; ss := ss c; fs := fs c; gs := gs c;
     rax := rax c; rbx := rbx c; rcx := rcx c; rdx := arg.2; rdi := task_function e; rsi := arg.1; rsp := rsp c; rbp := rbp c;
     r8 := r8 c; r9 := r9 c; r10 := r10 c; r11 := r11 c; r12 := r12 c; r13 := r13 c; r14 := r14 c; r15 := r15 c;
     fxsave_area := fxsave_area c; saved := saved c; cts := cts c |}.

Definition DEFAULT_STACK_SIZE : Z := 4096 * 256.

(** [TaskData]; the stack is the address of its first byte, and its length. *)
Record TaskData := { td_id : Z; td_priority : Priority; td_stack : Z * Z; td_ctx : Context }.

(** [Task::new], with the stack at the address the allocator has returned *)
Definition task_new (get_cr3 : Z) (kernel_cs kernel_ss : option Z) (stack : Z)
    (id : Z) (priority : Priority) (entry_point : TaskEntryPoint) (entry_arg : Z) : option TaskData :=
  let stack_end := stack + DEFAULT_STACK_SIZE in
  ctx ← context_new get_cr3 kernel_cs kernel_ss stack_end entry_point (id, entry_arg);
  Some {| td_id := id; td_priority := priority; td_stack := (stack, DEFAULT_STACK_SIZE); td_ctx := ctx |}.

(** [Task::new_current]: an empty boxed slice has no address of its own. *)
Definition task_new_current (id : Z) (priority : Priority) : TaskData :=
  {| td_id := id; td_priority := priority; td_stack := (1, 0); td_ctx := uninitialized |}.

(** What a call of [switch_context] leaves in the context of the caller, in which [c]
    was before. The high parts of the words of the segments are what the registers
    held. *)
Definition save_context (x : Machine) (c : Context) : Context :=
  let ret := load64 (mem x) (regs x RSP) in
  {| cr3 := m_cr3 x; rip := ret; rflags := pushfq_image (m_rflags x); _reserved1 := _reserved1 c;
     cs := put16 ret (segs x CS); ss := put16 (regs x RBX) (segs x SS); fs := put16 (regs x RCX) (segs x FS);
     gs := put16 (regs x RDX) (segs x GS);
     rax := regs x RAX; rbx := regs x RBX; rcx := regs x RCX; rdx := regs x RDX; rdi := regs x RDI; rsi := regs x RSI;
     rsp := wrap 64 (regs x RSP + 8); rbp := regs x RBP; r8 := regs x R8; r9 := regs x R9; r10 := regs x R10; r11 := regs x R11;
     r12 := regs x R12; r13 := regs x R13; r14 := regs x R14; r15 := regs x R15;
     fxsave_area := fxsave (fx x) (fxsave_area c); saved := true; cts := cts c |}.

(** The register [r] in a context. *)
Definition context_reg (c : Context) (r : reg) : Z :=
  match r with
  | RAX => rax c | RBX => rbx c | RCX => rcx c | RDX => rdx c | RDI => rdi c | RSI => rsi c | RSP => rsp c | RBP => rbp c
  | R8 => r8 c | R9 => r9 c | R10 => r10 c | R11 => r11 c | R12 => r12 c | R13 => r13 c | R14 => r14 c | R15 => r15 c
  end.

Definition context_seg (c : Context) (s : seg) : Z :=
  low16 match s with CS => cs c | SS => ss c | FS => fs c | GS => gs c end.

(** The machine runs in the context [c]. *)
Record resumed (x : Machine) (c : Context) : Prop := {
  res_regs r : regs x r = context_reg c r;
  res_segs s : segs x s = context_seg c s;
  res_rip : m_rip x = rip c;
  res_rflags : m_rflags x = iret_flags (rflags c);
  res_cr3 : m_cr3 x = cr3 c;
  res_fx : fxrstor (fxsave_area c) = Some (fx x)
}.

(** A context that [switch_context] can resume in the address space of [x]. *)
Definition resumable (x : Machine) (c : Context) : Prop :=
  cr3 c = m_cr3 x /\ (forall s, selector_ok s (context_seg c s) = true) /\ is_Some (fxrstor (fxsave_area c)).

Lemma exec_app code1 code2 x : exec (code1 ++ code2) x = exec code1 x ≫= exec code2.
Proof. revert x. induction code1 as [|i code1 IH]; intros x; [done|]. simpl. destruct (exec1 i x); simpl; [apply IH|done]. Qed.

(** ** The first half of [switch_context] *)

(** The machine keeps its registers and its memory to their widths. *)
Record machine_ok (x : Machine) : Prop := {
  mok_regs r : u64 (regs x r);
  mok_segs s : u16 (segs x s);
  mok_rflags : u64 (m_rflags x);
  mok_cr3 : u64 (m_cr3 x);
  mok_mem a : u8 (mem x a)
}.

(** The context at [p] is a whole one, and apart from the words around the stack pointer
    [sp] that [switch_context] uses. *)
Definition context_place (p sp : Z) : Prop :=
  0 <= p /\ p + 0x2d0 <= 2 ^ 64 /\ p mod 16 = 0 /\ 40 <= sp /\ sp + 8 < 2 ^ 64 /\ (p + 0x2c1 <= sp - 40 \/ sp + 8 <= p).

(** The words [l] at their offsets behind [p], inside of a context *)
Definition keeps (p : Z) (m : Z -> Z) (l : list (Z * Z)) : Prop :=
  Forall (fun '(o, v) => load64 m (p + o) = v /\ 0 <= o <= 0xb8) l.

(** Outside of the words of the context at [p] and of the 40 bytes below [sp] nothing changes. *)
Definition framed (p sp : Z) (m m' : Z -> Z) : Prop :=
  forall a, ~ (p <= a < p + 0xc0) -> ~ (sp - 40 <= a < sp) -> m' a = m a.

Definition apart (o : Z) (l : list (Z * Z)) : bool := forallb (fun '(o', _) => (o' + 8 <=? o) || (o + 8 <=? o')) l.

Lemma keeps_store p m l o v : u64 v -> 0 <= o <= 0xb8 -> apart o l = true -> keeps p m l -> keeps p (store64 m (p + o) v) ((o, v) :: l).
Proof.
  intros Hv Ho Ha Hk. constructor; [split; [by apply load64_store64|done]|].
  induction Hk as [|[o' v'] l [Hl Ho'] _ IH]; [constructor|]. cbn in Ha. apply andb_true_iff in Ha as [Ha1 Ha2].
  constructor; [|by apply IH]. split; [|done]. rewrite load64_store64_other; [done|]. destruct (Z.leb_spec (o' + 8) o); lia.
Qed.

Lemma keeps_ext p m m' l : (forall a, p <= a < p + 0xc0 -> m' a = m a) -> keeps p m l -> keeps p m' l.
Proof.
  intros He Hk. apply (Forall_impl _ _ _ Hk). intros [o v] [Hl Ho]. split; [|done]. rewrite <- Hl. apply load64_ext. intros b Hb. apply He. lia.
Qed.

Lemma put16_u64 old v : u64 old -> u16 v -> u64 (put16 old v).
Proof.
  unfold unsigned, put16. intros Ho Hv. pose proof (Z.div_mod old (2 ^ 16) ltac:(lia)). assert (old / 2 ^ 16 < 2 ^ 48) by (apply Z.div_lt_upper_bound; lia).
  assert (0 <= old / 2 ^ 16) by (apply Z.div_pos; lia). lia.
Qed.

Lemma pushfq_image_u64 f : u64 f -> u64 (pushfq_image f).
Proof.
  intros Hf. unfold pushfq_image. set (k := 2 ^ 64 - 1 - 0x30000). assert (E : Z.land f k = Z.land f k mod 2 ^ 64).
  { rewrite <- Z.land_ones, <- Z.land_assoc, (Z.land_comm k), Z.land_assoc, Z.land_ones, (Z.mod_small f) by (done || lia). done. }
  rewrite E. apply Z.mod_pos_bound. lia.
Qed.

Ltac run_code := lazy -[store64 load64 store load wrap Z.add Z.sub Z.modulo Z.mul Z.div Z.eqb put16 put8 low16 pushfq_image iret_flags fxsave fxrstor selector_ok].

Lemma exec_save_words x res :
  machine_ok x -> context_place (regs x RSI) (regs x RSP) -> load64 (mem x) (regs x RSI + 0x18) = res ->
  exists x1, exec save_words x = Some x1 /\ (forall r, r <> RAX -> regs x1 r = regs x r) /\ segs x1 = segs x /\
    m_rflags x1 = m_rflags x /\ m_cr3 x1 = m_cr3 x /\ fx x1 = fx x /\ framed (regs x RSI) (regs x RSP) (mem x) (mem x1) /\
    keeps (regs x RSI) (mem x1) [(0x00, m_cr3 x); (0xb8, regs x R15); (0xb0, regs x R14); (0xa8, regs x R13); (0xa0, regs x R12);
      (0x98, regs x R11); (0x90, regs x R10); (0x88, regs x R9); (0x80, regs x R8); (0x78, regs x RBP); (0x70, regs x RSP + 8);
      (0x68, regs x RSI); (0x60, regs x RDI); (0x58, regs x RDX); (0x50, regs x RCX); (0x48, regs x RBX); (0x40, regs x RAX); (0x18, res)].
Proof.
  intros [] (Hp0 & Hp1 & _ & Hsp & Hsp' & Hd) Hres. destruct x as [g sg ip fl c f m]. cbn [regs segs m_rip m_rflags m_cr3 fx mem] in *.
  eexists. split; [run_code; reflexivity|]. cbn [regs segs m_rip m_rflags m_cr3 fx mem].
  rewrite !(wrap_small 64) by (unfold unsigned; lia). split; [by intros []|]. do 4 (split; [done|]). split.
  - intros a Ha _. rewrite !store64_other by lia. done.
  - repeat (apply keeps_store; [done || (unfold unsigned; lia)|lia|reflexivity|]). by repeat constructor.
Qed.

Lemma exec_save_rip x l ret :
  context_place (regs x RSI) (regs x RSP) -> load64 (mem x) (regs x RSP) = ret -> u64 ret -> u64 (m_rflags x) ->
  keeps (regs x RSI) (mem x) l -> apart 0x08 l = true -> apart 0x10 l = true ->
  exists x1, exec save_rip x = Some x1 /\ (forall r, r <> RAX -> regs x1 r = regs x r) /\ regs x1 RAX = ret /\ segs x1 = segs x /\
    m_cr3 x1 = m_cr3 x /\ fx x1 = fx x /\ framed (regs x RSI) (regs x RSP) (mem x) (mem x1) /\
    keeps (regs x RSI) (mem x1) ((0x10, pushfq_image (m_rflags x)) :: (0x08, ret) :: l).
Proof.
  intros (Hp0 & Hp1 & _ & Hsp & Hsp' & Hd) Hret Hru Hfl Hk Ha1 Ha2. destruct x as [g sg ip fl c f m]. cbn [regs segs m_rip m_rflags m_cr3 fx mem] in *.
  pose proof (pushfq_image_u64 fl Hfl). eexists. split; [run_code; reflexivity|]. cbn [regs segs m_rip m_rflags m_cr3 fx mem].
  rewrite !(wrap_small 64) by (unfold unsigned; rewrite ?(wrap_small 64); unfold unsigned; lia). rewrite load64_store64 by done.
  rewrite Z.add_0_r, Hret. split; [intros []; try done; intros _; cbn; lia|].
  do 4 (split; [done|]). split.
  - intros a Ha Ha'. rewrite !store64_other by lia. done.
  - apply keeps_store; [done|lia|by cbn|].
    apply (keeps_ext _ (store64 m (g RSI + 8) ret)); [intros a Ha; apply store64_other; lia|].
    by apply keeps_store.
Qed.

Lemma exec_save_segs x l :
  context_place (regs x RSI) (regs x RSP) -> (forall r, u64 (regs x r)) -> (forall s, u16 (segs x s)) ->
  keeps (regs x RSI) (mem x) l -> forallb (fun o => apart o l) [0x20; 0x28; 0x30; 0x38] = true ->
  exists x1, exec save_segs x = Some x1 /\ (forall r, r ∉ [RAX; RBX; RCX; RDX] -> regs x1 r = regs x r) /\ segs x1 = segs x /\
    m_cr3 x1 = m_cr3 x /\ fx x1 = fx x /\ framed (regs x RSI) (regs x RSP) (mem x) (mem x1) /\
    keeps (regs x RSI) (mem x1) ((0x38, put16 (regs x RDX) (segs x GS)) :: (0x30, put16 (regs x RCX) (segs x FS)) ::
      (0x28, put16 (regs x RBX) (segs x SS)) :: (0x20, put16 (regs x RAX) (segs x CS)) :: l).
Proof.
  intros (Hp0 & Hp1 & _ & Hsp & Hsp' & Hd) Hr Hs Hk Ha. destruct x as [g sg ip fl c f m]. cbn [regs segs m_rip m_rflags m_cr3 fx mem] in *.
  cbn in Ha. apply andb_true_iff in Ha as [Ha1 Ha]. apply andb_true_iff in Ha as [Ha2 Ha]. apply andb_true_iff in Ha as [Ha3 Ha].
  apply andb_true_iff in Ha as [Ha4 _].
  eexists. split; [run_code; reflexivity|]. cbn [regs segs m_rip m_rflags m_cr3 fx mem].
  rewrite !(wrap_small 64) by (unfold unsigned; lia). split; [intros []; set_solver|]. do 3 (split; [done|]). split.
  - intros a Ha Ha'. rewrite !store64_other by lia. done.
  - repeat (apply keeps_store; [by apply put16_u64|lia|by cbn|]). done.
Qed.

(** The area of [fxsave] and the mark, and the memory outside of both *)
Lemma exec_save_fx x :
  context_place (regs x RSI) (regs x RSP) ->
  exists x1, exec (save_fx ++ switch_mark) x = Some x1 /\ (forall r, r <> RAX -> regs x1 r = regs x r) /\ segs x1 = segs x /\
    m_cr3 x1 = m_cr3 x /\ load (mem x1) (regs x RSI + 0xc0) 512 = fxsave (fx x) (load (mem x) (regs x RSI + 0xc0) 512) /\
    mem x1 (regs x RSI + 0x2c0) = 1 /\
    forall a, ~ (regs x RSI + 0xc0 <= a < regs x RSI + 0x2c1) -> mem x1 a = mem x a.
Proof.
  intros (Hp0 & Hp1 & Hal & Hsp & Hsp' & Hd). destruct x as [g sg ip fl c f m]. cbn [regs segs m_rip m_rflags m_cr3 fx mem] in *.
  assert (Hfx : wrap 64 (g RSI + 192) mod 16 = 0).
  { rewrite wrap_small by (unfold unsigned; lia). rewrite Z.add_mod, Hal by lia. done. }
  eexists. split; [run_code; rewrite Hfx, Z.eqb_refl; run_code; reflexivity|]. cbn [regs segs m_rip m_rflags m_cr3 fx mem].
  rewrite !(wrap_small 64) by (unfold unsigned; lia). set (img := fxsave f (load m (g RSI + 192) 512)).
  assert (Hlen : length img = 512%nat) by (unfold img; by rewrite fxsave_length, length_ram_load).
  assert (H1 : put8 (g RAX) 1 mod 256 = 1) by (unfold put8; change (2 ^ 8) with 256; rewrite Z.add_comm, Z.mod_add by lia; done).
  split; [by intros []|]. do 2 (split; [done|]). split_and!.
  - rewrite <- (ram_load_store m (g RSI + 192) img) at 2. rewrite Hlen. apply ram_load_ext. intros b Hb. apply ram_store_other. simpl. lia.
  - unfold store at 1. cbn [length Z.of_nat Pos.of_succ_nat]. rewrite (proj2 (Z.leb_le _ _)), (proj2 (Z.ltb_lt _ _)) by lia.
    rewrite Z.sub_diag. exact H1.
  - intros a Ha. rewrite !ram_store_other by (simpl length; rewrite ?Hlen; lia). done.
Qed.

Ltac in_list := first [apply list_elem_of_here | apply list_elem_of_further; in_list].

(** Every word of a context is kept at its offset. *)
Definition word_list (c : Context) : list (Z * Z) := imap (fun i w => (8 * Z.of_nat i, w)) (words c).

Lemma keeps_words p m l c : keeps p m l -> word_list c ⊆ l ->
  forall i w, words c !! i = Some w -> load64 m (p + 8 * Z.of_nat i) = w.
Proof.
  intros Hk Hl i w Hi. assert (Hin : (8 * Z.of_nat i, w) ∈ l).
  { apply Hl, list_elem_of_lookup. exists i. unfold word_list. rewrite list_lookup_imap, Hi. done. }
  exact (proj1 (proj1 (Forall_forall _ _) Hk _ Hin)).
Qed.

Lemma exec_switch_save x c :
  machine_ok x -> context_place (regs x RSI) (regs x RSP) -> context_at (mem x) (regs x RSI) c ->
  exists x1, exec switch_save x = Some x1 /\ (forall r, r ∉ [RAX; RBX; RCX; RDX] -> regs x1 r = regs x r) /\
    segs x1 = segs x /\ m_cr3 x1 = m_cr3 x /\ context_at (mem x1) (regs x RSI) (save_context x c) /\
    forall a, ~ (regs x RSI <= a < regs x RSI + 0x2c1) -> ~ (regs x RSP - 40 <= a < regs x RSP) -> mem x1 a = mem x a.
Proof.
  intros Hok Hpl (Hw & Hfx & _). pose proof (Hpl) as (Hp0 & Hp1 & _ & Hsp & Hsp' & Hd). set (p := regs x RSI) in *. set (sp := regs x RSP) in *.
  unfold switch_save. rewrite exec_app.
  destruct (exec_save_words x (_reserved1 c) Hok Hpl (Hw 3%nat _ eq_refl)) as (x1 & -> & R1 & S1 & F1 & C1 & X1 & M1 & K1). cbn [mbind option_bind].
  fold p sp in M1, K1. assert (P1 : regs x1 RSI = p) by by apply R1. assert (Q1 : regs x1 RSP = sp) by by apply R1.
  rewrite exec_app. destruct (exec_save_rip x1 _ (load64 (mem x) sp) ltac:(by rewrite P1, Q1)
      ltac:(rewrite Q1; apply load64_ext; intros b Hb; apply M1; lia) (load64_u64 _ _ (mok_mem x Hok)) ltac:(rewrite F1; apply Hok) ltac:(by rewrite P1) eq_refl eq_refl)
    as (x2 & -> & R2 & A2 & S2 & C2 & X2 & M2 & K2). cbn [mbind option_bind]. rewrite P1, Q1 in *.
  assert (E2 : forall r, r <> RAX -> regs x2 r = regs x r) by (intros r Hr; by rewrite R2, R1).
  assert (P2 : regs x2 RSI = p) by by apply E2. assert (Q2 : regs x2 RSP = sp) by by apply E2.
  rewrite exec_app. destruct (exec_save_segs x2 _ ltac:(by rewrite P2, Q2)
      ltac:(intros r; destruct (decide (RAX = r)) as [<-|]; [rewrite A2; apply load64_u64, Hok|rewrite E2 by done; apply Hok]) ltac:(intros s; rewrite S2, S1; apply Hok) ltac:(by rewrite P2) eq_refl)
    as (x3 & -> & R3 & S3 & C3 & X3 & M3 & K3). cbn [mbind option_bind]. rewrite P2, Q2 in *.
  assert (E3 : forall r, r ∉ [RAX; RBX; RCX; RDX] -> regs x3 r = regs x r) by (intros r Hr; rewrite R3, E2 by set_solver; done).
  assert (P3 : regs x3 RSI = p) by (apply E3; set_solver). assert (Q3 : regs x3 RSP = sp) by (apply E3; set_solver).
  destruct (exec_save_fx x3) as (x4 & -> & R4 & S4 & C4 & L4 & B4 & M4); [by rewrite P3, Q3|]. rewrite P3 in *.
  assert (Hfr : forall a, ~ (p <= a < p + 0xc0) -> ~ (sp - 40 <= a < sp) -> mem x3 a = mem x a) by (intros a Ha Ha'; by rewrite M3, M2, M1).
  exists x4. split; [done|]. split; [intros r Hr; rewrite R4, E3 by set_solver; done|]. split; [congruence|]. split; [congruence|]. split.
  - split; [|split; [|exact B4]].
    + apply (keeps_words p (mem x4) _ (save_context x c) (keeps_ext p (mem x3) (mem x4) _ ltac:(intros a Ha; apply M4; lia) K3)).
      unfold word_list, save_context. rewrite (wrap_small 64) by (unfold unsigned; fold sp; lia).
      rewrite A2, !E2, S2, S1, F1 by done. fold p sp. cbn. intros y Hy. repeat (apply elem_of_cons in Hy as [->|Hy]; [in_list|]).
      by apply not_elem_of_nil in Hy.
    + rewrite L4, X3, X2, X1. cbn [save_context fxsave_area]. f_equal. rewrite <- Hfx. apply ram_load_ext. intros b Hb. apply Hfr; lia.
  - intros a Ha Ha'. rewrite M4 by lia. apply Hfr; lia.
Qed.

(** ** The second half *)

Lemma context_word m p c i w : context_at m p c -> words c !! i = Some w -> load64 m (p + 8 * Z.of_nat i) = w.
Proof. intros (Hw & _). apply Hw. Qed.

Lemma context_at_ext m m' p c : (forall a, p <= a < p + 0x2c1 -> m' a = m a) -> context_at m p c -> context_at m' p c.
Proof.
  intros He (Hw & Hf & Hs). split_and!.
  - intros i w Hi. rewrite <- (Hw i w Hi). apply load64_ext. intros b Hb. apply He. apply lookup_lt_Some in Hi. simpl in Hi. lia.
  - rewrite <- Hf. apply ram_load_ext. intros b Hb. apply He. lia.
  - rewrite <- Hs. apply He. lia.
Qed.

(** One [push] of a word of the next context. *)
Lemma exec_push x n k o i w c : regs x RDI = n -> regs x RSP = k -> context_at (mem x) n c -> 0 <= n -> n + 0x2d0 <= 2 ^ 64 ->
  (n + 0x2c1 <= k - 8 \/ k <= n) -> 8 <= k < 2 ^ 64 -> o = 8 * Z.of_nat i -> words c !! i = Some w ->
  exists x1, exec1 (PushM (at_offset RDI o)) x = Some x1 /\ (forall r, r <> RSP -> regs x1 r = regs x r) /\ regs x1 RSP = k - 8 /\
    segs x1 = segs x /\ m_cr3 x1 = m_cr3 x /\ context_at (mem x1) n c /\ mem x1 = store64 (mem x) (k - 8) w.
Proof.
  intros Hn Hk Hc Hn0 Hn1 Hd Hk0 -> Hi. assert (Hlt : 8 * Z.of_nat i <= 0xb8) by (apply lookup_lt_Some in Hi; simpl in Hi; lia).
  assert (E : load64 (mem x) (ea x (at_offset RDI (8 * Z.of_nat i))) = w).
  { unfold ea. cbn [base offset]. rewrite Hn, wrap_small by (unfold unsigned; lia). by eapply context_word. }
  cbn [exec1]. rewrite E. unfold push. rewrite Hk, wrap_small by (unfold unsigned; lia).
  eexists. split; [done|]. cbn. split; [by intros []|]. do 3 (split; [done|]). split; [|done].
  eapply context_at_ext; [|done]. intros a Ha. apply store64_other. lia.
Qed.

Lemma exec_frame x c n sp :
  Forall u64 (words c) -> regs x RDI = n -> regs x RSP = sp -> context_place n sp -> context_at (mem x) n c ->
  exists x1, exec switch_frame x = Some x1 /\ (forall r, r <> RSP -> regs x1 r = regs x r) /\ regs x1 RSP = sp - 40 /\ segs x1 = segs x /\
    m_cr3 x1 = m_cr3 x /\
    load64 (mem x1) (sp - 40) = rip c /\ load64 (mem x1) (sp - 32) = cs c /\ load64 (mem x1) (sp - 24) = rflags c /\
    load64 (mem x1) (sp - 16) = rsp c /\ load64 (mem x1) (sp - 8) = ss c /\ context_at (mem x1) n c /\
    forall a, ~ (sp - 40 <= a < sp) -> mem x1 a = mem x a.
Proof.
  intros Hok Hn Hs (Hp0 & Hp1 & _ & Hsp & Hsp' & Hd) Hc. unfold switch_frame. cbn [exec].
  pose proof (proj1 (Forall_lookup _ _) Hok) as Hu.
  destruct (exec_push x n sp 0x28 5 (ss c) c) as (x1 & -> & R1 & P1 & S1 & C1 & K1 & M1); try done; [lia..|]. cbn [mbind option_bind].
  destruct (exec_push x1 n (sp - 8) 0x70 14 (rsp c) c) as (x2 & -> & R2 & P2 & S2 & C2 & K2 & M2); try done; [by rewrite R1|lia..|]. cbn [mbind option_bind].
  destruct (exec_push x2 n (sp - 8 - 8) 0x10 2 (rflags c) c) as (x3 & -> & R3 & P3 & S3 & C3 & K3 & M3); try done; [by rewrite R2, R1|lia..|]. cbn [mbind option_bind].
  destruct (exec_push x3 n (sp - 8 - 8 - 8) 0x20 4 (cs c) c) as (x4 & -> & R4 & P4 & S4 & C4 & K4 & M4); try done; [by rewrite R3, R2, R1|lia..|]. cbn [mbind option_bind].
  destruct (exec_push x4 n (sp - 8 - 8 - 8 - 8) 0x08 1 (rip c) c) as (x5 & -> & R5 & P5 & S5 & C5 & K5 & M5); try done; [by rewrite R4, R3, R2, R1|lia..|]. cbn [mbind option_bind].
  exists x5. split; [done|]. split; [intros r Hr; by rewrite R5, R4, R3, R2, R1|]. split; [rewrite P5; lia|]. split; [congruence|]. split; [congruence|].
  rewrite M5, M4, M3, M2, M1. replace (sp - 8 - 8 - 8 - 8 - 8) with (sp - 40) by lia. replace (sp - 8 - 8 - 8 - 8) with (sp - 32) by lia.
  replace (sp - 8 - 8 - 8) with (sp - 24) by lia. replace (sp - 8 - 8) with (sp - 16) by lia.
  split; [by apply load64_store64, (Hu 1%nat)|]. split; [rewrite load64_store64_other by lia; by apply load64_store64, (Hu 4%nat)|].
  split; [rewrite !(load64_store64_other _ _ _ (sp - 24)) by lia; by apply load64_store64, (Hu 2%nat)|].
  split; [rewrite !(load64_store64_other _ _ _ (sp - 16)) by lia; by apply load64_store64, (Hu 14%nat)|].
  split; [rewrite !(load64_store64_other _ _ _ (sp - 8)) by lia; by apply load64_store64, (Hu 5%nat)|].
  split; [|intros a Ha; rewrite !store64_other by lia; done].
  eapply context_at_ext; [|exact Hc]. intros a Ha. rewrite !store64_other by lia. done.
Qed.

Lemma exec_restore x c n k :
  regs x RDI = n -> regs x RSP = k -> context_at (mem x) n c -> 0 <= n -> n + 0x2d0 <= 2 ^ 64 -> n mod 16 = 0 -> 0 <= k -> k + 40 < 2 ^ 64 ->
  load64 (mem x) k = rip c -> load64 (mem x) (k + 8) = cs c -> load64 (mem x) (k + 16) = rflags c ->
  load64 (mem x) (k + 24) = rsp c -> load64 (mem x) (k + 32) = ss c -> resumable x c ->
  exists x1, exec switch_restore x = Some x1 /\ resumed x1 c /\ mem x1 = mem x.
Proof.
  intros Hn Hk Hc Hn0 Hn1 Hal Hk0 Hk1 F1 F2 F3 F4 F5 (Hcr3 & Hsel & [y Hy]).
  pose proof (fun i w => context_word _ _ _ i w Hc) as Hw. destruct Hc as (_ & Hfx & _).
  destruct x as [g sg ip fl c3 f m]. cbn [regs segs m_rip m_rflags m_cr3 fx mem] in *.
  assert (E : forall o i w, words c !! i = Some w -> o = 8 * Z.of_nat i -> load64 m (wrap 64 (g RDI + o)) = w).
  { intros o i w Hi ->. rewrite Hn, wrap_small; [by apply Hw|]. apply lookup_lt_Some in Hi. simpl in Hi. unfold unsigned. lia. }
  assert (Ef : wrap 64 (g RDI + 0xc0) = n + 0xc0) by (rewrite Hn; apply wrap_small; unfold unsigned; lia).
  assert (Hf16 : (n + 0xc0) mod 16 = 0) by (rewrite Z.add_mod, Hal by lia; done).
  assert (Wk : forall a, 0 <= a <= 32 -> wrap 64 (k + a) = k + a) by (intros a Ha; apply wrap_small; unfold unsigned; lia).
  pose proof (Hsel CS : selector_ok CS (low16 (cs c)) = true) as HCS. pose proof (Hsel SS : selector_ok SS (low16 (ss c)) = true) as HSS.
  pose proof (Hsel FS : selector_ok FS (low16 (fs c)) = true) as HFS. pose proof (Hsel GS : selector_ok GS (low16 (gs c)) = true) as HGS.
  run_code. rewrite Ef, Hf16, Z.eqb_refl, Hfx, Hy. run_code.
  rewrite (E 0 0%nat _ eq_refl eq_refl), Hcr3, Z.eqb_refl. run_code.
  rewrite (E 0x30 6%nat _ eq_refl eq_refl), HFS. run_code. rewrite (E 0x38 7%nat _ eq_refl eq_refl), HGS. run_code.
  rewrite Hk, (Wk 8), <- !(Z.add_assoc k), (Wk (8 + 8)), <- !(Z.add_assoc k), (Wk (8 + 8 + 8)), <- !(Z.add_assoc k), (Wk (8 + 8 + 8 + 8)) by lia.
  change (8 + 8 + 8 + 8) with 32. change (8 + 8 + 8) with 24. change (8 + 8) with 16. rewrite F1, F2, F3, F4, F5, HCS, HSS. run_code.
  eexists. split; [reflexivity|]. split; [|done]. split; cbn [regs segs m_rip m_rflags m_cr3 fx mem]; try done.
  - intros []; cbn; [by apply (E _ 8%nat)|by apply (E _ 9%nat)|by apply (E _ 10%nat)|by apply (E _ 11%nat)|by apply (E _ 12%nat)|by apply (E _ 13%nat)|done|
      by apply (E _ 15%nat)|by apply (E _ 16%nat)|by apply (E _ 17%nat)|by apply (E _ 18%nat)|by apply (E _ 19%nat)|by apply (E _ 20%nat)|
      by apply (E _ 21%nat)|by apply (E _ 22%nat)|by apply (E _ 23%nat)].
  - by intros [].
Qed.

Lemma exec_switch_load x c :
  Forall u64 (words c) -> context_place (regs x RDI) (regs x RSP) -> context_at (mem x) (regs x RDI) c -> resumable x c ->
  exists x1, exec switch_load x = Some x1 /\ resumed x1 c /\
    forall a, ~ (regs x RSP - 40 <= a < regs x RSP) -> mem x1 a = mem x a.
Proof.
  intros Hok Hpl Hc (Hr1 & Hr2 & Hr3). unfold switch_load. rewrite exec_app.
  destruct (exec_frame x c _ _ Hok eq_refl eq_refl Hpl Hc) as (x1 & -> & R1 & P1 & S1 & C1 & F1 & F2 & F3 & F4 & F5 & K1 & M1). cbn [mbind option_bind].
  destruct Hpl as (Hp0 & Hp1 & Hal & Hsp & Hsp' & _).
  destruct (exec_restore x1 c (regs x RDI) (regs x RSP - 40)) as (x2 & -> & Hres & M2); try done; try lia.
  - by apply R1.
  - by rewrite <- F2; f_equal; lia.
  - by rewrite <- F3; f_equal; lia.
  - by rewrite <- F4; f_equal; lia.
  - by rewrite <- F5; f_equal; lia.
  - split_and!; [congruence|done..].
  - exists x2. rewrite M2. done.
Qed.

Lemma context_words_u64 m p c : (forall a, u8 (m a)) -> context_at m p c -> Forall u64 (words c).
Proof. intros Hm Hc. apply Forall_lookup. intros i w Hi. rewrite <- (context_word _ _ _ _ _ Hc Hi). by apply load64_u64. Qed.

(** A call of [switch_context]: room for two contexts, apart from each other and from the stack. *)
Record call (x : Machine) (old : Context) : Prop := {
  call_ok : machine_ok x;
  call_current : context_place (regs x RSI) (regs x RSP);
  call_next : context_place (regs x RDI) (regs x RSP);
  call_apart : regs x RSI + 0x2c1 <= regs x RDI \/ regs x RDI + 0x2c1 <= regs x RSI;
  call_old : context_at (mem x) (regs x RSI) old
}.

Lemma switch_context_ok x old next :
  call x old -> context_at (mem x) (regs x RDI) next -> resumable x next ->
  exists x1, exec switch_context x = Some x1 /\ resumed x1 next /\ context_at (mem x1) (regs x RSI) (save_context x old) /\
    forall a, ~ (regs x RSI <= a < regs x RSI + 0x2c1) -> ~ (regs x RSP - 40 <= a < regs x RSP) -> mem x1 a = mem x a.
Proof.
  intros [Hok Hpl Hpl' Hap Hold] Hnew (Hr1 & Hr2 & Hr3). pose proof (context_words_u64 _ _ _ (mok_mem x Hok) Hnew) as Hu.
  unfold switch_context. rewrite exec_app. destruct (exec_switch_save x old Hok Hpl Hold) as (x1 & -> & R1 & S1 & C1 & K1 & M1). cbn [mbind option_bind].
  assert (ED : regs x1 RDI = regs x RDI) by (apply R1; set_solver). assert (ES : regs x1 RSP = regs x RSP) by (apply R1; set_solver).
  pose proof Hpl as (Hp0 & Hp1 & _ & Hsp & Hsp' & Hd). pose proof Hpl' as (Hn0 & Hn1 & _ & _ & _ & Hd').
  destruct (exec_switch_load x1 next Hu) as (x2 & -> & Hres & M2); [by rewrite ED, ES| |split_and!; [congruence|done..]|].
  { rewrite ED. eapply context_at_ext; [|exact Hnew]. intros a Ha. apply M1; lia. }
  rewrite ES in M2. exists x2. split; [done|]. split; [done|]. split.
  - eapply context_at_ext; [|exact K1]. intros a Ha. apply M2. lia.
  - intros a Ha Ha'. rewrite M2, M1 by lia. done.
Qed.

Lemma low16_put16 old v : u16 v -> low16 (put16 old v) = v.
Proof. intros Hv. unfold low16, put16. rewrite Z.add_comm, Z.mod_add by lia. by apply Z.mod_small. Qed.

(** ** Widths *)

Lemma set_reg_ok r v x : machine_ok x -> u64 v -> machine_ok (set_reg r v x).
Proof. intros [] Hv. split; try done. intros r'. cbn. by destruct (_ =? _)%nat. Qed.

Lemma set_seg_ok s v x : machine_ok x -> u16 v -> machine_ok (set_seg s v x).
Proof. intros [] Hv. split; try done. intros s'. cbn. by destruct (_ =? _)%nat. Qed.

Lemma set_mem_ok m x : machine_ok x -> (forall a, u8 (m a)) -> machine_ok (set_mem m x).
Proof. intros [] Hm. by split. Qed.

Lemma wrap_u64 z : u64 (wrap 64 z).
Proof. by apply wrap_unsigned. Qed.

Lemma put8_u64 old v : u64 old -> u8 v -> u64 (put8 old v).
Proof. unfold unsigned, put8. intros Ho Hv. Z.to_euclidean_division_equations. lia. Qed.

Lemma low16_u16 v : u16 (low16 v).
Proof. apply Z.mod_pos_bound. lia. Qed.

Lemma iret_flags_u64 f : u64 (iret_flags f).
Proof.
  unfold iret_flags. assert (E : Z.lor (Z.land f 0x3d7fd5) 2 = Z.lor (Z.land f 0x3d7fd5) 2 mod 2 ^ 22).
  { rewrite <- Z.land_ones by lia. rewrite Z.land_lor_distr_l, <- Z.land_assoc. done. }
  rewrite E. pose proof (Z.mod_pos_bound (Z.lor (Z.land f 0x3d7fd5) 2) (2 ^ 22) ltac:(lia)). unfold unsigned. lia.
Qed.

Lemma push_ok v x : machine_ok x -> machine_ok (push v x).
Proof. intros Hok. apply set_reg_ok; [|apply wrap_u64]. apply set_mem_ok; [done|]. apply store64_bytes, Hok. Qed.

Lemma pop_ok x : machine_ok x -> u64 (pop x).1 /\ machine_ok (pop x).2.
Proof. intros Hok. split; [apply load64_u64, Hok|]. apply set_reg_ok; [done|apply wrap_u64]. Qed.

Lemma ea_u64 x d : u64 (ea x d).
Proof. apply wrap_u64. Qed.

Create HintDb machine.
#[local] Hint Resolve ea_u64 set_reg_ok set_seg_ok set_mem_ok store64_bytes wrap_u64 put8_u64 put16_u64 low16_u16 iret_flags_u64 push_ok load64_u64 mok_regs mok_segs mok_mem mok_cr3 : machine.

(** Instructions whose immediate operands fit *)
Definition instr_ok (i : instr) : Prop := match i with MovImm8 _ v => u8 v | _ => True end.

Lemma exec1_ok i x x' : machine_ok x -> instr_ok i -> exec1 i x = Some x' -> machine_ok x'.
Proof.
  intros Hok Hi. destruct i; cbn [exec1].
  all: try (intros [= <-]; eauto 8 with machine; fail).
  - destruct (_ =? _); [by intros [= <-]|done].
  - destruct (selector_ok _ _); [intros [= <-]|done]. auto with machine.
  - intros [= <-]. apply set_reg_ok; [|eauto with machine]. apply set_mem_ok; [done|]. apply store_bytes; [apply Hok|].
    constructor; [apply Z.mod_pos_bound; lia|constructor].
  - destruct (_ =? _); [intros [= <-]|done]. apply set_mem_ok; [done|]. apply store_bytes; [apply Hok|]. apply fxsave_bytes, load_bytes, Hok.
  - destruct (_ =? _); [|done]. intros (f & _ & [= <-])%bind_Some. destruct Hok. by split.
  - destruct (pop_ok x Hok) as [H1 K1]. destruct (pop x) as [v1 y1]. cbn [fst snd] in *.
    destruct (pop_ok y1 K1) as [H2 K2]. destruct (pop y1) as [v2 y2]. cbn [fst snd] in *.
    destruct (pop_ok y2 K2) as [H3 K3]. destruct (pop y2) as [v3 y3]. cbn [fst snd] in *.
    destruct (pop_ok y3 K3) as [H4 K4]. destruct (pop y3) as [v4 y4]. cbn [fst snd] in *.
    destruct (pop_ok y4 K4) as [H5 K5]. destruct (pop y4) as [v5 y5]. cbn [fst snd] in *.
    destruct (selector_ok _ _ && _); [intros [= <-]|done].
    assert (K : machine_ok (set_reg RSP v4 (set_seg SS (low16 v5) (set_seg CS (low16 v2) y5)))) by auto with machine.
    destruct K. split; try done. apply iret_flags_u64.
Qed.

Lemma exec_ok code x x' : machine_ok x -> Forall instr_ok code -> exec code x = Some x' -> machine_ok x'.
Proof.
  intros Hok Hc. revert x Hok. induction Hc as [|i code Hi _ IH]; intros x Hok; cbn [exec]; [by intros [= <-]|].
  intros (y & Hy & He)%bind_Some. eapply IH; [|done]. by eapply exec1_ok.
Qed.

Lemma switch_context_width x x' : machine_ok x -> exec switch_context x = Some x' -> machine_ok x'.
Proof. intros Hok. apply exec_ok; [done|]. repeat constructor; cbn; lia. Qed.

(** ** New tasks *)

Lemma task_new_ok get_cr3 kcs kss stack id priority entry arg :
  16 <= stack -> stack + DEFAULT_STACK_SIZE < 2 ^ 64 ->
  exists td, task_new get_cr3 (Some kcs) (Some kss) stack id priority entry arg = Some td /\ td_id td = id /\ td_priority td = priority /\
    saved (td_ctx td) = true /\ cts (td_ctx td) = cts_new /\ cr3 (td_ctx td) = get_cr3 /\ rflags (td_ctx td) = 0x202 /\
    cs (td_ctx td) = kcs /\ ss (td_ctx td) = kss /\ fs (td_ctx td) = 0 /\ gs (td_ctx td) = 0 /\ rip (td_ctx td) = task_init entry /\
    rdi (td_ctx td) = task_function entry /\ rsi (td_ctx td) = id /\ rdx (td_ctx td) = arg /\
    fxsave_area (td_ctx td) = upd (replicate 512 0) 24 (to_le_bytes 4 0x1f80) /\
    rsp (td_ctx td) = (stack + DEFAULT_STACK_SIZE) / 16 * 16 - 8.
Proof.
  intros Hs Hs'. assert (Hal : Z.land (stack + DEFAULT_STACK_SIZE) (2 ^ 64 - 16) = (stack + DEFAULT_STACK_SIZE) / 16 * 16).
  { apply (land_high 64 4); [lia|]. unfold DEFAULT_STACK_SIZE in *. lia. }
  unfold task_new, context_new. cbn [mbind option_bind]. rewrite Hal. unfold sub_checked. rewrite checked_Some.
  2: { unfold unsigned, DEFAULT_STACK_SIZE in *. Z.to_euclidean_division_equations. lia. }
  cbn [mbind option_bind]. eexists. split; [reflexivity|]. by split_and!.
Qed.

(** A call of [switch_context] takes no exception. It leaves
    all registers of the caller in the context of the current task, with the return
    address and the stack pointer as they are after the call, the flags, the
    segments, the state of the floating point unit and the mark; and it runs the
    next context with exactly the registers that were saved there. Apart from the
    current context only the five words below the stack pointer change. *)
Theorem switch_context_hands_over (x : Machine) (old next : Context) :
  call x old -> context_at (mem x) (regs x RDI) next -> resumable x next ->
  exists x1, exec switch_context x = Some x1 /\ resumed x1 next /\ context_at (mem x1) (regs x RSI) (save_context x old) /\
    forall a, ~ (regs x RSI <= a < regs x RSI + 0x2c1) -> ~ (regs x RSP - 40 <= a < regs x RSP) -> mem x1 a = mem x a.
Proof. apply switch_context_ok. Qed.

(** [C36]. For its caller [switch_context] is a function that returns:
    when, after any time, some context is left for the saved one, and that is still in
    memory, the caller goes on behind the call with all its registers, flags and
    segments, the stack pointer behind the return address. *)
Theorem switch_context_returns (x x1 x2 : Machine) (old next old2 : Context) :
  call x old -> context_at (mem x) (regs x RDI) next -> resumable x next -> exec switch_context x = Some x1 ->
  iret_flags (pushfq_image (m_rflags x)) = m_rflags x -> (forall s, selector_ok s (segs x s) = true) ->
  call x2 old2 -> regs x2 RDI = regs x RSI -> m_cr3 x2 = m_cr3 x ->
  (forall a, regs x RSI <= a < regs x RSI + 0x2c1 -> mem x2 a = mem x1 a) ->
  exists x3, exec switch_context x2 = Some x3 /\ m_rip x3 = load64 (mem x) (regs x RSP) /\
    (forall r, regs x3 r = if decide (r = RSP) then regs x RSP + 8 else regs x r) /\ (forall s, segs x3 s = segs x s) /\
    m_rflags x3 = m_rflags x /\ m_cr3 x3 = m_cr3 x /\ fx x3 = fx x.
Proof.
  intros Hcall Hnew Hres He Hfl Hsel Hcall2 Hdi Hcr3 Hkeep.
  pose proof (call_ok _ _ Hcall) as Hok. destruct (call_current _ _ Hcall) as (_ & _ & _ & Hsp & Hsp' & _).
  assert (Hlen : length (fxsave_area old) = 512%nat) by (destruct (call_old _ _ Hcall) as (_ & <- & _); apply length_ram_load).
  assert (Hseg : forall s, context_seg (save_context x old) s = segs x s) by (intros []; unfold context_seg; cbn; by apply low16_put16, Hok).
  destruct (switch_context_ok x old next Hcall Hnew Hres) as (x1' & He' & _ & Hsaved & _). rewrite He in He'. injection He' as <-.
  destruct (switch_context_ok x2 old2 (save_context x old) Hcall2) as (x3 & Hx3 & Hr3 & _).
  { rewrite Hdi. by eapply context_at_ext. }
  { split_and!; [done|intros s; by rewrite Hseg|]. cbn. rewrite fxrstor_fxsave by done. eauto. }
  exists x3. split; [done|]. destruct Hr3 as [Rr Rs Ri Rf Rc Rx]. split; [done|]. split.
  { intros r. rewrite Rr. destruct (decide (r = RSP)) as [->|Hne].
    2: { destruct r; [reflexivity|reflexivity|reflexivity|reflexivity|reflexivity|reflexivity|by destruct Hne|reflexivity..]. }
    cbn [context_reg save_context rsp]. apply wrap_small. unfold unsigned. lia. }
  split; [intros s; by rewrite Rs, Hseg|]. split; [by rewrite Rf|]. split; [by rewrite Rc|].
  cbn in Rx. rewrite fxrstor_fxsave in Rx by done. congruence.
Qed.

(** The first switch to a new task starts [task_init] with the function
    of the task, its id and its argument in the registers of the calling
    convention, with interrupts enabled, and with a stack pointer in the stack of the
    task that is aligned as after a call. *)
Theorem new_task_starts (x : Machine) (old : Context) (td : TaskData) (kcs kss stack id arg : Z) (priority : Priority) (entry : TaskEntryPoint) :
  16 <= stack -> stack + DEFAULT_STACK_SIZE < 2 ^ 64 -> u16 kcs -> u16 kss -> selector_ok CS kcs = true -> selector_ok SS kss = true ->
  task_new (m_cr3 x) (Some kcs) (Some kss) stack id priority entry arg = Some td -> call x old -> context_at (mem x) (regs x RDI) (td_ctx td) ->
  exists x1, exec switch_context x = Some x1 /\ m_rip x1 = task_init entry /\ regs x1 RDI = task_function entry /\ regs x1 RSI = id /\
    regs x1 RDX = arg /\ Z.testbit (m_rflags x1) 9 = true /\ segs x1 CS = kcs /\ segs x1 SS = kss /\ regs x1 RSP mod 16 = 8 /\
    stack + DEFAULT_STACK_SIZE - 24 < regs x1 RSP <= stack + DEFAULT_STACK_SIZE - 8.
Proof.
  intros Hs Hs' Hkcs Hkss Hsc Hss Hnew Hcall Hat.
  destruct (task_new_ok (m_cr3 x) kcs kss stack id priority entry arg Hs Hs') as
    (td' & Hnew' & _ & _ & _ & _ & E1 & E2 & E3 & E4 & E5 & E6 & E7 & E8 & E9 & E10 & E11 & E12).
  rewrite Hnew in Hnew'. injection Hnew' as <-.
  destruct (switch_context_ok x old (td_ctx td) Hcall Hat) as (x1 & Hx1 & Hr & _).
  { split_and!; [done| |rewrite E11; apply fxrstor_initial]. destruct selector_null as [Hfs Hgs]. intros []; unfold context_seg, low16.
    - by rewrite E3, Z.mod_small.
    - by rewrite E4, Z.mod_small.
    - by rewrite E5.
    - by rewrite E6. }
  exists x1. split; [done|]. destruct Hr as [Rr Rs Ri Rf _ _]. rewrite !Rr, !Rs, Ri, Rf. unfold context_seg, low16. cbn [context_reg].
  rewrite E2, E3, E4, E7, E8, E9, E10, E12, (Z.mod_small kcs), (Z.mod_small kss) by done. do 7 (split; [reflexivity|]).
  split; Z.to_euclidean_division_equations; lia.
Qed.

End machine.

(** ** A processor and two tasks *)

Module Demo.

(** A floating point unit with the register [MXCSR] *)
Definition Mxcsr : Type := { v : Z | unsignedb 32 v = true }.
Definition demo_fxsave (f : Mxcsr) (l : list Z) : list Z := if (28 <=? length l)%nat then upd l 24 (to_le_bytes 4 (proj1_sig f)) else l.
Definition demo_fxrstor (l : list Z) : option Mxcsr :=
  match decide (unsignedb 32 (from_le_bytes (sub l 24 4)) = true) with left p => Some (exist _ _ p) | right _ => None end.

Lemma demo_fxrstor_fxsave f l : length l = 512%nat -> demo_fxrstor (demo_fxsave f l) = Some f.
Proof.
  intros Hl. destruct f as [v Hv]. unfold demo_fxsave, demo_fxrstor. rewrite Hl. cbn [Nat.leb proj1_sig].
  assert (E : from_le_bytes (sub (upd l 24 (to_le_bytes 4 v)) 24 4) = v).
  { rewrite sub_upd_same_n by (rewrite ?length_to_le_bytes; lia). apply from_to_le_bytes. unfold unsignedb in Hv. lia. }
  destruct (decide _) as [p|n]; [|by rewrite E in n]. f_equal. by apply (sig_eq_pi _).
Qed.

#[export] Instance processor : Processor.
Proof.
  refine {| FX := Mxcsr; fxsave := demo_fxsave; fxrstor := demo_fxrstor;
            selector_ok := fun s v => match s with CS => v =? 8 | SS => v =? 16 | _ => v =? 0 end |}.
  - intros x l. unfold demo_fxsave. destruct (Nat.leb_spec 28 (length l)); [|done]. apply length_upd; rewrite ?length_to_le_bytes; lia.
  - intros x l Hl. unfold demo_fxsave. destruct (Nat.leb_spec 28 (length l)); [|done]. apply Forall_upd; [done|apply to_le_bytes_ok].
  - apply demo_fxrstor_fxsave.
  - done.
  - by eexists.
Defined.

(** The contexts of two tasks at 0x1000 and 0x2000, the stack of the first one below
    0x9000, the stack of the second one, a new task, at 0x100000. *)
Definition entry : TaskEntryPoint := {| task_init := 0x400000; task_function := 0x400100 |}.
Definition task : option TaskData := task_new 0x7000 (Some 8) (Some 16) 0x100000 1 L1 entry 42.
Definition next : Context := default uninitialized (td_ctx <$> task).

Definition context_bytes (c : Context) : list Z :=
  mjoin (to_le_bytes 8 <$> words c) ++ fxsave_area c ++ [Z.b2z (saved c)].

Definition memory : Z -> Z :=
  store64 (store (store (fun _ => 0) 0x1000 (context_bytes uninitialized)) 0x2000 (context_bytes next)) 0x9000 0x401234.

Definition mxcsr : Mxcsr := exist _ 0x1f80 eq_refl.

Definition machine : Machine :=
  {| regs := fun r => match r with RDI => 0x2000 | RSI => 0x1000 | RSP => 0x9000 | r => Z.of_nat (reg_code r) end;
     segs := fun s => match s with CS => 8 | SS => 16 | _ => 0 end;
     m_rip := 0x402000; m_rflags := 0x46; m_cr3 := 0x7000;
     fx := (mxcsr : @FX processor); mem := memory |}.

Ltac find_context :=
  split; [|split; vm_compute; reflexivity];
  let i := fresh in let w := fresh in let Hi := fresh in
  intros i w Hi; do 24 (destruct i as [|i]; [injection Hi as <-; vm_compute; reflexivity|]); discriminate Hi.

Lemma demo_old : context_at (mem machine) 0x1000 uninitialized.
Proof. find_context. Qed.

Lemma demo_next : context_at (mem machine) 0x2000 next.
Proof. find_context. Qed.

Lemma demo_machine_ok : machine_ok machine.
Proof.
  split; [by intros []|by intros []|done|done|]. cbn [mem machine]. unfold memory. apply store64_bytes, store_bytes; [apply store_bytes|].
  - intros a. done.
  - apply (bool_decide_eq_true_1 _). vm_compute. reflexivity.
  - apply (bool_decide_eq_true_1 _). vm_compute. reflexivity.
Qed.

Lemma demo_call : call machine uninitialized.
Proof.
  split; [apply demo_machine_ok| | | |apply demo_old]; cbn [regs machine].
  1,2: unfold context_place; split_and!; [lia|lia|done|lia|lia|lia]. lia.
Qed.

Lemma demo_resumable : resumable machine next.
Proof. split_and!; [done|by intros []|by eexists]. Qed.

End Demo.

(** ** Witnesses *)

#[local] Existing Instance Demo.processor.

Lemma switch_context_hands_over_witness :
  exists x1, exec switch_context Demo.machine = Some x1 /\ resumed x1 Demo.next /\
    context_at (mem x1) 0x1000 (save_context Demo.machine uninitialized).
Proof.
  destruct (switch_context_hands_over Demo.machine uninitialized Demo.next Demo.demo_call Demo.demo_next Demo.demo_resumable) as (x1 & H1 & H2 & H3 & _).
  exists x1. exact (conj H1 (conj H2 H3)).
Defined.

(** Later the second task goes back to the first one. *)
Definition demo_back (x1 : Machine) : Machine :=
  {| regs := fun r => match r with RDI => 0x1000 | RSI => 0x2000 | RSP => 0x1ff000 | _ => 0 end;
     segs := segs Demo.machine; m_rip := 0; m_rflags := 2; m_cr3 := m_cr3 Demo.machine; fx := fx Demo.machine; mem := mem x1 |}.

Lemma switch_context_returns_witness :
  exists x1 x3, exec switch_context Demo.machine = Some x1 /\ exec switch_context (demo_back x1) = Some x3 /\ m_rip x3 = 0x401234 /\
    regs x3 RSP = 0x9008 /\ regs x3 RBX = 3 /\ m_rflags x3 = 0x46.
Proof.
  destruct (switch_context_ok Demo.machine uninitialized Demo.next Demo.demo_call Demo.demo_next Demo.demo_resumable) as (x1 & H1 & _ & _ & H3).
  assert (Hc : call (demo_back x1) Demo.next).
  { split; cbn [regs demo_back].
    - pose proof (mok_mem x1 (switch_context_width _ _ Demo.demo_machine_ok H1)) as Hm. clear H1 H3. split; [by intros []|by intros []|done|done|exact Hm].
    - unfold context_place. split_and!; [lia|lia|done|lia|lia|lia].
    - unfold context_place. split_and!; [lia|lia|done|lia|lia|lia].
    - lia.
    - eapply context_at_ext; [|exact Demo.demo_next]. intros a Ha. cbn [mem demo_back]. apply H3; cbn [regs Demo.machine]; lia. }
  destruct (switch_context_returns Demo.machine x1 (demo_back x1) uninitialized Demo.next Demo.next) as (x3 & Hx3 & Hip & Hr & _ & Hf & _).
  - exact Demo.demo_call.
  - exact Demo.demo_next.
  - exact Demo.demo_resumable.
  - exact H1.
  - reflexivity.
  - by intros [].
  - exact Hc.
  - reflexivity.
  - reflexivity.
  - intros a _. reflexivity.
  - exists x1, x3. split; [exact H1|]. split; [exact Hx3|]. rewrite Hip, !Hr, Hf. split_and!; vm_compute; reflexivity.
Defined.

Lemma new_task_starts_witness :
  exists x1, exec switch_context Demo.machine = Some x1 /\ m_rip x1 = 0x400000 /\ regs x1 RDI = 0x400100 /\ regs x1 RSI = 1 /\ regs x1 RDX = 42.
Proof.
  destruct Demo.task as [td|] eqn:Htd; [|by vm_compute in Htd].
  destruct (new_task_starts Demo.machine uninitialized td 8 16 0x100000 1 42 L1 Demo.entry) as (x1 & H1 & H2 & H3 & H4 & H5 & _).
  - lia.
  - done.
  - done.
  - done.
  - reflexivity.
  - reflexivity.
  - exact Htd.
  - exact Demo.demo_call.
  - pose proof Demo.demo_next as Hn. unfold Demo.next in Hn. rewrite Htd in Hn. exact Hn.
  - exists x1. exact (conj H1 (conj H2 (conj H3 (conj H4 H5)))).
Defined.

(** ** The stack behind the mark

    Another processor that waits for the mark resumes the saved task while the frame
    for [iret] is on its stack. What the task pushes there becomes the context of the
    first processor. *)
Definition demo_other (m : Z -> Z) : Machine :=
  {| regs := fun r => match r with RDI => 0x1000 | RSI => 0x3000 | RSP => 0xa000 | _ => 0 end;
     segs := segs Demo.machine; m_rip := 0; m_rflags := 2; m_cr3 := m_cr3 Demo.machine; fx := fx Demo.machine; mem := m |}.

Definition demo_race : option (Z * Z * Z) :=
  a ← exec (switch_save ++ switch_frame) Demo.machine;
  b ← exec switch_context (demo_other (mem a));
  let pushed := foldr push b [0x666; 8; 2; 0; 16; 0] in
  a1 ← exec switch_restore (set_mem (mem pushed) a);
  Some (m_rip b, regs b RSP, m_rip a1).

Lemma iret_frame_overwritten : demo_race = Some (0x401234, 0x9008, 0x666) /\ rip Demo.next = 0x400000.
Proof. split; vm_compute; reflexivity. Qed.
