(* ===== verification/Interrupts.v ===== *)
(** * Interrupt controllers (src/ors-kernel/src/interrupts.rs, x64.rs and acpi.rs)

    The registers of the local APIC and of the I/O APIC, the wait on the ACPI timer,
    the interrupt descriptor table and the initialization that routes interrupts to
    it. The hardware is a state with ports and memory-mapped registers. *)

From stdpp Require Import gmap strings.
From S2P Require Import Prelude Hardware.
Local Open Scope Z_scope.
Local Open Scope rust_scope.

(** ** What the ACPI tables say *)

Record Apic := { local_apic_address : Z; io_apics : list Z }.
Record PmTimer := { pm_port : Z; system_io : bool; bit_width : Z; supports_32bit : bool }.

(** [PLATFORM_INFO]; the last component is the LAPIC id of the boot processor, [None] as long as
    [SYSTEM_INFO] is not set. *)
Record PlatformInfo := { interrupt_model : option Apic; pm_timer_info : option PmTimer; boot_lapic_id : option Z }.

Section code.
Context {H : Type} {HP : PortIO H} {HM : Mmio H}.
Local Abbreviation IM := (M H string).

Definition apic_info (p : PlatformInfo) : IM Apic := munwrap (interrupt_model p).
Definition pm_timer (p : PlatformInfo) : IM PmTimer := munwrap (pm_timer_info p).

Definition PM_TIMER_FREQ : Z := 3579545.

(** [while cond(time.read()) {}]; the fuel bounds the reads. *)
Fixpoint spin_while (fuel : nat) (port : Z) (cond : Z -> bool) : IM unit :=
  match fuel with
  | O => mdiverge
  | S fuel => v <- inp 32 port;; if cond v then spin_while fuel port cond else ret tt
  end.

Definition wait_milliseconds_with_pm_timer (fuel : nat) (p : PlatformInfo) (msec : Z) : IM unit :=
  t <- pm_timer p;;
  massert (system_io t);;;
  massert (bit_width t =? 32);;;
  let port := wrap 16 (pm_port t) in
  start <- inp 32 port;;
  n <- munwrap (mul_checked 64 PM_TIMER_FREQ msec);;
  let end_ := wrap 32 (start + wrap 32 (n / 1000)) in
  let end_ := if supports_32bit t then end_ else Z.land end_ 0x00ffffff in
  (if end_ <? start then spin_while fuel port (fun v => start <=? v) else ret tt);;;
  spin_while fuel port (fun v => v <? end_).

(** ** The local APIC *)

Inductive LApicReg := APIC_ID | VER | TPR | EOI | SVR | ICRLO | ICRHI | TIMER | PCINT | LINT0 | LINT1 | ERROR | TICR | TCCR | TDCR.

(** The offsets in bytes of the accessors of [LApic]. *)
Definition reg_offset (reg : LApicReg) : Z :=
  match reg with
  | APIC_ID => 0x20 | VER => 0x30 | TPR => 0x80 | EOI => 0xb0 | SVR => 0xf0
  | ICRLO => 0x300 | ICRHI => 0x310 | TIMER => 0x320 | PCINT => 0x340 | LINT0 => 0x350 | LINT1 => 0x360 | ERROR => 0x370
  | TICR => 0x380 | TCCR => 0x390 | TDCR => 0x3e0
  end.

(** [read] and [write]: the pointer is to words of 4 bytes. *)
Definition lapic_read (ptr : Z) (reg : LApicReg) : IM Z := read_volatile (ptr + 4 * (reg_offset reg / 4)).
Definition lapic_write (ptr : Z) (reg : LApicReg) (value : Z) : IM unit := write_volatile (ptr + 4 * (reg_offset reg / 4)) value.

Definition apic_id (ptr : Z) : IM Z := v <- lapic_read ptr APIC_ID;; ret (Z.shiftr v 24).

(** ** The I/O APIC *)

(** The fields [reg] and [data] of [IoApicMmio]. *)
Definition io_read (ptr reg : Z) : IM Z := write_volatile ptr reg;;; read_volatile (ptr + 16).
Definition io_write (ptr reg value : Z) : IM unit := write_volatile ptr reg;;; write_volatile (ptr + 16) value.

Definition redirection_table_at (ptr index : Z) : IM Z :=
  lo <- io_read ptr (0x10 + 2 * index);;
  hi <- io_read ptr (0x10 + 2 * index + 1);;
  ret (Z.lor lo (Z.shiftl hi 32)).

Definition set_redirection_table_at (ptr index value : Z) : IM unit :=
  io_write ptr (0x10 + 2 * index) (wrap 32 value);;;
  io_write ptr (0x10 + 2 * index + 1) (wrap 32 (Z.shiftr value 32)).

(** ** The interrupt descriptor table *)

Definition TIMER_FREQ : Z := 250.
Definition PIC_8259_IRQ_OFFSET : Z := 32.
Definition IRQ_TIMER : Z := PIC_8259_IRQ_OFFSET + 0.
Definition IRQ_KBD : Z := PIC_8259_IRQ_OFFSET + 1.
Definition IRQ_COM1 : Z := PIC_8259_IRQ_OFFSET + 4.
Definition VIRTIO_BLOCK_IRQ_OFFSET : Z := PIC_8259_IRQ_OFFSET + 16.

Inductive Handler := breakpoint_handler | page_fault_handler | double_fault_handler | timer_handler | kbd_handler | com1_handler | virtio_block_handler (n : Z).

Record IdtEntry := { handler : Handler; ist : option Z; interrupts_disabled : bool }.

Definition get_virtio_block_handler (index : Z) : option Handler := if (0 <=? index) && (index <? 8) then Some (virtio_block_handler index) else None.

Definition gate (h : Handler) : IdtEntry := {| handler := h; ist := None; interrupts_disabled := true |}.

Fixpoint virtio_gates (is_ : list Z) (idt : gmap Z IdtEntry) : option (gmap Z IdtEntry) :=
  match is_ with
  | [] => Some idt
  | i :: is_ => h ← get_virtio_block_handler i; virtio_gates is_ (<[VIRTIO_BLOCK_IRQ_OFFSET + i := gate h]> idt)
  end.

(** [prepare_idt]; breakpoints, page faults and double faults are the vectors 3, 14
    and 8. *)
Definition prepare_idt : option (gmap Z IdtEntry) :=
  let idt := <[3 := gate breakpoint_handler]> ∅ in
  let idt := <[14 := gate page_fault_handler]> idt in
  let idt := <[8 := {| handler := double_fault_handler; ist := Some 0; interrupts_disabled := true |}]> idt in
  let idt := <[IRQ_TIMER := gate timer_handler]> idt in
  let idt := <[IRQ_KBD := gate kbd_handler]> idt in
  let idt := <[IRQ_COM1 := gate com1_handler]> idt in
  virtio_gates (seqZ 0 8) idt.

Definition virtio_block_irq (index : Z) : option Z := if index <? 8 then Some (VIRTIO_BLOCK_IRQ_OFFSET + index) else None.

(** What the handlers of interrupts do, in order. *)
Inductive Action := Tick | Elapse | Yield | AcceptKbd (byte : Z) | AcceptCom1 (byte : Z) | CollectBlock (n : Z) | EndOfInterrupt.

(** [byte]: what the keyboard or the serial port reads. *)
Definition handle (h : Handler) (byte : Z) : list Action :=
  match h with
  | timer_handler => [Tick; Elapse; EndOfInterrupt; Yield]
  | kbd_handler => [AcceptKbd byte; EndOfInterrupt]
  | com1_handler => [AcceptCom1 byte; EndOfInterrupt]
  | virtio_block_handler n => [CollectBlock n; EndOfInterrupt]
  | _ => []
  end.

(** ** Initialization *)

Definition disable_pic_8259 : IM unit := outp 8 0xa1 0xff;;; outp 8 0x21 0xff.

Definition ENABLE : Z := 0x100.
Definition X1 : Z := 11.
Definition PERIODIC : Z := 0x20000.
Definition MASKED : Z := 0x10000.
Definition BCAST : Z := 0x80000.
Definition INIT : Z := 0x500.
Definition LEVEL : Z := 0x8000.
Definition DELIVS : Z := 0x1000.
Definition DISABLED : Z := 0x10000.

(** [while (LAPIC.icrlo() & DELIVS) != 0 {}] *)
Fixpoint wait_delivery (fuel : nat) (lapic : Z) : IM unit :=
  match fuel with
  | O => mdiverge
  | S fuel => v <- lapic_read lapic ICRLO;; if Z.land v DELIVS =? 0 then ret tt else wait_delivery fuel lapic
  end.

Definition u32_MAX : Z := 2 ^ 32 - 1.

Definition initialize_local_apic (fuel : nat) (p : PlatformInfo) (lapic : Z) : IM unit :=
  lapic_write lapic SVR (Z.lor ENABLE 0xff);;;
  lapic_write lapic TDCR X1;;;
  lapic_write lapic TIMER MASKED;;;
  lapic_write lapic TICR u32_MAX;;;
  wait_milliseconds_with_pm_timer fuel p 100;;;
  t <- lapic_read lapic TCCR;;
  d <- munwrap (sub_checked 32 u32_MAX t);;
  measured_lapic_timer_freq <- munwrap (mul_checked 32 d 10);;
  lapic_write lapic TICR 0;;;
  lapic_write lapic TDCR X1;;;
  lapic_write lapic TIMER (Z.lor PERIODIC IRQ_TIMER);;;
  lapic_write lapic TICR (measured_lapic_timer_freq / TIMER_FREQ);;;
  lapic_write lapic LINT0 MASKED;;;
  lapic_write lapic LINT1 MASKED;;;
  v <- lapic_read lapic VER;;
  (if 4 <=? Z.land (Z.shiftr v 16) 0xff then lapic_write lapic PCINT MASKED else ret tt);;;
  lapic_write lapic EOI 0;;;
  lapic_write lapic ICRHI 0;;;
  lapic_write lapic ICRLO (Z.lor (Z.lor BCAST INIT) LEVEL);;;
  wait_delivery fuel lapic;;;
  lapic_write lapic TPR 0.

Fixpoint mask_all (ioapic : Z) (is_ : list Z) : IM unit :=
  match is_ with
  | [] => ret tt
  | i :: is_ => set_redirection_table_at ioapic i (Z.lor DISABLED (PIC_8259_IRQ_OFFSET + i));;; mask_all ioapic is_
  end.

(** The [unwrap] on [Cpu::boot_strap().lapic_id()] is an [Err], other panics are [Panic]. *)
Definition initialize_io_apic (p : PlatformInfo) : IM unit :=
  a <- apic_info p;;
  ioapic <- munwrap (head (io_apics a));;
  v <- io_read ioapic 0x01;;
  let max_intr := Z.land (Z.shiftr v 16) 0xff in
  mask_all ioapic (seqZ 0 max_intr);;;
  id <- mexpect "Cpu::lapic_id is called before cpu::initialize" (boot_lapic_id p);;
  let bsp := wrap 64 (Z.shiftl id 56) in
  set_redirection_table_at ioapic (IRQ_KBD - PIC_8259_IRQ_OFFSET) (Z.lor (Z.lor IRQ_KBD bsp) LEVEL);;;
  set_redirection_table_at ioapic (IRQ_COM1 - PIC_8259_IRQ_OFFSET) (Z.lor (Z.lor IRQ_COM1 bsp) LEVEL).

(** [initialize]; the result is the table that [IDT.load] makes active. *)
Definition initialize (fuel : nat) (p : PlatformInfo) : IM (gmap Z IdtEntry) :=
  idt <- munwrap prepare_idt;;
  disable_pic_8259;;;
  a <- apic_info p;;
  initialize_local_apic fuel p (local_apic_address a);;;
  initialize_io_apic p;;;
  ret idt.
End code.

(** ** The hardware *)

(** The bits of a register of the redirection table that software sets: all of the low
    register but the two that report the delivery, and the destination in the high
    one. *)
Definition rte_mask (reg : Z) : Z := if Z.even reg then 0x1afff else 0xff000000.

(** An I/O APIC at [ia], whose registers are selected by the word at its address and
    accessed by the word 16 bytes above. [max_entry]: the index of the last entry of
    the table, which the version register reports. [rte]: the bits that software set
    in a register of the table. *)
Class IoApicDevice (H : Type) {HM : Mmio H} (ia max_entry : Z) := {
  rte : H -> Z -> Z;
  rte_write h reg v q : 0x10 <= reg <= 0x11 + 2 * max_entry -> u32 v ->
    rte (mmio_write (ia + 16) v (mmio_write ia reg h)) q = if decide (q = reg) then Z.land v (rte_mask reg) else rte h q;
  version_read h : exists v h', mmio_read (ia + 16) (mmio_write ia 0x01 h) = (v, h') /\ Z.land (Z.shiftr v 16) 0xff = max_entry /\ forall q, rte h' q = rte h q;
}.

(** A timer of [w] bits at a port. [pm_clock]: the time in a unit of which a tick of
    the timer has [res]; every read takes some time, at most [step] ticks. *)
Class PmTimerDevice (H : Type) {HP : PortIO H} (port w res step : Z) := {
  pm_clock : H -> Z;
  pm_clock_nonneg h : 0 <= pm_clock h;
  pm_read h : exists h', port_read 32 port h = ((pm_clock h / res) mod 2 ^ w, h') /\ pm_clock h < pm_clock h' /\ pm_clock h' / res <= pm_clock h / res + step;
}.

(** ** Lemmas: the I/O APIC *)

Section IoApicLemmas.
Context {H : Type} {HP : PortIO H} {HM : Mmio H} {ia max_entry : Z} {HD : IoApicDevice H ia max_entry}.

Definition low (h : H) (i : Z) : Z := rte h (0x10 + 2 * i).
Definition high (h : H) (i : Z) : Z := rte h (0x10 + 2 * i + 1).

Lemma wrap32_u32 v : u32 (wrap 32 v).
Proof. apply wrap_unsigned. lia. Qed.

Lemma rte_mask_low i : rte_mask (0x10 + 2 * i) = 0x1afff.
Proof. unfold rte_mask. replace (Z.even (0x10 + 2 * i)) with true; [done|]. symmetry. apply Z.even_spec. exists (8 + i). lia. Qed.

Lemma rte_mask_high i : rte_mask (0x10 + 2 * i + 1) = 0xff000000.
Proof. unfold rte_mask. rewrite <- Z.negb_odd. replace (Z.odd (0x10 + 2 * i + 1)) with true; [done|]. symmetry. apply Z.odd_spec. exists (8 + i). lia. Qed.

Lemma set_redirection_spec i v h : 0 <= i <= max_entry -> exists h', set_redirection_table_at ia i v h = (Ok tt, h') /\
  low h' i = Z.land (wrap 32 v) 0x1afff /\ high h' i = Z.land (wrap 32 (Z.shiftr v 32)) 0xff000000 /\ forall j, j <> i -> low h' j = low h j /\ high h' j = high h j.
Proof.
  intros Hi. unfold set_redirection_table_at, io_write, write_volatile, mbnd. eexists. split; [reflexivity|]. unfold low, high.
  pose proof (wrap32_u32 v) as H1. pose proof (wrap32_u32 (Z.shiftr v 32)) as H2. rewrite !rte_write by (done || lia). rewrite rte_mask_low, rte_mask_high.
  rewrite decide_False by lia. rewrite decide_True by lia. rewrite decide_True by lia. split; [done|]. split; [done|].
  intros j Hne. rewrite !rte_write by (done || lia). rewrite !decide_False by lia. done.
Qed.

(** Masked, or routed to a vector of a processor: the fields of an entry. *)
Definition masked (h : H) (i : Z) : Prop := Z.testbit (low h i) 16 = true.
Definition routes (h : H) (i vector cpu : Z) : Prop := low h i mod 256 = vector /\ Z.testbit (low h i) 16 = false /\ high h i / 2 ^ 24 = cpu.

Lemma mask_all_spec (n : nat) : forall i h, 0 <= i -> i + Z.of_nat n <= max_entry + 1 -> exists h', mask_all ia (seqZ i (Z.of_nat n)) h = (Ok tt, h') /\
  (forall j, i <= j < i + Z.of_nat n -> masked h' j) /\ forall j, ~ (i <= j < i + Z.of_nat n) -> low h' j = low h j /\ high h' j = high h j.
Proof.
  induction n as [|n IH]; intros i h Hi Hn.
  { exists h. split; [done|]. split; [lia|]. done. }
  rewrite Nat2Z.inj_succ, seqZ_cons by lia. replace (Z.pred (Z.succ (Z.of_nat n))) with (Z.of_nat n) by lia. replace (Z.succ i) with (i + 1) by lia. cbn [mask_all].
  destruct (set_redirection_spec i (Z.lor DISABLED (PIC_8259_IRQ_OFFSET + i)) h) as (h1 & E1 & Hlow & _ & Hout); [lia|].
  destruct (IH (i + 1) h1) as (h2 & E2 & Hm & Ho); [lia|lia|]. exists h2. unfold mbnd. rewrite E1, E2. split; [done|]. split.
  - intros j Hj. destruct (decide (j = i)) as [->|Hne]; [|apply Hm; lia]. unfold masked. destruct (Ho i) as [-> _]; [lia|]. rewrite Hlow. unfold wrap.
    rewrite Z.land_spec, Z.mod_pow2_bits_low by lia. rewrite Z.lor_spec. done.
  - intros j Hn'. destruct (Ho j) as [-> ->]; [lia|]. apply Hout; lia.
Qed.

(** The entries for the keyboard and the serial port. *)
Lemma route_value irq id : 0 <= irq < 256 -> 0 <= id < 256 ->
  let v := Z.lor (Z.lor irq (wrap 64 (Z.shiftl id 56))) LEVEL in wrap 32 v = irq + 0x8000 /\ wrap 32 (Z.shiftr v 32) = id * 2 ^ 24.
Proof.
  intros Hirq Hid v. assert (Hv : v = irq + 0x8000 + id * 2 ^ 56).
  { unfold v. rewrite (wrap_small 64) by (rewrite Z.shiftl_mul_pow2 by lia; unfold unsigned; lia). rewrite <- Z.lor_assoc, (Z.lor_comm (Z.shiftl id 56)), Z.lor_assoc.
    assert (Hl : Z.lor irq LEVEL = irq + 0x8000) by (change LEVEL with (Z.shiftl 1 15); rewrite (lor_low_high irq 1 15) by lia; lia). rewrite Hl. apply lor_low_high; lia. }
  rewrite Hv. unfold wrap. split.
  - replace (irq + 0x8000 + id * 2 ^ 56) with (irq + 0x8000 + id * 2 ^ 24 * 2 ^ 32) by lia. rewrite Z.mod_add by lia. apply Z.mod_small. lia.
  - rewrite Z.shiftr_div_pow2 by lia. replace (irq + 0x8000 + id * 2 ^ 56) with (irq + 0x8000 + id * 2 ^ 24 * 2 ^ 32) by lia. rewrite Z.div_add by lia. rewrite (Z.div_small (irq + 0x8000)) by lia.
    apply Z.mod_small. lia.
Qed.

Lemma route_spec i irq id h : 0 <= i <= max_entry -> 0 <= irq < 256 -> 0 <= id < 256 -> exists h',
  set_redirection_table_at ia i (Z.lor (Z.lor irq (wrap 64 (Z.shiftl id 56))) LEVEL) h = (Ok tt, h') /\ routes h' i irq id /\
  forall j, j <> i -> low h' j = low h j /\ high h' j = high h j.
Proof.
  intros Hi Hirq Hid. destruct (set_redirection_spec i (Z.lor (Z.lor irq (wrap 64 (Z.shiftl id 56))) LEVEL) h Hi) as (h' & E & Hl & Hh & Ho). exists h'. split; [done|]. split; [|done].
  destruct (route_value irq id Hirq Hid) as [E1 E2]. unfold routes. rewrite Hl, Hh, E1, E2. split; [|split].
  - change 256 with (2 ^ 8). rewrite <- Z.land_ones by lia. rewrite <- Z.land_assoc. change (Z.land 0x1afff (Z.ones 8)) with (Z.ones 8). rewrite Z.land_ones by lia.
    replace 0x8000 with (128 * 2 ^ 8) by lia. rewrite Z.mod_add by lia. apply Z.mod_small. lia.
  - rewrite Z.land_spec, (bits_above (irq + 0x8000) 16) by lia. done.
  - change 0xff000000 with (Z.shiftl (Z.ones 8) 24). rewrite <- Z.shiftl_mul_pow2, <- Z.shiftl_land, Z.land_ones, Z.shiftl_mul_pow2 by lia. rewrite Z.div_mul by lia. apply Z.mod_small. lia.
Qed.
End IoApicLemmas.

(** ** Lemmas: the descriptor table *)

(** The vector of a handler. *)
Definition vector_of (h : Handler) : Z :=
  match h with
  | breakpoint_handler => 3 | double_fault_handler => 8 | page_fault_handler => 14
  | timer_handler => IRQ_TIMER | kbd_handler => IRQ_KBD | com1_handler => IRQ_COM1
  | virtio_block_handler n => VIRTIO_BLOCK_IRQ_OFFSET + n
  end.

Definition idt_table : gmap Z IdtEntry := default ∅ prepare_idt.

Lemma prepare_idt_ok : prepare_idt = Some idt_table.
Proof. by vm_compute. Qed.

Lemma idt_entries v e : idt_table !! v = Some e -> interrupts_disabled e = true /\ vector_of (handler e) = v.
Proof.
  assert (Hall : map_Forall (fun v e => interrupts_disabled e = true /\ vector_of (handler e) = v) idt_table) by (apply (bool_decide_unpack _); by vm_compute).
  apply Hall.
Qed.

Lemma idt_block n irq : 0 <= n -> virtio_block_irq n = Some irq -> idt_table !! irq = Some (gate (virtio_block_handler n)).
Proof.
  intros Hn Hirq. unfold virtio_block_irq in Hirq. destruct (n <? 8) eqn:H8; [|done]. injection Hirq as <-.
  assert (Hc : n = 0 \/ n = 1 \/ n = 2 \/ n = 3 \/ n = 4 \/ n = 5 \/ n = 6 \/ n = 7) by lia. destruct Hc as [-> |[-> |[-> |[-> |[-> |[-> |[-> | -> ]]]]]]]; by vm_compute.
Qed.

(** ** Lemmas: waiting *)

Section PmLemmas.
Context {H : Type} {HP : PortIO H} {HM : Mmio H} {port w res step : Z} {HD : PmTimerDevice H port w res step}.

Definition pm_time (h : H) : Z := pm_clock h / res.

(** Reading until the time [e]. *)
Lemma spin_until (cond : Z -> bool) e (n : nat) : 0 < res -> 0 <= step -> forall h, pm_time h < e + step -> (forall t, pm_time h <= t < e -> cond (t mod 2 ^ w) = true) ->
  (forall t, e <= t < e + step -> cond (t mod 2 ^ w) = false) -> Z.max 1 (e * res - pm_clock h + 1) <= Z.of_nat n ->
  exists t h', spin_while n port cond h = (Ok tt, h') /\ e <= t < e + step /\ pm_time h <= t /\ t <= pm_time h' <= t + step.
Proof.
  intros Hres Hstep. induction n as [|n IH]; intros h Hh Ht Hf Hn; [lia|]. cbn [spin_while]. unfold mbnd, inp. destruct (pm_read h) as (h1 & -> & Hc & Hh1). fold (pm_time h) in Hh1 |- *. fold (pm_time h1) in Hh1.
  assert (Hmono : pm_time h <= pm_time h1) by (apply Z.div_le_mono; lia). destruct (decide (pm_time h < e)) as [Hlt|].
  - rewrite Ht by lia. assert (pm_clock h < e * res) by (apply Z.lt_nge; intros Hge; rewrite Z.mul_comm in Hge; apply Z.div_le_lower_bound in Hge; [unfold pm_time in Hlt; lia|done]).
    destruct (IH h1) as (t & h' & E & Het & Ht1 & Hh'); [lia|intros; apply Ht; lia|done|lia|]. exists t, h'. split; [exact E|]. split; [done|]. split; [lia|done].
  - rewrite Hf by lia. exists (pm_time h), h1. split; [done|]. split; [lia|]. split; [lia|done].
Qed.

Lemma cycle_mod (c k t : Z) : 0 < w -> c = 2 ^ w * k -> c <= t < c + 2 ^ w -> t mod 2 ^ w = t - c.
Proof. intros Hw -> Ht. symmetry. apply (Z.mod_unique_pos _ _ k); lia. Qed.
End PmLemmas.

Definition pm_ticks (msec : Z) : Z := PM_TIMER_FREQ * msec / 1000.

(** The end of the wait as the code computes it. *)
Lemma pm_end (s32 : bool) (w start n : Z) : w = (if s32 then 32 else 24) -> 0 <= start < 2 ^ w -> 0 <= n < 2 ^ w ->
  (if s32 then wrap 32 (start + wrap 32 n) else Z.land (wrap 32 (start + wrap 32 n)) 0x00ffffff) = (start + n) mod 2 ^ w.
Proof.
  intros Hw Hs Hn. rewrite (wrap_small 32 n) by (unfold unsigned; destruct s32; subst w; lia). destruct s32; subst w; [done|].
  rewrite (wrap_small 32) by (unfold unsigned; lia). change 0x00ffffff with (Z.ones 24). apply Z.land_ones. lia.
Qed.

(** The loops of the wait, after a first read at [t0]. *)
Lemma wait_loops {H : Type} {HP : PortIO H} {HM : Mmio H} {port w res step : Z} {HD : PmTimerDevice H port w res step} (fuel : nat) (n t0 : Z) (h : H) :
  0 < w -> 0 < res -> 0 < step -> 0 < n -> n + 3 * step <= 2 ^ w -> (t0 + n) mod 2 ^ w + step <= 2 ^ w -> n * res < Z.of_nat fuel -> 0 <= t0 <= pm_time h -> pm_time h <= t0 + step ->
  let start := t0 mod 2 ^ w in let end_ := (t0 + n) mod 2 ^ w in
  exists t h', ((if end_ <? start then spin_while fuel port (fun v => start <=? v) else ret tt);;; spin_while fuel port (fun v => v <? end_)) h = (Ok tt, h') /\
    n <= t - t0 < n + 3 * step /\ t <= pm_time h' <= t + step.
Proof.
  intros Hw Hres Hst Hn Hns Hwin Hfuel Ht0 Hh start end_. pose proof (Z.div_mod t0 (2 ^ w) ltac:(lia)) as Hdm. pose proof (Z.mod_pos_bound t0 (2 ^ w) ltac:(lia)) as Hmb. fold start in Hdm, Hmb.
  set (k := t0 / 2 ^ w) in *. set (c := 2 ^ w * k) in *.
  assert (Hck : forall g, t0 <= pm_time g -> t0 * res <= pm_clock g) by (intros g Hg; pose proof (Z.mul_div_le (pm_clock g) res Hres); unfold pm_time in Hg; nia).
  destruct (decide (start + n < 2 ^ w)) as [Hnow|Hwrap].
  - assert (Eend : end_ = start + n) by (unfold end_; rewrite (cycle_mod c k); [lia|done|done|lia]). rewrite Eend. replace (start + n <? start) with false by lia. unfold mbnd at 1. cbn [ret].
    fold end_ in Hwin. rewrite Eend in Hwin. pose proof (Hck h (proj2 Ht0)).
    destruct (spin_until (port := port) (w := w) (fun v => v <? start + n) (t0 + n) fuel Hres (Z.lt_le_incl _ _ Hst) h) as (t & h' & E & Het & Hpt & Hh'); [lia| | |lia|].
    + intros t Ht. rewrite (cycle_mod c k) by (done || lia). lia.
    + intros t Ht. rewrite (cycle_mod c k) by (done || lia). lia.
    + exists t, h'. split; [exact E|]. split; [lia|done].
  - assert (Eend : end_ = start + n - 2 ^ w) by (unfold end_; rewrite (cycle_mod (c + 2 ^ w) (k + 1)); [lia|done|unfold c; lia|lia]). fold end_ in Hwin. rewrite Eend in Hwin |- *.
    replace (start + n - 2 ^ w <? start) with true by lia. pose proof (Hck h (proj2 Ht0)). assert ((c + 2 ^ w) * res <= (t0 + n) * res) by (apply Z.mul_le_mono_nonneg_r; lia).
    destruct (spin_until (port := port) (w := w) (fun v => start <=? v) (c + 2 ^ w) fuel Hres (Z.lt_le_incl _ _ Hst) h) as (t & h1 & E1 & Het & Hpt & Hh1); [lia| | |lia|].
    + intros t Ht. rewrite (cycle_mod c k) by (done || lia). lia.
    + intros t Ht. rewrite (cycle_mod (c + 2 ^ w) (k + 1)) by (unfold c in *; lia). lia.
    + unfold mbnd at 1. rewrite E1. pose proof (Hck h1 ltac:(lia)). pose proof (Z.mul_div_le (pm_clock h1) res Hres). fold (pm_time h1) in *.
      assert (Z.max (t0 + n) (pm_time h1) * res = Z.max ((t0 + n) * res) (res * pm_time h1)) by (rewrite <- Z.mul_max_distr_nonneg_r by lia; f_equal; lia).
      destruct (spin_until (port := port) (w := w) (fun v => v <? start + n - 2 ^ w) (Z.max (t0 + n) (pm_time h1)) fuel Hres (Z.lt_le_incl _ _ Hst) h1) as (t2 & h2 & E2 & Het2 & Hpt2 & Hh2); [lia| | |lia|].
      * intros u Hu. rewrite (cycle_mod (c + 2 ^ w) (k + 1)) by (unfold c in *; lia). lia.
      * intros u Hu. rewrite (cycle_mod (c + 2 ^ w) (k + 1)) by (unfold c in *; lia). lia.
      * exists t2, h2. split; [exact E2|]. split; [lia|done].
Qed.

(** The whole initialization of the I/O APIC. *)
Lemma initialize_io_apic_spec {H : Type} {HP : PortIO H} {HM : Mmio H} {ia max_entry : Z} {HD : IoApicDevice H ia max_entry} (p : PlatformInfo) (a : Apic) (id : Z) (h : H) :
  interrupt_model p = Some a -> head (io_apics a) = Some ia -> boot_lapic_id p = Some id -> 0 <= id < 256 -> 4 <= max_entry ->
  exists h', initialize_io_apic p h = (Ok tt, h') /\ routes h' 1 IRQ_KBD id /\ routes h' 4 IRQ_COM1 id /\
    (forall i, 0 <= i < max_entry -> i <> 1 -> i <> 4 -> masked h' i) /\ (forall i, max_entry <= i -> i <> 4 -> low h' i = low h i /\ high h' i = high h i).
Proof.
  intros Ha Hia Hid Hidr Hmax. unfold initialize_io_apic, apic_info, io_read, write_volatile, read_volatile, mbnd. rewrite Ha. cbn [munwrap ret]. rewrite Hia. cbn [munwrap ret].
  destruct (version_read h) as (v & h1 & -> & -> & Hsame).
  destruct (mask_all_spec (Z.to_nat max_entry) 0 h1) as (h2 & E2 & Hm & Ho2); [lia|lia|]. rewrite Z2Nat.id in E2, Hm, Ho2 by lia. rewrite E2, Hid. cbn [mexpect ret].
  destruct (route_spec 1 IRQ_KBD id h2) as (h3 & E3 & R3 & O3); [lia|done|done|]. replace (IRQ_KBD - PIC_8259_IRQ_OFFSET) with 1 by done. rewrite E3.
  destruct (route_spec 4 IRQ_COM1 id h3) as (h4 & E4 & R4 & O4); [lia|done|done|]. replace (IRQ_COM1 - PIC_8259_IRQ_OFFSET) with 4 by done. rewrite E4.
  exists h4. split; [reflexivity|]. split; [|split; [done|]; split].
  - destruct (O4 1) as [E5 E6]; [lia|]. unfold routes in *. by rewrite E5, E6.
  - intros i Hi Hi1 Hi4. unfold masked. destruct (O4 i) as [-> _]; [done|]. destruct (O3 i) as [-> _]; [done|]. apply Hm. lia.
  - intros i Hi Hi4. destruct (O4 i) as [-> ->]; [done|]. destruct (O3 i) as [-> ->]; [lia|]. destruct (Ho2 i) as [-> ->]; [lia|]. unfold low, high. by rewrite !Hsame.
Qed.

(** ** Lemmas: no use of an unset static *)

Section no_error.
Context {H : Type} {HP : PortIO H} {HM : Mmio H}.

Definition no_error {A} (m : M H string A) : Prop := forall h e, (m h).1 <> Err e.

Lemma no_error_bind {A B} (m : M H string A) (k : A -> M H string B) : no_error m -> (forall a, no_error (k a)) -> no_error (mbnd m k).
Proof. intros Hm Hk h e. unfold mbnd. specialize (Hm h e). destruct (m h) as [[a|e'| |] h']; [apply Hk|..]; cbn in *; congruence. Qed.

Lemma no_error_unwrap {A} (o : option A) : no_error (munwrap o).
Proof. by destruct o. Qed.

Lemma no_error_ret {A} (a : A) : no_error (ret a).
Proof. done. Qed.

Lemma no_error_assert b : no_error (massert b).
Proof. by destruct b. Qed.

Lemma no_error_mmio_read p : no_error (read_volatile p).
Proof. intros h e. unfold read_volatile. by destruct (mmio_read p h). Qed.

Lemma no_error_port_read w p : no_error (inp w p).
Proof. intros h e. unfold inp. by destruct (port_read w p h). Qed.

Lemma no_error_mmio_write p v : no_error (write_volatile p v).
Proof. done. Qed.

Lemma no_error_port_write w p v : no_error (outp w p v).
Proof. done. Qed.

Create HintDb no_error.
Hint Resolve no_error_unwrap no_error_ret no_error_assert no_error_mmio_read no_error_mmio_write no_error_port_read no_error_port_write : no_error.

Ltac no_errors := repeat (first [solve [auto with no_error]|apply no_error_bind; [|intros ?]|progress cbv zeta|case_match]).

Lemma no_error_spin fuel port cond : no_error (spin_while fuel port cond).
Proof. induction fuel as [|fuel IH]; [done|]. cbn [spin_while]. apply no_error_bind; [auto with no_error|]. intros v. by destruct (cond v). Qed.

Lemma no_error_delivery fuel lapic : no_error (wait_delivery fuel lapic).
Proof. induction fuel as [|fuel IH]; [done|]. cbn [wait_delivery]. apply no_error_bind; [apply no_error_mmio_read|]. intros v. by destruct (_ =? 0). Qed.

Hint Resolve no_error_spin no_error_delivery : no_error.

Lemma no_error_pm_wait fuel p msec : no_error (wait_milliseconds_with_pm_timer fuel p msec).
Proof. unfold wait_milliseconds_with_pm_timer, pm_timer. no_errors. Qed.

Lemma no_error_mask ioapic l : no_error (mask_all ioapic l).
Proof. induction l as [|i l IH]; [done|]. cbn [mask_all]. unfold set_redirection_table_at, io_write. no_errors. Qed.

Hint Resolve no_error_pm_wait no_error_mask : no_error.

(** With [SYSTEM_INFO] set, [initialize] has no use of an unset static. *)
Lemma initialize_set fuel p : is_Some (boot_lapic_id p) -> no_error (initialize fuel p).
Proof.
  intros [id Hid]. unfold initialize, disable_pic_8259, apic_info, initialize_local_apic, lapic_read, lapic_write, initialize_io_apic, io_read, set_redirection_table_at, io_write, apic_info.
  rewrite Hid. no_errors; apply no_error_ret.
Qed.

End no_error.

(** ** Properties *)

(** [C37]. Interrupts reach their handlers. The keyboard and the serial port are routed
    to the boot processor, every other line below the last one that the controller
    reports is masked, the vectors of these lines and of the block devices are those of
    their handlers, no two vectors have the same handler, and all handlers run with
    interrupts disabled. *)
Theorem irq_routing {H : Type} {HP : PortIO H} {HM : Mmio H} {ia max_entry : Z} {HD : IoApicDevice H ia max_entry} (p : PlatformInfo) (a : Apic) (id : Z) (h : H) :
  interrupt_model p = Some a -> head (io_apics a) = Some ia -> boot_lapic_id p = Some id -> 0 <= id < 256 -> 4 <= max_entry ->
  (exists h', initialize_io_apic p h = (Ok tt, h') /\ routes h' 1 IRQ_KBD id /\ routes h' 4 IRQ_COM1 id /\ forall i, 0 <= i < max_entry -> i <> 1 -> i <> 4 -> masked h' i) /\
  exists idt, prepare_idt = Some idt /\
    idt !! IRQ_TIMER = Some (gate timer_handler) /\ idt !! IRQ_KBD = Some (gate kbd_handler) /\ idt !! IRQ_COM1 = Some (gate com1_handler) /\
    (forall n irq, 0 <= n -> virtio_block_irq n = Some irq -> idt !! irq = Some (gate (virtio_block_handler n))) /\
    (forall v e, idt !! v = Some e -> interrupts_disabled e = true) /\
    (forall v w e f, idt !! v = Some e -> idt !! w = Some f -> handler e = handler f -> v = w).
Proof.
  intros Ha Hia Hid Hidr Hmax. split.
  - destruct (initialize_io_apic_spec p a id h Ha Hia Hid Hidr Hmax) as (h' & E & R1 & R4 & Hm & _). by exists h'.
  - exists idt_table. split; [apply prepare_idt_ok|]. split; [done|]. split; [done|]. split; [done|]. split; [apply idt_block|]. split.
    + intros v e Hv. apply (idt_entries v e Hv).
    + intros v w e f Hv Hw Hh. rewrite <- (proj2 (idt_entries v e Hv)), <- (proj2 (idt_entries w f Hw)). by rewrite Hh.
Qed.

(** Waiting on the ACPI timer waits: it ends, not before the requested number
    of ticks has passed and less than three reads later, also when the counter of 24 or
    32 bits wraps around meanwhile. The end must be a read away from the wrap
    of the counter, since the loop could miss it otherwise. *)
Theorem pm_wait_elapsed {H : Type} {HP : PortIO H} {HM : Mmio H} (p : PlatformInfo) (tm : PmTimer) (msec res step : Z) (w := if supports_32bit tm then 32 else 24)
    {HD : PmTimerDevice H (wrap 16 (pm_port tm)) w res step} (fuel : nat) (h : H) :
  pm_timer_info p = Some tm -> system_io tm = true -> bit_width tm = 32 -> 0 < res -> 0 < step -> 0 < msec -> 1 <= pm_ticks msec -> pm_ticks msec + 3 * step <= 2 ^ w ->
  (pm_time h + pm_ticks msec) mod 2 ^ w + step <= 2 ^ w -> pm_ticks msec * res < Z.of_nat fuel ->
  exists t h', wait_milliseconds_with_pm_timer fuel p msec h = (Ok tt, h') /\
    pm_ticks msec <= t - pm_time h < pm_ticks msec + 3 * step /\ t <= pm_time h' <= t + step.
Proof.
  intros Hp Hio Hbw Hres Hst Hms Hn Hns Hwin Hfuel. assert (Hw : w = 32 \/ w = 24) by (unfold w; destruct (supports_32bit tm); tauto).
  unfold wait_milliseconds_with_pm_timer, pm_timer. rewrite Hp. unfold mbnd at 1. cbn [munwrap ret]. rewrite Hio, Hbw. unfold mbnd at 1. cbn [massert ret]. unfold mbnd at 1. cbn [Z.eqb Pos.eqb massert ret].
  unfold mbnd at 1. unfold inp. destruct (pm_read h) as (h1 & -> & Hc & Hh1). fold (pm_time h) in Hh1 |- *. fold (pm_time h1) in Hh1.
  assert (H0 : 0 <= pm_time h <= pm_time h1) by (split; [apply Z.div_pos; [apply pm_clock_nonneg|done]|apply Z.div_le_mono; lia]).
  assert (Hmul : mul_checked 64 PM_TIMER_FREQ msec = Some (PM_TIMER_FREQ * msec)).
  { apply checked_Some. unfold unsigned. pose proof (Z.div_mod (PM_TIMER_FREQ * msec) 1000 ltac:(lia)). pose proof (Z.mod_pos_bound (PM_TIMER_FREQ * msec) 1000 ltac:(lia)).
    unfold pm_ticks in *. assert (2 ^ w <= 2 ^ 32) by (destruct Hw as [-> | ->]; lia). unfold PM_TIMER_FREQ in *. lia. }
  unfold mbnd at 1. rewrite Hmul. cbn [munwrap ret]. fold (pm_ticks msec). set (n := pm_ticks msec) in *.
  assert (Hpow : 0 < 2 ^ w) by (destruct Hw as [-> | ->]; lia). pose proof (Z.mod_pos_bound (pm_time h) (2 ^ w) Hpow) as Hmb.
  rewrite (pm_end (supports_32bit tm) w (pm_time h mod 2 ^ w) n) by (done || lia). rewrite Zplus_mod_idemp_l.
  apply (wait_loops fuel n (pm_time h) h1); lia.
Qed.

(** ** A concrete machine *)

(** An I/O APIC with 24 entries at [0xfec00000] and a timer of 24 bits at the port
    [0x608], a read of which takes a third of a tick. *)
Module Machine.
Record Pc := { selected : Z; table : Z -> Z; clock : Z }.

#[local] Instance pc_ports : PortIO Pc := {|
  port_read := fun w port s => if decide (w = 32 /\ port = 0x608) then ((Z.max 0 (clock s) / 3) mod 2 ^ 24, {| selected := selected s; table := table s; clock := Z.max 0 (clock s) + 1 |}) else (0, s);
  port_write := fun _ _ _ s => s
|}.

#[local] Instance pc_mmio : Mmio Pc := {|
  mmio_read := fun a s => if decide (a = 0xfec00010 /\ selected s = 1) then (0x170011, s) else (0, s);
  mmio_write := fun a v s =>
    if decide (a = 0xfec00000) then {| selected := v; table := table s; clock := clock s |}
    else if decide (a = 0xfec00010) then {| selected := selected s; table := fun q => if decide (q = selected s) then Z.land v (rte_mask q) else table s q; clock := clock s |}
    else s
|}.

#[local] Instance pc_io_apic : IoApicDevice Pc 0xfec00000 23.
Proof.
  refine {| rte := table |}.
  - intros h reg v q Hr Hv. cbn [mmio_write pc_mmio]. rewrite decide_False, !decide_True by lia. cbn [table selected]. case_decide as Hq; [|done]. by subst.
  - intros h. cbn [mmio_write mmio_read pc_mmio]. rewrite (decide_True (P := 0xfec00000 = 0xfec00000)) by lia. cbn [selected]. rewrite decide_True by lia. eexists _, _. split; [reflexivity|]. split; [done|]. intros q. done.
Defined.

#[local] Instance pc_timer : PmTimerDevice Pc 0x608 24 3 1.
Proof.
  refine {| pm_clock := fun s => Z.max 0 (clock s) |}.
  - intros h. lia.
  - intros h. cbn [port_read pc_ports]. rewrite decide_True by lia. eexists. split; [reflexivity|]. cbn [clock]. split; [lia|]. rewrite (Z.max_r 0 (Z.max 0 (clock h) + 1)) by lia.
    rewrite <- (Z.div_add (Z.max 0 (clock h)) 1 3) by lia. apply Z.div_le_mono; lia.
Defined.

Definition tables : PlatformInfo := {|
  interrupt_model := Some {| local_apic_address := 0xfee00000; io_apics := [0xfec00000] |};
  pm_timer_info := Some {| pm_port := 0x608; system_io := true; bit_width := 32; supports_32bit := false |};
  boot_lapic_id := Some 0
|}.

(** Shortly before the timer wraps. *)
Definition pc : Pc := {| selected := 0; table := fun _ => 0; clock := 3 * (2 ^ 24 - 10) |}.
End Machine.

Lemma irq_routing_witness : exists h', @initialize_io_apic Machine.Pc Machine.pc_mmio Machine.tables Machine.pc = (Ok tt, h') /\
  @routes Machine.Pc Machine.pc_mmio 0xfec00000 23 Machine.pc_io_apic h' 1 33 0 /\ @masked Machine.Pc Machine.pc_mmio 0xfec00000 23 Machine.pc_io_apic h' 7.
Proof.
  destruct (@irq_routing Machine.Pc Machine.pc_ports Machine.pc_mmio 0xfec00000 23 Machine.pc_io_apic Machine.tables {| local_apic_address := 0xfee00000; io_apics := [0xfec00000] |} 0 Machine.pc)
    as [(h' & E & R1 & _ & Hm) _]; [done|done|done|lia|lia|]. exists h'. split; [exact E|]. split; [exact R1|]. apply Hm; lia.
Defined.

(** A wait of a millisecond over the wrap of the timer. *)
Lemma pm_wait_elapsed_witness : exists t h', @wait_milliseconds_with_pm_timer Machine.Pc Machine.pc_ports (Z.to_nat 12000) Machine.tables 1 Machine.pc = (Ok tt, h') /\ 2 ^ 24 - 10 + 3579 <= t < 2 ^ 24 - 10 + 3582.
Proof.
  destruct (@pm_wait_elapsed Machine.Pc Machine.pc_ports Machine.pc_mmio Machine.tables {| pm_port := 0x608; system_io := true; bit_width := 32; supports_32bit := false |} 1 3 1 Machine.pc_timer
    (Z.to_nat 12000) Machine.pc) as (t & h' & E & Ht & _); [done|done|done|lia|lia|lia|by vm_compute|by vm_compute|by vm_compute|rewrite Z2Nat.id by lia; by vm_compute|].
  exists t, h'. split; [exact E|]. change (pm_ticks 1) with 3579 in Ht. change (@pm_time _ _ _ _ _ _ Machine.pc_timer Machine.pc) with (2 ^ 24 - 10) in Ht. lia.
Defined.

(** The last entry of the table is skipped: [max_intr] is its index, and the loop ends
    before it. *)
Lemma last_line_not_masked {H : Type} {HP : PortIO H} {HM : Mmio H} {ia max_entry : Z} {HD : IoApicDevice H ia max_entry} (p : PlatformInfo) (a : Apic) (id : Z) (h : H) :
  interrupt_model p = Some a -> head (io_apics a) = Some ia -> boot_lapic_id p = Some id -> 0 <= id < 256 -> 4 < max_entry ->
  exists h', initialize_io_apic p h = (Ok tt, h') /\ low h' max_entry = low h max_entry /\ high h' max_entry = high h max_entry.
Proof.
  intros Ha Hia Hid Hidr Hmax. destruct (initialize_io_apic_spec p a id h Ha Hia Hid Hidr (Z.lt_le_incl _ _ Hmax)) as (h' & E & _ & _ & _ & Ho). exists h'. split; [exact E|]. apply Ho; lia.
Qed.
