(* ===== verification/Paging.v ===== *)
(** * Identity mapping (src/ors-kernel/src/paging.rs)

    The page tables that [initialize_identity_mapping] builds, and the address
    conversions that rely on them. Entries of page tables are those of the crate
    [x86_64]; the walk through the tables is the one of the processor. *)

From S2P Require Import Prelude Hardware.
Local Open Scope Z_scope.

(** ** Page table entries *)

(** [x64::PageTableEntry]: an address and flags. [set_addr] panics for an address
    that is not aligned to a page. *)
Class PageTableEntries := {
  Entry : Type;
  unused : Entry;
  set_addr : Z -> Z -> option Entry;
  entry_addr : Entry -> Z;
  entry_flags : Entry -> Z;
  set_addr_ok a f : 0 <= a < 2 ^ 52 -> (4096 | a) -> 0 <= f < 512 ->
    exists e, set_addr a f = Some e /\ entry_addr e = a /\ entry_flags e = f;
  unused_flags : entry_flags unused = 0
}.

Definition PRESENT : Z := 1.
Definition WRITABLE : Z := 2.
Definition HUGE_PAGE : Z := 128.
Definition GLOBAL : Z := 256.

Definition Size1GiB : Z := 2 ^ 30.
Definition Size2MiB : Z := 2 ^ 21.

(** ** The tables *)

Section paging.
Context `{HT : PageTableEntries}.

(** The statics, and where they are in memory. *)
Record Tables := { PML4_TABLE : list Entry; PDP_TABLE : list Entry; PAGE_DIRECTORY : list (list Entry) }.

Record Statics := { pml4_at : Z; pdp_at : Z; directory_at : Z }.

Definition empty_tables : Tables :=
  {| PML4_TABLE := replicate 512 unused; PDP_TABLE := replicate 512 unused; PAGE_DIRECTORY := replicate 64 (replicate 512 unused) |}.

(** [phys_frame]: a table at [a] is a frame when it is aligned; otherwise the
    [unwrap] panics. *)
Definition phys_frame (a : Z) : option Z := if a mod 4096 =? 0 then Some a else None.

Definition set_frame (frame flags : Z) : option Entry :=
  if Z.land flags HUGE_PAGE =? 0 then set_addr frame flags else None.

Definition flags : Z := Z.lor (Z.lor PRESENT WRITABLE) GLOBAL.

(** The inner loop: the entries of the directory [i]. *)
Definition fill_directory (i : nat) : option (list Entry) :=
  mapM (fun j => set_addr (Z.of_nat i * Size1GiB + Z.of_nat j * Size2MiB) (Z.lor flags HUGE_PAGE)) (seq 0 512).

Definition fill (s : Statics) (i : nat) (t : Tables) : option Tables :=
  frame ← phys_frame (directory_at s + 4096 * Z.of_nat i);
  e ← set_frame frame flags;
  d ← fill_directory i;
  Some {| PML4_TABLE := PML4_TABLE t; PDP_TABLE := <[i := e]> (PDP_TABLE t); PAGE_DIRECTORY := <[i := d]> (PAGE_DIRECTORY t) |}.

Fixpoint fill_all (s : Statics) (l : list nat) (t : Tables) : option Tables :=
  match l with
  | [] => Some t
  | i :: l => t ← fill s i t; fill_all s l t
  end.

(** Returns the frame for the register CR3; [None] is a panic. *)
Definition initialize_identity_mapping (s : Statics) : option (Z * Tables) :=
  frame ← phys_frame (pdp_at s);
  e ← set_frame frame flags;
  let t := {| PML4_TABLE := <[0%nat := e]> (PML4_TABLE empty_tables); PDP_TABLE := PDP_TABLE empty_tables;
              PAGE_DIRECTORY := PAGE_DIRECTORY empty_tables |} in
  t ← fill_all s (seq 0 64) t;
  cr3 ← phys_frame (pml4_at s);
  Some (cr3, t).

Definition as_virt_addr (addr : Z) : option Z := if addr <? Size1GiB * 64 then Some addr else None.
Definition as_phys_addr (addr : Z) : option Z := if addr <? Size1GiB * 64 then Some addr else None.

(** ** The processor

    The walk of 4-level paging for an address of the lower half. *)

Definition table_at (s : Statics) (t : Tables) (a : Z) : option (list Entry) :=
  if a =? pml4_at s then Some (PML4_TABLE t)
  else if a =? pdp_at s then Some (PDP_TABLE t)
  else if (directory_at s <=? a) && ((a - directory_at s) mod 4096 =? 0) then PAGE_DIRECTORY t !! Z.to_nat ((a - directory_at s) / 4096)
  else None.

(** The entry for the index at bit [k] of the address in the table at [a], if present. *)
Definition lookup_entry (s : Statics) (t : Tables) (a va k : Z) : option Entry :=
  l ← table_at s t a;
  e ← l !! Z.to_nat (va / 2 ^ k mod 512);
  if Z.testbit (entry_flags e) 0 then Some e else None.

Definition huge (e : Entry) : bool := Z.testbit (entry_flags e) 7.

Definition translate (s : Statics) (t : Tables) (cr3 va : Z) : option Z :=
  e4 ← lookup_entry s t cr3 va 39;
  e3 ← lookup_entry s t (entry_addr e4) va 30;
  if huge e3 then Some (entry_addr e3 + va mod 2 ^ 30)
  else
    e2 ← lookup_entry s t (entry_addr e3) va 21;
    if huge e2 then Some (entry_addr e2 + va mod 2 ^ 21)
    else
      e1 ← lookup_entry s t (entry_addr e2) va 12;
      Some (entry_addr e1 + va mod 2 ^ 12).

(** ** Lemmas *)

(** The statics are tables in different pages. *)
Definition statics_ok (s : Statics) : Prop :=
  (4096 | pml4_at s) /\ (4096 | pdp_at s) /\ (4096 | directory_at s) /\
  0 <= pml4_at s < 2 ^ 51 /\ 0 <= pdp_at s < 2 ^ 51 /\ 0 <= directory_at s < 2 ^ 51 /\ pml4_at s <> pdp_at s /\
  (forall i, 0 <= i < 64 -> directory_at s + 4096 * i <> pml4_at s /\ directory_at s + 4096 * i <> pdp_at s).

Lemma phys_frame_ok a : (4096 | a) -> phys_frame a = Some a.
Proof. intros Ha. unfold phys_frame. apply Z.mod_divide in Ha; [|done]. by rewrite Ha. Qed.

Lemma fill_directory_ok i : (i < 64)%nat -> exists d, fill_directory i = Some d /\ length d = 512%nat /\
  forall j, (j < 512)%nat -> exists e, d !! j = Some e /\ entry_addr e = Z.of_nat i * Size1GiB + Z.of_nat j * Size2MiB /\
    entry_flags e = Z.lor flags HUGE_PAGE.
Proof.
  intros Hi.
  assert (Hex : is_Some (fill_directory i)).
  { apply mapM_is_Some, Forall_forall. intros j Hj%elem_of_seq. unfold compose, Size1GiB, Size2MiB.
    destruct (set_addr_ok (Z.of_nat i * 2 ^ 30 + Z.of_nat j * 2 ^ 21) (Z.lor flags HUGE_PAGE)) as (e & -> & _);
      [lia|exists (Z.of_nat i * 2 ^ 18 + Z.of_nat j * 2 ^ 9); lia|done|done]. }
  destruct Hex as [d Hd]. exists d. split; [done|]. apply mapM_Some in Hd. split; [by rewrite <- (Forall2_length _ _ _ Hd), length_seq|].
  intros j Hj. destruct (Forall2_lookup_l _ _ _ j j Hd) as (e & He & Hs); [by apply lookup_seq_lt|]. exists e. split; [done|].
  unfold Size1GiB, Size2MiB in *. destruct (set_addr_ok (Z.of_nat i * 2 ^ 30 + Z.of_nat j * 2 ^ 21) (Z.lor flags HUGE_PAGE)) as (e' & He' & Ha & Hf);
    [lia|exists (Z.of_nat i * 2 ^ 18 + Z.of_nat j * 2 ^ 9); lia|done|]. rewrite He' in Hs. by simplify_eq.
Qed.

(** The directories and their entries in the table above for the indices in [P]. *)
Definition filled (s : Statics) (P : nat -> Prop) (t : Tables) : Prop :=
  length (PDP_TABLE t) = 512%nat /\ length (PAGE_DIRECTORY t) = 64%nat /\
  forall i, (i < 512)%nat ->
    (P i -> exists e d, PDP_TABLE t !! i = Some e /\ entry_addr e = directory_at s + 4096 * Z.of_nat i /\ entry_flags e = flags /\
       PAGE_DIRECTORY t !! i = Some d /\
       forall j, (j < 512)%nat -> exists e, d !! j = Some e /\ entry_addr e = Z.of_nat i * Size1GiB + Z.of_nat j * Size2MiB /\
         entry_flags e = Z.lor flags HUGE_PAGE) /\
    (~ P i -> PDP_TABLE t !! i = Some unused).

Lemma set_frame_ok a : 0 <= a < 2 ^ 52 -> (4096 | a) -> exists e, set_frame a flags = Some e /\ entry_addr e = a /\ entry_flags e = flags.
Proof. intros Ha Hd. unfold set_frame. by apply set_addr_ok. Qed.

Lemma fill_ok s i t P : statics_ok s -> (i < 64)%nat -> filled s P t -> exists t', fill s i t = Some t' /\
  PML4_TABLE t' = PML4_TABLE t /\ filled s (fun j => P j \/ j = i) t'.
Proof.
  intros (_ & _ & [k Hk] & _ & _ & Hr & _) Hi (Hl & Hld & Hf). unfold fill.
  assert (Hdiv : (4096 | directory_at s + 4096 * Z.of_nat i)) by (exists (k + Z.of_nat i); lia).
  rewrite phys_frame_ok by done. cbn [mbind option_bind].
  destruct (set_frame_ok (directory_at s + 4096 * Z.of_nat i)) as (e & -> & Hea & Hef); [lia|done|]. cbn [mbind option_bind].
  destruct (fill_directory_ok i Hi) as (d & -> & _ & Hd). cbn [mbind option_bind].
  eexists. split; [done|]. split; [done|]. unfold filled. cbn [PDP_TABLE PAGE_DIRECTORY].
  split; [by rewrite length_insert|]. split; [by rewrite length_insert|]. intros j Hj. destruct (Hf j Hj) as [H1 H2].
  destruct (decide (j = i)) as [->|Hne].
  - rewrite !list_lookup_insert_eq by lia. split; [|naive_solver]. intros _. by exists e, d.
  - rewrite !list_lookup_insert_ne by done. split; [intros [HP|?]; [by apply H1|done]|]. intros HP. apply H2. naive_solver.
Qed.

Lemma fill_all_ok s l : forall t P, statics_ok s -> Forall (fun i => (i < 64)%nat) l -> filled s P t -> exists t',
  fill_all s l t = Some t' /\ PML4_TABLE t' = PML4_TABLE t /\ filled s (fun j => P j \/ j ∈ l) t'.
Proof.
  induction l as [|i l IH]; intros t P Hs Hl Ht; simpl.
  - exists t. split_and!; [done|done|]. destruct Ht as (? & ? & Hf). split_and!; [done|done|]. intros j Hj. destruct (Hf j Hj) as [H1 H2].
    split; [intros [?|?%elem_of_nil]; [by apply H1|done]|]. intros HP. apply H2. naive_solver.
  - apply Forall_cons in Hl as [Hi Hl]. destruct (fill_ok s i t P Hs Hi Ht) as (t1 & -> & Hp1 & H1). cbn [mbind option_bind].
    destruct (IH t1 _ Hs Hl H1) as (t2 & -> & Hp2 & H2). exists t2. split; [done|]. split; [congruence|].
    destruct H2 as (? & ? & Hf). split_and!; [done|done|]. intros j Hj. destruct (Hf j Hj) as [Ha Hb]. setoid_rewrite elem_of_cons.
    split; [|naive_solver]. intros HP. apply Ha. naive_solver.
Qed.

Lemma empty_filled s e : filled s (fun _ => False)
  {| PML4_TABLE := <[0%nat := e]> (PML4_TABLE empty_tables); PDP_TABLE := PDP_TABLE empty_tables; PAGE_DIRECTORY := PAGE_DIRECTORY empty_tables |}.
Proof.
  split; [apply length_replicate|]. split; [apply length_replicate|]. intros i Hi. split; [done|]. intros _. by apply lookup_replicate_2.
Qed.

(** What [initialize_identity_mapping] leaves. *)
Lemma initialize_ok s : statics_ok s -> exists t, initialize_identity_mapping s = Some (pml4_at s, t) /\
  filled s (fun i => (i < 64)%nat) t /\
  exists e, PML4_TABLE t = <[0%nat := e]> (replicate 512 unused) /\ entry_addr e = pdp_at s /\ entry_flags e = flags.
Proof.
  intros Hs. pose proof Hs as (Hd4 & Hd3 & _ & Hr4 & Hr3 & _). unfold initialize_identity_mapping.
  rewrite (phys_frame_ok (pdp_at s)) by done. cbn [mbind option_bind].
  destruct (set_frame_ok (pdp_at s)) as (e & -> & Hea & Hef); [lia|done|]. cbn [mbind option_bind].
  assert (Hl : Forall (fun i => (i < 64)%nat) (seq 0 64)) by (apply Forall_forall; intros i Hi%elem_of_seq; lia).
  destruct (fill_all_ok s (seq 0 64) _ _ Hs Hl (empty_filled s e)) as (t & -> & Hp & Hf).
  cbn [mbind option_bind]. rewrite phys_frame_ok by done. cbn [mbind option_bind]. exists t. split; [done|]. split; [|by exists e].
  destruct Hf as (? & ? & Hf). split; [done|]. split; [done|]. intros i Hi. destruct (Hf i Hi) as [Ha Hb].
  split; [intros Hlt; apply Ha; right; apply elem_of_seq; lia|]. intros Hge. apply Hb. intros [[]|Hin%elem_of_seq]. lia.
Qed.

Lemma lookup_entry_present s t a va k l e : table_at s t a = Some l -> l !! Z.to_nat (va / 2 ^ k mod 512) = Some e ->
  Z.testbit (entry_flags e) 0 = true -> lookup_entry s t a va k = Some e.
Proof. intros Hl He Hp. unfold lookup_entry. rewrite Hl. cbn [mbind option_bind]. rewrite He. cbn [mbind option_bind]. by rewrite Hp. Qed.

Lemma lookup_entry_unused s t a va k l : table_at s t a = Some l -> l !! Z.to_nat (va / 2 ^ k mod 512) = Some unused ->
  lookup_entry s t a va k = None.
Proof.
  intros Hl He. unfold lookup_entry. rewrite Hl. cbn [mbind option_bind]. rewrite He. cbn [mbind option_bind]. by rewrite unused_flags, Z.bits_0.
Qed.

Lemma table_at_directory s t i d : statics_ok s -> 0 <= i < 64 -> PAGE_DIRECTORY t !! Z.to_nat i = Some d ->
  table_at s t (directory_at s + 4096 * i) = Some d.
Proof.
  intros (_ & _ & _ & _ & _ & _ & _ & Hne) Hi Hd. destruct (Hne i Hi) as [H4 H3]. unfold table_at.
  rewrite (proj2 (Z.eqb_neq _ _) H4), (proj2 (Z.eqb_neq _ _) H3), (proj2 (Z.leb_le _ _)) by lia.
  replace (directory_at s + 4096 * i - directory_at s) with (i * 4096) by lia. rewrite Z.mod_mul, Z.div_mul by done. done.
Qed.

(** The walk through the tables of the identity mapping. *)
Lemma translate_identity s t e va : statics_ok s -> filled s (fun i => (i < 64)%nat) t ->
  PML4_TABLE t = <[0%nat := e]> (replicate 512 unused) -> entry_addr e = pdp_at s -> entry_flags e = flags ->
  0 <= va < 2 ^ 47 -> translate s t (pml4_at s) va = if va <? 2 ^ 36 then Some va else None.
Proof.
  intros Hs (Hl3 & Hld & Hf) Hp4 Hea Hef Hva. pose proof Hs as (_ & _ & _ & _ & _ & _ & H43 & _). unfold translate.
  assert (Ht4 : table_at s t (pml4_at s) = Some (PML4_TABLE t)) by (unfold table_at; by rewrite Z.eqb_refl).
  assert (Ht3 : table_at s t (pdp_at s) = Some (PDP_TABLE t)).
  { unfold table_at. by rewrite (proj2 (Z.eqb_neq (pdp_at s) (pml4_at s))), Z.eqb_refl by done. }
  assert (Hi4 : 0 <= va / 2 ^ 39 < 256) by (split; [apply Z.div_pos; lia|apply Z.div_lt_upper_bound; lia]).
  destruct (decide (va < 2 ^ 39)) as [H39|H39].
  2: { rewrite (lookup_entry_unused _ _ _ _ _ _ Ht4); [cbn [mbind option_bind]; by rewrite (proj2 (Z.ltb_ge _ _)) by lia|].
       assert (1 <= va / 2 ^ 39) by (apply Z.div_le_lower_bound; lia).
       rewrite Z.mod_small, Hp4, list_lookup_insert_ne by lia. apply lookup_replicate_2. lia. }
  rewrite (lookup_entry_present _ _ _ _ _ _ e Ht4); [|rewrite (Z.div_small va), Hp4 by lia; change (Z.to_nat (0 mod 512)) with 0%nat; apply list_lookup_insert_eq; rewrite length_replicate; lia|by rewrite Hef].
  cbn [mbind option_bind]. rewrite Hea.
  assert (Hi3 : 0 <= va / 2 ^ 30 < 512) by (split; [apply Z.div_pos; lia|apply Z.div_lt_upper_bound; lia]).
  destruct (Hf (Z.to_nat (va / 2 ^ 30)) ltac:(lia)) as [Hin Hout].
  destruct (Z.ltb_spec va (2 ^ 36)) as [H36|H36].
  - assert (Hi64 : va / 2 ^ 30 < 64) by (apply Z.div_lt_upper_bound; lia).
    destruct Hin as (e3 & d & He3 & Ha3 & Hf3 & Hd & Hent); [lia|].
    rewrite (lookup_entry_present _ _ _ _ _ _ e3 Ht3); [|by rewrite Z.mod_small by lia|by rewrite Hf3]. cbn [mbind option_bind].
    unfold huge at 1. rewrite Hf3. change (Z.testbit flags 7) with false. cbn iota. rewrite Ha3, Z2Nat.id by lia.
    destruct (Hent (Z.to_nat (va / 2 ^ 21 mod 512))) as (e2 & He2 & Ha2 & Hf2); [pose proof (Z.mod_pos_bound (va / 2 ^ 21) 512 eq_refl); lia|].
    rewrite (lookup_entry_present _ _ _ _ _ d e2 (table_at_directory s t (va / 2 ^ 30) d Hs ltac:(lia) Hd)); [|done|by rewrite Hf2].
    cbn [mbind option_bind]. unfold huge. rewrite Hf2. change (Z.testbit (Z.lor flags HUGE_PAGE) 7) with true. cbn iota.
    rewrite Ha2. f_equal. rewrite !Z2Nat.id by (lia || apply Z.mod_pos_bound; lia). unfold Size1GiB, Size2MiB.
    rewrite (Z.div_mod va (2 ^ 21)) at 4 by lia. rewrite (Z.div_mod (va / 2 ^ 21) 512) at 2 by lia. rewrite Z.div_div by lia.
    change (2 ^ 21 * 512) with (2 ^ 30). lia.
  - assert (64 <= va / 2 ^ 30) by (apply Z.div_le_lower_bound; lia).
    by rewrite (lookup_entry_unused _ _ _ _ _ _ Ht3) by (rewrite Z.mod_small by lia; apply Hout; lia).
Qed.

End paging.

(** [KernelAcpiHandler::map_physical_region]: the physical start, the pointer, and
    both sizes of the mapping; [NonNull::new] rejects the address 0. *)
Definition map_physical_region (addr size : Z) : option (Z * Z * Z * Z) :=
  ptr ← as_virt_addr addr;
  if ptr =? 0 then None else Some (addr, ptr, size, size).

(** ** Properties *)

(** [C31]. The page tables that the kernel builds map every address of the lower
    half exactly as [as_phys_addr] says: the first 64 GiB to themselves and nothing
    else; [as_virt_addr] returns an address at which the memory is mapped. *)
Theorem identity_mapping `{PageTableEntries} (s : Statics) :
  statics_ok s -> exists t, initialize_identity_mapping s = Some (pml4_at s, t) /\
    (forall va, 0 <= va < 2 ^ 47 -> translate s t (pml4_at s) va = as_phys_addr va) /\
    (forall pa va, 0 <= pa -> as_virt_addr pa = Some va -> translate s t (pml4_at s) va = Some pa).
Proof.
  intros Hs. destruct (initialize_ok s Hs) as (t & Hi & Hf & e & H4 & Ha & Hfl). exists t. split; [done|].
  assert (Ht : forall va, 0 <= va < 2 ^ 47 -> translate s t (pml4_at s) va = if va <? 2 ^ 36 then Some va else None) by
    (intros va; by apply translate_identity with e). split; [done|].
  intros pa va Hpa. unfold as_virt_addr. destruct (Z.ltb_spec pa (Size1GiB * 64)) as [Hlt|]; [|done]. intros [= <-].
  unfold Size1GiB in Hlt. rewrite Ht by lia. by rewrite (proj2 (Z.ltb_lt _ _)) by lia.
Qed.

(** ** Witnesses *)

Instance entries_model : PageTableEntries.
Proof.
  refine {| Entry := Z; unused := 0; set_addr := fun a f => if a mod 4096 =? 0 then Some (a + f) else None;
            entry_addr := fun e => e / 4096 * 4096; entry_flags := fun e => e mod 4096 |}.
  - intros a f Ha [k ->] Hf. exists (k * 4096 + f). rewrite Z.mod_mul by done. split; [done|].
    rewrite Z.add_comm, Z.div_add, Z.mod_add, Z.div_small, Z.mod_small by lia. lia.
  - done.
Defined.

Definition demo_statics : Statics := {| pml4_at := 0x1000; pdp_at := 0x2000; directory_at := 0x3000 |}.

Lemma demo_statics_ok : statics_ok demo_statics.
Proof.
  unfold statics_ok, demo_statics. cbn [pml4_at pdp_at directory_at].
  split; [by exists 1|]. split; [by exists 2|]. split; [by exists 3|]. split_and!; lia.
Qed.

Lemma identity_mapping_witness : exists t, initialize_identity_mapping demo_statics = Some (0x1000, t) /\
  translate demo_statics t 0x1000 0xabcdef12 = Some 0xabcdef12 /\ translate demo_statics t 0x1000 (2 ^ 36) = None.
Proof.
  destruct (identity_mapping demo_statics demo_statics_ok) as (t & Hi & Ht & _).
  exists t. split; [exact Hi|]. split; [apply (Ht 0xabcdef12); lia|apply (Ht (2 ^ 36)); lia].
Defined.
