(* ===== verification/Allocator.v ===== *)
(** * The heap (src/ors-kernel/src/allocator.rs)

    Allocations of up to 2048 bytes come from free lists of blocks of nine sizes, each
    list linked through the first word of its blocks; larger ones are runs of
    frames. The heap uses a frame manager through the class [FrameManager], of which
    [BitmapFrameManager] is an instance. Memory is bytes, of which a link takes eight. *)

From S2P Require Import Prelude PhysMemory Hardware Paging.
Local Open Scope Z_scope.
Local Open Scope rust_scope.

(** ** Frame managers *)

(** The frames that the identity mapping reaches: 64 GiB of 4096 bytes. *)
Definition MAPPED_FRAMES : Z := 2 ^ 24.

Class FrameManager (FM : Type) := {
  fm_allocate : Z -> FM -> outcome AllocateError Z * FM;
  fm_free : Z -> Z -> FM -> option FM;
  (** A manager of mapped frames, without the frame 0. *)
  fm_ok : FM -> Prop;
  fm_used : FM -> Z -> bool;
  fm_allocate_ok m n : fm_ok m -> 0 < n ->
    match fm_allocate n m with
    | (Ok f, m') => fm_ok m' /\ 0 < f /\ f + n <= MAPPED_FRAMES /\
        (forall g, f <= g < f + n -> fm_used m g = false) /\
        (forall g, fm_used m' g = fm_used m g || bool_decide (f <= g < f + n))
    | (Err _, m') => m' = m
    | _ => False
    end;
  fm_free_ok m f n : fm_ok m -> 0 < n -> (forall g, f <= g < f + n -> fm_used m g = true) ->
    exists m', fm_free f n m = Some m' /\ fm_ok m' /\
      forall g, fm_used m' g = fm_used m g && negb (bool_decide (f <= g < f + n));
}.

(** ** Data *)

Record Layout := { size : Z; align : Z }.

Inductive AllocationMode := Block (index : nat) | Frames (num : Z).

Definition BLOCK_SIZES : list Z := [8; 16; 32; 64; 128; 256; 512; 1024; 2048].

(** [From<Layout>] *)
Definition mode (l : Layout) : option AllocationMode :=
  let sz := Z.max (size l) (align l) in
  match position (fun s => sz <=? s) BLOCK_SIZES with
  | Some index => Some (Block index)
  | None => n ← add_checked 64 sz FRAME_SIZE; n ← sub_checked 64 n 1; Some (Frames (n / FRAME_SIZE))
  end.

Section Heap.
Context {FM : Type} {HFM : FrameManager FM}.

(** [available_blocks], the memory and the frame manager. *)
Record Heap := { available_blocks : list Z; memory : Z -> Z; frames : FM }.

Definition KernelAllocator_new (m : Z -> Z) (fm : FM) : Heap :=
  {| available_blocks := replicate (length BLOCK_SIZES) 0; memory := m; frames := fm |}.

Definition HM (A : Type) : Type := M Heap Empty_set A.

(** [(a as *const u64).read()] *)
Definition read_word (a : Z) (h : Heap) : Z := Ram.load64 (memory h) a.

Definition set_memory (m : Z -> Z) (h : Heap) : Heap :=
  {| available_blocks := available_blocks h; memory := m; frames := frames h |}.

(** [(a as *mut u64).write(v)] *)
Definition write_word (a v : Z) (h : Heap) : Heap := set_memory (Ram.store64 (memory h) a v) h.

Definition set_available (i : nat) (p : Z) (h : Heap) : Heap :=
  {| available_blocks := <[i := p]> (available_blocks h); memory := memory h; frames := frames h |}.

Definition set_frames (fm : FM) (h : Heap) : Heap :=
  {| available_blocks := available_blocks h; memory := memory h; frames := fm |}.

(** ** Operations *)

(** [frame_manager().allocate(num)] and the address of the frame; 0 stands for the
    error. [unwrap] panics for a frame that is not mapped. *)
Definition allocate_frames (num : Z) : HM Z :=
  h <- mget;;
  match fm_allocate num (frames h) with
  | (Ok f, fm) =>
      mput (set_frames fm h);;;
      a <- munwrap (mul_checked 64 f FRAME_SIZE);;
      munwrap (as_virt_addr a)
  | (Err _, fm) => mput (set_frames fm h);;; ret 0
  | (Diverge, _) => mdiverge
  | (Panic, _) => mpanic
  end.

(** The loop over the blocks [i] of a new frame. *)
Fixpoint link_blocks (ptr block_size n : Z) (ixs : list Z) (h : Heap) : Heap :=
  match ixs with
  | [] => h
  | i :: ixs =>
      let current := ptr + i * block_size in
      let next := if i =? n - 1 then 0 else current + block_size in
      link_blocks ptr block_size n ixs (write_word current next h)
  end.

Definition allocate_frame_for_block (index : nat) : HM Z :=
  block_size <- munwrap (BLOCK_SIZES !! index);;
  let num_blocks_per_frame := FRAME_SIZE / block_size in
  ptr <- allocate_frames 1;;
  if ptr =? 0 then ret 0
  else h <- mget;; mput (link_blocks ptr block_size num_blocks_per_frame (seqZ 0 num_blocks_per_frame) h);;; ret ptr.

Definition alloc (l : Layout) : HM Z :=
  md <- munwrap (mode l);;
  match md with
  | Block index =>
      h <- mget;;
      ptr <- munwrap (available_blocks h !! index);;
      ptr <- (if ptr =? 0 then allocate_frame_for_block index else ret ptr);;
      h <- mget;;
      (if ptr =? 0 then ret tt else mput (set_available index (read_word ptr h) h));;;
      ret ptr
  | Frames num => allocate_frames num
  end.

Definition dealloc (ptr : Z) (l : Layout) : HM unit :=
  md <- munwrap (mode l);;
  h <- mget;;
  match md with
  | Block index =>
      next <- munwrap (available_blocks h !! index);;
      mput (set_available index ptr (write_word ptr next h))
  | Frames num =>
      a <- munwrap (as_phys_addr ptr);;
      fm <- munwrap (fm_free (from_phys_addr a) num (frames h));;
      mput (set_frames fm h)
  end.
End Heap.

(** ** The bitmap as a frame manager *)

Definition bitmap_ok (m : BitmapFrameManager) : Prop := wf m /\ 0 < begin_ m /\ end_ m <= MAPPED_FRAMES.

Definition bitmap_used (m : BitmapFrameManager) (g : Z) : bool := (0 <=? g) && (g <? BITS_PER_MAP_LINE * zlen (alloc_map m)) && bit m g.

Lemma bitmap_used_set m m' f n v g : bits_set m m' f n v -> (forall g, f <= g < f + n -> mapped m g) ->
  bitmap_used m' g = if bool_decide (f <= g < f + n) then v else bitmap_used m g.
Proof.
  intros (Hl & _ & _ & _ & Hb) Hm. unfold bitmap_used. rewrite Hl. case_bool_decide as Hg.
  - specialize (Hm g Hg). specialize (Hb g Hm). rewrite decide_True in Hb by done. rewrite Hb. unfold mapped in Hm. by replace ((0 <=? g) && (g <? BITS_PER_MAP_LINE * zlen (alloc_map m))) with true by lia.
  - destruct ((0 <=? g) && (g <? BITS_PER_MAP_LINE * zlen (alloc_map m))) eqn:Hr; [|done]. rewrite Hb by (unfold mapped; lia). by rewrite decide_False.
Qed.

Lemma bitmap_ok_set m m' f n v : bitmap_ok m -> bits_set m m' f n v -> bitmap_ok m'.
Proof. intros (Hw & Hb & He) Hs. split; [by eapply bits_set_wf|]. destruct Hs as (_ & -> & -> & _). done. Qed.

Lemma bitmap_allocate m n : bitmap_ok m -> 0 < n ->
  match allocate m n with
  | (Ok f, m') => bitmap_ok m' /\ 0 < f /\ f + n <= MAPPED_FRAMES /\
      (forall g, f <= g < f + n -> bitmap_used m g = false) /\ (forall g, bitmap_used m' g = bitmap_used m g || bool_decide (f <= g < f + n))
  | (Err _, m') => m' = m
  | _ => False
  end.
Proof.
  intros Hok Hn. pose proof Hok as (Hw & Hb & He). pose proof (allocate_spec m n Hw ltac:(lia)) as Hs. destruct (allocate m n) as [[f|e| |] m']; [|by destruct Hs|done..].
  destruct Hs as ((Hfb & Hfe & Hfree) & Hset & _). assert (Hm : forall g, f <= g < f + n -> mapped m g) by (intros g Hg; apply wf_mapped; [done|lia]).
  split; [by eapply bitmap_ok_set|]. split; [lia|]. split; [lia|]. split.
  - intros g Hg. unfold bitmap_used. by rewrite Hfree, andb_false_r.
  - intros g. rewrite (bitmap_used_set _ _ _ _ _ g Hset Hm). case_bool_decide; by rewrite ?orb_true_r, ?orb_false_r.
Qed.

Lemma bitmap_free m f n : bitmap_ok m -> 0 < n -> (forall g, f <= g < f + n -> bitmap_used m g = true) ->
  exists m', free m f n = Some m' /\ bitmap_ok m' /\ forall g, bitmap_used m' g = bitmap_used m g && negb (bool_decide (f <= g < f + n)).
Proof.
  intros Hok Hn Hu. assert (Hm : forall g, f <= g < f + n -> mapped m g) by (intros g Hg; specialize (Hu g Hg); unfold bitmap_used in Hu; unfold mapped; lia).
  unfold free. destruct (set_bits_spec m f (Z.to_nat n) false) as (m' & -> & Hs); [by rewrite Z2Nat.id by lia|]. rewrite Z2Nat.id in Hs by lia.
  exists m'. split; [done|]. split; [by eapply bitmap_ok_set|]. intros g. rewrite (bitmap_used_set _ _ _ _ _ g Hs Hm). case_bool_decide; by rewrite ?andb_false_r, ?andb_true_r.
Qed.

#[export] Instance bitmap_frames : FrameManager BitmapFrameManager :=
  {| fm_allocate n m := allocate m n; fm_free f n m := free m f n; fm_ok := bitmap_ok; fm_used := bitmap_used;
     fm_allocate_ok := bitmap_allocate; fm_free_ok := bitmap_free |}.

(** ** Specification *)

(** The bytes from [p] to [p + s]. *)
Definition region : Type := Z * Z.

Definition apart (a b : region) : Prop := a.1 + a.2 <= b.1 \/ b.1 + b.2 <= a.1.

Fixpoint all_apart (l : list region) : Prop :=
  match l with [] => True | a :: l => Forall (apart a) l /\ all_apart l end.

(** The bytes that an allocation gets. *)
Definition given (l : Layout) : Z :=
  match mode l with Some (Block i) => default 0 (BLOCK_SIZES !! i) | Some (Frames n) => n * FRAME_SIZE | None => 0 end.

Definition layout_ok (l : Layout) : Prop := 0 < size l < 2 ^ 63 /\ (exists k, 0 <= k < 63 /\ align l = 2 ^ k).

(** The frames that an allocation takes when there is no block for it. *)
Definition frames_for (l : Layout) : Z := match mode l with Some (Frames n) => n | _ => 1 end.

(** The allocations in use: their addresses and layouts. *)
Definition live_regions (live : list (Z * Layout)) : list region := (fun x => (x.1, given x.2)) <$> live.

Definition inside (live : list (Z * Layout)) (a : Z) : Prop := exists p l, (p, l) ∈ live /\ p <= a < p + given l.

Section Reachable.
Context {FM : Type} {HFM : FrameManager FM}.

(** The heap and the allocations in use after any sequence of allocations,
    deallocations of what is in use, and writes of bytes to what is in use. *)
Inductive reachable : Heap (FM := FM) -> list (Z * Layout) -> Prop :=
| reach_new m fm : fm_ok fm -> reachable (KernelAllocator_new m fm) []
| reach_alloc h live l p h' : reachable h live -> layout_ok l -> alloc l h = (Ok p, h') -> reachable h' (if p =? 0 then live else (p, l) :: live)
| reach_dealloc h live1 live2 p l h' : reachable h (live1 ++ (p, l) :: live2) -> dealloc p l h = (Ok tt, h') -> reachable h' (live1 ++ live2)
| reach_write h live a v : reachable h live -> inside live a -> reachable (set_memory (Ram.store (memory h) a [v]) h) live.

(** ** Invariant *)

Fixpoint free_regions (ss : list Z) (fs : list (list Z)) : list region :=
  match ss, fs with
  | s :: ss, f :: fs => ((fun p => (p, s)) <$> f) ++ free_regions ss fs
  | _, _ => []
  end.

(** The blocks of a list are linked in memory. *)
Fixpoint chain (m : Z -> Z) (p : Z) (bs : list Z) : Prop :=
  match bs with
  | [] => p = 0
  | q :: bs => p = q /\ 0 < q < 2 ^ 64 /\ chain m (Ram.load64 m q) bs
  end.

Definition region_ok (h : Heap (FM := FM)) (a : region) : Prop :=
  0 < a.1 /\ 0 < a.2 /\ a.1 + a.2 <= MAPPED_FRAMES * FRAME_SIZE /\ forall g, a.1 < (g + 1) * FRAME_SIZE -> g * FRAME_SIZE < a.1 + a.2 -> fm_used (frames h) g = true.

Record heap_ok (h : Heap) (fs : list (list Z)) (live : list (Z * Layout)) : Prop := {
  heap_frames : fm_ok (frames h);
  heap_lens : length fs = length BLOCK_SIZES /\ length (available_blocks h) = length BLOCK_SIZES;
  heap_chains : forall i p f, available_blocks h !! i = Some p -> fs !! i = Some f -> chain (memory h) p f;
  heap_apart : all_apart (free_regions BLOCK_SIZES fs ++ live_regions live);
  heap_regions : Forall (region_ok h) (free_regions BLOCK_SIZES fs ++ live_regions live);
  heap_blocks : Forall (fun a => a.1 mod a.2 = 0) (free_regions BLOCK_SIZES fs);
  heap_live : Forall (fun x => layout_ok x.2 /\ x.1 mod Z.min (given x.2) FRAME_SIZE = 0) live;
}.
End Reachable.

(** ** Lemmas: regions *)

Lemma apart_sym a b : apart a b -> apart b a.
Proof. unfold apart. tauto. Qed.

Lemma all_apart_app l k : all_apart (l ++ k) <-> all_apart l /\ all_apart k /\ Forall (fun a => Forall (apart a) k) l.
Proof.
  induction l as [|a l IH]; cbn [app all_apart]; [rewrite Forall_nil; tauto|]. rewrite IH, Forall_app, Forall_cons. tauto.
Qed.

#[export] Instance all_apart_perm : Proper (Permutation ==> iff) all_apart.
Proof.
  assert (Himp : forall l k, l ≡ₚ k -> all_apart l -> all_apart k).
  { induction 1 as [|a l k Hp IH|a b l|l k j Hp1 IH1 Hp2 IH2]; cbn [all_apart]; [done| | |by auto].
    - intros [Ha Hl]. split; [by rewrite <- Hp|by apply IH].
    - rewrite !Forall_cons. intros ([Hab Ha] & Hb & Hl). split; [split; [by apply apart_sym|done]|done]. }
  intros l k Hp. split; apply Himp; [done|by symmetry].
Qed.

Lemma free_regions_insert ss : forall fs i s f, ss !! i = Some s -> (i < length fs)%nat ->
  free_regions ss (<[i := f]> fs) ≡ₚ ((fun p => (p, s)) <$> f) ++ free_regions ss (<[i := []]> fs).
Proof.
  induction ss as [|s0 ss IH]; intros [|f0 fs] [|i] s f Hs Hi; cbn [lookup list_lookup length] in *; simplify_eq; try lia; cbn [insert list_insert free_regions].
  - done.
  - rewrite (IH fs i s f) by (done || lia). rewrite !app_assoc. by rewrite (Permutation_app_comm (_ <$> f0)).
Qed.

Lemma free_regions_split ss fs i s f : ss !! i = Some s -> fs !! i = Some f ->
  free_regions ss fs ≡ₚ ((fun p => (p, s)) <$> f) ++ free_regions ss (<[i := []]> fs).
Proof. intros Hs Hf. rewrite <- (free_regions_insert ss fs i s f Hs) by by eapply lookup_lt_Some. by rewrite list_insert_id. Qed.

Lemma free_regions_elem ss : forall fs i s f p, ss !! i = Some s -> fs !! i = Some f -> p ∈ f -> (p, s) ∈ free_regions ss fs.
Proof.
  intros fs i s f p Hs Hf Hp. rewrite (free_regions_split ss fs i s f Hs Hf). apply elem_of_app. left. apply list_elem_of_fmap. by exists p.
Qed.

Lemma chain_same (m m' : Z -> Z) k : (forall p b, p ∈ k -> p <= b < p + 8 -> m' b = m b) -> forall q, chain m q k -> chain m' q k.
Proof.
  induction k as [|b k IH]; intros Hel q Hc; [done|]. cbn [chain] in *. destruct Hc as (-> & Hb & Hc). split; [done|]. split; [done|].
  rewrite (Ram.load64_ext m m' b) by (intros x Hx; by apply (Hel b x); [left|]). apply IH; [|done]. intros p x Hp. apply Hel. by right.
Qed.

Lemma chain_u64 m p k : chain m p k -> u64 p.
Proof. destruct k; cbn [chain]; unfold unsigned; intros; intuition lia. Qed.

(** ** Lemmas: layouts *)

Lemma BLOCK_SIZES_pow i s : BLOCK_SIZES !! i = Some s -> s = 2 ^ (Z.of_nat i + 3) /\ 8 <= s <= 2048 /\ Z.of_nat i < 9.
Proof. intros Hs. do 9 (destruct i as [|i]; [injection Hs as <-; done|]). done. Qed.

Lemma pow2_divide a s j k : 0 <= k -> 0 <= j -> a = 2 ^ k -> s = 2 ^ j -> a <= s -> (a | s).
Proof.
  intros Hk Hj -> -> Hle. apply Z.pow_le_mono_r_iff in Hle; [|lia|lia]. exists (2 ^ (j - k)). rewrite <- Z.pow_add_r by lia. f_equal. lia.
Qed.

(** What an allocation gets: a block that is large and aligned enough, or frames. *)
Lemma mode_spec l : layout_ok l ->
  (exists i s, mode l = Some (Block i) /\ BLOCK_SIZES !! i = Some s /\ given l = s /\ size l <= s /\ (align l | s)) \/
  (exists n, mode l = Some (Frames n) /\ 0 < n < 2 ^ 52 /\ given l = n * FRAME_SIZE /\ size l <= given l /\ 2048 < given l).
Proof.
  intros (Hsz & k & Hk & Ha). assert (Hal : 0 < align l < 2 ^ 63) by (rewrite Ha; split; [apply Z.pow_pos_nonneg; lia|apply Z.pow_lt_mono_r; lia]).
  unfold given, mode. destruct (position _ BLOCK_SIZES) as [i|] eqn:Hp.
  - left. apply position_Some in Hp as (s & Hs & Hle). exists i, s. rewrite Hs. pose proof (BLOCK_SIZES_pow i s Hs). do 3 (split; [done|]). split; [lia|].
    eapply (pow2_divide _ _ (Z.of_nat i + 3) k); [lia|lia|done|tauto|lia].
  - right. assert (H2048 : 2048 < Z.max (size l) (align l)) by (unfold BLOCK_SIZES in Hp; cbn [position] in Hp; repeat (case_match; [done|]); lia).
    unfold add_checked, sub_checked. rewrite checked_Some by (unfold unsigned, FRAME_SIZE; lia). cbn [mbind option_bind]. rewrite checked_Some by (unfold unsigned, FRAME_SIZE; lia).
    cbn [mbind option_bind]. unfold FRAME_SIZE in *. set (x := Z.max (size l) (align l)) in *. exists ((x + 4096 - 1) / 4096).
    pose proof (Z.div_mod (x + 4096 - 1) 4096 ltac:(lia)). pose proof (Z.mod_pos_bound (x + 4096 - 1) 4096 ltac:(lia)). split; [done|]. lia.
Qed.

(** ** Lemmas: the heap *)

Section HeapLemmas.
Context {FM : Type} {HFM : FrameManager FM}.
Implicit Types h : Heap (FM := FM).

Lemma link_blocks_spec ptr s n (k : nat) : 8 <= s -> 0 <= ptr -> ptr + n * s < 2 ^ 64 -> forall i h, 0 <= i -> i + Z.of_nat k <= n -> let h' := link_blocks ptr s n (seqZ i (Z.of_nat k)) h in
  available_blocks h' = available_blocks h /\ frames h' = frames h /\
  (forall j, i <= j < i + Z.of_nat k -> Ram.load64 (memory h') (ptr + j * s) = if j =? n - 1 then 0 else ptr + (j + 1) * s) /\
  (forall a, a < ptr + i * s \/ ptr + (i + Z.of_nat k) * s <= a -> memory h' a = memory h a).
Proof.
  intros Hs Hp Hn. induction k as [|k IH]; intros i h Hi Hk; [by repeat split; intros; try lia|].
  rewrite Nat2Z.inj_succ, <- Z.add_1_l, seqZ_cons by lia. replace (Z.pred (1 + Z.of_nat k)) with (Z.of_nat k) by lia. replace (Z.succ i) with (i + 1) by lia. cbn [link_blocks].
  destruct (IH (i + 1) (write_word (ptr + i * s) (if i =? n - 1 then 0 else ptr + i * s + s) h)) as (Ha & Hf & Hin & Hout); [lia|lia|]. cbv zeta in *.
  split; [done|]. split; [done|]. split.
  - intros j Hj. destruct (decide (j = i)) as [->|Hne]; [|apply Hin; lia]. rewrite (Ram.load64_ext (memory (write_word (ptr + i * s) (if i =? n - 1 then 0 else ptr + i * s + s) h))) by (intros b Hb; apply Hout; nia).
    cbn [write_word set_memory memory]. rewrite Ram.load64_store64 by (unfold unsigned; destruct (i =? n - 1); nia). destruct (i =? n - 1); lia.
  - intros a Hna. rewrite Hout by nia. cbn [write_word set_memory memory]. apply Ram.store64_other. nia.
Qed.

(** The blocks of a frame, linked in order. *)
Definition frame_blocks (ptr s n i : Z) : list Z := (fun j => ptr + j * s) <$> seqZ i (n - i).

Lemma frame_blocks_cons ptr s n i : i < n -> frame_blocks ptr s n i = (ptr + i * s) :: frame_blocks ptr s n (i + 1).
Proof. intros Hi. unfold frame_blocks. rewrite seqZ_cons by lia. cbn [fmap list_fmap]. do 3 f_equal; lia. Qed.

Lemma frame_chain (m : Z -> Z) ptr s n : 0 < ptr -> 0 < s -> ptr + n * s < 2 ^ 64 -> (forall j, 0 <= j < n -> Ram.load64 m (ptr + j * s) = if j =? n - 1 then 0 else ptr + (j + 1) * s) ->
  forall (k : nat) i, 0 <= i -> n - i = Z.of_nat k -> chain m (if i =? n then 0 else ptr + i * s) (frame_blocks ptr s n i).
Proof.
  intros Hp Hs Hlt Hm. induction k as [|k IH]; intros i Hi Hk.
  - replace (i =? n) with true by lia. unfold frame_blocks. replace (n - i) with 0 by lia. done.
  - replace (i =? n) with false by lia. rewrite frame_blocks_cons by lia. cbn [chain]. split; [done|]. split; [nia|]. rewrite Hm by lia.
    specialize (IH (i + 1) ltac:(lia) ltac:(lia)). destruct (i =? n - 1) eqn:E; [replace (i + 1 =? n) with true in IH by lia|replace (i + 1 =? n) with false in IH by lia]; exact IH.
Qed.

(** Regions of frames that were not in use. *)
Lemma fresh_apart h f n a : region_ok h a -> 0 < n -> (forall g, f <= g < f + n -> fm_used (frames h) g = false) -> apart a (f * FRAME_SIZE, n * FRAME_SIZE).
Proof.
  intros (Hp & Hs & _ & Hu) Hn Hf. unfold apart. destruct a as [p s]. cbn [fst snd] in *. unfold FRAME_SIZE in *.
  destruct (decide (p + s <= f * 4096)); [by left|]. destruct (decide (f * 4096 + n * 4096 <= p)); [by right|]. exfalso.
  set (x := Z.max p (f * 4096)). pose proof (Z.div_mod x 4096 ltac:(lia)). pose proof (Z.mod_pos_bound x 4096 ltac:(lia)). set (g := x / 4096) in *.
  assert (Hg : f <= g < f + n) by (unfold x in *; lia). specialize (Hf g Hg). rewrite Hu in Hf; [done|unfold x in *; lia|unfold x in *; lia].
Qed.

Lemma region_ok_mono h h' a : region_ok h a -> (forall g, fm_used (frames h) g = true -> fm_used (frames h') g = true) -> region_ok h' a.
Proof. intros (? & ? & ? & Hu) Hm. split; [done|]. split; [done|]. split; [done|]. intros g Hg1 Hg2. apply Hm. by apply Hu. Qed.

Lemma region_ok_frames h h' a : frames h' = frames h -> region_ok h a -> region_ok h' a.
Proof. intros E Hr. eapply region_ok_mono; [done|]. by rewrite E. Qed.
(** A block moves between a free list and the allocations in use. *)
Lemma regions_move fs i s p f f' live1 live2 l : BLOCK_SIZES !! i = Some s -> fs !! i = Some f -> given l = s -> f ≡ₚ p :: f' ->
  free_regions BLOCK_SIZES fs ++ live_regions (live1 ++ live2) ≡ₚ free_regions BLOCK_SIZES (<[i := f']> fs) ++ live_regions (live1 ++ (p, l) :: live2).
Proof.
  intros Hs Hf Hg Hp. rewrite (free_regions_split BLOCK_SIZES fs i s f Hs Hf), (free_regions_insert BLOCK_SIZES fs i s f' Hs) by by eapply lookup_lt_Some.
  rewrite Hp. unfold live_regions. rewrite !fmap_app. cbn [fmap list_fmap fst snd]. rewrite Hg. solve_Permutation.
Qed.

Lemma chains_insert h (fs : list (list Z)) (i : nat) p f : (forall (j : nat) q k, available_blocks h !! j = Some q -> fs !! j = Some k -> chain (memory h) q k) -> chain (memory h) p f ->
  forall (j : nat) q k, <[i := p]> (available_blocks h) !! j = Some q -> <[i := f]> fs !! j = Some k -> chain (memory h) q k.
Proof.
  intros Hch Hc j q k Hq Hk. destruct (decide (i = j)) as [->|Hne].
  - apply list_lookup_insert_Some in Hq as [(_ & -> & _)|[? _]]; [|done]. by apply list_lookup_insert_Some in Hk as [(_ & -> & _)|[? _]].
  - rewrite list_lookup_insert_ne in Hq by done. rewrite list_lookup_insert_ne in Hk by done. by eapply Hch.
Qed.

Lemma heap_pop h fs live i s p f l : heap_ok h fs live -> BLOCK_SIZES !! i = Some s -> fs !! i = Some (p :: f) -> available_blocks h !! i = Some p -> layout_ok l -> given l = s ->
  heap_ok (set_available i (read_word p h) h) (<[i := f]> fs) ((p, l) :: live).
Proof.
  intros [Hfm [Hl1 Hl2] Hch Hap Hreg Hbl Hlv] Hs Hf Hav Hlo Hg. pose proof (regions_move fs i s p (p :: f) f [] live l Hs Hf Hg ltac:(done)) as Hperm.
  assert (Hp0 : (p, s) ∈ free_regions BLOCK_SIZES fs) by (eapply free_regions_elem; [done|done|by left]). pose proof (BLOCK_SIZES_pow i s Hs).
  split; cbn [set_available available_blocks memory frames].
  - done.
  - by rewrite !length_insert.
  - apply (chains_insert h fs i); [done|]. by destruct (Hch i p _ Hav Hf) as (_ & _ & ?).
  - by rewrite <- Hperm.
  - rewrite <- Hperm. eapply Forall_impl; [done|]. intros a. by apply region_ok_frames.
  - rewrite (free_regions_split BLOCK_SIZES fs i s (p :: f) Hs Hf) in Hbl. rewrite (free_regions_insert BLOCK_SIZES fs i s f Hs) by by eapply lookup_lt_Some.
    cbn [fmap list_fmap app] in Hbl. by apply Forall_cons in Hbl as [_ Hbl].
  - constructor; [|done]. cbn [fst snd]. split; [done|]. rewrite Hg, Z.min_l by (unfold FRAME_SIZE; lia). rewrite Forall_forall in Hbl. by apply (Hbl (p, s)).
Qed.

(** The link of a free block is not in an allocation. *)
Lemma live_not_free h fs live i f p a : heap_ok h fs live -> fs !! i = Some f -> p ∈ f -> p <= a < p + 8 -> ~ inside live a.
Proof.
  intros [Hfm [Hl1 Hl2] Hch Hap Hreg Hbl Hlv] Hf Hp Ha (q & l & Hin & Hr). apply all_apart_app in Hap as (_ & _ & Hap).
  destruct (lookup_lt_is_Some_2 BLOCK_SIZES i) as [s Hs]; [apply lookup_lt_Some in Hf; lia|]. pose proof (BLOCK_SIZES_pow i s Hs).
  rewrite Forall_forall in Hap. pose proof (Hap _ (free_regions_elem _ _ _ _ _ _ Hs Hf Hp)) as Hfa. rewrite Forall_forall in Hfa.
  assert (Hq : (q, given l) ∈ live_regions live) by (apply list_elem_of_fmap; by exists (q, l)). specialize (Hfa _ Hq). unfold apart in Hfa. cbn [fst snd] in *. lia.
Qed.

(** Allocations in use may hold any bytes. *)
Lemma heap_write h fs live m : heap_ok h fs live -> (forall a, ~ inside live a -> m a = memory h a) -> heap_ok (set_memory m h) fs live.
Proof.
  intros Hok Hm. pose proof Hok as [Hfm [Hl1 Hl2] Hch Hap Hreg Hbl Hlv]. split; try done.
  intros i p f Hp Hf. cbn [set_memory memory]. eapply chain_same; [|by eapply Hch]. intros q a Hq Ha. apply Hm. by eapply live_not_free.
Qed.

(** A link in a block in use stays in the block. *)
Lemma word_inside live p l a : (p, l) ∈ live -> 8 <= given l -> p <= a < p + 8 -> inside live a.
Proof. intros Hin Hg Ha. exists p, l. split; [done|]. lia. Qed.

Lemma heap_push h fs live1 live2 i s p f l next : heap_ok h fs (live1 ++ (p, l) :: live2) -> BLOCK_SIZES !! i = Some s -> fs !! i = Some f -> available_blocks h !! i = Some next -> given l = s ->
  heap_ok (set_available i p (write_word p next h)) (<[i := p :: f]> fs) (live1 ++ live2).
Proof.
  intros Hok Hs Hf Hav Hg. pose proof (BLOCK_SIZES_pow i s Hs) as Hpow.
  assert (Hin : forall a, p <= a < p + 8 -> inside (live1 ++ (p, l) :: live2) a) by (intros a; apply (word_inside _ p l); [apply elem_of_app; right; by left|lia]).
  assert (Hout : forall a, ~ inside (live1 ++ (p, l) :: live2) a -> Ram.store64 (memory h) p next a = memory h a).
  { intros a Ha. apply Ram.store64_other. destruct (decide (p <= a < p + 8)); [by destruct Ha; apply Hin|lia]. }
  pose proof (heap_write h fs _ _ Hok Hout) as [Hfm [Hl1 Hl2] Hch Hap Hreg Hbl Hlv]. pose proof (heap_chains _ _ _ Hok i next f Hav Hf) as Hnext.
  assert (Hif : <[i := p :: f]> fs !! i = Some (p :: f)) by (apply list_lookup_insert_eq; by eapply lookup_lt_Some).
  pose proof (regions_move (<[i := p :: f]> fs) i s p (p :: f) f live1 live2 l Hs Hif Hg ltac:(done)) as Hperm. rewrite list_insert_insert_eq, (list_insert_id fs i f) in Hperm by done.
  assert (Hpos : 0 < p < 2 ^ 64 /\ p mod s = 0).
  { rewrite Forall_app in Hreg. destruct Hreg as [_ Hreg]. unfold live_regions in Hreg. rewrite fmap_app in Hreg. apply Forall_app in Hreg as [_ Hreg]. apply Forall_cons in Hreg as [(Hp & _ & Hpe & _) _].
    apply Forall_app in Hlv as [_ Hlv]. apply Forall_cons in Hlv as [[_ Hm] _]. cbn [fst snd] in *. rewrite Hg, Z.min_l in Hm by (unfold FRAME_SIZE; lia). unfold MAPPED_FRAMES, FRAME_SIZE in Hpe. split; [lia|done]. }
  split; cbn [set_available available_blocks memory frames].
  - done.
  - cbn [write_word set_memory available_blocks] in *. by rewrite !length_insert.
  - apply (chains_insert (write_word p next h) fs i p (p :: f)); [done|]. cbn [chain write_word set_memory memory]. split; [done|]. split; [lia|].
    rewrite Ram.load64_store64 by (by eapply chain_u64). eapply chain_same; [|exact Hnext]. intros q a Hq Ha. apply Hout. by eapply live_not_free.
  - by rewrite Hperm.
  - rewrite Hperm. eapply Forall_impl; [done|]. intros a. by apply region_ok_frames.
  - rewrite (free_regions_insert BLOCK_SIZES fs i s (p :: f) Hs) by by eapply lookup_lt_Some. rewrite (free_regions_split BLOCK_SIZES fs i s f Hs Hf) in Hbl.
    cbn [fmap list_fmap app]. constructor; [exact (proj2 Hpos)|done].
  - apply Forall_app in Hlv as [Hlv1 Hlv2]. apply Forall_cons in Hlv2 as [_ Hlv2]. by apply Forall_app.
Qed.

(** Regions of newly allocated frames. *)
Lemma fresh_frames h n f fm : fm_ok (frames h) -> 0 < n -> fm_allocate n (frames h) = (Ok f, fm) ->
  fm_ok fm /\ 0 < f /\ f + n <= MAPPED_FRAMES /\ region_ok (set_frames fm h) (f * FRAME_SIZE, n * FRAME_SIZE) /\
  forall a, region_ok h a -> region_ok (set_frames fm h) a /\ apart a (f * FRAME_SIZE, n * FRAME_SIZE).
Proof.
  intros Hok Hn E. pose proof (fm_allocate_ok (frames h) n Hok Hn) as Hs. rewrite E in Hs. destruct Hs as (Hok' & Hf & Hfn & Hfree & Hused).
  split; [done|]. split; [done|]. split; [done|]. split.
  - split; [unfold FRAME_SIZE; cbn [fst]; lia|]. split; [unfold FRAME_SIZE; cbn [snd]; lia|]. cbn [fst snd]. split; [unfold FRAME_SIZE; lia|]. intros g Hg1 Hg2. cbn [set_frames frames].
    rewrite Hused, bool_decide_true by (unfold FRAME_SIZE in *; lia). apply orb_true_r.
  - intros a Ha. split; [|by apply (fresh_apart h)]. eapply region_ok_mono; [done|]. intros g Hg. cbn [set_frames frames]. by rewrite Hused, Hg.
Qed.

Definition within_region (b a : region) : Prop := a.1 <= b.1 /\ b.1 + b.2 <= a.1 + a.2 /\ 0 < b.2.

Lemma apart_within a b r : apart a r -> within_region b r -> apart a b.
Proof. unfold apart, within_region. lia. Qed.

Lemma region_ok_within h a b : region_ok h a -> within_region b a -> region_ok h b.
Proof.
  intros (H1 & H2 & H3 & Hu) (Hb1 & Hb2 & Hb3). split; [lia|]. split; [done|]. split; [lia|]. intros g Hg1 Hg2. apply Hu; lia.
Qed.

Lemma frame_blocks_elem ptr s n i p : p ∈ frame_blocks ptr s n i -> exists j, i <= j < n /\ p = ptr + j * s.
Proof. intros (j & -> & Hj%elem_of_seqZ)%list_elem_of_fmap. exists j. split; [lia|done]. Qed.

Lemma frame_blocks_apart ptr s n (k : nat) : 0 < s -> forall i, n - i = Z.of_nat k -> all_apart ((fun p => (p, s)) <$> frame_blocks ptr s n i).
Proof.
  intros Hs. induction k as [|k IH]; intros i Hk.
  - unfold frame_blocks. by replace (n - i) with 0 by lia.
  - rewrite frame_blocks_cons by lia. cbn [fmap list_fmap all_apart]. split; [|apply IH; lia].
    apply Forall_fmap, Forall_forall. intros p (j & Hj & ->)%frame_blocks_elem. left. cbn [fst snd]. nia.
Qed.

Lemma BLOCK_SIZES_frame i s : BLOCK_SIZES !! i = Some s -> FRAME_SIZE / s * s = FRAME_SIZE /\ 0 < FRAME_SIZE / s /\ (s | FRAME_SIZE).
Proof.
  intros Hs. assert (Hd : FRAME_SIZE / s * s = FRAME_SIZE /\ 0 < FRAME_SIZE / s) by (do 9 (destruct i as [|i]; [injection Hs as <-; done|]); done).
  destruct Hd as [Hd Hp]. split; [done|]. split; [done|]. by exists (FRAME_SIZE / s).
Qed.

(** A new frame becomes the free list of a size. *)
Lemma heap_grow h fs live i s f fm : let n := FRAME_SIZE / s in let ptr := f * FRAME_SIZE in
  heap_ok h fs live -> BLOCK_SIZES !! i = Some s -> fs !! i = Some [] -> fm_allocate 1 (frames h) = (Ok f, fm) ->
  heap_ok (set_available i ptr (link_blocks ptr s n (seqZ 0 n) (set_frames fm h))) (<[i := frame_blocks ptr s n 0]> fs) live /\
  (forall a, inside live a -> memory (link_blocks ptr s n (seqZ 0 n) (set_frames fm h)) a = memory h a).
Proof.
  intros n ptr Hok Hs Hf E. pose proof Hok as [Hfm [Hl1 Hl2] Hch Hap Hreg Hbl Hlv]. pose proof (BLOCK_SIZES_pow i s Hs) as (_ & Hsr & _). destruct (BLOCK_SIZES_frame i s Hs) as (Hns & Hn & Hdiv). fold n in Hns, Hn.
  destruct (fresh_frames h 1 f fm Hfm ltac:(lia) E) as (Hfm' & Hf0 & Hf1 & HR & Hold). rewrite Z.mul_1_l in HR, Hold. fold ptr in HR, Hold.
  assert (Hptr : 0 < ptr) by (unfold ptr, FRAME_SIZE; lia).
  assert (Hend : ptr + n * s < 2 ^ 64) by (rewrite Hns; unfold ptr, MAPPED_FRAMES, FRAME_SIZE in *; lia).
  destruct (link_blocks_spec ptr s n (Z.to_nat n) ltac:(lia) ltac:(lia) Hend 0 (set_frames fm h) ltac:(lia) ltac:(lia)) as (Hav & Hfr & Hin & Hout). rewrite Z2Nat.id in * by lia. cbv zeta in *. set (h1 := link_blocks ptr s n (seqZ 0 n) (set_frames fm h)) in *.
  assert (Hwithin : forall j, 0 <= j < n -> within_region (ptr + j * s, s) (ptr, FRAME_SIZE)) by (intros j Hj; unfold within_region; cbn [fst snd]; nia).
  assert (Hbin : forall p, p ∈ frame_blocks ptr s n 0 -> within_region (p, s) (ptr, FRAME_SIZE)) by (intros p (j & Hj & ->)%frame_blocks_elem; by apply Hwithin).
  assert (Hkeep : forall a r, region_ok h r -> r.1 <= a < r.1 + r.2 -> memory h1 a = memory h a).
  { intros a r Hr Ha. rewrite Hout; [done|]. destruct (Hold r Hr) as [_ Har]. unfold apart in Har. cbn [fst snd] in *. lia. }
  assert (Hold' : Forall (fun r => region_ok h1 r /\ apart r (ptr, FRAME_SIZE)) (free_regions BLOCK_SIZES fs ++ live_regions live)).
  { eapply Forall_impl; [exact Hreg|]. intros r Hr. destruct (Hold r Hr) as [Hr1 Hr2]. split; [|done]. by eapply region_ok_frames. }
  assert (Hperm : free_regions BLOCK_SIZES (<[i := frame_blocks ptr s n 0]> fs) ≡ₚ ((fun p => (p, s)) <$> frame_blocks ptr s n 0) ++ free_regions BLOCK_SIZES fs).
  { rewrite (free_regions_insert BLOCK_SIZES fs i s) by (done || by eapply lookup_lt_Some). by rewrite (list_insert_id fs i []) by done. }
  split; [|intros a (p & l & Hin' & Ha); apply (Hkeep a (p, given l)); [|done]; rewrite Forall_forall in Hreg; apply Hreg, elem_of_app; right; apply list_elem_of_fmap; by exists (p, l)].
  split; cbn [set_available available_blocks memory frames].
  - by rewrite Hfr.
  - rewrite !length_insert, Hav. done.
  - apply (chains_insert h1 fs i).
    + intros j q k Hq Hk. rewrite Hav in Hq. pose proof (Hch j q k Hq Hk) as Hc. eapply chain_same; [|exact Hc]. intros p x Hp Hx.
      destruct (lookup_lt_is_Some_2 BLOCK_SIZES j) as [sj Hsj]; [apply lookup_lt_Some in Hk; lia|]. pose proof (BLOCK_SIZES_pow j sj Hsj). apply (Hkeep x (p, sj)); [|cbn [fst snd]; lia].
        rewrite Forall_forall in Hreg. apply Hreg, elem_of_app. left. by eapply free_regions_elem.
    + pose proof (frame_chain (memory h1) ptr s n Hptr ltac:(lia) Hend Hin (Z.to_nat n) 0 ltac:(lia) ltac:(lia)) as Hc. replace (0 =? n) with false in Hc by lia. by replace (ptr + 0 * s) with ptr in Hc by lia.
  - rewrite Hperm, <- app_assoc. apply all_apart_app. split; [apply (frame_blocks_apart ptr s n (Z.to_nat n)); lia|]. split; [done|].
    apply Forall_fmap, Forall_forall. intros p Hp. eapply Forall_impl; [exact Hold'|]. intros r [_ Hr]. apply apart_sym. eapply apart_within; [done|]. by apply Hbin.
  - rewrite Hperm, <- app_assoc. apply Forall_app. split.
    + apply Forall_fmap, Forall_forall. intros p Hp. eapply region_ok_within; [eapply region_ok_frames; [exact Hfr|exact HR]|]. by apply Hbin.
    + eapply Forall_impl; [exact Hold'|]. intros r [Hr _]. by apply (region_ok_frames h1).
  - rewrite Hperm. apply Forall_app. split; [|done]. apply Forall_fmap, Forall_forall. intros p (j & Hj & ->)%frame_blocks_elem. cbn [fst snd].
    apply (proj2 (Z.mod_divide _ s ltac:(lia))). apply Z.divide_add_r; [|by exists j]. unfold ptr. by apply Z.divide_mul_r.
  - done.
Qed.

Lemma set_frames_same h : set_frames (frames h) h = h.
Proof. by destruct h. Qed.

Lemma allocate_frames_spec n h : fm_ok (frames h) -> 0 < n ->
  (exists f fm, fm_allocate n (frames h) = (Ok f, fm) /\ allocate_frames n h = (Ok (f * FRAME_SIZE), set_frames fm h)) \/ allocate_frames n h = (Ok 0, h).
Proof.
  intros Hok Hn. pose proof (fm_allocate_ok (frames h) n Hok Hn) as Hs. unfold allocate_frames, mget, mput, mbnd.
  destruct (fm_allocate n (frames h)) as [[f|e| |] fm] eqn:E; [left|right|done..].
  - exists f, fm. split; [done|]. destruct Hs as (_ & Hf & Hfn & _). unfold mul_checked. rewrite checked_Some by (unfold unsigned, FRAME_SIZE, MAPPED_FRAMES in *; lia). cbn [munwrap ret].
    unfold as_virt_addr, Size1GiB. replace (f * FRAME_SIZE <? 2 ^ 30 * 64) with true by (unfold FRAME_SIZE, MAPPED_FRAMES in *; lia). done.
  - subst fm. by rewrite set_frames_same.
Qed.

Lemma heap_alloc h fs live l : heap_ok h fs live -> layout_ok l -> exists p h' fs', alloc l h = (Ok p, h') /\
  heap_ok h' fs' (if p =? 0 then live else (p, l) :: live) /\ forall a, inside live a -> memory h' a = memory h a.
Proof.
  intros Hok Hl. pose proof Hok as [Hfm [Hl1 Hl2] Hch Hap Hreg Hbl Hlv]. unfold alloc. destruct (mode_spec l Hl) as [(i & s & Em & Hs & Hg & _)|(n & Em & Hn & Hg & _)]; rewrite Em.
  - destruct (lookup_lt_is_Some_2 (available_blocks h) i) as [p Hp]; [rewrite Hl2; by eapply lookup_lt_Some|]. destruct (lookup_lt_is_Some_2 fs i) as [f Hf]; [rewrite Hl1; by eapply lookup_lt_Some|].
    pose proof (Hch i p f Hp Hf) as Hc. unfold mget, mput, mbnd, ret. cbn [munwrap ret]. rewrite Hp. cbn [munwrap ret]. destruct f as [|q f]; cbn [chain] in Hc.
    + subst p. cbn [Z.eqb]. unfold allocate_frame_for_block, mget, mput, mbnd. rewrite Hs. cbn [munwrap ret]. destruct (allocate_frames_spec 1 h Hfm ltac:(lia)) as [(fr & fm & E & ->)| -> ].
      * destruct (heap_grow h fs live i s fr fm Hok Hs Hf E) as [Hgr Hkeep]. cbv zeta in *. destruct (BLOCK_SIZES_frame i s Hs) as (_ & Hnb & _). destruct (fresh_frames h 1 fr fm Hfm ltac:(lia) E) as (_ & Hfr & _).
        replace (fr * FRAME_SIZE =? 0) with false by (unfold FRAME_SIZE; lia). cbn [ret]. replace (fr * FRAME_SIZE =? 0) with false by (unfold FRAME_SIZE; lia).
        set (h1 := link_blocks _ _ _ _ _) in *. eexists _, _, _. split; [reflexivity|]. replace (fr * FRAME_SIZE =? 0) with false by (unfold FRAME_SIZE; lia). split; [|done].
        rewrite frame_blocks_cons in Hgr by lia. replace (fr * FRAME_SIZE + 0 * s) with (fr * FRAME_SIZE) in Hgr by lia.
        pose proof (heap_pop _ _ _ i s (fr * FRAME_SIZE) (frame_blocks (fr * FRAME_SIZE) s (FRAME_SIZE / s) (0 + 1)) l Hgr Hs) as Hpop. unfold set_available in Hpop. cbn [available_blocks memory frames] in Hpop.
        rewrite !list_insert_insert_eq in Hpop. apply Hpop; [apply list_lookup_insert_eq; by eapply lookup_lt_Some| |done|done]. apply list_lookup_insert_eq.
        destruct (heap_lens _ _ _ Hgr) as [_ Hla]. cbn [set_available available_blocks] in Hla. rewrite length_insert in Hla. rewrite Hla. by eapply lookup_lt_Some.
      * cbn [Z.eqb]. exists 0, h, fs. done.
    + destruct Hc as (-> & Hq & _). replace (q =? 0) with false by lia. cbn [ret]. replace (q =? 0) with false by lia. eexists _, _, _. split; [reflexivity|]. replace (q =? 0) with false by lia.
      split; [|done]. by apply (heap_pop h fs live i s q f l).
  - unfold mbnd at 1. cbn [munwrap ret]. destruct (allocate_frames_spec n h Hfm ltac:(lia)) as [(fr & fm & E & ->)| -> ]; [|by exists 0, h, fs].
    destruct (fresh_frames h n fr fm Hfm ltac:(lia) E) as (Hfm' & Hf0 & _ & HR & Hold). eexists _, _, fs. split; [reflexivity|]. replace (fr * FRAME_SIZE =? 0) with false by (unfold FRAME_SIZE; lia). split; [|done].
    assert (Hmid : forall L K (a : region), L ++ a :: K ≡ₚ a :: L ++ K) by (intros; symmetry; apply Permutation_middle).
    split; cbn [set_frames frames available_blocks memory]; try done.
    + cbn [live_regions fmap list_fmap fst snd]. rewrite Hmid. cbn [all_apart]. split; [|done]. eapply Forall_impl; [exact Hreg|]. intros r Hr. rewrite Hg. apply apart_sym, Hold, Hr.
    + cbn [live_regions fmap list_fmap fst snd]. rewrite Hmid. constructor; [by rewrite Hg|]. eapply Forall_impl; [exact Hreg|]. intros r Hr. apply Hold, Hr.
    + constructor; [|done]. cbn [fst snd]. split; [done|]. rewrite Hg, Z.min_r by (unfold FRAME_SIZE; lia). apply Z.mod_mul. done.
Qed.

Lemma heap_dealloc h fs live1 live2 p l : heap_ok h fs (live1 ++ (p, l) :: live2) -> exists h' fs', dealloc p l h = (Ok tt, h') /\
  heap_ok h' fs' (live1 ++ live2) /\ forall a, ~ (p <= a < p + given l) -> memory h' a = memory h a.
Proof.
  intros Hok. pose proof Hok as [Hfm [Hl1 Hl2] Hch Hap Hreg Hbl Hlv]. assert (Hlo : layout_ok l /\ p mod Z.min (given l) FRAME_SIZE = 0) by (apply Forall_app in Hlv as [_ Hlv]; by apply Forall_cons in Hlv as [? _]).
  destruct Hlo as [Hlo Hpm]. unfold dealloc. destruct (mode_spec l Hlo) as [(i & s & Em & Hs & Hg & _)|(n & Em & Hn & Hg & _)]; rewrite Em; unfold mbnd at 1; cbn [munwrap ret]; unfold mget, mput, mbnd.
  - destruct (lookup_lt_is_Some_2 (available_blocks h) i) as [q Hq]; [rewrite Hl2; by eapply lookup_lt_Some|]. destruct (lookup_lt_is_Some_2 fs i) as [f Hf]; [rewrite Hl1; by eapply lookup_lt_Some|].
    rewrite Hq. cbn [munwrap ret]. eexists _, _. split; [reflexivity|]. split; [by apply (heap_push h fs live1 live2 i s p f l q)|]. intros a Ha. pose proof (BLOCK_SIZES_pow i s Hs). cbn [set_available write_word set_memory memory]. apply Ram.store64_other. lia.
  - rewrite Hg, Z.min_r in Hpm by (unfold FRAME_SIZE; lia). pose proof (Z.div_mod p FRAME_SIZE ltac:(done)) as Hdm. rewrite Hpm, Z.add_0_r in Hdm. set (f := p / FRAME_SIZE) in *.
    assert (Hperm : free_regions BLOCK_SIZES fs ++ live_regions (live1 ++ (p, l) :: live2) ≡ₚ (p, n * FRAME_SIZE) :: free_regions BLOCK_SIZES fs ++ live_regions (live1 ++ live2)).
    { unfold live_regions. rewrite !fmap_app. cbn [fmap list_fmap fst snd]. rewrite Hg. solve_Permutation. }
    rewrite Hperm in Hap, Hreg. cbn [all_apart] in Hap. destruct Hap as [Hap1 Hap]. apply Forall_cons in Hreg as [(Hp0 & _ & Hpe & Hu) Hreg]. cbn [fst snd] in *.
    unfold as_phys_addr, Size1GiB, from_phys_addr. replace (p <? 2 ^ 30 * 64) with true by (unfold FRAME_SIZE, MAPPED_FRAMES in *; lia). cbn [munwrap ret]. fold f.
    destruct (fm_free_ok (frames h) f n Hfm ltac:(lia)) as (fm & -> & Hfm' & Hused); [intros g Hgr; apply Hu; unfold FRAME_SIZE in *; lia|]. cbn [munwrap ret].
    eexists _, fs. split; [reflexivity|]. split; [|done]. split; cbn [set_frames frames available_blocks memory]; try done.
    + apply Forall_forall. intros r Hr. rewrite Forall_forall in Hap1, Hreg. specialize (Hap1 r Hr). destruct (Hreg r Hr) as (H1 & H2 & H3 & H4). split; [done|]. split; [done|]. split; [done|].
      intros g Hg1 Hg2. cbn [set_frames frames]. rewrite Hused, H4 by done. rewrite bool_decide_false; [done|]. unfold apart in Hap1. cbn [fst snd] in Hap1. unfold FRAME_SIZE in *. lia.
    + apply Forall_app in Hlv as [Hlv1 Hlv2]. apply Forall_cons in Hlv2 as [_ Hlv2]. by apply Forall_app.
Qed.

Lemma heap_new m fm : fm_ok fm -> heap_ok (KernelAllocator_new m fm) (replicate (length BLOCK_SIZES) []) [].
Proof.
  intros Hfm. assert (E : free_regions BLOCK_SIZES (replicate (length BLOCK_SIZES) []) = []) by done. split; rewrite ?E; try done.
  intros i p f Hp Hf. apply lookup_replicate in Hp as [-> _]. by apply lookup_replicate in Hf as [-> _].
Qed.

Lemma reachable_ok h live : reachable h live -> exists fs, heap_ok h fs live.
Proof.
  induction 1 as [m fm Hfm|h live l p h' _ [fs IH] Hl E|h live1 live2 p l h' _ [fs IH] E|h live a v _ [fs IH] Ha].
  - eexists. by apply heap_new.
  - destruct (heap_alloc h fs live l IH Hl) as (p' & h'' & fs' & E' & Hok & _). rewrite E in E'. injection E' as <- <-. by exists fs'.
  - destruct (heap_dealloc h fs live1 live2 p l IH) as (h'' & fs' & E' & Hok & _). rewrite E in E'. injection E' as <-. by exists fs'.
  - exists fs. apply heap_write; [done|]. intros b Hb. apply Ram.ram_store_other. cbn [length]. destruct (decide (a = b)) as [->|]; [done|lia].
Qed.

(** What a caller of [alloc] relies on. *)
Definition usable (x : Z * Layout) : Prop :=
  0 < x.1 /\ size x.2 <= given x.2 /\ x.1 + given x.2 <= 2 ^ 36 /\ (align x.2 <= FRAME_SIZE -> (align x.2 | x.1)).

Lemma live_usable h fs live x : heap_ok h fs live -> x ∈ live -> usable x.
Proof.
  intros [Hfm _ _ _ Hreg _ Hlv] Hx. rewrite Forall_forall in Hlv. destruct (Hlv x Hx) as [Hlo Hm]. destruct x as [p l]. cbn [fst snd] in *.
  rewrite Forall_forall in Hreg. assert (Hr : (p, given l) ∈ live_regions live) by (apply list_elem_of_fmap; by exists (p, l)).
  destruct (Hreg (p, given l)) as (H1 & H2 & H3 & _); [apply elem_of_app; by right|]. cbn [fst snd] in *. unfold MAPPED_FRAMES, FRAME_SIZE in *.
  unfold usable, FRAME_SIZE. cbn [fst snd]. split; [done|]. split; [destruct (mode_spec l Hlo) as [(i & s & _ & _ & -> & ? & _)|(n & _ & _ & _ & ? & _)]; done|]. split; [lia|]. intros Hal.
  destruct (mode_spec l Hlo) as [(i & s & _ & Hs & Hg & _ & Hd)|(n & _ & _ & Hg & _ & Hbig)].
  - pose proof (BLOCK_SIZES_pow i s Hs) as (_ & Hsr & _). rewrite Hg, Z.min_l in Hm by lia. etrans; [exact Hd|]. apply (proj1 (Z.mod_divide p s ltac:(lia))), Hm.
  - rewrite Hg, Z.min_r in Hm by (unfold FRAME_SIZE in *; lia). destruct Hlo as (_ & k & Hk & Ha). etrans; [|apply (proj1 (Z.mod_divide p 4096 ltac:(lia))), Hm].
    apply (pow2_divide _ _ 12 k); [lia|lia|done|done|lia].
Qed.

(** An address inside of one allocation is outside of another. *)
Lemma inside_other h fs live1 live2 p l a : heap_ok h fs (live1 ++ (p, l) :: live2) -> inside (live1 ++ live2) a -> ~ (p <= a < p + given l).
Proof.
  intros [Hfm _ _ Hap Hreg _ _] (q & k & Hin & Ha) Hpa. apply all_apart_app in Hap as (_ & Hap & _). apply Forall_app in Hreg as [_ Hreg].
  assert (Hperm : live_regions (live1 ++ (p, l) :: live2) ≡ₚ (p, given l) :: live_regions (live1 ++ live2)) by (unfold live_regions; rewrite !fmap_app; cbn [fmap list_fmap fst snd]; solve_Permutation).
  rewrite Hperm in Hap, Hreg. destruct Hap as [Hap _]. apply Forall_cons in Hreg as [(_ & Hg & _) _]. rewrite Forall_forall in Hap.
  assert (Hq : (q, given k) ∈ live_regions (live1 ++ live2)) by (apply list_elem_of_fmap; by exists (q, k)). specialize (Hap _ Hq). unfold apart in Hap. cbn [fst snd] in *. lia.
Qed.

Lemma allocate_frames_null n h h' : fm_ok (frames h) -> 0 < n -> allocate_frames n h = (Ok 0, h') -> exists e, (fm_allocate n (frames h)).1 = Err e.
Proof.
  intros Hfm Hn. pose proof (fm_allocate_ok (frames h) n Hfm Hn) as Hs. unfold allocate_frames, mget, mput, mbnd.
  destruct (fm_allocate n (frames h)) as [[f|e| |] fm]; [|by eexists|done..]. destruct Hs as (_ & Hf & Hm & _). unfold mul_checked.
  rewrite checked_Some by (unfold unsigned, FRAME_SIZE, MAPPED_FRAMES in *; lia). cbn [munwrap ret]. unfold as_virt_addr, Size1GiB.
  replace (f * FRAME_SIZE <? 2 ^ 30 * 64) with true by (unfold FRAME_SIZE, MAPPED_FRAMES in *; lia). cbn [munwrap ret]. intros [= Hz _]. unfold FRAME_SIZE in Hz. lia.
Qed.

(** A null pointer is returned only when the frame manager has refused the frames. *)
Lemma alloc_null l h h' : fm_ok (frames h) -> layout_ok l -> alloc l h = (Ok 0, h') -> exists e, (fm_allocate (frames_for l) (frames h)).1 = Err e.
Proof.
  intros Hfm Hl. unfold alloc, frames_for. destruct (mode_spec l Hl) as [(i & s & Hm & Hs & _)|(n & Hm & Hn & _)]; rewrite Hm; cbn [munwrap].
  - unfold mbnd at 1, ret at 1, mbnd at 1, mget at 1, mbnd at 1. destruct (available_blocks h !! i) as [ptr|]; cbn [munwrap ret mpanic]; [|done].
    unfold mbnd at 1. destruct (Z.eqb_spec ptr 0) as [->|Hp].
    + unfold allocate_frame_for_block, mbnd at 1. rewrite Hs. cbn [munwrap ret]. unfold mbnd at 1.
      destruct (allocate_frames 1 h) as [[q|[]| |] h1] eqn:Ha; try done. destruct (Z.eqb_spec q 0) as [->|Hq].
      * intros _. by apply (allocate_frames_null 1 h h1).
      * unfold mbnd, mget, mput, ret. rewrite (proj2 (Z.eqb_neq _ _) Hq). by intros [= ? _].
    + unfold mbnd, mget, mput, ret. rewrite (proj2 (Z.eqb_neq _ _) Hp). by intros [= ? _].
  - unfold mbnd, ret. apply allocate_frames_null; [done|lia].
Qed.

End HeapLemmas.

(** ** Properties *)

(** [C10]. After any sequence of allocations, deallocations of allocations in use and
    writes of bytes to them, with a frame manager of the 64 GiB that are mapped ([fm_ok]): allocations in use do not overlap, are large enough, mapped and
    aligned, for alignments of up to a frame; the next allocation and every
    deallocation end without a panic and leave every byte of the other
    allocations as it is; and an allocation returns null only when the frame manager
    refuses the frames for it. *)
Theorem heap_safety `{HFM : FrameManager FM} (h : Heap) (live : list (Z * Layout)) :
  reachable h live ->
  all_apart (live_regions live) /\ Forall usable live /\
  (forall l, layout_ok l -> exists p h', alloc l h = (Ok p, h') /\ (forall a, inside live a -> memory h' a = memory h a) /\
    (p = 0 -> exists e, (fm_allocate (frames_for l) (frames h)).1 = Err e)) /\
  (forall live1 live2 p l, live = live1 ++ (p, l) :: live2 -> exists h', dealloc p l h = (Ok tt, h') /\ forall a, inside (live1 ++ live2) a -> memory h' a = memory h a).
Proof.
  intros (fs & Hok)%reachable_ok. pose proof (heap_apart _ _ _ Hok) as Hap. split; [by apply all_apart_app in Hap as (_ & ? & _)|]. split; [apply Forall_forall; intros x Hx; by eapply live_usable|]. split.
  - intros l Hl. destruct (heap_alloc h fs live l Hok Hl) as (p & h' & fs' & E & _ & Hm). exists p, h'. split; [done|]. split; [intros a Ha; by apply Hm|].
    intros ->. eapply alloc_null; [apply Hok|done|done].
  - intros live1 live2 p l ->. destruct (heap_dealloc h fs live1 live2 p l Hok) as (h' & fs' & E & _ & Hm). exists h'. split; [done|].
    intros a Ha. apply Hm. by eapply inside_other.
Qed.

(** ** Behaviours outside of these conditions *)

(** Frames above 64 GiB, which the frame manager hands out, are not mapped. *)
Lemma unmapped_frame_panics `{HFM : FrameManager FM} (h : Heap) n f fm : fm_allocate n (frames h) = (Ok f, fm) -> MAPPED_FRAMES <= f < 2 ^ 52 -> (allocate_frames n h).1 = Panic.
Proof.
  intros E Hf. unfold allocate_frames, mget, mput, mbnd. rewrite E. unfold mul_checked. rewrite checked_Some by (unfold unsigned, FRAME_SIZE, MAPPED_FRAMES in *; lia). cbn [munwrap ret].
  unfold as_virt_addr, Size1GiB. by replace (f * FRAME_SIZE <? 2 ^ 30 * 64) with false by (unfold FRAME_SIZE, MAPPED_FRAMES in *; lia).
Qed.

(** An alignment above the size of a frame is not respected. *)
Lemma large_alignment_ignored : (alloc {| size := 8192; align := 8192 |} (KernelAllocator_new (fun _ => 0) demo)).1 = Ok 12288 /\ ~ (8192 | 12288).
Proof. split; [by vm_compute|]. intros [k Hk]. lia. Qed.

(** ** Witnesses *)

Definition demo_layout : Layout := {| size := 1500; align := 8 |}.

Lemma demo_layout_ok : layout_ok demo_layout.
Proof. split; [simpl; lia|]. exists 3. simpl. lia. Qed.

Definition demo_heap : Heap := (alloc demo_layout (KernelAllocator_new (fun _ => 0) demo)).2.

Lemma demo_heap_reachable : reachable demo_heap [(12288, demo_layout)].
Proof.
  apply (reach_alloc (KernelAllocator_new (fun _ => 0) demo) [] demo_layout 12288 demo_heap); [|apply demo_layout_ok|vm_compute; reflexivity].
  apply reach_new. split; [apply demo_wf|]. unfold demo, MAPPED_FRAMES. cbn [begin_ end_]. lia.
Qed.

Lemma heap_safety_witness : exists p h', alloc demo_layout demo_heap = (Ok p, h') /\ usable (12288, demo_layout).
Proof.
  destruct (heap_safety demo_heap [(12288, demo_layout)] demo_heap_reachable) as (_ & Hu & Ha & _).
  destruct (Ha demo_layout demo_layout_ok) as (p & h' & E & _). exists p, h'. split; [exact E|]. by apply Forall_cons in Hu as [? _].
Defined.
