(* ===== verification/Pci.v ===== *)
(** * PCI devices (src/ors-kernel/src/devices/pci.rs)

    Configuration space access through the ports 0xcf8 and 0xcfc, the fields of a
    function's header, base address registers, capabilities, MSI-X, and the scan of
    the buses, which follows the routes from the host bridges. *)

From S2P Require Import Prelude Hardware.
Local Open Scope Z_scope.
Local Open Scope rust_scope.

(** ** Data *)

Record Device := { bus : Z; device : Z; function : Z }.

#[export] Instance Device_eq_dec : EqDecision Device.
Proof. solve_decision. Defined.

Inductive ScanError := Full.

Inductive Bar := MemoryAddress (addr : Z) | IoPort (port : Z).

Definition mmio_base (b : Bar) : option Z := match b with MemoryAddress a => Some a | IoPort _ => None end.
Definition io_port (b : Bar) : option Z := match b with MemoryAddress _ => None | IoPort p => Some p end.

Record DeviceType := { class_code : Z; subclass : Z; prog_interface : Z }.

Definition is_standard_pci_to_pci_bridge (t : DeviceType) : bool := (class_code t =? 0x06) && (subclass t =? 0x04).
Definition is_xhci (t : DeviceType) : bool := (class_code t =? 0x0c) && (subclass t =? 0x03) && (prog_interface t =? 0x30).

Record Capability := { c_device : Device; c_pointer : Z }.
Record MsiX := { x_device : Device; x_pointer : Z }.
Record MsiXTable := { table_ptr : Z; table_len : Z }.
Definition MsiXTableEntry : Type := Z.

(** ** Operations *)

Section operations.
Context {H : Type} {E : Type} `{PortIO H} `{Mmio H} `{BitField} `{Heapless}.

(** [ConfigAddress::new]; [None] is the panic of [set_bits]. *)
Definition ConfigAddress_new (bus device function reg : Z) : option Z :=
  value ← set_bits 0 8 reg 0;
  value ← set_bits 8 11 function value;
  value ← set_bits 11 16 device value;
  value ← set_bits 16 24 bus value;
  set_bits 31 32 1 value.

Definition ConfigAddress_write (value : Z) : M H E unit := outp 32 0x0cf8 value.
Definition ConfigData_read : M H E Z := inp 32 0x0cfc.
Definition ConfigData_write (value : Z) : M H E unit := outp 32 0x0cfc value.

Definition read (d : Device) (addr : Z) : M H E Z :=
  a <- munwrap (ConfigAddress_new (bus d) (device d) (function d) addr) ;;
  ConfigAddress_write a ;;;
  ConfigData_read.

Definition write (d : Device) (addr value : Z) : M H E unit :=
  a <- munwrap (ConfigAddress_new (bus d) (device d) (function d) addr) ;;
  ConfigAddress_write a ;;;
  ConfigData_write value.

Definition vendor_id (d : Device) : M H E Z := x <- read d 0x00 ;; ret (wrap 16 x).
Definition is_vendor_intel (d : Device) : M H E bool := x <- vendor_id d ;; ret (x =? 0x8086).
Definition device_id (d : Device) : M H E Z := x <- read d 0x00 ;; ret (wrap 16 (Z.shiftr x 16)).

Definition is_virtio (d : Device) : M H E bool :=
  vendor <- vendor_id d ;;
  id <- device_id d ;;
  ret ((vendor =? 0x1af4) && (0x1000 <=? id) && (id <=? 0x103f)).

Definition command (d : Device) : M H E Z := x <- read d 0x04 ;; ret (wrap 16 x).
Definition status (d : Device) : M H E Z := x <- read d 0x04 ;; ret (wrap 16 (Z.shiftr x 16)).

Definition device_type (d : Device) : M H E DeviceType :=
  x <- read d 0x08 ;;
  ret {| class_code := wrap 8 (Z.shiftr x 24); subclass := wrap 8 (Z.shiftr x 16); prog_interface := wrap 8 (Z.shiftr x 8) |}.

Definition header_type (d : Device) : M H E Z := x <- read d 0x0c ;; ret (Z.land (wrap 8 (Z.shiftr x 16)) 0x7f).
Definition is_single_function (d : Device) : M H E bool := x <- read d 0x0c ;; ret (Z.land x (Z.shiftl 0x80 16) =? 0).

Definition num_bars (d : Device) : M H E Z :=
  t <- header_type d ;;
  ret (if t =? 0x00 then 6 else if t =? 0x01 then 2 else 0).

Definition base_address_register_address (index : Z) : M H E Z :=
  massert (index <? 6) ;;;
  ret (0x10 + 4 * index).

(** [!mask] of [w] bits. *)
Definition complement (w mask : Z) : Z := 2 ^ w - 1 - mask.

Definition read_bar (d : Device) (index : Z) : M H E Bar :=
  n <- num_bars d ;;
  massert (index <? n) ;;;
  a <- base_address_register_address index ;;
  bar <- read d a ;;
  if negb (Z.land bar 0x1 =? 0) then ret (IoPort (wrap 16 (Z.land bar (complement 32 0x3))))
  else if negb (Z.land bar 0x4 =? 0) then
    let bar_lower := Z.land bar (complement 64 0xf) in
    a <- base_address_register_address (index + 1) ;;
    bar_upper <- read d a ;;
    ret (MemoryAddress (Z.lor bar_lower (Z.shiftl bar_upper 32)))
  else ret (MemoryAddress (Z.land bar (complement 64 0xf))).

Definition bus_numbers (d : Device) : M H E (Z * Z) :=
  t <- device_type d ;;
  massert (is_standard_pci_to_pci_bridge t) ;;;
  x <- read d 0x18 ;;
  ret (wrap 8 x, wrap 8 (Z.shiftr x 8)).

Definition subsystem_vendor_id (d : Device) : M H E Z :=
  t <- header_type d ;;
  massert (t =? 0x00) ;;;
  x <- read d 0x2c ;;
  ret (wrap 16 x).

Definition subsystem_id (d : Device) : M H E Z :=
  t <- header_type d ;;
  massert (t =? 0x00) ;;;
  x <- read d 0x2c ;;
  ret (wrap 16 (Z.shiftr x 16)).

Definition capability_pointer (d : Device) : M H E (option Z) :=
  t <- header_type d ;;
  if (t =? 0x00) || (t =? 0x01) then
    s <- status d ;;
    if negb (Z.land s 0x16 =? 0) then x <- read d 0x34 ;; ret (Some (wrap 8 x)) else ret None
  else ret None.

Definition interrupt_line (d : Device) : M H E Z := x <- read d 0x3c ;; ret (wrap 8 x).
Definition interrupt_pin (d : Device) : M H E Z := x <- read d 0x3c ;; ret (wrap 8 (Z.shiftr x 8)).

(** *** Capabilities *)

Definition cap_id (c : Capability) : M H E Z := x <- read (c_device c) (c_pointer c) ;; ret (wrap 8 x).
Definition is_msi_x (c : Capability) : M H E bool := i <- cap_id c ;; ret (i =? 0x11).
Definition is_vendor_specific (c : Capability) : M H E bool := i <- cap_id c ;; ret (i =? 0x09).

Definition cap_msi_x (c : Capability) : M H E (option MsiX) :=
  b <- is_msi_x c ;;
  ret (if b : bool then Some {| x_device := c_device c; x_pointer := c_pointer c |} else None).

Definition next_capability_pointer (c : Capability) : M H E (option Z) :=
  x <- read (c_device c) (c_pointer c) ;;
  let p := wrap 8 (Z.shiftr x 8) in
  ret (if p =? 0 then None else Some p).

(** [Capabilities::next] of an iterator at [pointer]. *)
Definition capabilities_next (d : Device) (pointer : Z) : M H E (option Capability) :=
  p <- (if pointer =? 0 then capability_pointer d
        else next_capability_pointer {| c_device := d; c_pointer := pointer |}) ;;
  ret ((fun p => {| c_device := d; c_pointer := p |}) <$> p).

(** [self.capabilities().find_map(|c| c.msi_x())] *)
Fixpoint find_msi_x (fuel : nat) (d : Device) (pointer : Z) : M H E (option MsiX) :=
  match fuel with
  | O => mdiverge
  | S fuel =>
      c <- capabilities_next d pointer ;;
      match c with
      | None => ret None
      | Some c =>
          x <- cap_msi_x c ;;
          match x with
          | Some x => ret (Some x)
          | None => find_msi_x fuel d (c_pointer c)
          end
      end
  end.

(** There are 255 different pointers behind the first. *)
Definition msi_x (d : Device) : M H E (option MsiX) := find_msi_x 257 d 0.

(** *** MSI-X *)

Definition message_control (m : MsiX) : M H E Z := x <- read (x_device m) (x_pointer m) ;; ret (wrap 16 (Z.shiftr x 16)).
Definition is_enabled (m : MsiX) : M H E bool := x <- read (x_device m) (x_pointer m) ;; ret (negb (Z.land x (2 ^ 31) =? 0)).

Definition msi_x_enable (m : MsiX) : M H E unit :=
  x <- read (x_device m) (x_pointer m) ;;
  write (x_device m) (x_pointer m) (Z.lor x (2 ^ 31)).

Definition table_size (m : MsiX) : M H E Z := c <- message_control m ;; ret (Z.land c 0x7ff + 1).

Definition table_bir (m : MsiX) : M H E Z :=
  p <- munwrap (add_checked 8 (x_pointer m) 0x04) ;;
  x <- read (x_device m) p ;;
  ret (wrap 8 x).

Definition table_offset (m : MsiX) : M H E Z :=
  p <- munwrap (add_checked 8 (x_pointer m) 0x04) ;;
  x <- read (x_device m) p ;;
  ret (Z.shiftr x 8).

Definition table_bar (m : MsiX) : M H E Bar := i <- table_bir m ;; read_bar (x_device m) i.

Definition table (m : MsiX) : M H E MsiXTable :=
  b <- table_bar m ;;
  base <- munwrap (mmio_base b) ;;
  offset <- table_offset m ;;
  addr <- munwrap (add_checked 64 base offset) ;;
  len <- table_size m ;;
  ret {| table_ptr := addr; table_len := len |}.

Definition pba_bir (m : MsiX) : M H E Z :=
  p <- munwrap (add_checked 8 (x_pointer m) 0x08) ;;
  x <- read (x_device m) p ;;
  ret (wrap 8 x).

Definition pba_offset (m : MsiX) : M H E Z :=
  p <- munwrap (add_checked 8 (x_pointer m) 0x08) ;;
  x <- read (x_device m) p ;;
  ret (Z.shiftr x 8).

(** The pointers of the table are to words of 4 bytes. *)
Definition entry (t : MsiXTable) (index : Z) : M H E MsiXTableEntry :=
  massert (index <? table_len t) ;;;
  ret (table_ptr t + 4 * (4 * index)).

Definition entries (t : MsiXTable) : M H E (list MsiXTableEntry) :=
  mfor (fun i l => e <- entry t i ;; ret (l ++ [e])) (seqZ 0 (table_len t)) [].

Definition message_address (e : MsiXTableEntry) : M H E Z := read_volatile e.
Definition set_message_address (e : MsiXTableEntry) (value : Z) : M H E unit := write_volatile e value.
Definition message_data (e : MsiXTableEntry) : M H E Z := read_volatile (e + 4 * 2).
Definition set_message_data (e : MsiXTableEntry) (value : Z) : M H E unit := write_volatile (e + 4 * 2) value.
Definition vector_control (e : MsiXTableEntry) : M H E Z := read_volatile (e + 4 * 3).
Definition set_vector_control (e : MsiXTableEntry) (value : Z) : M H E unit := write_volatile (e + 4 * 3) value.

Definition ADDRESS_SUFFIX : Z := Z.shiftl 0xfee 20.
Definition LEVEL : Z := Z.shiftl 1 15.

Definition entry_enable (e : MsiXTableEntry) (lapic_id vector : Z) : M H E unit :=
  massert (lapic_id <? 256) ;;;
  massert ((32 <=? vector) && (vector <=? 254)) ;;;
  x <- message_address e ;;
  set_message_address e (Z.lor (Z.lor (Z.shiftl lapic_id 12) ADDRESS_SUFFIX) (Z.land x 0xff0)) ;;;
  x <- message_data e ;;
  set_message_data e (Z.lor (Z.lor vector LEVEL) (Z.land x 0xffff3800)) ;;;
  x <- vector_control e ;;
  set_vector_control e (Z.land x (complement 32 1)).

Definition entry_disable (e : MsiXTableEntry) : M H E unit :=
  x <- vector_control e ;;
  set_vector_control e (Z.lor x 1).

End operations.

(** *** Scan *)

Section scan.
Context {H : Type} `{PortIO H} `{BitField} `{Heapless} (N : nat).

(** The bodies of [scan_device] and [scan_bus] over a [scan_function]. *)
Definition scan_device (scan_function : Device -> list Device -> M H ScanError (list Device)) (b d : Z) (dest : list Device) :
  M H ScanError (list Device) :=
  dest <- scan_function {| bus := b; device := d; function := 0 |} dest ;;
  single <- is_single_function {| bus := b; device := d; function := 0 |} ;;
  if single : bool then ret dest
  else
    mfor (fun f dest =>
      id <- vendor_id {| bus := b; device := d; function := f |} ;;
      if id =? 0xffff then ret dest else scan_function {| bus := b; device := d; function := f |} dest) (seqZ 1 7) dest.

Definition scan_bus (scan_function : Device -> list Device -> M H ScanError (list Device)) (b : Z) (dest : list Device) :
  M H ScanError (list Device) :=
  mfor (fun d dest =>
    id <- vendor_id {| bus := b; device := d; function := 0 |} ;;
    if id =? 0xffff then ret dest else scan_device scan_function b d dest) (seqZ 0 32) dest.

Fixpoint scan_function (fuel : nat) (d : Device) (dest : list Device) : M H ScanError (list Device) :=
  match fuel with
  | O => mdiverge
  | S fuel =>
      match push N dest d with
      | None => mfail Full
      | Some dest =>
          t <- device_type d ;;
          if is_standard_pci_to_pci_bridge t then
            '(_, secondary_bus) <- bus_numbers d ;;
            scan_bus (scan_function fuel) secondary_bus dest
          else ret dest
      end
  end.

(** Every level of the recursion has pushed a device. *)
Definition scan : M H ScanError (list Device) :=
  single <- is_single_function {| bus := 0; device := 0; function := 0 |} ;;
  if single : bool then scan_bus (scan_function (S N)) 0 []
  else
    mfor (fun f dest =>
      id <- vendor_id {| bus := 0; device := 0; function := f |} ;;
      if id =? 0xffff then ret dest else scan_bus (scan_function (S N)) f dest) (seqZ 0 8) [].

End scan.

(** [initialize_devices]: an error of the scan is a panic. *)
Definition initialize_devices {H E} `{PortIO H} `{BitField} `{Heapless} : M H E (list Device) := fun h =>
  match scan 32 h with
  | (Ok l, h') => (Ok l, h')
  | (Diverge, h') => (Diverge, h')
  | (_, h') => (Panic, h')
  end.

(** ** The configuration mechanism

    Mechanism #1 of the PCI specification: a write to 0xcf8 selects a register, and
    reads of 0xcfc return it. *)
Class ConfigMechanism (H : Type) `{PortIO H} := {
  config : H -> Z -> Z;
  selected : H -> Z;
  config_u32 h a : u32 (config h a);
  config_select h a : u32 a -> selected (port_write 32 0x0cf8 a h) = a /\ forall b, config (port_write 32 0x0cf8 a h) b = config h b;
  config_read h : exists h', port_read 32 0x0cfc h = (config h (selected h), h') /\ forall b, config h' b = config h b
}.

(** ** What the scan looks for

    [cfg] is the contents of the configuration space. *)

Definition address (d : Device) (reg : Z) : Z := 2 ^ 31 + bus d * 2 ^ 16 + device d * 2 ^ 11 + function d * 2 ^ 8 + reg.

Definition device_ok (d : Device) : Prop := 0 <= bus d < 256 /\ 0 <= device d < 32 /\ 0 <= function d < 8.

Section topology.
Variable cfg : Z -> Z.

Definition present (d : Device) : Prop := wrap 16 (cfg (address d 0x00)) <> 0xffff.

Definition single (d : Device) : Prop := Z.land (cfg (address d 0x0c)) 0x800000 = 0.

(** The bus behind a PCI-to-PCI bridge. *)
Definition behind (d : Device) : option Z :=
  if (wrap 8 (Z.shiftr (cfg (address d 0x08)) 24) =? 0x06) && (wrap 8 (Z.shiftr (cfg (address d 0x08)) 16) =? 0x04)
  then Some (wrap 8 (Z.shiftr (cfg (address d 0x18)) 8)) else None.

(** The functions that answer on a bus. *)
Inductive on_bus (b : Z) : Device -> Prop :=
| on_bus_first d : 0 <= d < 32 -> present {| bus := b; device := d; function := 0 |} ->
    on_bus b {| bus := b; device := d; function := 0 |}
| on_bus_other d f : 0 <= d < 32 -> present {| bus := b; device := d; function := 0 |} ->
    ~ single {| bus := b; device := d; function := 0 |} -> 1 <= f < 8 ->
    present {| bus := b; device := d; function := f |} -> on_bus b {| bus := b; device := d; function := f |}.

(** The buses that a host bridge or a bridge on such a bus leads to. *)
Inductive bus_reachable : Z -> Prop :=
| reach_single : single {| bus := 0; device := 0; function := 0 |} -> bus_reachable 0
| reach_host f : ~ single {| bus := 0; device := 0; function := 0 |} -> 0 <= f < 8 ->
    present {| bus := 0; device := 0; function := f |} -> bus_reachable f
| reach_behind b d b' : bus_reachable b -> on_bus b d -> behind d = Some b' -> bus_reachable b'.

Definition reachable_function (d : Device) : Prop := exists b, bus_reachable b /\ on_bus b d.

(** The ways to the functions: a function with the bridges that lead to it, the nearest
    first. A function behind two bridges with the same bus number has two. *)
Definition host_bus (b : Z) : Prop :=
  single {| bus := 0; device := 0; function := 0 |} /\ b = 0 \/
  ~ single {| bus := 0; device := 0; function := 0 |} /\ 0 <= b < 8 /\ present {| bus := 0; device := 0; function := b |}.

Inductive route : Device * list Device -> Prop :=
| route_host b d : host_bus b -> on_bus b d -> route (d, [])
| route_behind b d p e : route (d, p) -> behind d = Some b -> on_bus b e -> route (e, d :: p).

(** The bus numbers are those of a tree: one way to each function. *)
Definition tree_numbered : Prop := forall d p p', route (d, p) -> route (d, p') -> p = p'.

End topology.

(** ** Lemmas: registers *)

Section laws.
Context {H : Type} `{HP : PortIO H} `{HC : !ConfigMechanism H} `{HB : BitField} `{HL : Heapless}.

Lemma set_bits_append lo hi x v : 0 <= lo < hi -> 0 <= x < 2 ^ (hi - lo) -> 0 <= v < 2 ^ lo ->
  set_bits lo hi x v = Some (v + x * 2 ^ lo).
Proof.
  intros Hl Hx Hv. destruct (set_bits_ok lo hi x v) as (v' & -> & Hv' & Hb); [lia|lia|lia|]. f_equal.
  apply Z.bits_inj'. intros i Hi. rewrite Hb, add_shiftl_testbit by lia.
  destruct (Z.leb_spec lo i), (Z.ltb_spec i hi), (Z.ltb_spec i lo); try lia; simpl; try done.
  rewrite (bits_above v lo), (bits_above x (hi - lo)) by lia. done.
Qed.

Lemma ConfigAddress_new_ok d reg : device_ok d -> u8 reg ->
  ConfigAddress_new (bus d) (device d) (function d) reg = Some (address d reg).
Proof.
  intros (Hb & Hd & Hf) Hr. unfold unsigned in Hr. unfold ConfigAddress_new, address.
  rewrite set_bits_append by lia. cbn [mbind option_bind]. rewrite set_bits_append by lia. cbn [mbind option_bind].
  rewrite set_bits_append by lia. cbn [mbind option_bind]. rewrite set_bits_append by lia. cbn [mbind option_bind].
  rewrite set_bits_append by lia. f_equal. lia.
Qed.

Lemma address_u32 d reg : device_ok d -> u8 reg -> u32 (address d reg).
Proof. intros (? & ? & ?). unfold unsigned, address. lia. Qed.

(** A device of hardware with the configuration space [cfg]. *)
Definition has_config (cfg : Z -> Z) (h : H) : Prop := forall a, config h a = cfg a.

Lemma read_run {E} cfg d reg h : has_config cfg h -> device_ok d -> u8 reg ->
  runs (E := E) (read d reg) h (fun x h' => x = cfg (address d reg) /\ has_config cfg h').
Proof.
  intros Hc Hd Hr. unfold read, munwrap. rewrite ConfigAddress_new_ok by done.
  destruct (config_select h (address d reg)) as [Hs Hsc]; [by apply address_u32|].
  destruct (config_read (port_write 32 0x0cf8 (address d reg) h)) as (h' & Hp & Hh').
  apply runs_Ok. exists (cfg (address d reg)), h'. split.
  - unfold mbnd, ret, ConfigAddress_write, ConfigData_read, inp, outp. rewrite Hp, Hs, Hsc, Hc. done.
  - split; [done|]. intros a. by rewrite Hh', Hsc.
Qed.

Lemma read_bind {E A} cfg d reg (k : Z -> M H E A) h Q R : has_config cfg h -> device_ok d -> u8 reg ->
  (forall h', has_config cfg h' -> ends (k (cfg (address d reg))) h' Q R) -> ends (mbnd (read d reg) k) h Q R.
Proof. intros Hc Hd Hr Hk. eapply runs_ends_bind; [by apply (read_run cfg)|]. intros x h' [-> Hh']. by apply Hk. Qed.

End laws.

(** Runs the next access to the configuration space. *)
Ltac reads := eapply read_bind; [eassumption|try done|done|intros; cbn beta].

(** ** Lemmas: the scan *)

Section routes.
Variable cfg : Z -> Z.

Lemma route_suffix r p' : route cfg r -> forall s d, r.1 :: r.2 = s ++ d :: p' -> route cfg (d, p').
Proof.
  induction 1 as [b d Hb Hd|b d p e Hr IH Hbe He]; intros s x E; cbn [fst snd] in E.
  - destruct s as [|y s]; [|by destruct s]. injection E as -> <-. by eapply route_host.
  - destruct s as [|y s]; [injection E as -> <-; by eapply route_behind|]. injection E as _ E. by apply (IH s).
Qed.

Lemma route_reachable d : reachable_function cfg d <-> exists p, route cfg (d, p).
Proof.
  split.
  - intros (b & Hb & Ho). revert d Ho. induction Hb as [Hs|f Hs Hf Hp|b e b' Hb IH Ho Hbe]; intros d Hd.
    + exists []. apply (route_host cfg 0); [by left|done].
    + exists []. apply (route_host cfg f); [by right|done].
    + destruct (IH e Ho) as [p Hp]. exists (e :: p). by eapply route_behind.
  - intros [p Hr]. remember (d, p) as r eqn:E. revert d p E. induction Hr as [b e Hb He|b e p e' Hr IH Hbe He]; intros d p' [= <- <-].
    + exists b. split; [|done]. destruct Hb as [[? ->]|(? & ? & ?)]; [by apply reach_single|by apply reach_host].
    + destruct (IH e p eq_refl) as (b' & Hb' & Ho). exists b. split; [|done]. by eapply reach_behind.
Qed.

(** The routes through a function, and those through the functions of a bus, that start with [p]. *)
Definition through (d : Device) (p : list Device) (r : Device * list Device) : Prop := route cfg r /\ d :: p `suffix_of` r.1 :: r.2.
Definition through_bus (b : Z) (p : list Device) (r : Device * list Device) : Prop := exists d, on_bus cfg b d /\ through d p r.

Lemma through_inj d d' p r : through d p r -> through d' p r -> d = d'.
Proof. intros [_ [s Hs]] [_ [s' Hs']]. rewrite Hs in Hs'. by destruct (app_inj_2 s s' (d :: p) (d' :: p) eq_refl Hs') as [_ [= ?]]. Qed.

Lemma on_bus_bus b d : on_bus cfg b d -> bus d = b.
Proof. by destruct 1. Qed.

Lemma through_bridge d p b r : route cfg (d, p) -> behind cfg d = b ->
  through d p r <-> r = (d, p) \/ exists b', b = Some b' /\ through_bus b' (d :: p) r.
Proof.
  intros Hr Hb. split.
  - intros [Hrt [s Hs]]. destruct s as [|e s _] using rev_ind; [left; destruct r; simpl in Hs; by injection Hs as -> ->|]. right.
    rewrite <- app_assoc in Hs. cbn [app] in Hs. pose proof (route_suffix r (d :: p) Hrt s e Hs) as He.
    inversion He as [|b' ? ? ? _ Hbe Ho]; subst. exists b'. split; [done|]. exists e. split; [done|]. split; [done|]. by exists s.
  - intros [->|(b' & -> & e & _ & Hrt & Hs)]; [split; [done|reflexivity]|]. split; [done|]. etrans; [|exact Hs]. by exists [e].
Qed.

Lemma route_through r : route cfg r <-> exists b, host_bus cfg b /\ through_bus b [] r.
Proof.
  split; [|by intros (b & _ & d & _ & ? & _)]. intros Hr. assert (Hx : exists s b d, host_bus cfg b /\ on_bus cfg b d /\ r.1 :: r.2 = s ++ [d]).
  { induction Hr as [b d Hb Hd|b d p e Hr (s & b' & d' & Hb' & Hd' & E) Hbe He]; [by exists [], b, d|]. exists (e :: s), b', d'. cbn [fst snd] in *. by rewrite E. }
  destruct Hx as (s & b & d & Hb & Hd & E). exists b. split; [done|]. exists d. split; [done|]. split; [done|]. by exists s.
Qed.

End routes.

Section scan_laws.
Context {H : Type} `{HP : PortIO H} `{HC : !ConfigMechanism H} `{HB : BitField} `{HL : Heapless} (N : nat) (cfg : Z -> Z).
Implicit Types (U : Device * list Device -> Prop) (rs : list (Device * list Device)).

(** The scan has followed the routes of [U], each once. *)
Definition followed U rs (dest' : list Device) (h' : H) : Prop :=
  has_config cfg h' /\ exists rs', dest' = (rs ++ rs').*1 /\ NoDup rs' /\ (forall r, r ∈ rs' <-> U r) /\ (length (rs ++ rs') <= N)%nat.

(** [Full]: there are more than [N] routes. *)
Definition overfull (e : ScanError) (h' : H) : Prop :=
  exists rs, NoDup rs /\ length rs = S N /\ Forall (route cfg) rs.

(** A step of the scan that may start after the routes [rs]. *)
Definition step_ok (fuel : nat) U (m : list Device -> M H ScanError (list Device)) : Prop :=
  (forall r, U r -> route cfg r) /\ forall rs h, has_config cfg h -> (length rs <= N)%nat -> (N < fuel + length rs)%nat ->
    NoDup rs -> Forall (route cfg) rs -> (forall r, r ∈ rs -> ~ U r) -> ends (m rs.*1) h (followed U rs) overfull.

Lemma followed_nothing U rs h : has_config cfg h -> (length rs <= N)%nat -> (forall r, ~ U r) -> followed U rs rs.*1 h.
Proof.
  intros Hc Hn HU. split; [done|]. exists []. rewrite app_nil_r. split_and!; [done|constructor| |done].
  intros r. split; [by intros ?%elem_of_nil|by intros ?%HU].
Qed.

Lemma step_ext fuel U U' m : (forall r, U r <-> U' r) -> step_ok fuel U m -> step_ok fuel U' m.
Proof.
  intros HU [Hr Hm]. split; [intros r; rewrite <- HU; apply Hr|]. intros rs h Hh Hn Hlt Hnd Hf Hd.
  eapply ends_mono; [apply (Hm rs); try done; intros r Hin; rewrite HU; by apply Hd| |done].
  intros dest h' (Hh' & rs' & ? & ? & Hel & ?). split; [done|]. exists rs'. split_and!; try done. intros r. by rewrite Hel.
Qed.

(** One step after another. *)
Lemma step_seq fuel U1 U2 m (k : list Device -> M H ScanError (list Device)) : (forall r, U1 r -> ~ U2 r) ->
  step_ok fuel U1 m -> step_ok fuel U2 k -> step_ok fuel (fun r => U1 r \/ U2 r) (fun dest => mbnd (m dest) k).
Proof.
  intros Hdis [Hr1 Hm] [Hr2 Hk]. split; [intros r [|]; auto|]. intros rs h Hh Hn Hlt Hnd Hf Hd. apply ends_bind.
  eapply ends_mono; [apply (Hm rs); try done; intros r Hin HU; by apply (Hd r Hin); left| |done].
  intros dest1 h1 (Hh1 & rs1 & -> & Hnd1 & Hel1 & Hn1).
  eapply ends_mono; [apply (Hk (rs ++ rs1)); try done| |done].
  - rewrite length_app. lia.
  - apply NoDup_app. split_and!; [done| |done]. intros r Hin ?%Hel1. by apply (Hd r Hin); left.
  - apply Forall_app. split; [done|]. apply Forall_forall. intros r ?%Hel1. by apply Hr1.
  - intros r [Hin|?%Hel1]%elem_of_app HU; [by apply (Hd r Hin); right|by apply (Hdis r)].
  - intros dest2 h2 (Hh2 & rs2 & -> & Hnd2 & Hel2 & Hn2). split; [done|]. exists (rs1 ++ rs2). rewrite app_assoc. split_and!; [done| | |done].
    + apply NoDup_app. split_and!; [done| |done]. intros r ?%Hel1 ?%Hel2. by apply (Hdis r).
    + intros r. by rewrite elem_of_app, Hel1, Hel2.
Qed.

Lemma step_nothing fuel U m : (forall r, ~ U r) -> (forall dest h, has_config cfg h -> runs (m dest) h (fun dest' h' => dest' = dest /\ has_config cfg h')) ->
  step_ok fuel U m.
Proof.
  intros HU Hm. split; [by intros r ?%HU|]. intros rs h Hh Hn _ _ _ _. apply ends_runs. eapply runs_mono; [by apply Hm|].
  intros dest' h' [-> ?]. by apply followed_nothing.
Qed.

Lemma mfor_step {A} fuel (U : A -> Device * list Device -> Prop) f (l : list A) : NoDup l -> (forall x y r, x ∈ l -> y ∈ l -> U x r -> U y r -> x = y) ->
  (forall x, x ∈ l -> step_ok fuel (U x) (f x)) -> step_ok fuel (fun r => exists x, x ∈ l /\ U x r) (mfor f l).
Proof.
  induction l as [|x l IH]; intros Hnd Hdis Hf.
  - apply step_nothing; [by intros r (x & ?%elem_of_nil & _)|]. intros dest h Hh. by apply ends_ret.
  - apply NoDup_cons in Hnd as [Hx Hnd]. cbn [mfor].
    apply (step_ext fuel (fun r => U x r \/ exists y, y ∈ l /\ U y r)); [intros r; setoid_rewrite elem_of_cons; naive_solver|].
    apply step_seq; [|by apply Hf; left|apply IH; [done| |]].
    + intros r HU (y & Hy & HUy). apply Hx. by rewrite (Hdis x y r ltac:(by left) ltac:(by right) HU HUy).
    + intros y z r Hy Hz. apply Hdis; by right.
    + intros y Hy. apply Hf. by right.
Qed.

(** [if vendor_id(d) != 0xffff { m }] *)
Lemma step_present fuel U d m : device_ok d -> (forall r, U r -> present cfg d) -> (present cfg d -> step_ok fuel U m) ->
  step_ok fuel U (fun dest => mbnd (vendor_id d) (fun id => if id =? 0xffff then ret dest else m dest)).
Proof.
  intros Hok HU Hm. destruct (Z.eqb_spec (wrap 16 (cfg (address d 0))) 0xffff) as [Hv|Hv].
  - apply step_nothing; [by intros r ?%HU|]. intros dest h Hh. apply ends_bind. unfold vendor_id. reads. apply ends_ret. rewrite (proj2 (Z.eqb_eq _ _) Hv). by apply ends_ret.
  - destruct (Hm Hv) as [Hr Hs]. split; [done|]. intros rs h Hh Hn Hlt Hnd Hf Hd. apply ends_bind. unfold vendor_id. reads. apply ends_ret.
    rewrite (proj2 (Z.eqb_neq _ _) Hv). by apply Hs.
Qed.

Variables (fuel : nat) (sf : Device -> list Device -> M H ScanError (list Device)) (p : list Device).
Hypothesis sf_step : forall d, device_ok d -> route cfg (d, p) -> step_ok fuel (through cfg d p) (sf d).

(** The functions of a bus, after the bridges [p]. *)
Definition bus_route (b : Z) : Prop := 0 <= b < 256 /\ forall d, on_bus cfg b d -> route cfg (d, p).

Lemma scan_device_step b d : bus_route b -> 0 <= d < 32 -> present cfg {| bus := b; device := d; function := 0 |} ->
  step_ok fuel (fun r => exists e, (on_bus cfg b e /\ device e = d) /\ through cfg e p r) (scan_device sf b d).
Proof.
  intros [Hb Hr] Hd Hp. set (d0 := {| bus := b; device := d; function := 0 |}). set (dev := fun f => {| bus := b; device := d; function := f |}).
  assert (Hok : forall f, 0 <= f < 8 -> device_ok (dev f)) by (intros f Hf; unfold device_ok; simpl; lia).
  assert (H0 : on_bus cfg b d0) by (by apply on_bus_first).
  apply (step_ext _ (fun r => through cfg d0 p r \/ exists f, f ∈ seqZ 1 7 /\ (on_bus cfg b (dev f) /\ through cfg (dev f) p r))).
  { intros r. split; [intros [Ht|(f & _ & Ho & Ht)]; [by exists d0|by exists (dev f)]|]. intros (e & [Ho Hed] & Ht).
    destruct Ho as [x|x f]; simpl in Hed; subst x; [by left|right]. exists f. split; [apply elem_of_seqZ; lia|]. split; [by apply on_bus_other|done]. }
  apply step_seq; [|apply sf_step; [by apply Hok|by apply Hr]|].
  { intros r Ht (f & Hf%elem_of_seqZ & _ & Ht'). pose proof (through_inj cfg _ _ _ _ Ht Ht') as [= ?]. lia. }
  destruct (Z.eqb_spec (Z.land (cfg (address d0 12)) 0x800000) 0) as [Hs|Hs].
  - apply step_nothing.
    + intros r (f & Hf%elem_of_seqZ & Ho & _). inversion Ho; subst; [lia|done].
    + intros dest h Hh. apply ends_bind. unfold is_single_function. reads. apply ends_ret. cbn beta. change (Z.shiftl 0x80 16) with 0x800000. fold d0. rewrite (proj2 (Z.eqb_eq _ _) Hs). by apply ends_ret.
  - assert (Hfor : step_ok fuel (fun r => exists f, f ∈ seqZ 1 7 /\ (on_bus cfg b (dev f) /\ through cfg (dev f) p r)) (mfor (fun f dest =>
      id <- vendor_id (dev f) ;; if id =? 0xffff then ret dest else sf (dev f) dest) (seqZ 1 7))).
    { apply mfor_step; [apply NoDup_seqZ| |].
      - intros f f' r _ _ [_ Ht] [_ Ht']. by pose proof (through_inj cfg _ _ _ _ Ht Ht') as [= ?].
      - intros f Hf%elem_of_seqZ. apply step_present; [apply Hok; lia| |].
        + intros r [Ho _]. inversion Ho; subst; [lia|done].
        + intros Hpf. assert (Ho : on_bus cfg b (dev f)) by (apply on_bus_other; [done..|lia|done]).
          apply (step_ext _ (through cfg (dev f) p)); [naive_solver|]. apply sf_step; [apply Hok; lia|by apply Hr]. }
    destruct Hfor as [Hrt Hst]. split; [done|]. intros rs h Hh Hn Hlt Hnd Hf Hdj. apply ends_bind. unfold is_single_function. reads. apply ends_ret.
    cbn beta. change (Z.shiftl 0x80 16) with 0x800000. fold d0. rewrite (proj2 (Z.eqb_neq _ _) Hs). by apply Hst.
Qed.

Lemma scan_bus_step b : bus_route b -> step_ok fuel (through_bus cfg b p) (scan_bus sf b).
Proof.
  intros Hbr. pose proof Hbr as [Hb Hr]. apply (step_ext _ (fun r => exists d, d ∈ seqZ 0 32 /\ exists e, (on_bus cfg b e /\ device e = d) /\ through cfg e p r)).
  { intros r. split; [intros (d & _ & e & [Ho _] & Ht); by exists e|]. intros (e & Ho & Ht). exists (device e). split; [|by exists e].
    apply elem_of_seqZ. destruct Ho; simpl; lia. }
  apply mfor_step; [apply NoDup_seqZ| |].
  - intros d d' r _ _ (e & [_ <-] & Ht) (e' & [_ <-] & Ht'). by rewrite (through_inj cfg _ _ _ _ Ht Ht').
  - intros d Hd%elem_of_seqZ. apply step_present; [unfold device_ok; simpl; lia| |].
    + intros r (e & [Ho <-] & _). by destruct Ho.
    + intros Hp. apply scan_device_step; [done|lia|done].
Qed.

End scan_laws.

Section scan_total.
Context {H : Type} `{HP : PortIO H} `{HC : !ConfigMechanism H} `{HB : BitField} `{HL : Heapless} (N : nat) (cfg : Z -> Z).

Lemma behind_bus d b : behind cfg d = Some b -> 0 <= b < 256.
Proof.
  unfold behind. destruct (_ && _); [|done]. intros [= <-]. apply (wrap_unsigned 8). lia.
Qed.

(** What is behind a bridge comes after the bridge. *)
Lemma followed_cons d p rs dest' h' b : route cfg (d, p) -> behind cfg d = b ->
  followed N cfg (fun r => exists b', b = Some b' /\ through_bus cfg b' (d :: p) r) (rs ++ [(d, p)]) dest' h' -> followed N cfg (through cfg d p) rs dest' h'.
Proof.
  intros Hr Hb (Hh & rs' & -> & Hnd & Hel & Hn). split; [done|]. exists ((d, p) :: rs'). rewrite <- app_assoc in *. split_and!; [done| | |done].
  - apply NoDup_cons. split; [|done]. intros (b' & _ & e & _ & _ & Hs)%Hel. apply suffix_length in Hs. simpl in Hs. lia.
  - intros r. by rewrite elem_of_cons, Hel, (through_bridge cfg d p b r).
Qed.

Lemma scan_function_step fuel : forall d p, device_ok d -> route cfg (d, p) -> step_ok N cfg fuel (through cfg d p) (scan_function N fuel d).
Proof.
  induction fuel as [|fuel IH]; intros d p Hok Hr; (split; [by intros r [? _]|]); intros rs h Hh Hn Hlt Hnd Hf Hd; [simpl in *; lia|]. cbn [scan_function].
  assert (Hself : (d, p) ∉ rs) by (intros Hin; apply (Hd _ Hin); split; [done|reflexivity]).
  assert (Hnd1 : NoDup (rs ++ [(d, p)])) by (apply NoDup_app; split_and!; [done| |apply NoDup_singleton]; by intros r Hin ->%list_elem_of_singleton).
  assert (Hf1 : Forall (route cfg) (rs ++ [(d, p)])) by (apply Forall_app; split; [done|by repeat constructor]).
  destruct (decide (length rs < N)%nat) as [Hl|Hl].
  2: { rewrite push_full by (rewrite length_fmap; lia). apply ends_fail. exists (rs ++ [(d, p)]). rewrite length_app. split_and!; [done|simpl; lia|done]. }
  rewrite push_ok by (rewrite length_fmap; lia). apply ends_bind. unfold device_type. reads. apply ends_ret.
  replace (rs.*1 ++ [d]) with (rs ++ [(d, p)]).*1 by (by rewrite fmap_app).
  assert (Hl1 : (length (rs ++ [(d, p)]) <= N)%nat) by (rewrite length_app; simpl; lia).
  destruct (is_standard_pci_to_pci_bridge _) eqn:Hbr; unfold is_standard_pci_to_pci_bridge in Hbr; cbn [class_code subclass] in Hbr.
  - set (b := wrap 8 (Z.shiftr (cfg (address d 0x18)) 8)). assert (Hbe : behind cfg d = Some b) by (unfold behind; by rewrite Hbr).
    apply ends_bind. unfold bus_numbers, device_type. apply ends_bind. reads. apply ends_ret. apply ends_bind.
    unfold massert, is_standard_pci_to_pci_bridge. cbn [class_code subclass]. rewrite Hbr. apply ends_ret. reads. apply ends_ret. fold b.
    destruct (scan_bus_step N cfg fuel (scan_function N fuel) (d :: p) (fun e He => IH e (d :: p) He) b) as [_ Hst].
    { split; [by eapply behind_bus|]. intros e He. by eapply route_behind. }
    eapply ends_mono; [apply (Hst (rs ++ [(d, p)])); try done; [rewrite length_app; simpl; lia|]| |done].
    + intros r Hin HU. apply elem_of_app in Hin as [Hin|Hin].
      * apply (Hd r Hin). apply (through_bridge cfg d p (Some b) r Hr Hbe). right. by exists b.
      * apply list_elem_of_singleton in Hin as ->. destruct HU as (e & _ & _ & Hs). apply suffix_length in Hs. simpl in Hs. lia.
    + intros dest' h'' Ha. eapply followed_cons; [done|exact Hbe|]. destruct Ha as (? & rs' & ? & ? & Hel & ?). split; [done|]. exists rs'. split_and!; try done.
      intros r. rewrite Hel. split; [by exists b|]. by intros (b' & [= <-] & ?).
  - apply ends_ret. eapply (followed_cons d p rs _ _ None); [done|unfold behind; by rewrite Hbr|]. apply followed_nothing; [done..|]. by intros r (b & ? & _).
Qed.

(** The scan from the host bridges. *)
Lemma scan_run h : has_config cfg h -> ends (scan N) h (followed N cfg (route cfg) []) (overfull N cfg).
Proof.
  intros Hh. set (d0 := {| bus := 0; device := 0; function := 0 |}).
  assert (Hok0 : forall f, 0 <= f < 8 -> device_ok {| bus := 0; device := 0; function := f |}) by (intros f Hf; unfold device_ok; simpl; lia).
  assert (Hbus : forall b, host_bus cfg b -> step_ok N cfg (S N) (through_bus cfg b []) (scan_bus (scan_function N (S N)) b)).
  { intros b Hb. apply scan_bus_step; [intros d Hd; by apply scan_function_step|]. split; [destruct Hb as [[_ ->]|(_ & ? & _)]; lia|].
    intros d Hd. by eapply route_host. }
  assert (Hrun : forall m, step_ok N cfg (S N) (route cfg) m -> forall h', has_config cfg h' -> ends (m []) h' (followed N cfg (route cfg) []) (overfull N cfg)).
  { intros m [_ Hm] h' Hh'. apply (Hm [] h'); try done; simpl; try lia; [constructor|by intros r ?%elem_of_nil]. }
  unfold scan. apply ends_bind. unfold is_single_function. reads. apply ends_ret. cbn beta. change (Z.shiftl 0x80 16) with 0x800000. fold d0.
  destruct (Z.eqb_spec (Z.land (cfg (address d0 12)) 0x800000) 0) as [Hs|Hs].
  - apply (Hrun (scan_bus (scan_function N (S N)) 0)); [|done]. apply (step_ext N cfg _ (through_bus cfg 0 [])); [|apply Hbus; by left].
    intros r. rewrite (route_through cfg r). split; [by exists 0; split; [left|]|]. by intros (b & [[_ ->]|[? _]] & ?).
  - apply (Hrun (mfor _ (seqZ 0 8))); [|done].
    apply (step_ext N cfg _ (fun r => exists f, f ∈ seqZ 0 8 /\ (present cfg {| bus := 0; device := 0; function := f |} /\ through_bus cfg f [] r))).
    { intros r. rewrite (route_through cfg r). split; [intros (f & ?%elem_of_seqZ & ? & ?); exists f; split; [right; split_and!; [done|lia..|done]|done]|].
      intros (b & [[? _]|(_ & ? & ?)] & ?); [done|]. exists b. split; [apply elem_of_seqZ; lia|done]. }
    apply mfor_step; [apply NoDup_seqZ| |].
    + intros f f' r _ _ [_ (e & Ho & Ht)] [_ (e' & Ho' & Ht')]. rewrite (through_inj cfg _ _ _ _ Ht Ht') in Ho. by rewrite <- (on_bus_bus cfg _ _ Ho), (on_bus_bus cfg _ _ Ho').
    + intros f Hf%elem_of_seqZ. apply step_present; [apply Hok0; lia|naive_solver|]. intros Hp.
      apply (step_ext N cfg _ (through_bus cfg f [])); [naive_solver|]. apply Hbus. right. split_and!; [done|lia..|done].
Qed.

End scan_total.

(** ** Lemmas: capabilities *)

Section capability_laws.
Context {H E : Type} `{HP : PortIO H} `{HC : !ConfigMechanism H} `{HB : BitField} (cfg : Z -> Z) (d : Device).
Hypothesis d_ok : device_ok d.

Definition id_at (p : Z) : Z := wrap 8 (cfg (address d p)).
Definition next_at (p : Z) : Z := wrap 8 (Z.shiftr (cfg (address d p)) 8).

(** The pointer to the first capability. *)
Definition first_capability : option Z :=
  let t := Z.land (wrap 8 (Z.shiftr (cfg (address d 0x0c)) 16)) 0x7f in
  if ((t =? 0) || (t =? 1)) && negb (Z.land (wrap 16 (Z.shiftr (cfg (address d 0x04)) 16)) 0x16 =? 0)
  then Some (wrap 8 (cfg (address d 0x34))) else None.

(** The list of capabilities from the pointer [p]; the pointer 0 ends it. *)
Fixpoint capability_list (p : Z) (l : list Z) : Prop :=
  match l with
  | [] => p = 0
  | q :: l => p = q /\ u8 q /\ q <> 0 /\ capability_list (next_at q) l
  end.

Lemma capability_list_det p l1 : forall l2, capability_list p l1 -> capability_list p l2 -> l1 = l2.
Proof.
  revert p. induction l1 as [|q l1 IH]; intros p [|q2 l2]; simpl; [done|naive_solver..|].
  intros (-> & _ & _ & Ha) (-> & _ & _ & Hb). f_equal. by eapply IH.
Qed.

Lemma capability_list_suffix p l1 q l2 : capability_list p (l1 ++ q :: l2) -> capability_list q (q :: l2).
Proof. revert p. induction l1 as [|x l1 IH]; intros p; simpl; [naive_solver|]. intros (_ & _ & _ & Ha). by eapply IH. Qed.

Lemma capability_list_nodup p l : capability_list p l -> NoDup l.
Proof.
  revert p. induction l as [|q l IH]; intros p Hl; [constructor|]. destruct Hl as (-> & Hu & Hq & Hl).
  constructor; [|by eapply IH]. intros Hin. apply list_elem_of_split in Hin as (l1 & l2 & ->).
  pose proof (capability_list_suffix _ _ _ _ Hl) as Hs.
  assert (Heq : q :: l1 ++ q :: l2 = q :: l2) by (eapply capability_list_det; [|exact Hs]; done).
  apply (f_equal length) in Heq. simpl in Heq. rewrite length_app in Heq. simpl in Heq. lia.
Qed.

Lemma capability_list_length p l : capability_list p l -> (length l <= 255)%nat.
Proof.
  intros Hl. pose proof (capability_list_nodup _ _ Hl) as Hnd.
  assert (Hsub : l ⊆ seqZ 1 255).
  { intros x Hx. apply elem_of_seqZ. apply list_elem_of_split in Hx as (l1 & l2 & ->).
    apply capability_list_suffix in Hl as (_ & Hu & Hn & _). unfold unsigned in Hu. lia. }
  apply (submseteq_length l (seqZ 1 255)), NoDup_submseteq; [done|]. exact Hsub.
Qed.

(** What the iterator is at: the pointer of the next capability, if any. *)
Lemma capabilities_next_run p h : has_config cfg h -> u8 p ->
  runs (E := E) (capabilities_next d p) h (fun c h' => has_config cfg h' /\
    c = (fun q => {| c_device := d; c_pointer := q |}) <$>
      (if p =? 0 then first_capability else if next_at p =? 0 then None else Some (next_at p))).
Proof.
  intros Hh Hp. unfold capabilities_next. apply ends_bind. destruct (Z.eqb_spec p 0) as [->|Hn].
  - unfold capability_pointer, first_capability, header_type, status. apply ends_bind. reads. apply ends_ret.
    destruct (_ || _); cbn [andb]; [|by apply ends_ret, ends_ret]. apply ends_bind. reads. apply ends_ret.
    destruct (negb _); [|by apply ends_ret, ends_ret]. reads. by apply ends_ret, ends_ret.
  - unfold next_capability_pointer. cbn [c_device c_pointer]. reads. apply ends_ret, ends_ret. split; [done|]. done.
Qed.

(** The first MSI-X capability of the list. *)
Definition first_msi_x (l : list Z) : option MsiX :=
  (fun p => {| x_device := d; x_pointer := p |}) <$> List.find (fun p => id_at p =? 0x11) l.

Lemma cap_msi_x_run q h : has_config cfg h -> u8 q ->
  runs (E := E) (cap_msi_x {| c_device := d; c_pointer := q |}) h (fun x h' => has_config cfg h' /\
    x = if id_at q =? 0x11 then Some {| x_device := d; x_pointer := q |} else None).
Proof.
  intros Hh Hq. unfold cap_msi_x, is_msi_x, cap_id. cbn [c_device c_pointer]. apply ends_bind, ends_bind. reads.
  by apply ends_ret, ends_ret, ends_ret.
Qed.

Lemma find_msi_x_run l : forall fuel p h, (length l < fuel)%nat -> has_config cfg h -> u8 p ->
  (if p =? 0 then match first_capability with Some q => q <> 0 /\ capability_list q l | None => l = [] end
   else capability_list (next_at p) l) ->
  runs (E := E) (find_msi_x fuel d p) h (fun x h' => has_config cfg h' /\ x = first_msi_x l).
Proof.
  induction l as [|q l IH]; intros fuel p h Hf Hh Hp Hl; (destruct fuel as [|fuel]; [simpl in Hf; lia|]); cbn [find_msi_x];
    (eapply runs_bind; [by apply capabilities_next_run|]); intros c h' [Hh' ->].
  - destruct (p =? 0); [destruct first_capability; [naive_solver|]|]; [by apply ends_ret|].
    simpl in Hl. rewrite Hl. by apply ends_ret.
  - assert (Hq : (if p =? 0 then first_capability else if next_at p =? 0 then None else Some (next_at p)) = Some q /\
      u8 q /\ q <> 0 /\ capability_list (next_at q) l).
    { destruct (p =? 0).
      - destruct first_capability; [|done]. destruct Hl as (? & -> & ? & ? & ?). done.
      - destruct Hl as (-> & ? & ? & ?). destruct (Z.eqb_spec q 0); done. }
    destruct Hq as (-> & Hu & Hn & Hl'). cbn [fmap option_fmap option_map]. eapply runs_bind; [by apply cap_msi_x_run|].
    intros x h2 [Hh2 ->]. unfold first_msi_x. cbn [List.find]. destruct (id_at q =? 0x11); [by apply ends_ret|]. cbn [c_pointer].
    apply IH; [simpl in Hf; lia|done|done|]. by rewrite (proj2 (Z.eqb_neq q 0)).
Qed.

(** Pointers that lead to each other and none of which is an MSI-X capability. *)
Lemma find_msi_x_cycle (P : Z -> Prop) fuel : (forall p, P p -> u8 p /\ p <> 0 /\ id_at p <> 0x11 /\ P (next_at p)) ->
  forall p h, has_config cfg h -> P p -> exists h', find_msi_x (E := E) fuel d p h = (Diverge, h').
Proof.
  intros HP0. induction fuel as [|fuel IH]; intros p h Hh Hp; [by exists h|]. destruct (HP0 p Hp) as (Hu & Hn & _ & Hq).
  destruct (HP0 _ Hq) as (Hqu & Hqn & Hqi & _). cbn [find_msi_x].
  destruct (proj1 (runs_Ok _ _ _) (capabilities_next_run p h Hh Hu)) as (c & h1 & Hc & Hh1 & ->).
  rewrite (mbnd_ok _ _ _ _ _ Hc), (proj2 (Z.eqb_neq p 0) Hn), (proj2 (Z.eqb_neq _ 0) Hqn). cbn [fmap option_fmap option_map].
  destruct (proj1 (runs_Ok _ _ _) (cap_msi_x_run _ h1 Hh1 Hqu)) as (x & h2 & Hx & Hh2 & ->).
  rewrite (mbnd_ok _ _ _ _ _ Hx), (proj2 (Z.eqb_neq _ 0x11) Hqi). cbn [c_pointer]. by apply IH.
Qed.

End capability_laws.

(** ** Lemmas: base address registers *)

Section bar_laws.
Context {H E : Type} `{HP : PortIO H} `{HC : !ConfigMechanism H} `{HB : BitField} (cfg : Z -> Z) (d : Device).
Hypothesis d_ok : device_ok d.

(** The number of base address registers of the header. *)
Definition bar_count : Z :=
  let t := Z.land (wrap 8 (Z.shiftr (cfg (address d 0x0c)) 16)) 0x7f in if t =? 0 then 6 else if t =? 1 then 2 else 0.

(** What the register [i] holds for a base address, as the PCI specification
    encodes it; [p] is the bit of prefetchable memory. *)
Inductive bar_at (i : Z) : Bar -> Prop :=
| bar_at_port port : 0 <= port < 2 ^ 16 -> (4 | port) -> cfg (address d (0x10 + 4 * i)) = port + 1 -> bar_at i (IoPort port)
| bar_at_mem32 a (p : bool) : 0 <= a < 2 ^ 32 -> (16 | a) -> cfg (address d (0x10 + 4 * i)) = a + (if p then 8 else 0) ->
    bar_at i (MemoryAddress a)
| bar_at_mem64 a (p : bool) : 0 <= a < 2 ^ 64 -> (16 | a) -> i < 5 ->
    cfg (address d (0x10 + 4 * i)) = a mod 2 ^ 32 + 4 + (if p then 8 else 0) ->
    cfg (address d (0x10 + 4 * (i + 1))) = a / 2 ^ 32 -> bar_at i (MemoryAddress a).

Lemma read_bar_run i b h : has_config cfg h -> 0 <= i < bar_count -> bar_at i b ->
  runs (E := E) (read_bar d i) h (fun r h' => r = b /\ has_config cfg h').
Proof.
  intros Hh Hi Hb. unfold read_bar, num_bars, header_type. apply ends_bind, ends_bind. reads. apply ends_ret, ends_ret.
  unfold bar_count in Hi. apply ends_bind. unfold massert. rewrite (proj2 (Z.ltb_lt i _)) by lia. apply ends_ret.
  assert (Hi6 : i < 6) by (repeat case_cmp; lia).
  unfold base_address_register_address, massert. rewrite (proj2 (Z.ltb_lt i 6)) by lia. apply ends_bind, ends_bind, ends_ret, ends_ret.
  apply (read_bind cfg); [done|done|unfold unsigned; lia|]. intros h2 Hh2.
  assert (Hl1 : forall x, (Z.land x 1 =? 0) = negb (Z.testbit x 0)) by (intros x; by apply (land_bit x 0)).
  assert (Hl4 : forall x, (Z.land x 4 =? 0) = negb (Z.testbit x 2)) by (intros x; by apply (land_bit x 2)).
  rewrite Hl1, Hl4, !negb_involutive.
  assert (Hport : complement 32 3 = 2 ^ 32 - 2 ^ 2) by done. assert (Hmem : complement 64 0xf = 2 ^ 64 - 2 ^ 4) by done.
  destruct Hb as [port Hp Hd ->|a p Ha Hd ->|a p Ha Hd Hi5 Hlo Hhi].
  - rewrite (testbit_low port 1 0 2) by (done || lia). cbn [Z.testbit]. apply ends_ret. split; [|done].
    rewrite Hport, high_part by (done || lia). f_equal. by apply Z.mod_small.
  - rewrite (testbit_low a _ 0 4), (testbit_low a _ 2 4) by (done || lia).
    replace (Z.testbit (if p then 8 else 0) 0) with false by by destruct p.
    replace (Z.testbit (if p then 8 else 0) 2) with false by by destruct p. cbn iota.
    apply ends_ret. split; [|done]. f_equal. rewrite Hmem. apply high_part; [lia|lia|done|destruct p; lia].
  - assert (Hdl : (2 ^ 4 | a mod 2 ^ 32)).
    { apply Z.mod_divide; [lia|]. rewrite Z.mod_mod_divide by (by exists (2 ^ 28)). by apply Z.mod_divide. }
    rewrite Hlo, <- Z.add_assoc, (testbit_low _ _ 0 4), (testbit_low _ _ 2 4) by (done || lia).
    replace (Z.testbit (4 + if p then 8 else 0) 0) with false by by destruct p.
    replace (Z.testbit (4 + if p then 8 else 0) 2) with true by by destruct p. cbn iota.
    rewrite (proj2 (Z.ltb_lt (i + 1) 6)) by lia. apply ends_bind, ends_bind, ends_ret, ends_ret.
    apply (read_bind cfg); [done|done|unfold unsigned; lia|]. intros h3 Hh3. apply ends_ret. split; [|done]. f_equal.
    rewrite Hhi, Hmem, high_part by (done || (pose proof (Z.mod_pos_bound a (2 ^ 32)); lia) || (destruct p; lia)).
    rewrite lor_low_high by (apply Z.mod_pos_bound || apply Z.div_pos || lia; lia). rewrite (Z.div_mod a (2 ^ 32)) at 3 by lia. lia.
Qed.

End bar_laws.

(** ** Lemmas: MSI-X table entries *)

Section msi_x_laws.
Context {H E : Type} `{HM : Mmio H} `{HW : !MmioMemory H}.

(** A computation that only changes the words it names. *)
Definition has_words (f : Z -> Z) (h : H) : Prop := forall q, word h q = f q.

Lemma read_volatile_bind {A} f p (k : Z -> M H E A) h Q R : has_words f h ->
  (forall h', has_words f h' -> ends (k (f p)) h' Q R) -> ends (mbnd (read_volatile p) k) h Q R.
Proof.
  intros Hf Hk. destruct (mmio_read_word h p) as (h' & Hr & Hw). unfold ends, mbnd, read_volatile. rewrite Hr, Hf.
  apply Hk. intros q. by rewrite Hw.
Qed.

Lemma write_volatile_bind {A} f p v (k : unit -> M H E A) h Q R : has_words f h -> u32 v ->
  (forall h', has_words (<[p := v]> f) h' -> ends (k tt) h' Q R) -> ends (mbnd (write_volatile p v) k) h Q R.
Proof.
  intros Hf Hv Hk. unfold ends, mbnd, write_volatile. apply Hk. intros q. rewrite mmio_write_word by done.
  destruct (decide (p = q)) as [->|]; [by rewrite fn_lookup_insert|by rewrite fn_lookup_insert_ne].
Qed.

Lemma write_volatile_run f p v h : has_words f h -> u32 v ->
  runs (E := E) (write_volatile p v) h (fun _ h' => has_words (<[p := v]> f) h').
Proof.
  intros Hf Hv. unfold runs, ends, write_volatile. intros q. rewrite mmio_write_word by done.
  destruct (decide (p = q)) as [->|]; [by rewrite fn_lookup_insert|by rewrite fn_lookup_insert_ne].
Qed.

Definition enabled_address (lapic old : Z) : Z := Z.lor (Z.lor (Z.shiftl lapic 12) ADDRESS_SUFFIX) (Z.land old 0xff0).
Definition enabled_data (vector old : Z) : Z := Z.lor (Z.lor vector LEVEL) (Z.land old 0xffff3800).

Lemma lor_u32 a b : u32 a -> u32 b -> u32 (Z.lor a b).
Proof. by apply lor_unsigned. Qed.

Lemma land_u32 a b : u32 a -> 0 <= b -> u32 (Z.land a b).
Proof.
  unfold unsigned. intros Ha Hb. replace (Z.land a b) with (Z.land a b mod 2 ^ 32); [by apply Z.mod_pos_bound|].
  rewrite <- Z.land_ones, Z.land_comm, Z.land_assoc, (Z.land_comm _ a), Z.land_ones, Z.mod_small by lia. done.
Qed.

Lemma entry_enable_run e lapic vector h : 0 <= lapic < 256 -> 32 <= vector <= 254 ->
  runs (E := E) (entry_enable e lapic vector) h (fun _ h' => has_words
    (<[e + 12 := Z.land (word h (e + 12)) (complement 32 1)]> (<[e + 8 := enabled_data vector (word h (e + 8))]>
      (<[e := enabled_address lapic (word h e)]> (word h)))) h').
Proof.
  intros Hl Hv. unfold entry_enable, message_address, set_message_address, message_data, set_message_data, vector_control, set_vector_control.
  change (e + 4 * 2) with (e + 8). change (e + 4 * 3) with (e + 12).
  assert (Hh : has_words (word h) h) by done. pose proof (word_u32 h) as Hw.
  apply ends_bind. unfold massert. rewrite (proj2 (Z.ltb_lt lapic 256)) by lia. apply ends_ret, ends_bind.
  rewrite (proj2 (Z.leb_le 32 vector)), (proj2 (Z.leb_le vector 254)) by lia. apply ends_ret.
  apply (read_volatile_bind (word h)); [done|]. intros h1 Hh1.
  eapply write_volatile_bind; [exact Hh1| |].
  { apply lor_u32; [apply lor_u32|]; [unfold unsigned; rewrite Z.shiftl_mul_pow2; lia|by unfold unsigned|by apply land_u32]. }
  intros h2 Hh2. eapply read_volatile_bind; [exact Hh2|]. intros h3 Hh3. rewrite fn_lookup_insert_ne by lia.
  eapply write_volatile_bind; [exact Hh3| |].
  { apply lor_u32; [apply lor_u32|]; [unfold unsigned; lia|by unfold unsigned|by apply land_u32]. }
  intros h4 Hh4. eapply read_volatile_bind; [exact Hh4|]. intros h5 Hh5. rewrite !fn_lookup_insert_ne by lia.
  eapply runs_mono; [apply write_volatile_run; [exact Hh5|by apply land_u32]|]. by intros [] h6 Hh6.
Qed.

(** The bits of a constant. *)
Lemma const_bits c f : forallb (fun i => Bool.eqb (Z.testbit c i) (f i)) (seqZ 0 32) = true -> forall i, 0 <= i < 32 -> Z.testbit c i = f i.
Proof.
  intros Hf i Hi. apply Bool.eqb_prop. rewrite forallb_forall in Hf. apply Hf, list_elem_of_In, elem_of_seqZ. lia.
Qed.

(** The fields of the programmed words. *)
Lemma enabled_address_bits lapic old i : 0 <= lapic < 256 -> 0 <= i < 32 ->
  Z.testbit (enabled_address lapic old) i =
    if 20 <=? i then Z.testbit 0xfee (i - 20) else if 12 <=? i then Z.testbit lapic (i - 12) else (4 <=? i) && Z.testbit old i.
Proof.
  intros Hl Hi. unfold enabled_address, ADDRESS_SUFFIX. rewrite !Z.lor_spec, Z.land_spec, !Z.shiftl_spec by lia.
  rewrite (const_bits 0xff0 (fun i => (4 <=? i) && (i <? 12)) eq_refl) by lia.
  destruct (Z.leb_spec 20 i), (Z.leb_spec 12 i), (Z.leb_spec 4 i), (Z.ltb_spec i 12); try lia; cbn [andb];
    rewrite ?andb_false_r, ?andb_true_r, ?orb_false_r.
  - by rewrite (bits_above lapic 8) by lia.
  - by rewrite (Z.testbit_neg_r 0xfee), orb_false_r by lia.
  - by rewrite !(Z.testbit_neg_r _ (i - _)) by lia.
  - by rewrite !(Z.testbit_neg_r _ (i - _)) by lia.
Qed.

Lemma enabled_data_bits vector old i : 32 <= vector <= 254 -> 0 <= i < 32 ->
  Z.testbit (enabled_data vector old) i =
    if i <? 8 then Z.testbit vector i else if i =? 15 then true else ((11 <=? i) && (i <? 14) || (16 <=? i)) && Z.testbit old i.
Proof.
  intros Hv Hi. unfold enabled_data. rewrite !Z.lor_spec, Z.land_spec.
  rewrite (const_bits 0xffff3800 (fun i => (11 <=? i) && (i <? 14) || (16 <=? i)) eq_refl) by lia.
  rewrite (const_bits LEVEL (fun i => i =? 15) eq_refl) by lia.
  destruct (Z.ltb_spec i 8), (Z.eqb_spec i 15), (Z.leb_spec 11 i), (Z.ltb_spec i 14), (Z.leb_spec 16 i); try lia; cbn [andb orb];
    rewrite ?andb_false_r, ?andb_true_r, ?orb_false_r, ?orb_true_r; try done; by rewrite (bits_above vector 8) by lia.
Qed.

Lemma unmasked_bits old i : 0 <= i < 32 -> Z.testbit (Z.land old (complement 32 1)) i = (0 <? i) && Z.testbit old i.
Proof.
  intros Hi. rewrite Z.land_spec, (const_bits (complement 32 1) (fun i => 0 <? i) eq_refl) by lia. apply andb_comm.
Qed.

End msi_x_laws.

(** ** Properties *)

Lemma tree_functions (cfg : Z -> Z) rs : tree_numbered cfg -> NoDup rs -> Forall (route cfg) rs -> NoDup rs.*1.
Proof.
  intros Ht Hnd Hf. rewrite Forall_forall in Hf. apply NoDup_fmap_2_strong; [|done]. intros [d p] [d' p'] H1 H2 E. cbn [fst] in E. subst d'.
  by rewrite (Ht d p p' (Hf _ H1) (Hf _ H2)).
Qed.

(** [C30]. The scan of the PCI buses ends whatever the configuration space
    holds (also when bridges lead back to a bus). It follows every way from the host
    bridges through bridges to a function once: it returns the functions in that
    order, exactly those that are reachable, if there are at most [N] ways, and reports
    [Full] exactly if there are more. When the bus numbers are those of a tree, each
    function is listed once, and [Full] means more than [N] functions. *)
Theorem scan_finds_reachable {H : Type} `{ConfigMechanism H} `{BitField} `{Heapless} (N : nat) (h : H) :
  ends (scan N) h
    (fun l h' => (forall a, config h' a = config h a) /\ (length l <= N)%nat /\ (forall d, d ∈ l <-> reachable_function (config h) d) /\
       (exists rs, l = rs.*1 /\ NoDup rs /\ forall r, r ∈ rs <-> route (config h) r) /\ (tree_numbered (config h) -> NoDup l))
    (fun e _ => e = Full /\ (exists rs, NoDup rs /\ length rs = S N /\ Forall (route (config h)) rs) /\
       (tree_numbered (config h) -> exists l, NoDup l /\ length l = S N /\ Forall (reachable_function (config h)) l)).
Proof.
  eapply ends_mono; [by apply (scan_run N (config h))| |].
  - intros l h' (Hh & rs & -> & Hnd & Hel & Hn). cbn [app] in *. split; [done|]. split; [by rewrite length_fmap|]. split; [|split; [by exists rs|]].
    + intros d. rewrite route_reachable, list_elem_of_fmap. split; [intros ([d' p] & -> & Hr%Hel); by exists p|].
      intros [p Hr%Hel]. by exists (d, p).
    + intros Ht. apply (tree_functions (config h)); [done..|]. apply Forall_forall. intros r. by rewrite Hel.
  - intros [] h' (rs & Hnd & Hl & Hf). split; [done|]. split; [by exists rs|]. intros Ht. exists rs.*1.
    split; [by apply (tree_functions (config h))|]. split; [by rewrite length_fmap|]. apply Forall_fmap. eapply Forall_impl; [exact Hf|].
    intros [d p] Hr. apply route_reachable. by exists p.
Qed.

(** The search for the MSI-X capability of a function follows its
    list of capabilities to the end and returns the first one with the id of MSI-X,
    or nothing; a list of capabilities that ends has at most 255 entries, which the
    search always reaches. *)
Theorem msi_x_first_capability {H E : Type} `{ConfigMechanism H} `{BitField} (d : Device) (l : list Z) (h : H) :
  device_ok d ->
  match first_capability (config h) d with Some p => p <> 0 /\ capability_list (config h) d p l | None => l = [] end ->
  runs (E := E) (msi_x d) h (fun x h' => (forall a, config h' a = config h a) /\ x = first_msi_x (config h) d l).
Proof.
  intros Hd Hl. unfold msi_x. apply (find_msi_x_run (config h) d Hd l); [|by intros a|unfold unsigned; lia|exact Hl].
  destruct (first_capability (config h) d) as [p|]; [|subst; simpl; lia].
  pose proof (capability_list_length _ _ p l (proj2 Hl)). lia.
Qed.

(** Reading a base address register returns the address that is encoded in
    it: a port, a 32-bit address, or a 64-bit address in two registers. *)
Theorem read_bar_decodes {H E : Type} `{ConfigMechanism H} `{BitField} (d : Device) (i : Z) (b : Bar) (h : H) :
  device_ok d -> 0 <= i < bar_count (config h) d -> bar_at (config h) d i b ->
  runs (E := E) (read_bar d i) h (fun r h' => r = b /\ forall a, config h' a = config h a).
Proof. intros Hd Hi Hb. by apply read_bar_run. Qed.

(** Enabling an entry of the MSI-X table directs its interrupt: the
    address of the local APIC, the vector and level triggering are set, the mask bit
    is cleared, and the reserved bits and all other registers keep their value. *)
Theorem msi_x_entry_programmed {H E : Type} `{MmioMemory H} (e lapic vector : Z) (h : H) :
  0 <= lapic < 256 -> 32 <= vector <= 254 ->
  runs (E := E) (entry_enable e lapic vector) h (fun _ h' =>
    (forall i, 0 <= i < 32 ->
      Z.testbit (word h' e) i = (if 20 <=? i then Z.testbit 0xfee (i - 20)
        else if 12 <=? i then Z.testbit lapic (i - 12) else (4 <=? i) && Z.testbit (word h e) i) /\
      Z.testbit (word h' (e + 8)) i = (if i <? 8 then Z.testbit vector i else if i =? 15 then true
        else ((11 <=? i) && (i <? 14) || (16 <=? i)) && Z.testbit (word h (e + 8)) i) /\
      Z.testbit (word h' (e + 12)) i = (0 <? i) && Z.testbit (word h (e + 12)) i) /\
    forall q, q <> e -> q <> e + 8 -> q <> e + 12 -> word h' q = word h q).
Proof.
  intros Hl Hv. eapply runs_mono; [by apply entry_enable_run|]. cbn beta. intros _ h' Hh'. split.
  - intros i Hi. rewrite !Hh'. rewrite fn_lookup_insert, !(fn_lookup_insert_ne _ (e + 12)), fn_lookup_insert by lia.
    rewrite fn_lookup_insert_ne, fn_lookup_insert by lia.
    split; [by apply enabled_address_bits|]. split; [by apply enabled_data_bits|by apply unmasked_bits].
  - intros q Hq Hq8 Hq12. rewrite Hh'. by rewrite !fn_lookup_insert_ne by congruence.
Qed.

(** A list of capabilities that leads back to itself without an MSI-X capability
    keeps the search busy for ever. *)
Lemma cyclic_capabilities_diverge {H E : Type} `{ConfigMechanism H} `{BitField} (d : Device) (p : Z) (h : H) :
  device_ok d -> u8 p -> p <> 0 -> id_at (config h) d p <> 0x11 -> next_at (config h) d p = p ->
  forall fuel, exists h', find_msi_x (E := E) fuel d p h = (Diverge, h').
Proof.
  intros Hd Hu Hp Hi Hn fuel. apply (find_msi_x_cycle (config h) d Hd (eq p)); [|done|done]. intros q <-. by rewrite Hn.
Qed.

(** The specification puts the BAR indicator of the MSI-X table into the low 3 bits
    of the register and the offset, a multiple of 8, into the others; the code
    splits the register at bit 8, which is right for the offset 0 only. *)
Lemma msi_x_table_offset_misread {H E : Type} `{ConfigMechanism H} `{BitField} (m : MsiX) (offset bir : Z) (h : H) :
  device_ok (x_device m) -> 0 <= x_pointer m < 252 -> 0 <= bir < 8 -> 0 < offset -> (8 | offset) ->
  config h (address (x_device m) (x_pointer m + 4)) = offset + bir ->
  runs (E := E) (b <- table_bir m ;; o <- table_offset m ;; ret (b, o)) h (fun r _ => r <> (bir, offset)).
Proof.
  intros Hd Hp Hb Ho [k Hk] Hc. unfold table_bir, table_offset, add_checked, checked, unsignedb.
  rewrite (proj2 (Z.leb_le 0 _)), (proj2 (Z.ltb_lt _ (2 ^ 8))) by lia. cbn [andb munwrap].
  apply ends_bind, ends_bind, ends_ret, (read_bind (config h)); [done|done|unfold unsigned; lia|]. intros h1 Hh1. apply ends_ret.
  apply ends_bind, ends_bind, ends_ret, (read_bind (config h)); [done|done|unfold unsigned; lia|]. intros h2 Hh2. apply ends_ret, ends_ret.
  rewrite Hc. unfold wrap. rewrite Z.shiftr_div_pow2 by lia. intros [= Hr1 Hr2]. change (2 ^ 8) with 256 in *. pose proof (Z.mul_div_le (offset + bir) 256). lia.
Qed.

(** ** Witnesses *)

(** Hardware with the selected register, a configuration space that reads as ones
    where nothing answers, and memory-mapped words. *)
Record machine := { m_selected : Z; m_config : gmap Z Z; m_words : gmap Z Z }.

#[export] Instance machine_ports : PortIO machine := {
  port_read w p m := (if p =? 0xcfc then wrap 32 (default 0xffffffff (m_config m !! m_selected m)) else 0, m);
  port_write w p v m :=
    if p =? 0xcf8 then {| m_selected := v; m_config := m_config m; m_words := m_words m |}
    else if p =? 0xcfc then {| m_selected := m_selected m; m_config := <[m_selected m := v]> (m_config m); m_words := m_words m |}
    else m
}.

#[export] Instance machine_mmio : Mmio machine := {
  mmio_read p m := (wrap 32 (default 0 (m_words m !! p)), m);
  mmio_write p v m := {| m_selected := m_selected m; m_config := m_config m; m_words := <[p := v]> (m_words m) |}
}.

#[export] Instance machine_config : ConfigMechanism machine.
Proof.
  refine {| config := fun m a => wrap 32 (default 0xffffffff (m_config m !! a)); selected := m_selected |}.
  - intros h a. apply wrap_unsigned. lia.
  - intros h a _. done.
  - intros h. by exists h.
Defined.

#[export] Instance machine_memory : MmioMemory machine.
Proof.
  refine {| word := fun m p => wrap 32 (default 0 (m_words m !! p)) |}.
  - intros h a. apply wrap_unsigned. lia.
  - intros h p. by exists h.
  - intros h p v q Hv. simpl. case_decide as Hq.
    + subst. rewrite lookup_insert_eq. by apply wrap_small.
    + by rewrite lookup_insert_ne.
Defined.

(** A host bridge, a bridge to bus 1, and there a virtio block device with two functions. *)
Definition demo_device : Device := {| bus := 1; device := 0; function := 0 |}.

Definition demo_machine : machine :=
  let at_ b d f r := address {| bus := b; device := d; function := f |} r in
  {| m_selected := 0; m_words := {[ 0x1000 := 0xabc; 0x1008 := 0xffffffff; 0x100c := 1 ]};
     m_config := list_to_map [
       (at_ 0 0 0 0x00, 0x12378086); (at_ 0 0 0 0x08, 0x06000000); (at_ 0 0 0 0x0c, 0);
       (at_ 0 1 0 0x00, 0x00011b36); (at_ 0 1 0 0x08, 0x06040000); (at_ 0 1 0 0x0c, 0x00010000); (at_ 0 1 0 0x18, 0x00010100);
       (at_ 1 0 0 0x00, 0x10011af4); (at_ 1 0 0 0x04, 0x00100007); (at_ 1 0 0 0x08, 0x01000000); (at_ 1 0 0 0x0c, 0x00800000);
       (at_ 1 0 0 0x10, 0xc001); (at_ 1 0 0 0x20, 0xfe00000c); (at_ 1 0 0 0x24, 0x8); (at_ 1 0 0 0x2c, 0x00021af4);
       (at_ 1 0 0 0x34, 0x40); (at_ 1 0 0 0x40, 0x00105009); (at_ 1 0 0 0x50, 0x80010011); (at_ 1 0 0 0x54, 4);
       (at_ 1 0 3 0x00, 0x10001af4); (at_ 1 0 3 0x08, 0x02000000) ] |}.

Lemma scan_finds_reachable_witness : exists l h', scan 32 demo_machine = (Ok l, h') /\
  l = [{| bus := 0; device := 0; function := 0 |}; {| bus := 0; device := 1; function := 0 |};
       demo_device; {| bus := 1; device := 0; function := 3 |}] /\
  forall d, d ∈ l <-> reachable_function (config demo_machine) d.
Proof.
  pose proof (scan_finds_reachable 32 demo_machine) as Hs. unfold ends in Hs.
  destruct (scan 32 demo_machine) as [o h'] eqn:Ho. assert (Hl : o = Ok [{| bus := 0; device := 0; function := 0 |};
    {| bus := 0; device := 1; function := 0 |}; demo_device; {| bus := 1; device := 0; function := 3 |}])
    by (transitivity (fst (scan 32 demo_machine)); [by rewrite Ho|vm_compute; reflexivity]).
  rewrite Hl in *. eexists _, h'. split; [done|]. split; [done|]. by destruct Hs as (_ & _ & Hs & _).
Defined.

Lemma demo_device_ok : device_ok demo_device.
Proof. unfold device_ok. simpl. lia. Qed.

Lemma msi_x_first_capability_witness :
  runs (E := unit) (msi_x demo_device) demo_machine (fun x _ => x = Some {| x_device := demo_device; x_pointer := 0x50 |}).
Proof.
  eapply runs_mono; [apply (msi_x_first_capability demo_device [0x40; 0x50] demo_machine demo_device_ok)|].
  - vm_compute. repeat split; congruence.
  - intros x h' [_ ->]. vm_compute. reflexivity.
Defined.

Lemma read_bar_decodes_witness :
  runs (E := unit) (read_bar demo_device 4) demo_machine (fun r h' => r = MemoryAddress 0x8fe000000 /\
    forall a, config h' a = config demo_machine a).
Proof.
  apply (read_bar_decodes demo_device 4 (MemoryAddress 0x8fe000000) demo_machine demo_device_ok).
  - vm_compute. split; congruence.
  - apply (bar_at_mem64 _ _ 4 0x8fe000000 true); [lia|by exists 0x8fe00000|lia|vm_compute; reflexivity|vm_compute; reflexivity].
Defined.

Lemma msi_x_entry_programmed_witness : exists h', entry_enable (E := unit) 0x1000 2 0x41 demo_machine = (Ok tt, h') /\
  word h' 0x1000 = 0xfee02ab0 /\ word h' 0x1008 = 0xffffb841 /\ word h' 0x100c = 0 /\
  forall q, q <> 0x1000 -> q <> 0x1008 -> q <> 0x100c -> word h' q = word demo_machine q.
Proof.
  pose proof (msi_x_entry_programmed (E := unit) 0x1000 2 0x41 demo_machine ltac:(lia) ltac:(lia)) as Hr.
  apply runs_Ok in Hr as ([] & h' & Hr & _ & Hq). exists h'. split; [done|].
  assert (Hh' : h' = snd (entry_enable (E := unit) 0x1000 2 0x41 demo_machine)) by by rewrite Hr.
  rewrite Hh' at 1 2 3. split; [vm_compute; reflexivity|]. split; [vm_compute; reflexivity|]. split; [vm_compute; reflexivity|done].
Defined.
