(* ===== verification/VirtQueue.v ===== *)
(** * Split virtqueues (src/ors-kernel/src/devices/virtio/queue.rs)

    [VirtQueue] with its descriptor table and its two rings in memory that it
    shares with the device. [transfer] and [collect] are the operations of the
    driver; the device of the specification takes requests from the available ring
    and puts them into the used ring. *)

From S2P Require Import Prelude.
Local Open Scope Z_scope.

(** ** Descriptors *)

Record Descriptor := { d_addr : Z; d_len : Z; d_flags : Z; d_next : Z }.

Definition NEXT : Z := 1.
Definition WRITE : Z := 2.

(** Memory of zeros. *)
Definition zero_descriptor : Descriptor := {| d_addr := 0; d_len := 0; d_flags := 0; d_next := 0 |}.

(** [!mask] of 16 bits. *)
Definition not16 (mask : Z) : Z := 65535 - mask.

Definition refer (addr len : Z) (write : bool) (d : Descriptor) : Descriptor :=
  {| d_addr := addr; d_len := wrap 32 len;
     d_flags := if write then Z.lor (d_flags d) WRITE else Z.land (d_flags d) (not16 WRITE); d_next := d_next d |}.

Definition next (d : Descriptor) : option Z :=
  if Z.land (d_flags d) NEXT =? 0 then None else Some (d_next d).

Definition set_next (n : option Z) (d : Descriptor) : Descriptor :=
  match n with
  | Some n => {| d_addr := d_addr d; d_len := d_len d; d_flags := Z.lor (d_flags d) NEXT; d_next := n |}
  | None => {| d_addr := d_addr d; d_len := d_len d; d_flags := Z.land (d_flags d) (not16 NEXT); d_next := 0 |}
  end.

Record Buffer (T : Type) := { b_addr : Z; b_len : Z; b_write : bool; b_associated_data : T }.
Arguments b_addr {T}. Arguments b_len {T}. Arguments b_write {T}. Arguments b_associated_data {T}.

(** ** Layout *)

Definition FRAME_SIZE : Z := 4096.

Record VirtQueueLayout := {
  num_frames : Z;
  descriptor_table_offset : Z;
  available_ring_offset : Z;
  used_ring_offset : Z
}.

(** [(x + Frame::SIZE - 1) & !(Frame::SIZE - 1)] *)
Definition align (x : Z) : Z := Z.land (x + FRAME_SIZE - 1) (2 ^ 64 - FRAME_SIZE).

Definition compute_layout (queue_size : Z) : VirtQueueLayout :=
  let descriptor_table_size := 16 * queue_size in
  let available_ring_size := 6 + 2 * queue_size in
  let used_ring_size := 6 + 8 * queue_size in
  let a := align (descriptor_table_size + available_ring_size) in
  let b := align used_ring_size in
  {| num_frames := (a + b) / FRAME_SIZE; descriptor_table_offset := 0;
     available_ring_offset := descriptor_table_size; used_ring_offset := a |}.

(** ** The queue *)

Record VirtQueue (T : Type) := {
  queue_size : Z;
  descriptor_table : list Descriptor;
  available_idx : Z;
  available_ring : list Z;
  used_idx : Z;
  used_ring : list Z;
  last_used_idx : Z;
  first_free_descriptor : Z;
  num_free_descriptors : Z;
  buffer_associated_data : list (option T)
}.
Arguments queue_size {T}. Arguments descriptor_table {T}. Arguments available_idx {T}. Arguments available_ring {T}.
Arguments used_idx {T}. Arguments used_ring {T}. Arguments last_used_idx {T}. Arguments first_free_descriptor {T}.
Arguments num_free_descriptors {T}. Arguments buffer_associated_data {T}.

Section operations.
Context {T : Type}.
Implicit Types v : VirtQueue T.

Definition with_table (t : list Descriptor) v : VirtQueue T :=
  {| queue_size := queue_size v; descriptor_table := t; available_idx := available_idx v; available_ring := available_ring v;
     used_idx := used_idx v; used_ring := used_ring v; last_used_idx := last_used_idx v;
     first_free_descriptor := first_free_descriptor v; num_free_descriptors := num_free_descriptors v;
     buffer_associated_data := buffer_associated_data v |}.

Definition with_free (first num : Z) v : VirtQueue T :=
  {| queue_size := queue_size v; descriptor_table := descriptor_table v; available_idx := available_idx v; available_ring := available_ring v;
     used_idx := used_idx v; used_ring := used_ring v; last_used_idx := last_used_idx v;
     first_free_descriptor := first; num_free_descriptors := num; buffer_associated_data := buffer_associated_data v |}.

Definition with_data (d : list (option T)) v : VirtQueue T :=
  {| queue_size := queue_size v; descriptor_table := descriptor_table v; available_idx := available_idx v; available_ring := available_ring v;
     used_idx := used_idx v; used_ring := used_ring v; last_used_idx := last_used_idx v;
     first_free_descriptor := first_free_descriptor v; num_free_descriptors := num_free_descriptors v; buffer_associated_data := d |}.

Definition with_available (idx : Z) (ring : list Z) v : VirtQueue T :=
  {| queue_size := queue_size v; descriptor_table := descriptor_table v; available_idx := idx; available_ring := ring;
     used_idx := used_idx v; used_ring := used_ring v; last_used_idx := last_used_idx v;
     first_free_descriptor := first_free_descriptor v; num_free_descriptors := num_free_descriptors v;
     buffer_associated_data := buffer_associated_data v |}.

Definition with_used (idx : Z) (ring : list Z) v : VirtQueue T :=
  {| queue_size := queue_size v; descriptor_table := descriptor_table v; available_idx := available_idx v; available_ring := available_ring v;
     used_idx := idx; used_ring := ring; last_used_idx := last_used_idx v;
     first_free_descriptor := first_free_descriptor v; num_free_descriptors := num_free_descriptors v;
     buffer_associated_data := buffer_associated_data v |}.

Definition with_last_used (idx : Z) v : VirtQueue T :=
  {| queue_size := queue_size v; descriptor_table := descriptor_table v; available_idx := available_idx v; available_ring := available_ring v;
     used_idx := used_idx v; used_ring := used_ring v; last_used_idx := idx;
     first_free_descriptor := first_free_descriptor v; num_free_descriptors := num_free_descriptors v;
     buffer_associated_data := buffer_associated_data v |}.

(** [descriptor.set_next(Some(i + 1))] for [0 <= i < queue_size - 1] over zeroed memory. *)
Definition initial_table (n : nat) : list Descriptor :=
  (fun i => if (S i <? n)%nat then set_next (Some (Z.of_nat (S i))) zero_descriptor else zero_descriptor) <$> seq 0 n.

(** The fields and the memory that [VirtQueue::new] leaves for [n] descriptors. *)
Definition new (n : nat) : VirtQueue T :=
  {| queue_size := Z.of_nat n; descriptor_table := initial_table n; available_idx := 0; available_ring := replicate n 0;
     used_idx := 0; used_ring := replicate n 0; last_used_idx := 0; first_free_descriptor := 0;
     num_free_descriptors := Z.of_nat n; buffer_associated_data := replicate n None |}.

(** An update of the descriptor [i]; [None] is an access outside of the table. *)
Definition on_descriptor (i : Z) (f : Descriptor -> Descriptor) v : option (VirtQueue T) :=
  d ← index (descriptor_table v) i;
  Some (with_table (<[Z.to_nat i := f d]> (descriptor_table v)) v).

Definition next_of (i : Z) v : option (option Z) := next <$> index (descriptor_table v) i.

(** The body of the loop of [transfer]; [None] is a panic. *)
Definition transfer_one (b : Buffer T) v : option (VirtQueue T) :=
  let i := first_free_descriptor v in
  v ← on_descriptor i (refer (b_addr b) (b_len b) (b_write b)) v;
  old ← index (buffer_associated_data v) i;
  match old with
  | Some _ => None
  | None =>
      let v := with_data (<[Z.to_nat i := Some (b_associated_data b)]> (buffer_associated_data v)) v in
      n ← next_of i v;
      if num_free_descriptors v =? 0 then None
      else if num_free_descriptors v =? 1 then
        match n with None => Some (with_free i 0 v) | Some _ => None end
      else
        match n with Some n => Some (with_free n (num_free_descriptors v - 1) v) | None => None end
  end.

Fixpoint transfer_loop (bs : list (Buffer T)) (last : option Z) v : option (option Z * VirtQueue T) :=
  match bs with
  | [] => Some (last, v)
  | b :: bs =>
      let last := Some (first_free_descriptor v) in
      v ← transfer_one b v;
      transfer_loop bs last v
  end.

(** [transfer]: [false] is the error that hands the buffers back. *)
Definition transfer (bs : list (Buffer T)) v : option (bool * VirtQueue T) :=
  if num_free_descriptors v <? zlen bs then Some (false, v)
  else
    let first := first_free_descriptor v in
    '(last, v) ← transfer_loop bs None v;
    match last with
    | None => Some (true, v)
    | Some last =>
        v ← on_descriptor last (set_next None) v;
        let slot := available_idx v mod queue_size v in
        Some (true, with_available (wrap 16 (available_idx v + 1)) (<[Z.to_nat slot := first]> (available_ring v)) v)
    end.

(** The inner loop of [collect], with the data it has handed to [handle]. *)
Fixpoint free_chain (fuel : nat) (i : Z) (handled : list T) v : outcome unit (list T * VirtQueue T) :=
  match fuel with
  | O => Diverge
  | S fuel =>
      let prev := if num_free_descriptors v =? 0 then None else Some (first_free_descriptor v) in
      match index (descriptor_table v) i with
      | None => Panic
      | Some d =>
          let v := with_table (<[Z.to_nat i := set_next prev d]> (descriptor_table v))
                     (with_free i (num_free_descriptors v + 1) v) in
          match index (buffer_associated_data v) i with
          | Some (Some a) =>
              let v := with_data (<[Z.to_nat i := None]> (buffer_associated_data v)) v in
              match next d with
              | Some n => free_chain fuel n (handled ++ [a]) v
              | None => Ok (handled ++ [a], v)
              end
          | _ => Panic
          end
      end
  end.

(** [collect]; a chain has at most as many descriptors as the table. *)
Fixpoint collect_loop (fuel : nat) (handled : list T) v : outcome unit (list T * VirtQueue T) :=
  if last_used_idx v =? used_idx v then Ok (handled, v)
  else
    match fuel with
    | O => Diverge
    | S fuel =>
        match index (used_ring v) (last_used_idx v mod queue_size v) with
        | None => Panic
        | Some e =>
            match free_chain (S (length (buffer_associated_data v))) (wrap 16 e) handled (with_last_used (wrap 16 (last_used_idx v + 1)) v) with
            | Ok (handled, v) => collect_loop fuel handled v
            | Err e => Err e
            | Panic => Panic
            | Diverge => Diverge
            end
        end
    end.

(** The turns are those of a counter of 16 bits. *)
Definition collect v : outcome unit (list T * VirtQueue T) :=
  collect_loop (Z.to_nat (wrap 16 (used_idx v - last_used_idx v))) [] v.

End operations.

(** ** The device

    What the virtio specification lets a device do with the shared memory: take
    the next request from the available ring and walk its chain, and put a request
    it has taken into the used ring. *)

Definition view (d : Descriptor) : Z * Z * bool := (d_addr d, d_len d, negb (Z.land (d_flags d) WRITE =? 0)).

Fixpoint walk (fuel : nat) (table : list Descriptor) (i : Z) : option (list (Z * Z * bool)) :=
  match fuel with
  | O => None
  | S fuel =>
      d ← index table i;
      match next d with
      | Some n => l ← walk fuel table n; Some (view d :: l)
      | None => Some [view d]
      end
  end.

(** The driver, the index of the device in the available ring, and the heads of
    the requests it has taken. *)
Record system (T : Type) := { driver : VirtQueue T; seen : Z; taken : list Z }.
Arguments driver {T}. Arguments seen {T}. Arguments taken {T}.

Inductive event (T : Type) :=
| Transfer (bs : list (Buffer T))
| Take
| Complete (k : nat)
| Collect.
Arguments Transfer {T}. Arguments Take {T}. Arguments Complete {T}. Arguments Collect {T}.

Inductive reply (T : Type) :=
| Accepted | Refused | Seen (l : list (Z * Z * bool)) | Completed | Handled (l : list T) | Nothing.
Arguments Accepted {T}. Arguments Refused {T}. Arguments Seen {T}. Arguments Completed {T}. Arguments Handled {T}. Arguments Nothing {T}.

Section system.
Context {T : Type}.

Definition device_take (s : system T) : option (reply T * system T) :=
  let v := driver s in
  if seen s =? available_idx v then Some (Nothing, s)
  else
    head ← index (available_ring v) (seen s mod queue_size v);
    l ← walk (length (descriptor_table v)) (descriptor_table v) head;
    Some (Seen l, {| driver := v; seen := wrap 16 (seen s + 1); taken := taken s ++ [head] |}).

Definition device_complete (k : nat) (s : system T) : option (reply T * system T) :=
  let v := driver s in
  match taken s !! k with
  | None => Some (Nothing, s)
  | Some head =>
      let slot := used_idx v mod queue_size v in
      Some (Completed, {| driver := with_used (wrap 16 (used_idx v + 1)) (<[Z.to_nat slot := head]> (used_ring v)) v;
                          seen := seen s; taken := delete k (taken s) |})
  end.

Definition exec (e : event T) (s : system T) : option (reply T * system T) :=
  match e with
  | Transfer bs =>
      '(ok, v) ← transfer bs (driver s);
      Some (if ok : bool then Accepted else Refused, {| driver := v; seen := seen s; taken := taken s |})
  | Take => device_take s
  | Complete k => device_complete k s
  | Collect =>
      match collect (driver s) with
      | Ok (l, v) => Some (Handled l, {| driver := v; seen := seen s; taken := taken s |})
      | _ => None
      end
  end.

Fixpoint exec_all (es : list (event T)) (s : system T) : option (list (reply T)) :=
  match es with
  | [] => Some []
  | e :: es => '(r, s) ← exec e s; rs ← exec_all es s; Some (r :: rs)
  end.

Definition start (n : nat) : system T := {| driver := new n; seen := 0; taken := [] |}.

(** ** What a virtqueue promises

    Requests are lists of buffers that move from the driver to the device and
    back; together they have at most [n] buffers. *)
Record requests := {
  room : nat;
  pending : list (list (Buffer T));
  in_flight : list (list (Buffer T));
  finished : list (list (Buffer T))
}.

Definition buffer_view (b : Buffer T) : Z * Z * bool := (b_addr b, wrap 32 (b_len b), b_write b).

Definition abs_exec (e : event T) (a : requests) : reply T * requests :=
  match e with
  | Transfer bs =>
      if decide (room a < length bs)%nat then (Refused, a)
      else match bs with
           | [] => (Accepted, a)
           | _ => (Accepted, {| room := room a - length bs; pending := pending a ++ [bs]; in_flight := in_flight a; finished := finished a |})
           end
  | Take =>
      match pending a with
      | [] => (Nothing, a)
      | r :: p => (Seen (buffer_view <$> r), {| room := room a; pending := p; in_flight := in_flight a ++ [r]; finished := finished a |})
      end
  | Complete k =>
      match in_flight a !! k with
      | None => (Nothing, a)
      | Some r => (Completed, {| room := room a; pending := pending a; in_flight := delete k (in_flight a); finished := finished a ++ [r] |})
      end
  | Collect =>
      (Handled (b_associated_data <$> mjoin (finished a)),
       {| room := room a + length (mjoin (finished a)); pending := pending a; in_flight := in_flight a; finished := [] |})
  end.

Fixpoint abs_exec_all (es : list (event T)) (a : requests) : list (reply T) :=
  match es with
  | [] => []
  | e :: es => let '(r, a) := abs_exec e a in r :: abs_exec_all es a
  end.

Definition abs_start (n : nat) : requests := {| room := n; pending := []; in_flight := []; finished := [] |}.

End system.

(** ** Lemmas: descriptors *)

Lemma next_refer a l w d : next (refer a l w d) = next d.
Proof.
  unfold next, refer. simpl. destruct w.
  - rewrite Z.land_lor_distr_l. change (Z.land WRITE NEXT) with 0. by rewrite Z.lor_0_r.
  - rewrite <- Z.land_assoc. done.
Qed.

Lemma view_refer a l w d : view (refer a l w d) = (a, wrap 32 l, w).
Proof.
  unfold view, refer. simpl. f_equal. destruct w.
  - rewrite Z.land_lor_distr_l. change (Z.land WRITE WRITE) with 2. destruct (Z.eqb_spec (Z.lor (Z.land (d_flags d) WRITE) 2) 0) as [E|]; [|done].
    apply Z.lor_eq_0_iff in E as [_ E]. done.
  - rewrite <- Z.land_assoc. change (Z.land (not16 WRITE) WRITE) with 0. by rewrite Z.land_0_r.
Qed.

Lemma next_set_next n d : next (set_next n d) = n.
Proof.
  unfold next, set_next. destruct n as [n|]; simpl.
  - rewrite Z.land_lor_distr_l. change (Z.land NEXT NEXT) with 1. destruct (Z.eqb_spec (Z.lor (Z.land (d_flags d) NEXT) 1) 0) as [E|]; [|done].
    apply Z.lor_eq_0_iff in E as [_ E]. done.
  - rewrite <- Z.land_assoc. change (Z.land (not16 NEXT) NEXT) with 0. by rewrite Z.land_0_r.
Qed.

Lemma view_set_next n d : view (set_next n d) = view d.
Proof.
  unfold view, set_next. destruct n as [n|]; simpl.
  - rewrite Z.land_lor_distr_l. change (Z.land NEXT WRITE) with 0. by rewrite Z.lor_0_r.
  - rewrite <- Z.land_assoc. done.
Qed.

(** ** Lemmas: chains of descriptors *)

(** From the entry [e] the [next] fields lead through [l] and end there. *)
Fixpoint linked (table : list Descriptor) (l : list nat) (e : option Z) : Prop :=
  match l with
  | [] => e = None
  | i :: l => e = Some (Z.of_nat i) /\ exists d, table !! i = Some d /\ linked table l (next d)
  end.

Lemma linked_ext table table' l e :
  (forall i, i ∈ l -> next <$> table' !! i = next <$> table !! i) -> linked table l e -> linked table' l e.
Proof.
  revert e. induction l as [|i l IH]; intros e Hext; [done|]. intros (-> & d & Hd & Hl). split; [done|].
  pose proof (Hext i ltac:(by left)) as Hi. rewrite Hd in Hi. destruct (table' !! i) as [d'|] eqn:Hd'; [|done].
  injection Hi as Hi. exists d'. split; [done|]. rewrite Hi. apply IH; [|done]. intros j Hj. apply Hext. by right.
Qed.

Lemma linked_app table l1 l2 e :
  linked table (l1 ++ l2) e -> l2 <> [] -> exists e', linked table l2 e' /\
    forall i d, last l1 = Some i -> table !! i = Some d -> next d = e'.
Proof.
  revert e. induction l1 as [|i l1 IH]; intros e Hl Hne; [by exists e|]. destruct Hl as (-> & d & Hd & Hl).
  destruct (IH _ Hl Hne) as (e' & He' & Hlast). exists e'. split; [done|]. intros j d' Hj Hd'. destruct l1 as [|k l1].
  - simpl in Hj. simplify_eq. simpl in Hl. destruct l2; [done|]. simpl in Hl, He'. destruct Hl as [-> _], He' as [-> _]. done.
  - by eapply Hlast.
Qed.

(** The chain is cut behind its prefix. *)
Lemma linked_cut table l1 l2 e i d :
  linked table (l1 ++ l2) e -> NoDup (l1 ++ l2) -> last l1 = Some i -> table !! i = Some d ->
  linked (<[i := set_next None d]> table) l1 e /\ linked (<[i := set_next None d]> table) l2 (next d).
Proof.
  revert e. induction l1 as [|j l1 IH]; intros e Hl Hnd Hlast Hd; [done|]. destruct Hl as (-> & d' & Hd' & Hl).
  apply NoDup_cons in Hnd as [Hj Hnd]. assert (Hlt : (i < length table)%nat) by by apply lookup_lt_Some in Hd.
  destruct l1 as [|k l1].
  - simpl in Hlast. simplify_eq. split.
    + split; [done|]. eexists. rewrite list_lookup_insert_eq by done. split; [done|]. by rewrite next_set_next.
    + eapply linked_ext; [|exact Hl]. intros x Hx. rewrite list_lookup_insert_ne; [done|]. intros ->. done.
  - destruct (IH _ Hl Hnd Hlast Hd) as [H1 H2]. split; [|done]. split; [done|]. exists d'. split; [|done].
    rewrite list_lookup_insert_ne; [done|]. intros ->. apply Hj. change (j ∈ (k :: l1) ++ l2). apply elem_of_app. left. by apply last_Some_elem_of.
Qed.

Lemma walk_linked table l i fuel :
  linked table l (Some (Z.of_nat i)) -> (length l <= fuel)%nat ->
  exists vs, walk fuel table (Z.of_nat i) = Some vs /\ Forall2 (fun j v => exists d, table !! j = Some d /\ v = view d) l vs.
Proof.
  revert i fuel. induction l as [|j l IH]; intros i fuel Hl Hf; [done|]. destruct Hl as (E & d & Hd & Hl).
  injection E as E. assert (j = i) as -> by lia. destruct fuel as [|fuel]; [simpl in Hf; lia|]. simpl in Hf |- *.
  unfold index. rewrite (proj2 (Z.leb_le _ _)) by lia. rewrite Nat2Z.id, Hd. simpl. destruct l as [|k l].
  - simpl in Hl. rewrite Hl. eexists. split; [done|]. constructor; [eauto|constructor].
  - destruct Hl as [E' Hl]. rewrite E'. destruct (IH k fuel (conj eq_refl Hl)) as (vs & -> & Hvs); [lia|]. simpl.
    eexists. split; [done|]. constructor; [eauto|done].
Qed.

(** ** Lemmas: transfer *)

Section proofs.
Context {T : Type}.
Implicit Types (v : VirtQueue T) (b : Buffer T).

(** The first free descriptor, if there is one. *)
Definition entry v : option Z := if num_free_descriptors v =? 0 then None else Some (first_free_descriptor v).

(** The parts that an operation on descriptors leaves alone. *)
Definition same_rings v v' : Prop :=
  queue_size v' = queue_size v /\ available_idx v' = available_idx v /\ available_ring v' = available_ring v /\
  used_idx v' = used_idx v /\ used_ring v' = used_ring v /\ last_used_idx v' = last_used_idx v /\
  length (descriptor_table v') = length (descriptor_table v) /\
  length (buffer_associated_data v') = length (buffer_associated_data v).

(** The descriptor [i] describes the buffer [b] and keeps its data. *)
Definition describes v (i : nat) b : Prop :=
  (exists d, descriptor_table v !! i = Some d /\ view d = buffer_view b) /\
  buffer_associated_data v !! i = Some (Some (b_associated_data b)).

(** [free] is the list of free descriptors. *)
Definition free_list v (free : list nat) : Prop :=
  num_free_descriptors v = zlen free /\ linked (descriptor_table v) free (entry v) /\
  Forall (fun i => buffer_associated_data v !! i = Some None) free.

Lemma index_nat {A} (l : list A) i : index l (Z.of_nat i) = l !! i.
Proof. unfold index. rewrite (proj2 (Z.leb_le _ _)) by lia. by rewrite Nat2Z.id. Qed.

Lemma free_list_cons v i free :
  free_list v (i :: free) -> first_free_descriptor v = Z.of_nat i /\ num_free_descriptors v = Z.of_nat (S (length free)) /\
    (exists d, descriptor_table v !! i = Some d /\ linked (descriptor_table v) free (next d)) /\ buffer_associated_data v !! i = Some None.
Proof.
  intros (Hn & (He & d & Hd & Hl) & Hf). apply Forall_cons in Hf as [Hi _]. unfold entry in He.
  rewrite (proj2 (Z.eqb_neq _ _)) in He by (rewrite Hn; simpl; lia). injection He as He. split_and!; eauto.
Qed.

Lemma transfer_one_spec b v i free :
  free_list v (i :: free) -> i ∉ free ->
  exists v', transfer_one b v = Some v' /\ same_rings v v' /\ free_list v' free /\ describes v' i b /\
    (forall j, next <$> descriptor_table v' !! j = next <$> descriptor_table v !! j) /\
    (forall j, j <> i -> descriptor_table v' !! j = descriptor_table v !! j /\ buffer_associated_data v' !! j = buffer_associated_data v !! j).
Proof.
  intros Hfl Hi. destruct (free_list_cons v i free Hfl) as (Hfirst & Hnum & (d & Hd & Hl) & Hdata). destruct Hfl as (_ & _ & Hf).
  apply Forall_cons in Hf as [_ Hf]. pose proof (lookup_lt_Some _ _ _ Hd) as Hlt. pose proof (lookup_lt_Some _ _ _ Hdata) as Hlt'.
  unfold transfer_one, on_descriptor. rewrite Hfirst, index_nat, Hd. cbn [mbind option_bind]. cbn [buffer_associated_data with_table].
  rewrite index_nat, Hdata, Nat2Z.id. cbn [mbind option_bind]. unfold next_of. cbn [descriptor_table with_table with_data].
  rewrite index_nat, list_lookup_insert_eq by done. cbn [fmap option_fmap option_map mbind option_bind]. rewrite next_refer.
  cbn [num_free_descriptors with_table with_data]. rewrite Hnum.
  set (d' := refer _ _ _ d). set (v0 := with_data _ _).
  assert (Hnext : forall j, next <$> <[i := d']> (descriptor_table v) !! j = next <$> descriptor_table v !! j).
  { intros j. destruct (decide (j = i)) as [->|Hne]; [|by rewrite list_lookup_insert_ne].
    rewrite list_lookup_insert_eq, Hd by done. simpl. unfold d'. by rewrite next_refer. }
  assert (Hv0 : forall first num, num = zlen free -> (free <> [] -> next d = Some first) -> free_list (with_free first num v0) free).
  { intros first num -> Hfst. split_and!; [done| |].
    - cbn [descriptor_table with_free with_data with_table v0]. eapply linked_ext; [intros j _; apply Hnext|]. unfold entry. simpl.
      destruct free as [|k free]; [done|]. rewrite <- (Hfst ltac:(done)). exact Hl.
    - apply Forall_forall. intros j Hj. apply (proj1 (Forall_forall _ _) Hf) in Hj as Hdj. simpl. rewrite list_lookup_insert_ne; [done|]. intros ->. done. }
  assert (Hrest : forall first num, let v' := with_free first num v0 in same_rings v v' /\ describes v' i b /\
    (forall j, next <$> descriptor_table v' !! j = next <$> descriptor_table v !! j) /\
    (forall j, j <> i -> descriptor_table v' !! j = descriptor_table v !! j /\ buffer_associated_data v' !! j = buffer_associated_data v !! j)).
  { intros first num. simpl. split_and!; try done.
    - unfold same_rings. simpl. by rewrite !length_insert.
    - split; simpl; rewrite list_lookup_insert_eq by done; [|done]. exists d'. split; [done|]. apply view_refer.
    - intros j Hj. by rewrite !list_lookup_insert_ne by done. }
  destruct free as [|k free].
  - simpl in Hl. rewrite Hl. simpl. eexists. split; [done|]. destruct (Hrest (Z.of_nat i) 0) as (? & ? & ? & ?). by split_and!.
  - simpl in Hl. destruct Hl as [Hnx _]. rewrite Hnx. rewrite (proj2 (Z.eqb_neq _ _)), (proj2 (Z.eqb_neq _ _)) by (simpl; lia).
    eexists. split; [done|]. destruct (Hrest (Z.of_nat k) (Z.of_nat (S (length (k :: free))) - 1)) as (? & ? & ? & ?). split_and!; try done.
    apply Hv0; [simpl; lia|done].
Qed.

Lemma Forall2_in_l {A B} (P : A -> B -> Prop) l k x : Forall2 P l k -> x ∈ l -> exists y, y ∈ k /\ P x y.
Proof.
  intros HF (i & Hi)%list_elem_of_lookup. destruct (Forall2_lookup_l _ _ _ _ _ HF Hi) as (y & Hy & Hp).
  exists y. split; [by eapply list_elem_of_lookup_2|done].
Qed.

Lemma same_rings_trans v1 v2 v3 : same_rings v1 v2 -> same_rings v2 v3 -> same_rings v1 v3.
Proof. unfold same_rings. intuition congruence. Qed.

Lemma transfer_loop_spec bs : forall free1 free2 v lst,
  length free1 = length bs -> free_list v (free1 ++ free2) -> NoDup (free1 ++ free2) ->
  exists v', transfer_loop bs lst v = Some (match last free1 with Some i => Some (Z.of_nat i) | None => lst end, v') /\
    same_rings v v' /\ free_list v' free2 /\ Forall2 (describes v') free1 bs /\
    (forall j, next <$> descriptor_table v' !! j = next <$> descriptor_table v !! j) /\
    (forall j, j ∉ free1 -> descriptor_table v' !! j = descriptor_table v !! j /\ buffer_associated_data v' !! j = buffer_associated_data v !! j).
Proof.
  induction bs as [|b bs IH]; intros [|i free1] free2 v lst Hlen Hfl Hnd; try done.
  { exists v. by split_and!. }
  simpl in Hlen, Hfl, Hnd. apply NoDup_cons in Hnd as [Hi Hnd].
  destruct (transfer_one_spec b v i _ Hfl Hi) as (v1 & Ht & Hs1 & Hf1 & Hd1 & Hn1 & Ho1).
  destruct (IH free1 free2 v1 (Some (first_free_descriptor v)) ltac:(lia) Hf1 Hnd) as (v' & Hl & Hs2 & Hf2 & Hd2 & Hn2 & Ho2).
  exists v'. cbn [transfer_loop]. rewrite Ht. cbn [mbind option_bind]. rewrite Hl.
  assert (Hi1 : i ∉ free1) by (intros Hin; apply Hi, elem_of_app; by left).
  destruct (free_list_cons v i _ Hfl) as (Hfirst & _). split_and!; try done.
  - rewrite last_cons. destruct (last free1); [done|]. by rewrite Hfirst.
  - by eapply same_rings_trans.
  - constructor; [|done]. unfold describes. destruct (Ho2 i Hi1) as [-> ->]. exact Hd1.
  - intros j. by rewrite Hn2, Hn1.
  - intros j [Hne Hj]%not_elem_of_cons. destruct (Ho2 j Hj) as [-> ->]. by apply Ho1.
Qed.

(** [transfer] of a non-empty request takes the first free descriptors, links
    them to a chain and publishes its head. *)
Lemma transfer_spec bs free1 free2 v i free1' :
  free1 = i :: free1' -> length free1 = length bs -> free_list v (free1 ++ free2) -> NoDup (free1 ++ free2) ->
  exists v', transfer bs v = Some (true, v') /\
    queue_size v' = queue_size v /\ available_idx v' = wrap 16 (available_idx v + 1) /\
    available_ring v' = <[Z.to_nat (available_idx v mod queue_size v) := Z.of_nat i]> (available_ring v) /\
    used_idx v' = used_idx v /\ used_ring v' = used_ring v /\ last_used_idx v' = last_used_idx v /\
    length (descriptor_table v') = length (descriptor_table v) /\ length (buffer_associated_data v') = length (buffer_associated_data v) /\
    free_list v' free2 /\ linked (descriptor_table v') free1 (Some (Z.of_nat i)) /\ Forall2 (describes v') free1 bs /\
    (forall j, j ∉ free1 -> descriptor_table v' !! j = descriptor_table v !! j /\ buffer_associated_data v' !! j = buffer_associated_data v !! j).
Proof.
  intros Hfree1 Hlen Hfl Hnd. unfold transfer.
  destruct (transfer_loop_spec bs free1 free2 v None Hlen Hfl Hnd) as (v1 & Hl & (Hs1 & Hs2 & Hs3 & Hs4 & Hs5 & Hs6 & Hs7 & Hs8) & Hf1 & Hd1 & Hn1 & Ho1).
  pose proof Hfl as (Hnum & Hlink & _). rewrite Hnum, length_app. rewrite (proj2 (Z.ltb_ge _ _)) by lia. rewrite Hl. cbn [mbind option_bind].
  destruct (last free1) as [z|] eqn:Hlast; [|by rewrite Hfree1, last_cons in Hlast; destruct (last free1')].
  assert (Hz : z ∈ free1) by by apply last_Some_elem_of.
  destruct (Forall2_in_l _ _ _ _ Hd1 Hz) as (bz & _ & (dz & Hdz & _) & _).
  assert (Hlink1 : linked (descriptor_table v1) (free1 ++ free2) (Some (Z.of_nat i))).
  { eapply linked_ext; [intros j _; apply Hn1|]. subst free1. destruct Hlink as [_ Hlink]. split; [done|exact Hlink]. }
  destruct (linked_cut _ _ _ _ z dz Hlink1 Hnd Hlast Hdz) as [Hc1 Hc2].
  unfold on_descriptor. rewrite index_nat, Hdz. cbn [mbind option_bind]. rewrite Nat2Z.id. eexists. split; [done|]. simpl.
  rewrite Hs1, Hs2, Hs3. rewrite length_insert.
  assert (Hfirst : first_free_descriptor v = Z.of_nat i) by (subst free1; by apply (free_list_cons v i _ Hfl)).
  rewrite Hfirst. split_and!; try done.
  - destruct Hf1 as (Hn & Hlf & Hdf). split_and!; try done. eapply linked_ext; [|exact Hlf]. intros j Hj. simpl.
    rewrite list_lookup_insert_ne; [done|]. intros ->. apply NoDup_app in Hnd as (_ & Hnd & _). by apply (Hnd j).
  - eapply Forall2_impl; [exact Hd1|]. intros j b ((d & Hd & Hv) & Hdat). split; [|done]. simpl.
    destruct (decide (j = z)) as [->|Hne].
    + rewrite list_lookup_insert_eq by (by apply lookup_lt_Some in Hd). exists (set_next None dz). split; [done|]. rewrite view_set_next. congruence.
    + rewrite list_lookup_insert_ne by done. eauto.
  - intros j Hj. rewrite list_lookup_insert_ne; [by apply Ho1|]. intros ->. done.
Qed.

(** ** Lemmas: collect *)

(** One turn of the inner loop. *)
Lemma free_one v i d a free :
  descriptor_table v !! i = Some d -> buffer_associated_data v !! i = Some (Some a) -> free_list v free -> i ∉ free ->
  let v' := with_data (<[i := None]> (buffer_associated_data v))
              (with_table (<[i := set_next (entry v) d]> (descriptor_table v)) (with_free (Z.of_nat i) (num_free_descriptors v + 1) v)) in
  same_rings v v' /\ free_list v' (i :: free) /\
  (forall j, j <> i -> descriptor_table v' !! j = descriptor_table v !! j /\ buffer_associated_data v' !! j = buffer_associated_data v !! j).
Proof.
  intros Hd Ha (Hn & Hl & Hf) Hi v'. pose proof (lookup_lt_Some _ _ _ Hd) as Hlt. pose proof (lookup_lt_Some _ _ _ Ha) as Hlt'. split_and!.
  - unfold same_rings, v'. simpl. by rewrite !length_insert.
  - unfold free_list, v'. simpl. split_and!.
    + lia.
    + unfold entry at 1. simpl. by rewrite (proj2 (Z.eqb_neq _ _)) by lia.
    + exists (set_next (entry v) d). rewrite list_lookup_insert_eq by done. split; [done|]. rewrite next_set_next.
      eapply linked_ext; [|exact Hl]. intros j Hj. rewrite list_lookup_insert_ne; [done|]. intros ->. done.
    + constructor; [by rewrite list_lookup_insert_eq|]. apply Forall_forall. intros j Hj.
      rewrite list_lookup_insert_ne by (intros ->; done). by apply (proj1 (Forall_forall _ _) Hf).
  - intros j Hj. unfold v'. simpl. by rewrite !list_lookup_insert_ne by done.
Qed.

Lemma free_chain_spec ids : forall i fuel v free handled as_,
  linked (descriptor_table v) ids (Some (Z.of_nat i)) -> Forall2 (fun j a => buffer_associated_data v !! j = Some (Some a)) ids as_ ->
  free_list v free -> NoDup (ids ++ free) -> (length ids <= fuel)%nat ->
  exists v', free_chain fuel (Z.of_nat i) handled v = Ok (handled ++ as_, v') /\ same_rings v v' /\ free_list v' (reverse ids ++ free) /\
    (forall j, j ∉ ids -> descriptor_table v' !! j = descriptor_table v !! j /\ buffer_associated_data v' !! j = buffer_associated_data v !! j).
Proof.
  induction ids as [|i0 ids IH]; intros i fuel v free handled as_ Hl Has Hfl Hnd Hf; [done|].
  destruct Hl as (E & d & Hd & Hl). injection E as E. assert (i0 = i) as -> by lia. clear E.
  apply Forall2_cons_inv_l in Has as (a & as' & Ha & Has & ->). simpl in Hnd. apply NoDup_cons in Hnd as [Hi Hnd].
  rewrite not_elem_of_app in Hi. destruct Hi as [Hi1 Hi2]. destruct fuel as [|fuel]; [simpl in Hf; lia|].
  destruct (free_one v i d a free Hd Ha Hfl Hi2) as (Hs1 & Hf1 & Ho1). set (v1 := with_data _ _) in *.
  cbn [free_chain]. rewrite index_nat, Hd. cbn [buffer_associated_data with_table with_free]. rewrite index_nat, Ha, Nat2Z.id.
  assert (Hv1 : with_data (<[i := None]> (buffer_associated_data v)) (with_table (<[i := set_next (entry v) d]> (descriptor_table v)) (with_free (Z.of_nat i) (num_free_descriptors v + 1) v)) = v1) by done.
  unfold entry in Hv1. cbn [descriptor_table with_table with_free num_free_descriptors]. cbn [descriptor_table with_free] in Hv1. rewrite Hv1.
  destruct ids as [|k ids].
  - simpl in Hl. rewrite Hl. apply Forall2_nil_inv_l in Has as ->. exists v1. split_and!; try done. intros j [Hj _]%not_elem_of_cons. by apply Ho1.
  - destruct Hl as [Hk Hl']. rewrite Hk.
    assert (Hl1 : linked (descriptor_table v1) (k :: ids) (Some (Z.of_nat k))).
    { eapply linked_ext; [|split; [done|exact Hl']]. intros j Hj. destruct (Ho1 j) as [-> _]; [intros ->; done|done]. }
    assert (Has1 : Forall2 (fun j a => buffer_associated_data v1 !! j = Some (Some a)) (k :: ids) as').
    { apply Forall2_same_length_lookup_2; [by eapply Forall2_length|]. intros m j a' Hm Ha'. destruct (Ho1 j) as [_ ->].
      - intros ->. apply Hi1. by eapply list_elem_of_lookup_2.
      - by eapply (Forall2_lookup_lr _ _ _ _ _ _ Has). }
    assert (Hnd1 : NoDup ((k :: ids) ++ i :: free)).
    { rewrite <- Permutation_middle. apply NoDup_cons. split; [|done]. by rewrite not_elem_of_app. }
    destruct (IH k fuel v1 (i :: free) (handled ++ [a]) as' Hl1 Has1 Hf1 Hnd1 ltac:(simpl in *; lia)) as (v' & Hfc & Hs2 & Hf2 & Ho2).
    exists v'. rewrite Hfc, <- app_assoc. split_and!; try done.
    + by eapply same_rings_trans.
    + rewrite (reverse_cons (k :: ids) i), <- app_assoc. exact Hf2.
    + intros j [Hne Hj]%not_elem_of_cons. destruct (Ho2 j Hj) as [-> ->]. by apply Ho1.
Qed.

(** ** Lemmas: rings *)

(** The entries of the ring from the counter [from] on are [hs]. *)
Definition ring_ok (n : nat) (ring : list Z) (from : Z) (hs : list Z) : Prop :=
  forall k h, hs !! k = Some h -> ring !! Z.to_nat ((from + Z.of_nat k) mod Z.of_nat n) = Some h.

(** A size for which counters of 16 bits can wrap around. *)
Definition size_ok (n : nat) : Prop := 0 < Z.of_nat n <= 2 ^ 15 /\ (Z.of_nat n | 2 ^ 16).

Lemma wrap_mod n x : size_ok n -> wrap 16 x mod Z.of_nat n = x mod Z.of_nat n.
Proof. intros [Hn Hd]. unfold wrap. by apply Z.mod_mod_divide. Qed.

Lemma ring_push n ring from hs h :
  (length hs < n)%nat -> length ring = n -> ring_ok n ring from hs ->
  ring_ok n (<[Z.to_nat ((from + zlen hs) mod Z.of_nat n) := h]> ring) from (hs ++ [h]).
Proof.
  intros Hlt Hlen Hr k h' Hk. assert (Hpos : 0 < Z.of_nat n) by lia. pose proof (Z.mod_pos_bound (from + zlen hs) (Z.of_nat n) Hpos) as Hb.
  destruct (decide (k < length hs)%nat) as [Hlk|Hge].
  - rewrite lookup_app_l in Hk by done. rewrite list_lookup_insert_ne; [by apply Hr|].
    pose proof (Z.mod_pos_bound (from + Z.of_nat k) (Z.of_nat n) Hpos) as Hb'. intros E. apply Z2Nat.inj in E; [|lia|lia].
    assert (Hz : (zlen hs - Z.of_nat k) mod Z.of_nat n = 0).
    { replace (zlen hs - Z.of_nat k) with ((from + zlen hs) - (from + Z.of_nat k)) by lia. rewrite Zminus_mod, E, Z.sub_diag. apply Z.mod_0_l. lia. }
    rewrite Z.mod_small in Hz by lia. lia.
  - rewrite lookup_app_r in Hk by lia. apply list_lookup_singleton_Some in Hk as [Hk ->].
    replace (Z.of_nat k) with (zlen hs) by lia. rewrite list_lookup_insert_eq; [done|]. lia.
Qed.

Lemma ring_pop n ring from h hs :
  ring_ok n ring from (h :: hs) -> ring !! Z.to_nat (from mod Z.of_nat n) = Some h /\ ring_ok n ring (from + 1) hs.
Proof.
  intros Hr. split.
  - specialize (Hr 0%nat h eq_refl). by rewrite Z.add_0_r in Hr.
  - intros k h' Hk. replace (from + 1 + Z.of_nat k) with (from + Z.of_nat (S k)) by lia. by apply Hr.
Qed.

Lemma ring_wrap n ring from hs : size_ok n -> ring_ok n ring from hs -> ring_ok n ring (wrap 16 from) hs.
Proof.
  intros Hn Hr k h Hk. rewrite <- Zplus_mod_idemp_l, wrap_mod, Zplus_mod_idemp_l by done. by apply Hr.
Qed.

(** Counters that are less than a full turn apart differ. *)
Lemma counter_differs x k : 0 <= x < 2 ^ 16 -> 0 < k < 2 ^ 16 -> x <> wrap 16 (x + k).
Proof.
  intros Hx Hk E. unfold wrap in E. destruct (Z_lt_ge_dec (x + k) (2 ^ 16)).
  - rewrite Z.mod_small in E by lia. lia.
  - rewrite <- (Z_mod_plus_full _ (-1)), Z.mod_small in E by lia. lia.
Qed.

Lemma wrap_range x : 0 <= wrap 16 x < 2 ^ 16.
Proof. unfold wrap. apply Z.mod_pos_bound. lia. Qed.

Lemma wrap_add x y : wrap 16 (wrap 16 x + y) = wrap 16 (x + y).
Proof. unfold wrap. by rewrite Zplus_mod_idemp_l. Qed.

(** ** The descriptors of the queue *)

Definition ids (c : list (nat * Buffer T)) : list nat := c.*1.
Definition head (c : list (nat * Buffer T)) : Z := match c with (i, _) :: _ => Z.of_nat i | [] => 0 end.

Definition chain_ok v (c : list (nat * Buffer T)) : Prop :=
  c <> [] /\ linked (descriptor_table v) (ids c) (Some (head c)) /\ Forall (fun x => describes v x.1 x.2) c.

(** The free descriptors and the chains of the requests are all descriptors,
    each once. *)
Record core (n : nat) v (free : list nat) (cs : list (list (nat * Buffer T))) : Prop := {
  co_size : queue_size v = Z.of_nat n;
  co_table : length (descriptor_table v) = n;
  co_data : length (buffer_associated_data v) = n;
  co_free : free_list v free;
  co_chains : Forall (chain_ok v) cs;
  co_all : free ++ mjoin (ids <$> cs) ≡ₚ seq 0 n
}.

Lemma core_nodup n v free cs : core n v free cs -> NoDup (free ++ mjoin (ids <$> cs)).
Proof. intros Hc. rewrite (co_all _ _ _ _ Hc). apply NoDup_seq. Qed.

Lemma core_perm n v free cs cs' : cs ≡ₚ cs' -> core n v free cs -> core n v free cs'.
Proof. intros Hp []. split; try done; [by rewrite <- Hp|]. by rewrite <- Hp. Qed.

Lemma mjoin_length_ge (cs : list (list (nat * Buffer T))) : Forall (fun c => c <> []) cs -> (length cs <= length (mjoin (ids <$> cs)))%nat.
Proof.
  induction 1 as [|c cs Hc _ IH]; [done|]. change (mjoin (ids <$> c :: cs)) with (ids c ++ mjoin (ids <$> cs)).
  assert (length (ids c) = length c) as Hl by apply length_fmap. rewrite length_app, Hl. destruct c; [done|]. cbn [length]. lia.
Qed.

Lemma core_count n v free cs : core n v free cs -> (length free + length cs <= n)%nat.
Proof.
  intros []. assert (Hl : length (free ++ mjoin (ids <$> cs)) = n) by (rewrite co_all0; apply length_seq). rewrite length_app in Hl.
  assert (Hge : (length cs <= length (mjoin (ids <$> cs)))%nat).
  { apply mjoin_length_ge. eapply Forall_impl; [exact co_chains0|]. by intros c [? _]. }
  lia.
Qed.

Lemma chain_ok_ext v v' c :
  (forall j, j ∈ ids c -> descriptor_table v' !! j = descriptor_table v !! j /\ buffer_associated_data v' !! j = buffer_associated_data v !! j) ->
  chain_ok v c -> chain_ok v' c.
Proof.
  intros Hext (Hne & Hl & Hd). split_and!; [done| |].
  - eapply linked_ext; [|exact Hl]. intros j Hj. by destruct (Hext j Hj) as [-> _].
  - apply Forall_forall. intros x Hx. pose proof (proj1 (Forall_forall _ _) Hd x Hx) as Hdx. unfold describes in *.
    destruct (Hext x.1) as [-> ->]; [|done]. apply list_elem_of_fmap. eauto.
Qed.

(** Only rings and counters differ. *)
Lemma core_rings n v v' free cs :
  queue_size v' = queue_size v -> descriptor_table v' = descriptor_table v -> buffer_associated_data v' = buffer_associated_data v ->
  num_free_descriptors v' = num_free_descriptors v -> first_free_descriptor v' = first_free_descriptor v ->
  core n v free cs -> core n v' free cs.
Proof.
  intros Hs Ht Hd Hn Hf []. split; rewrite ?Hs, ?Ht, ?Hd; try done.
  - unfold free_list, entry in *. by rewrite Ht, Hd, Hn, Hf.
  - eapply Forall_impl; [exact co_chains0|]. intros c. apply chain_ok_ext. by rewrite Ht, Hd.
Qed.

Lemma core_transfer n v free cs bs :
  core n v free cs -> bs <> [] -> (length bs <= length free)%nat ->
  exists v' c, transfer bs v = Some (true, v') /\ core n v' (drop (length bs) free) (c :: cs) /\ c.*2 = bs /\
    available_idx v' = wrap 16 (available_idx v + 1) /\
    available_ring v' = <[Z.to_nat (available_idx v mod queue_size v) := head c]> (available_ring v) /\
    used_idx v' = used_idx v /\ used_ring v' = used_ring v /\ last_used_idx v' = last_used_idx v.
Proof.
  intros Hcore Hne Hlen. pose proof (core_nodup _ _ _ _ Hcore) as Hnd. destruct Hcore as [Hsz Htb Hda Hfl Hch Hall].
  set (k := length bs) in *. assert (Hsplit : take k free ++ drop k free = free) by apply take_drop.
  assert (Htk : length (take k free) = length bs) by (rewrite length_take; lia).
  destruct (take k free) as [|i free1'] eqn:Hf1; [destruct bs; done|].
  assert (Hnd1 : NoDup ((i :: free1') ++ drop k free)) by (rewrite Hsplit; by apply NoDup_app in Hnd as [? _]).
  rewrite <- Hsplit in Hfl.
  destruct (transfer_spec bs (i :: free1') (drop k free) v i free1' eq_refl Htk Hfl Hnd1)
    as (v' & Ht & Hsz' & Hai & Har & Hui & Hur & Hlu & Htl & Hdl & Hfl' & Hlink & Hdesc & Ho).
  exists v', (zip (i :: free1') bs). assert (Hids : ids (zip (i :: free1') bs) = i :: free1') by (unfold ids; apply fst_zip; lia).
  assert (Hhd : head (zip (i :: free1') bs) = Z.of_nat i) by (destruct bs; done).
  split_and!; try done; [|apply snd_zip; lia|by rewrite Hhd]. split; rewrite ?Htl, ?Hdl; try done; [congruence| |].
  - constructor.
    + unfold chain_ok. rewrite Hids, Hhd. split_and!; [destruct bs; done|done|].
      apply Forall_forall. intros [j b] Hjb. apply list_elem_of_lookup in Hjb as (m & Hm). apply lookup_zip_Some in Hm as [Hm1 Hm2].
      exact (Forall2_lookup_lr _ _ _ _ _ _ Hdesc Hm1 Hm2).
    + apply Forall_forall. intros c Hc. apply (chain_ok_ext v); [|by apply (proj1 (Forall_forall _ _) Hch)].
      intros j Hj. apply Ho. intros Hin. apply NoDup_app in Hnd as (_ & Hnd & _). apply (Hnd j).
      * rewrite <- Hsplit. apply elem_of_app. by left.
      * apply list_elem_of_join. exists (ids c). split; [done|]. by apply list_elem_of_fmap_2.
  - rewrite fmap_cons, Hids. change (mjoin ((i :: free1') :: (ids <$> cs))) with ((i :: free1') ++ mjoin (ids <$> cs)).
    rewrite app_assoc, (Permutation_app_comm (drop k free)), Hsplit. done.
Qed.

Lemma describes_data v c :
  Forall (fun x => describes v x.1 x.2) c ->
  Forall2 (fun j a => buffer_associated_data v !! j = Some (Some a)) (ids c) (b_associated_data <$> c.*2).
Proof.
  induction 1 as [|[i b] c Hx _ IH]; [constructor|]. constructor; [apply Hx|exact IH].
Qed.

Lemma core_collect n v free c cs handled :
  core n v free (c :: cs) ->
  exists v', free_chain (S (length (buffer_associated_data v))) (head c) handled v = Ok (handled ++ (b_associated_data <$> c.*2), v') /\
    core n v' (reverse (ids c) ++ free) cs /\ same_rings v v'.
Proof.
  intros Hcore. pose proof (core_nodup _ _ _ _ Hcore) as Hnd. destruct Hcore as [Hsz Htb Hda Hfl Hch Hall].
  apply Forall_cons in Hch as [(Hne & Hlink & Hdesc) Hch].
  change (mjoin (ids <$> c :: cs)) with (ids c ++ mjoin (ids <$> cs)) in Hnd, Hall.
  assert (Hnd1 : NoDup (ids c ++ free)).
  { rewrite app_assoc in Hnd. apply NoDup_app in Hnd as [Hnd _]. by rewrite Permutation_app_comm. }
  assert (Hhd : exists i, head c = Z.of_nat i) by (destruct c as [|[i b] c]; [done|by exists i]). destruct Hhd as [i Hhd]. rewrite Hhd in *.
  assert (Hle : (length (ids c) <= S (length (buffer_associated_data v)))%nat).
  { assert (Hl : length (free ++ ids c ++ mjoin (ids <$> cs)) = n) by (rewrite Hall; apply length_seq). rewrite !length_app in Hl. lia. }
  destruct (free_chain_spec (ids c) i _ v free handled _ Hlink (describes_data v c Hdesc) Hfl Hnd1 Hle) as (v' & Hfc & Hs & Hf' & Ho).
  exists v'. split_and!; try done. destruct Hs as (Hs1 & _ & _ & _ & _ & _ & Hs7 & Hs8). split; rewrite ?Hs7, ?Hs8; try done; [congruence| |].
  - apply Forall_forall. intros c' Hc'. apply (chain_ok_ext v); [|by apply (proj1 (Forall_forall _ _) Hch)]. intros j Hj. apply Ho. intros Hin.
    rewrite app_assoc, (Permutation_app_comm free), <- app_assoc in Hnd. apply NoDup_app in Hnd as (_ & Hnd & _). apply (Hnd j Hin).
    apply elem_of_app. right. apply list_elem_of_join. exists (ids c'). split; [done|]. by apply list_elem_of_fmap_2.
  - rewrite reverse_Permutation, (Permutation_app_comm (ids c)), <- app_assoc. done.
Qed.

Definition bufs (c : list (nat * Buffer T)) : list (Buffer T) := c.*2.

Lemma head_range n v free cs c : core n v free cs -> c ∈ cs -> 0 <= head c < Z.of_nat n /\ c <> [].
Proof.
  intros [Hsz Htb Hda Hfl Hch Hall] Hc.
  destruct (proj1 (Forall_forall _ _) Hch c Hc) as (Hne & _). split; [|done]. destruct c as [|[i b] c]; [done|]. simpl.
  assert (Hin : i ∈ seq 0 n); [|apply elem_of_seq in Hin; lia]. rewrite <- Hall. apply elem_of_app. right. apply list_elem_of_join.
  exists (ids ((i, b) :: c)). split; [by left|]. by apply list_elem_of_fmap_2.
Qed.

Lemma collect_loop_spec n f : forall fuel handled v free rest,
  size_ok n -> core n v free (f ++ rest) -> 0 <= last_used_idx v < 2 ^ 16 -> length (used_ring v) = n ->
  ring_ok n (used_ring v) (last_used_idx v) (head <$> f) -> used_idx v = wrap 16 (last_used_idx v + zlen f) -> (length f <= fuel)%nat ->
  exists v' free', collect_loop fuel handled v = Ok (handled ++ (b_associated_data <$> mjoin (bufs <$> f)), v') /\
    core n v' free' rest /\ length free' = (length free + length (mjoin (bufs <$> f)))%nat /\
    available_idx v' = available_idx v /\ available_ring v' = available_ring v /\ used_idx v' = used_idx v /\
    used_ring v' = used_ring v /\ last_used_idx v' = used_idx v.
Proof.
  induction f as [|c f IH]; intros fuel handled v free rest Hn Hcore Hlu Hlen Hring Hui Hfuel.
  { assert (E : last_used_idx v = used_idx v) by (rewrite Hui; unfold wrap; rewrite Z.add_0_r, Z.mod_small; lia).
    exists v, free. simpl in Hcore. split_and!; try done; try (simpl; lia). destruct fuel; simpl; rewrite (proj2 (Z.eqb_eq _ _) E); by rewrite app_nil_r. }
  pose proof (core_count _ _ _ _ Hcore) as Hcount. rewrite length_app in Hcount. destruct fuel as [|fuel]; [simpl in Hfuel; lia|].
  rewrite fmap_cons in Hring. apply ring_pop in Hring as [Hhd Hring]. cbn [length] in Hui, Hfuel, Hcount. destruct Hn as [Hn Hdiv].
  assert (Hne : last_used_idx v <> used_idx v) by (rewrite Hui; apply counter_differs; lia).
  assert (Hsz := co_size _ _ _ _ Hcore). pose proof (Z.mod_pos_bound (last_used_idx v) (Z.of_nat n) ltac:(lia)) as Hmod.
  destruct (head_range n v free ((c :: f) ++ rest) c Hcore ltac:(by left)) as [Hc _].
  cbn [collect_loop]. rewrite (proj2 (Z.eqb_neq _ _) Hne), Hsz. unfold index. rewrite (proj2 (Z.leb_le _ _)) by lia. rewrite Hhd.
  assert (Hw : wrap 16 (head c) = head c) by (unfold wrap; rewrite Z.mod_small; lia). rewrite Hw.
  set (v0 := with_last_used _ v).
  assert (Hcore0 : core n v0 free (c :: f ++ rest)) by (eapply (core_rings n v); done).
  destruct (core_collect n v0 free c (f ++ rest) handled Hcore0) as (v1 & Hfc & Hcore1 & (Hs1 & Hs2 & Hs3 & Hs4 & Hs5 & Hs6 & _ & _)).
  change (length (buffer_associated_data v)) with (length (buffer_associated_data v0)). rewrite Hfc. simpl in Hs2, Hs3, Hs4, Hs5, Hs6.
  destruct (IH fuel (handled ++ (b_associated_data <$> c.*2)) v1 (reverse (ids c) ++ free) rest) as (v' & free' & Hcl & Hcore' & Hlf & H1 & H2 & H3 & H4 & H5).
  - done.
  - done.
  - rewrite Hs6. apply wrap_range.
  - by rewrite Hs5.
  - rewrite Hs5, Hs6. by apply ring_wrap.
  - rewrite Hs4, Hs6, wrap_add, Hui. f_equal. lia.
  - lia.
  - exists v', free'. rewrite Hcl. change (mjoin (bufs <$> c :: f)) with (c.*2 ++ mjoin (bufs <$> f)). rewrite fmap_app, app_assoc.
    split_and!; try done; try congruence. rewrite Hlf, !length_app, length_reverse. unfold ids. rewrite !length_fmap. lia.
Qed.

(** ** The simulation *)

(** The requests of [a] are chains of the driver, in the rings and with the
    device. *)
Definition represents (n : nat) (s : system T) (a : requests) : Prop :=
  exists free p i f, core n (driver s) free (p ++ i ++ f) /\
    (room a = length free /\ pending a = bufs <$> p /\ in_flight a = bufs <$> i /\ finished a = bufs <$> f /\ taken s = head <$> i) /\
    (0 <= seen s < 2 ^ 16 /\ length (available_ring (driver s)) = n /\ ring_ok n (available_ring (driver s)) (seen s) (head <$> p) /\
     available_idx (driver s) = wrap 16 (seen s + zlen p)) /\
    (0 <= last_used_idx (driver s) < 2 ^ 16 /\ length (used_ring (driver s)) = n /\
     ring_ok n (used_ring (driver s)) (last_used_idx (driver s)) (head <$> f) /\
     used_idx (driver s) = wrap 16 (last_used_idx (driver s) + zlen f)).

Lemma sim_transfer n s a bs :
  size_ok n -> represents n s a -> exists s', exec (Transfer bs) s = Some ((abs_exec (Transfer bs) a).1, s') /\
    represents n s' (abs_exec (Transfer bs) a).2.
Proof.
  intros Hn (free & p & i & f & Hcore & (Hroom & Hp & Hi & Hf & Ht) & (Hseen & Hal & Har & Hai) & Hused). cbn [exec abs_exec].
  pose proof (co_free _ _ _ _ Hcore) as (Hnum & _). destruct (decide (room a < length bs)%nat) as [Hlt|Hge].
  { unfold transfer. rewrite Hnum, (proj2 (Z.ltb_lt _ _)) by lia. eexists. split; [done|]. exists free, p, i, f. done. }
  destruct bs as [|b bs].
  { unfold transfer. rewrite (proj2 (Z.ltb_ge _ _)) by (simpl; lia). eexists. split; [done|]. by exists free, p, i, f. }
  destruct (core_transfer n _ free _ (b :: bs) Hcore ltac:(done) ltac:(lia)) as (v' & c & Htr & Hcore' & Hc & Hai' & Har' & Hui & Hur & Hlu).
  rewrite Htr. eexists. split; [done|]. pose proof (core_count _ _ _ _ Hcore') as Hcount. cbn [length] in Hcount. rewrite !length_app in Hcount.
  exists (drop (length (b :: bs)) free), (p ++ [c]), i, f. cbn [driver seen taken room pending in_flight finished fst snd]. rewrite ?Hlu. split_and!; try done; try apply Hseen; try apply Hused.
  - eapply core_perm; [|exact Hcore']. by rewrite <- !app_assoc, Permutation_middle.
  - rewrite length_drop. lia.
  - rewrite fmap_app, Hp. simpl. unfold bufs at 3. by rewrite Hc.
  - by rewrite Har', length_insert.
  - rewrite Har', fmap_app, Hai, (co_size _ _ _ _ Hcore), wrap_mod by done.
    pose proof (ring_push n (available_ring (driver s)) (seen s) (head <$> p) (head c)) as Hpush. rewrite length_fmap in Hpush. apply Hpush; [lia|done|done].
  - rewrite Hai', Hai, wrap_add, length_app. f_equal. simpl. lia.
  - rewrite Hur. apply Hused.
  - rewrite Hur. apply Hused.
  - rewrite Hui. apply Hused.
Qed.

Lemma sim_take n s a :
  size_ok n -> represents n s a -> exists s', exec Take s = Some ((abs_exec Take a).1, s') /\ represents n s' (abs_exec Take a).2.
Proof.
  intros Hn (free & p & i & f & Hcore & (Hroom & Hp & Hi & Hf & Ht) & (Hseen & Hal & Har & Hai) & Hused). cbn [exec abs_exec]. unfold device_take.
  pose proof (core_count _ _ _ _ Hcore) as Hcount. rewrite !length_app in Hcount. rewrite Hp, Hai. destruct p as [|c p].
  { assert (E : seen s = wrap 16 (seen s + Z.of_nat (length (@nil (list (nat * Buffer T)))))) by (unfold wrap; rewrite Z.add_0_r, Z.mod_small; lia).
    rewrite (proj2 (Z.eqb_eq _ _) E). exists s. split; [done|]. by exists free, [], i, f. }
  destruct Hn as [Hn Hdiv]. cbn [length] in *. rewrite (proj2 (Z.eqb_neq _ _)) by (apply counter_differs; lia).
  rewrite fmap_cons in Har. apply ring_pop in Har as [Hhd Har]. rewrite (co_size _ _ _ _ Hcore).
  pose proof (Z.mod_pos_bound (seen s) (Z.of_nat n) ltac:(lia)) as Hmod. unfold index. rewrite (proj2 (Z.leb_le _ _)) by lia. rewrite Hhd. cbn [mbind option_bind].
  pose proof (co_chains _ _ _ _ Hcore) as Hch. apply Forall_cons in Hch as [(Hne & Hlink & Hdesc) _].
  assert (Hid : exists k, head c = Z.of_nat k) by (destruct c as [|[k b] c]; [done|by exists k]). destruct Hid as [k Hk]. rewrite Hk in Hlink |- *.
  destruct (walk_linked _ _ k (length (descriptor_table (driver s))) Hlink) as (vs & -> & Hvs).
  { assert (Hl : length (free ++ mjoin (ids <$> (c :: p) ++ i ++ f)) = n) by (rewrite (co_all _ _ _ _ Hcore); apply length_seq).
    rewrite length_app in Hl. change (mjoin (ids <$> (c :: p) ++ i ++ f)) with (ids c ++ mjoin (ids <$> p ++ i ++ f)) in Hl.
    rewrite length_app in Hl. rewrite (co_table _ _ _ _ Hcore). lia. }
  cbn [mbind option_bind].
  assert (Hview : vs = buffer_view <$> bufs c).
  { clear -Hvs Hdesc. revert vs Hvs. induction Hdesc as [|[j b] c Hd _ IH]; intros vs Hvs; [by apply Forall2_nil_inv_l in Hvs|].
    apply Forall2_cons_inv_l in Hvs as (v0 & vs' & (d & Hd1 & ->) & Hvs & ->). simpl. f_equal; [|by apply IH].
    destruct Hd as ((d' & Hd' & Hv) & _). simpl in *. congruence. }
  rewrite fmap_cons, <- Hview. eexists. split; [done|]. exists free, p, (i ++ [c]), f.
  cbn [driver seen taken room pending in_flight finished fst snd]. split_and!; try done; try apply Hused.
  - eapply core_perm; [|exact Hcore]. rewrite <- (app_assoc i). simpl. rewrite (app_assoc p i (c :: f)), <- Permutation_middle, <- app_assoc. reflexivity.
  - rewrite fmap_app, Hi. done.
  - rewrite fmap_app, Ht. simpl. by rewrite Hk.
  - apply wrap_range.
  - apply wrap_range.
  - apply ring_wrap; done.
  - rewrite wrap_add, Hai. f_equal. lia.
Qed.

Lemma sim_complete n s a k :
  size_ok n -> represents n s a -> exists s', exec (Complete k) s = Some ((abs_exec (Complete k) a).1, s') /\
    represents n s' (abs_exec (Complete k) a).2.
Proof.
  intros Hn (free & p & i & f & Hcore & (Hroom & Hp & Hi & Hf & Ht) & Havail & (Hlu & Hul & Hur & Hui)). cbn [exec abs_exec]. unfold device_complete.
  pose proof (core_count _ _ _ _ Hcore) as Hcount. rewrite !length_app in Hcount. rewrite Ht, Hi, !list_lookup_fmap.
  destruct (i !! k) as [c|] eqn:Hk; cbn [fmap option_fmap option_map].
  2: { exists s. split; [done|]. by exists free, p, i, f. }
  pose proof (lookup_lt_Some _ _ _ Hk) as Hlt. assert (Hdel : i ≡ₚ c :: delete k i) by (by apply delete_Permutation).
  eexists. split; [done|]. exists free, p, (delete k i), (f ++ [c]).
  cbn [driver seen taken room pending in_flight finished fst snd with_used available_ring available_idx last_used_idx used_ring used_idx]. split_and!; try done; try apply Havail; try apply Hlu.
  - eapply (core_rings n (driver s)); try done. eapply core_perm; [|exact Hcore]. f_equiv. rewrite Hdel at 1. simpl.
    rewrite app_assoc, <- Permutation_cons_append. done.
  - by rewrite list_fmap_delete.
  - rewrite fmap_app, Hf. done.
  - by rewrite list_fmap_delete.
  - by rewrite length_insert.
  - rewrite fmap_app, Hui, (co_size _ _ _ _ Hcore), wrap_mod by done.
    pose proof (ring_push n (used_ring (driver s)) (last_used_idx (driver s)) (head <$> f) (head c)) as Hpush. rewrite length_fmap in Hpush. apply Hpush; [lia|done|done].
  - rewrite Hui, wrap_add, length_app. f_equal. simpl. lia.
Qed.

Lemma sim_collect n s a :
  size_ok n -> represents n s a -> exists s', exec Collect s = Some ((abs_exec Collect a).1, s') /\ represents n s' (abs_exec Collect a).2.
Proof.
  intros Hn (free & p & i & f & Hcore & (Hroom & Hp & Hi & Hf & Ht) & Havail & (Hlu & Hul & Hur & Hui)). cbn [exec abs_exec]. unfold collect.
  pose proof (core_count _ _ _ _ Hcore) as Hcount. rewrite !length_app in Hcount.
  assert (Hfuel : wrap 16 (used_idx (driver s) - last_used_idx (driver s)) = zlen f).
  { rewrite Hui. unfold wrap at 1, wrap. rewrite Zminus_mod_idemp_l. replace (_ + zlen f - _) with (zlen f) by lia.
    destruct Hn. rewrite Z.mod_small; lia. }
  rewrite Hfuel, Nat2Z.id.
  assert (Hcore1 : core n (driver s) free (f ++ p ++ i)).
  { eapply core_perm; [|exact Hcore]. by rewrite app_assoc, Permutation_app_comm. }
  destruct (collect_loop_spec n f (length f) [] (driver s) free (p ++ i) Hn Hcore1 Hlu Hul Hur Hui (le_n _))
    as (v' & free' & Hcl & Hcore' & Hlf & H1 & H2 & H3 & H4 & H5).
  rewrite Hcl. rewrite Hf. eexists. split; [done|]. exists free', p, i, [].
  cbn [driver seen taken room pending in_flight finished fst snd]. rewrite app_nil_r. rewrite H1, H2, H3, H4, H5. split_and!; try done; try apply Havail.
  - by rewrite Hroom, Hlf.
  - rewrite Hui. apply wrap_range.
  - rewrite Hui. apply wrap_range.
  - simpl. rewrite Z.add_0_r, Hui. unfold wrap. by rewrite Z.mod_mod.
Qed.

Lemma initial_table_lookup (n i : nat) : (i < n)%nat ->
  initial_table n !! i = Some (if (S i <? n)%nat then set_next (Some (Z.of_nat (S i))) zero_descriptor else zero_descriptor).
Proof. intros Hi. unfold initial_table. by rewrite list_lookup_fmap, lookup_seq_lt. Qed.

Lemma initial_linked (n k : nat) : forall i, (i + k = n)%nat ->
  linked (initial_table n) (seq i k) (if (i <? n)%nat then Some (Z.of_nat i) else None).
Proof.
  induction k as [|k IH]; intros i Hi; simpl.
  { by rewrite (proj2 (Nat.ltb_ge _ _)) by lia. }
  rewrite (proj2 (Nat.ltb_lt _ _)) by lia. split; [done|]. eexists. split; [by apply initial_table_lookup; lia|].
  specialize (IH (S i) ltac:(lia)). destruct (S i <? n)%nat; [by rewrite next_set_next|exact IH].
Qed.

Lemma start_represents n : size_ok n -> represents n (start n) (abs_start n).
Proof.
  intros [Hn _]. exists (seq 0 n), [], [], []. simpl. split_and!; try done; try lia; try (by rewrite length_replicate).
  - split; simpl; try done.
    + unfold initial_table. by rewrite length_fmap, length_seq.
    + by rewrite length_replicate.
    + unfold free_list, entry. simpl. split_and!.
      * by rewrite length_seq.
      * rewrite (proj2 (Z.eqb_neq _ _)) by lia. pose proof (initial_linked n n 0 eq_refl) as Hl. by rewrite (proj2 (Nat.ltb_lt _ _)) in Hl by lia.
      * apply Forall_forall. intros j Hj%elem_of_seq. apply lookup_replicate. split; [done|lia].
    + by rewrite app_nil_r.
  - by rewrite length_seq.
Qed.

Lemma exec_sim n e s a : size_ok n -> represents n s a ->
  exists s', exec e s = Some ((abs_exec e a).1, s') /\ represents n s' (abs_exec e a).2.
Proof. destruct e; [apply sim_transfer|apply sim_take|apply sim_complete|apply sim_collect]. Qed.

Lemma exec_all_spec n es : forall s a, size_ok n -> represents n s a -> exec_all es s = Some (abs_exec_all es a).
Proof.
  induction es as [|e es IH]; intros s a Hn Hr; [done|].
  destruct (exec_sim n e s a Hn Hr) as (s' & He & Hr'). cbn [exec_all abs_exec_all]. rewrite He. cbn [mbind option_bind].
  rewrite (IH s' _ Hn Hr'). cbn [mbind option_bind]. by destruct (abs_exec e a).
Qed.

(** ** Termination of [collect] *)

Definition filled (l : list (option T)) : nat := length (omap (fun x => x) l).

Lemma filled_take l i a : l !! i = Some (Some a) -> filled l = S (filled (<[i := None]> l)).
Proof.
  unfold filled. revert i. induction l as [|x l IH]; intros [|i] Hi; simplify_eq/=; [done|].
  destruct x; simpl; by rewrite (IH i Hi).
Qed.

Lemma filled_le l : (filled l <= length l)%nat.
Proof. unfold filled. induction l as [|[a|] l IH]; cbn; [done|lia|lia]. Qed.

Lemma free_chain_terminates fuel : forall i handled v, (filled (buffer_associated_data v) < fuel)%nat ->
  match free_chain fuel i handled v with
  | Diverge => False
  | Ok (_, v') => used_idx v' = used_idx v /\ last_used_idx v' = last_used_idx v
  | _ => True
  end.
Proof.
  induction fuel as [|fuel IH]; intros i handled v Hf; [lia|]. cbn [free_chain]. destruct (index (descriptor_table v) i) as [d|]; [|done].
  cbn [buffer_associated_data with_table with_free]. destruct (index (buffer_associated_data v) i) as [[a|]|] eqn:Ha; try done.
  destruct (next d) as [k|]; [|done]. unfold index in Ha. destruct (0 <=? i); [|done]. apply filled_take in Ha.
  set (v1 := with_data _ _). specialize (IH k (handled ++ [a]) v1). unfold v1 in IH at 1. cbn [buffer_associated_data with_data] in IH.
  specialize (IH ltac:(lia)). by destruct (free_chain fuel k _ v1) as [[l v']| | |].
Qed.

Lemma collect_loop_terminates fuel : forall handled v,
  u16 (last_used_idx v) -> u16 (used_idx v) -> fuel = Z.to_nat (wrap 16 (used_idx v - last_used_idx v)) -> collect_loop fuel handled v <> Diverge.
Proof.
  unfold unsigned. induction fuel as [|fuel IH]; intros handled v Hl Hu Hf; cbn [collect_loop]; destruct (Z.eqb_spec (last_used_idx v) (used_idx v)) as [|Hne]; try done.
  - exfalso. pose proof (wrap_range (used_idx v - last_used_idx v)) as Hr.
    assert (E : wrap 16 (used_idx v - last_used_idx v) = 0) by lia. unfold wrap in E. apply Z.mod_divide in E as [k Hk]; lia.
  - destruct (index (used_ring v) _) as [e|]; [|done].
    pose proof (free_chain_terminates (S (length (buffer_associated_data v))) (wrap 16 e) handled (with_last_used (wrap 16 (last_used_idx v + 1)) v)
      ltac:(pose proof (filled_le (buffer_associated_data v)); simpl; lia)) as Ht.
    destruct (free_chain _ _ _ _) as [[h v1]| | |]; try done. destruct Ht as [Hu1 Hl1]. simpl in Hu1, Hl1. apply IH; rewrite ?Hu1, ?Hl1; [apply wrap_range|done|].
    assert (E : wrap 16 (used_idx v - wrap 16 (last_used_idx v + 1)) = wrap 16 (used_idx v - last_used_idx v) - 1); [|lia].
    pose proof (wrap_range (used_idx v - last_used_idx v)) as Hr. unfold wrap in *. rewrite Zminus_mod_idemp_r.
    replace (used_idx v - (last_used_idx v + 1)) with ((used_idx v - last_used_idx v) - 1) by lia. rewrite <- Zminus_mod_idemp_l. rewrite Z.mod_small; lia.
Qed.

End proofs.


(** ** Lemmas: the layout *)

Lemma align_spec x : 0 <= x -> x + 4095 < 2 ^ 64 -> align x = (x + 4095) / 4096 * 4096.
Proof.
  intros Hx Hb. unfold align, FRAME_SIZE. replace (x + 4096 - 1) with (x + 4095) by lia. set (y := x + 4095) in *.
  change 4096 with (2 ^ 12) at 2 3. rewrite <- (Z.shiftr_div_pow2 y 12), <- (Z.shiftl_mul_pow2 _ 12) by lia. apply Z.bits_inj'. intros k Hk. rewrite Z.land_spec.
  change (2 ^ 64 - 4096) with (Z.shiftl (Z.ones 52) 12). rewrite !Z.shiftl_spec by lia.
  destruct (Z_lt_ge_dec k 12) as [Hlt|Hge].
  - rewrite (Z.testbit_neg_r (Z.ones 52)) by lia. rewrite (Z.testbit_neg_r (Z.shiftr y 12)) by lia. by rewrite andb_false_r.
  - rewrite Z.shiftr_spec by lia. replace (k - 12 + 12) with k by lia. destruct (Z_lt_ge_dec k 64).
    + rewrite Z.ones_spec_low by lia. by rewrite andb_true_r.
    + rewrite Z.bits_above_log2; [done|lia|]. destruct (decide (y = 0)) as [->|]; [simpl; lia|]. apply Z.log2_lt_pow2; [lia|].
      assert (2 ^ 64 <= 2 ^ k) by (apply Z.pow_le_mono_r; lia). lia.
Qed.

Lemma align_bounds x : 0 <= x -> x + 4095 < 2 ^ 64 -> x <= align x /\ align x < x + 4096 /\ (4096 | align x).
Proof.
  intros Hx Hb. rewrite (align_spec x Hx Hb). split_and!; [| |by exists ((x + 4095) / 4096)]; Z.to_euclidean_division_equations; lia.
Qed.

Lemma layout_parts (n : Z) :
  0 < n <= 2 ^ 15 ->
  let l := compute_layout n in
  descriptor_table_offset l = 0 /\ descriptor_table_offset l + 16 * n = available_ring_offset l /\
  available_ring_offset l + (6 + 2 * n) <= used_ring_offset l /\ (FRAME_SIZE | used_ring_offset l) /\
  used_ring_offset l + (6 + 8 * n) <= num_frames l * FRAME_SIZE.
Proof.
  intros Hn l. unfold l, compute_layout. cbn [descriptor_table_offset available_ring_offset used_ring_offset num_frames].
  destruct (align_bounds (16 * n + (6 + 2 * n))) as (H1 & H2 & [k Hk]); [lia|lia|].
  destruct (align_bounds (6 + 8 * n)) as (H3 & H4 & [j Hj]); [lia|lia|].
  split_and!; try lia; [by exists k|]. rewrite Hk, Hj. unfold FRAME_SIZE. rewrite <- Z.mul_add_distr_r, Z.div_mul by lia. lia.
Qed.

(** ** Properties *)

(** [C27]. Driven by any sequence of transfers and
    collections of the driver and of steps of the device, a fresh virtqueue never
    panics and answers what a queue of requests answers: a transfer is accepted
    exactly when there is room, the device sees the buffers of the requests in order,
    and a collection hands back the associated data of each finished request, exactly
    once and in the order in which the device finished them, also when the counters
    of 16 bits wrap around. *)
Theorem virtqueue_refines_requests {T : Type} (n : nat) (es : list (event T)) :
  size_ok n -> exec_all es (start n) = Some (abs_exec_all es (abs_start n)).
Proof. intros Hn. apply (exec_all_spec n); [done|]. by apply start_represents. Qed.

Lemma virtqueue_refines_requests_witness :
  let b x : Buffer Z := {| b_addr := 4096 * x; b_len := 512; b_write := false; b_associated_data := x |} in
  exec_all [Transfer [b 1; b 2; b 3]; Transfer [b 4; b 5]; Take; Complete 0; Collect; Transfer [b 4; b 5]; Take] (start 4) =
  Some [Accepted; Refused; Seen [(4096, 512, false); (8192, 512, false); (12288, 512, false)]; Completed; Handled [1; 2; 3]; Accepted;
        Seen [(16384, 512, false); (20480, 512, false)]].
Proof. intros b. rewrite (virtqueue_refines_requests 4); [reflexivity|]. split; [lia|]. by exists 16384. Defined.

(** [collect] returns or panics, whatever a device has
    written into the shared memory: cyclic chains and a used ring of any content
    included. *)
Theorem collect_terminates {T : Type} (v : VirtQueue T) : u16 (last_used_idx v) -> u16 (used_idx v) -> collect v <> Diverge.
Proof. intros Hl Hu. by apply collect_loop_terminates. Qed.

(** The three parts of a virtqueue lie one behind the other
    inside of its frames, the used ring at the start of a frame. *)
Theorem virtqueue_layout (n : Z) :
  0 < n <= 2 ^ 15 ->
  let l := compute_layout n in
  descriptor_table_offset l = 0 /\ descriptor_table_offset l + 16 * n = available_ring_offset l /\
  available_ring_offset l + (6 + 2 * n) <= used_ring_offset l /\ (FRAME_SIZE | used_ring_offset l) /\
  used_ring_offset l + (6 + 8 * n) <= num_frames l * FRAME_SIZE.
Proof. apply layout_parts. Qed.

Lemma virtqueue_layout_witness :
  let l := compute_layout 128 in num_frames l = 2 /\ used_ring_offset l + (6 + 8 * 128) <= num_frames l * FRAME_SIZE.
Proof. split; [reflexivity|]. apply (virtqueue_layout 128). lia. Defined.

(** A chain that is a cycle: [collect] panics on the second visit. *)
Lemma collect_terminates_witness :
  let d := {| d_addr := 0; d_len := 0; d_flags := 1; d_next := 0 |} in
  let v : VirtQueue Z := {| queue_size := 1; descriptor_table := [d]; available_idx := 1; available_ring := [0]; used_idx := 1; used_ring := [0];
    last_used_idx := 0; first_free_descriptor := 0; num_free_descriptors := 0; buffer_associated_data := [Some 7] |} in
  collect v = Panic /\ collect v <> Diverge.
Proof. intros d v. split; [reflexivity|]. apply (collect_terminates v); split; simpl; lia. Defined.
