(* ===== verification/VirtioBlock.v ===== *)
(** * VirtIO block devices (src/ors-kernel/src/devices/virtio/block.rs,
    configuration.rs and fs/volume/virtio.rs)

    The configuration registers of a legacy VirtIO device, the requests of the block
    driver, and the volume that the file system mounts. The device itself is a class:
    its registers, and what serving a request does to memory and to the disk. *)

From stdpp Require Import strings.
From S2P Require Import Scheduler Prelude Hardware Paging Pci VirtQueue Volume.
Local Open Scope Z_scope.
Local Open Scope rust_scope.

(** ** Configuration *)

Definition DEVICE_STATUS_ACKNOWLEDGE : Z := 1.
Definition DEVICE_STATUS_DRIVER : Z := 2.
Definition DEVICE_STATUS_FEATURES_OK : Z := 8.
Definition DEVICE_STATUS_DRIVER_OK : Z := 4.

Record Configuration := { c_addr : Z; msi_x_enabled : bool }.

Section configuration.
Context {H : Type} `{PortIO H} {E : Type}.
Implicit Types c : Configuration.

Definition conf_read (w : Z) c (offset : Z) : M H E Z :=
  port <- munwrap (add_checked 16 (c_addr c) offset) ;;
  inp w port.

Definition conf_write (w : Z) c (offset value : Z) : M H E unit :=
  port <- munwrap (add_checked 16 (c_addr c) offset) ;;
  outp w port value.

Definition device_features c : M H E Z := conf_read 32 c 0.
Definition set_driver_features c (value : Z) : M H E unit := conf_write 32 c 0x04 value.
Definition queue_address c : M H E Z := conf_read 32 c 0x08.
Definition set_queue_address c (value : Z) : M H E unit := conf_write 32 c 0x08 value.
Definition conf_queue_size c : M H E Z := conf_read 32 c 0x0c.
Definition queue_select c : M H E Z := conf_read 16 c 0x0e.
Definition set_queue_select c (value : Z) : M H E unit := conf_write 16 c 0x0e value.
Definition set_queue_notify c (value : Z) : M H E unit := conf_write 16 c 0x10 value.
Definition device_status c : M H E Z := conf_read 8 c 0x12.
Definition set_device_status c (value : Z) : M H E unit := conf_write 8 c 0x12 value.

Definition set_config_msix_vector c (value : Z) : M H E unit :=
  massert (msi_x_enabled c) ;;;
  conf_write 16 c 0x14 value.

Definition set_queue_msix_vector c (value : Z) : M H E unit :=
  massert (msi_x_enabled c) ;;;
  conf_write 16 c 0x16 value.

Definition device_specific_offset c : Z := if msi_x_enabled c then 0x18 else 0x14.

Definition read_device_specific (w : Z) c (offset : Z) : M H E Z := conf_read w c (device_specific_offset c + offset).
Definition write_device_specific (w : Z) c (offset value : Z) : M H E unit := conf_write w c (device_specific_offset c + offset) value.

Definition RING_INDIRECT_DESC : Z := Z.shiftl 1 28.
Definition RING_EVENT_IDX : Z := Z.shiftl 1 29.

Definition set_driver_ok c : M H E unit :=
  s <- device_status c ;;
  set_device_status c (Z.lor s DEVICE_STATUS_DRIVER_OK).

End configuration.

Definition initialize {H} `{PortIO H} (negotiate : Z -> Z) (c : Configuration) : M H string unit :=
  s <- device_status c ;;
  set_device_status c (Z.lor s DEVICE_STATUS_ACKNOWLEDGE) ;;;
  s <- device_status c ;;
  set_device_status c (Z.lor s DEVICE_STATUS_DRIVER) ;;;
  features <- device_features c ;;
  set_driver_features c (Z.land (Z.land (negotiate features) (complement 32 RING_INDIRECT_DESC)) (complement 32 RING_EVENT_IDX)) ;;;
  s <- device_status c ;;
  set_device_status c (Z.lor s DEVICE_STATUS_FEATURES_OK) ;;;
  s <- device_status c ;;
  if Z.land s DEVICE_STATUS_FEATURES_OK =? 0 then mfail "FEATURES_OK" else ret tt.

Definition configuration_from_pci_device {H} `{PortIO H} `{BitField} (d : Device) : M H string Configuration :=
  v <- is_virtio d ;;
  massert v ;;;
  bar <- read_bar d 0 ;;
  match io_port bar with
  | None => mfail "BAR0 is not an I/O address"
  | Some io_addr =>
      x <- msi_x d ;;
      enabled <- (match x with Some x => is_enabled x | None => ret false end) ;;
      ret {| c_addr := io_addr; msi_x_enabled := enabled |}
  end.

(** ** Requests *)

Module BlockError.
Inductive Error := Io | Unsupported | OutOfRange | Unknown.
End BlockError.
Import BlockError (Error).

Definition SECTOR_SIZE : Z := 512.

(** [Block::negotiate] *)
Definition negotiate (features : Z) : Z :=
  let without bit x := Z.land x (complement 32 (Z.shiftl 1 bit)) in
  without 27 (without 12 (without 11 (without 7 (without 5 features)))).

Record RequestHeader := { ty : Z; reserved : Z; h_sector : Z }.
Definition HEADER_IN : Z := 0.
Definition HEADER_OUT : Z := 1.

(** The memory of a [#[repr(C)]] header. *)
Definition header_bytes (h : RequestHeader) : list Z := to_le_bytes 4 (ty h) ++ to_le_bytes 4 (reserved h) ++ to_le_bytes 8 (h_sector h).

Definition STATUS_OK : Z := 0.
Definition STATUS_IOERR : Z := 1.
Definition STATUS_UNSUPP : Z := 2.

Definition into_result (status : Z) : outcome Error unit :=
  if status =? STATUS_OK then Ok tt
  else if status =? STATUS_IOERR then Err BlockError.Io
  else if status =? STATUS_UNSUPP then Err BlockError.Unsupported
  else Err BlockError.Unknown.

(** [Buffer::from_ref], [from_ref_mut], [from_bytes] and [from_bytes_mut] of [len]
    bytes at [ptr]; the first byte of an empty slice is out of range. *)
Definition buffer_from_ref {T} (ptr len : Z) (write : bool) (data : T) : option (Buffer T) :=
  a ← as_phys_addr ptr;
  Some {| b_addr := a; VirtQueue.b_len := len; b_write := write; b_associated_data := data |}.

Definition buffer_from_bytes {T} (ptr len : Z) (write : bool) (data : T) : option (option (Buffer T)) :=
  if len =? 0 then None else Some (buffer_from_ref ptr len write data).

(** Memory as bytes. *)
Definition memory : Type := Z -> Z.
Definition load (m : memory) (a n : Z) : list Z := m <$> seqZ a n.
Definition store (a : Z) (l : list Z) (m : memory) : memory := fun p => if (a <=? p) && (p <? a + zlen l) then at_ l (p - a) else m p.

(** ** The device *)

(** What the device does with the chain of a request. *)
Class BlockHardware (H : Type) `{PortIO H} := {
  serve : list (Z * Z * bool) -> memory -> H -> memory * H
}.

(** A block device and the task that uses it: the hardware, the virtqueue, memory,
    and where the locals of [request], the buffer of the caller and the driver are. *)
Record Block (H : Type) := {
  configuration : Configuration;
  hw : H;
  requestq : system (option Z);
  mem : memory;
  header_at : Z;
  footer_at : Z;
  buffer_at : Z;
  self_at : Z
}.
Arguments configuration {H}. Arguments hw {H}. Arguments requestq {H}. Arguments mem {H}.
Arguments header_at {H}. Arguments footer_at {H}. Arguments buffer_at {H}. Arguments self_at {H}.

Section block.
Context {H : Type} `{BlockHardware H}.
Implicit Types b : Block H.

Definition with_hw (h : H) b : Block H :=
  {| configuration := configuration b; hw := h; requestq := requestq b; mem := mem b;
     header_at := header_at b; footer_at := footer_at b; buffer_at := buffer_at b; self_at := self_at b |}.
Definition with_queue (q : system (option Z)) b : Block H :=
  {| configuration := configuration b; hw := hw b; requestq := q; mem := mem b;
     header_at := header_at b; footer_at := footer_at b; buffer_at := buffer_at b; self_at := self_at b |}.
Definition with_mem (m : memory) b : Block H :=
  {| configuration := configuration b; hw := hw b; requestq := requestq b; mem := m;
     header_at := header_at b; footer_at := footer_at b; buffer_at := buffer_at b; self_at := self_at b |}.

(** An access to the registers of the device. *)
Definition on_hw {E A} (m : M H E A) : M (Block H) E A := fun b => let '(o, h) := m (hw b) in (o, with_hw h b).
Definition on_mem {E} (f : memory -> memory) : M (Block H) E unit := fun b => (Ok tt, with_mem (f (mem b)) b).
Definition ask {E A} (f : Block H -> A) : M (Block H) E A := fun b => (Ok (f b), b).

Definition capacity {E} : M (Block H) E Z :=
  c <- ask configuration ;;
  lower <- on_hw (read_device_specific 32 c 0x0) ;;
  upper <- on_hw (read_device_specific 32 c 0x4) ;;
  ret (Z.lor lower (Z.shiftl upper 32)).

Definition check_capacity (sector len : Z) : M (Block H) Error unit :=
  let num_additional_sectors := (Z.max len 1 - 1) / SECTOR_SIZE in
  last <- munwrap (add_checked 64 sector num_additional_sectors) ;;
  c <- capacity ;;
  if last <? c then ret tt else mfail BlockError.OutOfRange.

(** [requestq.transfer(buffers)] *)
Definition block_transfer (bs : list (Buffer (option Z))) : M (Block H) Error bool := fun b =>
  match transfer bs (driver (requestq b)) with
  | Some (ok, v) => (Ok ok, with_queue {| driver := v; seen := seen (requestq b); taken := taken (requestq b) |} b)
  | None => (Panic, b)
  end.

(** [Block::collect], the handler of the interrupt: the channels it releases; [queue]
    is [queue_wait_channel]. *)
Definition block_collect (queue : Z) (q : system (option Z)) : option (list Z * system (option Z)) :=
  '(r, q) ← exec Collect q;
  match r with Handled chans => Some (omap id chans ++ [queue], q) | _ => None end.

(** [task::scheduler().block(chan, None, requestq)] with this task as the only user
    of the device: the device takes the next request, serves it and completes it,
    and its interrupt runs [Block::collect]. When that does not wake the task,
    nothing will. *)
Definition block_on (queue chan : Z) : M (Block H) Error unit := fun b =>
  match device_take (requestq b) with
  | Some (Seen chain, q) =>
      let '(m, h) := serve chain (mem b) (hw b) in
      let b := with_mem m (with_hw h b) in
      match '(_, q) ← device_complete (length (taken q) - 1) q; block_collect queue q with
      | Some (chans, q) => if decide (chan ∈ chans) then (Ok tt, with_queue q b) else (Diverge, with_queue q b)
      | None => (Panic, b)
      end
  | Some _ => (Diverge, b)
  | None => (Panic, b)
  end.

(** The loop that repeats [transfer]; [block] is the blocking of the scheduler. *)
Fixpoint transfer_all (block : Z -> Z -> M (Block H) Error unit) (fuel : nat) (queue : Z) (bs : list (Buffer (option Z))) : M (Block H) Error unit :=
  match fuel with
  | O => mdiverge
  | S fuel =>
      ok <- block_transfer bs ;;
      if ok : bool then ret tt else block queue queue ;;; transfer_all block fuel queue bs
  end.

(** [WaitChannel::from_ptr] *)
Definition channel_of (ptr : Z) : option Z := from_ptr_index ptr 0.

(** Every wait for the queue ends with the
    completion of another request, so that a wait more than there are descriptors is
    never needed. *)
Definition request_with (block : Z -> Z -> M (Block H) Error unit) (header : RequestHeader) (body : Buffer (option Z)) : M (Block H) Error unit :=
  header_at <- ask header_at ;;
  footer_at <- ask footer_at ;;
  self_at <- ask self_at ;;
  on_mem (store footer_at [0]) ;;;
  on_mem (store header_at (header_bytes header)) ;;;
  complete_channel <- munwrap (channel_of footer_at) ;;
  b0 <- munwrap (buffer_from_ref header_at 16 false None) ;;
  b2 <- munwrap (buffer_from_ref footer_at 1 true (Some complete_channel)) ;;
  queue_wait_channel <- munwrap (channel_of self_at) ;;
  n <- ask (fun b => queue_size (driver (requestq b))) ;;
  transfer_all block (S (Z.to_nat n)) queue_wait_channel [b0; body; b2] ;;;
  c <- ask configuration ;;
  on_hw (set_queue_notify c 0) ;;;
  block queue_wait_channel complete_channel ;;;
  status <- ask (fun b => mem b footer_at) ;;
  fun b => (into_result status, b).

Definition request : RequestHeader -> Buffer (option Z) -> M (Block H) Error unit := request_with block_on.

(** [Block::read] and [Block::write]; the bytes of [buf] are at [buffer_at]. *)
Definition block_read (sector : Z) (buf : list Z) : M (Block H) Error unit :=
  buffer_at <- ask buffer_at ;;
  on_mem (store buffer_at buf) ;;;
  check_capacity sector (zlen buf) ;;;
  body <- munwrap (buffer_from_bytes buffer_at (zlen buf) true None) ;;
  body <- munwrap body ;;
  request {| ty := HEADER_IN; reserved := 0; h_sector := sector |} body.

Definition block_write (sector : Z) (buf : list Z) : M (Block H) Error unit :=
  buffer_at <- ask buffer_at ;;
  on_mem (store buffer_at buf) ;;;
  check_capacity sector (zlen buf) ;;;
  body <- munwrap (buffer_from_bytes buffer_at (zlen buf) false None) ;;
  body <- munwrap body ;;
  request {| ty := HEADER_OUT; reserved := 0; h_sector := sector |} body.

(** ** The volume *)

(** [From<virtio::Error> for VolumeErrorKind] *)
Definition volume_error_kind (e : Error) : VolumeErrorKind :=
  match e with
  | BlockError.Io => Io
  | BlockError.OutOfRange => OutOfRange
  | _ => Unknown
  end.

Definition volume_error (sector : Z) (e : Error) : VolumeError := {| ve_sector := sector; ve_kind := volume_error_kind e |}.

(** [VirtIOBlockVolume]; after a read the caller sees its buffer in memory. *)
#[export] Instance VirtIOBlockVolume : Volume (Block H) := {
  sector_count b := match capacity (E := unit) b with (Ok c, _) => wrap 64 c | _ => 0 end;
  sector_size b := SECTOR_SIZE;
  read s := fun '(b, buf) =>
    let '(o, b') := mmap_err (volume_error s) (block_read s buf) b in (o, (b', load (mem b') (buffer_at b') (zlen buf)));
  write s buf := mmap_err (volume_error s) (block_write s buf)
}.

End block.

(** ** What the driver relies on *)

(** The disk of a device. *)
Class BlockState (H : Type) := {
  device_capacity : H -> Z;
  device_sector : H -> Z -> list Z
}.

Definition same_disk {H} `{BlockState H} (h h' : H) : Prop :=
  device_capacity h' = device_capacity h /\ forall s, device_sector h' s = device_sector h s.

(** The parts of the virtio specification on configuration space and block requests:
    a request is a header, whole sectors of data and a status byte. *)
Class BlockDevice (H : Type) `{BlockHardware H} `{BlockState H} (c : Configuration) := {
  conf_ok : 0 <= c_addr c /\ c_addr c + 0x20 <= 2 ^ 16;
  capacity_u64 h : u64 (device_capacity h);
  sector_ok h s : 0 <= s < device_capacity h -> zlen (device_sector h s) = 512 /\ bytes_ok (device_sector h s);
  capacity_low h : exists h', port_read 32 (c_addr c + (device_specific_offset c + 0)) h = (device_capacity h mod 2 ^ 32, h') /\ same_disk h h';
  capacity_high h : exists h', port_read 32 (c_addr c + (device_specific_offset c + 4)) h = (device_capacity h / 2 ^ 32, h') /\ same_disk h h';
  notify_same h v : same_disk h (port_write 16 (c_addr c + 0x10) v h);
  serve_in h m hd bd ft s k : 0 < k -> 0 <= s -> s + k <= device_capacity h ->
    load m hd 16 = header_bytes {| ty := HEADER_IN; reserved := 0; h_sector := s |} -> exists m' h',
      serve [(hd, 16, false); (bd, 512 * k, true); (ft, 1, true)] m h = (m', h') /\
      (forall p, m' p = store ft [STATUS_OK] (store bd (mjoin (device_sector h <$> seqZ s k)) m) p) /\ same_disk h h';
  serve_out h m hd bd ft s k : 0 < k -> 0 <= s -> s + k <= device_capacity h -> bytes_ok (load m bd (512 * k)) ->
    load m hd 16 = header_bytes {| ty := HEADER_OUT; reserved := 0; h_sector := s |} -> exists m' h',
      serve [(hd, 16, false); (bd, 512 * k, false); (ft, 1, true)] m h = (m', h') /\
      (forall p, m' p = store ft [STATUS_OK] m p) /\ device_capacity h' = device_capacity h /\
      forall t, device_sector h' t = if decide (s <= t < s + k) then sub (load m bd (512 * k)) (512 * (t - s)) 512 else device_sector h t
}.

(** ** Lemmas: memory *)

Lemma store_lookup a l m p : store a l m p = if decide (a <= p < a + zlen l) then at_ l (p - a) else m p.
Proof. unfold store. destruct (Z.leb_spec a p), (Z.ltb_spec p (a + zlen l)); simpl; case_decide; lia || done. Qed.

Lemma load_ext (m m' : memory) a n : (forall p, a <= p < a + n -> m p = m' p) -> load m a n = load m' a n.
Proof. intros Hm. unfold load. apply list_fmap_ext. intros i p Hp%list_elem_of_lookup_2. apply Hm. apply elem_of_seqZ in Hp. lia. Qed.

Lemma length_load m a n : 0 <= n -> zlen (load m a n) = n.
Proof. intros Hn. unfold load. rewrite length_fmap, length_seqZ. lia. Qed.

Lemma load_store a l m : load (store a l m) a (zlen l) = l.
Proof.
  apply list_eq_same_length with (length l); [done|rewrite <- (Nat2Z.id (length (load _ _ _))), length_load; lia|].
  intros i x y Hi Hx Hy. unfold load in Hx. rewrite list_lookup_fmap in Hx.
  rewrite (lookup_seqZ_lt a (zlen l) i) in Hx by lia. injection Hx as <-. rewrite store_lookup.
  rewrite decide_True by lia. unfold at_, index. replace (a + Z.of_nat i - a) with (Z.of_nat i) by lia.
  rewrite (proj2 (Z.leb_le 0 _)), Nat2Z.id, Hy by lia. done.
Qed.

Lemma load_store_other a l m b n : b + n <= a \/ a + zlen l <= b -> load (store a l m) b n = load m b n.
Proof. intros Hd. apply load_ext. intros p Hp. rewrite store_lookup. by rewrite decide_False by lia. Qed.

Lemma store_other a l m p : p < a \/ a + zlen l <= p -> store a l m p = m p.
Proof. intros Hp. rewrite store_lookup. by rewrite decide_False by lia. Qed.

Lemma store_byte a x m : store a [x] m a = x.
Proof. rewrite store_lookup. rewrite decide_True by (simpl; lia). by rewrite Z.sub_diag. Qed.

Lemma length_header h : zlen (header_bytes h) = 16.
Proof. unfold header_bytes. by rewrite !length_app, !length_to_le_bytes. Qed.

Lemma channel_of_low a : 0 <= a < 2 ^ 36 -> channel_of a = Some a.
Proof.
  intros Ha. unfold channel_of, from_ptr_index. rewrite (proj2 (Z.ltb_lt a (2 ^ 63))) by lia.
  rewrite (proj2 (Z.leb_le _ _)), (proj2 (Z.ltb_lt _ _)) by lia. cbn [andb]. rewrite Z.add_0_r.
  change (2 ^ 63 - 1) with (Z.ones 63). rewrite Z.land_ones, Z.mod_small by lia. done.
Qed.

Lemma buffer_from_ref_low {T} a len w (d : T) : 0 <= a < 2 ^ 36 ->
  buffer_from_ref a len w d = Some {| b_addr := a; VirtQueue.b_len := len; b_write := w; b_associated_data := d |}.
Proof. intros Ha. unfold buffer_from_ref, as_phys_addr, Size1GiB. by rewrite (proj2 (Z.ltb_lt _ _)) by lia. Qed.

(** ** Lemmas: requests *)

Section driver.
Context {H : Type} `{HP : PortIO H} `{HH : !BlockHardware H} `{HS : BlockState H} {c : Configuration} `{HD : !BlockDevice H c}.
Implicit Types b : Block H.

Lemma same_disk_trans h1 h2 h3 : same_disk h1 h2 -> same_disk h2 h3 -> same_disk h1 h3.
Proof. intros [H1 H2] [H3 H4]. split; [congruence|]. intros s. by rewrite H4. Qed.

Lemma device_offset : 0x14 <= device_specific_offset c <= 0x18.
Proof. unfold device_specific_offset. destruct (msi_x_enabled c); lia. Qed.

Lemma conf_port off : 0 <= off < 0x20 -> add_checked 16 (c_addr c) off = Some (c_addr c + off).
Proof.
  intros Ho. pose proof conf_ok. unfold add_checked, checked, unsignedb.
  by rewrite (proj2 (Z.leb_le _ _)), (proj2 (Z.ltb_lt _ _)) by lia.
Qed.

Lemma capacity_run {E} b : configuration b = c -> exists h',
  capacity (E := E) b = (Ok (device_capacity (hw b)), with_hw h' b) /\ same_disk (hw b) h'.
Proof.
  intros Hc. pose proof device_offset. destruct (capacity_low (hw b)) as (h1 & Hr1 & Hs1). destruct (capacity_high h1) as (h2 & Hr2 & Hs2).
  exists h2. split; [|by eapply same_disk_trans].
  unfold capacity, ask, on_hw, read_device_specific, conf_read, inp, mbnd, munwrap. rewrite Hc, !conf_port by lia.
  cbn [ret hw]. rewrite Hr1. cbn [hw with_hw]. rewrite Hr2. unfold ret. f_equal. f_equal. destruct Hs1 as [-> _].
  pose proof (capacity_u64 (hw b)) as Hu. unfold unsigned in Hu.
  rewrite lor_low_high; [|lia|apply Z.mod_pos_bound; lia|apply Z.div_pos; lia]. rewrite (Z.div_mod (device_capacity (hw b)) (2 ^ 32)) at 3 by lia. lia.
Qed.

Lemma check_capacity_run b s k len : configuration b = c -> 0 <= s -> 0 < k -> len = 512 * k -> s + k <= 2 ^ 64 -> exists h',
  check_capacity s len b = (if s + k <=? device_capacity (hw b) then Ok tt else Err BlockError.OutOfRange, with_hw h' b) /\ same_disk (hw b) h'.
Proof.
  intros Hc Hs Hk -> Hsk. destruct (capacity_run (E := Error) b Hc) as (h' & Hcap & Hsame). exists h'. split; [|done].
  unfold check_capacity, SECTOR_SIZE. rewrite Z.max_l by lia.
  replace (512 * k - 1) with (511 + (k - 1) * 512) by lia. rewrite Z.div_add by lia. change (511 / 512) with 0. rewrite Z.add_0_l.
  unfold add_checked, checked, unsignedb. rewrite (proj2 (Z.leb_le _ _)), (proj2 (Z.ltb_lt _ _)) by lia. cbn [andb munwrap].
  unfold mbnd at 1. cbn [ret]. rewrite (mbnd_ok _ _ _ _ _ Hcap).
  destruct (Z.ltb_spec (s + (k - 1)) (device_capacity (hw b))), (Z.leb_spec (s + k) (device_capacity (hw b))); lia || done.
Qed.

Lemma represents_taken {T} n (s : system T) a : represents n s a -> length (taken s) = length (in_flight a).
Proof. intros (free & p & i & f & _ & (_ & _ & Hi & _ & Ht) & _). by rewrite Hi, Ht, !length_fmap. Qed.

Lemma block_transfer_run bs q b : exec (Transfer bs) (requestq b) = Some (Accepted, q) ->
  block_transfer bs b = (Ok true, with_queue q b).
Proof.
  cbn [exec]. unfold block_transfer. destruct (transfer bs (driver (requestq b))) as [[[] v]|]; cbn [mbind option_bind]; [|done..].
  by intros [= <-].
Qed.

Lemma mbnd_ask {E A B} (f : Block H -> A) (k : A -> M (Block H) E B) b : mbnd (ask f) k b = k (f b) b.
Proof. done. Qed.

Lemma mbnd_on_mem {E B} f (k : unit -> M (Block H) E B) b : mbnd (on_mem f) k b = k tt (with_mem (f (mem b)) b).
Proof. done. Qed.

Lemma mbnd_unwrap {S E A B} o (a : A) (k : A -> M S E B) s : o = Some a -> mbnd (munwrap o) k s = k a s.
Proof. by intros ->. Qed.

Lemma notify_run {E} b : configuration b = c ->
  on_hw (E := E) (set_queue_notify c 0) b = (Ok tt, with_hw (port_write 16 (c_addr c + 0x10) 0 (hw b)) b).
Proof. intros Hc. unfold on_hw, set_queue_notify, conf_write, outp, mbnd. by rewrite conf_port by lia. Qed.

(** The wait for the one request in the queue. *)
Lemma block_on_run queue chan chain chans q2 q3 q4 b m h :
  device_take (requestq b) = Some (Seen chain, q2) -> length (taken q2) = 1%nat ->
  device_complete 0 q2 = Some (Completed, q3) -> exec Collect q3 = Some (Handled chans, q4) -> Some chan ∈ chans ->
  serve chain (mem b) (hw b) = (m, h) ->
  block_on queue chan b = (Ok tt, with_queue q4 (with_mem m (with_hw h b))).
Proof.
  intros Ht Hl Hcm Hco Hin Hs. unfold block_on, block_collect. rewrite Ht, Hs, Hl. cbn [Nat.sub]. rewrite Hcm.
  cbn [mbind option_bind]. rewrite Hco. cbn [mbind option_bind].
  rewrite decide_True; [done|]. apply elem_of_app. left. apply list_elem_of_omap. by exists (Some chan).
Qed.

(** A request on an idle queue, served by the device. *)
Lemma request_run n b header body m2 h2 :
  configuration b = c -> size_ok n -> (3 <= n)%nat -> represents n (requestq b) (abs_start n) ->
  0 <= header_at b < 2 ^ 36 -> 0 <= footer_at b < 2 ^ 36 -> 0 <= self_at b < 2 ^ 36 ->
  serve [(header_at b, 16, false); buffer_view body; (footer_at b, 1, true)]
    (store (header_at b) (header_bytes header) (store (footer_at b) [0] (mem b)))
    (port_write 16 (c_addr c + 0x10) 0 (hw b)) = (m2, h2) ->
  exists q, represents n q (abs_start n) /\
    request header body b = (into_result (m2 (footer_at b)), with_queue q (with_mem m2 (with_hw h2 b))).
Proof.
  intros Hc Hn Hn3 Hrep Hha Hfa Hsa Hserve.
  set (bs := [{| b_addr := header_at b; VirtQueue.b_len := 16; b_write := false; b_associated_data := None |}; body;
    {| b_addr := footer_at b; VirtQueue.b_len := 1; b_write := true; b_associated_data := Some (footer_at b) |}]).
  destruct (exec_sim n (Transfer bs) _ _ Hn Hrep) as (q1 & He1 & Hr1). cbn [abs_exec abs_start room] in He1, Hr1.
  rewrite decide_False in He1, Hr1 by (simpl; lia). cbn [exec fst snd bs] in He1, Hr1.
  destruct (exec_sim n Take _ _ Hn Hr1) as (q2 & He2 & Hr2). cbn in He2, Hr2.
  destruct (exec_sim n (Complete 0) _ _ Hn Hr2) as (q3 & He3 & Hr3). cbn in He3, Hr3.
  destruct (exec_sim n Collect _ _ Hn Hr3) as (q4 & He4 & Hr4). cbn in He4, Hr4.
  pose proof (represents_taken _ _ _ Hr2) as Ht2. cbn in Ht2.
  assert (Hroom : (n - 3 + 3 = n)%nat) by lia.
  change (length bs) with 3%nat in Hr4. rewrite Hroom in Hr4. exists q4. split; [exact Hr4|].
  unfold request, request_with. rewrite !mbnd_ask, !mbnd_on_mem. cbn [mem with_mem].
  erewrite (mbnd_unwrap _ (footer_at b)) by by apply channel_of_low.
  erewrite mbnd_unwrap by by apply buffer_from_ref_low. erewrite mbnd_unwrap by by apply buffer_from_ref_low.
  erewrite (mbnd_unwrap _ (self_at b)) by by apply channel_of_low. rewrite mbnd_ask. cbn [transfer_all].
  set (b1 := with_mem _ _).
  erewrite mbnd_ok; [|erewrite mbnd_ok by (apply (block_transfer_run bs q1 b1); exact He1); reflexivity].
  rewrite mbnd_ask. cbn [configuration with_queue b1 with_mem]. rewrite Hc.
  erewrite mbnd_ok by by apply notify_run.
  erewrite mbnd_ok by (eapply block_on_run; [exact He2|exact Ht2|exact He3|exact He4|set_solver|exact Hserve]).
  done.
Qed.

(** The driver with no request under way, and where its locals are. *)
Definition idle b : Prop :=
  configuration b = c /\ exists n, size_ok n /\ (3 <= n)%nat /\ represents n (requestq b) (abs_start n).

Definition locals_ok (len : Z) b : Prop :=
  0 <= header_at b < 2 ^ 36 /\ 0 <= footer_at b < 2 ^ 36 /\ 0 <= self_at b < 2 ^ 36 /\ 0 <= buffer_at b < 2 ^ 36 /\
  (header_at b + 16 <= footer_at b \/ footer_at b + 1 <= header_at b) /\
  (header_at b + 16 <= buffer_at b \/ buffer_at b + len <= header_at b) /\
  (footer_at b + 1 <= buffer_at b \/ buffer_at b + len <= footer_at b).

Definition same_places b b' : Prop :=
  header_at b' = header_at b /\ footer_at b' = footer_at b /\ self_at b' = self_at b /\ buffer_at b' = buffer_at b.

Lemma locals_same len b b' : same_places b b' -> locals_ok len b -> locals_ok len b'.
Proof. intros (Hh & Hf & Hs & Hb). unfold locals_ok. by rewrite Hh, Hf, Hs, Hb. Qed.

(** The body of [read] and [write] on an idle device with room in memory. *)
Lemma transfer_run (w : bool) typ b s k buf h m2 h2 :
  idle b -> locals_ok (512 * k) b -> zlen buf = 512 * k -> 0 < k -> 512 * k < 2 ^ 32 -> 0 <= s ->
  s + k <= device_capacity (hw b) ->
  let header := {| ty := typ; reserved := 0; h_sector := s |} in
  let m1 := store (header_at b) (header_bytes header) (store (footer_at b) [0] (store (buffer_at b) buf (mem b))) in
  check_capacity s (zlen buf) (with_mem (store (buffer_at b) buf (mem b)) b) = (Ok tt, with_hw h (with_mem (store (buffer_at b) buf (mem b)) b)) ->
  serve [(header_at b, 16, false); (buffer_at b, 512 * k, w); (footer_at b, 1, true)] m1 (port_write 16 (c_addr c + 0x10) 0 h) = (m2, h2) ->
  exists q, let b' := with_queue q (with_mem m2 (with_hw h2 b)) in idle b' /\
    (on_mem (store (buffer_at b) buf) ;;; check_capacity s (zlen buf) ;;;
     body <- munwrap (buffer_from_bytes (buffer_at b) (zlen buf) w None) ;; body <- munwrap body ;; request header body) b =
    (into_result (m2 (footer_at b)), b').
Proof.
  intros (Hc & n & Hn & Hn3 & Hrep) (Hha & Hfa & Hsa & Hba & _) Hl Hk Hk32 Hs Hcap header m1 Hcc Hserve.
  rewrite mbnd_on_mem, (mbnd_ok _ _ _ _ _ Hcc). unfold buffer_from_bytes. rewrite (proj2 (Z.eqb_neq (zlen buf) 0)) by lia.
  erewrite mbnd_unwrap by reflexivity. erewrite mbnd_unwrap by by apply buffer_from_ref_low.
  destruct (request_run n (with_hw h (with_mem (store (buffer_at b) buf (mem b)) b)) header
    {| b_addr := buffer_at b; VirtQueue.b_len := zlen buf; b_write := w; b_associated_data := None |} m2 h2) as (q & Hq & Hreq); try done.
  { unfold buffer_view. cbn [b_addr VirtQueue.b_len b_write header_at footer_at mem hw with_hw with_mem].
    unfold wrap. rewrite Z.mod_small, Hl by lia. exact Hserve. }
  exists q. split; [|exact Hreq]. split; [done|]. by exists n.
Qed.

Lemma length_sectors h s k : (forall t, s <= t < s + Z.of_nat k -> zlen (device_sector h t) = 512) ->
  zlen (mjoin (device_sector h <$> seqZ s (Z.of_nat k))) = 512 * Z.of_nat k.
Proof.
  revert s. induction k as [|k IH]; intros s Hs; [done|]. rewrite seqZ_cons by lia. rewrite fmap_cons. cbn [mjoin list_join].
  rewrite length_app, Nat2Z.inj_add, (Hs s) by lia. replace (Z.pred (Z.of_nat (S k))) with (Z.of_nat k) by lia.
  rewrite IH; [lia|]. intros t Ht. apply Hs. lia.
Qed.

Lemma block_read_run b s k buf :
  idle b -> locals_ok (512 * k) b -> zlen buf = 512 * k -> 0 < k -> 512 * k < 2 ^ 32 -> 0 <= s -> s + k <= device_capacity (hw b) ->
  exists b', block_read s buf b = (Ok tt, b') /\ idle b' /\ same_places b b' /\ same_disk (hw b) (hw b') /\
    load (mem b') (buffer_at b') (zlen buf) = mjoin (device_sector (hw b) <$> seqZ s k).
Proof.
  intros Hidle Hloc Hl Hk Hk32 Hs Hcap. pose proof (capacity_u64 (hw b)) as Hu. unfold unsigned in Hu.
  destruct (check_capacity_run (with_mem (store (buffer_at b) buf (mem b)) b) s k (zlen buf)) as (h & Hcc & Hsame);
    [apply Hidle|done|done|done|lia|]. cbn [hw with_mem] in Hcc, Hsame. rewrite (proj2 (Z.leb_le _ _)) in Hcc by done.
  assert (Hsame1 : same_disk (hw b) (port_write 16 (c_addr c + 0x10) 0 h)) by (eapply same_disk_trans; [exact Hsame|apply notify_same]).
  destruct Hsame1 as [Hc1 Hd1]. pose proof Hloc as (_ & _ & _ & _ & D1 & D2 & D3).
  destruct (serve_in (port_write 16 (c_addr c + 0x10) 0 h)
    (store (header_at b) (header_bytes {| ty := HEADER_IN; reserved := 0; h_sector := s |}) (store (footer_at b) [0] (store (buffer_at b) buf (mem b))))
    (header_at b) (buffer_at b) (footer_at b) s k) as (m2 & h2 & Hserve & Hm2 & Hsame2); [done|done|by rewrite Hc1| |].
  { rewrite <- (length_header {| ty := HEADER_IN; reserved := 0; h_sector := s |}). apply load_store. }
  destruct (transfer_run true HEADER_IN b s k buf h m2 h2) as (q & Hi' & Hrun); try done.
  assert (Hdata : mjoin (device_sector (port_write 16 (c_addr c + 0x10) 0 h) <$> seqZ s k) = mjoin (device_sector (hw b) <$> seqZ s k)).
  { f_equal. apply list_fmap_ext. intros i t _. apply Hd1. }
  assert (Hlen : zlen (mjoin (device_sector (hw b) <$> seqZ s k)) = 512 * k).
  { rewrite <- (Z2Nat.id k) by lia. apply length_sectors. intros t Ht. apply sector_ok. lia. }
  eexists. split; [unfold block_read; rewrite mbnd_ask, Hrun|]; [by rewrite Hm2, store_byte|]. split; [exact Hi'|]. split; [done|]. split.
  - eapply same_disk_trans; [|exact Hsame2]. by split.
  - cbn [mem buffer_at with_queue with_mem with_hw]. rewrite Hl, <- Hlen, <- Hdata.
    rewrite (load_ext _ _ _ _ (fun p _ => Hm2 p)), load_store_other; [apply load_store|]. rewrite Hdata. simpl. lia.
Qed.

Lemma block_write_run b s k buf :
  idle b -> locals_ok (512 * k) b -> zlen buf = 512 * k -> bytes_ok buf -> 0 < k -> 512 * k < 2 ^ 32 -> 0 <= s -> s + k <= device_capacity (hw b) ->
  exists b', block_write s buf b = (Ok tt, b') /\ idle b' /\ same_places b b' /\ device_capacity (hw b') = device_capacity (hw b) /\
    forall t, device_sector (hw b') t = if decide (s <= t < s + k) then sub buf (512 * (t - s)) 512 else device_sector (hw b) t.
Proof.
  intros Hidle Hloc Hl Hby Hk Hk32 Hs Hcap. pose proof (capacity_u64 (hw b)) as Hu. unfold unsigned in Hu.
  destruct (check_capacity_run (with_mem (store (buffer_at b) buf (mem b)) b) s k (zlen buf)) as (h & Hcc & Hsame);
    [apply Hidle|done|done|done|lia|]. cbn [hw with_mem] in Hcc, Hsame. rewrite (proj2 (Z.leb_le _ _)) in Hcc by done.
  assert (Hsame1 : same_disk (hw b) (port_write 16 (c_addr c + 0x10) 0 h)) by (eapply same_disk_trans; [exact Hsame|apply notify_same]).
  destruct Hsame1 as [Hc1 Hd1]. pose proof Hloc as (_ & _ & _ & _ & D1 & D2 & D3).
  set (m1 := store (header_at b) (header_bytes {| ty := HEADER_OUT; reserved := 0; h_sector := s |})
    (store (footer_at b) [0] (store (buffer_at b) buf (mem b)))).
  assert (Hload : load m1 (buffer_at b) (512 * k) = buf).
  { unfold m1. rewrite load_store_other by (rewrite length_header; lia). rewrite load_store_other by (simpl; lia). rewrite <- Hl. apply load_store. }
  destruct (serve_out (port_write 16 (c_addr c + 0x10) 0 h) m1 (header_at b) (buffer_at b) (footer_at b) s k)
    as (m2 & h2 & Hserve & Hm2 & Hc2 & Hd2); [done|done|by rewrite Hc1|by rewrite Hload| |].
  { unfold m1. rewrite <- (length_header {| ty := HEADER_OUT; reserved := 0; h_sector := s |}) at 1. apply load_store. }
  destruct (transfer_run false HEADER_OUT b s k buf h m2 h2) as (q & Hi' & Hrun); try done.
  eexists. split; [unfold block_write; rewrite mbnd_ask, Hrun|]; [by rewrite Hm2, store_byte|]. split; [exact Hi'|]. split; [done|].
  cbn [hw with_queue with_mem with_hw]. split; [congruence|]. intros t. rewrite Hd2, Hload, Hd1. done.
Qed.

(** A request that reaches beyond the end of the device is not sent. *)
Lemma out_of_range_run b s k buf :
  configuration b = c -> zlen buf = 512 * k -> 0 < k -> 0 <= s -> s + k <= 2 ^ 64 -> device_capacity (hw b) < s + k ->
  exists h, same_disk (hw b) h /\ let b' := with_hw h (with_mem (store (buffer_at b) buf (mem b)) b) in
    block_read s buf b = (Err BlockError.OutOfRange, b') /\ block_write s buf b = (Err BlockError.OutOfRange, b').
Proof.
  intros Hc Hl Hk Hs Hsk Hcap.
  destruct (check_capacity_run (with_mem (store (buffer_at b) buf (mem b)) b) s k (zlen buf)) as (h & Hcc & Hsame); [done|done|done|done|lia|].
  cbn [hw with_mem] in Hcc, Hsame. rewrite (proj2 (Z.leb_gt _ _)) in Hcc by done. exists h. split; [done|].
  unfold block_read, block_write. rewrite !mbnd_ask, !mbnd_on_mem, !(mbnd_err _ _ _ _ _ Hcc). done.
Qed.

Lemma sector_count_run b : configuration b = c -> sector_count b = device_capacity (hw b).
Proof.
  intros Hc. simpl. destruct (capacity_run (E := unit) b Hc) as (h & -> & _). apply wrap_small, capacity_u64.
Qed.

Lemma sectors_one h s : mjoin (device_sector h <$> seqZ s 1) = device_sector h s.
Proof. rewrite seqZ_cons by lia. simpl. apply app_nil_r. Qed.

(** The volume on the device is one that the sector cache can rely on. *)
Lemma virtio_read_reliable b s buf : idle b -> locals_ok 512 b -> in_range b s -> zlen buf = sector_size b ->
  exists b', read s (b, buf) = (Ok tt, (b', device_sector (hw b) s)) /\ (idle b' /\ locals_ok 512 b') /\
    sector_count b' = sector_count b /\ sector_size b' = sector_size b /\ forall t, device_sector (hw b') t = device_sector (hw b) t.
Proof.
  intros Hi Hloc Hs Hl. pose proof Hi as [Hc _]. unfold in_range in Hs. rewrite sector_count_run in Hs by done.
  destruct (block_read_run b s 1 buf) as (b' & Hr & Hi' & Hp & [Hcap Hd] & Hload); [done|done|done|lia|lia|lia|lia|].
  exists b'. cbn [read VirtIOBlockVolume]. rewrite (mmap_err_ok _ _ _ _ _ Hr), Hload, sectors_one. split; [done|].
  split; [split; [done|by eapply locals_same]|]. rewrite !sector_count_run by apply Hi' || done. done.
Qed.

Lemma virtio_write_reliable b s buf : idle b -> locals_ok 512 b -> in_range b s -> zlen buf = sector_size b -> bytes_ok buf ->
  exists b', write s buf b = (Ok tt, b') /\ (idle b' /\ locals_ok 512 b') /\
    sector_count b' = sector_count b /\ sector_size b' = sector_size b /\
    forall t, device_sector (hw b') t = if decide (t = s) then buf else device_sector (hw b) t.
Proof.
  intros Hi Hloc Hs Hl Hby. pose proof Hi as [Hc _]. unfold in_range in Hs. rewrite sector_count_run in Hs by done.
  destruct (block_write_run b s 1 buf) as (b' & Hr & Hi' & Hp & Hcap & Hd); [done|done|done|done|lia|lia|lia|lia|].
  exists b'. cbn [write VirtIOBlockVolume]. rewrite (mmap_err_ok _ _ _ _ _ Hr). split; [done|].
  split; [split; [done|by eapply locals_same]|]. rewrite !sector_count_run by apply Hi' || done. split; [done|]. split; [done|].
  intros t. rewrite Hd. destruct (decide (t = s)) as [->|].
  - rewrite decide_True, Z.sub_diag by lia. unfold sub. simpl in Hl. change SECTOR_SIZE with 512 in Hl. rewrite drop_0, take_ge by lia. done.
  - by rewrite decide_False by lia.
Qed.

#[export] Instance virtio_reliable : ReliableVolume (Block H).
Proof.
  refine {| healthy := fun b => idle b /\ locals_ok 512 b; content := fun b => device_sector (hw b) |}.
  - intros b s [[Hc _] _] Hs. unfold in_range in Hs. rewrite sector_count_run in Hs by done. by apply sector_ok.
  - intros b s [[Hc _] _] Hs. unfold in_range in Hs. rewrite sector_count_run in Hs by done. by apply sector_ok.
  - intros b s buf [Hi Hl]. by apply virtio_read_reliable.
  - intros b s buf [Hi Hl]. by apply virtio_write_reliable.
Defined.

End driver.

(** ** Lemmas: initialization *)

Record Registers := { r_features : Z; r_driver_features : Z; r_status : Z }.

(** The registers of a legacy device: the device clears FEATURES_OK when it does not
    accept the features of the driver. *)
Class LegacyRegisters (H : Type) `{PortIO H} (c : Configuration) := {
  registers : H -> Registers;
  accepts : Z -> bool;
  registers_ok : 0 <= c_addr c /\ c_addr c + 0x20 <= 2 ^ 16;
  features_u32 h : u32 (r_features (registers h));
  read_status h : exists h', port_read 8 (c_addr c + 0x12) h = (r_status (registers h), h') /\ registers h' = registers h;
  read_features h : exists h', port_read 32 (c_addr c + 0) h = (r_features (registers h), h') /\ registers h' = registers h;
  write_features h v : u32 v -> registers (port_write 32 (c_addr c + 0x04) v h) =
    {| r_features := r_features (registers h); r_driver_features := v; r_status := r_status (registers h) |};
  write_status h v : u8 v -> registers (port_write 8 (c_addr c + 0x12) v h) =
    {| r_features := r_features (registers h); r_driver_features := r_driver_features (registers h);
       r_status := if Z.testbit v 3 && negb (accepts (r_driver_features (registers h))) then Z.clearbit v 3 else v |}
}.

Section initialization.
Context {H : Type} `{HP : PortIO H} {c : Configuration} `{HR : !LegacyRegisters H c}.

Lemma register_port off : 0 <= off < 0x20 -> add_checked 16 (c_addr c) off = Some (c_addr c + off).
Proof.
  intros Ho. pose proof registers_ok. unfold add_checked, checked, unsignedb.
  by rewrite (proj2 (Z.leb_le _ _)), (proj2 (Z.ltb_lt _ _)) by lia.
Qed.

Lemma status_bind {E A} r (k : Z -> M H E A) h Q R : registers h = r ->
  (forall h', registers h' = r -> ends (k (r_status r)) h' Q R) -> ends (mbnd (device_status c) k) h Q R.
Proof.
  intros <- Hk. destruct (read_status h) as (h' & Hr & Hh'). unfold ends, device_status, conf_read, inp, mbnd.
  rewrite register_port by lia. cbn [munwrap ret]. rewrite Hr. by apply Hk.
Qed.

Lemma features_bind {E A} r (k : Z -> M H E A) h Q R : registers h = r ->
  (forall h', registers h' = r -> ends (k (r_features r)) h' Q R) -> ends (mbnd (device_features c) k) h Q R.
Proof.
  intros <- Hk. destruct (read_features h) as (h' & Hr & Hh'). unfold ends, device_features, conf_read, inp, mbnd.
  rewrite register_port by lia. cbn [munwrap ret]. rewrite Hr. by apply Hk.
Qed.

Lemma set_features_bind {E A} r v (k : unit -> M H E A) h Q R : registers h = r -> u32 v ->
  (forall h', registers h' = {| r_features := r_features r; r_driver_features := v; r_status := r_status r |} -> ends (k tt) h' Q R) ->
  ends (mbnd (set_driver_features c v) k) h Q R.
Proof.
  intros <- Hv Hk. unfold ends, set_driver_features, conf_write, outp, mbnd. rewrite register_port by lia. cbn [munwrap ret].
  by apply Hk, write_features.
Qed.

Lemma set_status_bind {E A} r v (k : unit -> M H E A) h Q R : registers h = r -> u8 v ->
  (forall h', registers h' = {| r_features := r_features r; r_driver_features := r_driver_features r;
      r_status := if Z.testbit v 3 && negb (accepts (r_driver_features r)) then Z.clearbit v 3 else v |} -> ends (k tt) h' Q R) ->
  ends (mbnd (set_device_status c v) k) h Q R.
Proof.
  intros <- Hv Hk. unfold ends, set_device_status, conf_write, outp, mbnd. rewrite register_port by lia. cbn [munwrap ret].
  by apply Hk, write_status.
Qed.

Lemma initialize_run negotiate h : r_status (registers h) = 0 -> (forall f, u32 f -> u32 (negotiate f)) ->
  let f := Z.land (Z.land (negotiate (r_features (registers h))) (complement 32 RING_INDIRECT_DESC)) (complement 32 RING_EVENT_IDX) in
  ends (initialize negotiate c) h
    (fun _ h' => accepts f = true /\ registers h' = {| r_features := r_features (registers h); r_driver_features := f; r_status := 11 |})
    (fun e h' => e = "FEATURES_OK"%string /\ accepts f = false /\
      registers h' = {| r_features := r_features (registers h); r_driver_features := f; r_status := 3 |}).
Proof.
  intros Hz Hneg f. unfold initialize. remember (registers h) as r eqn:Hr. symmetry in Hr.
  assert (Hf : u32 f) by (apply land_u32; [apply land_u32; [apply Hneg; rewrite <- Hr; apply features_u32|done]|done]).
  eapply status_bind; [exact Hr|]. intros h1 Hr1. rewrite Hz.
  eapply set_status_bind; [exact Hr1|by unfold unsigned|]. intros h2 Hr2. cbn in Hr2.
  eapply status_bind; [exact Hr2|]. intros h3 Hr3. cbn [r_status].
  eapply set_status_bind; [exact Hr3|by unfold unsigned|]. intros h4 Hr4. cbn in Hr4.
  eapply features_bind; [exact Hr4|]. intros h5 Hr5. cbn [r_features].
  eapply set_features_bind; [exact Hr5|exact Hf|]. intros h6 Hr6. cbn [r_features r_status] in Hr6.
  eapply status_bind; [exact Hr6|]. intros h7 Hr7. cbn [r_status].
  eapply set_status_bind; [exact Hr7|by unfold unsigned|]. intros h8 Hr8. cbn [r_features r_driver_features] in Hr8.
  eapply status_bind; [exact Hr8|]. intros h9 Hr9. cbn [r_status]. fold f in Hr8, Hr9 |- *.
  destruct (accepts f) eqn:Ha; cbn in Hr9 |- *; by apply ends_ret || apply ends_fail.
Qed.

End initialization.

(** The features that the driver negotiates. *)
Lemma negotiated_bits f i : u32 f -> 0 <= i ->
  Z.testbit (Z.land (Z.land (negotiate f) (complement 32 RING_INDIRECT_DESC)) (complement 32 RING_EVENT_IDX)) i =
  Z.testbit f i && negb (existsb (Z.eqb i) [5; 7; 11; 12; 27; 28; 29]).
Proof.
  intros Hf Hi. unfold negotiate. destruct (decide (i < 32)) as [Hlt|Hge].
  - rewrite !Z.land_spec. rewrite <- !andb_assoc. f_equal.
    rewrite <- !Z.land_spec. apply (const_bits _ (fun i => negb (existsb (Z.eqb i) [5; 7; 11; 12; 27; 28; 29]))); [vm_compute; reflexivity|lia].
  - rewrite !Z.land_spec, (bits_above f 32) by (unfold unsigned in Hf; lia). done.
Qed.

Lemma negotiate_u32 f : u32 f -> u32 (negotiate f).
Proof. intros Hf. unfold negotiate. repeat apply land_u32; done. Qed.

(** ** Properties *)

(** [C4]. The sector cache over the block driver, over the virtqueue
    and over a device that follows the virtio specification, is a disk: every
    sequence of loads, stores and commits returns what a plain array of sectors
    returns. *)
Theorem virtio_cache_refines_disk {H : Type} {c : Configuration} `{BlockDevice H c} (b : Block H) (l : list Volume.request) :
  idle (c := c) b -> locals_ok 512 b -> Forall (request_ok (device_capacity (hw b)) 512) l ->
  fst (serve_all l (new_volume b)) = (fun x => Ok x) <$> fst (disk_steps (device_sector (hw b)) l).
Proof.
  intros Hi Hloc Hl. rewrite <- sector_count_run in Hl by apply Hi.
  pose proof (serve_all_run _ _ l (new_volume b) _ _ (new_volume_rep _ _ b (conj Hi Hloc) eq_refl eq_refl) Hl) as Hr.
  destruct (serve_all l (new_volume b)). by destruct Hr.
Qed.

(** [C29]. On an idle device the driver reads and writes any whole number of
    sectors: a read fills the buffer with the sectors, a write stores them and leaves
    all others, both leave the driver idle; a request that reaches beyond the end of
    the device fails with [OutOfRange] and changes nothing on the disk. *)
Theorem block_requests {H : Type} {c : Configuration} `{BlockDevice H c} (b : Block H) (s k : Z) (buf : list Z) :
  idle (c := c) b -> locals_ok (512 * k) b -> zlen buf = 512 * k -> bytes_ok buf ->
  0 < k -> 512 * k < 2 ^ 32 -> 0 <= s -> s + k <= 2 ^ 64 ->
  (s + k <= device_capacity (hw b) ->
    (exists b', block_read s buf b = (Ok tt, b') /\ idle (c := c) b' /\ same_disk (hw b) (hw b') /\
       load (mem b') (buffer_at b) (zlen buf) = mjoin (device_sector (hw b) <$> seqZ s k)) /\
    (exists b', block_write s buf b = (Ok tt, b') /\ idle (c := c) b' /\ device_capacity (hw b') = device_capacity (hw b) /\
       forall t, device_sector (hw b') t = if decide (s <= t < s + k) then sub buf (512 * (t - s)) 512 else device_sector (hw b) t)) /\
  (device_capacity (hw b) < s + k ->
    exists b', block_read s buf b = (Err BlockError.OutOfRange, b') /\ block_write s buf b = (Err BlockError.OutOfRange, b') /\
      same_disk (hw b) (hw b')).
Proof.
  intros Hi Hloc Hl Hby Hk Hk32 Hs Hsk. split.
  - intros Hcap. split.
    + destruct (block_read_run b s k buf) as (b' & Hr & Hi' & (_ & _ & _ & Hp) & Hd & Hload); [done..|]. exists b'. by rewrite <- Hp.
    + destruct (block_write_run b s k buf) as (b' & Hr & Hi' & _ & Hc & Hd); [done..|]. by exists b'.
  - intros Hcap. destruct (out_of_range_run b s k buf) as (h & Hsame & Hr & Hw); [apply Hi|done..|]. eexists. split; [exact Hr|]. by split.
Qed.

(** The initialization of a device that has been reset ends with the
    status ACKNOWLEDGE, DRIVER and FEATURES_OK, and with exactly those offered
    features that the driver supports: not the seven that change the layout of
    requests or the rings. A device that does not accept them makes it fail. *)
Theorem features_negotiated {H : Type} {c : Configuration} `{LegacyRegisters H c} (h : H) :
  r_status (registers h) = 0 ->
  exists f, (forall i, 0 <= i -> Z.testbit f i = Z.testbit (r_features (registers h)) i && negb (existsb (Z.eqb i) [5; 7; 11; 12; 27; 28; 29])) /\
    ends (initialize negotiate c) h
      (fun _ h' => accepts f = true /\ registers h' = {| r_features := r_features (registers h); r_driver_features := f;
         r_status := Z.lor DEVICE_STATUS_ACKNOWLEDGE (Z.lor DEVICE_STATUS_DRIVER DEVICE_STATUS_FEATURES_OK) |})
      (fun e h' => accepts f = false /\ Z.testbit (r_status (registers h')) 3 = false).
Proof.
  intros Hz. eexists. split; [intros i Hi; apply negotiated_bits; [apply features_u32|done]|].
  eapply ends_mono; [by apply initialize_run, negotiate_u32|done|]. intros e h' (_ & Ha & ->). done.
Qed.

(** When the scheduler returns from [block] at once, as it does when no other task
    can run, a request reports success although the device has not done anything. *)
Lemma early_return_reports_success {H : Type} {c : Configuration} `{BlockDevice H c} (b : Block H) n header body :
  configuration b = c -> size_ok n -> (3 <= n)%nat -> represents n (requestq b) (abs_start n) ->
  0 <= header_at b < 2 ^ 36 -> 0 <= footer_at b < 2 ^ 36 -> 0 <= self_at b < 2 ^ 36 ->
  (header_at b + 16 <= footer_at b \/ footer_at b + 1 <= header_at b) ->
  exists b', request_with (fun _ _ => ret tt) header body b = (Ok tt, b') /\ same_disk (hw b) (hw b') /\
    mem b' = store (header_at b) (header_bytes header) (store (footer_at b) [0] (mem b)).
Proof.
  intros Hc Hn Hn3 Hrep Hha Hfa Hsa Hd.
  set (bs := [{| b_addr := header_at b; VirtQueue.b_len := 16; b_write := false; b_associated_data := None |}; body;
    {| b_addr := footer_at b; VirtQueue.b_len := 1; b_write := true; b_associated_data := Some (footer_at b) |}]).
  destruct (exec_sim n (Transfer bs) _ _ Hn Hrep) as (q1 & He1 & _). cbn [abs_exec abs_start room] in He1.
  rewrite decide_False in He1 by (simpl; lia). cbn [fst bs] in He1.
  unfold request_with. rewrite !mbnd_ask, !mbnd_on_mem. cbn [mem with_mem].
  erewrite (mbnd_unwrap _ (footer_at b)) by by apply channel_of_low.
  erewrite mbnd_unwrap by by apply buffer_from_ref_low. erewrite mbnd_unwrap by by apply buffer_from_ref_low.
  erewrite (mbnd_unwrap _ (self_at b)) by by apply channel_of_low. rewrite mbnd_ask. cbn [transfer_all]. set (b1 := with_mem _ _).
  erewrite mbnd_ok; [|erewrite mbnd_ok by (apply (block_transfer_run bs q1 b1); exact He1); reflexivity].
  rewrite mbnd_ask. cbn [configuration with_queue b1 with_mem]. rewrite Hc. erewrite mbnd_ok by by apply notify_run.
  erewrite mbnd_ok by reflexivity. rewrite mbnd_ask. eexists. split; [|split].
  - unfold b1. cbn [mem with_hw with_queue with_mem]. rewrite store_other, store_byte by (rewrite length_header; lia). done.
  - apply notify_same.
  - done.
Qed.

(** ** Witnesses *)

(** A device at port 0xc000 with a disk in memory. *)
Record disk_hw := { dk_capacity : Z; dk_sectors : Z -> list Z; dk_registers : Registers }.

#[export] Instance disk_ports : PortIO disk_hw := {
  port_read w p h :=
    (if p =? 0xc018 then wrap 64 (dk_capacity h) mod 2 ^ 32
     else if p =? 0xc01c then wrap 64 (dk_capacity h) / 2 ^ 32
     else if p =? 0xc012 then r_status (dk_registers h)
     else if p =? 0xc000 then wrap 32 (r_features (dk_registers h))
     else 0, h);
  port_write w p v h :=
    let r := dk_registers h in
    if p =? 0xc004 then
      {| dk_capacity := dk_capacity h; dk_sectors := dk_sectors h;
         dk_registers := {| r_features := r_features r; r_driver_features := v; r_status := r_status r |} |}
    else if p =? 0xc012 then
      {| dk_capacity := dk_capacity h; dk_sectors := dk_sectors h;
         dk_registers := {| r_features := r_features r; r_driver_features := r_driver_features r; r_status := v |} |}
    else h
}.

#[export] Instance disk_state : BlockState disk_hw := {
  device_capacity h := wrap 64 (dk_capacity h);
  device_sector h s := wrap 8 <$> resize 512 0 (dk_sectors h s)
}.

#[export] Instance disk_block : BlockHardware disk_hw := {
  serve chain m h :=
    match chain with
    | [(hd, _, _); (bd, len, _); (ft, _, _)] =>
        let t := from_le_bytes (load m hd 4) in
        let s := from_le_bytes (load m (hd + 8) 8) in
        let k := len / 512 in
        if s + k <=? device_capacity h then
          if t =? HEADER_IN then (store ft [STATUS_OK] (store bd (mjoin (device_sector h <$> seqZ s k)) m), h)
          else if t =? HEADER_OUT then
            (store ft [STATUS_OK] m, {| dk_capacity := dk_capacity h; dk_registers := dk_registers h;
              dk_sectors := fun t => if decide (s <= t < s + k) then sub (load m bd len) (512 * (t - s)) 512 else dk_sectors h t |})
          else (store ft [STATUS_UNSUPP] m, h)
        else (store ft [STATUS_IOERR] m, h)
    | _ => (m, h)
    end
}.

Definition demo_configuration : Configuration := {| c_addr := 0xc000; msi_x_enabled := true |}.

Lemma load_app m a n k : 0 <= n -> 0 <= k -> load m a (n + k) = load m a n ++ load m (a + n) k.
Proof. intros Hn Hk. unfold load. by rewrite <- fmap_app, <- seqZ_app. Qed.

Lemma parse_header m hd t s : 0 <= t < 2 -> u64 s ->
  load m hd 16 = header_bytes {| ty := t; reserved := 0; h_sector := s |} ->
  from_le_bytes (load m hd 4) = t /\ from_le_bytes (load m (hd + 8) 8) = s.
Proof.
  intros Ht Hs Hl. change 16 with (4 + (4 + 8)) in Hl. rewrite !load_app in Hl by lia. unfold header_bytes in Hl.
  apply app_inj_1 in Hl as [H1 Hl]; [|unfold load; by rewrite length_fmap, length_seqZ, length_to_le_bytes].
  apply app_inj_1 in Hl as [_ H2]; [|unfold load; by rewrite length_fmap, length_seqZ, length_to_le_bytes].
  replace (hd + 8) with (hd + 4 + 4) by lia. rewrite H1, H2. unfold unsigned in Hs. cbn [ty h_sector].
  split; apply from_to_le_bytes; simpl; lia.
Qed.

Lemma disk_sector_length (h : disk_hw) s : zlen (device_sector h s) = 512.
Proof. simpl. by rewrite length_fmap, length_resize. Qed.

Lemma sub_length (l : list Z) i n : 0 <= i -> 0 <= n -> i + n <= zlen l -> zlen (sub l i n) = n.
Proof. intros Hi Hn Hl. unfold sub. rewrite length_take, length_drop. lia. Qed.

Lemma normalized (l : list Z) : zlen l = 512 -> bytes_ok l -> wrap 8 <$> resize 512 0 l = l.
Proof.
  intros Hl Hb. rewrite resize_all_alt by lia. rewrite <- (list_fmap_id l) at 2. apply list_fmap_ext. intros i x Hx.
  by apply (wrap_small 8), (Forall_lookup_1 _ _ _ _ Hb Hx).
Qed.

#[export] Instance disk_device : BlockDevice disk_hw demo_configuration.
Proof.
  split.
  - done.
  - intros h. apply wrap_unsigned. lia.
  - intros h s _. split; [apply disk_sector_length|]. simpl. apply Forall_fmap, Forall_true. intros x. apply wrap_unsigned. lia.
  - intros h. by exists h.
  - intros h. by exists h.
  - intros h v. done.
  - intros h m hd bd ft s k Hk Hs Hcap Hl. pose proof (wrap_unsigned 64 (dk_capacity h) ltac:(lia)) as Hu. simpl in Hcap. unfold unsigned in Hu.
    destruct (parse_header m hd HEADER_IN s) as [Ht Hp]; [done|unfold unsigned; lia|done|].
    eexists _, _. split; [|split; [intros p; reflexivity|done]]. cbn [serve disk_block]. rewrite Ht, Hp.
    replace (512 * k / 512) with k by (rewrite Z.mul_comm, Z.div_mul; lia). by rewrite (proj2 (Z.leb_le _ _)) by done.
  - intros h m hd bd ft s k Hk Hs Hcap Hb Hl. pose proof (wrap_unsigned 64 (dk_capacity h) ltac:(lia)) as Hu. simpl in Hcap. unfold unsigned in Hu.
    destruct (parse_header m hd HEADER_OUT s) as [Ht Hp]; [done|unfold unsigned; lia|done|].
    eexists _, _. split; [|split; [intros p; reflexivity|]].
    + cbn [serve disk_block]. rewrite Ht, Hp.
      replace (512 * k / 512) with k by (rewrite Z.mul_comm, Z.div_mul; lia). rewrite (proj2 (Z.leb_le _ _)) by done. cbn [Z.eqb HEADER_OUT HEADER_IN Pos.eqb]. reflexivity.
    + split; [done|]. intros t. cbn [device_sector disk_state dk_sectors]. case_decide as Hc; [|done]. apply normalized.
      * apply sub_length; [lia|lia|]. rewrite length_load by lia. lia.
      * by apply Forall_take, Forall_drop.
Qed.

#[export] Instance disk_registers : LegacyRegisters disk_hw demo_configuration.
Proof.
  refine {| registers := fun h => {| r_features := wrap 32 (r_features (dk_registers h));
              r_driver_features := r_driver_features (dk_registers h); r_status := r_status (dk_registers h) |};
            accepts := fun _ => true |}.
  - done.
  - intros h. apply wrap_unsigned. lia.
  - intros h. by exists h.
  - intros h. by exists h.
  - done.
  - intros h v _. cbn [negb]. by rewrite andb_false_r.
Defined.

Definition demo_block : Block disk_hw :=
  {| configuration := demo_configuration; requestq := start 8; mem := fun _ => 0;
     hw := {| dk_capacity := 64; dk_sectors := fun s => [s];
              dk_registers := {| r_features := 0x79000ed4; r_driver_features := 0; r_status := 0 |} |};
     header_at := 0x9000; footer_at := 0x9010; buffer_at := 0x10000; self_at := 0x5000 |}.

Lemma demo_idle : idle (c := demo_configuration) demo_block.
Proof.
  assert (Hn : size_ok 8) by (split; [lia|by exists 8192]).
  split; [done|]. exists 8%nat. split; [done|]. split; [lia|]. by apply start_represents.
Qed.

Lemma demo_locals len : len <= 2 ^ 36 -> locals_ok len demo_block.
Proof. intros Hl. unfold locals_ok, demo_block. cbn. lia. Qed.

Lemma virtio_cache_refines_disk_witness :
  fst (serve_all [Load 7; Store 3 (replicate 512 9); Load 3; Commit] (new_volume demo_block)) =
  (fun x => Ok x) <$> [7 :: replicate 511 0; []; replicate 512 9; []].
Proof.
  rewrite (virtio_cache_refines_disk demo_block _ demo_idle (demo_locals 512 ltac:(lia))); [vm_compute; reflexivity|].
  change (device_capacity (hw demo_block)) with 64. repeat apply Forall_cons_2; cbn [request_ok]; try lia; try apply Forall_nil_2; try done.
  rewrite length_replicate. split; [lia|]. split; [lia|]. apply Forall_replicate. unfold unsigned. lia.
Defined.

Lemma block_requests_witness : exists b', block_read 62 (replicate 1024 1) demo_block = (Ok tt, b') /\
  load (mem b') 0x10000 1024 = (62 :: replicate 511 0) ++ (63 :: replicate 511 0).
Proof.
  destruct (block_requests demo_block 62 2 (replicate 1024 1) demo_idle (demo_locals 1024 ltac:(lia))) as [Hok _].
  - by rewrite length_replicate.
  - apply Forall_replicate. unfold unsigned. lia.
  - lia.
  - lia.
  - lia.
  - lia.
  - destruct Hok as [(b' & Hr & _ & _ & Hl) _]; [by vm_compute|]. exists b'. split; [exact Hr|].
    rewrite length_replicate in Hl. etransitivity; [exact Hl|vm_compute; reflexivity].
Defined.

Lemma features_negotiated_witness : exists h',
  initialize negotiate demo_configuration (hw demo_block) = (Ok tt, h') /\ r_driver_features (registers h') = 0x41000654.
Proof.
  destruct (features_negotiated (c := demo_configuration) (hw demo_block)) as (f & Hf & He); [reflexivity|]. unfold ends in He.
  destruct (initialize negotiate demo_configuration (hw demo_block)) as [o h'] eqn:Ho. exists h'.
  assert (Hoo : (o, h') = initialize negotiate demo_configuration (hw demo_block)) by done.
  vm_compute in Hoo. simplify_eq. split; [done|reflexivity].
Defined.
