(* ===== verification/BlockInit.v ===== *)
(** * Initialisation of block devices (src/ors-kernel/src/devices/virtio/queue.rs and
    block.rs: [VirtQueue::new], its [Drop], [Block::from_pci_device] and [Block::scan])

    A queue is made of frames of the physical memory: its descriptor table and its
    rings are bytes there, and [queue_view] reads them back as the queue of
    VirtQueue.v. The state is the devices, the frame manager and the memory. *)

From stdpp Require Import strings.
From S2P Require Import Prelude Cpu PhysMemory Hardware Interrupts Paging Pci VirtQueue VirtioBlock.
Import Ram.
Local Open Scope Z_scope.
Local Open Scope rust_scope.

(** ** State *)

Record Machine (H : Type) := { devices : H; manager : BitmapFrameManager; ram : Z -> Z }.
Arguments devices {H}. Arguments manager {H}. Arguments ram {H}.

(** The fields of [VirtQueue], with its pointers *)
Record QueueAt (T : Type) := {
  at_size : Z;
  at_frame : Z;
  at_table : Z;
  at_available : Z;
  at_used : Z;
  at_last_used : Z;
  at_first_free : Z;
  at_num_free : Z;
  at_data : list (option T)
}.
Arguments at_size {T}. Arguments at_frame {T}. Arguments at_table {T}. Arguments at_available {T}. Arguments at_used {T}.
Arguments at_last_used {T}. Arguments at_first_free {T}. Arguments at_num_free {T}. Arguments at_data {T}.

(** ** Words of a queue in memory *)

Definition load16 (m : Z -> Z) (a : Z) : Z := from_le_bytes (load m a 2).
Definition store16 (m : Z -> Z) (a v : Z) : Z -> Z := store m a (to_le_bytes 2 v).
Definition load32 (m : Z -> Z) (a : Z) : Z := from_le_bytes (load m a 4).

Definition descriptor_at (m : Z -> Z) (p : Z) : Descriptor :=
  {| d_addr := load64 m p; d_len := load32 m (p + 8); d_flags := load16 m (p + 12); d_next := load16 m (p + 14) |}.

(** [set_next(Some(next))] on the descriptor at [p] *)
Definition set_next_at (p next : Z) (m : Z -> Z) : Z -> Z :=
  store16 (store16 m (p + 12) (Z.lor (load16 m (p + 12)) NEXT)) (p + 14) next.

(** The queue that the memory holds *)
Definition queue_view {T} (m : Z -> Z) (q : QueueAt T) : VirtQueue T :=
  let n := Z.to_nat (at_size q) in
  {| queue_size := at_size q;
     descriptor_table := (fun i => descriptor_at m (at_table q + 16 * Z.of_nat i)) <$> seq 0 n;
     available_idx := load16 m (at_available q + 2);
     available_ring := (fun i => load16 m (at_available q + 4 + 2 * Z.of_nat i)) <$> seq 0 n;
     used_idx := load16 m (at_used q + 2);
     used_ring := (fun i => load32 m (at_used q + 4 + 8 * Z.of_nat i)) <$> seq 0 n;
     last_used_idx := at_last_used q; first_free_descriptor := at_first_free q; num_free_descriptors := at_num_free q;
     buffer_associated_data := at_data q |}.

(** ** Operations *)

Section operations.
Context {H : Type} `{PortIO H} `{X64Addr}.

Definition on_devices {E A} (m : M H E A) : M (Machine H) E A := fun s =>
  let '(o, h) := m (devices s) in (o, {| devices := h; manager := manager s; ram := ram s |}).

Definition on_ram {E} (f : (Z -> Z) -> Z -> Z) : M (Machine H) E unit := fun s =>
  (Ok tt, {| devices := devices s; manager := manager s; ram := f (ram s) |}).

Definition take_frames (n : Z) : M (Machine H) string Z := fun s =>
  let '(o, fm) := allocate (manager s) n in
  let s' := {| devices := devices s; manager := fm; ram := ram s |} in
  match o with
  | Ok f => (Ok f, s')
  | Err _ => (Err "Cannot allocate frame for this queue"%string, s')
  | Panic => (Panic, s')
  | Diverge => (Diverge, s')
  end.

(** [for i in 0..queue_size - 1 { descriptor_table.add(i).set_next(Some((i + 1) as u16)) }] *)
Definition link_descriptors (table : Z) (n : nat) (m : Z -> Z) : Z -> Z :=
  foldl (fun m i => set_next_at (table + 16 * Z.of_nat i) (wrap 16 (Z.of_nat i + 1)) m) m (seq 0 n).

Definition queue_new {T} (c : Configuration) (queue_index : Z) (msi_x_vector : option Z) : M (Machine H) string (QueueAt T) :=
  on_devices (set_queue_select c queue_index) ;;;
  queue_size <- on_devices (conf_queue_size c) ;;
  if queue_size =? 0 then mfail "Queue is unavailable" else
  let layout := compute_layout queue_size in
  frame <- take_frames (num_frames layout) ;;
  pa <- munwrap (phys_addr frame) ;;
  base_ptr <- munwrap (as_virt_addr pa) ;;
  on_ram (fun m => store m base_ptr (replicate (Z.to_nat (FRAME_SIZE * num_frames layout)) 0)) ;;;
  on_devices (set_queue_address c (wrap 32 (pa / FRAME_SIZE))) ;;;
  (match msi_x_vector with
   | Some vector => on_devices (set_queue_msix_vector c vector)
   | None => ret tt
   end) ;;;
  let descriptor_table := base_ptr + descriptor_table_offset layout in
  let available_ring := base_ptr + available_ring_offset layout in
  let used_ring := base_ptr + used_ring_offset layout in
  on_ram (link_descriptors descriptor_table (Z.to_nat (queue_size - 1))) ;;;
  ret {| at_size := queue_size; at_frame := frame; at_table := descriptor_table; at_available := available_ring;
         at_used := used_ring; at_last_used := 0; at_first_free := 0; at_num_free := queue_size;
         at_data := replicate (Z.to_nat queue_size) None |}.

(** [Drop]; [None] is a panic. *)
Definition queue_drop {T} (q : QueueAt T) (fm : BitmapFrameManager) : option BitmapFrameManager :=
  PhysMemory.free fm (at_frame q) (num_frames (compute_layout (at_size q))).

End operations.

(** ** Block devices *)

Record BlockAt := { ba_configuration : Configuration; ba_requestq : QueueAt (option Z) }.

Section blocks.
Context {H : Type} `{PortIO H} `{Mmio H} `{X64Addr} `{BitField} `{Heapless} {C : Type} (info : option (@SystemInfo C)).

(** An error that [from_pci_device] returns, or the [unwrap] on [lapic_id] when [SYSTEM_INFO] is not set. *)
Inductive InitError := Returned (msg : string) | Unset (msg : string).

Definition from_pci_device (d : Device) (index : Z) : M (Machine H) InitError BlockAt :=
  x <- mmap_err Returned (on_devices (msi_x d)) ;;
  (match x with
   | Some x =>
       t <- mmap_err Returned (on_devices (table x)) ;;
       if table_len t =? 0 then mfail (Returned "MSI-X support does not have enough table entries") else
       bsp <- mexpect (Unset "Cpu::lapic_id is called before cpu::initialize") (lapic_id info boot_strap) ;;
       irq <- mexpect (Returned "IRQ numbers exhausted") (virtio_block_irq index) ;;
       mmap_err Returned (
         t <- on_devices (table x) ;;
         e <- on_devices (Pci.entry t 0) ;;
         on_devices (entry_enable e bsp irq) ;;;
         on_devices (msi_x_enable x))
   | None => mfail (Returned "MSI-X unsupported")
   end) ;;;
  mmap_err Returned (
    c <- on_devices (configuration_from_pci_device d) ;;
    on_devices (VirtioBlock.initialize negotiate c) ;;;
    requestq <- queue_new c 0 (Some 0) ;;
    on_devices (set_driver_ok c) ;;;
    ret {| ba_configuration := c; ba_requestq := requestq |}).

(** The body of the loop of [scan]: a device that cannot be initialised, or for which there is no room, is skipped. *)
Definition scan_block (N : nat) (d : Device) (blocks : list BlockAt) : M (Machine H) string (list BlockAt) :=
  v <- infallible (on_devices (is_virtio d)) ;;
  is_block <- (if v : bool then i <- infallible (on_devices (subsystem_id d)) ;; ret (i =? 0x02) else ret false) ;;
  if is_block : bool then
    fun s =>
      match from_pci_device d (zlen blocks) s with
      | (Ok block, s') =>
          match push N blocks block with
          | Some blocks' => (Ok blocks', s')
          | None => (Ok blocks, s')
          end
      | (Err (Returned _), s') => (Ok blocks, s')
      | (Err (Unset msg), s') => (Err msg, s')
      | (Panic, s') => (Panic, s')
      | (Diverge, s') => (Diverge, s')
      end
  else ret blocks.

Definition block_scan (N : nat) (ds : list Device) : M (Machine H) string (list BlockAt) := mfor (scan_block N) ds [].

End blocks.

(** ** Lemmas: a queue in memory *)

Lemma load16_ext m m' a : (forall b, a <= b < a + 2 -> m' b = m b) -> load16 m' a = load16 m a.
Proof. intros Hb. unfold load16. f_equal. by apply ram_load_ext. Qed.

Lemma load32_ext m m' a : (forall b, a <= b < a + 4 -> m' b = m b) -> load32 m' a = load32 m a.
Proof. intros Hb. unfold load32. f_equal. by apply ram_load_ext. Qed.

Lemma store16_other m a v b : b < a \/ a + 2 <= b -> store16 m a v b = m b.
Proof. apply (ram_store_other m a (to_le_bytes 2 v)). Qed.

Lemma load16_store16 m a v : u16 v -> load16 (store16 m a v) a = v.
Proof. intros Hv. unfold load16, store16. change 2%nat with (length (to_le_bytes 2 v)) at 1. rewrite ram_load_store. by apply from_to_le_bytes. Qed.

Lemma descriptor_at_ext m m' p : (forall b, p <= b < p + 16 -> m' b = m b) -> descriptor_at m' p = descriptor_at m p.
Proof.
  intros Hb. unfold descriptor_at. rewrite (load64_ext m m'), (load32_ext m m'), !(load16_ext m m'); [done|..]; intros b Hr; apply Hb; lia.
Qed.

Lemma set_next_at_other p n m b : b < p + 12 \/ p + 16 <= b -> set_next_at p n m b = m b.
Proof. intros Hb. unfold set_next_at. rewrite !store16_other by lia. done. Qed.

Lemma set_next_at_spec p n m : u16 n -> u16 (load16 m (p + 12)) -> descriptor_at (set_next_at p n m) p = set_next (Some n) (descriptor_at m p).
Proof.
  intros Hn Hf. unfold set_next, descriptor_at. cbn [d_addr d_len d_flags d_next]. f_equal.
  - apply load64_ext. intros b Hb. apply set_next_at_other. lia.
  - apply load32_ext. intros b Hb. apply set_next_at_other. lia.
  - unfold set_next_at. rewrite (load16_ext (store16 m (p + 12) (Z.lor (load16 m (p + 12)) NEXT))).
    + apply load16_store16, lor_unsigned; [done|done|by unfold unsigned].
    + intros b Hb. apply store16_other. lia.
  - unfold set_next_at. by apply load16_store16.
Qed.

(** The loop over the descriptors, on zeroed memory *)
Lemma link_descriptors_spec table n m k : 0 <= Z.of_nat n <= 2 ^ 16 -> (k < n)%nat ->
  (forall b, table <= b < table + 16 * Z.of_nat n -> m b = 0) ->
  (forall i, (i < n)%nat -> descriptor_at (link_descriptors table k m) (table + 16 * Z.of_nat i) =
    if (i <? k)%nat then set_next (Some (Z.of_nat (S i))) zero_descriptor else zero_descriptor) /\
  forall b, b < table \/ table + 16 * Z.of_nat n <= b -> link_descriptors table k m b = m b.
Proof.
  intros Hn Hk Hz. induction k as [|k IH].
  - split; [|done]. intros i Hi. cbn [link_descriptors seq foldl Nat.ltb Nat.leb]. rewrite (descriptor_at_ext (fun _ => 0)); [done|]. intros b Hb. apply Hz. lia.
  - destruct IH as [IHd IHo]; [lia|]. assert (E : link_descriptors table (S k) m = set_next_at (table + 16 * Z.of_nat k) (wrap 16 (Z.of_nat k + 1)) (link_descriptors table k m)).
    { unfold link_descriptors. rewrite seq_S, foldl_app. done. }
    rewrite E. assert (Hw : wrap 16 (Z.of_nat k + 1) = Z.of_nat (S k)) by (unfold wrap; rewrite Z.mod_small by lia; lia). rewrite Hw. split.
    + intros i Hi. destruct (decide (i = k)) as [->|Hne].
      * pose proof (IHd k Hi) as Hd. rewrite (proj2 (Nat.ltb_ge k k)) in Hd by lia. rewrite (proj2 (Nat.ltb_lt k (S k))) by lia.
        rewrite set_next_at_spec; [by rewrite Hd|unfold unsigned; lia|]. apply (f_equal d_flags) in Hd. cbn [descriptor_at d_flags zero_descriptor] in Hd. rewrite Hd. by unfold unsigned.
      * rewrite (descriptor_at_ext (link_descriptors table k m)), IHd by (done || (intros b Hb; apply set_next_at_other; lia)).
        destruct (Nat.ltb_spec i k), (Nat.ltb_spec i (S k)); done || lia.
    + intros b Hb. rewrite set_next_at_other by lia. by apply IHo.
Qed.

Lemma load16_zero m a : (forall b, a <= b < a + 2 -> m b = 0) -> load16 m a = 0.
Proof. intros Hb. by rewrite (load16_ext (fun _ => 0)). Qed.

Lemma load32_zero m a : (forall b, a <= b < a + 4 -> m b = 0) -> load32 m a = 0.
Proof. intros Hb. by rewrite (load32_ext (fun _ => 0)). Qed.

Lemma fmap_seq_zero {A} (f : nat -> A) n z : (forall i, (i < n)%nat -> f i = z) -> f <$> seq 0 n = replicate n z.
Proof.
  intros Hf. apply list_eq_same_length with n; [apply length_replicate|by rewrite length_fmap, length_seq|]. intros i x y Hi.
  rewrite list_lookup_fmap, lookup_seq_lt, lookup_replicate_2 by done. cbn. intros [= <-] [= <-]. by apply Hf.
Qed.

(** The memory of a fresh queue holds the queue that VirtQueue.v starts from. *)
Lemma queue_view_new {T} (m : Z -> Z) (base f : Z) (n : nat) : 0 < Z.of_nat n <= 2 ^ 15 ->
  let l := compute_layout (Z.of_nat n) in
  (forall b, base <= b < base + num_frames l * FRAME_SIZE -> m b = 0) ->
  queue_view (T := T) (link_descriptors (base + descriptor_table_offset l) (n - 1) m)
    {| at_size := Z.of_nat n; at_frame := f; at_table := base + descriptor_table_offset l; at_available := base + available_ring_offset l;
       at_used := base + used_ring_offset l; at_last_used := 0; at_first_free := 0; at_num_free := Z.of_nat n; at_data := replicate n None |} = new n.
Proof.
  intros Hn l Hz. destruct (layout_parts _ Hn) as (Ht & Ha & Hu & _ & He). fold l in Ht, Ha, Hu, He. rewrite Ht in *. rewrite Z.add_0_r.
  destruct (link_descriptors_spec base n m (n - 1)) as [Hd Ho]; [lia|lia|intros b Hb; apply Hz; lia|].
  assert (Hzero : forall b, base + 16 * Z.of_nat n <= b < base + num_frames l * FRAME_SIZE -> link_descriptors base (n - 1) m b = 0).
  { intros b Hb. rewrite Ho by lia. apply Hz. lia. }
  unfold queue_view, new. cbn [at_size at_table at_available at_used at_last_used at_first_free at_num_free at_data]. rewrite Nat2Z.id. f_equal.
  - unfold initial_table. apply list_fmap_ext. intros i x [-> Hx]%lookup_seq. cbn [Nat.add]. rewrite Hd by lia.
    destruct (Nat.ltb_spec i (n - 1)), (Nat.ltb_spec (S i) n); done || lia.
  - apply load16_zero. intros b Hb. apply Hzero. lia.
  - apply fmap_seq_zero. intros i Hi. apply load16_zero. intros b Hb. apply Hzero. lia.
  - apply load16_zero. intros b Hb. apply Hzero. lia.
  - apply fmap_seq_zero. intros i Hi. apply load32_zero. intros b Hb. apply Hzero. lia.
Qed.

(** ** Lemmas: [VirtQueue::new] *)

Record QueueRegisters := { q_select : Z; q_size : Z; q_address : Z; q_vector : Z }.

(** The registers of queue 0 of a legacy device. The registers of the size and of the
    selected queue are adjacent, so that the 32-bit read of the driver has both; with
    queue 0 selected it is the size. *)
Class LegacyQueue (H : Type) `{PortIO H} (c : Configuration) := {
  queue_registers : H -> QueueRegisters;
  queue_registers_ok : 0 <= c_addr c /\ c_addr c + 0x20 <= 2 ^ 16;
  queue_size_ok h : 0 <= q_size (queue_registers h) <= 2 ^ 15;
  write_queue_select h : queue_registers (port_write 16 (c_addr c + 0x0e) 0 h) =
    {| q_select := 0; q_size := q_size (queue_registers h); q_address := q_address (queue_registers h); q_vector := q_vector (queue_registers h) |};
  read_queue_size h : q_select (queue_registers h) = 0 -> exists h',
    port_read 32 (c_addr c + 0x0c) h = (q_size (queue_registers h), h') /\ queue_registers h' = queue_registers h;
  write_queue_address h v : u32 v -> q_select (queue_registers h) = 0 -> queue_registers (port_write 32 (c_addr c + 0x08) v h) =
    {| q_select := 0; q_size := q_size (queue_registers h); q_address := v; q_vector := q_vector (queue_registers h) |};
  write_queue_vector h v : u16 v -> q_select (queue_registers h) = 0 -> queue_registers (port_write 16 (c_addr c + 0x16) v h) =
    {| q_select := 0; q_size := q_size (queue_registers h); q_address := q_address (queue_registers h); q_vector := v |}
}.

Section queue_new.
Context {H : Type} `{HP : PortIO H} {c : Configuration} `{HQ : !LegacyQueue H c} `{HX : X64Addr}.
Implicit Types s : Machine H.

Lemma queue_port off : 0 <= off < 0x20 -> add_checked 16 (c_addr c) off = Some (c_addr c + off).
Proof. intros Ho. pose proof queue_registers_ok. unfold add_checked. apply checked_Some. unfold unsigned. lia. Qed.

Lemma on_devices_write {E A} w off v (k : unit -> M (Machine H) E A) s : 0 <= off < 0x20 ->
  mbnd (on_devices (conf_write w c off v)) k s =
  k tt {| devices := port_write w (c_addr c + off) v (devices s); manager := manager s; ram := ram s |}.
Proof. intros Ho. unfold mbnd, on_devices, conf_write, mbnd. rewrite queue_port by done. done. Qed.

Lemma on_devices_read {E A} w off (k : Z -> M (Machine H) E A) s v h' : 0 <= off < 0x20 -> port_read w (c_addr c + off) (devices s) = (v, h') ->
  mbnd (on_devices (conf_read w c off)) k s = k v {| devices := h'; manager := manager s; ram := ram s |}.
Proof. intros Ho Hr. unfold mbnd, on_devices, conf_read, mbnd, inp. rewrite queue_port by done. cbn [munwrap ret]. by rewrite Hr. Qed.

Definition MAPPED_FRAMES : Z := 2 ^ 24.

Lemma zeroed m base n : 0 <= n -> (forall b, base <= b < base + n -> store m base (replicate (Z.to_nat n) 0) b = 0) /\
  forall b, b < base \/ base + n <= b -> store m base (replicate (Z.to_nat n) 0) b = m b.
Proof.
  intros Hn. assert (Hl : zlen (replicate (Z.to_nat n) 0) = n) by (rewrite length_replicate; lia). split.
  - intros b Hb. unfold store. rewrite Hl, (proj2 (andb_true_iff _ _)) by (split; lia). by rewrite lookup_replicate_2 by lia.
  - intros b Hb. apply ram_store_other. rewrite Hl. lia.
Qed.

Lemma link_outside base n k m b : 0 <= Z.of_nat n <= 2 ^ 16 -> (k <= n)%nat -> b < base \/ base + 16 * Z.of_nat n <= b -> link_descriptors base k m b = m b.
Proof.
  intros Hn Hk Hb. induction k as [|k IH]; [done|]. unfold link_descriptors. rewrite seq_S, foldl_app. cbn [foldl Nat.add].
  rewrite set_next_at_other by lia. apply IH. lia.
Qed.

(** What [VirtQueue::new] leaves: a queue in [k] frames that were free *)
Definition queue_ready {T} (n v : Z) s (q : QueueAt T) s' : Prop :=
  let k := num_frames (compute_layout n) in
  0 < n /\ queue_view (ram s') q = VirtQueue.new (Z.to_nat n) /\
  at_table q = at_frame q * FRAME_SIZE /\ at_available q = at_table q + 16 * n /\ at_used q = at_table q + align (16 * n + (6 + 2 * n)) /\
  free_run (manager s) (at_frame q) k /\ bits_set (manager s) (manager s') (at_frame q) k true /\
  queue_drop q (manager s') = Some (manager s) /\
  (forall a, a < at_frame q * FRAME_SIZE \/ (at_frame q + k) * FRAME_SIZE <= a -> ram s' a = ram s a) /\
  queue_registers (devices s') = {| q_select := 0; q_size := n; q_address := at_frame q; q_vector := v |}.

Lemma queue_new_ok {T} s v : wf (manager s) -> end_ (manager s) <= MAPPED_FRAMES -> msi_x_enabled c = true -> u16 v ->
  let n := q_size (queue_registers (devices s)) in
  ends (queue_new (T := T) c 0 (Some v)) s (queue_ready n v s)
    (fun e s' => ram s' = ram s /\ manager s' = manager s /\
      ((n = 0 /\ e = "Queue is unavailable"%string) \/
       (0 < n /\ e = "Cannot allocate frame for this queue"%string /\ forall f, ~ free_run (manager s) f (num_frames (compute_layout n))))).
Proof.
  intros W Hmax Hx Hv n. pose proof (queue_size_ok (devices s)) as Hn. fold n in Hn. unfold ends, queue_new, set_queue_select, conf_queue_size.
  rewrite on_devices_write by lia. set (h1 := port_write _ _ _ _). pose proof (write_queue_select (devices s)) as Hq1. fold h1 n in Hq1.
  destruct (read_queue_size h1) as (h2 & Hr2 & Hq2); [by rewrite Hq1|]. rewrite Hq1 in Hr2, Hq2. cbn [q_size] in Hr2.
  erewrite on_devices_read by (done || lia). cbn [devices manager ram]. destruct (Z.eqb_spec n 0) as [H0|H0]; [cbn; eauto|].
  set (l := compute_layout n). destruct (layout_parts n) as (Ht & Ha & Hu & _ & He); [lia|]. fold l in Ht, Ha, Hu, He.
  assert (Hk : 1 <= num_frames l) by (unfold FRAME_SIZE in He; lia).
  pose proof (allocate_spec (manager s) (num_frames l) W ltac:(lia)) as Hal. unfold mbnd at 1, take_frames. cbn [manager devices ram].
  destruct (allocate (manager s) (num_frames l)) as [[f|[]| |] fm] eqn:Eal; [|cbn; destruct Hal as [-> Hno]; split_and!; try done; right; split_and!; [lia|done|done]|done..].
  destruct Hal as (Hfr & Hbits & _). pose proof Hfr as (Hb1 & He1 & _).
  assert (Hf : 0 <= f < MAPPED_FRAMES) by (destruct W as (? & ? & ?); lia).
  assert (Hpa : phys_addr f = Some (f * FRAME_SIZE)).
  { unfold phys_addr, mul_checked, MAPPED_FRAMES, FRAME_SIZE, PhysMemory.FRAME_SIZE in *. rewrite checked_Some by (unfold unsigned; lia). apply phys_addr_new_valid. lia. }
  rewrite Hpa. unfold mbnd at 1. cbn [munwrap ret]. unfold as_virt_addr. rewrite (proj2 (Z.ltb_lt _ _)) by (unfold Size1GiB, MAPPED_FRAMES, FRAME_SIZE in *; lia).
  unfold mbnd at 1. cbn [munwrap ret]. unfold mbnd at 1, on_ram at 1. cbn [devices manager ram].
  unfold set_queue_address, set_queue_msix_vector. rewrite Hx. rewrite on_devices_write by lia. cbn [devices manager ram].
  replace (wrap 32 (f * FRAME_SIZE / FRAME_SIZE)) with f by (rewrite Z.div_mul by done; unfold wrap, MAPPED_FRAMES in *; by rewrite Z.mod_small by lia).
  change (mbnd (massert true) (fun _ => conf_write 16 c 22 v)) with (conf_write (E := string) 16 c 22 v).
  rewrite on_devices_write by lia. unfold mbnd, on_ram. cbn [devices manager ram ret].
  assert (Hf32 : u32 f) by (unfold unsigned, MAPPED_FRAMES in *; lia).
  pose proof (write_queue_address h2 f Hf32 ltac:(by rewrite Hq2)) as Hq3. rewrite Hq2 in Hq3. cbn [q_size q_vector] in Hq3.
  match type of Hq3 with queue_registers ?h = _ => pose proof (write_queue_vector h v Hv ltac:(by rewrite Hq3)) as Hq4; rewrite Hq3 in Hq4; cbn [q_size q_address] in Hq4 end.
  set (n' := Z.to_nat n). assert (Hn' : Z.of_nat n' = n) by lia. replace (Z.to_nat (n - 1)) with (n' - 1)%nat by lia.
  destruct (zeroed (ram s) (f * FRAME_SIZE) (FRAME_SIZE * num_frames l)) as [Hz0 Hzo]; [unfold FRAME_SIZE; lia|].
  unfold queue_ready. fold l. cbn [devices manager ram at_table at_frame at_available at_used].
  split; [lia|]. split; [|split; [|split; [|split; [|split; [|split; [|split; [|split]]]]]]].
  - epose proof (queue_view_new (T := T) _ (f * FRAME_SIZE) f n' ltac:(lia)) as Hview. rewrite Hn' in Hview. fold l in Hview.
    apply Hview. intros b Hb. apply Hz0. unfold FRAME_SIZE in *. lia.
  - lia.
  - lia.
  - rewrite Ht. unfold l, compute_layout. cbn [used_ring_offset]. lia.
  - exact Hfr.
  - exact Hbits.
  - unfold queue_drop. cbn [at_frame at_size]. fold l. eapply free_restores; [exact W|lia|exact Eal].
  - intros a Ha'. rewrite (link_outside _ n') by (rewrite ?Ht; unfold FRAME_SIZE in *; lia). apply Hzo. unfold FRAME_SIZE in *. lia.
  - exact Hq4.
Qed.

End queue_new.

(** [C28]. On a legacy device [VirtQueue::new] either gives back a queue or
    says why there is none: the device has no such queue, or no run of free frames is
    long enough, and nothing has changed but the selected queue. A queue is in frames that were free
    and are allocated now; its memory holds exactly the empty queue that the operations
    of the driver start from; no other memory has changed; its parts are where a
    legacy device looks for them, the device has the number of the frame and the
    vector; and dropping the queue gives back the frames. *)
Theorem queue_new_ready {H T : Type} {c : Configuration} `{LegacyQueue H c} `{X64Addr} (s : Machine H) (v : Z) :
  wf (manager s) -> end_ (manager s) <= MAPPED_FRAMES -> msi_x_enabled c = true -> u16 v ->
  let n := q_size (queue_registers (devices s)) in
  ends (queue_new (T := T) c 0 (Some v)) s (queue_ready n v s)
    (fun e s' => ram s' = ram s /\ manager s' = manager s /\
      ((n = 0 /\ e = "Queue is unavailable"%string) \/
       (0 < n /\ e = "Cannot allocate frame for this queue"%string /\ forall f, ~ free_run (manager s) f (num_frames (compute_layout n))))).
Proof. apply queue_new_ok. Qed.

(** ** Lemmas: the scan, whatever the devices answer *)

(** A read of a port of [w] bits is a number of [w] bits. *)
Class PortWidth (H : Type) `{PortIO H} := {
  port_read_unsigned w p h : 0 < w -> unsigned w (port_read w p h).1
}.

(** The manager [fm'] keeps what [fm] has allocated. *)
Definition grows (fm fm' : BitmapFrameManager) : Prop :=
  wf fm' /\ length (alloc_map fm') = length (alloc_map fm) /\ begin_ fm' = begin_ fm /\ end_ fm' = end_ fm /\
  forall g, mapped fm g -> bit fm g = true -> bit fm' g = true.

Lemma grows_refl fm : wf fm -> grows fm fm.
Proof. by intros W. Qed.

Lemma grows_trans a b d : grows a b -> grows b d -> grows a d.
Proof.
  intros (_ & Hl & Hb & He & Hg) (W & Hl' & Hb' & He' & Hg'). split_and!; [done|congruence..|]. intros g Hm Ha. apply Hg'; [|by apply Hg].
  unfold mapped in *. by rewrite Hl.
Qed.

Lemma bits_set_grows fm fm' f k : wf fm -> bits_set fm fm' f k true -> grows fm fm'.
Proof.
  intros W Hs. pose proof (bits_set_wf _ _ _ _ _ W Hs) as W'. destruct Hs as (Hl & Hb & He & _ & Hg). split_and!; try done.
  intros g Hm Ha. rewrite Hg by done. by case_decide.
Qed.

(** [m] ends with a result in [Q], or else with a manager that keeps what [fm] has allocated. *)
Definition guarded {H E A} (fm : BitmapFrameManager) (m : M (Machine H) E A) (s : Machine H) (Q : A -> BitmapFrameManager -> Prop) : Prop :=
  match m s with (Ok a, s') => Q a (manager s') | (_, s') => grows fm (manager s') end.

Section guarded.
Context {H E : Type} (fm : BitmapFrameManager).

Lemma guarded_bind {A B} (m : M (Machine H) E A) (k : A -> M (Machine H) E B) s Q :
  guarded fm m s (fun a fm' => forall s', manager s' = fm' -> guarded fm (k a) s' Q) -> guarded fm (mbnd m k) s Q.
Proof. unfold guarded, mbnd. destruct (m s) as [[a|e| |] s']; intros Hm; try exact Hm. exact (Hm s' eq_refl). Qed.

Lemma guarded_devices {A} (m : M H E A) s (Q : A -> BitmapFrameManager -> Prop) :
  grows fm (manager s) -> (forall a, Q a (manager s)) -> guarded fm (on_devices m) s Q.
Proof. intros Hg HQ. unfold guarded, on_devices. destruct (m (devices s)) as [[a|e| |] h]; by cbn. Qed.

Lemma guarded_devices_bind {A B} (m : M H E A) (k : A -> M (Machine H) E B) s Q :
  grows fm (manager s) -> (forall a s', manager s' = manager s -> guarded fm (k a) s' Q) -> guarded fm (mbnd (on_devices m) k) s Q.
Proof. intros Hg Hk. apply guarded_bind, guarded_devices; auto. Qed.

Lemma guarded_ret {A} (a : A) (s : Machine H) (Q : A -> BitmapFrameManager -> Prop) : Q a (manager s) -> guarded (E := E) fm (ret a) s Q.
Proof. done. Qed.

Lemma guarded_fail {A} (e : E) (s : Machine H) (Q : A -> BitmapFrameManager -> Prop) : grows fm (manager s) -> guarded fm (mfail e) s Q.
Proof. done. Qed.

Lemma guarded_unwrap {A B} (o : option A) (k : A -> M (Machine H) E B) s Q :
  grows fm (manager s) -> (forall a s', o = Some a -> manager s' = manager s -> guarded fm (k a) s' Q) -> guarded fm (mbnd (munwrap o) k) s Q.
Proof. intros Hg Hk. apply guarded_bind. destruct o as [a|]; [|done]. intros s' Hs. by apply Hk. Qed.

Lemma guarded_err {F A} (f : E -> F) (m : M (Machine H) E A) s (Q : A -> BitmapFrameManager -> Prop) :
  guarded fm m s Q -> guarded fm (mmap_err f m) s Q.
Proof. unfold guarded, mmap_err. by destruct (m s) as [[a|e| |] s']. Qed.

Lemma guarded_expect {A B} (e : E) (o : option A) (k : A -> M (Machine H) E B) s Q :
  grows fm (manager s) -> (forall a s', o = Some a -> manager s' = manager s -> guarded fm (k a) s' Q) -> guarded fm (mbnd (mexpect e o) k) s Q.
Proof. intros Hg Hk. apply guarded_bind. destruct o as [a|]; [|done]. intros s' Hs. by apply Hk. Qed.

Lemma guarded_mono {A} (Q0 : A -> BitmapFrameManager -> Prop) (m : M (Machine H) E A) s (Q : A -> BitmapFrameManager -> Prop) :
  guarded fm m s Q0 -> (forall a fm', Q0 a fm' -> Q a fm') -> guarded fm m s Q.
Proof. intros Hm HQ. unfold guarded in *. destruct (m s) as [[a|e| |] s']; auto. Qed.

Lemma guarded_ram {B} f (k : unit -> M (Machine H) E B) s Q :
  (forall s', manager s' = manager s -> guarded fm (k tt) s' Q) -> guarded fm (mbnd (on_ram f) k) s Q.
Proof. intros Hk. apply guarded_bind. intros s' Hs. by apply Hk. Qed.

End guarded.

(** The frames of a queue: free before, allocated now *)
Definition owned (fm0 fm : BitmapFrameManager) {T} (q : QueueAt T) : Prop :=
  let k := num_frames (compute_layout (at_size q)) in
  free_run fm0 (at_frame q) k /\ forall g, at_frame q <= g < at_frame q + k -> bit fm g = true.

Lemma owned_grows fm0 fm fm' {T} (q : QueueAt T) : wf fm0 -> length (alloc_map fm) = length (alloc_map fm0) -> grows fm fm' -> owned fm0 fm q -> owned fm0 fm' q.
Proof.
  intros W Hl (_ & _ & _ & _ & Hg) [Hf Hb]. split; [done|]. intros g Hr. apply Hg; [|by apply Hb]. destruct Hf as (? & ? & _).
  pose proof (wf_mapped fm0 g W ltac:(lia)) as Hm. unfold mapped in *. by rewrite Hl.
Qed.

Lemma owned_earlier fm0 fm fm' {T} (q : QueueAt T) : wf fm0 -> grows fm0 fm -> owned fm fm' q -> owned fm0 fm' q.
Proof.
  intros W (W' & Hl & Hb & He & Hg) [(H1 & H2 & Hf) Ht]. split; [|done]. split_and!; [lia..|]. intros g Hr. specialize (Hf g Hr).
  destruct (bit fm0 g) eqn:E; [|done]. rewrite Hg in Hf; [done| |done]. apply wf_mapped; [done|]. lia.
Qed.

Lemma layout_frames_nonneg n : u32 n -> 0 <= num_frames (compute_layout n).
Proof.
  unfold unsigned. intros Hn. unfold compute_layout. cbn [num_frames].
  destruct (align_bounds (16 * n + (6 + 2 * n))) as (H1 & _); [lia..|]. destruct (align_bounds (6 + 8 * n)) as (H2 & _); [lia..|].
  apply Z.div_pos; [lia|done].
Qed.

Section scan.
Context {H : Type} `{HP : PortIO H} `{HW : !PortWidth H} `{HM : Mmio H} `{HX : X64Addr} `{HF : BitField} `{HV : Heapless}.
Context {C : Type} (info : option (@SystemInfo C)).

Lemma queue_size_guarded {A} fm c (k : Z -> M (Machine H) string A) s Q : grows fm (manager s) ->
  (forall n s', u32 n -> manager s' = manager s -> guarded fm (k n) s' Q) -> guarded fm (mbnd (on_devices (conf_queue_size c)) k) s Q.
Proof.
  intros Hg Hk. unfold guarded, mbnd, on_devices, conf_queue_size, conf_read, mbnd, inp. destruct (add_checked 16 (c_addr c) 12) as [p|]; cbn [munwrap ret mpanic]; [|done].
  pose proof (port_read_unsigned 32 p (devices s) ltac:(lia)) as Hu. destruct (port_read 32 p (devices s)) as [v h']. by apply (Hk v).
Qed.

Lemma queue_new_guarded {T} c i v s : wf (manager s) ->
  guarded (manager s) (queue_new (T := T) c i v) s (fun q fm' => grows (manager s) fm' /\ owned (manager s) fm' q).
Proof.
  intros W. pose proof (grows_refl _ W) as Hg. unfold queue_new. apply guarded_devices_bind; [done|]. intros _ s1 H1.
  apply queue_size_guarded; [by rewrite H1|]. intros n s2 Hn H2. destruct (n =? 0); [apply guarded_fail; by rewrite H2, H1|].
  apply guarded_bind. unfold guarded at 1, take_frames. rewrite H2, H1. pose proof (allocate_spec (manager s) _ W (layout_frames_nonneg n Hn)) as Hal.
  destruct (allocate (manager s) (num_frames (compute_layout n))) as [[f|e| |] fm]; cbn [manager]; [|by destruct Hal as [-> _]|done..].
  destruct Hal as (Hfr & Hbits & _). pose proof (bits_set_grows _ _ _ _ W Hbits) as Hgf. intros s3 H3.
  apply guarded_unwrap; [by rewrite H3|]. intros pa s4 _ H4. apply guarded_unwrap; [by rewrite H4, H3|]. intros p s5 _ H5.
  apply guarded_ram. intros s6 H6. apply guarded_devices_bind; [by rewrite H6, H5, H4, H3|]. intros _ s7 H7.
  assert (H7' : manager s7 = fm) by congruence. apply guarded_bind.
  eapply (guarded_mono _ (fun _ fm' => fm' = fm));
    [destruct v as [v|]; [apply guarded_devices; [by rewrite H7'|done]|by apply guarded_ret]|].
  intros _ fm' -> s8 H8. apply guarded_ram. intros s9 H9. apply guarded_ret. rewrite H9, H8. split; [done|]. split; [exact Hfr|].
  cbn [at_frame at_size]. intros g Hr. destruct Hbits as (_ & _ & _ & _ & Hb). destruct Hfr as (? & ? & _).
  rewrite Hb, decide_True by (done || (apply wf_mapped; [done|lia])). done.
Qed.

Lemma from_pci_device_guarded d i s : wf (manager s) -> guarded (manager s) (from_pci_device info d i) s (fun b fm' =>
  grows (manager s) fm' /\ owned (manager s) fm' (ba_requestq b) /\ i < 8).
Proof.
  intros W. pose proof (grows_refl _ W) as Hg. unfold from_pci_device. apply guarded_bind, guarded_err, guarded_devices; [done|]. intros x s1 H1. apply guarded_bind.
  eapply (guarded_mono _ (fun _ fm' => fm' = manager s /\ i < 8)).
  { destruct x as [x|]; [|apply guarded_fail; by rewrite H1]. apply guarded_bind, guarded_err, guarded_devices; [by rewrite H1|]. intros t s2 H2.
    destruct (_ =? 0); [apply guarded_fail; by rewrite H2, H1|]. apply guarded_expect; [by rewrite H2, H1|]. intros bsp s3 _ H3.
    apply guarded_expect; [by rewrite H3, H2, H1|]. intros irq s4 Hirq H4. assert (H4' : manager s4 = manager s) by congruence.
    assert (Hi : i < 8) by (unfold virtio_block_irq in Hirq; by destruct (Z.ltb_spec i 8)). apply guarded_err.
    apply guarded_devices_bind; [by rewrite H4'|]. intros t' s5 H5. apply guarded_devices_bind; [by rewrite H5, H4'|]. intros e s6 H6.
    apply guarded_devices_bind; [by rewrite H6, H5, H4'|]. intros _ s7 H7. assert (H7' : manager s7 = manager s) by congruence.
    apply guarded_devices; [by rewrite H7'|]. intros _. by rewrite H7'. }
  intros _ fm' [-> Hi] s3 H3'. apply guarded_err.
  apply guarded_devices_bind; [by rewrite H3'|]. intros c s4 H4. apply guarded_devices_bind; [by rewrite H4, H3'|]. intros _ s5 H5.
  assert (H5' : manager s5 = manager s) by congruence. apply guarded_bind. rewrite <- H5' at 1.
  eapply guarded_mono; [apply queue_new_guarded; by rewrite H5'|]. rewrite H5'. intros q fm' [Hg6 Ho6] s7 H7. apply guarded_devices_bind; [by rewrite H7|]. intros _ s8 H8. apply guarded_ret. by rewrite H8, H7.
Qed.

(** Two queues without a common frame *)
Definition apart (b b' : BlockAt) : Prop :=
  let q := ba_requestq b in let q' := ba_requestq b' in
  forall g, at_frame q <= g < at_frame q + num_frames (compute_layout (at_size q)) ->
    at_frame q' <= g < at_frame q' + num_frames (compute_layout (at_size q')) -> False.

Definition blocks_ok (fm0 fm : BitmapFrameManager) (blocks : list BlockAt) : Prop :=
  grows fm0 fm /\ (length blocks <= 8)%nat /\ Forall (fun b => owned fm0 fm (ba_requestq b)) blocks /\
  forall i j b b', i <> j -> blocks !! i = Some b -> blocks !! j = Some b' -> apart b b'.

Lemma blocks_ok_grows fm0 fm fm' blocks : wf fm0 -> blocks_ok fm0 fm blocks -> grows fm fm' -> blocks_ok fm0 fm' blocks.
Proof.
  intros W (Hg & Hl & Ho & Ha) Hg'. split_and!; [by eapply grows_trans|done| |done]. apply (Forall_impl _ _ _ Ho). intros b. apply owned_grows; [done|apply Hg|done].
Qed.

(** A new block: its frames are free, those of the others are not. *)
Lemma blocks_ok_push fm0 fm fm' blocks b : wf fm0 -> (length blocks < 8)%nat -> blocks_ok fm0 fm blocks -> grows fm fm' -> owned fm fm' (ba_requestq b) ->
  blocks_ok fm0 fm' (blocks ++ [b]).
Proof.
  intros W Hlt Hok Hg' Hb. destruct (blocks_ok_grows _ _ _ _ W Hok Hg') as (Hg & _ & Ho & Ha). destruct Hok as (Hg0 & _ & Ho0 & _).
  assert (Hnew : forall i b', blocks !! i = Some b' -> apart b' b).
  { intros i b' Hi g Hr Hr'. apply (proj1 (Forall_lookup _ _) Ho0) in Hi as [_ Ht]. destruct Hb as [(_ & _ & Hf) _]. specialize (Hf g Hr'). by rewrite (Ht g Hr) in Hf. }
  split_and!; [done|rewrite length_app; cbn; lia|apply Forall_app; split; [done|]; constructor; [eapply owned_earlier; [done|exact Hg0|done]|by apply List.Forall_nil]|].
  intros i j x y Hij Hx Hy. apply lookup_snoc_Some in Hx as [[Hi Hx]|[-> <-]]; apply lookup_snoc_Some in Hy as [[Hj Hy]|[-> <-]];
    [by eapply Ha|by eapply Hnew|intros g H1 H2; by eapply (Hnew _ _ Hy g)|done].
Qed.

Lemma scan_block_guarded N d blocks fm0 s : wf fm0 -> (8 <= N)%nat -> blocks_ok fm0 (manager s) blocks ->
  guarded fm0 (scan_block info N d blocks) s (fun blocks' fm' => blocks_ok fm0 fm' blocks') /\ scan_block info N d blocks s = scan_block info 8 d blocks s.
Proof.
  intros W HN Hok. pose proof Hok as (Hg & Hl & _). unfold scan_block.
  assert (Hnew : forall s', manager s' = manager s -> let r N := match from_pci_device info d (zlen blocks) s' with
      | (Ok block, s') => match push N blocks block with Some blocks' => (Ok blocks', s') | None => (Ok blocks, s') end
      | (Err (Returned _), s') => (Ok blocks, s') | (Err (Unset msg), s') => (Err msg, s')
      | (Panic, s') => (Panic, s') | (Diverge, s') => (Diverge, s') end in
    match r N with (Ok b, s') => blocks_ok fm0 (manager s') b | (_, s') => grows fm0 (manager s') end /\ r N = r 8%nat).
  { intros s' Hs'. pose proof (from_pci_device_guarded d (zlen blocks) s') as Hd. rewrite Hs' in Hd. specialize (Hd (proj1 Hg)). unfold guarded in Hd. cbn zeta.
    destruct (from_pci_device info d (zlen blocks) s') as [[b|[e|e]| |] s2].
    - destruct Hd as (Hg2 & Ho2 & Hi). rewrite !push_ok by lia. split; [|done]. eapply blocks_ok_push; [done|lia|done|done|done].
    - split; [by eapply blocks_ok_grows|done].
    - split; [by eapply grows_trans|done].
    - split; [by eapply grows_trans|done].
    - split; [by eapply grows_trans|done]. }
  unfold guarded, mbnd, infallible, mmap_err, on_devices. destruct (is_virtio d (devices s)) as [[[|]|[]| |] h1]; cbn [devices manager ram ret]; try by split.
  destruct (subsystem_id d h1) as [[i|[]| |] h2]; cbn [devices manager ram ret]; try by split.
  destruct (i =? 2); [by apply Hnew|by split].
Qed.

Lemma block_scan_guarded N fm0 ds : wf fm0 -> (8 <= N)%nat -> forall blocks s, blocks_ok fm0 (manager s) blocks ->
  guarded fm0 (mfor (scan_block info N) ds blocks) s (fun blocks' fm' => blocks_ok fm0 fm' blocks') /\
  mfor (scan_block info N) ds blocks s = mfor (scan_block info 8) ds blocks s.
Proof.
  intros W HN. induction ds as [|d ds IH]; intros blocks s Hok; [by split|]. cbn [mfor].
  destruct (scan_block_guarded N d blocks fm0 s W HN Hok) as [Hd He]. unfold guarded, mbnd in *. rewrite <- He.
  destruct (scan_block info N d blocks s) as [[b|e| |] s1]; [by apply IH|by split..].
Qed.

(** With [SYSTEM_INFO] set the scan has no use of an unset static. *)
Definition no_unset {A} (m : M (Machine H) InitError A) : Prop := forall s msg, (m s).1 <> Err (Unset msg).

Lemma no_unset_bind {A B} (m : M (Machine H) InitError A) (k : A -> M (Machine H) InitError B) : no_unset m -> (forall a, no_unset (k a)) -> no_unset (mbnd m k).
Proof. intros Hm Hk s msg. unfold mbnd. specialize (Hm s msg). destruct (m s) as [[a|e| |] s']; [apply Hk|..]; cbn in *; congruence. Qed.

Lemma no_unset_err {A} (m : M (Machine H) string A) : no_unset (mmap_err Returned m).
Proof. intros s msg. unfold mmap_err. by destruct (m s) as [[a|e| |] s']. Qed.

Lemma no_unset_some {A} e (o : option A) : is_Some o -> no_unset (mexpect e o).
Proof. intros [a ->] s msg. done. Qed.

Lemma no_unset_returned {A} msg (o : option A) : no_unset (mexpect (Returned msg) o).
Proof. intros s m. by destruct o. Qed.

Lemma no_unset_fail {A} msg : no_unset (mfail (A := A) (Returned msg)).
Proof. done. Qed.

Lemma from_pci_device_set d i : is_Some info -> no_unset (from_pci_device info d i).
Proof.
  intros Hi. unfold from_pci_device. apply no_unset_bind; [apply no_unset_err|]. intros x. apply no_unset_bind; [|intros _; apply no_unset_err].
  destruct x as [x|]; [|apply no_unset_fail]. apply no_unset_bind; [apply no_unset_err|]. intros t. destruct (_ =? 0); [apply no_unset_fail|].
  apply no_unset_bind; [apply no_unset_some; destruct Hi as [? ->]; by eexists|]. intros bsp. apply no_unset_bind; [apply no_unset_returned|]. intros irq. apply no_unset_err.
Qed.

Lemma block_scan_set N ds : is_Some info -> forall blocks s msg, (mfor (scan_block info N) ds blocks s).1 <> Err msg.
Proof.
  intros Hi. induction ds as [|d ds IH]; intros blocks s msg; [done|]. cbn [mfor]. unfold mbnd at 1.
  assert (Hd : (scan_block info N d blocks s).1 <> Err msg).
  { unfold scan_block, mbnd, infallible, mmap_err, on_devices. destruct (is_virtio d (devices s)) as [[[|]|[]| |] h1]; cbn [devices manager ram ret]; try done.
    destruct (subsystem_id d h1) as [[x|[]| |] h2]; cbn [devices manager ram ret]; try done. destruct (x =? 2); [|done].
    pose proof (from_pci_device_set d (zlen blocks) Hi {| devices := h2; manager := manager s; ram := ram s |}) as Hu.
    destruct (from_pci_device info d (zlen blocks) _) as [[b|[e|e]| |] s2]; try done; [by destruct (push N blocks b)|]. by destruct (Hu e). }
  destruct (scan_block info N d blocks s) as [[b|e| |] s1]; [apply IH|..]; cbn in *; congruence.
Qed.

End scan.

(** Whatever the devices answer, the scan for block devices has at most 8
    blocks, the queues are in frames that were free before, no frame belongs to two
    queues, and what was allocated stays allocated, also when the scan panics or does not end.
    The case that there is no room for a block cannot occur: there is no IRQ for a ninth. *)
Theorem block_scan_safe {H C : Type} `{PortWidth H} `{Mmio H} `{X64Addr} `{BitField} `{Heapless} (info : option (@SystemInfo C)) (ds : list Device) (s : Machine H) :
  wf (manager s) ->
  (match block_scan info 8 ds s with
   | (Ok blocks, s') => blocks_ok (manager s) (manager s') blocks
   | (_, s') => grows (manager s) (manager s')
   end) /\
  forall N, (8 <= N)%nat -> block_scan info N ds s = block_scan info 8 ds s.
Proof.
  intros W. assert (Hok : blocks_ok (manager s) (manager s) []).
  { split_and!; [by apply grows_refl|cbn; lia|by apply List.Forall_nil|done]. }
  split; [apply (block_scan_guarded info 8 (manager s) ds W); [lia|done]|].
  intros N HN. by apply (block_scan_guarded info N (manager s) ds W).
Qed.

(** ** Concrete instances *)

Module Demo.
#[local] Existing Instance x64_checks.

(** A machine with configuration space, ports and memory-mapped registers that are memory *)
Record pc := { latch : Z; space : Z -> Z; ports : Z -> Z; words : Z -> Z }.

Definition set {B} (f : Z -> B) (a : Z) (v : B) : Z -> B := fun x => if x =? a then v else f x.

#[export] Instance pc_ports : PortIO pc := {
  port_read w p h := (wrap (if p =? 0xc00c then Z.min w 15 else w) (if p =? 0xcfc then space h (latch h) else ports h p), h);
  port_write w p v h :=
    if p =? 0xcf8 then {| latch := v; space := space h; ports := ports h; words := words h |}
    else if p =? 0xcfc then {| latch := latch h; space := set (space h) (latch h) v; ports := ports h; words := words h |}
    else {| latch := latch h; space := space h; ports := set (ports h) p v; words := words h |} }.

#[export] Instance pc_mmio : Mmio pc := {
  mmio_read p h := (wrap 32 (words h p), h);
  mmio_write p v h := {| latch := latch h; space := space h; ports := ports h; words := set (words h) p v |} }.

Lemma wrap_narrow w k x : 0 < k <= w -> unsigned w (wrap k x).
Proof.
  intros Hk. unfold unsigned, wrap. pose proof (Z.mod_pos_bound x (2 ^ k) ltac:(apply Z.pow_pos_nonneg; lia)).
  pose proof (Z.pow_le_mono_r 2 k w ltac:(lia) ltac:(lia)). lia.
Qed.

#[export] Instance pc_width : PortWidth pc.
Proof. constructor. intros w p h Hw. cbn. apply wrap_narrow. destruct (p =? _); lia. Qed.

#[export] Instance pc_queue : LegacyQueue pc demo_configuration.
Proof.
  refine {| queue_registers := fun h => {| q_select := ports h 0xc00e; q_size := wrap 15 (ports h 0xc00c); q_address := ports h 0xc008; q_vector := ports h 0xc016 |} |}.
  - done.
  - intros h. pose proof (wrap_narrow 15 15 (ports h 0xc00c) ltac:(lia)) as Hu. unfold unsigned in Hu. cbn. lia.
  - done.
  - intros h _. by exists h.
  - intros h v _ Hs. exact (f_equal4 Build_QueueRegisters Hs eq_refl eq_refl eq_refl).
  - intros h v _ Hs. exact (f_equal4 Build_QueueRegisters Hs eq_refl eq_refl eq_refl).
Defined.

(** Two functions of virtio block devices, at the devices 1 and 2 of bus 0, and nothing else *)
Definition demo_space (a : Z) : Z :=
  let d := a / 2048 mod 32 in
  if (d =? 1) || (d =? 2) then
    match a mod 256 with
    | 0x00 => 0x10001af4
    | 0x04 => 0x100000
    | 0x10 => 0xc001 + 4096 * (d - 1)
    | 0x14 => 0xfebd0000 + 4096 * d
    | 0x2c => 0x20000
    | 0x34 => 0x40
    | 0x40 => 0x00030011
    | 0x44 => 0x1
    | _ => 0
    end
  else 2 ^ 32 - 1.

Definition demo_pc : Machine pc :=
  {| devices := {| latch := 0; space := demo_space; ports := fun p => if p mod 4096 =? 0xc then 4 else 0; words := fun _ => 1 |};
     manager := PhysMemory.demo; ram := fun a => a mod 256 |}.

Definition demo_info : option (@SystemInfo unit) := system_info tt {| boot_processor := 0; application_processors := [] |}.

Definition demo_devices : list Device :=
  [{| bus := 0; device := 0; function := 0 |}; {| bus := 0; device := 1; function := 0 |}; {| bus := 0; device := 2; function := 0 |}].

Lemma queue_new_ready_witness : exists q s', queue_new (T := Z) demo_configuration 0 (Some 0) demo_pc = (Ok q, s') /\
  queue_view (ram s') q = VirtQueue.new 4 /\ at_frame q = 3 /\ q_address (queue_registers (devices s')) = 3 /\ ram s' 0x2fff = 0xff /\
  queue_drop q (manager s') = Some PhysMemory.demo.
Proof.
  pose proof (queue_new_ready (T := Z) demo_pc 0 demo_wf ltac:(vm_compute; discriminate) eq_refl ltac:(by unfold unsigned)) as Hn.
  unfold ends in Hn. assert (Hf : exists q, (queue_new (T := Z) demo_configuration 0 (Some 0) demo_pc).1 = Ok q /\ at_frame q = 3) by (eexists; split; [vm_compute; reflexivity|reflexivity]).
  destruct (queue_new _ _ _ demo_pc) as [o s']. destruct Hf as (q & Ho & Hq). cbn [fst] in Ho. subst o.
  destruct Hn as (_ & Hv & _ & _ & _ & _ & _ & Hd & Hr & Hreg). exists q, s'. rewrite Hreg. rewrite Hq in Hr. split_and!; [reflexivity|exact Hv|exact Hq|exact Hq|rewrite Hr; [reflexivity|left; reflexivity]|exact Hd].
Defined.

(** Both devices are found; the frames of their queues are 3 and 4, and 5 and 6. *)
Lemma block_scan_safe_witness : exists b1 b2 s', block_scan demo_info 8 demo_devices demo_pc = (Ok [b1; b2], s') /\
  at_frame (ba_requestq b1) = 3 /\ at_frame (ba_requestq b2) = 5 /\ blocks_ok PhysMemory.demo (manager s') [b1; b2].
Proof.
  destruct (block_scan_safe demo_info demo_devices demo_pc demo_wf) as [Hs _].
  assert (Hf : exists b1 b2, (block_scan demo_info 8 demo_devices demo_pc).1 = Ok [b1; b2] /\ at_frame (ba_requestq b1) = 3 /\ at_frame (ba_requestq b2) = 5).
  { eexists _, _. split; [vm_compute; reflexivity|]. split; reflexivity. }
  destruct (block_scan _ _ _ demo_pc) as [o s']. destruct Hf as (b1 & b2 & Ho & H1 & H2). cbn [fst] in Ho. subst o.
  exists b1, b2, s'. split_and!; [reflexivity|exact H1|exact H2|exact Hs].
Defined.

End Demo.
