(* ===== verification/Ansi.v ===== *)
(** * ANSI escape codes (src/ors-kernel/src/console/ansi.rs)

    The decoder of characters into escape sequences, the inputs of the console they
    stand for, and color schemes. Characters are code points. *)

From S2P Require Import Prelude.
Local Open Scope Z_scope.

(** ** Colors *)

Inductive NamedColor := Black | Red | Green | Yellow | Blue | Magenta | Cyan | White.

Inductive NamedColorVariation := ForceDimmer | Dimmer | Brighter | ForceBrighter.

Definition is_dimmer (v : NamedColorVariation) : bool := match v with ForceDimmer | Dimmer => true | _ => false end.

Inductive Color := Default | Named (c : NamedColor) (v : NamedColorVariation) | Rgb (n : Z) | Grayscale (n : Z).

#[export] Instance Color_eq_dec : EqDecision Color.
Proof. unfold EqDecision, Decision. repeat decide equality. Defined.

Definition from_256 (n : Z) : option Color :=
  match n with
  | 0 => Some (Named Black Dimmer)
  | 1 => Some (Named Red Dimmer)
  | 2 => Some (Named Green Dimmer)
  | 3 => Some (Named Yellow Dimmer)
  | 4 => Some (Named Blue Dimmer)
  | 5 => Some (Named Magenta Dimmer)
  | 6 => Some (Named Cyan Dimmer)
  | 7 => Some (Named White Dimmer)
  | 8 => Some (Named Black ForceBrighter)
  | 9 => Some (Named Red ForceBrighter)
  | 10 => Some (Named Green ForceBrighter)
  | 11 => Some (Named Yellow ForceBrighter)
  | 12 => Some (Named Blue ForceBrighter)
  | 13 => Some (Named Magenta ForceBrighter)
  | 14 => Some (Named Cyan ForceBrighter)
  | 15 => Some (Named White ForceBrighter)
  | _ => if (16 <=? n) && (n <=? 231) then Some (Rgb (wrap 8 (n - 16)))
         else if (232 <=? n) && (n <=? 255) then Some (Grayscale (wrap 8 (n - 232)))
         else None
  end.

Definition brighter (c : Color) : Color := match c with Named c Dimmer => Named c Brighter | _ => c end.
Definition dimmer (c : Color) : Color := match c with Named c Brighter => Named c Dimmer | _ => c end.

(** ** Select Graphic Rendition *)

Inductive Sgr :=
| Reset | Bold | Faint | ResetBoldFaint
| Italic (b : bool) | Underline (b : bool) | Blinking (b : bool) | Inverse (b : bool) | Hidden (b : bool) | Strikethrough (b : bool)
| Fg (c : Color) | Bg (c : Color).

Definition from_param (n : Z) : option Sgr :=
  match n with
  | 0 => Some Reset
  | 1 => Some Bold
  | 2 => Some Faint
  | 3 => Some (Italic true)
  | 4 => Some (Underline true)
  | 5 => Some (Blinking true)
  | 7 => Some (Inverse true)
  | 8 => Some (Hidden true)
  | 9 => Some (Strikethrough true)
  | 22 => Some ResetBoldFaint
  | 23 => Some (Italic false)
  | 24 => Some (Underline false)
  | 25 => Some (Blinking false)
  | 27 => Some (Inverse false)
  | 28 => Some (Hidden false)
  | 29 => Some (Strikethrough false)
  | 30 => Some (Fg (Named Black Dimmer))
  | 31 => Some (Fg (Named Red Dimmer))
  | 32 => Some (Fg (Named Green Dimmer))
  | 33 => Some (Fg (Named Yellow Dimmer))
  | 34 => Some (Fg (Named Blue Dimmer))
  | 35 => Some (Fg (Named Magenta Dimmer))
  | 36 => Some (Fg (Named Cyan Dimmer))
  | 37 => Some (Fg (Named White Dimmer))
  | 39 => Some (Fg Default)
  | 40 => Some (Bg (Named Black ForceDimmer))
  | 41 => Some (Bg (Named Red ForceDimmer))
  | 42 => Some (Bg (Named Green ForceDimmer))
  | 43 => Some (Bg (Named Yellow ForceDimmer))
  | 44 => Some (Bg (Named Blue ForceDimmer))
  | 45 => Some (Bg (Named Magenta ForceDimmer))
  | 46 => Some (Bg (Named Cyan ForceDimmer))
  | 47 => Some (Bg (Named White ForceDimmer))
  | 49 => Some (Bg Default)
  | 90 => Some (Fg (Named Black ForceBrighter))
  | 91 => Some (Fg (Named Red ForceBrighter))
  | 92 => Some (Fg (Named Green ForceBrighter))
  | 93 => Some (Fg (Named Yellow ForceBrighter))
  | 94 => Some (Fg (Named Blue ForceBrighter))
  | 95 => Some (Fg (Named Magenta ForceBrighter))
  | 96 => Some (Fg (Named Cyan ForceBrighter))
  | 97 => Some (Fg (Named White ForceBrighter))
  | 100 => Some (Bg (Named Black ForceBrighter))
  | 101 => Some (Bg (Named Red ForceBrighter))
  | 102 => Some (Bg (Named Green ForceBrighter))
  | 103 => Some (Bg (Named Yellow ForceBrighter))
  | 104 => Some (Bg (Named Blue ForceBrighter))
  | 105 => Some (Bg (Named Magenta ForceBrighter))
  | 106 => Some (Bg (Named Cyan ForceBrighter))
  | 107 => Some (Bg (Named White ForceBrighter))
  | _ => None
  end.

(** ** Escape sequences *)

Inductive EscapeSequence :=
| CursorUp (n : Z) | CursorDown (n : Z) | CursorForward (n : Z) | CursorBack (n : Z)
| CursorNextLine (n : Z) | CursorPreviousLine (n : Z) | CursorHorizontalAbsolute (n : Z) | CursorPosition (n m : Z)
| EraseInDisplay (n : Z) | EraseInLine (n : Z) | HorizontalVerticalPosition (n m : Z)
| Sgr1 (a : Sgr) | Sgr2 (a b : Sgr) | Sgr3 (a b c : Sgr)
| Home | Insert | Delete | End_ | PgUp | PgDn.

Definition from_sgr_params (n : Z) (m l : option Z) : option EscapeSequence :=
  match n, m, l with
  | 38, Some 5, Some n => c ← from_256 n; Some (Sgr1 (Fg c))
  | 48, Some 5, Some n => c ← from_256 n; Some (Sgr1 (Bg c))
  | n, None, None => a ← from_param n; Some (Sgr1 a)
  | n, Some m, None => a ← from_param n; b ← from_param m; Some (Sgr2 a b)
  | n, Some m, Some l => a ← from_param n; b ← from_param m; c ← from_param l; Some (Sgr3 a b c)
  | _, _, _ => None
  end.

(** [None] is the error. *)
Definition from_csi (n m l : option Z) (ch : Z) : option EscapeSequence :=
  match ch with
  | 65 (* A *) => Some (CursorUp (default 1 n))
  | 66 (* B *) => Some (CursorDown (default 1 n))
  | 67 (* C *) => Some (CursorForward (default 1 n))
  | 68 (* D *) => Some (CursorBack (default 1 n))
  | 69 (* E *) => Some (CursorNextLine (default 1 n))
  | 70 (* F *) => Some (CursorPreviousLine (default 1 n))
  | 71 (* G *) => Some (CursorHorizontalAbsolute (default 1 n))
  | 72 (* H *) => Some (CursorPosition (default 1 n) (default 1 m))
  | 74 (* J *) => Some (EraseInDisplay (default 0 n))
  | 75 (* K *) => Some (EraseInLine (default 0 n))
  | 102 (* f *) => Some (HorizontalVerticalPosition (default 1 n) (default 1 m))
  | 109 (* m *) => from_sgr_params (default 0 n) m l
  | 126 (* ~ *) =>
      n ← n;
      match n with
      | 1 => Some Home
      | 2 => Some Insert
      | 3 => Some Delete
      | 4 => Some End_
      | 5 => Some PgUp
      | 6 => Some PgDn
      | 7 => Some Home
      | 8 => Some End_
      | _ => None
      end
  | _ => None
  end.

(** ** The decoder *)

Inductive State :=
| Init
| Esc
| Csi (n : option Z)
| Csi2 (n m : option Z)
| Csi3 (n m l : option Z).

Inductive DecodeResult := Just (ch : Z) | Sequence (es : EscapeSequence).

Definition is_digit (ch : Z) : bool := (48 <=? ch) && (ch <=? 57).

(** [param]: [n * 10 + digit] in 32 bits. *)
Definition param (n : option Z) (ch : Z) : option (option Z) :=
  match n with
  | Some n => n ← mul_checked 32 n 10; n ← add_checked 32 n (ch - 48); Some (Some n)
  | None => Some (Some (ch - 48))
  end.

(** The characters that stand for themselves. *)
Definition is_plain (ch : Z) : bool :=
  (ch =? 0x08) || (ch =? 0x09) || (ch =? 0x0a) || (ch =? 0x7f) || ((32 <=? ch) && (ch <=? 126)).

Definition continue_state (st : State) : outcome unit (option DecodeResult * State) := Ok (None, st).
Definition complete_state (r : DecodeResult) : outcome unit (option DecodeResult * State) := Ok (Some r, Init).

(** [Panic] is the overflow of a parameter. *)
Definition continue_param (f : option Z -> State) (n : option Z) (ch : Z) : outcome unit (option DecodeResult * State) :=
  match param n ch with Some n => continue_state (f n) | None => Panic end.

(** [add_char]; a character that a sequence cannot go on with starts anew. *)
Fixpoint add_char_fuel (fuel : nat) (st : State) (ch : Z) : outcome unit (option DecodeResult * State) :=
  let incomplete_state :=
    match st with
    | Init => Ok (None, Init)
    | _ => match fuel with O => Diverge | S fuel => add_char_fuel fuel Init ch end
    end in
  let complete es := match es with Some es => complete_state (Sequence es) | None => incomplete_state end in
  match st with
  | Init =>
      if ch =? 0x1b then continue_state Esc
      else if is_plain ch then complete_state (Just ch)
      else incomplete_state
  | Esc => if ch =? 91 (* [ *) then continue_state (Csi None) else incomplete_state
  | Csi n =>
      if is_digit ch then continue_param Csi n ch
      else if ch =? 59 (* ; *) then continue_state (Csi2 n None)
      else complete (from_csi n None None ch)
  | Csi2 n m =>
      if is_digit ch then continue_param (Csi2 n) m ch
      else if ch =? 59 then continue_state (Csi3 n m None)
      else complete (from_csi n m None ch)
  | Csi3 n m l =>
      if is_digit ch then continue_param (Csi3 n m) l ch
      else if ch =? 59 then continue_state (Csi3 n m None)
      else complete (from_csi n m l ch)
  end.

Definition add_char : State -> Z -> outcome unit (option DecodeResult * State) := add_char_fuel 1.

(** The results for a string of characters. *)
Fixpoint decode (st : State) (chs : list Z) : outcome unit (list DecodeResult * State) :=
  match chs with
  | [] => Ok ([], st)
  | ch :: chs =>
      match add_char st ch with
      | Ok (r, st) =>
          match decode st chs with
          | Ok (rs, st) => Ok (match r with Some r => r :: rs | None => rs end, st)
          | o => o
          end
      | Err e => Err e
      | Panic => Panic
      | Diverge => Diverge
      end
  end.

(** ** Inputs *)

Inductive Input :=
| Char (ch : Z) | Ctrl (ch : Z)
| IInsert | IHome | IEnd | PageUp | PageDown | ArrowUp | ArrowDown | ArrowLeft | ArrowRight.

(** [TryFrom<EscapeSequence> for Input] *)
Definition input_of_sequence (es : EscapeSequence) : option Input :=
  match es with
  | CursorUp 1 => Some ArrowUp
  | CursorDown 1 => Some ArrowDown
  | CursorForward 1 => Some ArrowRight
  | CursorBack 1 => Some ArrowLeft
  | CursorPreviousLine 1 => Some IEnd
  | CursorPosition 1 1 => Some IHome
  | Home => Some IHome
  | Insert => Some IInsert
  | Delete => Some (Char 0x7f)
  | End_ => Some IEnd
  | PgUp => Some PageUp
  | PgDn => Some PageDown
  | _ => None
  end.

(** [TryFrom<DecodeResult> for Input] *)
Definition input_of_result (r : DecodeResult) : option Input :=
  match r with Just a => Some (Char a) | Sequence s => input_of_sequence s end.

(** ** Color schemes *)

Definition rgb : Type := Z * Z * Z.

Record ColorScheme := {
  foreground : rgb; background : rgb;
  black : rgb; red : rgb; green : rgb; yellow : rgb; blue : rgb; magenta : rgb; cyan : rgb; white : rgb;
  bright_black : rgb; bright_red : rgb; bright_green : rgb; bright_yellow : rgb;
  bright_blue : rgb; bright_magenta : rgb; bright_cyan : rgb; bright_white : rgb
}.

(** [ColorScheme::get]: the outer [None] is an overflow, the inner one the default
    color. *)
Definition get (s : ColorScheme) (c : Color) : option (option rgb) :=
  match c with
  | Default => Some None
  | Named c v =>
      Some (Some (match c, is_dimmer v with
      | Black, true => black s
      | Black, false => bright_black s
      | Red, true => red s
      | Red, false => bright_red s
      | Green, true => green s
      | Green, false => bright_green s
      | Yellow, true => yellow s
      | Yellow, false => bright_yellow s
      | Blue, true => blue s
      | Blue, false => bright_blue s
      | Magenta, true => magenta s
      | Magenta, false => bright_magenta s
      | Cyan, true => cyan s
      | Cyan, false => bright_cyan s
      | White, true => white s
      | White, false => bright_white s
      end))
  | Rgb n =>
      let b := n mod 6 in
      d ← sub_checked 8 n b;
      let g := (d / 6) mod 6 in
      e ← sub_checked 8 (d / 6) g;
      let r := e / 6 in
      r ← mul_checked 8 51 r; g ← mul_checked 8 51 g; b ← mul_checked 8 51 b;
      Some (Some (r, g, b))
  | Grayscale 23 => Some (Some (255, 255, 255))
  | Grayscale n => x ← mul_checked 8 n 11; Some (Some (x, x, x))
  end.

Definition get_fg (s : ColorScheme) (c : Color) : option rgb := default (foreground s) <$> get s c.
Definition get_bg (s : ColorScheme) (c : Color) : option rgb := default (background s) <$> get s c.
(** [OneMonokai] of console/theme.rs. *)
Definition OneMonokai : ColorScheme := {|
  foreground := (0xab, 0xb2, 0xbf); background := (0x28, 0x2c, 0x34);
  black := (0x2d, 0x31, 0x39); red := (0xe0, 0x6c, 0x75); green := (0x98, 0xc3, 0x79); yellow := (0xe5, 0xc0, 0x7b);
  blue := (0x52, 0x8b, 0xff); magenta := (0xc6, 0x78, 0xdd); cyan := (0x56, 0xb2, 0xc2); white := (0xd7, 0xda, 0xe0);
  bright_black := (0x7f, 0x84, 0x8e); bright_red := (0xf4, 0x47, 0x47); bright_green := (0x98, 0xc3, 0x79); bright_yellow := (0xe5, 0xc0, 0x7b);
  bright_blue := (0x52, 0x8b, 0xff); bright_magenta := (0x7e, 0x00, 0x97); bright_cyan := (0x56, 0xb6, 0xc2); bright_white := (0xd7, 0xda, 0xe0)
|}.

(** ** Printing

    The sequences that the decoder understands, written out. *)

Fixpoint digits (fuel : nat) (n : Z) : list Z :=
  match fuel with
  | O => []
  | S fuel => if n <? 10 then [48 + n] else digits fuel (n / 10) ++ [48 + n mod 10]
  end.

(** A number of 32 bits has at most 10 digits. *)
Definition number (n : Z) : list Z := digits 10 n.

Definition csi (n ch : Z) : option (list Z) :=
  if unsignedb 32 n then Some ([0x1b; 91] ++ number n ++ [ch]) else None.
Definition csi2 (n m ch : Z) : option (list Z) :=
  if unsignedb 32 n && unsignedb 32 m then Some ([0x1b; 91] ++ number n ++ [59] ++ number m ++ [ch]) else None.
Definition csi3 (n m l ch : Z) : option (list Z) :=
  if unsignedb 32 n && unsignedb 32 m && unsignedb 32 l
  then Some ([0x1b; 91] ++ number n ++ [59] ++ number m ++ [59] ++ number l ++ [ch]) else None.

Definition color_index (c : NamedColor) : Z :=
  match c with Black => 0 | Red => 1 | Green => 2 | Yellow => 3 | Blue => 4 | Magenta => 5 | Cyan => 6 | White => 7 end.

Definition sgr_code (a : Sgr) : option Z :=
  match a with
  | Reset => Some 0 | Bold => Some 1 | Faint => Some 2 | ResetBoldFaint => Some 22
  | Italic b => Some (if b then 3 else 23)
  | Underline b => Some (if b then 4 else 24)
  | Blinking b => Some (if b then 5 else 25)
  | Inverse b => Some (if b then 7 else 27)
  | Hidden b => Some (if b then 8 else 28)
  | Strikethrough b => Some (if b then 9 else 29)
  | Fg (Named c Dimmer) => Some (30 + color_index c)
  | Fg (Named c ForceBrighter) => Some (90 + color_index c)
  | Fg Default => Some 39
  | Bg (Named c ForceDimmer) => Some (40 + color_index c)
  | Bg (Named c ForceBrighter) => Some (100 + color_index c)
  | Bg Default => Some 49
  | _ => None
  end.

(** The index of a color among 256. *)
Definition color_code (c : Color) : option Z :=
  match c with
  | Named c Dimmer => Some (color_index c)
  | Named c ForceBrighter => Some (8 + color_index c)
  | Rgb n => if (0 <=? n) && (n <=? 215) then Some (16 + n) else None
  | Grayscale n => if (0 <=? n) && (n <=? 23) then Some (232 + n) else None
  | _ => None
  end.

Definition print_sgr (a : Sgr) : option (list Z) :=
  match sgr_code a with
  | Some n => csi n 109
  | None =>
      match a with
      | Fg c => n ← color_code c; csi3 38 5 n 109
      | Bg c => n ← color_code c; csi3 48 5 n 109
      | _ => None
      end
  end.

Definition print_sequence (es : EscapeSequence) : option (list Z) :=
  match es with
  | CursorUp n => csi n 65
  | CursorDown n => csi n 66
  | CursorForward n => csi n 67
  | CursorBack n => csi n 68
  | CursorNextLine n => csi n 69
  | CursorPreviousLine n => csi n 70
  | CursorHorizontalAbsolute n => csi n 71
  | CursorPosition n m => csi2 n m 72
  | EraseInDisplay n => csi n 74
  | EraseInLine n => csi n 75
  | HorizontalVerticalPosition n m => csi2 n m 102
  | Sgr1 a => print_sgr a
  | Sgr2 a b => n ← sgr_code a; m ← sgr_code b; csi2 n m 109
  | Sgr3 a b c => n ← sgr_code a; m ← sgr_code b; l ← sgr_code c; csi3 n m l 109
  | Home => csi 1 126
  | Insert => csi 2 126
  | Delete => csi 3 126
  | End_ => csi 4 126
  | PgUp => csi 5 126
  | PgDn => csi 6 126
  end.

Definition print (r : DecodeResult) : option (list Z) :=
  match r with
  | Just ch => if is_plain ch then Some [ch] else None
  | Sequence es => print_sequence es
  end.

(** ** Lemmas: decoding what was printed *)

(** What decoding [chs] adds in front of the results for the rest. *)
Definition decodes (st : State) (chs : list Z) (rs : list DecodeResult) (st' : State) : Prop :=
  forall rest, decode st (chs ++ rest) =
    match decode st' rest with Ok (rs', st'') => Ok (rs ++ rs', st'') | o => o end.

Lemma decodes_nil st : decodes st [] [] st.
Proof. intros rest. simpl. by destruct (decode st rest) as [[]| | |]. Qed.

Lemma decodes_app st1 st2 st3 c1 c2 r1 r2 : decodes st1 c1 r1 st2 -> decodes st2 c2 r2 st3 -> decodes st1 (c1 ++ c2) (r1 ++ r2) st3.
Proof.
  intros H1 H2 rest. rewrite <- app_assoc, H1, H2. destruct (decode st3 rest) as [[]| | |]; [|done..]. by rewrite app_assoc.
Qed.

Lemma decodes_char st ch r st' : add_char st ch = Ok (r, st') -> decodes st [ch] (option_list r) st'.
Proof. intros Ha rest. cbn [app decode]. rewrite Ha. destruct (decode st' rest) as [[]| | |]; [|done..]. by destruct r. Qed.

(** The states that take a parameter. *)
Definition takes_param (f : option Z -> State) : Prop :=
  forall n ch, is_digit ch = true -> add_char (f n) ch = continue_param f n ch.

Lemma takes_csi : takes_param Csi.
Proof. intros n ch Hd. unfold add_char. cbn [add_char_fuel]. by rewrite Hd. Qed.
Lemma takes_csi2 n : takes_param (Csi2 n).
Proof. intros m ch Hd. unfold add_char. cbn [add_char_fuel]. by rewrite Hd. Qed.
Lemma takes_csi3 n m : takes_param (Csi3 n m).
Proof. intros l ch Hd. unfold add_char. cbn [add_char_fuel]. by rewrite Hd. Qed.

Lemma digit_ok d : 0 <= d < 10 -> is_digit (48 + d) = true.
Proof. intros Hd. unfold is_digit. by rewrite (proj2 (Z.leb_le _ _)), (proj2 (Z.leb_le _ _)) by lia. Qed.

Lemma checked_ok w z : unsigned w z -> checked w z = Some z.
Proof. intros Hz. unfold checked, unsignedb, unsigned in *. by rewrite (proj2 (Z.leb_le _ _)), (proj2 (Z.ltb_lt _ _)) by lia. Qed.

Lemma digits_decode f fuel : takes_param f -> forall n, 0 <= n < 10 ^ Z.of_nat fuel -> n < 2 ^ 32 -> (0 < fuel)%nat ->
  decodes (f None) (digits fuel n) [] (f (Some n)).
Proof.
  intros Hf. induction fuel as [|fuel IH]; intros n Hn Hn32 Hpos; [lia|]. cbn [digits]. destruct (Z.ltb_spec n 10) as [Hlt|Hge].
  - apply (decodes_char _ _ None). rewrite Hf by (apply digit_ok; lia). unfold continue_param, param. by replace (48 + n - 48) with n by lia.
  - rewrite Nat2Z.inj_succ, Z.pow_succ_r in Hn by lia. assert (Hdiv : 0 <= n / 10 < 10 ^ Z.of_nat fuel) by (split; [apply Z.div_pos; lia|apply Z.div_lt_upper_bound; lia]).
    assert (Hfp : (0 < fuel)%nat) by (destruct fuel; [simpl in Hn; lia|lia]).
    assert (Hle : n / 10 <= n) by (apply Z.div_le_upper_bound; lia).
    apply (decodes_app _ (f (Some (n / 10))) _ _ _ [] []); [apply IH; lia|]. apply (decodes_char _ _ None).
    pose proof (Z.mod_pos_bound n 10 ltac:(lia)) as Hm. rewrite Hf by by apply digit_ok.
    assert (H10 : n = 10 * (n / 10) + n mod 10) by (apply Z.div_mod; lia).
    unfold continue_param, param, mul_checked, add_checked. rewrite (checked_ok 32 (n / 10 * 10)) by (unfold unsigned; lia). cbn [mbind option_bind].
    replace (n / 10 * 10 + (48 + n mod 10 - 48)) with n by lia.
    by rewrite checked_ok by (unfold unsigned; lia).
Qed.

Lemma number_decode f n : takes_param f -> u32 n -> decodes (f None) (number n) [] (f (Some n)).
Proof. intros Hf Hn. unfold unsigned in Hn. apply digits_decode; [done|lia|lia|lia]. Qed.

Lemma introducer : decodes Init [0x1b; 91] [] (Csi None).
Proof. apply (decodes_app _ Esc _ [0x1b] [91] [] []); by apply (decodes_char _ _ None). Qed.

(** A final character: neither a digit nor a semicolon. *)
Definition is_final (ch : Z) : Prop := is_digit ch = false /\ ch <> 59.

Lemma final_csi n ch es : is_final ch -> from_csi n None None ch = Some es -> decodes (Csi n) [ch] [Sequence es] Init.
Proof.
  intros [Hd Hs] He. apply (decodes_char _ _ (Some _)). unfold add_char. cbn [add_char_fuel].
  by rewrite Hd, (proj2 (Z.eqb_neq ch 59) Hs), He.
Qed.

Lemma final_csi2 n m ch es : is_final ch -> from_csi n m None ch = Some es -> decodes (Csi2 n m) [ch] [Sequence es] Init.
Proof.
  intros [Hd Hs] He. apply (decodes_char _ _ (Some _)). unfold add_char. cbn [add_char_fuel].
  by rewrite Hd, (proj2 (Z.eqb_neq ch 59) Hs), He.
Qed.

Lemma final_csi3 n m l ch es : is_final ch -> from_csi n m l ch = Some es -> decodes (Csi3 n m l) [ch] [Sequence es] Init.
Proof.
  intros [Hd Hs] He. apply (decodes_char _ _ (Some _)). unfold add_char. cbn [add_char_fuel].
  by rewrite Hd, (proj2 (Z.eqb_neq ch 59) Hs), He.
Qed.

Lemma unsignedb_true w z : unsignedb w z = true <-> unsigned w z.
Proof. unfold unsignedb, unsigned. rewrite andb_true_iff, Z.leb_le, Z.ltb_lt. done. Qed.

Lemma csi_decode n ch es chs : csi n ch = Some chs -> is_final ch -> from_csi (Some n) None None ch = Some es ->
  decodes Init chs [Sequence es] Init.
Proof.
  unfold csi. destruct (unsignedb 32 n) eqn:Hn; [|done]. apply unsignedb_true in Hn. intros [= <-] Hf He.
  apply (decodes_app _ _ _ _ _ [] _ introducer). apply (decodes_app _ _ _ _ _ [] _ (number_decode _ _ takes_csi Hn)). by apply final_csi.
Qed.

Lemma csi2_decode n m ch es chs : csi2 n m ch = Some chs -> is_final ch -> from_csi (Some n) (Some m) None ch = Some es ->
  decodes Init chs [Sequence es] Init.
Proof.
  unfold csi2. destruct (_ && _) eqn:Hb; [|done]. apply andb_true_iff in Hb as [Hn%unsignedb_true Hm%unsignedb_true]. intros [= <-] Hf He.
  apply (decodes_app _ _ _ _ _ [] _ introducer). apply (decodes_app _ _ _ _ _ [] _ (number_decode _ _ takes_csi Hn)).
  apply (decodes_app _ (Csi2 (Some n) None) _ [59] _ [] _); [by apply (decodes_char _ _ None)|].
  apply (decodes_app _ _ _ _ _ [] _ (number_decode _ _ (takes_csi2 _) Hm)). by apply final_csi2.
Qed.

Lemma csi3_decode n m l ch es chs : csi3 n m l ch = Some chs -> is_final ch -> from_csi (Some n) (Some m) (Some l) ch = Some es ->
  decodes Init chs [Sequence es] Init.
Proof.
  unfold csi3. destruct (_ && _) eqn:Hb; [|done]. apply andb_true_iff in Hb as [Hb Hl%unsignedb_true].
  apply andb_true_iff in Hb as [Hn%unsignedb_true Hm%unsignedb_true]. intros [= <-] Hf He.
  apply (decodes_app _ _ _ _ _ [] _ introducer). apply (decodes_app _ _ _ _ _ [] _ (number_decode _ _ takes_csi Hn)).
  apply (decodes_app _ (Csi2 (Some n) None) _ [59] _ [] _); [by apply (decodes_char _ _ None)|].
  apply (decodes_app _ _ _ _ _ [] _ (number_decode _ _ (takes_csi2 _) Hm)).
  apply (decodes_app _ (Csi3 (Some n) (Some m) None) _ [59] _ [] _); [by apply (decodes_char _ _ None)|].
  apply (decodes_app _ _ _ _ _ [] _ (number_decode _ _ (takes_csi3 _ _) Hl)). by apply final_csi3.
Qed.

Lemma sgr_code_from_param a n : sgr_code a = Some n -> from_param n = Some a /\ n <> 38 /\ n <> 48.
Proof.
  intros Hc. destruct a as [| | | |[]|[]|[]|[]|[]|[]|[|[] []| |]|[|[] []| |]]; cbn in Hc; simplify_eq; done.
Qed.

(** A table checked entry by entry. *)
Lemma table_forall (P : Z -> bool) a n : forallb P (seqZ a n) = true -> forall i, a <= i < a + n -> P i = true.
Proof. intros Hf i Hi. rewrite forallb_forall in Hf. apply Hf, list_elem_of_In, elem_of_seqZ. lia. Qed.

Lemma from_256_rgb n : 16 <= n < 232 -> from_256 n = Some (Rgb (n - 16)).
Proof.
  intros Hn. apply (proj1 (bool_decide_eq_true _)). revert n Hn.
  apply (table_forall (fun n => bool_decide (from_256 n = Some (Rgb (n - 16)))) 16 216). vm_compute. reflexivity.
Qed.

Lemma from_256_gray n : 232 <= n < 256 -> from_256 n = Some (Grayscale (n - 232)).
Proof.
  intros Hn. apply (proj1 (bool_decide_eq_true _)). revert n Hn.
  apply (table_forall (fun n => bool_decide (from_256 n = Some (Grayscale (n - 232)))) 232 24). vm_compute. reflexivity.
Qed.

Lemma from_256_range n c : from_256 n = Some c -> 0 <= n < 256.
Proof.
  unfold from_256. repeat case_match; intros; simplify_eq; try lia;
    match goal with H : _ && _ = true |- _ => apply andb_true_iff in H as [?%Z.leb_le ?%Z.leb_le] end; lia.
Qed.

Lemma color_code_from_256 c n : color_code c = Some n -> from_256 n = Some c /\ 0 <= n < 256.
Proof.
  destruct c as [|c v|k|k]; [done|..]; cbn [color_code].
  - intros Hc. destruct c, v; cbn in Hc; simplify_eq; done.
  - destruct (Z.leb_spec 0 k), (Z.leb_spec k 215); try done. intros [= <-]. rewrite from_256_rgb by lia. split; [|lia]. do 2 f_equal. lia.
  - destruct (Z.leb_spec 0 k), (Z.leb_spec k 23); try done. intros [= <-]. rewrite from_256_gray by lia. split; [|lia]. do 2 f_equal. lia.
Qed.

Lemma from_256_color_code n c : from_256 n = Some c -> color_code c = Some n.
Proof.
  intros Hc. pose proof (from_256_range n c Hc) as Hn. destruct (decide (n < 16)) as [H16|H16].
  - assert (Ht : forall n, 0 <= n < 16 -> bool_decide ((from_256 n ≫= color_code) = Some n) = true).
    { apply (table_forall (fun n => bool_decide ((from_256 n ≫= color_code) = Some n)) 0 16). vm_compute. reflexivity. }
    specialize (Ht n ltac:(lia)). apply bool_decide_eq_true in Ht. by rewrite Hc in Ht.
  - destruct (decide (n < 232)).
    + rewrite from_256_rgb in Hc by lia. simplify_eq. cbn [color_code]. rewrite (proj2 (Z.leb_le _ _)), (proj2 (Z.leb_le _ _)) by lia. cbn [andb]. f_equal. lia.
    + rewrite from_256_gray in Hc by lia. simplify_eq. cbn [color_code]. rewrite (proj2 (Z.leb_le _ _)), (proj2 (Z.leb_le _ _)) by lia. cbn [andb]. f_equal. lia.
Qed.

Lemma from_param_sgr_code n a : from_param n = Some a -> sgr_code a = Some n.
Proof. unfold from_param. repeat case_match; intros; simplify_eq; done. Qed.

Lemma from_sgr_one n : from_sgr_params n None None = a ← from_param n; Some (Sgr1 a).
Proof. unfold from_sgr_params. repeat case_match; reflexivity. Qed.

Lemma from_sgr_two n m : from_sgr_params n (Some m) None = a ← from_param n; b ← from_param m; Some (Sgr2 a b).
Proof. unfold from_sgr_params. repeat (case_match; try reflexivity). Qed.

Lemma from_sgr_three n m l : (n <> 38 /\ n <> 48) \/ m <> 5 ->
  from_sgr_params n (Some m) (Some l) = a ← from_param n; b ← from_param m; c ← from_param l; Some (Sgr3 a b c).
Proof. intros Hn. unfold from_sgr_params. repeat (case_match; try reflexivity; try (exfalso; lia)). Qed.

Lemma plain_decode ch : is_plain ch = true -> decodes Init [ch] [Just ch] Init.
Proof.
  intros Hp. apply (decodes_char _ _ (Some _)). unfold add_char. cbn [add_char_fuel].
  destruct (Z.eqb_spec ch 0x1b) as [->|]; [done|]. by rewrite Hp.
Qed.

Lemma print_sgr_decode a chs : print_sgr a = Some chs -> decodes Init chs [Sequence (Sgr1 a)] Init.
Proof.
  unfold print_sgr. destruct (sgr_code a) as [n|] eqn:Hc.
  - intros Hp. apply sgr_code_from_param in Hc as (Hn & _). eapply csi_decode; [exact Hp|done|]. cbn [from_csi from_option id]. by rewrite from_sgr_one, Hn.
  - destruct a; try done; cbn [mbind option_bind]; (destruct (color_code c) as [n|] eqn:Hcc; [|done]); cbn [mbind option_bind]; intros Hp;
      apply color_code_from_256 in Hcc as [Hn _]; (eapply csi3_decode; [exact Hp|done|]); cbn [from_csi from_option id from_sgr_params]; by rewrite Hn.
Qed.

Lemma print_decode r chs : print r = Some chs -> decodes Init chs [r] Init.
Proof.
  destruct r as [ch|es]; cbn [print].
  - destruct (is_plain ch) eqn:Hp; [|done]. intros [= <-]. by apply plain_decode.
  - destruct es; cbn [print_sequence]; try (intros Hp; first [by (eapply csi_decode; [exact Hp|done|reflexivity])|by (eapply csi2_decode; [exact Hp|done|reflexivity])]).
    + apply print_sgr_decode.
    + destruct (sgr_code a) as [n|] eqn:Ha; [|done]. destruct (sgr_code b) as [m|] eqn:Hb; [|done]. cbn [mbind option_bind]. intros Hp.
      apply sgr_code_from_param in Ha as (Ha & _). apply sgr_code_from_param in Hb as (Hb & _).
      eapply csi2_decode; [exact Hp|done|]. cbn [from_csi from_option id]. by rewrite from_sgr_two, Ha, Hb.
    + destruct (sgr_code a) as [n|] eqn:Ha; [|done]. destruct (sgr_code b) as [m|] eqn:Hb; [|done]. destruct (sgr_code c) as [l|] eqn:Hc; [|done].
      cbn [mbind option_bind]. intros Hp. apply sgr_code_from_param in Ha as (Ha & Ha2). apply sgr_code_from_param in Hb as (Hb & _).
      apply sgr_code_from_param in Hc as (Hc & _). eapply csi3_decode; [exact Hp|done|]. cbn [from_csi from_option id].
      by rewrite from_sgr_three, Ha, Hb, Hc by by left.
Qed.

Lemma print_all_decode rs css : Forall2 (fun r cs => print r = Some cs) rs css -> decodes Init (mjoin css) rs Init.
Proof.
  induction 1 as [|r cs rs css Hp _ IH]; [apply decodes_nil|]. exact (decodes_app _ _ _ _ _ [r] rs (print_decode _ _ Hp) IH).
Qed.

(** ** Lemmas: what the decoder returns *)

Definition param_ok (n : option Z) : Prop := match n with Some n => u32 n | None => True end.

Definition state_ok (st : State) : Prop :=
  match st with
  | Init | Esc => True
  | Csi n => param_ok n
  | Csi2 n m => param_ok n /\ param_ok m
  | Csi3 n m l => param_ok n /\ param_ok m /\ param_ok l
  end.

Lemma default_u32 n k : param_ok n -> 0 <= k < 2 ^ 32 -> u32 (default k n).
Proof. destruct n; simpl; unfold unsigned; [done|lia]. Qed.

Lemma csi_some n ch : u32 n -> is_Some (csi n ch).
Proof. intros Hn. unfold csi. rewrite (proj2 (unsignedb_true 32 n) Hn). done. Qed.
Lemma csi2_some n m ch : u32 n -> u32 m -> is_Some (csi2 n m ch).
Proof. intros Hn Hm. unfold csi2. rewrite (proj2 (unsignedb_true 32 n) Hn), (proj2 (unsignedb_true 32 m) Hm). done. Qed.
Lemma csi3_some n m l ch : u32 n -> u32 m -> u32 l -> is_Some (csi3 n m l ch).
Proof.
  intros Hn Hm Hl. unfold csi3. rewrite (proj2 (unsignedb_true 32 n) Hn), (proj2 (unsignedb_true 32 m) Hm), (proj2 (unsignedb_true 32 l) Hl). done.
Qed.

Lemma sgr_code_u32 a n : sgr_code a = Some n -> u32 n.
Proof. intros Hc. destruct a as [| | | |[]|[]|[]|[]|[]|[]|[|[] []| |]|[|[] []| |]]; cbn in Hc; simplify_eq; done. Qed.

Lemma from_param_prints n a : from_param n = Some a -> is_Some (print_sgr a).
Proof.
  intros Ha%from_param_sgr_code. unfold print_sgr. rewrite Ha. apply csi_some. by eapply sgr_code_u32.
Qed.

Lemma color_prints n c : from_256 n = Some c -> is_Some (print_sgr (Fg c)) /\ is_Some (print_sgr (Bg c)).
Proof.
  intros Hc. pose proof (from_256_range _ _ Hc) as Hn. apply from_256_color_code in Hc. unfold print_sgr. rewrite Hc. cbn [mbind option_bind].
  assert (H3 : forall k, u32 k -> is_Some (csi3 k 5 n 109)) by (intros k Hk; apply csi3_some; unfold unsigned in *; lia).
  assert (Hs : forall a k, sgr_code a = Some k -> is_Some (csi k 109)) by (intros a k Hk; by eapply csi_some, sgr_code_u32).
  split; (destruct (sgr_code _) eqn:E; [by eapply Hs|apply H3; by unfold unsigned]).
Qed.

Lemma from_sgr_prints n m l es : from_sgr_params n m l = Some es -> is_Some (print_sequence es).
Proof.
  intros He. destruct m as [m|], l as [l|].
  - destruct (decide ((n = 38 \/ n = 48) /\ m = 5)) as [[[->| ->] ->]|Hn].
    + cbn in He. destruct (from_256 l) as [c|] eqn:Hc; [|done]. cbn in He. simplify_eq. cbn [print_sequence]. by eapply color_prints.
    + cbn in He. destruct (from_256 l) as [c|] eqn:Hc; [|done]. cbn in He. simplify_eq. cbn [print_sequence]. by eapply color_prints.
    + rewrite from_sgr_three in He by lia. destruct (from_param n) as [a|] eqn:Ha; [|done]. destruct (from_param m) as [b|] eqn:Hb; [|done].
      destruct (from_param l) as [c|] eqn:Hc; [|done]. cbn in He. simplify_eq. cbn [print_sequence].
      apply from_param_sgr_code in Ha, Hb, Hc. rewrite Ha, Hb, Hc. cbn [mbind option_bind]. apply csi3_some; by eapply sgr_code_u32.
  - rewrite from_sgr_two in He. destruct (from_param n) as [a|] eqn:Ha; [|done]. destruct (from_param m) as [b|] eqn:Hb; [|done]. cbn in He. simplify_eq.
    cbn [print_sequence]. apply from_param_sgr_code in Ha, Hb. rewrite Ha, Hb. cbn [mbind option_bind]. apply csi2_some; by eapply sgr_code_u32.
  - exfalso. revert He. unfold from_sgr_params. repeat (case_match; try done).
  - rewrite from_sgr_one in He. destruct (from_param n) as [a|] eqn:Ha; [|done]. cbn in He. simplify_eq. by eapply from_param_prints.
Qed.

Lemma from_csi_prints n m l ch es : param_ok n -> param_ok m -> from_csi n m l ch = Some es -> is_Some (print_sequence es).
Proof.
  intros Hn Hm. pose proof (default_u32 n 1 Hn ltac:(lia)). pose proof (default_u32 n 0 Hn ltac:(lia)). pose proof (default_u32 m 1 Hm ltac:(lia)).
  unfold from_csi. repeat (case_match; try done); intros; simplify_eq; cbn [print_sequence];
    try (by apply csi_some); try (by apply csi2_some); [by eapply from_sgr_prints|].
  destruct n as [n|]; [|done]. cbn in *. repeat (case_match; try done); simplify_eq; by apply csi_some.
Qed.

Lemma param_some n ch n' : is_digit ch = true -> param_ok n -> param n ch = Some n' -> param_ok n'.
Proof.
  unfold is_digit. intros [Hlo%Z.leb_le Hhi%Z.leb_le]%andb_true_iff Hn. unfold param. destruct n as [n|].
  - unfold mul_checked, add_checked. destruct (checked 32 (n * 10)) as [x|]; [|done]. cbn [mbind option_bind].
    destruct (checked 32 (x + (ch - 48))) as [y|] eqn:Hy; [|done]. cbn. intros [= <-]. unfold checked in Hy.
    destruct (unsignedb 32 (x + (ch - 48))) eqn:Hu; [|done]. injection Hy as <-. by apply unsignedb_true.
  - intros [= <-]. simpl. unfold unsigned. lia.
Qed.

(** The invariant of the decoder; only the overflow of a parameter panics. *)
Definition result_ok (o : outcome unit (option DecodeResult * State)) : Prop :=
  match o with
  | Ok (r, st) => state_ok st /\ match r with Some r => is_Some (print r) | None => True end
  | Panic => True
  | _ => False
  end.

Lemma continue_param_ok f n ch : is_digit ch = true -> param_ok n -> (forall n, param_ok n -> state_ok (f n)) ->
  result_ok (continue_param f n ch).
Proof.
  intros Hd Hn Hf. unfold continue_param. destruct (param n ch) as [n'|] eqn:Hp; [|done]. split; [|done]. apply Hf. by eapply param_some.
Qed.

Lemma add_init_ok fuel ch : result_ok (add_char_fuel fuel Init ch).
Proof.
  destruct fuel; cbn [add_char_fuel]; (destruct (ch =? 27); [done|]); (destruct (is_plain ch) eqn:Hp; [|done]); split; try done; cbn; by rewrite Hp.
Qed.

Lemma add_char_ok st ch : state_ok st -> result_ok (add_char st ch).
Proof.
  intros Hst. unfold add_char. destruct st as [| |n|n m|n m l]; [apply add_init_ok|..]; cbn [add_char_fuel].
  - destruct (ch =? 91); [done|exact (add_init_ok 0 ch)].
  - destruct (is_digit ch) eqn:Hd; [by apply continue_param_ok|]. destruct (ch =? 59); [done|].
    destruct (from_csi n None None ch) eqn:He; [|exact (add_init_ok 0 ch)]. split; [done|]. by eapply (from_csi_prints n None).
  - destruct Hst as [Hn Hm]. destruct (is_digit ch) eqn:Hd; [by apply continue_param_ok|]. destruct (ch =? 59); [done|].
    destruct (from_csi n m None ch) eqn:He; [|exact (add_init_ok 0 ch)]. split; [done|]. by eapply (from_csi_prints n m).
  - destruct Hst as (Hn & Hm & Hl). destruct (is_digit ch) eqn:Hd; [by apply continue_param_ok|]. destruct (ch =? 59); [done|].
    destruct (from_csi n m l ch) eqn:He; [|exact (add_init_ok 0 ch)]. split; [done|]. by eapply (from_csi_prints n m).
Qed.

Lemma decode_ok chs : forall st, state_ok st ->
  match decode st chs with Ok (rs, st') => state_ok st' /\ Forall (fun r => is_Some (print r)) rs | Panic => True | _ => False end.
Proof.
  induction chs as [|ch chs IH]; intros st Hst; cbn [decode]; [done|]. pose proof (add_char_ok st ch Hst) as Ha. unfold result_ok in Ha.
  destruct (add_char st ch) as [[r st1]| | |]; [|done..]. destruct Ha as [Hst1 Hr]. specialize (IH st1 Hst1).
  destruct (decode st1 chs) as [[rs st2]| | |]; [|done..]. destruct IH as [H2 H3]. split; [done|]. destruct r; [by constructor|done].
Qed.

(** ** Lemmas: long numbers *)

(** No number in the text has more than [k] digits, where [k0] digits precede it. *)
Fixpoint short_numbers (k k0 : nat) (chs : list Z) : bool :=
  match chs with
  | [] => true
  | ch :: chs => if is_digit ch then (k0 <? k)%nat && short_numbers k (S k0) chs else short_numbers k 0 chs
  end.

(** The parameter that is being read. *)
Definition current (st : State) : option Z := match st with Csi n => n | Csi2 _ m => m | Csi3 _ _ l => l | _ => None end.

Definition below (k : nat) (st : State) : Prop := match current st with Some v => 0 <= v < 10 ^ Z.of_nat k | None => True end.

Lemma param_below n ch k : is_digit ch = true -> (k < 9)%nat -> match n with Some v => 0 <= v < 10 ^ Z.of_nat k | None => True end ->
  exists v, param n ch = Some (Some v) /\ 0 <= v < 10 ^ Z.of_nat (S k).
Proof.
  unfold is_digit. intros [Hlo%Z.leb_le Hhi%Z.leb_le]%andb_true_iff Hk Hn. unfold param.
  assert (Hp : 10 ^ Z.of_nat (S k) <= 10 ^ 9) by (apply Z.pow_le_mono_r; lia).
  assert (Hs : 10 ^ Z.of_nat (S k) = 10 * 10 ^ Z.of_nat k) by (rewrite Nat2Z.inj_succ, Z.pow_succ_r; lia).
  assert (1 <= 10 ^ Z.of_nat k) by (apply (Z.pow_le_mono_r 10 0); lia). destruct n as [n|].
  - unfold mul_checked, add_checked. rewrite checked_ok by (unfold unsigned; lia). cbn [mbind option_bind].
    rewrite checked_ok by (unfold unsigned; lia). cbn [mbind option_bind]. eexists. split; [done|]. lia.
  - eexists. split; [done|]. lia.
Qed.

Lemma add_init_no_panic fuel ch : exists r st, add_char_fuel fuel Init ch = Ok (r, st) /\ current st = None.
Proof. destruct fuel; cbn [add_char_fuel]; (destruct (ch =? 27); [by eexists _, _|]); (destruct (is_plain ch); by eexists _, _). Qed.

Lemma add_char_below st ch k : below k st -> (is_digit ch = true -> (k < 9)%nat) -> exists r st',
  add_char st ch = Ok (r, st') /\ below (if is_digit ch then S k else 0) st'.
Proof.
  intros Hb Hk. assert (Hinit : forall fuel, exists r st', add_char_fuel fuel Init ch = Ok (r, st') /\ below (if is_digit ch then S k else 0) st').
  { intros fuel. destruct (add_init_no_panic fuel ch) as (r & st' & Ha & Hc). exists r, st'. unfold below. by rewrite Hc. }
  unfold add_char. destruct st as [| |n|n m|n m l]; [apply Hinit|..]; cbn [add_char_fuel].
  - destruct (ch =? 91); [by eexists _, _|exact (Hinit 0%nat)].
  - destruct (is_digit ch) eqn:Hd; [destruct (param_below n ch k Hd (Hk eq_refl) Hb) as (v & Hp & Hv); unfold continue_param; rewrite Hp; by eexists _, _|].
    destruct (ch =? 59); [by eexists _, _|]. destruct (from_csi n None None ch); [by eexists _, _|exact (Hinit 0%nat)].
  - destruct (is_digit ch) eqn:Hd; [destruct (param_below m ch k Hd (Hk eq_refl) Hb) as (v & Hp & Hv); unfold continue_param; rewrite Hp; by eexists _, _|].
    destruct (ch =? 59); [by eexists _, _|]. destruct (from_csi n m None ch); [by eexists _, _|exact (Hinit 0%nat)].
  - destruct (is_digit ch) eqn:Hd; [destruct (param_below l ch k Hd (Hk eq_refl) Hb) as (v & Hp & Hv); unfold continue_param; rewrite Hp; by eexists _, _|].
    destruct (ch =? 59); [by eexists _, _|]. destruct (from_csi n m l ch); [by eexists _, _|exact (Hinit 0%nat)].
Qed.

Lemma decode_short chs : forall st k, below k st -> short_numbers 9 k chs = true -> exists rs st', decode st chs = Ok (rs, st').
Proof.
  induction chs as [|ch chs IH]; intros st k Hb Hs; [by eexists _, _|]. cbn [short_numbers decode] in *.
  destruct (add_char_below st ch k Hb) as (r & st1 & Ha & Hb1).
  { intros Hd. rewrite Hd in Hs. apply andb_true_iff in Hs as [Hs _]. by apply Nat.ltb_lt in Hs. }
  rewrite Ha. destruct (IH st1 (if is_digit ch then S k else 0%nat) Hb1) as (rs & st2 & Hr).
  { destruct (is_digit ch); [by apply andb_true_iff in Hs as [_ Hs]|done]. }
  rewrite Hr. by eexists _, _.
Qed.

(** ** Lemmas: colors *)

(** The ranges of the comments in the source. *)
Definition color_wf (c : Color) : Prop :=
  match c with Rgb n => 0 <= n <= 215 | Grayscale n => 0 <= n <= 23 | _ => True end.

Definition sgr_colors (a : Sgr) : list Color := match a with Fg c | Bg c => [c] | _ => [] end.
Definition colors (r : DecodeResult) : list Color :=
  match r with
  | Sequence (Sgr1 a) => sgr_colors a
  | Sequence (Sgr2 a b) => sgr_colors a ++ sgr_colors b
  | Sequence (Sgr3 a b c) => sgr_colors a ++ sgr_colors b ++ sgr_colors c
  | _ => []
  end.

Lemma sgr_code_wf a n : sgr_code a = Some n -> Forall color_wf (sgr_colors a).
Proof.
  intros Ha. destruct a; try (by apply Forall_nil); destruct c; cbn in Ha |- *; try done; by apply Forall_singleton.
Qed.

Lemma color_code_wf c n : color_code c = Some n -> color_wf c.
Proof.
  destruct c as [|c v|k|k]; cbn [color_code color_wf]; [done|done|..].
  - destruct (Z.leb_spec 0 k), (Z.leb_spec k 215); simpl; intros; done || lia.
  - destruct (Z.leb_spec 0 k), (Z.leb_spec k 23); simpl; intros; done || lia.
Qed.

Lemma print_sgr_wf a : is_Some (print_sgr a) -> Forall color_wf (sgr_colors a).
Proof.
  unfold print_sgr. destruct (sgr_code a) as [n|] eqn:Ha; [intros _; by eapply sgr_code_wf|].
  destruct a; cbn; try (by intros; apply Forall_nil); intros [chs Hp]; apply Forall_singleton;
    (destruct (color_code c) eqn:Hc; [by eapply color_code_wf|done]).
Qed.

Lemma print_wf r : is_Some (print r) -> Forall color_wf (colors r).
Proof.
  destruct r as [ch|es]; [by intros; apply Forall_nil|]. destruct es; cbn [print print_sequence colors]; try (by intros; apply Forall_nil).
  - apply print_sgr_wf.
  - destruct (sgr_code a) eqn:Ha; [|by intros [? ?]]. destruct (sgr_code b) eqn:Hb; [|by intros [? ?]]. intros _.
    apply Forall_app. split; by eapply sgr_code_wf.
  - destruct (sgr_code a) eqn:Ha; [|by intros [? ?]]. destruct (sgr_code b) eqn:Hb; [|by intros [? ?]]. destruct (sgr_code c) eqn:Hc; [|by intros [? ?]].
    intros _. rewrite !Forall_app. split_and!; by eapply sgr_code_wf.
Qed.

(** A color scheme has components of 8 bits. *)
Definition rgb_ok (x : rgb) : Prop := u8 x.1.1 /\ u8 x.1.2 /\ u8 x.2.

Definition scheme_ok (s : ColorScheme) : Prop := Forall rgb_ok
  [foreground s; background s; black s; red s; green s; yellow s; blue s; magenta s; cyan s; white s; bright_black s; bright_red s;
   bright_green s; bright_yellow s; bright_blue s; bright_magenta s; bright_cyan s; bright_white s].

Ltac euclid := Z.to_euclidean_division_equations; lia.

Lemma get_rgb s r g b : 0 <= r <= 5 -> 0 <= g <= 5 -> 0 <= b <= 5 -> get s (Rgb (36 * r + 6 * g + b)) = Some (Some (51 * r, 51 * g, 51 * b)).
Proof.
  intros Hr Hg Hb. cbn [get]. assert (Hmb : (36 * r + 6 * g + b) mod 6 = b) by euclid. rewrite Hmb.
  unfold sub_checked, mul_checked. rewrite (checked_ok 8 (36 * r + 6 * g + b - b)) by (unfold unsigned; lia). cbn [mbind option_bind].
  assert (Hd : (36 * r + 6 * g + b - b) / 6 = 6 * r + g) by euclid. rewrite Hd.
  assert (Hg6 : (6 * r + g) mod 6 = g) by euclid. rewrite Hg6.
  rewrite (checked_ok 8 (6 * r + g - g)) by (unfold unsigned; lia). cbn [mbind option_bind].
  assert (Hr6 : (6 * r + g - g) / 6 = r) by euclid. rewrite Hr6. by rewrite !checked_ok by (unfold unsigned; lia).
Qed.

Lemma get_ok s c : scheme_ok s -> color_wf c -> exists o, get s c = Some o /\ match o with Some x => rgb_ok x | None => True end.
Proof.
  intros Hs Hc. destruct c as [|c v|n|n].
  - by exists None.
  - eexists. split; [done|]. unfold scheme_ok in Hs. rewrite !Forall_cons in Hs. destruct c, (is_dimmer v); apply Hs.
  - simpl in Hc. exists (Some (51 * (n / 36), 51 * (n / 6 mod 6), 51 * (n mod 6))). split.
    + replace n with (36 * (n / 36) + 6 * (n / 6 mod 6) + n mod 6) at 1 by euclid. apply get_rgb; euclid.
    + unfold rgb_ok, unsigned. simpl. euclid.
  - simpl in Hc. destruct (decide (n = 23)) as [->|Hn]; [by exists (Some (255, 255, 255))|].
    exists (Some (n * 11, n * 11, n * 11)). split; [|unfold rgb_ok, unsigned; simpl; lia].
    transitivity (x ← mul_checked 8 n 11; Some (Some (x, x, x))); [cbn [get]; repeat (case_match; try done)|].
    unfold mul_checked. by rewrite checked_ok by (unfold unsigned; lia).
Qed.

Lemma get_fg_ok s c : scheme_ok s -> color_wf c -> exists x, get_fg s c = Some x /\ rgb_ok x.
Proof.
  intros Hs Hc. destruct (get_ok s c Hs Hc) as (o & Ho & Hx). unfold get_fg. rewrite Ho. eexists. split; [done|].
  destruct o; [done|]. unfold scheme_ok in Hs. rewrite !Forall_cons in Hs. apply Hs.
Qed.

Lemma get_bg_ok s c : scheme_ok s -> color_wf c -> exists x, get_bg s c = Some x /\ rgb_ok x.
Proof.
  intros Hs Hc. destruct (get_ok s c Hs Hc) as (o & Ho & Hx). unfold get_bg. rewrite Ho. eexists. split; [done|].
  destruct o; [done|]. unfold scheme_ok in Hs. rewrite !Forall_cons in Hs. apply Hs.
Qed.

(** ** Properties *)

(** [C15]. Decoding is the inverse of printing: any list of characters and escape
    sequences that is written out one after the other decodes to itself, and
    everything that the decoder ever returns can be written out. *)
Theorem ansi_roundtrip (rs : list DecodeResult) (css : list (list Z)) :
  Forall2 (fun r cs => print r = Some cs) rs css -> decode Init (mjoin css) = Ok (rs, Init) /\
  forall chs rs' st, decode Init chs = Ok (rs', st) -> Forall (fun r => is_Some (print r)) rs'.
Proof.
  intros Hp. split.
  - pose proof (print_all_decode rs css Hp []) as Hd. rewrite app_nil_r in Hd. rewrite Hd. simpl. by rewrite app_nil_r.
  - intros chs rs' st Hd. pose proof (decode_ok chs Init I) as Hok. rewrite Hd in Hok. apply Hok.
Qed.

(** Whatever the console is sent, decoding comes to a result as long as no
    number in it has more than 9 digits: parameters do not overflow, and a
    character that does not fit restarts the decoder. *)
Theorem decoder_no_panic (chs : list Z) :
  short_numbers 9 0 chs = true -> exists rs st, decode Init chs = Ok (rs, st).
Proof. intros Hs. by apply (decode_short chs Init 0). Qed.

(** [C32]. Every color in a decoded sequence is in the range of its constructor,
    so that a color scheme maps it to components of 8 bits without an overflow. *)
Theorem decoded_colors_wf (s : ColorScheme) (chs : list Z) (rs : list DecodeResult) (st : State) :
  scheme_ok s -> decode Init chs = Ok (rs, st) ->
  forall r c, r ∈ rs -> c ∈ colors r -> color_wf c /\
    (exists x, get_fg s c = Some x /\ rgb_ok x) /\ exists x, get_bg s c = Some x /\ rgb_ok x.
Proof.
  intros Hs Hd r c Hr Hc. pose proof (decode_ok chs Init I) as Hok. rewrite Hd in Hok. destruct Hok as [_ Hok].
  assert (Hwf : color_wf c).
  { rewrite Forall_forall in Hok. pose proof (print_wf r (Hok r Hr)) as Hall. rewrite Forall_forall in Hall. by apply Hall. }
  split; [done|]. split; [by apply get_fg_ok|by apply get_bg_ok].
Qed.

(** A parameter of 2^32 or more is an overflow, which halts the kernel. *)
Lemma long_parameter_panics : decode Init ([0x1b; 91] ++ [52; 50; 57; 52; 57; 54; 55; 50; 57; 54]) = Panic.
Proof. vm_compute. reflexivity. Qed.

(** ** Witnesses *)

Lemma ansi_roundtrip_witness : exists css,
  decode Init (mjoin css) = Ok ([Just 65; Sequence (CursorPosition 12 4294967295); Sequence (Sgr1 (Fg (Rgb 215))); Sequence (Sgr2 Bold (Bg Default)); Just 10], Init).
Proof.
  eexists [_; _; _; _; _]. refine (proj1 (ansi_roundtrip _ _ _)). repeat constructor; vm_compute; reflexivity.
Defined.

Lemma decoder_no_panic_witness : exists rs st, decode Init [0x1b; 91; 57; 57; 59; 57; 109; 0x1b; 0x1b; 91; 72; 33] = Ok (rs, st).
Proof. apply (decoder_no_panic [0x1b; 91; 57; 57; 59; 57; 109; 0x1b; 0x1b; 91; 72; 33]). vm_compute. reflexivity. Defined.

Lemma OneMonokai_ok : scheme_ok OneMonokai.
Proof. unfold scheme_ok. repeat apply Forall_cons_2; try apply Forall_nil_2; unfold rgb_ok, unsigned; simpl; lia. Qed.

Lemma decoded_colors_wf_witness : color_wf (Rgb 214) /\ exists x, get_fg OneMonokai (Rgb 214) = Some x /\ rgb_ok x.
Proof.
  destruct (decoded_colors_wf OneMonokai [0x1b; 91; 51; 56; 59; 53; 59; 50; 51; 48; 109] [Sequence (Sgr1 (Fg (Rgb 214)))] Init
    OneMonokai_ok ltac:(vm_compute; reflexivity) (Sequence (Sgr1 (Fg (Rgb 214)))) (Rgb 214)) as (Hwf & Hfg & _);
    [by apply list_elem_of_singleton|by apply list_elem_of_singleton|done].
Defined.
