(* ===== verification/Graphics.v ===== *)
(** * Frame buffers (src/ors-kernel/src/graphics.rs, graphics/frame_buffer.rs,
    rect.rs and color.rs)

    A frame buffer is its bytes with a width, a height and a stride; [VecBuffer] and
    [ScreenBuffer] are the two implementations of the trait. Coordinates are [i32]:
    [None] is an overflow or an index out of range. Indices are of type [usize]; they
    are positions in a slice of fewer than 2^63 bytes. *)

From S2P Require Import Prelude.
Local Open Scope Z_scope.

(** ** Data *)

Record Color := { r : Z; g : Z; b : Z }.

#[export] Instance rgb_eq_dec : EqDecision Color.
Proof. solve_decision. Defined.

Inductive FrameBufferFormat := Rgbx | Bgrx.

Definition encoder (f : FrameBufferFormat) (c : Color) : list Z :=
  match f with Rgbx => [r c; g c; b c; 255] | Bgrx => [b c; g c; r c; 255] end.

Definition decoder (f : FrameBufferFormat) (a : list Z) : Color :=
  match f with
  | Rgbx => {| r := at_ a 0; g := at_ a 1; b := at_ a 2 |}
  | Bgrx => {| r := at_ a 2; g := at_ a 1; b := at_ a 0 |}
  end.

Record FrameBuffer := { bytes : list Z; width : Z; height : Z; stride : Z; format : FrameBufferFormat }.

Definition with_bytes (l : list Z) (fb : FrameBuffer) : FrameBuffer :=
  {| bytes := l; width := width fb; height := height fb; stride := stride fb; format := format fb |}.

(** [VecBuffer::new] *)
Definition VecBuffer_new (w h : Z) (f : FrameBufferFormat) : FrameBuffer :=
  {| bytes := replicate (Z.to_nat (w * h * 4)) 0; width := w; height := h; stride := w; format := f |}.

(** [ScreenBuffer]: the memory at its pointer has [stride * height * 4] bytes. *)
Definition ScreenBuffer_from (mem : list Z) (st w h : Z) (f : FrameBufferFormat) : FrameBuffer :=
  {| bytes := take (Z.to_nat (st * h * 4)) mem; width := w; height := h; stride := st; format := f |}.

Record Rect := { rx : Z; ry : Z; rw : Z; rh : Z }.

(** ** Conversions *)

Definition i32 (z : Z) : option Z := if (- 2 ^ 31 <=? z) && (z <? 2 ^ 31) then Some z else None.
Definition as_i32 (z : Z) : Z := if wrap 32 z <? 2 ^ 31 then wrap 32 z else wrap 32 z - 2 ^ 32.
Definition as_usize (z : Z) : Z := wrap 64 z.

(** ** Rectangles *)

Definition intersect (a o : Rect) : option (option Rect) :=
  let lx := Z.max (rx a) (rx o) in
  let ly := Z.max (ry a) (ry o) in
  ax ← i32 (rx a + as_i32 (rw a)); ox ← i32 (rx o + as_i32 (rw o));
  ay ← i32 (ry a + as_i32 (rh a)); oy ← i32 (ry o + as_i32 (rh o));
  let hx := Z.min ax ox in
  let hy := Z.min ay oy in
  if (hx <? lx) || (hy <? ly) then Some None
  else
    w ← i32 (hx - lx); h ← i32 (hy - ly);
    Some (Some {| rx := lx; ry := ly; rw := wrap 32 w; rh := wrap 32 h |}).

Definition contains (a : Rect) (x y : Z) : option bool :=
  if rx a <=? x then
    ax ← i32 (rx a + as_i32 (rw a));
    if x <? ax then
      if ry a <=? y then ay ← i32 (ry a + as_i32 (rh a)); Some (y <? ay) else Some false
    else Some false
  else Some false.

Definition offset (a : Rect) (x y : Z) : option Rect :=
  x ← i32 (rx a + x); y ← i32 (ry a + y);
  Some {| rx := x; ry := y; rw := rw a; rh := rh a |}.

(** ** Pixels *)

Definition rect (fb : FrameBuffer) : Rect := {| rx := 0; ry := 0; rw := wrap 32 (width fb); rh := wrap 32 (height fb) |}.

Definition pixel_index (fb : FrameBuffer) (x y : Z) : option (option Z) :=
  c ← contains (rect fb) x y;
  Some (if c : bool then Some ((as_usize y * stride fb + as_usize x) * 4) else None).

Definition read_pixel (fb : FrameBuffer) (x y : Z) : option (option Color) :=
  i ← pixel_index fb x y;
  match i with
  | None => Some None
  | Some i => a ← slice (bytes fb) i 4; Some (Some (decoder (format fb) a))
  end.

Definition write_pixel (fb : FrameBuffer) (x y : Z) (c : Color) : option (bool * FrameBuffer) :=
  i ← pixel_index fb x y;
  match i with
  | None => Some (false, fb)
  | Some i => l ← splice (bytes fb) i (encoder (format fb) c); Some (true, with_bytes l fb)
  end.

(** ** Blitting *)

(** The loop over the rows [dy]. *)
Fixpoint blit_rows (src : FrameBuffer) (area : Rect) (ox oy st : Z) (rows : list Z) (dest : list Z) : option (list Z) :=
  match rows with
  | [] => Some dest
  | dy :: rows =>
      let i := ((as_usize (ry area) + dy) * st + as_usize (rx area)) * 4 in
      let j := ((oy + dy) * stride src + ox) * 4 in
      row ← slice (bytes src) j (rw area * 4);
      dest ← splice dest i row;
      blit_rows src area ox oy st rows dest
  end.

Definition blit (fb : FrameBuffer) (x y : Z) (src : FrameBuffer) : option FrameBuffer :=
  o ← offset (rect src) x y;
  area ← intersect (rect fb) o;
  match area with
  | None => Some fb
  | Some area =>
      oy ← i32 (ry area - y); ox ← i32 (rx area - x);
      l ← blit_rows src area (as_usize ox) (as_usize oy) (stride fb) (seqZ 0 (rh area)) (bytes fb);
      Some (with_bytes l fb)
  end.

(** ** Filling *)

Definition CHUNK : Z := 16.

(** [let (a, b) = dest.split_at_mut(p); b[0..n].copy_from_slice(&a[i..i + n])] *)
Definition copy_split (p i n : Z) (dest : list Z) : option (list Z) :=
  if (p <=? zlen dest) && (0 <=? i) && (0 <=? n) && (i + n <=? p) && (p + n <=? zlen dest) then Some (upd dest p (sub dest i n)) else None.

Fixpoint fill_pixels (color : list Z) (i : Z) (oxs : list Z) (dest : list Z) : option (list Z) :=
  match oxs with
  | [] => Some dest
  | ox :: oxs => dest ← splice dest (i + ox * 4) color; fill_pixels color i oxs dest
  end.

Fixpoint fill_chunks (i : Z) (ns : list Z) (dest : list Z) : option (list Z) :=
  match ns with
  | [] => Some dest
  | n :: ns => dest ← copy_split (i + n * CHUNK * 4) i (CHUNK * 4) dest; fill_chunks i ns dest
  end.

(** The row [oy = 0]. *)
Definition fill_first (color : list Z) (i w : Z) (dest : list Z) : option (list Z) :=
  dest ← fill_pixels color i (seqZ 0 (Z.min w CHUNK)) dest;
  if 16 <? w then
    dest ← fill_chunks i (seqZ 1 (w / CHUNK - 1)) dest;
    let mw := w mod CHUNK in
    copy_split (i + (w - mw) * 4) i (mw * 4) dest
  else Some dest.

Fixpoint fill_rows (color : list Z) (x y w st : Z) (rows : list Z) (dest : list Z) : option (list Z) :=
  match rows with
  | [] => Some dest
  | oy :: rows =>
      let i := ((y + oy) * st + x) * 4 in
      dest ← (if oy =? 0 then fill_first color i w dest
              else copy_split i (i - st * 4) (w * 4) dest);
      fill_rows color x y w st rows dest
  end.

Definition fill_rect (fb : FrameBuffer) (a : Rect) (c : Color) : option FrameBuffer :=
  area ← intersect (rect fb) a;
  match area with
  | None => Some fb
  | Some area =>
      l ← fill_rows (encoder (format fb) c) (as_usize (rx area)) (as_usize (ry area)) (rw area) (stride fb) (seqZ 0 (rh area)) (bytes fb);
      Some (with_bytes l fb)
  end.

Definition clear (fb : FrameBuffer) (c : Color) : option FrameBuffer := fill_rect fb (rect fb) c.

(** ** References

    The same operations pixel by pixel. *)

(** A buffer with all its bytes and of a size that [i32] can address. *)
Definition fb_ok (fb : FrameBuffer) : Prop :=
  0 <= width fb < 2 ^ 30 /\ 0 <= height fb < 2 ^ 30 /\ width fb <= stride fb < 2 ^ 30 /\ zlen (bytes fb) = stride fb * height fb * 4.

(** The bytes of a pixel. *)
Definition pixel (fb : FrameBuffer) (x y : Z) : list Z := sub (bytes fb) ((y * stride fb + x) * 4) 4.

Definition in_rect (a : Rect) (x y : Z) : Prop := rx a <= x < rx a + rw a /\ ry a <= y < ry a + rh a.
Definition inside (fb : FrameBuffer) (x y : Z) : Prop := 0 <= x < width fb /\ 0 <= y < height fb.

Definition rect_ok (a : Rect) : Prop := - 2 ^ 30 <= rx a < 2 ^ 30 /\ - 2 ^ 30 <= ry a < 2 ^ 30 /\ 0 <= rw a < 2 ^ 30 /\ 0 <= rh a < 2 ^ 30.

(** ** Lemmas: coordinates *)

Lemma i32_ok z : - 2 ^ 31 <= z < 2 ^ 31 -> i32 z = Some z.
Proof. intros Hz. unfold i32. by rewrite (proj2 (Z.leb_le _ _)), (proj2 (Z.ltb_lt _ _)) by lia. Qed.

Lemma as_i32_small z : 0 <= z < 2 ^ 31 -> as_i32 z = z.
Proof. intros Hz. unfold as_i32. rewrite wrap_small by (unfold unsigned; lia). by rewrite (proj2 (Z.ltb_lt _ _)) by lia. Qed.

Lemma as_usize_small z : 0 <= z < 2 ^ 64 -> as_usize z = z.
Proof. apply wrap_small. Qed.

Lemma intersect_spec a o : rect_ok a -> rect_ok o -> exists q, intersect a o = Some q /\
  match q with
  | None => forall x y, in_rect a x y -> in_rect o x y -> False
  | Some q => rx q = Z.max (rx a) (rx o) /\ ry q = Z.max (ry a) (ry o) /\ 0 <= rw q /\ 0 <= rh q /\
      rx q + rw q = Z.min (rx a + rw a) (rx o + rw o) /\ ry q + rh q = Z.min (ry a + rh a) (ry o + rh o)
  end.
Proof.
  intros (Ha1 & Ha2 & Ha3 & Ha4) (Ho1 & Ho2 & Ho3 & Ho4). unfold intersect. rewrite !as_i32_small by lia.
  rewrite !i32_ok by lia. cbn [mbind option_bind].
  destruct (Z.ltb_spec (Z.min (rx a + rw a) (rx o + rw o)) (Z.max (rx a) (rx o))); cbn [orb].
  { eexists. split; [done|]. unfold in_rect. lia. }
  destruct (Z.ltb_spec (Z.min (ry a + rh a) (ry o + rh o)) (Z.max (ry a) (ry o))).
  { eexists. split; [done|]. unfold in_rect. lia. }
  rewrite !i32_ok by lia. cbn [mbind option_bind]. eexists. split; [done|]. cbn [rx ry rw rh].
  rewrite !wrap_small by (unfold unsigned; lia). lia.
Qed.

Lemma rect_of fb : fb_ok fb -> rect fb = {| rx := 0; ry := 0; rw := width fb; rh := height fb |}.
Proof. intros (Hw & Hh & _). unfold rect. by rewrite !wrap_small by (unfold unsigned; lia). Qed.

Lemma rect_of_ok fb : fb_ok fb -> rect_ok (rect fb).
Proof. intros Hok. rewrite rect_of by done. destruct Hok as (Hw & Hh & _). unfold rect_ok. simpl. lia. Qed.

Lemma contains_spec a x y : rect_ok a -> contains a x y = Some (bool_decide (rx a <= x < rx a + rw a /\ ry a <= y < ry a + rh a)).
Proof.
  intros (H1 & H2 & H3 & H4). unfold contains. rewrite !as_i32_small, !i32_ok by lia. cbn [mbind option_bind].
  destruct (Z.leb_spec (rx a) x), (Z.ltb_spec x (rx a + rw a)), (Z.leb_spec (ry a) y), (Z.ltb_spec y (ry a + rh a));
    (by rewrite bool_decide_true by lia) || (by rewrite bool_decide_false by lia).
Qed.

#[export] Instance inside_dec fb x y : Decision (inside fb x y).
Proof. unfold inside. apply _. Defined.

Lemma pixel_index_spec fb x y : fb_ok fb ->
  pixel_index fb x y = Some (if decide (inside fb x y) then Some ((y * stride fb + x) * 4) else None).
Proof.
  intros Hok. pose proof Hok as (Hw & Hh & _). unfold pixel_index. rewrite contains_spec by by apply rect_of_ok. rewrite rect_of by done.
  cbn [mbind option_bind rx ry rw rh]. rewrite !Z.add_0_l. f_equal. destruct (decide (inside fb x y)) as [Hin|Hin]; unfold inside in Hin.
  - rewrite bool_decide_true by done. by rewrite !as_usize_small by lia.
  - by rewrite bool_decide_false.
Qed.

(** ** Lemmas: pixels *)

(** A pixel of the buffer, or of the padding behind a row. *)
Definition addressed (fb : FrameBuffer) (x y : Z) : Prop := 0 <= x < stride fb /\ 0 <= y < height fb.

Lemma inside_addressed fb x y : fb_ok fb -> inside fb x y -> addressed fb x y.
Proof. unfold fb_ok, inside, addressed. lia. Qed.

Lemma pixel_range fb x y : fb_ok fb -> addressed fb x y -> 0 <= (y * stride fb + x) * 4 /\ (y * stride fb + x) * 4 + 4 <= zlen (bytes fb).
Proof. intros (Hw & Hh & Hs & Hl) (Hx & Hy). rewrite Hl. nia. Qed.

(** Writing a row of [n] pixels from (x, y) on. *)
Lemma pixel_upd_row fb x y n src u v : fb_ok fb -> zlen src = n * 4 -> 0 <= n -> 0 <= x -> x + n <= stride fb -> 0 <= y < height fb ->
  addressed fb u v ->
  pixel (with_bytes (upd (bytes fb) ((y * stride fb + x) * 4) src) fb) u v =
    if decide (v = y /\ x <= u < x + n) then sub src ((u - x) * 4) 4 else pixel fb u v.
Proof.
  intros Hok Hsrc Hn Hx Hxn Hy [Hu Hv]. destruct Hok as (_ & _ & Hs & Hl). unfold pixel. cbn [with_bytes bytes stride].
  assert (Hi : 0 <= (y * stride fb + x) * 4) by nia. assert (Hend : (y * stride fb + x) * 4 + zlen src <= zlen (bytes fb)) by (rewrite Hl, Hsrc; nia).
  case_decide as Hc.
  - destruct Hc as [-> Hc]. replace ((y * stride fb + u) * 4) with ((y * stride fb + x) * 4 + (u - x) * 4) by lia.
    rewrite <- (sub_sub _ _ (zlen src)) by lia. by rewrite sub_upd_same.
  - apply sub_upd_disjoint; [done|done|nia|lia|]. rewrite Hsrc.
    destruct (Z.lt_trichotomy v y) as [Hlt|[->|Hgt]]; [left; nia| |right; nia].
    assert (u < x \/ x + n <= u) as [|] by lia; [left|right]; lia.
Qed.

Lemma row_range fb x y n : fb_ok fb -> 0 <= n -> 0 <= x -> x + n <= stride fb -> 0 <= y < height fb ->
  0 <= (y * stride fb + x) * 4 /\ (y * stride fb + x) * 4 + n * 4 <= zlen (bytes fb).
Proof. intros (_ & _ & Hs & Hl) Hn Hx Hxn Hy. rewrite Hl. nia. Qed.

Lemma with_bytes_ok l fb : fb_ok fb -> length l = length (bytes fb) -> fb_ok (with_bytes l fb).
Proof. unfold fb_ok. cbn [with_bytes bytes width height stride]. intros Hok ->. done. Qed.

Lemma length_encoder f c : zlen (encoder f c) = 4.
Proof. by destruct f. Qed.

Lemma write_pixel_spec fb x y c : fb_ok fb -> exists fb',
  write_pixel fb x y c = Some (bool_decide (inside fb x y), fb') /\ fb_ok fb' /\
  width fb' = width fb /\ height fb' = height fb /\ stride fb' = stride fb /\ format fb' = format fb /\
  forall u v, addressed fb u v -> pixel fb' u v = if decide (inside fb x y /\ u = x /\ v = y) then encoder (format fb) c else pixel fb u v.
Proof.
  intros Hok. unfold write_pixel. rewrite pixel_index_spec by done. cbn [mbind option_bind]. destruct (decide (inside fb x y)) as [Hin|Hin].
  - pose proof (pixel_range fb x y Hok (inside_addressed _ _ _ Hok Hin)) as Hr. pose proof (length_encoder (format fb) c) as He.
    rewrite splice_Some by lia. cbn [mbind option_bind]. rewrite bool_decide_true by done. eexists. split; [done|].
    split; [apply with_bytes_ok; [done|apply length_upd; lia]|]. split_and!; try done. intros u v Ha.
    destruct (inside_addressed fb x y Hok Hin) as [Hx Hy].
    rewrite (pixel_upd_row fb x y 1) by (done || lia). destruct (decide (v = y /\ x <= u < x + 1)) as [[-> Hu]|Hne].
    + assert (u = x) as -> by lia. rewrite decide_True by done. rewrite Z.sub_diag. apply sub_all. done.
    + rewrite decide_False; [done|]. intros (_ & -> & ->). lia.
  - rewrite bool_decide_false by done. exists fb. split_and!; try done. intros u v _. rewrite decide_False; [done|]. by intros [? _].
Qed.

(** ** Lemmas: blitting *)

Definition same_shape (fb fb' : FrameBuffer) : Prop :=
  fb_ok fb' /\ width fb' = width fb /\ height fb' = height fb /\ stride fb' = stride fb /\ format fb' = format fb.

Lemma same_shape_trans a b c : same_shape a b -> same_shape b c -> same_shape a c.
Proof. intros (_ & H1 & H2 & H3 & H4) (Hok & H5 & H6 & H7 & H8). split; [done|]. split_and!; congruence. Qed.

Lemma addressed_shape fb fb' u v : same_shape fb fb' -> addressed fb' u v <-> addressed fb u v.
Proof. intros (_ & _ & Hh & Hs & _). unfold addressed. by rewrite Hh, Hs. Qed.

Lemma with_bytes_shape l fb : fb_ok fb -> length l = length (bytes fb) -> same_shape fb (with_bytes l fb).
Proof. intros Hok Hl. split; [by apply with_bytes_ok|done]. Qed.

(** Within [area], which is inside of both buffers. *)
Definition window_ok (fb src : FrameBuffer) (area : Rect) (ox oy : Z) : Prop :=
  0 <= rx area /\ 0 <= rw area /\ rx area + rw area <= width fb /\ 0 <= ry area /\ 0 <= rh area /\ ry area + rh area <= height fb /\
  0 <= ox /\ ox + rw area <= width src /\ 0 <= oy /\ oy + rh area <= height src.

Lemma blit_rows_spec src area ox oy n : fb_ok src -> forall fb k, fb_ok fb -> window_ok fb src area ox oy -> 0 <= k -> k + Z.of_nat n <= rh area ->
  exists l, blit_rows src area ox oy (stride fb) (seqZ k (Z.of_nat n)) (bytes fb) = Some l /\ length l = length (bytes fb) /\
    forall u v, addressed fb u v -> pixel (with_bytes l fb) u v =
      if decide (k <= v - ry area < k + Z.of_nat n /\ rx area <= u < rx area + rw area)
      then pixel src (u - rx area + ox) (v - ry area + oy) else pixel fb u v.
Proof.
  intros Hsrc. induction n as [|n IH]; intros fb k Hfb Hwin Hk Hkn.
  { exists (bytes fb). split; [done|]. split; [done|]. intros u v _. rewrite decide_False by lia. by destruct fb. }
  rewrite seqZ_cons by lia. cbn [blit_rows]. destruct Hwin as (Hx & Hw & Hxw & Hy & Hh & Hyh & Hox & Hoxw & Hoy & Hoyh).
  pose proof Hfb as (Hbw & Hbh & Hbs & Hbl). pose proof Hsrc as (Hsw & Hsh & Hss & Hsl).
  rewrite !as_usize_small by lia.
  destruct (row_range src ox (oy + k) (rw area) Hsrc) as [Hj1 Hj2]; [lia|lia|lia|lia|].
  rewrite slice_Some by lia. cbn [mbind option_bind].
  set (row := sub (bytes src) (((oy + k) * stride src + ox) * 4) (rw area * 4)).
  assert (Hrow : zlen row = rw area * 4) by (unfold row, sub; rewrite length_take, length_drop; lia).
  destruct (row_range fb (rx area) (ry area + k) (rw area) Hfb) as [Hi1 Hi2]; [lia|lia|lia|lia|].
  rewrite splice_Some by lia. cbn [mbind option_bind].
  set (fb1 := with_bytes (upd (bytes fb) (((ry area + k) * stride fb + rx area) * 4) row) fb).
  assert (Hlen : length (bytes fb1) = length (bytes fb)) by (apply length_upd; lia).
  assert (Hfb1 : fb_ok fb1) by by apply with_bytes_ok.
  destruct (IH fb1 (k + 1) Hfb1) as (l & Hl & Hll & Hpx); [done|lia|lia|].
  replace (Z.pred (Z.of_nat (S n))) with (Z.of_nat n) by lia. replace (Z.succ k) with (k + 1) by lia.
  exists l. split; [exact Hl|]. split; [congruence|]. intros u v Ha. change (with_bytes l fb) with (with_bytes l fb1). rewrite Hpx by done.
  assert (Hp1 : pixel fb1 u v = if decide (v = ry area + k /\ rx area <= u < rx area + rw area) then sub row ((u - rx area) * 4) 4 else pixel fb u v).
  { apply pixel_upd_row; [done|done|lia|lia|lia|lia|done]. }
  destruct (decide (k + 1 <= v - ry area < k + 1 + Z.of_nat n /\ rx area <= u < rx area + rw area)) as [Hc|Hc].
  { by rewrite decide_True by lia. }
  rewrite Hp1. destruct (decide (v = ry area + k /\ rx area <= u < rx area + rw area)) as [[-> Hu]|Hne].
  - rewrite decide_True by lia. unfold row, pixel. rewrite sub_sub by lia. f_equal. nia.
  - by rewrite decide_False by lia.
Qed.

(** A blit copies the pixels of [src], shifted by (x, y), and no others. *)
Lemma blit_spec fb x y src : fb_ok fb -> fb_ok src -> - 2 ^ 29 <= x < 2 ^ 29 -> - 2 ^ 29 <= y < 2 ^ 29 -> exists fb',
  blit fb x y src = Some fb' /\ same_shape fb fb' /\
  forall u v, addressed fb u v -> pixel fb' u v = if decide (inside fb u v /\ inside src (u - x) (v - y)) then pixel src (u - x) (v - y) else pixel fb u v.
Proof.
  intros Hfb Hsrc Hx Hy. pose proof Hfb as (Hbw & Hbh & Hbs & _). pose proof Hsrc as (Hsw & Hsh & Hss & _).
  unfold blit, offset. rewrite (rect_of src), (rect_of fb) by done. cbn [rx ry rw rh]. rewrite !i32_ok by lia. cbn [mbind option_bind]. rewrite !Z.add_0_l.
  destruct (intersect_spec {| rx := 0; ry := 0; rw := width fb; rh := height fb |} {| rx := x; ry := y; rw := width src; rh := height src |})
    as (q & -> & Hq); [unfold rect_ok; simpl; lia|unfold rect_ok; simpl; lia|]. cbn [mbind option_bind]. unfold in_rect in Hq. cbn [rx ry rw rh] in Hq.
  destruct q as [q|].
  2: { exists fb. split; [done|]. split; [by split|]. intros u v _. rewrite decide_False; [done|]. unfold inside. intros [Hi1 Hi2]. apply (Hq u v); lia. }
  destruct Hq as (Hqx & Hqy & Hqw & Hqh & Hqxe & Hqye). rewrite !i32_ok by lia. cbn [mbind option_bind]. rewrite (as_usize_small (rx q - x)), (as_usize_small (ry q - y)) by lia.
  destruct (blit_rows_spec src q (rx q - x) (ry q - y) (Z.to_nat (rh q)) Hsrc fb 0 Hfb) as (l & Hl & Hll & Hpx); [unfold window_ok; lia|lia|lia|].
  rewrite Z2Nat.id in Hl, Hpx by lia. rewrite Hl. cbn [mbind option_bind]. eexists. split; [done|]. split; [by apply with_bytes_shape|].
  intros u v Ha. rewrite Hpx by done. unfold inside. destruct (decide (0 <= v - ry q < 0 + rh q /\ rx q <= u < rx q + rw q)) as [Hc|Hc].
  - rewrite decide_True by lia. f_equal; lia.
  - rewrite decide_False by lia. done.
Qed.

(** ** Lemmas: filling *)

(** [n] pixels of a color. *)
Definition rep (c : list Z) (n : Z) : list Z := mjoin (replicate (Z.to_nat n) c).

Section fill.
Variable c : list Z.
Hypothesis c_len : zlen c = 4.

Lemma length_rep n : 0 <= n -> zlen (rep c n) = n * 4.
Proof.
  intros Hn. unfold rep. rewrite (length_chunks _ 4) by by apply Forall_replicate. rewrite length_replicate. lia.
Qed.

Lemma rep_app a b : 0 <= a -> 0 <= b -> rep c (a + b) = rep c a ++ rep c b.
Proof. intros Ha Hb. unfold rep. rewrite Z2Nat.inj_add by lia. rewrite replicate_add. by rewrite join_app. Qed.

Lemma rep_one : rep c 1 = c.
Proof. unfold rep. change (Z.to_nat 1) with 1%nat. simpl. apply app_nil_r. Qed.

Lemma sub_rep n k : 0 <= k < n -> sub (rep c n) (k * 4) 4 = c.
Proof.
  intros Hk. unfold rep. rewrite <- (Z2Nat.id k) by lia. rewrite <- (Z.add_0_r (_ * 4)).
  rewrite (sub_chunks _ 4 _ c); [by apply sub_all|by apply Forall_replicate|apply lookup_replicate_2; lia|lia|lia|lia].
Qed.

Lemma upd_rep_app l i a b : 0 <= i -> 0 <= a -> 0 <= b -> i + (a + b) * 4 <= zlen l ->
  upd (upd l i (rep c a)) (i + a * 4) (rep c b) = upd l i (rep c (a + b)).
Proof.
  intros Hi Ha Hb Hl. rewrite rep_app by lia. rewrite <- upd_upd_app; rewrite ?length_rep by lia; [done|lia|lia].
Qed.

Lemma sub_rep_prefix l i a m : 0 <= i -> 0 <= m <= a -> i + a * 4 <= zlen l -> sub (upd l i (rep c a)) i (m * 4) = rep c m.
Proof.
  intros Hi Hm Hl. replace a with (m + (a - m)) at 1 by lia. rewrite rep_app by lia.
  pose proof (length_rep m ltac:(lia)) as Hrm. pose proof (length_rep (a - m) ltac:(lia)) as Hra.
  rewrite <- upd_upd_app by lia. rewrite sub_upd_disjoint.
  - apply sub_upd_same_n; lia.
  - lia.
  - rewrite length_upd by lia. lia.
  - lia.
  - lia.
  - left. lia.
Qed.

(** Appending a copy of the first [m] pixels. *)
Lemma copy_split_rep l i a m : 0 <= i -> 0 <= m <= a -> i + (a + m) * 4 <= zlen l ->
  copy_split (i + a * 4) i (m * 4) (upd l i (rep c a)) = Some (upd l i (rep c (a + m))).
Proof.
  intros Hi Hm Hl. pose proof (length_rep a ltac:(lia)) as Ha. unfold copy_split. rewrite length_upd by lia.
  rewrite !(proj2 (Z.leb_le _ _)) by lia. cbn [andb]. rewrite sub_rep_prefix by lia. by rewrite upd_rep_app by lia.
Qed.

Lemma fill_pixels_spec l i n : forall k, 0 <= i -> 0 <= k -> i + (k + Z.of_nat n) * 4 <= zlen l ->
  fill_pixels c i (seqZ k (Z.of_nat n)) (upd l i (rep c k)) = Some (upd l i (rep c (k + Z.of_nat n))).
Proof.
  induction n as [|n IH]; intros k Hi Hk Hl; [by rewrite Z.add_0_r|]. rewrite seqZ_cons by lia. cbn [fill_pixels].
  pose proof (length_rep k ltac:(lia)) as Hrk. rewrite splice_Some by (rewrite ?length_upd; lia). cbn [mbind option_bind].
  assert (Hone : upd (upd l i (rep c k)) (i + k * 4) c = upd l i (rep c (k + 1))) by (rewrite <- (upd_rep_app l i k 1) by lia; by rewrite rep_one).
  rewrite Hone. replace (Z.pred (Z.of_nat (S n))) with (Z.of_nat n) by lia.
  replace (Z.succ k) with (k + 1) by lia. rewrite IH by lia. do 3 f_equal. lia.
Qed.

Lemma fill_chunks_spec l i n : forall k, 0 <= i -> 1 <= k -> i + (k + Z.of_nat n) * 64 <= zlen l ->
  fill_chunks i (seqZ k (Z.of_nat n)) (upd l i (rep c (16 * k))) = Some (upd l i (rep c (16 * (k + Z.of_nat n)))).
Proof.
  induction n as [|n IH]; intros k Hi Hk Hl; [by rewrite Z.add_0_r|]. rewrite seqZ_cons by lia. cbn [fill_chunks]. unfold CHUNK.
  replace (k * 16 * 4) with (16 * k * 4) by lia. rewrite copy_split_rep by lia. cbn [mbind option_bind].
  replace (Z.pred (Z.of_nat (S n))) with (Z.of_nat n) by lia. replace (16 * k + 16) with (16 * (k + 1)) by lia.
  replace (Z.succ k) with (k + 1) by lia. rewrite IH by lia. do 4 f_equal. lia.
Qed.

Lemma fill_first_spec l i w : 0 <= i -> 0 <= w -> i + w * 4 <= zlen l -> fill_first c i w l = Some (upd l i (rep c w)).
Proof.
  intros Hi Hw Hl. unfold fill_first, CHUNK.
  pose proof (fill_pixels_spec l i (Z.to_nat (Z.min w 16)) 0 Hi ltac:(lia)) as Hp. rewrite Z2Nat.id, Z.add_0_l in Hp by lia.
  change (rep c 0) with (@nil Z) in Hp. rewrite upd_nil in Hp. rewrite Hp by lia. cbn [mbind option_bind]. destruct (Z.ltb_spec 16 w) as [Hgt|Hle].
  2: { by rewrite Z.min_l by lia. }
  rewrite Z.min_r by lia. assert (Hdiv : w = 16 * (w / 16) + w mod 16) by (apply Z.div_mod; lia). pose proof (Z.mod_pos_bound w 16 ltac:(lia)) as Hm.
  assert (H1 : 1 <= w / 16) by (apply Z.div_le_lower_bound; lia).
  pose proof (fill_chunks_spec l i (Z.to_nat (w / 16 - 1)) 1 Hi ltac:(lia)) as Hc. rewrite Z2Nat.id in Hc by lia.
  change (16 * 1) with 16 in Hc. rewrite Hc by lia. cbn [mbind option_bind]. replace (w - w mod 16) with (16 * (1 + (w / 16 - 1))) by lia.
  rewrite copy_split_rep by lia. do 3 f_equal. lia.
Qed.

(** The rows from [k] on; the row before is filled already. *)
Lemma fill_rows_spec x y w n : 0 <= x -> 0 <= y -> 0 <= w -> forall fb k, fb_ok fb -> 0 <= k -> x + w <= width fb -> y + k + Z.of_nat n <= height fb ->
  (0 < k -> sub (bytes fb) (((y + (k - 1)) * stride fb + x) * 4) (w * 4) = rep c w) ->
  exists l, fill_rows c x y w (stride fb) (seqZ k (Z.of_nat n)) (bytes fb) = Some l /\ length l = length (bytes fb) /\
    forall u v, addressed fb u v -> pixel (with_bytes l fb) u v =
      if decide (k <= v - y < k + Z.of_nat n /\ x <= u < x + w) then c else pixel fb u v.
Proof.
  intros Hx Hy Hw. induction n as [|n IH]; intros fb k Hfb Hk Hxw Hyn Hprev.
  { exists (bytes fb). split; [done|]. split; [done|]. intros u v _. rewrite decide_False by lia. by destruct fb. }
  pose proof Hfb as (Hbw & Hbh & Hbs & Hbl). pose proof (length_rep w Hw) as Hrw.
  destruct (row_range fb x (y + k) w Hfb) as [Hi1 Hi2]; [lia|lia|lia|lia|].
  assert (Hstep : (if k =? 0 then fill_first c (((y + k) * stride fb + x) * 4) w (bytes fb)
      else copy_split (((y + k) * stride fb + x) * 4) (((y + k) * stride fb + x) * 4 - stride fb * 4) (w * 4) (bytes fb)) =
    Some (upd (bytes fb) (((y + k) * stride fb + x) * 4) (rep c w))).
  { destruct (Z.eqb_spec k 0); [by apply fill_first_spec; lia|].
    replace (((y + k) * stride fb + x) * 4 - stride fb * 4) with (((y + (k - 1)) * stride fb + x) * 4) by lia.
    unfold copy_split. rewrite Hprev by lia. by rewrite !(proj2 (Z.leb_le _ _)) by nia. }
  rewrite seqZ_cons by lia. cbn [fill_rows]. rewrite Hstep. cbn [mbind option_bind].
  set (fb1 := with_bytes (upd (bytes fb) (((y + k) * stride fb + x) * 4) (rep c w)) fb).
  assert (Hlen : length (bytes fb1) = length (bytes fb)) by (apply length_upd; lia).
  assert (Hfb1 : fb_ok fb1) by by apply with_bytes_ok.
  destruct (IH fb1 (k + 1) Hfb1) as (l & Hl & Hll & Hpx); [lia|done|cbn [fb1 with_bytes height]; lia| |].
  { intros _. replace (k + 1 - 1) with k by lia. cbn [fb1 with_bytes bytes stride]. apply sub_upd_same_n; lia. }
  replace (Z.pred (Z.of_nat (S n))) with (Z.of_nat n) by lia. replace (Z.succ k) with (k + 1) by lia.
  exists l. split; [exact Hl|]. split; [congruence|]. intros u v Ha. change (with_bytes l fb) with (with_bytes l fb1). rewrite Hpx by done.
  assert (Hp1 : pixel fb1 u v = if decide (v = y + k /\ x <= u < x + w) then sub (rep c w) ((u - x) * 4) 4 else pixel fb u v).
  { apply pixel_upd_row; [done|done|lia|lia|lia|lia|done]. }
  destruct (decide (k + 1 <= v - y < k + 1 + Z.of_nat n /\ x <= u < x + w)) as [Hc|Hc]; [by rewrite decide_True by lia|].
  rewrite Hp1. destruct (decide (v = y + k /\ x <= u < x + w)) as [[-> Hu]|Hne].
  - rewrite decide_True by lia. by apply sub_rep; lia.
  - by rewrite decide_False by lia.
Qed.

End fill.

Lemma fill_rect_spec fb a col : fb_ok fb -> rect_ok a -> exists fb', fill_rect fb a col = Some fb' /\ same_shape fb fb' /\
  forall u v, addressed fb u v -> pixel fb' u v = if decide (inside fb u v /\ in_rect a u v) then encoder (format fb) col else pixel fb u v.
Proof.
  intros Hfb Ha. pose proof Hfb as (Hbw & Hbh & Hbs & _). unfold fill_rect.
  destruct (intersect_spec (rect fb) a (rect_of_ok fb Hfb) Ha) as (q & -> & Hq). cbn [mbind option_bind]. rewrite rect_of in Hq by done.
  unfold in_rect in *. cbn [rx ry rw rh] in Hq. destruct q as [q|].
  2: { exists fb. split; [done|]. split; [by split|]. intros u v _. rewrite decide_False; [done|]. unfold inside. intros [Hi1 Hi2]. apply (Hq u v); lia. }
  destruct Hq as (Hqx & Hqy & Hqw & Hqh & Hqxe & Hqye). destruct Ha as (Ha1 & Ha2 & Ha3 & Ha4). rewrite !as_usize_small by lia.
  destruct (fill_rows_spec (encoder (format fb) col) (length_encoder _ _) (rx q) (ry q) (rw q) (Z.to_nat (rh q)) ltac:(lia) ltac:(lia) ltac:(lia) fb 0 Hfb)
    as (l & Hl & Hll & Hpx); [lia|lia|lia|lia|]. rewrite Z2Nat.id in Hl, Hpx by lia.
  rewrite Hl. cbn [mbind option_bind]. eexists. split; [done|]. split; [by apply with_bytes_shape|].
  intros u v Had. rewrite Hpx by done. unfold inside. destruct (decide (0 <= v - ry q < 0 + rh q /\ rx q <= u < rx q + rw q)) as [Hc|Hc].
  - by rewrite decide_True by lia.
  - by rewrite decide_False by lia.
Qed.

(** ** Lemmas: the reference for filling *)

Definition points (a : Rect) : list (Z * Z) := y ← seqZ (ry a) (rh a); x ← seqZ (rx a) (rw a); [(x, y)].

Fixpoint write_all (fb : FrameBuffer) (ps : list (Z * Z)) (c : Color) : option FrameBuffer :=
  match ps with
  | [] => Some fb
  | (x, y) :: ps => '(_, fb) ← write_pixel fb x y c; write_all fb ps c
  end.

Lemma elem_of_points a x y : (x, y) ∈ points a <-> in_rect a x y.
Proof.
  unfold points, in_rect. rewrite list_elem_of_bind. setoid_rewrite list_elem_of_bind. setoid_rewrite list_elem_of_singleton.
  setoid_rewrite elem_of_seqZ. split; [|naive_solver]. intros (v & (u & E & Hu) & Hv). simplify_eq. lia.
Qed.

Lemma write_all_spec c ps : forall fb, fb_ok fb -> exists fb', write_all fb ps c = Some fb' /\ same_shape fb fb' /\
  forall u v, addressed fb u v -> pixel fb' u v = if decide (inside fb u v /\ (u, v) ∈ ps) then encoder (format fb) c else pixel fb u v.
Proof.
  induction ps as [|[x y] ps IH]; intros fb Hok; cbn [write_all].
  - exists fb. split; [done|]. split; [by split|]. intros u v _. rewrite decide_False; [done|]. by intros [_ ?%elem_of_nil].
  - destruct (write_pixel_spec fb x y c Hok) as (fb1 & -> & Hok1 & Hw & Hh & Hs & Hf & Hp1). cbn [mbind option_bind].
    destruct (IH fb1 Hok1) as (fb2 & -> & Hs2 & Hp2). exists fb2. split; [done|].
    assert (Hs1 : same_shape fb fb1) by by split. split; [by eapply same_shape_trans|]. intros u v Ha.
    rewrite Hp2 by by apply (addressed_shape fb fb1). rewrite Hp1, Hf by done.
    assert (Hin : inside fb1 u v <-> inside fb u v) by (unfold inside; by rewrite Hw, Hh).
    assert (Hel : (u, v) ∈ (x, y) :: ps <-> (u = x /\ v = y) \/ (u, v) ∈ ps) by (rewrite elem_of_cons; naive_solver).
    destruct (decide (inside fb1 u v /\ (u, v) ∈ ps)) as [Hc|Hc]; [rewrite decide_True by naive_solver; done|].
    destruct (decide (inside fb x y /\ u = x /\ v = y)) as [(Hi & -> & ->)|Hne]; [rewrite decide_True by naive_solver; done|].
    rewrite decide_False; [done|]. naive_solver.
Qed.

(** Buffers of one shape with the same pixels are equal. *)
Lemma fb_ext fb f1 f2 : same_shape fb f1 -> same_shape fb f2 -> (forall u v, addressed fb u v -> pixel f1 u v = pixel f2 u v) -> f1 = f2.
Proof.
  intros ((Hw1 & Hh1 & Hst1 & Hl1) & Ew1 & Eh1 & Es1 & Ef1) ((_ & _ & _ & Hl2) & Ew2 & Eh2 & Es2 & Ef2) Hpx.
  destruct f1 as [l1 w1 h1 s1 t1], f2 as [l2 w2 h2 s2 t2]. cbn [width height stride format bytes] in *. subst. f_equal.
  apply list_eq_same_length with (length l2); [done|lia|]. intros i b1 b2 Hi Hb1 Hb2.
  set (st := stride fb) in *. set (z := Z.of_nat i / 4). assert (Hz : Z.of_nat i = 4 * z + Z.of_nat i mod 4) by (apply Z.div_mod; lia).
  pose proof (Z.mod_pos_bound (Z.of_nat i) 4 ltac:(lia)) as Hm. assert (0 < st) by nia.
  assert (Hzs : z = st * (z / st) + z mod st) by (apply Z.div_mod; lia). pose proof (Z.mod_pos_bound z st ltac:(lia)) as Hzm.
  assert (Hz0 : 0 <= z / st) by (apply Z.div_pos; lia).
  specialize (Hpx (z mod st) (z / st)). unfold pixel, addressed in Hpx. cbn [bytes stride] in Hpx. fold st in Hpx.
  replace ((z / st * st + z mod st) * 4) with (4 * z) in Hpx by lia.
  assert (Heq : sub l1 (4 * z) 4 !! Z.to_nat (Z.of_nat i mod 4) = sub l2 (4 * z) 4 !! Z.to_nat (Z.of_nat i mod 4)) by (rewrite Hpx; [done|split; nia]).
  rewrite !lookup_sub, !decide_True in Heq by lia. replace (Z.to_nat (4 * z) + Z.to_nat (Z.of_nat i mod 4))%nat with i in Heq by lia. congruence.
Qed.

(** ** Properties *)

(** Filling a rectangle, which writes one chunk of pixels and copies it
    along the row and from row to row, is the same as writing every pixel of the
    rectangle; parts outside of the buffer are left out. *)
Theorem fill_rect_equals_pixels (fb : FrameBuffer) (a : Rect) (c : Color) :
  fb_ok fb -> rect_ok a -> exists fb', fill_rect fb a c = Some fb' /\ write_all fb (points a) c = Some fb'.
Proof.
  intros Hfb Ha. destruct (fill_rect_spec fb a c Hfb Ha) as (f1 & Hf1 & Hs1 & Hp1).
  destruct (write_all_spec c (points a) fb Hfb) as (f2 & Hf2 & Hs2 & Hp2). exists f1. split; [done|]. rewrite Hf2. f_equal.
  apply (fb_ext fb f2 f1 Hs2 Hs1). intros u v Had. rewrite Hp1, Hp2 by done.
  destruct (decide (inside fb u v /\ in_rect a u v)) as [Hc|Hc].
  - rewrite decide_True; [done|]. by rewrite elem_of_points.
  - rewrite decide_False; [done|]. by rewrite elem_of_points.
Qed.

(** [C33]. A blit never goes out of range: it copies exactly the pixels of the source
    that lie inside the buffer and leaves all others, the padding of the rows
    included; a pixel that was written reads back. *)
Theorem blit_clips (fb src : FrameBuffer) (x y : Z) :
  fb_ok fb -> fb_ok src -> - 2 ^ 29 <= x < 2 ^ 29 -> - 2 ^ 29 <= y < 2 ^ 29 ->
  exists fb', blit fb x y src = Some fb' /\ fb_ok fb' /\
    forall u v, 0 <= u < stride fb -> 0 <= v < height fb ->
      pixel fb' u v = if decide (inside fb u v /\ inside src (u - x) (v - y)) then pixel src (u - x) (v - y) else pixel fb u v.
Proof.
  intros Hfb Hsrc Hx Hy. destruct (blit_spec fb x y src Hfb Hsrc Hx Hy) as (fb' & Hb & [Hok _] & Hp). exists fb'. split; [done|]. split; [done|].
  intros u v Hu Hv. by apply Hp.
Qed.

(** ** Witnesses *)

Definition demo_fb : FrameBuffer := {| bytes := replicate 1600 7; width := 18; height := 20; stride := 20; format := Bgrx |}.

Lemma demo_fb_ok : fb_ok demo_fb.
Proof. unfold fb_ok, demo_fb. cbn [width height stride bytes]. rewrite length_replicate. lia. Qed.

Lemma fill_rect_equals_pixels_witness : exists fb',
  fill_rect demo_fb {| rx := -3; ry := 5; rw := 100; rh := 3 |} {| r := 1; g := 2; b := 3 |} = Some fb' /\ pixel fb' 17 7 = [3; 2; 1; 255].
Proof.
  destruct (fill_rect_equals_pixels demo_fb {| rx := -3; ry := 5; rw := 100; rh := 3 |} {| r := 1; g := 2; b := 3 |} demo_fb_ok) as (fb' & Hf & _);
    [unfold rect_ok; simpl; lia|].
  exists fb'. split; [exact Hf|]. vm_compute in Hf. injection Hf as <-. vm_compute. reflexivity.
Defined.

Lemma blit_clips_witness : exists fb', blit demo_fb 16 (-1) (VecBuffer_new 4 4 Rgbx) = Some fb' /\ pixel fb' 17 0 = [0; 0; 0; 0] /\ pixel fb' 18 0 = [7; 7; 7; 7].
Proof.
  destruct (blit_clips demo_fb (VecBuffer_new 4 4 Rgbx) 16 (-1) demo_fb_ok) as (fb' & Hb & _ & Hp); [unfold fb_ok; simpl; lia|lia|lia|].
  exists fb'. split; [exact Hb|]. rewrite !Hp by (simpl; lia). split; vm_compute; reflexivity.
Defined.
