(* ===== verification/TextBuffer.v ===== *)
(** * Text buffers (src/ors-kernel/src/graphics/text_buffer.rs and font.rs)

    A grid of characters that is rendered incrementally: every line has a buffer of
    its own and remembers which of its characters changed since they were drawn, and
    the text buffer remembers which lines to copy to the frame buffer. [None] and
    [Panic] stand for overflows, indices out of range and failed assertions. The
    outlines of the glyphs and the mixing of colors in floating point come from the
    class [GlyphSource]. *)

From stdpp Require Import gmap.
From S2P Require Import Prelude Graphics.
Local Open Scope Z_scope.
Local Open Scope rust_scope.

(** ** Fonts *)

Inductive FontStyle := Normal | Bold.

Definition is_bold (s : FontStyle) : bool := match s with Bold => true | Normal => false end.

(** [outline size style ch] is the position of the outlined glyph and the pixels it
    is drawn with, each with its coverage; [mix] is [Color::mix]. *)
Class GlyphSource := {
  coverage : Type;
  outline : Z -> FontStyle -> Z -> option ((Z * Z) * list ((Z * Z) * coverage));
  mix : Color -> Color -> coverage -> Color;
}.

Record CacheKey := { ch : Z; fg : Color; bg : Color; style : FontStyle }.

#[export] Instance font_style_eq_dec : EqDecision FontStyle.
Proof. solve_decision. Defined.

#[export] Instance format_eq_dec : EqDecision FrameBufferFormat.
Proof. solve_decision. Defined.

#[export] Instance cache_key_eq_dec : EqDecision CacheKey.
Proof. solve_decision. Defined.

Definition key_code (k : CacheKey) : Z * (Z * Z * Z) * (Z * Z * Z) * bool :=
  (ch k, (r (fg k), g (fg k), b (fg k)), (r (bg k), g (bg k), b (bg k)), is_bold (style k)).

Definition key_decode (c : Z * (Z * Z * Z) * (Z * Z * Z) * bool) : CacheKey :=
  let '(v, (r1, g1, b1), (r2, g2, b2), s) := c in
  {| ch := v; fg := {| r := r1; g := g1; b := b1 |}; bg := {| r := r2; g := g2; b := b2 |}; style := if s : bool then Bold else Normal |}.

Lemma key_decode_code k : key_decode (key_code k) = k.
Proof. by destruct k as [v [? ? ?] [? ? ?] []]. Qed.

#[export] Instance cache_key_countable : Countable CacheKey := inj_countable' key_code key_decode key_decode_code.

Record MonospaceFont := { size : Z; fformat : FrameBufferFormat; cache : gmap CacheKey FrameBuffer }.

Definition MonospaceFont_new (size : Z) (f : FrameBufferFormat) : MonospaceFont := {| size := size; fformat := f; cache := ∅ |}.

Definition unit_width (f : MonospaceFont) : Z := (size f + 1) / 2.
Definition unit_height (f : MonospaceFont) : Z := size f.

Section Font.
Context `{GS : GlyphSource}.

Fixpoint draw (mx my : Z) (fg bg : Color) (ps : list ((Z * Z) * coverage)) (buf : FrameBuffer) : option FrameBuffer :=
  match ps with
  | [] => Some buf
  | ((x, y), c) :: ps =>
      px ← i32 (mx + as_i32 x); py ← i32 (my + as_i32 y);
      '(_, buf) ← write_pixel buf px py (mix bg fg c);
      draw mx my fg bg ps buf
  end.

(** The closure of [or_insert_with] in [MonospaceFont::get]. *)
Definition rasterize (uw uh sz : Z) (f : FrameBufferFormat) (k : CacheKey) : option FrameBuffer :=
  buf ← clear (VecBuffer_new uw uh f) (bg k);
  match outline sz (style k) (ch k) with
  | Some ((mx, my), ps) => draw mx my (fg k) (bg k) ps buf
  | None => Some buf
  end.

Definition font_get (k : CacheKey) (f : MonospaceFont) : option (FrameBuffer * MonospaceFont) :=
  match cache f !! k with
  | Some buf => Some (buf, f)
  | None =>
      buf ← rasterize (unit_width f) (unit_height f) (size f) (fformat f) k;
      Some (buf, {| size := size f; fformat := fformat f; cache := <[k := buf]> (cache f) |})
  end.
End Font.

(** ** Characters *)

(** [Char] has the fields of a [CacheKey]. *)
Record Char := { value : Z; cfg : Color; cbg : Color; font_style : FontStyle }.

#[export] Instance char_eq_dec : EqDecision Char.
Proof. solve_decision. Defined.

Definition void : Char :=
  {| value := 0; cfg := {| r := 255; g := 255; b := 255 |}; cbg := {| r := 0; g := 0; b := 0 |}; font_style := Normal |}.

Definition Char_update (new_self c : Char) : bool * Char := if decide (c = new_self) then (false, c) else (true, new_self).

Definition Char_erase (bg : Color) (c : Char) : bool * Char :=
  Char_update {| value := 32; cfg := cfg c; cbg := bg; font_style := font_style c |} c.

Definition key_of (c : Char) : CacheKey := {| ch := value c; fg := cfg c; bg := cbg c; style := font_style c |}.

Definition render_to `{GlyphSource} (c : Char) (x y : Z) (buf : FrameBuffer) (f : MonospaceFont) : option (FrameBuffer * MonospaceFont) :=
  '(gl, f) ← font_get (key_of c) f;
  buf ← blit buf x y gl;
  Some (buf, f).

(** ** Rendering differences *)

Definition RenderDiff : Type := option (Z * Z).

Definition extend_render_diff (d : RenderDiff) (start end_ : Z) : RenderDiff :=
  match d with
  | None => Some (start, end_)
  | Some (a, b) => Some (Z.min a start, Z.max b end_)
  end.

(** ** Lines *)

Record Line := { chars : list Char; lbuf : FrameBuffer; ldiff : RenderDiff }.

Definition Line_new (parent : FrameBuffer) (f : MonospaceFont) : Line :=
  let w := width parent / unit_width f in
  {| chars := replicate (Z.to_nat w) void; lbuf := VecBuffer_new (w * unit_width f) (unit_height f) (format parent); ldiff := None |}.

Definition usize_max : Z := 2 ^ 64 - 1.

(** The loops of [erase], over characters and over lines: [f] on the elements
    [a <= i < b], with the range of those that changed. *)
Fixpoint erase_range {A} (f : A -> bool * A) (a b i start end_ : Z) (l : list A) : list A * (Z * Z) :=
  match l with
  | [] => ([], (start, end_))
  | c :: l =>
      if (a <=? i) && (i <? b) then
        let '(changed, c) := f c in
        let '(l, d) := if changed : bool then erase_range f a b (i + 1) (Z.min start i) (Z.max end_ (i + 1)) l
                       else erase_range f a b (i + 1) start end_ l in
        (c :: l, d)
      else let '(l, d) := erase_range f a b (i + 1) start end_ l in (c :: l, d)
  end.

Definition Line_erase (bg : Color) (a b : Z) (l : Line) : bool * Line :=
  let b := Z.min (b + 1) usize_max in
  let '(cs, (start, end_)) := erase_range (Char_erase bg) a b 0 usize_max 0 (chars l) in
  if start <? end_ then (true, {| chars := cs; lbuf := lbuf l; ldiff := extend_render_diff (ldiff l) start end_ |})
  else (false, {| chars := cs; lbuf := lbuf l; ldiff := ldiff l |}).

Inductive LinePutResult := LineFeed | Wrapping | Next (changed : bool) (x : Z).

Definition Line_put (new : Char) (i : Z) (l : Line) : LinePutResult * Line :=
  if value new =? 10 then (LineFeed, l)
  else match index (chars l) i with
       | None => (Wrapping, l)
       | Some c =>
           let '(changed, c) := Char_update new c in
           let cs := <[Z.to_nat i := c]> (chars l) in
           if changed : bool then (Next true (i + 1), {| chars := cs; lbuf := lbuf l; ldiff := extend_render_diff (ldiff l) i (i + 1) |})
           else (Next false (i + 1), {| chars := cs; lbuf := lbuf l; ldiff := ldiff l |})
       end.

Section Render.
Context `{GS : GlyphSource}.

Fixpoint render_chars (a b i : Z) (cs : list Char) (buf : FrameBuffer) (f : MonospaceFont) : option (FrameBuffer * MonospaceFont) :=
  match cs with
  | [] => Some (buf, f)
  | c :: cs =>
      '(buf, f) ← (if (a <=? i) && (i <? b) then render_to c (as_i32 (i * unit_width f)) 0 buf f else Some (buf, f));
      render_chars a b (i + 1) cs buf f
  end.

Definition Line_render (l : Line) (f : MonospaceFont) : option (Line * MonospaceFont) :=
  match ldiff l with
  | None => Some (l, f)
  | Some (a, b) =>
      '(buf, f) ← render_chars a b 0 (chars l) (lbuf l) f;
      Some ({| chars := chars l; lbuf := buf; ldiff := None |}, f)
  end.
End Render.

(** ** Text buffers *)

Record MonospaceTextBuffer := { lines : list Line; tbuf : FrameBuffer; tdiff : RenderDiff; font : MonospaceFont; cursor : Z * Z }.

Definition TM (A : Type) : Type := M MonospaceTextBuffer Empty_set A.

Definition with_cursor (c : Z * Z) (t : MonospaceTextBuffer) : MonospaceTextBuffer :=
  {| lines := lines t; tbuf := tbuf t; tdiff := tdiff t; font := font t; cursor := c |}.
Definition with_lines (ls : list Line) (d : RenderDiff) (t : MonospaceTextBuffer) : MonospaceTextBuffer :=
  {| lines := ls; tbuf := tbuf t; tdiff := d; font := font t; cursor := cursor t |}.

Definition TextBuffer_new (buf : FrameBuffer) (f : MonospaceFont) : option MonospaceTextBuffer :=
  if decide (format buf = fformat f) then
    if (unit_height f =? 0) || (unit_width f =? 0) then None
    else Some {| lines := replicate (Z.to_nat (height buf / unit_height f)) (Line_new buf f); tbuf := buf; tdiff := None; font := f; cursor := (0, 0) |}
  else None.

(** [Ord::clamp] asserts that its bounds are in order. *)
Definition clamp (z lo hi : Z) : option Z := if lo <=? hi then Some (Z.max lo (Z.min z hi)) else None.

Definition move_cursor (dx dy : Z) : TM unit :=
  t <- mget;;
  let '(x, y) := cursor t in
  y <- munwrap (i32 (as_i32 y + dy));;
  ymax <- munwrap (i32 (as_i32 (zlen (lines t)) - 1));;
  y <- munwrap (clamp y 0 ymax);;
  x <- munwrap (i32 (as_i32 x + dx));;
  l <- munwrap (index (lines t) y);;
  xmax <- munwrap (i32 (as_i32 (zlen (chars l)) - 1));;
  x <- munwrap (clamp x 0 xmax);;
  mput (with_cursor (x, y) t).

Definition set_cursor (x y : option Z) : TM unit :=
  t <- mget;;
  ymax <- munwrap (sub_checked 64 (zlen (lines t)) 1);;
  y <- munwrap (clamp (default (cursor t).2 y) 0 ymax);;
  l <- munwrap (index (lines t) y);;
  xmax <- munwrap (sub_checked 64 (zlen (chars l)) 1);;
  x <- munwrap (clamp (default (cursor t).1 x) 0 xmax);;
  mput (with_cursor (x, y) t).

Definition erase (bg : Color) (before_cursor_lines before_cursor_chars after_cursor_chars after_cursor_lines : bool) : TM unit :=
  t <- mget;;
  let '(x, y) := cursor t in
  let '(ls, (start, end_)) := if before_cursor_lines then erase_range (Line_erase bg 0 usize_max) 0 y 0 usize_max 0 (lines t) else (lines t, (usize_max, 0)) in
  l <- munwrap (index ls y);;
  let '(changed, l) := Line_erase bg (if before_cursor_chars then 0 else x) (if after_cursor_chars then usize_max else x) l in
  let ls := <[Z.to_nat y := l]> ls in
  let '(start, end_) := if changed : bool then (Z.min start y, Z.max end_ (y + 1)) else (start, end_) in
  let '(ls, (start, end_)) := if after_cursor_lines then erase_range (Line_erase bg 0 usize_max) (y + 1) usize_max 0 start end_ ls else (ls, (start, end_)) in
  mput (with_lines ls (if start <? end_ then extend_render_diff (tdiff t) start end_ else tdiff t) t).

Definition next_line (bg : Color) : TM unit :=
  t <- mget;;
  let '(_, y) := cursor t in
  if zlen (lines t) <=? y + 1 then
    match lines t with
    | [] => mpanic
    | first_line :: ls =>
        let '(_, first_line) := Line_erase bg 0 usize_max first_line in
        let ls := ls ++ [first_line] in
        mput (with_cursor (0, zlen ls - 1) (with_lines ls (Some (0, zlen ls)) t))
    end
  else mput (with_cursor (0, y + 1) t).

(** A character that does not fit is put again on the next line: the fuel is the
    number of attempts. *)
Fixpoint put_fuel (fuel : nat) (c : Char) : TM unit :=
  match fuel with
  | O => mdiverge
  | S fuel =>
      t <- mget;;
      let '(x, y) := cursor t in
      l <- munwrap (index (lines t) y);;
      match Line_put c x l with
      | (LineFeed, _) => next_line (cbg c)
      | (Wrapping, _) => next_line (cbg c);;; put_fuel fuel c
      | (Next changed x, l) =>
          mput (with_cursor (x, y) (with_lines (<[Z.to_nat y := l]> (lines t)) (if changed : bool then extend_render_diff (tdiff t) y (y + 1) else tdiff t) t))
      end
  end.

Definition put : Char -> TM unit := put_fuel 2.

Section RenderLines.
Context `{GS : GlyphSource}.

(** The body of the loop over the lines. *)
Definition render_line (pad_y i : Z) (l : Line) (buf : FrameBuffer) (f : MonospaceFont) : option (Line * (FrameBuffer * MonospaceFont)) :=
  '(l, f) ← Line_render l f;
  pad_x ← sub_checked 64 (width buf) (zlen (chars l) * unit_width f);
  let ofs_y := as_i32 (i * unit_height f) in
  y ← i32 (Z.quot (as_i32 pad_y) 2 + ofs_y);
  buf ← blit buf (Z.quot (as_i32 pad_x) 2) y (lbuf l);
  Some (l, (buf, f)).

Fixpoint render_lines (a b pad_y i : Z) (ls : list Line) (buf : FrameBuffer) (f : MonospaceFont) : option (list Line * (FrameBuffer * MonospaceFont)) :=
  match ls with
  | [] => Some ([], (buf, f))
  | l :: ls =>
      '(l, (buf, f)) ← (if (a <=? i) && (i <? b) then render_line pad_y i l buf f else Some (l, (buf, f)));
      '(ls, d) ← render_lines a b pad_y (i + 1) ls buf f;
      Some (l :: ls, d)
  end.

Definition render : TM unit :=
  t <- mget;;
  match tdiff t with
  | None => ret tt
  | Some (a, b) =>
      pad_y <- munwrap (sub_checked 64 (height (tbuf t)) (zlen (lines t) * unit_height (font t)));;
      b <- munwrap (d ← sub_checked 64 b a; Some (a + d));;
      '(ls, (buf, f)) <- munwrap (render_lines a b pad_y 0 (lines t) (tbuf t) (font t));;
      mput {| lines := ls; tbuf := buf; tdiff := None; font := f; cursor := cursor t |}
  end.
End RenderLines.

(** ** Specification

    What the operations do to the grid of characters, and what a frame buffer shows
    of it. *)

(** The outlines of a font are in the range of pixel coordinates. *)
Definition glyphs_fit `{GlyphSource} (sz : Z) : Prop := forall st c mx my ps, outline sz st c = Some ((mx, my), ps) ->
  - 2 ^ 30 <= mx < 2 ^ 30 /\ - 2 ^ 30 <= my < 2 ^ 30 /\ Forall (fun p => 0 <= p.1.1 < 2 ^ 30 /\ 0 <= p.1.2 < 2 ^ 30) ps.

Record Terminal := { cell : Z -> Z -> Char; pos : Z * Z }.

Section Terminal.
Variables W H : Z.

Definition blank (bg : Color) (c : Char) : Char := {| value := 32; cfg := cfg c; cbg := bg; font_style := font_style c |}.

Definition term_next_line (bg : Color) (t : Terminal) : Terminal :=
  let '(_, y) := pos t in
  if y + 1 <? H then {| cell := cell t; pos := (0, y + 1) |}
  else {| cell := fun i j => if i =? H - 1 then blank bg (cell t 0 j) else cell t (i + 1) j; pos := (0, H - 1) |}.

Definition term_put (c : Char) (t : Terminal) : Terminal :=
  if value c =? 10 then term_next_line (cbg c) t
  else
    let t := if (pos t).1 <? W then t else term_next_line (cbg c) t in
    let '(x, y) := pos t in
    {| cell := fun i j => if (i =? y) && (j =? x) then c else cell t i j; pos := (x + 1, y) |}.

(** The cells before the cursor's line, before the cursor, at it, after it and after
    its line. *)
Definition erased (before_lines before_chars after_chars after_lines : bool) (x y i j : Z) : bool :=
  if i <? y then before_lines
  else if y <? i then after_lines
  else if j <? x then before_chars
  else if x <? j then after_chars
  else true.

Definition term_erase (bg : Color) (bl bc ac al : bool) (t : Terminal) : Terminal :=
  let '(x, y) := pos t in
  {| cell := fun i j => if erased bl bc ac al x y i j then blank bg (cell t i j) else cell t i j; pos := pos t |}.

Definition within (n z : Z) : Z := Z.max 0 (Z.min z (n - 1)).

Definition term_move (dx dy : Z) (t : Terminal) : Terminal :=
  {| cell := cell t; pos := (within W ((pos t).1 + dx), within H ((pos t).2 + dy)) |}.

Definition term_set (x y : option Z) (t : Terminal) : Terminal :=
  {| cell := cell t; pos := (within W (default (pos t).1 x), within H (default (pos t).2 y)) |}.
End Terminal.

Definition term_new : Terminal := {| cell := fun _ _ => void; pos := (0, 0) |}.

(** The operations of a text buffer. *)
Inductive Op := OPut (c : Char) | OErase (bg : Color) (bl bc ac al : bool) | ONextLine (bg : Color) | OMove (dx dy : Z) | OSet (x y : option Z) | ORender.

Definition op_ok (o : Op) : Prop :=
  match o with
  | OMove dx dy => - 2 ^ 31 <= dx < 2 ^ 30 /\ - 2 ^ 31 <= dy < 2 ^ 30
  | OSet x y => (forall n, x = Some n -> 0 <= n) /\ (forall n, y = Some n -> 0 <= n)
  | _ => True
  end.

Definition op_run `{GlyphSource} (o : Op) : TM unit :=
  match o with
  | OPut c => put c
  | OErase bg bl bc ac al => erase bg bl bc ac al
  | ONextLine bg => next_line bg
  | OMove dx dy => move_cursor dx dy
  | OSet x y => set_cursor x y
  | ORender => render
  end.

Fixpoint ops_run `{GlyphSource} (os : list Op) : TM unit :=
  match os with [] => ret tt | o :: os => op_run o;;; ops_run os end.

Definition term_op (W H : Z) (o : Op) (t : Terminal) : Terminal :=
  match o with
  | OPut c => term_put W H c t
  | OErase bg bl bc ac al => term_erase bg bl bc ac al t
  | ONextLine bg => term_next_line H bg t
  | OMove dx dy => term_move W H dx dy t
  | OSet x y => term_set W H x y t
  | ORender => t
  end.

Definition term_ops (W H : Z) (os : list Op) (t : Terminal) : Terminal := foldl (fun t o => term_op W H o t) t os.

(** ** Invariant *)

Section Invariant.
Context `{GS : GlyphSource}.
(** The size of the font, the numbers of columns and lines, and the frame buffer
    before anything was rendered. *)
Variables (sz W H : Z) (fb0 : FrameBuffer).

Definition uw : Z := (sz + 1) / 2.

Definition glyph (c : Char) : FrameBuffer := default (VecBuffer_new 0 0 Rgbx) (rasterize uw sz sz (format fb0) (key_of c)).

Definition font_ok (f : MonospaceFont) : Prop :=
  size f = sz /\ fformat f = format fb0 /\ forall k gl, cache f !! k = Some gl -> rasterize uw sz sz (format fb0) k = Some gl.

(** The pixels [px] of a cell are those of the glyph of [c]. *)
Definition shows (px : Z -> Z -> list Z) (c : Char) : Prop :=
  forall u v, 0 <= u < uw -> 0 <= v < sz -> px u v = pixel (glyph c) u v.

Definition cell_px (lb : FrameBuffer) (j u v : Z) : list Z := pixel lb (j * uw + u) v.

Definition cell_ok (px : Z -> Z -> list Z) (c : Char) : Prop :=
  shows px c \/ (c = void /\ forall u v, 0 <= u < uw -> 0 <= v < sz -> px u v = [0; 0; 0; 0]).

Definition in_diff (d : RenderDiff) (i : Z) : Prop := match d with None => False | Some (a, b) => a <= i < b end.
Definition diff_ok (n : Z) (d : RenderDiff) : Prop := match d with None => True | Some (a, b) => 0 <= a <= b /\ b <= n end.

Definition lbuf_ok (lb : FrameBuffer) : Prop := fb_ok lb /\ width lb = W * uw /\ height lb = sz.

Record line_ok (l : Line) : Prop := {
  line_len : zlen (chars l) = W;
  line_buf : lbuf_ok (lbuf l);
  line_diff : diff_ok W (ldiff l);
  line_cells : forall (j : nat) c, chars l !! j = Some c -> in_diff (ldiff l) (Z.of_nat j) \/ cell_ok (cell_px (lbuf l) (Z.of_nat j)) c;
}.

Definition ox : Z := (width fb0 - W * uw) / 2.
Definition oy : Z := (height fb0 - H * sz) / 2.

Definition line_px (fb : FrameBuffer) (i u v : Z) : list Z := pixel fb (ox + u) (oy + i * sz + v).

Definition line_shown (fb : FrameBuffer) (i : Z) (l : Line) : Prop :=
  (forall u v, 0 <= u < W * uw -> 0 <= v < sz -> line_px fb i u v = pixel (lbuf l) u v) \/
  (Forall (eq void) (chars l) /\ forall u v, 0 <= u < W * uw -> 0 <= v < sz -> line_px fb i u v = line_px fb0 i u v).

Definition in_grid (u v : Z) : Prop := ox <= u < ox + W * uw /\ oy <= v < oy + H * sz.

Record tb_ok (t : MonospaceTextBuffer) : Prop := {
  tb_len : zlen (lines t) = H;
  tb_lines : Forall line_ok (lines t);
  tb_shape : same_shape fb0 (tbuf t);
  tb_font : font_ok (font t);
  tb_diff : diff_ok H (tdiff t);
  tb_cursor : 0 <= (cursor t).1 <= W /\ 0 <= (cursor t).2 < H;
  tb_outside : forall u v, addressed fb0 u v -> ~ in_grid u v -> pixel (tbuf t) u v = pixel fb0 u v;
  tb_shown : forall (i : nat) l, lines t !! i = Some l -> in_diff (tdiff t) (Z.of_nat i) \/ (ldiff l = None /\ line_shown (tbuf t) (Z.of_nat i) l);
}.

(** The text buffer holds the characters and the cursor of the terminal. *)
Record tb_rep (t : MonospaceTextBuffer) (s : Terminal) : Prop := {
  rep_cells : forall (i j : nat) l c, lines t !! i = Some l -> chars l !! j = Some c -> c = cell s (Z.of_nat i) (Z.of_nat j);
  rep_pos : cursor t = pos s;
}.

(** The frame buffer shows the terminal: the glyph of every character; cells that
    were never written show nothing or what was there before. *)
Definition displays (fb : FrameBuffer) (s : Terminal) : Prop := forall i j, 0 <= i < H -> 0 <= j < W ->
  shows (fun u v => line_px fb i (j * uw + u) v) (cell s i j) \/
  (cell s i j = void /\ forall u v, 0 <= u < uw -> 0 <= v < sz ->
     line_px fb i (j * uw + u) v = [0; 0; 0; 0] \/ line_px fb i (j * uw + u) v = line_px fb0 i (j * uw + u) v).
End Invariant.

(** ** Lemmas: fonts *)

Section FontLemmas.
Context `{GS : GlyphSource}.
Variables (sz : Z) (fb0 : FrameBuffer).
Hypothesis Hsz : 0 < sz < 2 ^ 29.
Hypothesis Hfit : glyphs_fit sz.

Lemma uw_range : 0 < uw sz <= sz.
Proof using Hsz. unfold uw. clear Hfit. split; [apply Z.div_str_pos; lia|]. apply Z.div_le_upper_bound; lia. Qed.

Lemma vec_buffer_ok w h f : 0 <= w < 2 ^ 30 -> 0 <= h < 2 ^ 30 -> fb_ok (VecBuffer_new w h f).
Proof. intros. unfold fb_ok. cbn [VecBuffer_new width height stride bytes]. rewrite length_replicate. nia. Qed.

Lemma draw_spec mx my f bk ps : - 2 ^ 30 <= mx < 2 ^ 30 -> - 2 ^ 30 <= my < 2 ^ 30 -> forall buf, fb_ok buf ->
  Forall (fun p => 0 <= p.1.1 < 2 ^ 30 /\ 0 <= p.1.2 < 2 ^ 30) ps -> exists buf', draw mx my f bk ps buf = Some buf' /\ same_shape buf buf'.
Proof.
  intros Hx Hy. induction ps as [|[[x y] c] ps IH]; intros buf Hb Hps; cbn [draw].
  - exists buf. split; [done|by split].
  - apply Forall_cons in Hps as [[Hpx Hpy] Hps]. cbn [fst snd] in *. rewrite (as_i32_small x), (as_i32_small y) by lia. rewrite !i32_ok by lia. cbn [mbind option_bind].
    destruct (write_pixel_spec buf (mx + x) (my + y) (mix bk f c) Hb) as (b1 & -> & Hb1 & Hw & Hh & Hs & Hf & _). cbn [mbind option_bind].
    destruct (IH b1 Hb1 Hps) as (b2 & -> & Hs2). exists b2. split; [done|]. by eapply same_shape_trans; [split|].
Qed.

Lemma rasterize_spec k : exists gl, rasterize (uw sz) sz sz (format fb0) k = Some gl /\ fb_ok gl /\ width gl = uw sz /\ height gl = sz.
Proof using Hsz Hfit.
  pose proof uw_range. unfold rasterize, clear.
  pose proof (vec_buffer_ok (uw sz) sz (format fb0) ltac:(lia) ltac:(lia)) as Hv.
  destruct (fill_rect_spec _ (rect (VecBuffer_new (uw sz) sz (format fb0))) (bg k) Hv (rect_of_ok _ Hv)) as (b1 & -> & Hs1 & _). cbn [mbind option_bind].
  destruct (outline sz (style k) (ch k)) as [[[mx my] ps]|] eqn:Ho.
  - destruct (Hfit _ _ _ _ _ Ho) as (Hmx & Hmy & Hps).
    destruct (draw_spec mx my (fg k) (bg k) ps Hmx Hmy b1 (proj1 Hs1) Hps) as (b2 & -> & Hs2). exists b2. split; [done|].
    destruct (same_shape_trans _ _ _ Hs1 Hs2) as (Hok & Hw & Hh & _). by rewrite Hw, Hh.
  - exists b1. split; [done|]. destruct Hs1 as (Hok & Hw & Hh & _). by rewrite Hw, Hh.
Qed.

Lemma glyph_rasterize c : rasterize (uw sz) sz sz (format fb0) (key_of c) = Some (glyph sz fb0 c).
Proof using Hsz Hfit. destruct (rasterize_spec (key_of c)) as (gl & E & _). unfold glyph. by rewrite E. Qed.

Lemma glyph_ok c : fb_ok (glyph sz fb0 c) /\ width (glyph sz fb0 c) = uw sz /\ height (glyph sz fb0 c) = sz.
Proof using Hsz Hfit. destruct (rasterize_spec (key_of c)) as (gl & E & Hgl). rewrite glyph_rasterize in E. by injection E as <-. Qed.

Lemma font_get_spec c f : font_ok sz fb0 f -> exists f', font_get (key_of c) f = Some (glyph sz fb0 c, f') /\ font_ok sz fb0 f'.
Proof using Hsz Hfit.
  intros (Hs & Hf & Hc). unfold font_get. destruct (cache f !! key_of c) as [gl|] eqn:Hk.
  - apply Hc in Hk. rewrite glyph_rasterize in Hk. injection Hk as <-. by exists f.
  - unfold unit_width, unit_height. rewrite Hs, Hf. fold (uw sz). rewrite glyph_rasterize. cbn [mbind option_bind]. eexists. split; [done|].
    split; [done|]. split; [done|]. cbn [cache]. intros k gl. rewrite lookup_insert_Some. intros [[<- <-]|[_ ?]]; [apply glyph_rasterize|by apply Hc].
Qed.
End FontLemmas.

(** ** Lemmas: lines *)

Lemma extend_diff_ok n d a e : diff_ok n d -> 0 <= a <= e -> e <= n -> diff_ok n (extend_render_diff d a e).
Proof. destruct d as [[p q]|]; simpl; lia. Qed.

Lemma in_diff_extend d a e i : in_diff d i \/ a <= i < e -> in_diff (extend_render_diff d a e) i.
Proof. destruct d as [[p q]|]; simpl; lia. Qed.

Lemma Char_erase_blank bk c : Char_erase bk c = (negb (bool_decide (c = blank bk c)), blank bk c).
Proof. unfold Char_erase, Char_update, blank. destruct (decide _) as [E|Hne]; [rewrite bool_decide_true by done; by rewrite <- E|by rewrite bool_decide_false]. Qed.

(** The elements of a range are replaced; those that change are in the range that is
    returned. *)
Lemma erase_range_spec {A} (f : A -> bool * A) a e l : (forall x, (f x).1 = false -> (f x).2 = x) -> forall i start end_, 0 <= i ->
  exists l' s' e', erase_range f a e i start end_ l = (l', (s', e')) /\ length l' = length l /\
    (s' = start /\ e' = end_ \/ s' <= start /\ end_ <= e' /\ s' < e' /\ Z.min start i <= s' /\ e' <= Z.max end_ (i + zlen l)) /\
    forall (j : nat) x, l !! j = Some x -> let q := i + Z.of_nat j in
      l' !! j = Some (if bool_decide (a <= q < e) then (f x).2 else x) /\ (bool_decide (a <= q < e) = true -> (f x).1 = true -> s' <= q < e').
Proof.
  intros Hf. induction l as [|x l IH]; intros i start end_ Hi; cbn [erase_range].
  { exists [], start, end_. split; [done|]. split; [done|]. split; [by left|]. intros j x Hj. by rewrite lookup_nil in Hj. }
  assert (Hstep : exists y s1 e1, erase_range f a e i start end_ (x :: l) = (let '(l', d) := erase_range f a e (i + 1) s1 e1 l in (y :: l', d)) /\
    y = (if bool_decide (a <= i < e) then (f x).2 else x) /\
    ((bool_decide (a <= i < e) = true -> (f x).1 = false) /\ s1 = start /\ e1 = end_ \/ s1 = Z.min start i /\ e1 = Z.max end_ (i + 1))).
  { cbn [erase_range]. case_bool_decide as Hin.
    - replace ((a <=? i) && (i <? e)) with true by lia. destruct (f x) as [[|] y]; eexists _, _, _; (split; [reflexivity|]); (split; [done|]); [by right|by left].
    - replace ((a <=? i) && (i <? e)) with false by lia. exists x, start, end_. split; [done|]. split; [done|]. by left. }
  destruct Hstep as (y & s1 & e1 & E & -> & Hd1). cbn [erase_range] in E. rewrite E. clear E.
  destruct (IH (i + 1) s1 e1) as (l' & s' & e' & -> & Hl & Hd & Hc); [lia|]. eexists _, s', e'. split; [reflexivity|]. split; [simpl; lia|]. split; [simpl; lia|].
  intros [|j] x0 Hj; cbn [lookup list_lookup] in *; cbv zeta in *.
  - injection Hj as <-. replace (i + Z.of_nat 0) with i by lia. split; [done|]. intros Hb Hch. destruct Hd1 as [[Hff _]|Hd1]; [rewrite Hff in Hch by done; done|lia].
  - specialize (Hc j x0 Hj). replace (i + Z.of_nat (S j)) with (i + 1 + Z.of_nat j) by lia. exact Hc.
Qed.

Lemma erase_range_same {A} (f : A -> bool * A) a e i start end_ l l' s' e' : (forall x, (f x).1 = false -> (f x).2 = x) -> 0 <= i ->
  erase_range f a e i start end_ l = (l', (s', e')) -> e' <= s' -> l' = l.
Proof.
  intros Hf Hi He Hse. destruct (erase_range_spec f a e l Hf i start end_ Hi) as (l1 & s1 & e1 & E & Hl & _ & Hc). rewrite He in E. injection E as <- <- <-.
  apply list_eq_same_length with (length l); [done|done|]. intros j x y Hj Hx Hy. destruct (Hc j y Hy) as [Hx' Hch]. rewrite Hx in Hx'. injection Hx' as ->.
  destruct (bool_decide _) eqn:Hb; [|done]. destruct (f y).1 eqn:Hy1; [specialize (Hch eq_refl eq_refl); lia|by apply Hf].
Qed.

Section LineLemmas.
Context `{GS : GlyphSource}.
Variables (sz W : Z) (fb0 : FrameBuffer).
Hypothesis Hsz : 0 < sz < 2 ^ 29.
Hypothesis Hfit : glyphs_fit sz.
Hypothesis HW : 0 < W * uw sz < 2 ^ 29.

Lemma W_range : 0 < W < 2 ^ 29.
Proof using Hsz HW. pose proof (uw_range sz Hsz). nia. Qed.

Lemma Char_erase_same bk c : (Char_erase bk c).1 = false -> (Char_erase bk c).2 = c.
Proof. rewrite Char_erase_blank. cbn [fst snd]. case_bool_decide; done. Qed.

Lemma Line_erase_spec bk a e l : line_ok sz W fb0 l -> 0 <= a -> exists ch l', Line_erase bk a e l = (ch, l') /\ line_ok sz W fb0 l' /\
  lbuf l' = lbuf l /\ (ch = false -> l' = l) /\
  forall (j : nat) c, chars l !! j = Some c -> chars l' !! j = Some (if bool_decide (a <= Z.of_nat j <= e) then blank bk c else c).
Proof using Hsz HW.
  pose proof W_range as HWr. intros [Hlen Hbuf Hdiff Hcells] Ha. unfold Line_erase. set (e1 := Z.min (e + 1) usize_max).
  destruct (erase_range_spec (Char_erase bk) a e1 (chars l) (Char_erase_same bk) 0 usize_max 0) as (cs & s' & e' & E & Hl & Hd & Hc); [lia|]. rewrite E.
  assert (Hcs : forall (j : nat) c, chars l !! j = Some c -> cs !! j = Some (if bool_decide (a <= Z.of_nat j <= e) then blank bk c else c)).
  { intros j c Hj. destruct (Hc j c Hj) as [-> _]. apply lookup_lt_Some in Hj. f_equal. rewrite Char_erase_blank. cbn [snd].
    apply (f_equal (fun b : bool => if b then _ else _)). apply bool_decide_ext. unfold e1, usize_max. lia. }
  destruct (s' <? e') eqn:Hse.
  - eexists true, _. split; [reflexivity|]. split; [|done]. split; cbn [chars lbuf ldiff]; [lia|done|apply extend_diff_ok; [done|unfold usize_max in *; lia|lia]|].
    intros j c' Hj. destruct (lookup_lt_is_Some_2 (chars l) j) as [c Hjc]; [apply lookup_lt_Some in Hj; lia|].
    destruct (Hc j c Hjc) as [Hj' Hch]. rewrite Hj in Hj'. injection Hj' as ->. destruct (bool_decide _) eqn:Hb.
    + destruct (Char_erase bk c).1 eqn:Hch1; [left; apply in_diff_extend; right; by apply Hch|]. rewrite Char_erase_same by done.
      destruct (Hcells j c Hjc) as [?|?]; [left; apply in_diff_extend; by left|by right].
    + destruct (Hcells j c Hjc) as [?|?]; [left; apply in_diff_extend; by left|by right].
  - apply (erase_range_same _ _ _ _ _ _ _ _ _ _ (Char_erase_same bk)) in E as E'; [|lia|lia]. subst cs. eexists false, _. split; [reflexivity|]. by destruct l.
Qed.

Lemma Line_put_spec c i l : line_ok sz W fb0 l -> 0 <= i < W -> value c <> 10 -> exists ch l', Line_put c i l = (Next ch (i + 1), l') /\ line_ok sz W fb0 l' /\
  lbuf l' = lbuf l /\ (ch = false -> l' = l) /\ chars l' = <[Z.to_nat i := c]> (chars l).
Proof using Type.
  intros [Hlen Hbuf Hdiff Hcells] Hi Hc. unfold Line_put. replace (value c =? 10) with false by lia.
  destruct (index_is_Some (chars l) i) as [c0 Hc0]; [lia|]. rewrite Hc0. rewrite index_lookup in Hc0 by lia. unfold Char_update. destruct (decide (c0 = c)) as [->|Hne].
  - eexists false, _. split; [reflexivity|]. rewrite list_insert_id by done. by destruct l.
  - eexists true, _. split; [reflexivity|]. split; [|done]. split; cbn [chars lbuf ldiff]; [len|done|apply extend_diff_ok; [done|lia|lia]|].
    intros j c' Hj. apply list_lookup_insert_Some in Hj as [(<- & -> & _)|(Hne' & Hj)]; [left; apply in_diff_extend; right; lia|].
    destruct (Hcells j c' Hj) as [?|?]; [left; apply in_diff_extend; by left|by right].
Qed.
End LineLemmas.

(** ** Lemmas: rendering *)

Section RenderLemmas.
Context `{GS : GlyphSource}.
Variables (sz W : Z) (fb0 : FrameBuffer).
Hypothesis Hsz : 0 < sz < 2 ^ 29.
Hypothesis Hfit : glyphs_fit sz.
Hypothesis HW : 0 < W * uw sz < 2 ^ 29.
Local Abbreviation font_ok := (font_ok sz fb0).
Local Abbreviation line_ok := (line_ok sz W fb0).

(** Rendering a character draws its cell and leaves the others. *)
Lemma render_to_spec c i lb f : lbuf_ok sz W lb -> font_ok f -> 0 <= i < W -> exists lb' f',
  render_to c (as_i32 (i * unit_width f)) 0 lb f = Some (lb', f') /\ lbuf_ok sz W lb' /\ font_ok f' /\ shows sz fb0 (cell_px sz lb' i) c /\
  forall j u v, 0 <= j < W -> j <> i -> 0 <= u < uw sz -> 0 <= v < sz -> cell_px sz lb' j u v = cell_px sz lb j u v.
Proof using Hsz Hfit HW.
  pose proof (uw_range sz Hsz) as Huw. intros (Hfb & Hw & Hh) Hf Hi. unfold render_to. destruct (font_get_spec sz fb0 Hsz Hfit c f Hf) as (f' & -> & Hf'). cbn [mbind option_bind].
  destruct (glyph_ok sz fb0 Hsz Hfit c) as (Hg & Hgw & Hgh). assert (0 <= i * uw sz < 2 ^ 29) by nia.
  replace (unit_width f) with (uw sz) by (unfold unit_width, uw; by rewrite (proj1 Hf)). rewrite as_i32_small by lia.
  destruct (blit_spec lb (i * uw sz) 0 (glyph sz fb0 c) Hfb Hg) as (lb' & -> & Hs & Hpx); [lia|lia|]. cbn [mbind option_bind]. exists lb', f'. split; [done|].
  assert (Had : forall j u v, 0 <= j < W -> 0 <= u < uw sz -> 0 <= v < sz -> inside lb (j * uw sz + u) v /\ addressed lb (j * uw sz + u) v).
  { intros j u v Hj Hu Hv. assert (Hin : inside lb (j * uw sz + u) v) by (unfold inside; nia). split; [done|]. by apply inside_addressed. }
  split; [unfold lbuf_ok; destruct Hs as (? & -> & -> & _); done|]. split; [done|]. split.
  - intros u v Hu Hv. destruct (Had i u v Hi Hu Hv) as [Hin Ha]. unfold cell_px. rewrite Hpx by done. rewrite decide_True; [f_equal; lia|]. split; [done|]. unfold inside. lia.
  - intros j u v Hj Hne Hu Hv. destruct (Had j u v Hj Hu Hv) as [Hin Ha]. unfold cell_px. rewrite Hpx by done. rewrite decide_False; [done|]. unfold inside. intros [_ ?]. nia.
Qed.

Lemma render_chars_spec a e cs : forall i lb f, lbuf_ok sz W lb -> font_ok f -> 0 <= i -> i + zlen cs <= W -> exists lb' f',
  render_chars a e i cs lb f = Some (lb', f') /\ lbuf_ok sz W lb' /\ font_ok f' /\
  (forall (k : nat) c, cs !! k = Some c -> a <= i + Z.of_nat k < e -> shows sz fb0 (cell_px sz lb' (i + Z.of_nat k)) c) /\
  (forall j u v, 0 <= j < W -> ~ (i <= j < i + zlen cs /\ a <= j < e) -> 0 <= u < uw sz -> 0 <= v < sz -> cell_px sz lb' j u v = cell_px sz lb j u v).
Proof using Hsz Hfit HW.
  induction cs as [|c cs IH]; intros i lb f Hlb Hf Hi Hlen; cbn [render_chars].
  { exists lb, f. do 3 (split; [done|]). split; [|done]. intros k c Hk. by rewrite lookup_nil in Hk. }
  cbn [length] in *.
  assert (Hstep : exists lb1 f1, (if (a <=? i) && (i <? e) then render_to c (as_i32 (i * unit_width f)) 0 lb f else Some (lb, f)) = Some (lb1, f1) /\
    lbuf_ok sz W lb1 /\ font_ok f1 /\ (a <= i < e -> shows sz fb0 (cell_px sz lb1 i) c) /\
    forall j u v, 0 <= j < W -> ~ (j = i /\ a <= i < e) -> 0 <= u < uw sz -> 0 <= v < sz -> cell_px sz lb1 j u v = cell_px sz lb j u v).
  { destruct ((a <=? i) && (i <? e)) eqn:Hin.
    - destruct (render_to_spec c i lb f Hlb Hf) as (lb1 & f1 & -> & Hl1 & Hf1 & Hs & Ho); [lia|]. exists lb1, f1. do 4 (split; [done|]). intros j u v Hj Hne. apply Ho; [done|lia].
    - exists lb, f. do 3 (split; [done|]). split; [lia|done]. }
  destruct Hstep as (lb1 & f1 & -> & Hl1 & Hf1 & Hs1 & Ho1). cbn [mbind option_bind].
  destruct (IH (i + 1) lb1 f1 Hl1 Hf1) as (lb2 & f2 & -> & Hl2 & Hf2 & Hs2 & Ho2); [lia|lia|]. exists lb2, f2. do 3 (split; [done|]). split.
  - intros [|k] c' Hk Hr; cbn [lookup list_lookup] in Hk.
    + injection Hk as <-. replace (i + Z.of_nat 0) with i in * by lia. intros u v Hu Hv. rewrite Ho2 by lia. by apply Hs1.
    + replace (i + Z.of_nat (S k)) with (i + 1 + Z.of_nat k) in * by lia. by apply Hs2.
  - intros j u v Hj Hn Hu Hv. rewrite Ho2 by lia. apply Ho1; lia.
Qed.

Lemma Line_render_spec l f : line_ok l -> font_ok f -> exists l' f', Line_render l f = Some (l', f') /\ line_ok l' /\ font_ok f' /\ chars l' = chars l /\ ldiff l' = None.
Proof using Hsz Hfit HW.
  intros [Hlen Hbuf Hdiff Hcells] Hf. unfold Line_render. destruct (ldiff l) as [[a e]|] eqn:Hd.
  - destruct (render_chars_spec a e (chars l) 0 (lbuf l) f Hbuf Hf) as (lb & f' & -> & Hlb & Hf' & Hs & Ho); [lia|lia|]. cbn [mbind option_bind].
    eexists _, f'. split; [reflexivity|]. split; [|done]. split; cbn [chars lbuf ldiff]; [done|done|done|]. intros j c Hj. right.
    pose proof (lookup_lt_Some _ _ _ Hj). destruct (decide (a <= Z.of_nat j < e)) as [Hr|Hr].
    + left. by apply (Hs j c Hj).
    + destruct (Hcells j c Hj) as [?|[Hsh|[-> Hz]]]; [done| |].
      * left. intros u v Hu Hv. rewrite Ho by lia. by apply Hsh.
      * right. split; [done|]. intros u v Hu Hv. rewrite Ho by lia. by apply Hz.
  - exists l, f. split; [done|]. split; [by split; rewrite ?Hd|]. done.
Qed.
End RenderLemmas.

Section GridLemmas.
Context `{GS : GlyphSource}.
Variables (sz W H : Z) (fb0 : FrameBuffer).
Hypothesis Hsz : 0 < sz < 2 ^ 29.
Hypothesis Hfit : glyphs_fit sz.
Hypothesis Hfb0 : fb_ok fb0.
Hypothesis Hdim : width fb0 < 2 ^ 29 /\ height fb0 < 2 ^ 29.
Hypothesis HW : 0 < W /\ W * uw sz <= width fb0.
Hypothesis HH : 0 < H /\ H * sz <= height fb0.
Local Abbreviation font_ok := (font_ok sz fb0).
Local Abbreviation line_ok := (line_ok sz W fb0).
Local Abbreviation lpx := (line_px sz W H fb0).
Local Abbreviation grid := (in_grid sz W H fb0).
Local Abbreviation gox := (ox sz W fb0).
Local Abbreviation goy := (oy sz H fb0).
Local Abbreviation tb_ok := (tb_ok sz W H fb0).

Lemma grid_range : 0 < uw sz /\ 0 < W * uw sz < 2 ^ 29 /\ 0 < W < 2 ^ 29 /\ 0 < H < 2 ^ 29 /\ 0 <= gox /\ gox + W * uw sz <= width fb0 /\ 0 <= goy /\ goy + H * sz <= height fb0.
Proof using Hsz Hdim HW HH.
  pose proof (uw_range sz Hsz). unfold ox, oy.
  pose proof (Z.mul_div_le (width fb0 - W * uw sz) 2 ltac:(lia)). pose proof (Z.mul_div_le (height fb0 - H * sz) 2 ltac:(lia)).
  assert (0 <= (width fb0 - W * uw sz) / 2) by (apply Z.div_pos; lia). assert (0 <= (height fb0 - H * sz) / 2) by (apply Z.div_pos; lia). nia.
Qed.

Lemma grid_line_range : 0 < W * uw sz < 2 ^ 29.
Proof using Hsz Hdim HW HH. by destruct grid_range as (_ & ? & _). Qed.

Lemma line_px_inside i u v : 0 <= i < H -> 0 <= u < W * uw sz -> 0 <= v < sz -> inside fb0 (gox + u) (goy + i * sz + v).
Proof using Hsz Hdim HW HH. pose proof grid_range. intros Hi Hu Hv. unfold inside. assert (0 <= i * sz /\ i * sz + sz <= H * sz) by nia. lia. Qed.

Lemma render_line_spec i l buf f : line_ok l -> font_ok f -> same_shape fb0 buf -> 0 <= i < H -> exists l' buf' f',
  render_line (height fb0 - H * sz) i l buf f = Some (l', (buf', f')) /\ line_ok l' /\ font_ok f' /\ same_shape fb0 buf' /\ chars l' = chars l /\ ldiff l' = None /\
  (forall u v, 0 <= u < W * uw sz -> 0 <= v < sz -> lpx buf' i u v = pixel (lbuf l') u v) /\
  (forall u v, addressed fb0 u v -> ~ (gox <= u < gox + W * uw sz /\ goy + i * sz <= v < goy + i * sz + sz) -> pixel buf' u v = pixel buf u v).
Proof using Hsz Hfit Hfb0 Hdim HW HH.
  pose proof grid_range as (Huw & HWu & HWr & HHr & Hox & Hoxw & Hoy & Hoyh). intros Hl Hf Hs Hi. unfold render_line.
  destruct (Line_render_spec sz W fb0 Hsz Hfit HWu l f Hl Hf) as (l' & f' & -> & Hl' & Hf' & Hch & Hd). cbn [mbind option_bind].
  pose proof Hs as (Hok & Ew & Eh & Es & _). destruct Hl' as [Hlen (Hlb & Hlw & Hlh) Hld Hlc] eqn:El.
  replace (unit_width f') with (uw sz) by (unfold unit_width, uw; by rewrite (proj1 Hf')). replace (unit_height f') with sz by (unfold unit_height; by rewrite (proj1 Hf')).
  rewrite Hlen, Ew. unfold sub_checked. rewrite checked_Some by (unfold unsigned; lia). cbn [mbind option_bind].
  assert (0 <= i * sz /\ i * sz + sz <= H * sz) by nia. rewrite (as_i32_small (i * sz)), (as_i32_small (height fb0 - H * sz)), (as_i32_small (width fb0 - W * uw sz)) by lia.
  rewrite !Z.quot_div_nonneg by lia. fold (ox sz W fb0) (oy sz H fb0). rewrite i32_ok by lia. cbn [mbind option_bind].
  destruct (blit_spec buf gox (goy + i * sz) (lbuf l') Hok Hlb) as (buf' & -> & Hs' & Hpx); [lia|lia|]. cbn [mbind option_bind].
  exists l', buf', f'. split; [done|]. split; [done|]. split; [done|]. split; [by eapply same_shape_trans|]. split; [done|]. split; [done|].
  assert (Hin : forall u v, inside buf u v <-> inside fb0 u v) by (intros; unfold inside; by rewrite Ew, Eh).
  assert (Had : forall u v, addressed buf u v <-> addressed fb0 u v) by (intros; by apply addressed_shape). split.
  - intros u v Hu Hv. pose proof (line_px_inside i u v Hi Hu Hv) as Hins. unfold line_px. rewrite Hpx by (apply Had; by apply inside_addressed).
    rewrite decide_True; [f_equal; lia|]. split; [by apply Hin|]. unfold inside. lia.
  - intros u v Ha Hn. rewrite Hpx by by apply Had. rewrite decide_False; [done|]. intros [_ Hi2]. unfold inside in Hi2. apply Hn. lia.
Qed.
Lemma render_lines_spec a e ls : forall i buf f, Forall line_ok ls -> font_ok f -> same_shape fb0 buf -> 0 <= i -> i + zlen ls <= H -> exists ls' buf' f',
  render_lines a e (height fb0 - H * sz) i ls buf f = Some (ls', (buf', f')) /\ font_ok f' /\ same_shape fb0 buf' /\
  Forall2 (fun l l' => line_ok l' /\ chars l' = chars l) ls ls' /\
  (forall (k : nat) l', ls' !! k = Some l' -> a <= i + Z.of_nat k < e -> ldiff l' = None /\
     forall u v, 0 <= u < W * uw sz -> 0 <= v < sz -> lpx buf' (i + Z.of_nat k) u v = pixel (lbuf l') u v) /\
  (forall k : nat, ~ (a <= i + Z.of_nat k < e) -> ls' !! k = ls !! k) /\
  (forall u v, addressed fb0 u v -> (forall k, i <= k < i + zlen ls -> a <= k < e -> ~ (gox <= u < gox + W * uw sz /\ goy + k * sz <= v < goy + k * sz + sz)) -> pixel buf' u v = pixel buf u v).
Proof using Hsz Hfit Hfb0 Hdim HW HH.
  induction ls as [|l ls IH]; intros i buf f Hls Hf Hs Hi Hlen; cbn [render_lines].
  { exists [], buf, f. split; [done|]. split; [done|]. split; [done|]. split; [constructor|]. split; [by intros k l' Hk; rewrite lookup_nil in Hk|]. done. }
  apply Forall_cons in Hls as [Hl Hls]. cbn [length] in *.
  assert (Hstep : exists l1 b1 f1, (if (a <=? i) && (i <? e) then render_line (height fb0 - H * sz) i l buf f else Some (l, (buf, f))) = Some (l1, (b1, f1)) /\
    line_ok l1 /\ font_ok f1 /\ same_shape fb0 b1 /\ chars l1 = chars l /\ (a <= i < e -> ldiff l1 = None /\ forall u v, 0 <= u < W * uw sz -> 0 <= v < sz -> lpx b1 i u v = pixel (lbuf l1) u v) /\
    (~ (a <= i < e) -> l1 = l) /\
    (forall u v, addressed fb0 u v -> (a <= i < e -> ~ (gox <= u < gox + W * uw sz /\ goy + i * sz <= v < goy + i * sz + sz)) -> pixel b1 u v = pixel buf u v)).
  { destruct ((a <=? i) && (i <? e)) eqn:Hin.
    - destruct (render_line_spec i l buf f Hl Hf Hs) as (l1 & b1 & f1 & -> & Hl1 & Hf1 & Hs1 & Hc1 & Hd1 & Hp1 & Ho1); [lia|].
      exists l1, b1, f1. do 5 (split; [done|]). split; [done|]. split; [lia|]. intros u v Ha Hn. apply Ho1; [done|]. apply Hn. lia.
    - exists l, buf, f. do 5 (split; [done|]). split; [lia|]. by split. }
  destruct Hstep as (l1 & b1 & f1 & -> & Hl1 & Hf1 & Hs1 & Hc1 & Hr1 & Hn1 & Ho1). cbn [mbind option_bind].
  destruct (IH (i + 1) b1 f1 Hls Hf1 Hs1) as (ls2 & b2 & f2 & -> & Hf2 & Hs2 & Hall & Hr2 & Hn2 & Ho2); [lia|lia|]. cbn [mbind option_bind].
  exists (l1 :: ls2), b2, f2. do 3 (split; [done|]). split; [by constructor|]. split.
  - intros [|k] l' Hk Hr; cbn [lookup list_lookup] in Hk.
    + injection Hk as <-. replace (i + Z.of_nat 0) with i in * by lia. destruct (Hr1 Hr) as [Hd Hp]. split; [done|]. intros u v Hu Hv. rewrite <- Hp by done.
      unfold line_px. apply Ho2; [apply inside_addressed; [done|]; apply line_px_inside; [lia|done|done]|]. intros k Hk _ [_ ?]. nia.
    + replace (i + Z.of_nat (S k)) with (i + 1 + Z.of_nat k) in * by lia. by apply Hr2.
  - split.
    + intros [|k] Hk; cbn [lookup list_lookup]; [by rewrite Hn1 by lia|apply Hn2; lia].
    + intros u v Ha Hn. rewrite Ho2; [|done|intros k Hk; apply Hn; lia]. apply Ho1; [done|]. apply Hn. lia.
Qed.

(** Rendering brings every line to the frame buffer. *)
Lemma render_spec t s : tb_ok t -> tb_rep t s -> runs render t (fun _ t' => tb_ok t' /\ tb_rep t' s /\ tdiff t' = None).
Proof using Hsz Hfit Hfb0 Hdim HW HH.
  intros Ht Hrep. pose proof Ht as [Hlen Hlines Hs Hfont Hdiff Hcur Hout Hshown]. pose proof Hs as (_ & Ew & Eh & _). unfold render.
  apply runs_Ok. unfold mget, mbnd. destruct (tdiff t) as [[a e]|] eqn:Hd; [|by eexists _, t].
  cbn [diff_ok] in Hdiff. pose proof grid_range as Hgr. unfold unit_height. rewrite Hlen, (proj1 Hfont), Eh. unfold sub_checked.
  rewrite checked_Some by (unfold unsigned; lia). cbn [munwrap ret mbind option_bind]. rewrite checked_Some by (unfold unsigned; lia). cbn [munwrap ret mbind option_bind].
  replace (a + (e - a)) with e by lia.
  destruct (render_lines_spec a e (lines t) 0 (tbuf t) (font t) Hlines Hfont Hs) as (ls' & b' & f' & E & Hf' & Hs' & Hall & Hr & Hn & Ho); [lia|lia|]. rewrite E. cbn [munwrap ret].
  eexists _, _. split; [reflexivity|]. pose proof (Forall2_length _ _ _ Hall) as Hl. split; [|split; [|done]].
  - split; cbn [lines tbuf tdiff font cursor]; try done; [lia| | |].
    + apply Forall_lookup. intros k l' Hk. destruct (Forall2_lookup_r _ _ _ _ _ Hall Hk) as (l & _ & ? & _). done.
    + intros u v Ha Hg. rewrite Ho; [by apply Hout|done|]. intros k Hk _ [? ?]. apply Hg. split; [done|]. assert (k * sz + sz <= H * sz) by nia. nia.
    + intros k l' Hk. right. destruct (decide (a <= Z.of_nat k < e)) as [Hin|Hin].
      * destruct (Hr k l' Hk Hin) as [? ?]. split; [done|]. by left.
      * rewrite Hn in Hk by done. destruct (Hshown k l' Hk) as [?|[? Hsh]]; [done|]. split; [done|].
        assert (Hsame : forall u v, 0 <= u < W * uw sz -> 0 <= v < sz -> lpx b' (Z.of_nat k) u v = lpx (tbuf t) (Z.of_nat k) u v).
        { intros u v Hu Hv. pose proof (lookup_lt_Some _ _ _ Hk). apply Ho; [apply inside_addressed; [done|]; apply line_px_inside; [lia|done|done]|]. intros k' Hk' Hr' [_ ?]. nia. }
        destruct Hsh as [Hsh|[? Hsh]]; [left|right; split; [done|]]; intros u v Hu Hv; rewrite Hsame by done; by apply Hsh.
  - destruct Hrep as [Hcell Hpos]. split; cbn [lines cursor]; [|done]. intros k j l' c Hk Hj. destruct (Forall2_lookup_r _ _ _ _ _ Hall Hk) as (l & Hl' & _ & Hch).
    rewrite Hch in Hj. by apply (Hcell k j l c).
Qed.

(** Lines and the cursor change; lines that differ from before are to be rendered. *)
Lemma tb_update t ls d c : tb_ok t -> zlen ls = H -> Forall line_ok ls -> diff_ok H d -> 0 <= c.1 <= W /\ 0 <= c.2 < H ->
  (forall i, in_diff (tdiff t) i -> in_diff d i) -> (forall (i : nat) l, ls !! i = Some l -> in_diff d (Z.of_nat i) \/ lines t !! i = Some l) ->
  tb_ok (with_cursor c (with_lines ls d t)).
Proof using Type.
  intros [Hlen Hlines Hs Hfont Hdiff Hcur Hout Hshown] ? ? ? ? Hd Hch. split; cbn [with_cursor with_lines lines tbuf tdiff font cursor]; try done.
  intros i l Hl. destruct (Hch i l Hl) as [?|Hl']; [by left|]. destruct (Hshown i l Hl') as [?|?]; [left; by apply Hd|by right].
Qed.

Lemma tb_cursor_update t c : tb_ok t -> 0 <= c.1 <= W /\ 0 <= c.2 < H -> tb_ok (with_cursor c t).
Proof using Type. intros [Hlen Hlines Hs Hfont Hdiff Hcur Hout Hshown] ?. by split. Qed.

Lemma line_at t y : tb_ok t -> 0 <= y < H -> exists l, index (lines t) y = Some l /\ lines t !! Z.to_nat y = Some l /\ line_ok l.
Proof using Type.
  intros Ht Hy. destruct (index_is_Some (lines t) y) as [l Hl]; [rewrite (tb_len _ _ _ _ _ Ht); lia|]. exists l. split; [done|]. rewrite index_lookup in Hl by lia. split; [done|].
  by eapply Forall_lookup_1; [apply (tb_lines _ _ _ _ _ Ht)|].
Qed.

Lemma clamp_within n z : 0 < n -> clamp z 0 (n - 1) = Some (within n z).
Proof. intros. unfold clamp, within. by replace (0 <=? n - 1) with true by lia. Qed.

Lemma within_range n z : 0 < n -> 0 <= within n z < n.
Proof. unfold within. lia. Qed.

Lemma tb_rep_cursor t s x y s' : tb_rep t s -> pos s' = (x, y) -> cell s' = cell s -> tb_rep (with_cursor (x, y) t) s'.
Proof. intros [Hc Hp] Hpos Hcell. split; [|done]. rewrite Hcell. exact Hc. Qed.

Lemma move_cursor_spec dx dy t s : tb_ok t -> tb_rep t s -> op_ok (OMove dx dy) ->
  runs (move_cursor dx dy) t (fun _ t' => tb_ok t' /\ tb_rep t' (term_move W H dx dy s)).
Proof using Hsz Hdim HW HH.
  intros Ht Hrep [Hdx Hdy]. pose proof grid_range as Hg. pose proof (tb_cursor _ _ _ _ _ Ht) as Hcur. pose proof (tb_len _ _ _ _ _ Ht) as Hlen. unfold move_cursor.
  apply runs_Ok. unfold mget, mbnd. destruct (cursor t) as [x y] eqn:Hc. cbn [fst snd] in Hcur. rewrite (as_i32_small y), Hlen, (as_i32_small H), (as_i32_small x) by lia.
  rewrite (i32_ok (y + dy)), (i32_ok (H - 1)) by lia. cbn [munwrap ret]. rewrite clamp_within by lia. cbn [munwrap ret]. rewrite i32_ok by lia. cbn [munwrap ret].
  destruct (line_at t (within H (y + dy)) Ht) as (l & -> & _ & Hl); [apply within_range; lia|]. cbn [munwrap ret].
  rewrite (line_len _ _ _ _ Hl), as_i32_small, i32_ok by lia. cbn [munwrap ret]. rewrite clamp_within by lia. cbn [munwrap ret]. eexists _, _. split; [reflexivity|].
  pose proof (within_range W (x + dx)). pose proof (within_range H (y + dy)). split; [apply tb_cursor_update; [done|simpl; lia]|].
  eapply tb_rep_cursor; [done| |done]. cbn [term_move pos]. rewrite <- (rep_pos _ _ Hrep), Hc. done.
Qed.

Lemma set_cursor_spec px py t s : tb_ok t -> tb_rep t s -> runs (set_cursor px py) t (fun _ t' => tb_ok t' /\ tb_rep t' (term_set W H px py s)).
Proof using Hsz Hdim HW HH.
  intros Ht Hrep. pose proof grid_range as Hg. pose proof (tb_len _ _ _ _ _ Ht) as Hlen. unfold set_cursor.
  apply runs_Ok. unfold mget, mbnd. unfold sub_checked. rewrite Hlen, checked_Some by (unfold unsigned; lia). cbn [munwrap ret]. rewrite clamp_within by lia. cbn [munwrap ret].
  destruct (line_at t (within H (default (cursor t).2 py)) Ht) as (l & -> & _ & Hl); [apply within_range; lia|]. cbn [munwrap ret].
  rewrite (line_len _ _ _ _ Hl), checked_Some by (unfold unsigned; lia). cbn [munwrap ret]. rewrite clamp_within by lia. cbn [munwrap ret]. eexists _, _. split; [reflexivity|].
  pose proof (within_range W (default (cursor t).1 px)). pose proof (within_range H (default (cursor t).2 py)). split; [apply tb_cursor_update; [done|simpl; lia]|].
  eapply tb_rep_cursor; [done| |done]. cbn [term_set pos]. by rewrite <- (rep_pos _ _ Hrep).
Qed.

Lemma next_line_spec bk t s : tb_ok t -> tb_rep t s -> runs (next_line bk) t (fun _ t' => tb_ok t' /\ tb_rep t' (term_next_line H bk s) /\ (cursor t').1 = 0).
Proof using Hsz Hdim HW HH.
  intros Ht Hrep. pose proof grid_range as Hg. pose proof (tb_cursor _ _ _ _ _ Ht) as Hcur. pose proof (tb_len _ _ _ _ _ Ht) as Hlen. unfold next_line, term_next_line.
  rewrite <- (rep_pos _ _ Hrep). apply runs_Ok. unfold mget, mbnd. destruct (cursor t) as [x y] eqn:Hc. cbn [fst snd] in Hcur. rewrite Hlen. destruct (y + 1 <? H) eqn:Hy.
  - replace (H <=? y + 1) with false by lia. eexists _, _. split; [reflexivity|]. split; [apply tb_cursor_update; [done|simpl; lia]|]. split; [by eapply tb_rep_cursor|done].
  - replace (H <=? y + 1) with true by lia. pose proof (tb_lines _ _ _ _ _ Ht) as Hlines. destruct (lines t) as [|l0 ls] eqn:Hls; [simpl in Hlen; lia|]. apply Forall_cons in Hlines as [Hl0 Hrest].
    destruct (Line_erase_spec sz W fb0 Hsz grid_line_range bk 0 usize_max l0 Hl0) as (ch & l1 & -> & Hl1 & _ & _ & Hch); [lia|].
    cbn [length] in Hlen. assert (Hz : zlen (ls ++ [l1]) = H) by (rewrite length_app; simpl; lia). rewrite Hz. eexists _, _. split; [reflexivity|].
    split; [|split; [|done]].
    + apply tb_update; [done|done|apply Forall_app; by rewrite Forall_singleton|simpl; lia|simpl; lia| |].
      * pose proof (tb_diff _ _ _ _ _ Ht). destruct (tdiff t) as [[a e]|]; simpl in *; [lia|done].
      * intros i l Hi. left. apply lookup_lt_Some in Hi. simpl. lia.
    + destruct Hrep as [Hcell _]. rewrite Hls in Hcell. split; cbn [with_cursor with_lines lines cursor cell pos]; [|done]. intros i j l c Hi Hj.
      apply lookup_app_Some in Hi as [Hi|[Hge Hi]].
      * pose proof (lookup_lt_Some _ _ _ Hi). replace (Z.of_nat i =? H - 1) with false by lia. rewrite (Hcell (S i) j l c); [f_equal; lia|done|done].
      * apply list_lookup_singleton_Some in Hi as [Hi <-]. replace (Z.of_nat i =? H - 1) with true by lia.
        destruct (lookup_lt_is_Some_2 (chars l0) j) as [c0 Hc0]; [apply lookup_lt_Some in Hj; pose proof (line_len _ _ _ _ Hl0); pose proof (line_len _ _ _ _ Hl1); lia|].
        rewrite (Hch j c0 Hc0) in Hj. rewrite bool_decide_true in Hj; [|apply lookup_lt_Some in Hc0; pose proof (line_len _ _ _ _ Hl0); unfold usize_max; lia]. injection Hj as <-.
        by rewrite (Hcell O j l0 c0).
Qed.

(** Putting a character on the line of the cursor. *)
Lemma put_here fuel c t s : tb_ok t -> tb_rep t s -> value c <> 10 -> (cursor t).1 < W ->
  runs (put_fuel (S fuel) c) t (fun _ t' => tb_ok t' /\ tb_rep t' (term_put W H c s)).
Proof using Hsz Hdim HW HH.
  intros Ht Hrep Hv Hx. pose proof grid_range as Hg. pose proof (tb_cursor _ _ _ _ _ Ht) as Hcur. pose proof (tb_len _ _ _ _ _ Ht) as Hlen. cbn [put_fuel].
  apply runs_Ok. unfold mget, mbnd. destruct Hrep as [Hcell Hpos]. unfold term_put. rewrite <- Hpos. destruct (cursor t) as [x y] eqn:Hc. cbn [fst snd] in *.
  replace (value c =? 10) with false by lia. replace (x <? W) with true by lia. rewrite <- Hpos.
  destruct (line_at t y Ht) as (l & -> & Hly & Hl); [lia|]. cbn [munwrap ret].
  destruct (Line_put_spec sz W fb0 c x l Hl) as (ch & l' & -> & Hl' & _ & Hsame & Hch); [lia|done|]. eexists _, _. split; [reflexivity|]. split.
  - apply tb_update; [done|rewrite length_insert; lia|apply Forall_insert; [apply (tb_lines _ _ _ _ _ Ht)|done]| |simpl; lia| |].
    + destruct ch; [|apply (tb_diff _ _ _ _ _ Ht)]. apply extend_diff_ok; [apply (tb_diff _ _ _ _ _ Ht)|lia|lia].
    + intros i Hi. destruct ch; [apply in_diff_extend; by left|done].
    + intros i l0 Hi. apply list_lookup_insert_Some in Hi as [(<- & -> & _)|[_ Hi]]; [|by right]. destruct ch; [left; apply in_diff_extend; right; lia|]. right. by rewrite Hsame.
  - split; cbn [with_cursor with_lines lines cursor cell pos]; [|done]. intros i j l0 c0 Hi Hj. apply list_lookup_insert_Some in Hi as [(<- & <- & Hlt)|[Hne Hi]].
    + rewrite Hch in Hj. apply list_lookup_insert_Some in Hj as [(<- & <- & _)|[Hne Hj]].
      * by rewrite !Z2Nat.id, !Z.eqb_refl by lia.
      * replace ((Z.of_nat (Z.to_nat y) =? y) && (Z.of_nat j =? x)) with false by lia. by apply (Hcell (Z.to_nat y) j l).
    + replace ((Z.of_nat i =? y) && (Z.of_nat j =? x)) with false by lia. by apply (Hcell i j l0).
Qed.

Lemma put_spec c t s : tb_ok t -> tb_rep t s -> runs (put c) t (fun _ t' => tb_ok t' /\ tb_rep t' (term_put W H c s)).
Proof using Hsz Hdim HW HH.
  intros Ht Hrep. unfold put. pose proof grid_range as Hg. destruct (decide (value c <> 10 /\ (cursor t).1 < W)) as [[Hv Hx]|Hn]; [by apply put_here|].
  pose proof (tb_cursor _ _ _ _ _ Ht) as Hcur. destruct (line_at t (cursor t).2 Ht) as (l & Hl & _ & Hlo); [lia|].
  pose proof (next_line_spec (cbg c) t s Ht Hrep) as (u & t1 & E & Ht1 & Hr1 & Hc1)%runs_Ok. pose proof (rep_pos _ _ Hrep) as Hp.
  assert (Hstep : put_fuel 2 c t = (if value c =? 10 then next_line (cbg c) else next_line (cbg c);;; put_fuel 1 c) t).
  { cbn [put_fuel]. unfold mget, mbnd at 1. destruct (cursor t) as [x y]. cbn [fst snd] in *. unfold mbnd at 1. rewrite Hl. cbn [munwrap ret]. unfold Line_put.
    destruct (value c =? 10) eqn:Hv; [done|]. destruct (index (chars l) x) eqn:Hi; [|done]. apply index_Some_lt in Hi. rewrite (line_len _ _ _ _ Hlo) in Hi. lia. }
  eapply runs_eq; [exact Hstep|]. unfold term_put. destruct (value c =? 10) eqn:Hv; [apply runs_Ok; exists u, t1; by split; [|split]|].
  rewrite <- Hp. replace ((cursor t).1 <? W) with false by lia. apply runs_Ok. unfold mbnd. rewrite E.
  pose proof (put_here 0 c t1 _ Ht1 Hr1 ltac:(lia) ltac:(lia)) as (u2 & t2 & -> & Ht2 & Hr2)%runs_Ok. eexists _, _. split; [done|]. split; [done|].
  unfold term_put in Hr2. rewrite Hv, <- (rep_pos _ _ Hr1), Hc1 in Hr2. replace (0 <? W) with true in Hr2 by lia. exact Hr2.
Qed.

(** [ls'] is [ls] with the characters at the positions [P] blank; the lines that
    differ are in the range from [p] to [q]. *)
Definition blanked (bk : Color) (P : Z -> Z -> bool) (p q : Z) (ls ls' : list Line) : Prop :=
  length ls' = length ls /\ forall (i : nat) l, ls !! i = Some l -> exists l', ls' !! i = Some l' /\ line_ok l' /\ (l' = l \/ p <= Z.of_nat i < q) /\
    forall (j : nat) c, chars l !! j = Some c -> chars l' !! j = Some (if P (Z.of_nat i) (Z.of_nat j) then blank bk c else c).

Lemma blanked_trans bk P1 P2 P p1 q1 p2 q2 ls ls1 ls2 : blanked bk P1 p1 q1 ls ls1 -> blanked bk P2 p2 q2 ls1 ls2 -> p2 <= p1 -> q1 <= q2 ->
  (forall i j, P1 i j || P2 i j = P i j) -> blanked bk P p2 q2 ls ls2.
Proof using Type.
  intros [Hl1 H1] [Hl2 H2] Hp Hq HP. split; [lia|]. intros i l Hi. destruct (H1 i l Hi) as (l1 & Hi1 & _ & Hd1 & Hc1). destruct (H2 i l1 Hi1) as (l2 & Hi2 & Hok2 & Hd2 & Hc2).
  exists l2. split; [done|]. split; [done|]. split; [destruct Hd1 as [->|?]; [destruct Hd2 as [->|?]; [by left|by right]|right; lia]|].
  intros j c Hj. rewrite (Hc2 j _ (Hc1 j c Hj)), <- HP. by destruct (P1 _ _), (P2 _ _).
Qed.

Lemma blanked_refl bk p q ls : Forall line_ok ls -> blanked bk (fun _ _ => false) p q ls ls.
Proof using Type. intros Hls. split; [done|]. intros i l Hi. exists l. split; [done|]. split; [by eapply Forall_lookup_1|]. split; [by left|done]. Qed.

Lemma blanked_ok bk P p q ls ls' : blanked bk P p q ls ls' -> Forall line_ok ls'.
Proof using Type.
  intros [Hlen Hb]. apply Forall_lookup. intros i l' Hi. destruct (lookup_lt_is_Some_2 ls i) as [l Hl]; [apply lookup_lt_Some in Hi; lia|].
  destruct (Hb i l Hl) as (l1 & Hi' & ? & _). by simplify_eq.
Qed.

(** The range of changed lines so far. *)
Definition span_ok (p q : Z) : Prop := p = usize_max /\ q = 0 \/ 0 <= p < q /\ q <= H.

Lemma Line_erase_pure bk a e l : (Line_erase bk a e l).1 = false -> (Line_erase bk a e l).2 = l.
Proof using Type.
  unfold Line_erase. destruct (erase_range _ _ _ _ _ _ _) as [cs [s' e']] eqn:E. destruct (s' <? e') eqn:Hse; [done|]. intros _. cbn [snd].
  apply erase_range_same in E; [|apply Char_erase_same|lia|lia]. subst. by destruct l.
Qed.

Lemma erase_lines_blanked (on : bool) bk a e p q ls : Forall line_ok ls -> zlen ls = H -> span_ok p q -> exists ls' p' q',
  (if on then erase_range (Line_erase bk 0 usize_max) a e 0 p q ls else (ls, (p, q))) = (ls', (p', q')) /\
  span_ok p' q' /\ p' <= p /\ q <= q' /\ blanked bk (fun i _ => on && bool_decide (a <= i < e)) p' q' ls ls'.
Proof using Hsz Hdim HW HH.
  intros Hls Hlen Hpq. pose proof grid_range as Hg. destruct on; [|exists ls, p, q; split; [done|]; split; [done|]; split; [lia|]; split; [lia|by apply blanked_refl]].
  destruct (erase_range_spec (Line_erase bk 0 usize_max) a e ls (Line_erase_pure bk 0 usize_max) 0 p q) as (ls' & p' & q' & -> & Hl & Hd & Hc); [lia|].
  exists ls', p', q'. split; [done|]. split; [unfold span_ok, usize_max in *; lia|]. split; [lia|]. split; [lia|]. split; [done|].
  intros i l Hi. destruct (Hc i l Hi) as [Hi' Hch]. rewrite Z.add_0_l in Hi', Hch. eexists. split; [exact Hi'|]. assert (Hlo : line_ok l) by by eapply Forall_lookup_1.
  destruct (Line_erase_spec sz W fb0 Hsz grid_line_range bk 0 usize_max l Hlo) as (ch & l' & E & Hl' & _ & Hs & Hcs); [lia|]. rewrite E in Hch |- *. cbn [fst snd andb] in *.
  destruct (bool_decide _) eqn:Hb; [|by auto]. split; [done|]. split; [destruct ch; [right; by apply Hch|left; by apply Hs]|].
  intros j c Hj. rewrite (Hcs j c Hj). rewrite bool_decide_true; [done|]. apply lookup_lt_Some in Hj. pose proof (line_len _ _ _ _ Hlo). unfold usize_max. lia.
Qed.

Lemma erase_line_blanked bk a e y l p q ls : Forall line_ok ls -> zlen ls = H -> span_ok p q -> 0 <= y < H -> 0 <= a -> ls !! Z.to_nat y = Some l -> exists ch l' p' q',
  Line_erase bk a e l = (ch, l') /\ (if ch : bool then (Z.min p y, Z.max q (y + 1)) else (p, q)) = (p', q') /\ span_ok p' q' /\ p' <= p /\ q <= q' /\
  blanked bk (fun i j => (i =? y) && bool_decide (a <= j <= e)) p' q' ls (<[Z.to_nat y := l']> ls).
Proof using Hsz Hdim HW HH.
  intros Hls Hlen Hpq Hy Ha Hl. pose proof grid_range as Hg. assert (Hlo : line_ok l) by by eapply Forall_lookup_1.
  destruct (Line_erase_spec sz W fb0 Hsz grid_line_range bk a e l Hlo Ha) as (ch & l' & -> & Hl' & _ & Hs & Hcs).
  exists ch, l', (if ch then Z.min p y else p), (if ch then Z.max q (y + 1) else q). split; [done|]. split; [by destruct ch|].
  split; [unfold span_ok, usize_max in *; destruct ch; lia|]. split; [destruct ch; lia|]. split; [destruct ch; lia|]. split; [by rewrite length_insert|].
  intros i l0 Hi. destruct (decide (i = Z.to_nat y)) as [->|Hne].
  - simplify_eq. exists l'. rewrite list_lookup_insert_eq by (by eapply lookup_lt_Some). split; [done|]. split; [done|].
    split; [destruct ch; [right; lia|left; by apply Hs]|]. intros j c Hj. rewrite (Hcs j c Hj). by rewrite Z2Nat.id, Z.eqb_refl by lia.
  - exists l0. rewrite list_lookup_insert_ne by done. split; [done|]. split; [by eapply Forall_lookup_1|]. split; [by left|]. intros j c Hj. by replace (Z.of_nat i =? y) with false by lia.
Qed.

Lemma erased_ranges (bl bc ac al : bool) x y i j : 0 <= i < usize_max -> 0 <= j <= usize_max ->
  ((bl && bool_decide (0 <= i < y)) || ((i =? y) && bool_decide ((if bc then 0 else x) <= j <= (if ac then usize_max else x)))) || (al && bool_decide (y + 1 <= i < usize_max)) =
  erased bl bc ac al x y i j.
Proof.
  intros Hi Hj. unfold erased. destruct (i <? y) eqn:E1; [|destruct (y <? i) eqn:E2].
  - rewrite (bool_decide_true (0 <= i < y)), (bool_decide_false (y + 1 <= i < usize_max)) by lia. replace (i =? y) with false by lia. by destruct bl, al.
  - rewrite (bool_decide_false (0 <= i < y)), (bool_decide_true (y + 1 <= i < usize_max)) by lia. replace (i =? y) with false by lia. by destruct bl, al.
  - rewrite (bool_decide_false (0 <= i < y)), (bool_decide_false (y + 1 <= i < usize_max)) by lia. replace (i =? y) with true by lia. rewrite !andb_false_r, orb_false_r. cbn [andb orb].
    destruct bc, ac, (j <? x) eqn:E3, (x <? j) eqn:E4; ((rewrite bool_decide_true by lia) || (rewrite bool_decide_false by lia)); done || lia.
Qed.

Lemma erase_spec bk bl bc ac al t s : tb_ok t -> tb_rep t s -> runs (erase bk bl bc ac al) t (fun _ t' => tb_ok t' /\ tb_rep t' (term_erase bk bl bc ac al s)).
Proof using Hsz Hdim HW HH.
  intros Ht Hrep. pose proof grid_range as Hg. pose proof (tb_cursor _ _ _ _ _ Ht) as Hcur. pose proof (tb_len _ _ _ _ _ Ht) as Hlen. unfold erase, term_erase.
  destruct Hrep as [Hcell Hpos]. rewrite <- Hpos. apply runs_Ok. unfold mget, mbnd. destruct (cursor t) as [x y] eqn:Hc. cbn [fst snd] in Hcur.
  destruct (erase_lines_blanked bl bk 0 y usize_max 0 (lines t) (tb_lines _ _ _ _ _ Ht) Hlen) as (ls1 & p1 & q1 & -> & Hs1 & Hp1 & Hq1 & Hb1); [by left|].
  pose proof (blanked_ok _ _ _ _ _ _ Hb1) as Hok1. assert (Hl1 : zlen ls1 = H) by (destruct Hb1; lia).
  destruct (index_is_Some ls1 y) as [l Hl]; [lia|]. rewrite Hl. rewrite index_lookup in Hl by lia. cbn [munwrap ret].
  destruct (erase_line_blanked bk (if bc then 0 else x) (if ac then usize_max else x) y l p1 q1 ls1 Hok1 Hl1 Hs1) as (ch & l' & p2 & q2 & -> & -> & Hs2 & Hp2 & Hq2 & Hb2); [lia|destruct bc; lia|done|].
  pose proof (blanked_ok _ _ _ _ _ _ Hb2) as Hok2. set (ls2 := <[Z.to_nat y := l']> ls1) in *. assert (Hl2 : zlen ls2 = H) by (destruct Hb2; lia).
  destruct (erase_lines_blanked al bk (y + 1) usize_max p2 q2 ls2 Hok2 Hl2 Hs2) as (ls3 & p3 & q3 & -> & Hs3 & Hp3 & Hq3 & Hb3).
  eexists _, _. split; [reflexivity|].
  pose proof (blanked_trans _ _ _ _ _ _ _ _ _ _ _ (blanked_trans _ _ _ _ _ _ _ _ _ _ _ Hb1 Hb2 Hp2 Hq2 (fun _ _ => eq_refl)) Hb3 Hp3 Hq3 (fun _ _ => eq_refl)) as Hb. cbv beta in Hb.
  pose proof (tb_diff _ _ _ _ _ Ht) as Hdf. set (d := if p3 <? q3 then _ else _). assert (Hd : d = tdiff t /\ q3 <= p3 \/ d = extend_render_diff (tdiff t) p3 q3 /\ p3 < q3) by (subst d; destruct (p3 <? q3) eqn:?; [right|left]; split; [done|lia|done|lia]).
  clearbody d. split.
  - replace (with_lines ls3 d t) with (with_cursor (x, y) (with_lines ls3 d t)) by (unfold with_cursor, with_lines; simpl; by rewrite Hc).
    apply tb_update; [done|destruct Hb as [-> _]; done|by apply blanked_ok in Hb3| |simpl; lia| |].
    + destruct Hd as [[-> _]|[-> ?]]; [done|]. unfold span_ok, usize_max in Hs3. apply extend_diff_ok; [done|lia|lia].
    + intros i Hi. destruct Hd as [[-> _]|[-> ?]]; [done|]. apply in_diff_extend. by left.
    + intros i l3 Hi. destruct Hb as [Hlb Hb]. destruct (lookup_lt_is_Some_2 (lines t) i) as [l0 Hl0]; [apply lookup_lt_Some in Hi; lia|].
      destruct (Hb i l0 Hl0) as (l3' & Hi' & _ & [->|Hr] & _); simplify_eq; [by right|]. left. destruct Hd as [[-> ?]|[-> ?]]; [lia|]. apply in_diff_extend. by right.
  - split; cbn [with_lines lines cursor cell pos]; [|congruence]. intros i j l3 c3 Hi Hj. destruct Hb as [Hlb Hb]. pose proof (Forall_lookup_1 _ _ _ _ (blanked_ok _ _ _ _ _ _ Hb3) Hi) as Hl3.
    destruct (lookup_lt_is_Some_2 (lines t) i) as [l0 Hl0]; [apply lookup_lt_Some in Hi; lia|]. pose proof (Forall_lookup_1 _ _ _ _ (tb_lines _ _ _ _ _ Ht) Hl0) as Hlo0.
    destruct (lookup_lt_is_Some_2 (chars l0) j) as [c0 Hc0]; [apply lookup_lt_Some in Hj; pose proof (line_len _ _ _ _ Hl3); pose proof (line_len _ _ _ _ Hlo0); lia|].
    destruct (Hb i l0 Hl0) as (l3' & Hi' & _ & _ & Hch). simplify_eq. rewrite (Hch j c0 Hc0) in Hj. injection Hj as <-. rewrite (Hcell i j l0 c0 Hl0 Hc0).
    apply lookup_lt_Some in Hl0. apply lookup_lt_Some in Hc0. rewrite <- (line_len _ _ _ _ Hlo0) in Hg.
    by rewrite (erased_ranges bl bc ac al x y) by (unfold usize_max; lia).
Qed.

Lemma op_spec o t s : tb_ok t -> tb_rep t s -> op_ok o -> runs (op_run o) t (fun _ t' => tb_ok t' /\ tb_rep t' (term_op W H o s)).
Proof using Hsz Hfit Hfb0 Hdim HW HH.
  intros Ht Hrep Ho. destruct o; cbn [op_run term_op].
  - by apply put_spec.
  - by apply erase_spec.
  - eapply runs_mono; [by apply next_line_spec|]. naive_solver.
  - by apply move_cursor_spec.
  - by apply set_cursor_spec.
  - eapply runs_mono; [by apply render_spec|]. naive_solver.
Qed.

Lemma ops_spec os : forall t s, tb_ok t -> tb_rep t s -> Forall op_ok os -> runs (ops_run os) t (fun _ t' => tb_ok t' /\ tb_rep t' (term_ops W H os s)).
Proof using Hsz Hfit Hfb0 Hdim HW HH.
  induction os as [|o os IH]; intros t s Ht Hrep Hos; [by apply runs_Ok; eexists _, t|]. apply Forall_cons in Hos as [Ho Hos].
  cbn [ops_run]. eapply runs_bind; [by apply (op_spec o t s)|]. intros _ t1 [Ht1 Hrep1]. by apply IH.
Qed.

(** Once there is nothing left to render, the frame buffer shows the characters. *)
Lemma tb_displays t s : tb_ok t -> tb_rep t s -> tdiff t = None -> displays sz W H fb0 (tbuf t) s.
Proof using Hsz Hdim HW HH.
  intros Ht Hrep Hd i j Hi Hj. pose proof grid_range as Hg. destruct (line_at t i Ht Hi) as (l & _ & Hl & Hlo).
  destruct (lookup_lt_is_Some_2 (chars l) (Z.to_nat j)) as [c Hc]; [pose proof (line_len _ _ _ _ Hlo); lia|].
  assert (Hcell : cell s i j = c) by (rewrite (rep_cells _ _ Hrep _ _ _ _ Hl Hc); f_equal; lia). rewrite Hcell.
  destruct (tb_shown _ _ _ _ _ Ht _ _ Hl) as [Hin|[Hld Hsh]]; [by rewrite Hd in Hin|]. rewrite Z2Nat.id in Hsh by lia.
  assert (Hu : forall u, 0 <= u < uw sz -> 0 <= j * uw sz + u < W * uw sz) by nia.
  destruct Hsh as [Hsh|[Hv Hsh]].
  - destruct (line_cells _ _ _ _ Hlo _ _ Hc) as [Hin|Hok]; [by rewrite Hld in Hin|]. rewrite Z2Nat.id in Hok by lia. destruct Hok as [Hok|[-> Hz]].
    + left. intros u v Hu1 Hv. rewrite Hsh by auto. by apply Hok.
    + right. split; [done|]. intros u v Hu1 Hv. left. rewrite Hsh by auto. by apply Hz.
  - right. split; [symmetry; by eapply Forall_lookup_1|]. intros u v Hu1 Hv1. right. apply Hsh; [by apply Hu|done].
Qed.

Lemma pixel_zero w h f u v : 0 <= u < w -> 0 <= v < h -> pixel (VecBuffer_new w h f) u v = [0; 0; 0; 0].
Proof using Type.
  intros Hu Hv. unfold pixel, VecBuffer_new. cbn [bytes stride]. apply list_eq_same_length with 4%nat; [done|apply Nat2Z.inj; rewrite length_sub; [done|nia|lia|rewrite length_replicate; nia]|].
  intros k a1 a2 Hk. rewrite lookup_sub, decide_True by lia. intros [-> _]%lookup_replicate Ha2. do 4 (destruct k as [|k]; [by injection Ha2|]). lia.
Qed.

Lemma new_spec : W = width fb0 / uw sz -> H = height fb0 / sz -> exists t, TextBuffer_new fb0 (MonospaceFont_new sz (format fb0)) = Some t /\ tb_ok t /\ tb_rep t term_new /\ tbuf t = fb0.
Proof using Hsz Hfb0 Hdim HW HH.
  intros EW EH. pose proof grid_range as Hg. unfold TextBuffer_new, MonospaceFont_new. cbn [fformat]. unfold unit_width, unit_height. cbn [size]. fold (uw sz).
  replace ((sz =? 0) || (uw sz =? 0)) with false by lia. rewrite <- EH. rewrite decide_True by done. eexists. split; [reflexivity|].
  set (l0 := Line_new fb0 _). assert (El0 : l0 = {| chars := replicate (Z.to_nat W) void; lbuf := VecBuffer_new (W * uw sz) sz (format fb0); ldiff := None |}) by (unfold l0, Line_new, unit_width, unit_height; cbn [size]; fold (uw sz); by rewrite <- EW).
  assert (Hl0 : line_ok l0).
  { rewrite El0. split; cbn [chars lbuf ldiff]; [rewrite length_replicate; lia|split; [apply vec_buffer_ok; lia|done]|done|]. intros j c Hj. right. right. apply lookup_replicate in Hj as [-> Hj].
    split; [done|]. intros u v Hu Hv. apply pixel_zero; [nia|done]. }
  split; [|split; [|done]].
  - split; cbn [lines tbuf tdiff font cursor]; [rewrite length_replicate; lia|by apply Forall_replicate|by split|done|done|simpl; lia|done|].
    intros i l [-> Hi]%lookup_replicate. right. rewrite El0. split; [done|]. right. split; [by apply Forall_replicate|done].
  - split; cbn [lines cursor]; [|done]. intros i j l c [-> Hi]%lookup_replicate Hj. rewrite El0 in Hj. by apply lookup_replicate in Hj as [-> _].
Qed.

End GridLemmas.

(** A text buffer without columns: no number of attempts puts a character. *)
Lemma empty_line_diverges c (n : nat) : forall t, value c <> 10 -> (forall l, l ∈ lines t -> chars l = []) -> 0 <= (cursor t).2 < zlen (lines t) -> (put_fuel n c t).1 = Diverge.
Proof.
  induction n as [|n IH]; intros t Hv Hl Hy; [done|]. cbn [put_fuel]. unfold mget, mbnd. destruct (cursor t) as [x y] eqn:Hc. cbn [fst snd] in Hy.
  destruct (index_is_Some (lines t) y) as [l Hly]; [lia|]. rewrite Hly. cbn [munwrap ret]. rewrite index_lookup in Hly by lia. unfold Line_put. replace (value c =? 10) with false by lia.
  rewrite (Hl l) by (by eapply list_elem_of_lookup_2). replace (index ([] : list Char) x) with (None : option Char) by (unfold index; by destruct (0 <=? x)).
  unfold next_line, mget, mbnd. rewrite Hc. destruct (zlen (lines t) <=? y + 1) eqn:Hlast.
  - destruct (lines t) as [|l0 ls] eqn:Hls; [simpl in Hy; lia|]. unfold Line_erase. rewrite (Hl l0) by (by left). cbn [erase_range]. replace (usize_max <? 0) with false by done.
    apply IH; cbn [with_cursor with_lines lines cursor fst snd]; [done| |rewrite length_app; simpl; lia]. intros l' [Hin|Hin]%elem_of_app; [apply Hl; by right|].
    apply list_elem_of_singleton in Hin as ->. done.
  - apply IH; cbn [with_cursor lines cursor fst snd]; [done|done|lia].
Qed.

(** ** Properties *)

(** [C12]. A text buffer implements a terminal. For every sequence of
    operations, the incremental rendering included, the characters and the cursor are
    those of the terminal, nothing goes out of range, and after the next rendering
    the frame buffer shows the glyph of every character at its place and is
    unchanged outside of the grid. *)
Theorem text_buffer_refines_terminal `{GS : GlyphSource} (sz : Z) (fb : FrameBuffer) (os : list Op) (W H : Z) :
  0 < sz < 2 ^ 29 -> glyphs_fit sz -> fb_ok fb -> width fb < 2 ^ 29 /\ height fb < 2 ^ 29 ->
  W = width fb / uw sz -> H = height fb / sz -> 0 < W -> 0 < H -> Forall op_ok os ->
  exists t0 t1 t2, TextBuffer_new fb (MonospaceFont_new sz (format fb)) = Some t0 /\ ops_run os t0 = (Ok tt, t1) /\ render t1 = (Ok tt, t2) /\
    tb_rep t1 (term_ops W H os term_new) /\ tb_rep t2 (term_ops W H os term_new) /\ displays sz W H fb (tbuf t2) (term_ops W H os term_new) /\
    forall u v, addressed fb u v -> ~ in_grid sz W H fb u v -> pixel (tbuf t2) u v = pixel fb u v.
Proof.
  intros Hsz Hfit Hfb Hdim EW EH HW0 HH0 Hos. pose proof (uw_range sz Hsz) as Huw.
  assert (HW : 0 < W /\ W * uw sz <= width fb) by (split; [done|]; subst W; rewrite Z.mul_comm; apply Z.mul_div_le; lia).
  assert (HH : 0 < H /\ H * sz <= height fb) by (split; [done|]; subst H; rewrite Z.mul_comm; apply Z.mul_div_le; lia).
  destruct (new_spec sz W H fb Hsz Hfb Hdim HW HH EW EH) as (t0 & E0 & Ht0 & Hr0 & _).
  pose proof (ops_spec sz W H fb Hsz Hfit Hfb Hdim HW HH os t0 term_new Ht0 Hr0 Hos) as ([] & t1 & E1 & Ht1 & Hr1)%runs_Ok.
  pose proof (render_spec sz W H fb Hsz Hfit Hfb Hdim HW HH t1 _ Ht1 Hr1) as ([] & t2 & E2 & Ht2 & Hr2 & Hd2)%runs_Ok.
  exists t0, t1, t2. do 5 (split; [done|]). split; [by eapply tb_displays|]. apply (tb_outside _ _ _ _ _ Ht2).
Qed.

(** ** Witnesses *)

(** Every character but the space is one dot. *)
Definition dots : GlyphSource :=
  {| coverage := unit; outline := fun _ _ c => if c =? 32 then None else Some ((0, 0), [((0, 1), tt)]); mix := fun _ f _ => f |}.

Lemma dots_fit sz : glyphs_fit (H := dots) sz.
Proof. intros st c mx my ps. simpl. destruct (c =? 32); [done|]. intros [= <- <- <-]. repeat constructor; simpl; lia. Qed.

Definition white : Color := {| r := 255; g := 255; b := 255 |}.
Definition black : Color := {| r := 0; g := 0; b := 0 |}.

Definition demo_ops : list Op :=
  [OPut {| value := 65; cfg := white; cbg := black; font_style := Bold |}; ORender; OMove (-1) 5; OPut {| value := 66; cfg := white; cbg := black; font_style := Normal |};
   ONextLine black; OErase black false false true false; OPut {| value := 67; cfg := white; cbg := black; font_style := Normal |}].

Definition small_fb : FrameBuffer := {| bytes := replicate 80 7; width := 3; height := 5; stride := 4; format := Bgrx |}.

Lemma small_fb_ok : fb_ok small_fb.
Proof. unfold fb_ok, small_fb. cbn [width height stride bytes]. rewrite length_replicate. lia. Qed.

Lemma text_buffer_refines_terminal_witness : exists t0 t1 t2,
  TextBuffer_new small_fb (MonospaceFont_new 2 Bgrx) = Some t0 /\ ops_run (H := dots) demo_ops t0 = (Ok tt, t1) /\ render (GS := dots) t1 = (Ok tt, t2) /\
  cursor t2 = (1, 1) /\ pixel (tbuf t2) 3 4 = [7; 7; 7; 7] /\ pixel (tbuf t2) 0 3 = [255; 255; 255; 255].
Proof.
  destruct (text_buffer_refines_terminal (GS := dots) 2 small_fb demo_ops 3 2) as (t0 & t1 & t2 & E0 & E1 & E2 & _ & Hr & Hd & Ho);
    [lia|apply dots_fit|apply small_fb_ok|by split|done|done|done|done|repeat constructor; simpl; lia|].
  exists t0, t1, t2. split; [exact E0|]. split; [exact E1|]. split; [exact E2|].
  split; [rewrite (rep_pos _ _ Hr); vm_compute; reflexivity|].
  split; [rewrite Ho; [reflexivity|split; simpl; lia|intros [[_ Hx] _]; vm_compute in Hx; discriminate Hx]|].
  destruct (Hd 1 0) as [Hs|[Hv _]]; [lia|lia| |discriminate Hv]. exact (Hs 0 1 ltac:(vm_compute; done) ltac:(lia)).
Defined.
