(* ===== verification/Console.v ===== *)
(** * The console (src/ors-kernel/src/console.rs, console/screen.rs and console/kbd.rs)

    [Screen] draws decoded characters and escape sequences on a text buffer, the
    output task decodes the text it takes from the queue and renders the screen at
    intervals, and the input task decodes what the keyboard and the serial port
    send. Time, the queue and the keyboard decoder of the [pc_keyboard] crate are
    inputs of the steps. *)

From S2P Require Import Prelude Sync Graphics TextBuffer Ansi.
Local Open Scope Z_scope.
Local Open Scope rust_scope.

(** ** Screens *)

(** The colors and the style that characters are drawn with. *)
Record Pen := { pfg : Ansi.Color; pbg : Ansi.Color; pstyle : FontStyle }.

Record Screen := { sbuf : MonospaceTextBuffer; theme : ColorScheme; pen : Pen }.

Definition SM (A : Type) : Type := M Screen Empty_set A.

Definition on_buf {A} (m : TM A) : SM A := fun s =>
  let '(o, t) := m (sbuf s) in (o, {| sbuf := t; theme := theme s; pen := pen s |}).

Definition new_pen : Pen := {| pfg := Default; pbg := Default; pstyle := Normal |}.

Definition FONT_SIZE : Z := 14.

Definition Screen_new (buf : FrameBuffer) (th : ColorScheme) : option Screen :=
  t ← TextBuffer_new buf (MonospaceFont_new FONT_SIZE (format buf));
  Some {| sbuf := t; theme := th; pen := new_pen |}.

Definition screen_render `{GlyphSource} : SM unit := on_buf render.

(** [From<(u8, u8, u8)> for Color] *)
Definition rgb_color (x : rgb) : Graphics.Color := {| r := x.1.1; g := x.1.2; b := x.2 |}.

Definition put_char (c : Z) : SM unit :=
  s <- mget;;
  f <- munwrap (get_fg (theme s) (pfg (pen s)));;
  k <- munwrap (get_bg (theme s) (pbg (pen s)));;
  on_buf (put {| value := c; cfg := rgb_color f; cbg := rgb_color k; font_style := pstyle (pen s) |}).

Definition screen_erase (bl bc ac al : bool) : SM unit :=
  s <- mget;;
  k <- munwrap (get_bg (theme s) (pbg (pen s)));;
  on_buf (erase (rgb_color k) bl bc ac al).

Definition handle_sgr (a : Sgr) (p : Pen) : Pen :=
  match a with
  | Reset => new_pen
  | Ansi.Bold => {| pfg := brighter (pfg p); pbg := pbg p; pstyle := TextBuffer.Bold |}
  | Faint | ResetBoldFaint => {| pfg := dimmer (pfg p); pbg := pbg p; pstyle := Normal |}
  | Italic _ | Underline _ | Blinking _ | Inverse _ | Hidden _ | Strikethrough _ => p
  | Fg c => {| pfg := if is_bold (pstyle p) then brighter c else dimmer c; pbg := pbg p; pstyle := pstyle p |}
  | Bg c => {| pfg := pfg p; pbg := c; pstyle := pstyle p |}
  end.

Definition screen_sgr (a : Sgr) : SM unit :=
  s <- mget;;
  mput {| sbuf := sbuf s; theme := theme s; pen := handle_sgr a (pen s) |}.

Definition i32_MIN : Z := - 2 ^ 31.

(** [-(n as i32)] *)
Definition neg_i32 (n : Z) : option Z := i32 (- as_i32 n).

Definition handle_escape_sequence (es : EscapeSequence) : SM unit :=
  match es with
  | CursorUp n => d <- munwrap (neg_i32 n);; on_buf (move_cursor 0 d)
  | CursorDown n => on_buf (move_cursor 0 (as_i32 n))
  | CursorForward n => on_buf (move_cursor (as_i32 n) 0)
  | CursorBack n => d <- munwrap (neg_i32 n);; on_buf (move_cursor d 0)
  | CursorNextLine n => on_buf (move_cursor i32_MIN (as_i32 n))
  | CursorPreviousLine n => d <- munwrap (neg_i32 n);; on_buf (move_cursor i32_MIN d)
  | CursorHorizontalAbsolute n => x <- munwrap (sub_checked 32 n 1);; on_buf (set_cursor (Some x) None)
  | CursorPosition n m | HorizontalVerticalPosition n m =>
      x <- munwrap (sub_checked 32 m 1);;
      y <- munwrap (sub_checked 32 n 1);;
      on_buf (set_cursor (Some x) (Some y))
  | EraseInDisplay 0 => screen_erase false false true true
  | EraseInDisplay 1 => screen_erase true true false false
  | EraseInDisplay 2 => screen_erase true true true true
  | EraseInLine 0 => screen_erase false false true false
  | EraseInLine 1 => screen_erase false true false false
  | EraseInLine 2 => screen_erase false true true false
  | Sgr1 a => screen_sgr a
  | Sgr2 a b => screen_sgr a;;; screen_sgr b
  | Sgr3 a b c => screen_sgr a;;; screen_sgr b;;; screen_sgr c
  | _ => ret tt
  end.

(** ** Output *)

Definition OUT_CHUNK_SIZE : Z := 64.

(** A [str] is its characters; [len] and [is_char_boundary] count bytes of UTF-8. *)
Definition len_utf8 (c : Z) : Z := if c <? 0x80 then 1 else if c <? 0x800 then 2 else if c <? 0x10000 then 3 else 4.

Fixpoint str_len (s : list Z) : Z := match s with [] => 0 | c :: s => len_utf8 c + str_len s end.

(** [s.split_at(i)], [None] unless [i] is the boundary of a character. *)
Fixpoint split_at (s : list Z) (i : Z) : option (list Z * list Z) :=
  if i =? 0 then Some ([], s)
  else match s with
       | [] => None
       | c :: s => if i <? len_utf8 c then None else '(a, z) ← split_at s (i - len_utf8 c); Some (c :: a, z)
       end.

Definition is_char_boundary (s : list Z) (i : Z) : bool := match split_at s i with Some _ => true | None => false end.

(** [while !s.is_char_boundary(i) { i -= 1; }] *)
Fixpoint boundary_below (fuel : nat) (s : list Z) (i : Z) : outcome unit Z :=
  if is_char_boundary s i then Ok i
  else match fuel with
       | O => Diverge
       | S fuel => match sub_checked 64 i 1 with Some i => boundary_below fuel s i | None => Panic end
       end.

(** The chunks that [write_str] puts in the queue. [chunk.into()] panics on a chunk
    that does not fit. *)
Fixpoint write_chunks (fuel : nat) (s : list Z) : outcome unit (list (list Z)) :=
  if 0 <? str_len s then
    match fuel with
    | O => Diverge
    | S fuel =>
        match boundary_below 64 s (Z.min (str_len s) OUT_CHUNK_SIZE) with
        | Ok i =>
            match split_at s i with
            | Some (chunk, next_s) =>
                if str_len chunk <=? OUT_CHUNK_SIZE then
                  match write_chunks fuel next_s with Ok cs => Ok (chunk :: cs) | o => o end
                else Panic
            | None => Panic
            end
        | Err e => Err e
        | Panic => Panic
        | Diverge => Diverge
        end
    end
  else Ok [].

Definition write_str (ready : bool) (s : list Z) : outcome unit (list (list Z)) :=
  if ready then write_chunks (length s) s else Ok [].

(** The variables of [handle_output]. *)
Record Output := { screen : Screen; decoder : State; next_render_ticks : Z }.

Definition OM (A : Type) : Type := M Output Empty_set A.

Definition on_screen {A} (m : SM A) : OM A := fun o =>
  let '(a, s) := m (screen o) in (a, {| screen := s; decoder := decoder o; next_render_ticks := next_render_ticks o |}).

Definition TIMER_FREQ : Z := 250.
Definition RENDER_FREQ : Z := 30.
Definition RENDER_INTERVAL : Z := TIMER_FREQ / RENDER_FREQ.

Definition Output_new (buf : FrameBuffer) : option Output :=
  s ← Screen_new buf OneMonokai;
  Some {| screen := s; decoder := Init; next_render_ticks := 0 |}.

(** The loop up to the call of [dequeue_timeout], of which it gives the timeout; the
    clock reads [t], and [t'] after rendering. *)
Definition output_poll `{GlyphSource} (t t' : Z) : OM Z :=
  o <- mget;;
  (if next_render_ticks o <=? t then
     on_screen screen_render;;;
     o <- mget;;
     n <- munwrap (add_checked 64 t' RENDER_INTERVAL);;
     mput {| screen := screen o; decoder := decoder o; next_render_ticks := n |}
   else ret tt);;;
  o <- mget;;
  munwrap (sub_checked 64 (next_render_ticks o) t).

Definition output_char (c : Z) : OM unit :=
  o <- mget;;
  match add_char (decoder o) c with
  | Ok (res, st) =>
      mput {| screen := screen o; decoder := st; next_render_ticks := next_render_ticks o |};;;
      match res with
      | Some (Just c) => on_screen (put_char c)
      | Some (Sequence es) => on_screen (handle_escape_sequence es)
      | None => ret tt
      end
  | Diverge => mdiverge
  | _ => mpanic
  end.

(** [for ch in out.chars()] *)
Fixpoint output_chars (out : list Z) : OM unit :=
  match out with
  | [] => ret tt
  | c :: out => output_char c;;; output_chars out
  end.

(** One iteration of the loop of [handle_output]: the two readings of the clock and
    what [dequeue_timeout] returns. *)
Definition output_step `{GlyphSource} (t t' : Z) (out : option (list Z)) : OM unit :=
  output_poll t t';;; match out with Some out => output_chars out | None => ret tt end.

(** ** Input *)

Inductive KeyCode :=
| ControlLeft | ControlRight | KInsert | KHome | KEnd | KPageUp | KPageDown | KArrowUp | KArrowDown | KArrowLeft | KArrowRight
| OtherKey (n : Z).

Inductive KeyState := Up | Down.
Inductive DecodedKey := RawKey (k : KeyCode) | Unicode (c : Z).

(** [Keyboard<Jis109Key, ScancodeSet1>] of the [pc_keyboard] crate. *)
Class PcKeyboard := {
  keyboard : Type;
  keyboard_new : keyboard;
  add_byte : Z -> keyboard -> option (option (KeyCode * KeyState)) * keyboard;
  process_keyevent : KeyCode * KeyState -> keyboard -> option DecodedKey * keyboard;
}.

Section Input.
Context `{KB : PcKeyboard}.

Record KbdDecoder := { inner : keyboard; lctrl : bool; rctrl : bool }.

Definition KbdDecoder_new : KbdDecoder := {| inner := keyboard_new; lctrl := false; rctrl := false |}.

Definition is_down (s : KeyState) : bool := match s with Down => true | Up => false end.

(** BS, HT, LF, DEL and the printable characters. *)
Definition is_typed (c : Z) : bool := (c =? 8) || (c =? 9) || (c =? 10) || (c =? 127) || ((32 <=? c) && (c <=? 126)).

Definition key_input (ctrl : bool) (k : DecodedKey) : option Input :=
  match k with
  | RawKey KInsert => Some IInsert
  | RawKey KHome => Some IHome
  | RawKey KEnd => Some IEnd
  | RawKey KPageUp => Some PageUp
  | RawKey KPageDown => Some PageDown
  | RawKey KArrowUp => Some ArrowUp
  | RawKey KArrowDown => Some ArrowDown
  | RawKey KArrowLeft => Some ArrowLeft
  | RawKey KArrowRight => Some ArrowRight
  | Unicode c => if is_typed c then Some (if ctrl then Ctrl c else Char c) else None
  | _ => None
  end.

Definition kbd_add (byte : Z) (d : KbdDecoder) : option Input * KbdDecoder :=
  match add_byte byte (inner d) with
  | (Some (Some e), kb) =>
      let l := match e.1 with ControlLeft => is_down e.2 | _ => lctrl d end in
      let rt := match e.1 with ControlRight => is_down e.2 | _ => rctrl d end in
      let '(key, kb) := process_keyevent e kb in
      (key ≫= key_input (l || rt), {| inner := kb; lctrl := l; rctrl := rt |})
  | (_, kb) => (None, {| inner := kb; lctrl := lctrl d; rctrl := rctrl d |})
  end.

Inductive RawInput := Kbd (byte : Z) | Com1 (byte : Z).

(** The variables of [handle_raw_input]. *)
Record InputState := { kbd_decoder : KbdDecoder; com1_decoder : State }.

(** One iteration of [handle_raw_input]: what it puts in the input queue. *)
Definition raw_input (i : RawInput) : M InputState Empty_set (option Input) :=
  s <- mget;;
  match i with
  | Kbd byte =>
      let '(res, d) := kbd_add byte (kbd_decoder s) in
      mput {| kbd_decoder := d; com1_decoder := com1_decoder s |};;; ret res
  | Com1 byte =>
      if byte =? 0x7f then ret (Some (Char 8)) (* DEL -> BS *)
      else if byte =? 0x0d then ret (Some (Char 10)) (* CR -> LF *)
      else if byte <=? 0x7e then
        match add_char (com1_decoder s) byte with
        | Ok (res, st) => mput {| kbd_decoder := kbd_decoder s; com1_decoder := st |};;; ret (res ≫= input_of_result)
        | Diverge => mdiverge
        | _ => mpanic
        end
      else ret None
  end.

Fixpoint raw_inputs (ins : list RawInput) : M InputState Empty_set (list Input) :=
  match ins with
  | [] => ret []
  | i :: ins => o <- raw_input i;; os <- raw_inputs ins;; ret (option_list o ++ os)
  end.

(** *** The queues of the input *)

Context {R I : Type} `{QR : MpMcQueue R RawInput} `{QI : MpMcQueue I Input}.

(** [RAW_IN], [IN] and the variables of the task between them *)
Record InputPath := { raw_in : R; in_ : I; input_state : InputState }.

(** Called by the handlers of interrupts: what does not fit is lost. *)
Definition accept_raw_input (i : RawInput) (p : InputPath) : InputPath :=
  {| raw_in := default (raw_in p) (mq_enqueue i (raw_in p)); in_ := in_ p; input_state := input_state p |}.

(** An iteration of [handle_raw_input], which waits while [RAW_IN] is empty *)
Definition handle_raw_input : M InputPath Empty_set unit := fun p =>
  match mq_dequeue (raw_in p) with
  | None => (Ok tt, p)
  | Some (i, q) =>
      match raw_input i (input_state p) with
      | (Ok o, st) => (Ok tt, {| raw_in := q; in_ := match o with Some x => default (in_ p) (mq_enqueue x (in_ p)) | None => in_ p end; input_state := st |})
      | (Err e, st) => (Err e, {| raw_in := q; in_ := in_ p; input_state := st |})
      | (Panic, st) => (Panic, {| raw_in := q; in_ := in_ p; input_state := st |})
      | (Diverge, st) => (Diverge, {| raw_in := q; in_ := in_ p; input_state := st |})
      end
  end.

(** What happens: an interrupt, a turn of the task, or a reader that takes an input *)
Inductive input_event := Accept (i : RawInput) | Handle | Take.

Fixpoint input_events (es : list input_event) : M InputPath Empty_set (list Input) :=
  match es with
  | [] => ret []
  | Accept i :: es => fun p => input_events es (accept_raw_input i p)
  | Handle :: es => handle_raw_input;;; input_events es
  | Take :: es => fun p =>
      match mq_dequeue (in_ p) with
      | Some (x, q) => (os <- input_events es;; ret (x :: os)) {| raw_in := raw_in p; in_ := q; input_state := input_state p |}
      | None => input_events es p
      end
  end.
End Input.

(** ** Specification *)

(** What a terminal draws with: the colors as they were selected, and whether
    characters are bold. *)
Record Rendition := { ink : Ansi.Color; paper : Ansi.Color; bold : bool }.

Definition plain : Rendition := {| ink := Default; paper := Default; bold := false |}.

(** Each attribute sets one of the three. *)
Definition render_attribute (a : Sgr) (p : Rendition) : Rendition :=
  match a with
  | Reset => plain
  | Ansi.Bold => {| ink := ink p; paper := paper p; bold := true |}
  | Faint | ResetBoldFaint => {| ink := ink p; paper := paper p; bold := false |}
  | Fg c => {| ink := c; paper := paper p; bold := bold p |}
  | Bg c => {| ink := ink p; paper := c; bold := bold p |}
  | _ => p
  end.

Definition palette (th : ColorScheme) (bright : bool) : list rgb :=
  if bright then [bright_black th; bright_red th; bright_green th; bright_yellow th; bright_blue th; bright_magenta th; bright_cyan th; bright_white th]
  else [black th; red th; green th; yellow th; blue th; magenta th; cyan th; white th].

Definition color_number (c : NamedColor) : nat :=
  match c with Black => 0 | Red => 1 | Green => 2 | Yellow => 3 | Blue => 4 | Magenta => 5 | Cyan => 6 | White => 7 end.

(** The color on the screen: one of the palette, of the cube of six levels each of red,
    green and blue, or of the 24 shades of gray. *)
Definition shade (th : ColorScheme) (base : rgb) (bright : NamedColorVariation -> bool) (c : Ansi.Color) : Graphics.Color :=
  let '(x, y, z) := match c with
    | Default => base
    | Named c v => default base (palette th (bright v) !! color_number c)
    | Rgb n => (51 * (n / 36), 51 * (n / 6 mod 6), 51 * (n mod 6))
    | Grayscale n => if n =? 23 then (255, 255, 255) else (11 * n, 11 * n, 11 * n)
    end in {| r := x; g := y; b := z |}.

(** Bold characters have bright colors, unless the variation is fixed. *)
Definition fg_of (th : ColorScheme) (p : Rendition) : Graphics.Color :=
  shade th (foreground th) (fun v => match v with ForceBrighter => true | ForceDimmer => false | _ => bold p end) (ink p).
Definition bg_of (th : ColorScheme) (p : Rendition) : Graphics.Color :=
  shade th (background th) (fun v => match v with ForceBrighter | Brighter => true | _ => false end) (paper p).

Section Spec.
Variables (W H : Z) (th : ColorScheme).

Definition term_sequence (es : EscapeSequence) (t : Terminal) (p : Rendition) : Terminal * Rendition :=
  match es with
  | CursorUp n => (term_move W H 0 (- n) t, p)
  | CursorDown n => (term_move W H 0 n t, p)
  | CursorForward n => (term_move W H n 0 t, p)
  | CursorBack n => (term_move W H (- n) 0 t, p)
  | CursorNextLine n => ({| cell := cell t; pos := (0, within H ((pos t).2 + n)) |}, p)
  | CursorPreviousLine n => ({| cell := cell t; pos := (0, within H ((pos t).2 - n)) |}, p)
  | CursorHorizontalAbsolute n => (term_set W H (Some (n - 1)) None t, p)
  | CursorPosition n m | HorizontalVerticalPosition n m => (term_set W H (Some (m - 1)) (Some (n - 1)) t, p)
  | EraseInDisplay 0 => (term_erase (bg_of th p) false false true true t, p)
  | EraseInDisplay 1 => (term_erase (bg_of th p) true true false false t, p)
  | EraseInDisplay 2 => (term_erase (bg_of th p) true true true true t, p)
  | EraseInLine 0 => (term_erase (bg_of th p) false false true false t, p)
  | EraseInLine 1 => (term_erase (bg_of th p) false true false false t, p)
  | EraseInLine 2 => (term_erase (bg_of th p) false true true false t, p)
  | Sgr1 a => (t, render_attribute a p)
  | Sgr2 a b => (t, render_attribute b (render_attribute a p))
  | Sgr3 a b c => (t, render_attribute c (render_attribute b (render_attribute a p)))
  | _ => (t, p)
  end.

(** What a terminal does with a decoded character or sequence. *)
Definition term_result (x : Terminal * Rendition) (res : DecodeResult) : Terminal * Rendition :=
  match res with
  | Just c => (term_put W H {| value := c; cfg := fg_of th x.2; cbg := bg_of th x.2; font_style := if bold x.2 then TextBuffer.Bold else Normal |} x.1, x.2)
  | Sequence es => term_sequence es x.1 x.2
  end.
End Spec.

(** The distances and positions that the screen handles, and the colors that the
    decoder gives. *)
Definition drawable (res : DecodeResult) : Prop :=
  Forall color_wf (colors res) /\
  match res with
  | Sequence (CursorUp n | CursorDown n | CursorForward n | CursorBack n | CursorNextLine n | CursorPreviousLine n) => 0 <= n < 2 ^ 30
  | Sequence (CursorHorizontalAbsolute n) => 1 <= n < 2 ^ 32
  | Sequence (CursorPosition n m | HorizontalVerticalPosition n m) => 1 <= n < 2 ^ 32 /\ 1 <= m < 2 ^ 32
  | _ => True
  end.

Definition screen_result (res : DecodeResult) : SM unit :=
  match res with Just c => put_char c | Sequence es => handle_escape_sequence es end.

Fixpoint screen_results (rs : list DecodeResult) : SM unit :=
  match rs with [] => ret tt | res :: rs => screen_result res;;; screen_results rs end.

(** Iterations of [handle_output]. *)
Fixpoint output_steps `{GlyphSource} (steps : list ((Z * Z) * option (list Z))) : OM unit :=
  match steps with
  | [] => ret tt
  | ((t, t'), out) :: steps => output_step t t' out;;; output_steps steps
  end.

(** ** Lemmas: screens *)

Lemma on_buf_runs {A} (m : TM A) s (Q : A -> MonospaceTextBuffer -> Prop) : runs m (sbuf s) Q ->
  runs (on_buf m) s (fun a s' => Q a (sbuf s') /\ theme s' = theme s /\ pen s' = pen s).
Proof. intros (a & t & E & HQ)%runs_Ok. apply runs_Ok. unfold on_buf. rewrite E. by eexists _, _. Qed.

Section ScreenLemmas.
Context `{GS : GlyphSource}.
Variables (sz W H : Z) (fb0 : FrameBuffer) (th : ColorScheme).
Hypothesis Hsz : 0 < sz < 2 ^ 29.
Hypothesis Hfit : glyphs_fit sz.
Hypothesis Hfb0 : fb_ok fb0.
Hypothesis Hdim : width fb0 < 2 ^ 29 /\ height fb0 < 2 ^ 29.
Hypothesis HW : 0 < W /\ W * uw sz <= width fb0.
Hypothesis HH : 0 < H /\ H * sz <= height fb0.
Hypothesis Hth : scheme_ok th.

(** The pen of the screen holds the color of characters with the brightness applied. *)
Definition pen_rep (p : Pen) (x : Rendition) : Prop :=
  pfg p = (if bold x then brighter (ink x) else dimmer (ink x)) /\ pbg p = paper x /\
  pstyle p = (if bold x then TextBuffer.Bold else Normal) /\ color_wf (ink x) /\ color_wf (paper x).

Definition screen_rep (s : Screen) (x : Terminal * Rendition) : Prop :=
  tb_ok sz W H fb0 (sbuf s) /\ tb_rep (sbuf s) x.1 /\ theme s = th /\ pen_rep (pen s) x.2.

Lemma brighter_dimmer c : brighter (dimmer c) = brighter c.
Proof. by destruct c as [|? []| |]. Qed.

Lemma dimmer_brighter c : dimmer (brighter c) = dimmer c.
Proof. by destruct c as [|? []| |]. Qed.

Lemma brighter_idem c : brighter (brighter c) = brighter c.
Proof. by destruct c as [|? []| |]. Qed.

Lemma dimmer_idem c : dimmer (dimmer c) = dimmer c.
Proof. by destruct c as [|? []| |]. Qed.

Lemma handle_sgr_spec a p x : pen_rep p x -> Forall color_wf (sgr_colors a) -> pen_rep (handle_sgr a p) (render_attribute a x).
Proof.
  intros (Hf & Hb & Hs & Hi & Hp) Ha. destruct a; cbn [handle_sgr render_attribute sgr_colors] in *; try (by split_and!); unfold pen_rep;
    cbn [pfg pbg pstyle ink paper bold]; rewrite ?Hf, ?Hs; try (apply Forall_cons in Ha as [Ha _]); split_and!; try done; destruct (bold x);
    by rewrite ?brighter_dimmer, ?dimmer_brighter, ?brighter_idem, ?dimmer_idem.
Qed.

(** Any base color and rule for the named colors, against [get]. *)
Lemma get_shade base bright c : color_wf c -> (forall n v, c = Named n v -> bright v = negb (is_dimmer v)) ->
  exists x, default base <$> get th c = Some x /\ rgb_color x = shade th base bright c.
Proof.
  intros Hc Hb. destruct c as [|n v|n|n].
  - exists base. unfold rgb_color, shade. by destruct base as [[? ?] ?].
  - eexists. split; [reflexivity|]. unfold shade, rgb_color. rewrite (Hb n v eq_refl). destruct n, v; cbn; by repeat case_match.
  - simpl in Hc. exists (51 * (n / 36), 51 * (n / 6 mod 6), 51 * (n mod 6)). split; [|done].
    replace n with (36 * (n / 36) + 6 * (n / 6 mod 6) + n mod 6) at 1 by euclid. by rewrite get_rgb by euclid.
  - simpl in Hc. unfold shade. destruct (Z.eqb_spec n 23) as [->|Hn]; [by eexists|]. exists (11 * n, 11 * n, 11 * n). split; [|done].
    transitivity (default base <$> (x ← mul_checked 8 n 11; Some (Some (x, x, x)))); [cbn [get]; repeat (case_match; try done)|].
    unfold mul_checked. rewrite checked_ok by (unfold unsigned; lia). cbn. by rewrite (Z.mul_comm n).
Qed.

Lemma get_fg_of p x : pen_rep p x -> exists c, get_fg th (pfg p) = Some c /\ rgb_color c = fg_of th x.
Proof using Type.
  intros (-> & _ & _ & Hi & _). unfold get_fg, fg_of.
  destruct (get_shade (foreground th) (fun v => negb (is_dimmer v)) (if bold x then brighter (ink x) else dimmer (ink x))) as (c & E & Ec);
    [by destruct (bold x), (ink x) as [|? []| |]|done|].
  exists c. split; [exact E|]. rewrite Ec. by destruct (bold x), (ink x) as [|? []| |].
Qed.

Lemma get_bg_of p x : pen_rep p x -> exists c, get_bg th (pbg p) = Some c /\ rgb_color c = bg_of th x.
Proof using Type. intros (_ & -> & _ & _ & Hp). apply get_shade; [done|]. by intros n [] _. Qed.

(** An operation of the text buffer, as one of the screen. *)
Lemma on_buf_spec (m : TM unit) s t p t' : screen_rep s (t, p) ->
  (tb_ok sz W H fb0 (sbuf s) -> tb_rep (sbuf s) t -> runs m (sbuf s) (fun _ b' => tb_ok sz W H fb0 b' /\ tb_rep b' t')) ->
  runs (on_buf m) s (fun _ s' => screen_rep s' (t', p)).
Proof using Type.
  intros (Hok & Hrep & Ht & Hp) Hm. eapply runs_mono; [by apply on_buf_runs, Hm|]. intros _ s' ((Hok' & Hrep') & Et & Ep). unfold screen_rep. cbn [fst snd] in *. by rewrite Et, Ep.
Qed.

Lemma sgr_spec a s t p : screen_rep s (t, p) -> Forall color_wf (sgr_colors a) -> runs (screen_sgr a) s (fun _ s' => screen_rep s' (t, render_attribute a p)).
Proof using Type.
  intros (Hok & Hrep & Ht & Hp) Ha. apply runs_Ok. unfold screen_sgr, mget, mbnd. eexists _, _. split; [reflexivity|].
  split; [done|]. split; [done|]. split; [done|]. by apply handle_sgr_spec.
Qed.

Lemma screen_erase_spec bl bc ac al s t p : screen_rep s (t, p) -> runs (screen_erase bl bc ac al) s (fun _ s' => screen_rep s' (term_erase (bg_of th p) bl bc ac al t, p)).
Proof using Hsz Hdim HW HH Hth.
  intros Hs. pose proof Hs as (_ & _ & Ht & Hp). unfold screen_erase. destruct (get_bg_of _ _ Hp) as (x & E & Ex). cbn [snd] in Ex.
  eapply runs_eq; [unfold mget, mbnd at 1; rewrite Ht; unfold mbnd at 1; rewrite E; reflexivity|]. rewrite Ex. eapply on_buf_spec; [done|]. intros. by apply erase_spec.
Qed.
Lemma neg_i32_small n : 0 <= n < 2 ^ 30 -> neg_i32 n = Some (- n).
Proof. intros. unfold neg_i32. rewrite as_i32_small by lia. apply i32_ok. lia. Qed.

Lemma move_spec dx dy s t p : screen_rep s (t, p) -> - 2 ^ 31 <= dx < 2 ^ 30 -> - 2 ^ 31 <= dy < 2 ^ 30 ->
  runs (on_buf (move_cursor dx dy)) s (fun _ s' => screen_rep s' (term_move W H dx dy t, p)).
Proof using Hsz Hdim HW HH. intros. eapply on_buf_spec; [done|]. intros. by apply move_cursor_spec. Qed.

Lemma set_spec x y s t p : screen_rep s (t, p) -> runs (on_buf (set_cursor x y)) s (fun _ s' => screen_rep s' (term_set W H x y t, p)).
Proof using Hsz Hdim HW HH. intros. eapply on_buf_spec; [done|]. intros. by apply set_cursor_spec. Qed.

(** Moving by [i32::MIN] goes to the first column. *)
Lemma move_first_column dy s t p : screen_rep s (t, p) -> - 2 ^ 31 <= dy < 2 ^ 30 ->
  runs (on_buf (move_cursor i32_MIN dy)) s (fun _ s' => screen_rep s' ({| cell := cell t; pos := (0, within H ((pos t).2 + dy)) |}, p)).
Proof using Hsz Hdim HW HH.
  intros Hs Hdy. pose proof Hs as (Hok & Hrep & _). cbn [fst] in Hrep. pose proof (tb_cursor _ _ _ _ _ Hok) as Hc. rewrite (rep_pos _ _ Hrep) in Hc.
  pose proof (grid_range sz W H fb0 Hsz Hdim HW HH) as Hg. eapply runs_mono; [apply (move_spec i32_MIN dy s t p Hs); [unfold i32_MIN; lia|done]|].
  intros ? s'. unfold term_move. replace (within W ((pos t).1 + i32_MIN)) with 0 by (unfold within, i32_MIN; lia). done.
Qed.

Lemma runs_unwrap {S A B} (o : option A) (a : A) (k : A -> M S Empty_set B) s Q : o = Some a -> runs (k a) s Q -> runs (mbnd (munwrap o) k) s Q.
Proof. intros -> Hk. eapply runs_eq; [|exact Hk]. done. Qed.

Lemma sequence_spec es s t p : screen_rep s (t, p) -> drawable (Sequence es) ->
  runs (handle_escape_sequence es) s (fun _ s' => screen_rep s' (term_sequence W H th es t p)).
Proof using Hsz Hdim HW HH Hth.
  intros Hs [Hcol Hes]. unfold i32_MIN in *.
  destruct es; cbn [handle_escape_sequence term_sequence colors] in *; try (apply runs_Ok; by eexists _, s).
  - eapply runs_unwrap; [by apply neg_i32_small|]. apply move_spec; [done|lia|lia].
  - rewrite as_i32_small by lia. apply move_spec; [done|lia|lia].
  - rewrite as_i32_small by lia. apply move_spec; [done|lia|lia].
  - eapply runs_unwrap; [by apply neg_i32_small|]. apply move_spec; [done|lia|lia].
  - rewrite as_i32_small by lia. apply move_first_column; [done|lia].
  - eapply runs_unwrap; [by apply neg_i32_small|]. rewrite <- Z.add_opp_r. apply move_first_column; [done|lia].
  - eapply runs_unwrap; [apply checked_Some; unfold unsigned; lia|]. by apply set_spec.
  - eapply runs_unwrap; [apply checked_Some; unfold unsigned; lia|]. eapply runs_unwrap; [apply checked_Some; unfold unsigned; lia|]. by apply set_spec.
  - repeat case_match; try (apply runs_Ok; by eexists _, s); by apply screen_erase_spec.
  - repeat case_match; try (apply runs_Ok; by eexists _, s); by apply screen_erase_spec.
  - eapply runs_unwrap; [apply checked_Some; unfold unsigned; lia|]. eapply runs_unwrap; [apply checked_Some; unfold unsigned; lia|]. by apply set_spec.
  - by apply sgr_spec.
  - apply Forall_app in Hcol as [Ha Hb]. eapply runs_bind; [by apply sgr_spec|]. intros ? s1 Hs1. by apply sgr_spec.
  - apply Forall_app in Hcol as [Ha [Hb Hc]%Forall_app]. eapply runs_bind; [by apply sgr_spec|]. intros ? s1 Hs1. eapply runs_bind; [by apply (sgr_spec _ _ _ _ Hs1)|]. intros ? s2 Hs2. by apply (sgr_spec _ _ _ _ Hs2).
Qed.

Lemma screen_result_spec res s x : screen_rep s x -> drawable res -> runs (screen_result res) s (fun _ s' => screen_rep s' (term_result W H th x res)).
Proof using Hsz Hdim HW HH Hth.
  destruct x as [t p]. intros Hs Hd. destruct res as [c|es]; [|by apply sequence_spec]. cbn [screen_result term_result fst snd]. pose proof Hs as (_ & _ & Ht & Hp).
  destruct (get_fg_of _ _ Hp) as (f & Ef & Hf). destruct (get_bg_of _ _ Hp) as (k & Ek & Hk). destruct Hp as (_ & _ & Hst & _). cbn [snd] in *.
  eapply runs_eq; [unfold put_char, mget, mbnd at 1; rewrite Ht, Hst; unfold mbnd at 1; rewrite Ef; unfold munwrap, ret, mbnd at 1; rewrite Ek; reflexivity|].
  rewrite Hf, Hk. eapply on_buf_spec; [done|]. intros. by apply put_spec.
Qed.

Lemma screen_results_spec rs : forall s x, screen_rep s x -> Forall drawable rs -> runs (screen_results rs) s (fun _ s' => screen_rep s' (foldl (term_result W H th) x rs)).
Proof using Hsz Hdim HW HH Hth.
  induction rs as [|res rs IH]; intros s x Hs Hrs; [apply runs_Ok; by eexists _, s|]. apply Forall_cons in Hrs as [Hr Hrs]. cbn [screen_results foldl].
  eapply runs_bind; [by apply screen_result_spec|]. intros ? s1 Hs1. by apply IH.
Qed.

End ScreenLemmas.

(** ** Lemmas: chunks *)

Lemma len_utf8_range c : 1 <= len_utf8 c <= 4.
Proof. unfold len_utf8. repeat case_match; lia. Qed.

Lemma str_len_nonneg s : 0 <= str_len s.
Proof. induction s as [|c s IH]; cbn [str_len]; [lia|]. pose proof (len_utf8_range c). lia. Qed.

Lemma split_at_spec s : forall i a z, split_at s i = Some (a, z) -> s = a ++ z /\ str_len a = i.
Proof.
  induction s as [|c s IH]; intros i a z; cbn [split_at]; destruct (i =? 0) eqn:Hi; intros E; simplify_eq; [split; [done|simpl; lia]|split; [done|simpl; lia]|].
  destruct (i <? len_utf8 c); [done|]. destruct (split_at s (i - len_utf8 c)) as [[a' z']|] eqn:Hs; [|done]. cbn [mbind option_bind] in E. simplify_eq.
  destruct (IH _ _ _ Hs) as [-> ?]. split; [done|]. cbn [str_len]. lia.
Qed.

(** Every four positions have the boundary of a character among them. *)
Lemma boundary_near s : forall i, 0 <= i <= str_len s -> exists k, i - 3 <= k <= i /\ 0 <= k /\ is_char_boundary s k = true.
Proof.
  unfold is_char_boundary. induction s as [|c s IH]; intros i Hi; cbn [str_len] in Hi.
  - exists 0. split; [lia|]. split; [lia|done].
  - pose proof (len_utf8_range c) as Hc. destruct (decide (i < len_utf8 c)); [exists 0; split; [lia|]; by split|].
    destruct (IH (i - len_utf8 c)) as (k & Hk & Hk0 & Hb); [lia|]. exists (k + len_utf8 c). split; [lia|]. split; [lia|]. cbn [split_at].
    replace (k + len_utf8 c =? 0) with false by lia. replace (k + len_utf8 c <? len_utf8 c) with false by lia. replace (k + len_utf8 c - len_utf8 c) with k by lia.
    by destruct (split_at s k) as [[]|].
Qed.

Lemma boundary_end s : is_char_boundary s (str_len s) = true.
Proof.
  unfold is_char_boundary. induction s as [|c s IH]; [done|]. cbn [str_len split_at]. pose proof (len_utf8_range c). pose proof (str_len_nonneg s).
  replace (len_utf8 c + str_len s =? 0) with false by lia. replace (len_utf8 c + str_len s <? len_utf8 c) with false by lia. replace (len_utf8 c + str_len s - len_utf8 c) with (str_len s) by lia.
  by destruct (split_at s (str_len s)) as [[]|].
Qed.

Lemma boundary_below_spec s k fuel : forall i, 0 <= k <= i -> i < 2 ^ 64 -> i - k <= Z.of_nat fuel -> is_char_boundary s k = true ->
  exists j, boundary_below fuel s i = Ok j /\ k <= j <= i /\ is_char_boundary s j = true.
Proof.
  induction fuel as [|fuel IH]; intros i Hk Hi Hf Hb; cbn [boundary_below]; destruct (is_char_boundary s i) eqn:Hbi; try (exists i; split; [done|split; [lia|done]]).
  - assert (i = k) by lia. subst. congruence.
  - assert (i <> k) by congruence. unfold sub_checked. rewrite checked_Some by (unfold unsigned; lia). destruct (IH (i - 1)) as (j & -> & Hj & Hbj); [lia..|done|]. exists j. split; [done|]. split; [lia|done].
Qed.

(** [write_str] cuts a text at character boundaries into chunks of at most 64 bytes. *)
Lemma write_chunks_spec fuel : forall s, (length s <= fuel)%nat -> exists cs, write_chunks fuel s = Ok cs /\ mjoin cs = s /\ Forall (fun c => 0 < str_len c <= OUT_CHUNK_SIZE) cs.
Proof.
  induction fuel as [|fuel IH]; intros s Hs; cbn [write_chunks].
  { destruct s; [|simpl in Hs; lia]. by exists []. }
  destruct s as [|c s]; [by exists []|]. set (s0 := c :: s) in *. pose proof (len_utf8_range c) as Hc. pose proof (str_len_nonneg s) as Hn.
  assert (Hlen : 0 < str_len s0) by (unfold s0; cbn [str_len]; lia). replace (0 <? str_len s0) with true by lia. unfold OUT_CHUNK_SIZE in *.
  assert (Hk : exists k, 1 <= k <= Z.min (str_len s0) 64 /\ Z.min (str_len s0) 64 - k <= 3 /\ is_char_boundary s0 k = true).
  { destruct (decide (str_len s0 <= 64)).
    - exists (str_len s0). split; [lia|]. split; [lia|apply boundary_end].
    - destruct (boundary_near s0 64) as (k & Hk1 & _ & Hb); [lia|]. exists k. split; [lia|]. split; [lia|done]. }
  destruct Hk as (k & Hk & Hk3 & Hbk). destruct (boundary_below_spec s0 k 64 (Z.min (str_len s0) 64)) as (j & -> & Hj & Hbj); [lia|lia|lia|done|].
  unfold is_char_boundary in Hbj. destruct (split_at s0 j) as [[chunk next_s]|] eqn:Hsp; [|done]. apply split_at_spec in Hsp as [Es Ej].
  replace (str_len chunk <=? 64) with true by lia. destruct (IH next_s) as (cs & -> & <- & Hall).
  { assert (chunk <> []) by (intros ->; simpl in Ej; lia). apply (f_equal length) in Es. rewrite length_app in Es. destruct chunk; [done|]. simpl in *. lia. }
  exists (chunk :: cs). split; [done|]. split; [done|]. constructor; [lia|done].
Qed.

(** ** Lemmas: output *)

Lemma on_screen_runs {A} (m : SM A) o (Q : A -> Screen -> Prop) : runs m (screen o) Q ->
  runs (on_screen m) o (fun a o' => Q a (screen o') /\ decoder o' = decoder o /\ next_render_ticks o' = next_render_ticks o).
Proof. intros (a & s & E & HQ)%runs_Ok. apply runs_Ok. unfold on_screen. rewrite E. by eexists _, _. Qed.

(** The output task does to the screen what the decoded text says. *)
Lemma output_chars_decode chs : forall rs st' o s', decode (decoder o) chs = Ok (rs, st') -> screen_results rs (screen o) = (Ok tt, s') ->
  output_chars chs o = (Ok tt, {| screen := s'; decoder := st'; next_render_ticks := next_render_ticks o |}).
Proof.
  induction chs as [|c chs IH]; intros rs st' o s'; cbn [decode output_chars].
  { intros [= <- <-]. cbn [screen_results]. intros [= <-]. by destruct o. }
  destruct (add_char (decoder o) c) as [[res st]| | |] eqn:Ha; try done. destruct (decode st chs) as [[rs1 st1]| | |] eqn:Hd; try done. intros [= <- <-] Hs.
  unfold mbnd at 1. unfold output_char, mget, mput. unfold mbnd at 1. rewrite Ha. unfold mbnd at 1.
  destruct res as [res|]; [|by apply (IH rs1 st1 {| screen := screen o; decoder := st; next_render_ticks := next_render_ticks o |})].
  assert (Hr : exists s1, screen_result res (screen o) = (Ok tt, s1) /\ screen_results rs1 s1 = (Ok tt, s')).
  { cbn [screen_results] in Hs. unfold mbnd in Hs. destruct (screen_result res (screen o)) as [[[]|[]| |] s1]; try done. by exists s1. }
  destruct Hr as (s1 & Hr1 & Hr2). specialize (IH rs1 st1 {| screen := s1; decoder := st; next_render_ticks := next_render_ticks o |} s' Hd Hr2).
  destruct res; cbn [screen_result] in Hr1; unfold on_screen; cbn [screen decoder next_render_ticks]; by rewrite Hr1.
Qed.

Lemma decode_app_inv a : forall st z rs st', decode st (a ++ z) = Ok (rs, st') ->
  exists r1 st1 r2, decode st a = Ok (r1, st1) /\ decode st1 z = Ok (r2, st') /\ rs = r1 ++ r2.
Proof.
  induction a as [|c a IH]; intros st z rs st'; cbn [decode app]; [by exists [], st, rs|].
  destruct (add_char st c) as [[res st0]| | |]; try done. destruct (decode st0 (a ++ z)) as [[rs0 st2]| | |] eqn:Hd; try done. intros [= <- <-].
  destruct (IH _ _ _ _ Hd) as (r1 & st1 & r2 & -> & Hz & ->). eexists _, st1, r2. split; [reflexivity|]. split; [done|]. by destruct res.
Qed.

Definition clock_ok (step : (Z * Z) * option (list Z)) : Prop := 0 <= step.1.1 <= step.1.2 /\ step.1.2 < 2 ^ 63.

Lemma render_interval : RENDER_INTERVAL = 8.
Proof. done. Qed.

Section OutputLemmas.
Context `{GS : GlyphSource}.
Variables (sz W H : Z) (fb0 : FrameBuffer) (th : ColorScheme).
Hypothesis Hsz : 0 < sz < 2 ^ 29.
Hypothesis Hfit : glyphs_fit sz.
Hypothesis Hfb0 : fb_ok fb0.
Hypothesis Hdim : width fb0 < 2 ^ 29 /\ height fb0 < 2 ^ 29.
Hypothesis HW : 0 < W /\ W * uw sz <= width fb0.
Hypothesis HH : 0 < H /\ H * sz <= height fb0.
Hypothesis Hth : scheme_ok th.
Local Abbreviation srep := (screen_rep sz W H fb0 th).

Lemma screen_render_spec s x : srep s x -> runs screen_render s (fun _ s' => srep s' x /\ tdiff (sbuf s') = None).
Proof using Hsz Hfit Hfb0 Hdim HW HH.
  destruct x as [t p]. intros (Hok & Hrep & Ht & Hp & Hpo). cbn [fst snd] in *. unfold screen_render.
  eapply runs_mono; [apply on_buf_runs; by apply (render_spec sz W H fb0 Hsz Hfit Hfb0 Hdim HW HH _ t)|].
  intros ? s' ((Hok' & Hrep' & Hd) & Et & Ep). unfold screen_rep. cbn [fst snd]. by rewrite Et, Ep.
Qed.

Lemma poll_spec t t' o x : srep (screen o) x -> 0 <= t <= t' -> t' < 2 ^ 63 -> 0 <= next_render_ticks o < 2 ^ 64 ->
  runs (output_poll t t') o (fun d o' => srep (screen o') x /\ decoder o' = decoder o /\ 0 <= next_render_ticks o' < 2 ^ 64 /\ 0 <= d).
Proof using Hsz Hfit Hfb0 Hdim HW HH.
  intros Hs Ht Ht' Hn. apply runs_Ok. unfold output_poll, mget, mput. unfold mbnd at 1. destruct (next_render_ticks o <=? t) eqn:Hr.
  - pose proof (on_screen_runs _ o _ (screen_render_spec _ _ Hs)) as (a & o1 & E & (Hs1 & _) & Hd1 & Hn1)%runs_Ok. unfold mbnd. rewrite E. unfold add_checked, sub_checked.
    rewrite checked_Some by (unfold unsigned; rewrite render_interval; lia). cbn [munwrap ret next_render_ticks].
    rewrite checked_Some by (unfold unsigned; rewrite render_interval; lia). eexists _, _. split; [reflexivity|]. cbn [screen decoder next_render_ticks].
    split; [done|]. split; [done|]. rewrite render_interval. lia.
  - unfold mbnd, ret, sub_checked. rewrite checked_Some by (unfold unsigned; lia). eexists _, o. split; [reflexivity|]. split; [done|]. split; [done|]. lia.
Qed.

Lemma output_steps_spec steps : forall o x rs st', srep (screen o) x -> 0 <= next_render_ticks o < 2 ^ 64 -> Forall clock_ok steps ->
  decode (decoder o) (mjoin (omap snd steps)) = Ok (rs, st') -> Forall drawable rs ->
  runs (output_steps steps) o (fun _ o' => srep (screen o') (foldl (term_result W H th) x rs) /\ decoder o' = st').
Proof using Hsz Hfit Hfb0 Hdim HW HH Hth.
  induction steps as [|[[t t'] out] steps IH]; intros o x rs st' Hs Hn Hcl Hd Hrs; cbn [output_steps].
  { cbn in Hd. injection Hd as <- <-. apply runs_Ok. by eexists _, o. }
  apply Forall_cons in Hcl as [[Hc1 Hc2] Hcl]. cbn [fst snd] in *. unfold output_step.
  pose proof (poll_spec t t' o x Hs Hc1 Hc2 Hn) as (a & o1 & E1 & Hs1 & Hd1 & Hn1 & _)%runs_Ok.
  assert (Hout : exists o2 r1 r2, (match out with Some out => output_chars out | None => ret tt end) o1 = (Ok tt, o2) /\ rs = r1 ++ r2 /\
    srep (screen o2) (foldl (term_result W H th) x r1) /\ 0 <= next_render_ticks o2 < 2 ^ 64 /\ decode (decoder o2) (mjoin (omap snd steps)) = Ok (r2, st')).
  { destruct out as [out|]; cbn [omap list_omap snd] in Hd.
    - cbn [mjoin list_join] in Hd. destruct (decode_app_inv _ _ _ _ _ Hd) as (r1 & st1 & r2 & Ha & Hz & ->). apply Forall_app in Hrs as [Hr1 Hr2]. rewrite <- Hd1 in Ha.
      pose proof (screen_results_spec sz W H fb0 th Hsz Hdim HW HH Hth r1 _ _ Hs1 Hr1) as ([] & s2 & E2 & Hs2)%runs_Ok.
      rewrite (output_chars_decode _ _ _ _ _ Ha E2). eexists _, r1, r2. split; [reflexivity|]. done.
    - exists o1, [], rs. split; [done|]. rewrite Hd1. done. }
  destruct Hout as (o2 & r1 & r2 & E2 & -> & Hs2 & Hn2 & Hd2). apply Forall_app in Hrs as [_ Hr2]. rewrite foldl_app.
  eapply runs_bind; [|intros ? o' Ho'; exact Ho'].
  - apply runs_Ok. eexists tt, o2. split; [unfold mbnd; rewrite E1; exact E2|]. by apply IH.
Qed.
End OutputLemmas.

(** ** Lemmas: input *)

Lemma com1_inputs `{KB : PcKeyboard} chs : forall rs st' s, Forall (fun c => 0 <= c <= 0x7e /\ c <> 0x0d) chs -> decode (com1_decoder s) chs = Ok (rs, st') ->
  raw_inputs (Com1 <$> chs) s = (Ok (omap input_of_result rs), {| kbd_decoder := kbd_decoder s; com1_decoder := st' |}).
Proof.
  induction chs as [|c chs IH]; intros rs st' s Hc; cbn [decode fmap list_fmap raw_inputs].
  { intros [= <- <-]. by destruct s. }
  apply Forall_cons in Hc as [[Hc Hcr] Hcs]. destruct (add_char (com1_decoder s) c) as [[res st]| | |] eqn:Ha; try done. destruct (decode st chs) as [[rs1 st1]| | |] eqn:Hd; try done. intros [= <- <-].
  assert (Hraw : raw_input (Com1 c) s = (Ok (res ≫= input_of_result), {| kbd_decoder := kbd_decoder s; com1_decoder := st |})).
  { unfold raw_input, mget, mbnd. replace (c =? 0x7f) with false by lia. replace (c =? 0x0d) with false by lia. replace (c <=? 0x7e) with true by lia. by rewrite Ha. }
  unfold mbnd. rewrite Hraw, (IH rs1 st1 {| kbd_decoder := kbd_decoder s; com1_decoder := st |} Hcs Hd). unfold ret. do 2 f_equal. destruct res as [res|]; [|done]. cbn. by destruct (input_of_result res).
Qed.

(** ** Lemmas: the input *)

Definition accepted (e : input_event) : option RawInput := match e with Accept i => Some i | _ => None end.

Section Input_path.
Context `{KB : PcKeyboard} {R I : Type} `{QR : MpMcQueue R RawInput} `{QI : MpMcQueue I Input}.
Context (raw_contents : R -> list RawInput) (in_contents : I -> list Input) `{!MpMcLaws R RawInput 128 raw_contents} `{!MpMcLaws I Input 128 in_contents}.

Lemma raw_inputs_snoc ins i st os st' : raw_inputs ins st = (Ok os, st') ->
  raw_inputs (ins ++ [i]) st = match raw_input i st' with
    | (Ok o, st2) => (Ok (os ++ option_list o), st2) | (Err e, st2) => (Err e, st2) | (Panic, st2) => (Panic, st2) | (Diverge, st2) => (Diverge, st2) end.
Proof.
  revert st os. induction ins as [|j ins IH]; intros st os Hr; cbn [raw_inputs app] in *.
  - injection Hr as <- <-. unfold mbnd. destruct (raw_input i st) as [[o|e| |] st2]; [|done..]. cbn. by rewrite app_nil_r.
  - unfold mbnd at 1 in Hr. unfold mbnd at 1. destruct (raw_input j st) as [[o|e| |] st2]; try done. unfold mbnd in Hr. destruct (raw_inputs ins st2) as [[os2|e| |] st3] eqn:H2; try done.
    injection Hr as <- <-. unfold mbnd. rewrite (IH _ _ H2). destruct (raw_input i st3) as [[o2|e| |] st4]; [|done..]. cbn. by rewrite app_assoc.
Qed.

Lemma raw_inputs_length ins st os st' : raw_inputs ins st = (Ok os, st') -> (length os <= length ins)%nat.
Proof.
  revert st os. induction ins as [|j ins IH]; intros st os Hr; cbn [raw_inputs] in Hr; [by injection Hr as <- _|].
  unfold mbnd at 1 in Hr. destruct (raw_input j st) as [[o|e| |] st2]; try done. unfold mbnd in Hr. destruct (raw_inputs ins st2) as [[os2|e| |] st3] eqn:H2; try done.
  injection Hr as <- <-. specialize (IH _ _ H2). rewrite length_app. destruct o; cbn; lia.
Qed.

(** [h]: the raw inputs that were handled; [tk]: what was taken so far *)
Lemma input_events_order es : forall p h tk st0,
  raw_inputs h st0 = (Ok (tk ++ in_contents (in_ p)), input_state p) ->
  (length h + length (raw_contents (raw_in p)) + length (omap accepted es) <= 128)%nat ->
  match input_events es p with
  | (Ok taken, p') => exists h', h ++ raw_contents (raw_in p) ++ omap accepted es = h' ++ raw_contents (raw_in p') /\
      raw_inputs h' st0 = (Ok (tk ++ taken ++ in_contents (in_ p')), input_state p')
  | (_, _) => exists h' rest, h ++ raw_contents (raw_in p) ++ omap accepted es = h' ++ rest /\ forall os, (raw_inputs h' st0).1 <> Ok os
  end.
Proof.
  induction es as [|[i| |] es IH]; intros p h tk st0 Hr Hl; cbn [input_events omap list_omap accepted] in *.
  - exists h. by rewrite app_nil_r.
  - cbn [length] in Hl. destruct (mq_enqueue_ok i (raw_in p)) as (q & Hq & Hc); [lia|].
    assert (Hp : accept_raw_input i p = {| raw_in := q; in_ := in_ p; input_state := input_state p |}) by (unfold accept_raw_input; by rewrite Hq).
    rewrite Hp. specialize (IH {| raw_in := q; in_ := in_ p; input_state := input_state p |} h tk st0 Hr). cbn [raw_in in_ input_state] in IH.
    rewrite Hc in IH. rewrite length_app in IH. cbn [length] in IH. rewrite <- app_assoc in IH. apply IH. lia.
  - unfold mbnd at 1, handle_raw_input. destruct (raw_contents (raw_in p)) as [|i l] eqn:El.
    + rewrite mq_dequeue_empty by done. specialize (IH p h tk st0 Hr). rewrite El in IH. by apply IH.
    + destruct (mq_dequeue_ok _ _ _ El) as (q & Hq & Hc). rewrite Hq. pose proof (raw_inputs_snoc h i st0 _ _ Hr) as Hs. cbn [length] in Hl.
      destruct (raw_input i (input_state p)) as [[o|e| |] st2] eqn:Ei;
        [|exists (h ++ [i]), (l ++ omap accepted es); split; [by rewrite <- app_assoc|intros os; by rewrite Hs]..].
      set (q2 := match o with Some x => default (in_ p) (mq_enqueue x (in_ p)) | None => in_ p end).
      assert (Hq2 : in_contents q2 = in_contents (in_ p) ++ option_list o).
      { destruct o as [x|]; cbn; [|by rewrite app_nil_r]. pose proof (raw_inputs_length _ _ _ _ Hr) as Hlen. rewrite length_app in Hlen.
        destruct (mq_enqueue_ok x (in_ p)) as (q3 & Hq3 & Hc3); [lia|]. unfold q2. by rewrite Hq3. }
      specialize (IH {| raw_in := q; in_ := q2; input_state := st2 |} (h ++ [i]) tk st0). cbn [raw_in in_ input_state] in IH. rewrite Hc, Hq2 in IH.
      rewrite app_assoc in IH. specialize (IH Hs). rewrite length_app in IH. cbn [length] in IH. rewrite <- !app_assoc in IH. apply IH. lia.
  - destruct (in_contents (in_ p)) as [|x l] eqn:El.
    + rewrite mq_dequeue_empty by done. apply IH; [by rewrite El|done].
    + destruct (mq_dequeue_ok _ _ _ El) as (q & Hq & Hc). rewrite Hq. specialize (IH {| raw_in := raw_in p; in_ := q; input_state := input_state p |} (h) (tk ++ [x]) st0).
      cbn [raw_in in_ input_state] in IH. rewrite Hc, <- app_assoc in IH. specialize (IH Hr Hl). unfold mbnd.
      destruct (input_events es _) as [[taken|e| |] p']; [|done..]. destruct IH as (h' & E & Hh). exists h'. split; [done|]. by rewrite <- app_assoc in Hh.
Qed.
End Input_path.

(** ** Properties *)

(** [C14]. What is written to the console is shown on the screen. The text of any
    characters and escape sequences, with cursor positions from 1 and distances below
    2^30 ([drawable]; outside of it see [column_zero_panics] and [far_up_panics]), is cut into
    chunks for the queue; however the chunks and the renderings interleave, the output
    task decodes them without a panic, and the next rendering shows the characters of
    a terminal that has processed the sequences, in the colors and the style that
    were selected last. *)
Theorem console_shows_output `{GS : GlyphSource} (fb : FrameBuffer) (rs : list DecodeResult) (css : list (list Z)) (W H : Z) :
  glyphs_fit FONT_SIZE -> fb_ok fb -> width fb < 2 ^ 29 /\ height fb < 2 ^ 29 -> W = width fb / 7 -> H = height fb / 14 -> 0 < W -> 0 < H ->
  Forall2 (fun res cs => print res = Some cs) rs css -> Forall drawable rs ->
  exists o0 chunks, Output_new fb = Some o0 /\ write_str true (mjoin css) = Ok chunks /\ forall steps, omap snd steps = chunks -> Forall clock_ok steps ->
    exists o1 o2, output_steps steps o0 = (Ok tt, o1) /\ on_screen screen_render o1 = (Ok tt, o2) /\
      displays FONT_SIZE W H fb (tbuf (sbuf (screen o2))) (foldl (term_result W H OneMonokai) (term_new, plain) rs).1.
Proof.
  intros Hfit Hfb Hdim EW EH HW0 HH0 Hpr Hdr. assert (Hsz : 0 < FONT_SIZE < 2 ^ 29) by (unfold FONT_SIZE; lia). assert (Huw : uw FONT_SIZE = 7) by done.
  assert (HW : 0 < W /\ W * uw FONT_SIZE <= width fb) by (rewrite Huw; split; [done|]; subst W; rewrite Z.mul_comm; apply Z.mul_div_le; lia).
  assert (HH : 0 < H /\ H * FONT_SIZE <= height fb) by (split; [done|]; subst H; rewrite Z.mul_comm; apply Z.mul_div_le; lia).
  destruct (new_spec FONT_SIZE W H fb Hsz Hfb Hdim HW HH) as (t0 & E0 & Ht0 & Hr0 & _); [by rewrite Huw|done|].
  destruct (write_chunks_spec (length (mjoin css)) (mjoin css)) as (chunks & Ec & Hj & _); [done|]. unfold Output_new, Screen_new. rewrite E0.
  eexists _, chunks. split; [reflexivity|]. split; [exact Ec|]. intros steps Hsteps Hcl.
  pose proof (print_all_decode rs css Hpr []) as Hdec. rewrite app_nil_r in Hdec. cbn [decode] in Hdec. rewrite app_nil_r, <- Hj, <- Hsteps in Hdec.
  pose proof (output_steps_spec FONT_SIZE W H fb OneMonokai Hsz Hfit Hfb Hdim HW HH OneMonokai_ok steps {| screen := {| sbuf := t0; theme := OneMonokai; pen := new_pen |}; decoder := Init; next_render_ticks := 0 |} (term_new, plain) rs Init) as Hrun.
  apply runs_Ok in Hrun as ([] & o1 & E1 & Hs1 & _); [|split; [exact Ht0|]; split; [exact Hr0|done]|cbn [next_render_ticks]; lia|done|exact Hdec|done].
  pose proof (on_screen_runs _ o1 _ (screen_render_spec FONT_SIZE W H fb OneMonokai Hsz Hfit Hfb Hdim HW HH _ _ Hs1)) as ([] & o2 & E2 & ((Hok2 & Hrep2 & _) & Hd2) & _)%runs_Ok.
  exists o1, o2. split; [exact E1|]. split; [exact E2|]. by eapply tb_displays.
Qed.

(** Writing to the console ends for every text: the chunks are the text in
    order, none is empty, and each fits the 64 bytes of a queue entry although the
    text is cut between characters only. *)
Theorem write_str_chunks (s : list Z) :
  exists chunks, write_str true s = Ok chunks /\ mjoin chunks = s /\ Forall (fun c => 0 < str_len c <= OUT_CHUNK_SIZE) chunks.
Proof. by apply write_chunks_spec. Qed.

(** Interrupts, the input task and the readers may take turns in any order: as long
    as not more than 128 bytes have come in, no input is lost, and what the readers have
    taken and what waits for them is what decoding the handled bytes gives, in their
    order; the task stops only at bytes on which the decoder panics. *)
Theorem input_in_order `{KB : PcKeyboard} {R I : Type} `{MpMcQueue R RawInput} `{MpMcQueue I Input} (raw_contents : R -> list RawInput) (in_contents : I -> list Input)
  `{!MpMcLaws R RawInput 128 raw_contents} `{!MpMcLaws I Input 128 in_contents} (es : list input_event) (p : InputPath (R := R) (I := I)) :
  raw_contents (raw_in p) = [] -> in_contents (in_ p) = [] -> (length (omap accepted es) <= 128)%nat ->
  match input_events es p with
  | (Ok taken, p') => exists handled, omap accepted es = handled ++ raw_contents (raw_in p') /\
      raw_inputs handled (input_state p) = (Ok (taken ++ in_contents (in_ p')), input_state p')
  | _ => exists handled rest, omap accepted es = handled ++ rest /\ forall os, (raw_inputs handled (input_state p)).1 <> Ok os
  end.
Proof.
  intros Hr Hi Hl. pose proof (input_events_order raw_contents in_contents es p [] [] (input_state p)) as He. rewrite Hr, Hi in He.
  apply He; [done|cbn; lia].
Qed.

(** ** Behaviours outside of these conditions *)

(** The position 0, which the decoder accepts, is one less than the first. *)
Lemma column_zero_panics s : (handle_escape_sequence (CursorHorizontalAbsolute 0) s).1 = Panic.
Proof. done. Qed.

(** A distance of 2^31 cannot be negated. *)
Lemma far_up_panics s : (handle_escape_sequence (CursorUp (2 ^ 31)) s).1 = Panic.
Proof. done. Qed.

(** ** Witnesses *)

Definition demo_text : list DecodeResult := [Just 65; Sequence (Sgr1 (Fg (Named Red Dimmer))); Sequence (CursorPosition 2 3); Just 66; Sequence (EraseInLine 0)].

Lemma console_shows_output_witness : exists css chunks, Forall2 (fun res cs => print res = Some cs) demo_text css /\
  write_str true (mjoin css) = Ok chunks /\ length chunks = 1%nat /\ exists o0 o1, Output_new (VecBuffer_new 40 30 Bgrx) = Some o0 /\
    output_steps (H := dots) ((fun c => ((5, 6), Some c)) <$> chunks) o0 = (Ok tt, o1).
Proof.
  exists [[65]; [27; 91; 51; 49; 109]; [27; 91; 50; 59; 51; 72]; [66]; [27; 91; 48; 75]].
  destruct (console_shows_output (GS := dots) (VecBuffer_new 40 30 Bgrx) demo_text
    [[65]; [27; 91; 51; 49; 109]; [27; 91; 50; 59; 51; 72]; [66]; [27; 91; 48; 75]] 5 2) as (o0 & chunks & E0 & Ec & Hrun);
    [apply dots_fit|apply vec_buffer_ok; lia|by split|done|done|done|done|repeat constructor|repeat constructor; simpl; lia|].
  exists chunks. split; [repeat constructor|]. split; [exact Ec|].
  destruct (Hrun ((fun c => ((5, 6), Some c)) <$> chunks)) as (o1 & o2 & E1 & _).
  - clear. induction chunks as [|c cs IH]; [done|]. simpl. by f_equal.
  - apply Forall_fmap, Forall_forall. intros c _. unfold clock_ok. simpl. lia.
  - split; [vm_compute in Ec; by injection Ec as <-|]. exists o0, o1. split; [exact E0|exact E1].
Defined.

(** Queues as lists, and a keyboard that decodes nothing *)
Definition list_queue (T : Type) : MpMcQueue (list T) T := {|
  mq_enqueue x q := if (length q <? 128)%nat then Some (q ++ [x]) else None;
  mq_dequeue q := match q with [] => None | x :: q => Some (x, q) end |}.

Lemma list_queue_laws T : MpMcLaws (H := list_queue T) (list T) T 128 (fun q => q).
Proof.
  split; simpl.
  - intros x q Hq. rewrite (proj2 (Nat.ltb_lt _ _) Hq). eauto.
  - intros x q Hq. by rewrite (proj2 (Nat.ltb_ge _ _) Hq).
  - intros q x l ->. eauto.
  - by intros q ->.
Qed.

Definition no_keyboard : PcKeyboard := {| keyboard := unit; keyboard_new := tt; add_byte _ _ := (None, tt); process_keyevent _ _ := (None, tt) |}.

(** An arrow key on the serial line, in two parts, and a letter *)
Definition demo_events : list input_event := [Accept (Com1 27); Accept (Com1 91); Handle; Accept (Com1 65); Handle; Handle; Take; Accept (Com1 120); Handle; Take].

Lemma input_in_order_witness : exists p', input_events (KB := no_keyboard) (QR := list_queue RawInput) (QI := list_queue Input) demo_events
    {| raw_in := []; in_ := []; input_state := {| kbd_decoder := KbdDecoder_new (KB := no_keyboard); com1_decoder := Init |} |} = (Ok [ArrowUp; Char 120], p') /\
  exists handled, handled = Com1 <$> [27; 91; 65; 120] /\ raw_inputs (KB := no_keyboard) handled {| kbd_decoder := KbdDecoder_new; com1_decoder := Init |} = (Ok [ArrowUp; Char 120], input_state p').
Proof.
  pose proof (input_in_order (KB := no_keyboard) (H := list_queue RawInput) (H0 := list_queue Input) (fun q => q) (fun q => q)
    (MpMcLaws0 := list_queue_laws RawInput) (MpMcLaws1 := list_queue_laws Input) demo_events
    {| raw_in := []; in_ := []; input_state := {| kbd_decoder := KbdDecoder_new (KB := no_keyboard); com1_decoder := Init |} |} eq_refl eq_refl ltac:(vm_compute; lia)) as Hi.
  vm_compute (input_events _ _) in Hi. destruct Hi as (handled & Ha & Hh).
  eexists. split; [vm_compute; reflexivity|]. exists handled. split; [|exact Hh]. cbn in Ha. rewrite app_nil_r in Ha. by rewrite <- Ha.
Defined.
