(* ===== verification/Text.v ===== *)
(** * Text and floating-point numbers

    What the shell uses of the standard library: characters and UTF-8, splitting and
    joining, numbers in formatted text, and [f64]. A [str] is the list of its
    characters. *)

From stdpp Require Import strings.
From Stdlib Require Import Floats.SpecFloat.
From S2P Require Import Prelude Ansi.
Local Open Scope Z_scope.

(** ** Literals *)

Definition text (s : string) : list Z := (fun a => Z.of_N (Ascii.N_of_ascii a)) <$> String.list_ascii_of_string s.

Definition ESC : Z := 27.
Definition NL : Z := 10.

(** ** UTF-8 *)

(** The values of a [char]. *)
Definition scalar (c : Z) : bool := (0 <=? c) && (c <? 0x110000) && negb ((0xd800 <=? c) && (c <? 0xe000)).

Definition encode_utf8 (c : Z) : list Z :=
  if c <? 0x80 then [c]
  else if c <? 0x800 then [0xc0 + c / 64; 0x80 + c mod 64]
  else if c <? 0x10000 then [0xe0 + c / 4096; 0x80 + c / 64 mod 64; 0x80 + c mod 64]
  else [0xf0 + c / 262144; 0x80 + c / 4096 mod 64; 0x80 + c / 64 mod 64; 0x80 + c mod 64].

(** [str::as_bytes] *)
Fixpoint as_bytes (s : list Z) : list Z :=
  match s with
  | [] => []
  | c :: s => encode_utf8 c ++ as_bytes s
  end.

Definition continuation (b : Z) : bool := (0x80 <=? b) && (b <? 0xc0).

(** [String::from_utf8]: every sequence is the shortest one of a [char]. *)
Fixpoint from_utf8 (l : list Z) : option (list Z) :=
  match l with
  | [] => Some []
  | a :: l =>
      if a <? 0x80 then cons a <$> from_utf8 l
      else if a <? 0xe0 then
        match l with
        | b :: l => if (0xc2 <=? a) && continuation b then cons (64 * (a - 0xc0) + (b - 0x80)) <$> from_utf8 l else None
        | _ => None
        end
      else if a <? 0xf0 then
        match l with
        | b :: c :: l =>
            let ch := 4096 * (a - 0xe0) + 64 * (b - 0x80) + (c - 0x80) in
            if continuation b && continuation c && (0x800 <=? ch) && scalar ch then cons ch <$> from_utf8 l else None
        | _ => None
        end
      else
        match l with
        | b :: c :: d :: l =>
            let ch := 262144 * (a - 0xf0) + 4096 * (b - 0x80) + 64 * (c - 0x80) + (d - 0x80) in
            if continuation b && continuation c && continuation d && (0x10000 <=? ch) && scalar ch then cons ch <$> from_utf8 l else None
        | _ => None
        end
  end.

(** ** Splitting and joining *)

(** [char::is_whitespace]: the property [White_Space] of Unicode. *)
Definition is_whitespace (c : Z) : bool :=
  ((9 <=? c) && (c <=? 13)) || (c =? 32) || (c =? 0x85) || (c =? 0xa0) || (c =? 0x1680) || ((0x2000 <=? c) && (c <=? 0x200a)) ||
  (c =? 0x2028) || (c =? 0x2029) || (c =? 0x202f) || (c =? 0x205f) || (c =? 0x3000).

Fixpoint trim_start (s : list Z) : list Z :=
  match s with
  | c :: t => if is_whitespace c then trim_start t else s
  | [] => []
  end.

Definition trim (s : list Z) : list Z := rev (trim_start (rev (trim_start s))).

(** [w]: the characters of the current word. *)
Fixpoint words (w s : list Z) : list (list Z) :=
  match s with
  | [] => match w with [] => [] | _ => [w] end
  | c :: s =>
      if is_whitespace c then match w with [] => words [] s | _ => w :: words [] s end
      else words (w ++ [c]) s
  end.

Definition split_whitespace (s : list Z) : list (list Z) := words [] s.

(** [split(sep)]; [w]: the characters of the current part. *)
Fixpoint split_from (sep : Z) (w s : list Z) : list (list Z) :=
  match s with
  | [] => [w]
  | c :: s => if c =? sep then w :: split_from sep [] s else split_from sep (w ++ [c]) s
  end.

Definition split (sep : Z) (s : list Z) : list (list Z) := split_from sep [] s.

(** [join(sep)] *)
Fixpoint join (sep : list Z) (l : list (list Z)) : list Z :=
  match l with
  | [] => []
  | [s] => s
  | s :: l => s ++ sep ++ join sep l
  end.

(** ** Numbers in formatted text *)

(** [{}] of an unsigned integer of at most 64 bits. *)
Definition dec (n : Z) : list Z := digits 20 n.

Definition hex_digit (d : Z) : Z := if d <? 10 then 48 + d else 87 + d.

Fixpoint hex_digits (fuel : nat) (n : Z) : list Z :=
  match fuel with
  | O => []
  | S fuel => if n <? 16 then [hex_digit n] else hex_digits fuel (n / 16) ++ [hex_digit (n mod 16)]
  end.

(** [{:x}] *)
Definition hex (n : Z) : list Z := hex_digits 16 n.

(** Padding on the left, as in [{:>4}] and [{:02x}]. *)
Definition pad (fill : Z) (w : nat) (s : list Z) : list Z := replicate (w - length s) fill ++ s.

(** ** [f64] *)

Abbreviation f64 := spec_float.

(** [as f64], rounding to the nearest. *)
Definition f64_of (n : Z) : f64 := binary_normalize 53 1024 n 0 false.
Definition f64_mul (x y : f64) : f64 := SFmul 53 1024 x y.
Definition f64_div (x y : f64) : f64 := SFdiv 53 1024 x y.

(** [as] to an unsigned integer of [w] bits: truncation, saturation, 0 for NaN. *)
Definition f64_as (w : Z) (x : f64) : Z :=
  match x with
  | S754_finite false m e => Z.min (2 ^ w - 1) (if 0 <=? e then Z.pos m * 2 ^ e else Z.pos m / 2 ^ (- e))
  | S754_infinity false => 2 ^ w - 1
  | _ => 0
  end.

(** Division of integers to the nearest, ties to even. *)
Definition round_even (n d : Z) : Z :=
  let q := n / d in let r := n mod d in
  if 2 * r <? d then q else if d <? 2 * r then q + 1 else q + q mod 2.

(** [{:.2}] of a number that is not negative. *)
Definition fixed2 (x : f64) : list Z :=
  match x with
  | S754_finite _ m e =>
      let n := if 0 <=? e then Z.pos m * 2 ^ e * 100 else round_even (Z.pos m * 100) (2 ^ (- e)) in
      digits 400 (n / 100) ++ [46] ++ pad 48 2 (dec (n mod 100))
  | S754_zero _ => text "0.00"
  | S754_infinity _ => text "inf"
  | S754_nan => text "NaN"
  end.

(** ** Lemmas: UTF-8 *)

Lemma from_utf8_char c l : scalar c = true -> from_utf8 (encode_utf8 c ++ l) = cons c <$> from_utf8 l.
Proof.
  intros Hc. pose proof Hc as Hr. unfold scalar in Hr. unfold encode_utf8.
  pose proof (Z.div_mod c 64 ltac:(lia)) as E1. pose proof (Z.mod_pos_bound c 64 ltac:(lia)) as B1.
  destruct (c <? 0x80) eqn:H1; [cbn [app from_utf8]; by rewrite H1|].
  destruct (c <? 0x800) eqn:H2.
  { cbn [app from_utf8]. rewrite (proj2 (Z.ltb_ge _ _)), (proj2 (Z.ltb_lt _ _)) by lia. unfold continuation.
    replace (_ && _) with true by lia. f_equal. f_equal. lia. }
  pose proof (Z.div_mod (c / 64) 64 ltac:(lia)) as E2. pose proof (Z.mod_pos_bound (c / 64) 64 ltac:(lia)) as B2.
  assert (E3 : c / 4096 = c / 64 / 64) by (by rewrite Z.div_div by lia).
  destruct (c <? 0x10000) eqn:H3.
  { cbn [app from_utf8]. rewrite (proj2 (Z.ltb_ge _ 0x80)), (proj2 (Z.ltb_ge _ 0xe0)), (proj2 (Z.ltb_lt _ 0xf0)) by lia.
    replace (4096 * (0xe0 + c / 4096 - 0xe0) + 64 * (0x80 + c / 64 mod 64 - 0x80) + (0x80 + c mod 64 - 0x80)) with c by lia.
    rewrite Hc. unfold continuation. replace (_ && _) with true by lia. done. }
  pose proof (Z.div_mod (c / 64 / 64) 64 ltac:(lia)) as E4. pose proof (Z.mod_pos_bound (c / 64 / 64) 64 ltac:(lia)) as B4.
  assert (E5 : c / 262144 = c / 64 / 64 / 64) by (by rewrite !Z.div_div by lia).
  cbn [app from_utf8]. rewrite (proj2 (Z.ltb_ge _ 0x80)), (proj2 (Z.ltb_ge _ 0xe0)), (proj2 (Z.ltb_ge _ 0xf0)) by lia. rewrite E5, E3.
  replace (262144 * (0xf0 + c / 64 / 64 / 64 - 0xf0) + 4096 * (0x80 + (c / 64 / 64) mod 64 - 0x80) + 64 * (0x80 + c / 64 mod 64 - 0x80) + (0x80 + c mod 64 - 0x80)) with c by lia.
  rewrite Hc. unfold continuation. replace (_ && _) with true by lia. done.
Qed.

(** Decoding what was encoded. *)
Lemma from_utf8_as_bytes s : Forall (fun c => scalar c = true) s -> from_utf8 (as_bytes s) = Some s.
Proof. induction 1 as [|c s Hc _ IH]; [done|]. cbn [as_bytes]. by rewrite from_utf8_char, IH. Qed.

Lemma as_bytes_app s t : as_bytes (s ++ t) = as_bytes s ++ as_bytes t.
Proof. induction s as [|c s IH]; [done|]. cbn [app as_bytes]. by rewrite IH, app_assoc. Qed.

Lemma as_bytes_ok s : Forall (fun c => scalar c = true) s -> bytes_ok (as_bytes s).
Proof.
  induction 1 as [|c s Hc _ IH]; [constructor|]. cbn [as_bytes]. apply Forall_app. split; [|done]. unfold scalar in Hc. unfold encode_utf8.
  pose proof (Z.mod_pos_bound c 64 ltac:(lia)). pose proof (Z.mod_pos_bound (c / 64) 64 ltac:(lia)). pose proof (Z.mod_pos_bound (c / 4096) 64 ltac:(lia)).
  repeat case_cmp; repeat first [apply Forall_cons_2 | apply Forall_nil_2]; unfold unsigned;
    try (assert (0 <= c / 64 < 32) by (split; [apply Z.div_pos|apply Z.div_lt_upper_bound]; lia));
    try (assert (0 <= c / 4096 < 16) by (split; [apply Z.div_pos|apply Z.div_lt_upper_bound]; lia));
    try (assert (0 <= c / 262144 < 5) by (split; [apply Z.div_pos|apply Z.div_lt_upper_bound]; lia)); lia.
Qed.

(** ** Lemmas: words *)

(** What [split_whitespace] returns. *)
Definition word (w : list Z) : Prop := w <> [] /\ Forall (fun c => is_whitespace c = false) w.

Lemma words_word w v s : Forall (fun c => is_whitespace c = false) v -> words w (v ++ s) = words (w ++ v) s.
Proof.
  revert w. induction v as [|c v IH]; intros w Hv; [by rewrite app_nil_r|]. apply Forall_cons in Hv as [Hc Hv]. cbn [app words]. rewrite Hc, IH by done.
  by rewrite <- app_assoc.
Qed.

Lemma words_join ws : Forall word ws -> split_whitespace (join (text " ") ws) = ws.
Proof.
  unfold split_whitespace. induction 1 as [|w ws [Hne Hw] Hws IH]; [done|]. destruct ws as [|v ws].
  - cbn [join]. rewrite <- (app_nil_r w) at 1. rewrite words_word by done. cbn [words app]. by destruct w.
  - change (join (text " ") (w :: v :: ws)) with (w ++ text " " ++ join (text " ") (v :: ws)). rewrite words_word by done.
    cbn [app text]. cbn. destruct w as [|c w]; [done|]. f_equal. exact IH.
Qed.

Lemma trim_start_id s : match s with c :: _ => is_whitespace c = false | [] => True end -> trim_start s = s.
Proof. destruct s as [|c s]; [done|]. simpl. by intros ->. Qed.

Lemma join_ends ws c : Forall word ws -> (head (join (text " ") ws) = Some c \/ last (join (text " ") ws) = Some c) -> is_whitespace c = false.
Proof.
  induction 1 as [|w ws [Hne Hw] Hws IH]; [by intros [?|?]|]. rewrite Forall_forall in Hw.
  destruct ws as [|v ws]; [cbn [join]; intros [Hh|Hl]; apply Hw; [by apply head_Some_elem_of|by apply last_Some_elem_of]|].
  change (join (text " ") (w :: v :: ws)) with (w ++ text " " ++ join (text " ") (v :: ws)). intros [Hh|Hl].
  - apply Hw. destruct w as [|a w]; [done|]. injection Hh as ->. by left.
  - apply IH. right. rewrite app_assoc, last_app in Hl. destruct (last (join (text " ") (v :: ws))) eqn:Hj; [done|]. exfalso.
    apply last_None in Hj. apply Forall_inv in Hws as [Hv _]. destruct v; [done|]. by destruct ws.
Qed.

Lemma trim_join ws : Forall word ws -> trim (join (text " ") ws) = join (text " ") ws.
Proof.
  intros Hws. unfold trim. assert (Hs : trim_start (join (text " ") ws) = join (text " ") ws).
  { apply trim_start_id. destruct (join (text " ") ws) eqn:Hj; [done|]. apply (join_ends ws); [done|]. left. by rewrite Hj. }
  rewrite Hs. rewrite (trim_start_id (rev _)), rev_involutive; [done|]. destruct (rev (join (text " ") ws)) as [|c l] eqn:Hr; [done|].
  apply (join_ends ws); [done|]. right. rewrite <- (rev_involutive (join (text " ") ws)), Hr. cbn [rev]. apply last_snoc.
Qed.

Lemma join_Forall (P : Z -> Prop) sep l : Forall P sep -> Forall (Forall P) l -> Forall P (join sep l).
Proof.
  intros Hs. induction 1 as [|s l Hp Hl IH]; [constructor|]. destruct l as [|t l]; [done|].
  change (join sep (s :: t :: l)) with (s ++ sep ++ join sep (t :: l)). rewrite !Forall_app. done.
Qed.
