(* ===== verification/Paths.v ===== *)
(** * Paths (src/ors-kernel/src/shell.rs)

    The type [Path] of the shell: joining and printing, and the lookup of files and
    directories along the parts of a path. *)

From stdpp Require Import strings.
From S2P Require Import Prelude Ansi Text Volume BootSector FatEntry DirEntry LowLevel Fat FatFiles FatDirs.
Local Open Scope Z_scope.
Local Open Scope rust_scope.

(** ** Paths *)

(** [Path]: its parts, from the root. *)
Abbreviation Path := (list (list Z)).

Definition path_new : Path := [].

Definition path_step (parts : Path) (p : list Z) : Path :=
  if bool_decide (p = text "..") then take (length parts - 1) parts
  else if bool_decide (p = []) || bool_decide (p = text ".") then parts
  else parts ++ [p].

(** [Path::join] and [Path::joined] *)
Definition joined (parts : Path) (path : list Z) : Path := fold_left path_step (split 47 path) parts.

Definition dir_and_file_name (parts : Path) : option (Path * list Z) :=
  file_name ← last parts; Some (take (length parts - 1) parts, file_name).

(** [Display for Path] *)
Definition path_text (parts : Path) : list Z :=
  match parts with
  | [] => text "/"
  | _ => mjoin ((fun p => 47 :: p) <$> parts)
  end.

(** ** Looking up paths *)

Section lookup.
Context {St : Type} `{SectorCache St} (bs : BootSector).

(** [dir.files().find(|f| f.name() == name)] *)
Fixpoint find_loop (fuel ifuel : nat) (dir : Z) (name : list Z) (cur : cursor) : M St Error (option File) :=
  match fuel with
  | O => mdiverge
  | S fuel =>
      '(o, cur) <- dir_iter_next bs ifuel dir cur None;;
      match o with
      | None => drop_cursor cur;;; ret None
      | Some f =>
          if bool_decide (f_name f = name) then drop_cursor cur;;; ret (Some f)
          else find_loop fuel ifuel dir name cur
      end
  end.

Definition find_file (fuel : nat) (dir : Z) (name : list Z) : M St Error (option File) :=
  cur <- munwrap (files bs dir);; find_loop fuel fuel dir name cur.

(** The loop of [get_file] over the parts but the last, and the last lookup. *)
Fixpoint get_file_from (fuel : nat) (dir : Z) (parts : Path) : M St Error (option File) :=
  match parts with
  | [] => ret None
  | [p] => find_file fuel dir p
  | p :: parts =>
      o <- find_file fuel dir p;;
      match f ← o; as_dir f with
      | Some dir => get_file_from fuel dir parts
      | None => ret None
      end
  end.

Definition get_file (fuel : nat) (parts : Path) : M St Error (option File) := get_file_from fuel (root_dir bs) parts.

Definition get_dir (fuel : nat) (parts : Path) : M St Error (option Z) :=
  match parts with
  | [] => ret (Some (root_dir bs))
  | _ => o <- get_file fuel parts;; ret (f ← o; as_dir f)
  end.

End lookup.

(** ** Specification *)

(** The first file with a name. *)
Fixpoint find_named (nm : list Z) (fl : list File) : option File :=
  match fl with
  | [] => None
  | f :: fl => if bool_decide (f_name f = nm) then Some f else find_named nm fl
  end.

Lemma find_named_app nm f1 f f2 : (nm ∉ f_name <$> f1) -> f_name f = nm -> find_named nm (f1 ++ f :: f2) = Some f.
Proof.
  intros Hn Hf. induction f1 as [|g f1 IH]; simpl.
  - by rewrite bool_decide_eq_true_2.
  - rewrite fmap_cons, not_elem_of_cons in Hn. destruct Hn. rewrite bool_decide_eq_false_2 by done. by apply IH.
Qed.

Section lookup_spec.
Context {bs : BootSector}.

(** The parts lead from the directory [dir] to [dir'], through the clusters [used]. *)
Inductive leads (F : Z -> FatEntry) (D : Z -> list Z) : Z -> Path -> Z -> list Z -> Prop :=
| leads_here dir : leads F D dir [] dir []
| leads_down dir cs fl p f sub parts dir' used :
    directory (bs := bs) F D dir cs fl -> find_named p fl = Some f -> as_dir f = Some sub ->
    leads F D sub parts dir' used -> leads F D dir (p :: parts) dir' (cs ++ used).

End lookup_spec.

(** A part that [join] keeps. *)
Definition normal (p : list Z) : Prop := p <> [] /\ p <> text "." /\ p <> text ".." /\ (47 ∉ p).

(** ** Lemmas: paths *)

Lemma split_from_part sep w p s : sep ∉ p -> split_from sep w (p ++ sep :: s) = (w ++ p) :: split_from sep [] s.
Proof.
  revert w. induction p as [|c p IH]; intros w Hp; simpl.
  - by rewrite Z.eqb_refl, app_nil_r.
  - apply not_elem_of_cons in Hp as [Hc Hp]. rewrite (proj2 (Z.eqb_neq c sep)) by done. rewrite IH by done. by rewrite <- app_assoc.
Qed.

Lemma split_from_last sep w p : sep ∉ p -> split_from sep w p = [w ++ p].
Proof.
  revert w. induction p as [|c p IH]; intros w Hp; simpl; [by rewrite app_nil_r|].
  apply not_elem_of_cons in Hp as [Hc Hp]. rewrite (proj2 (Z.eqb_neq c sep)) by done. rewrite IH by done. by rewrite <- app_assoc.
Qed.

Lemma split_from_clean sep s : forall w, sep ∉ w -> Forall (fun p => sep ∉ p) (split_from sep w s).
Proof.
  induction s as [|c s IH]; intros w Hw; simpl; [by constructor|]. destruct (Z.eqb_spec c sep) as [->|Hc].
  - constructor; [done|]. apply IH, not_elem_of_nil.
  - apply IH. rewrite not_elem_of_app, list_elem_of_singleton. done.
Qed.

Lemma split_path_text p parts : Forall normal (p :: parts) -> split 47 (path_text (p :: parts)) = [] :: p :: parts.
Proof.
  unfold split, path_text. cbn [fmap list_fmap mjoin list_join]. intros Hall. cbn [app split_from]. rewrite Z.eqb_refl. f_equal.
  revert p Hall. induction parts as [|q parts IH]; intros p Hall; apply Forall_cons in Hall as [(_ & _ & _ & Hp) Hall].
  - cbn. rewrite app_nil_r. by apply split_from_last.
  - cbn [fmap list_fmap mjoin list_join app]. rewrite split_from_part by done. cbn [app]. f_equal. by apply IH.
Qed.

Lemma path_step_normal parts p : normal p -> path_step parts p = parts ++ [p].
Proof.
  intros (H1 & H2 & H3 & _). unfold path_step. by rewrite bool_decide_eq_false_2, (bool_decide_eq_false_2 (p = [])), bool_decide_eq_false_2.
Qed.

Lemma fold_normal parts : Forall normal parts -> forall q, fold_left path_step parts q = q ++ parts.
Proof.
  induction 1 as [|p parts Hp _ IH]; intros q; simpl; [by rewrite app_nil_r|]. rewrite (path_step_normal q p Hp), IH. by rewrite <- app_assoc.
Qed.

Lemma joined_text parts wd : Forall normal parts -> joined wd (path_text parts) = wd ++ parts.
Proof.
  intros Hall. unfold joined. destruct parts as [|p parts]; [by rewrite app_nil_r|]. rewrite split_path_text by done.
  cbn [fold_left]. replace (path_step wd []) with wd by done. by apply (fold_normal (p :: parts)).
Qed.

Lemma joined_normal wd path : Forall normal wd -> Forall normal (joined wd path).
Proof.
  intros Hwd. unfold joined, split. pose proof (split_from_clean 47 path [] (not_elem_of_nil _)) as Hc. revert wd Hwd.
  induction Hc as [|p ps Hp _ IH]; intros wd Hwd; [done|]. cbn [fold_left]. apply IH. unfold path_step.
  case_bool_decide; [by apply Forall_take|]. destruct (bool_decide_reflect (p = [])); [done|]. case_bool_decide; [done|]. cbn [orb].
  apply Forall_app. split; [done|]. by repeat constructor.
Qed.

Lemma split_from_app sep w p s : split_from sep w (p ++ sep :: s) = split_from sep w p ++ split_from sep [] s.
Proof.
  revert w. induction p as [|c p IH]; intros w; simpl; [by rewrite Z.eqb_refl|]. destruct (c =? sep); [|by apply IH]. simpl. by rewrite IH.
Qed.

Lemma joined_app wd p q : joined wd (p ++ 47 :: q) = joined (joined wd p) q.
Proof. unfold joined, split. rewrite split_from_app. apply fold_left_app. Qed.

(** ** Lemmas: looking up files *)

Section lookup_laws.
Context {St : Type} `{SectorCacheLaws St n sz} {bs : BootSector}
  (Hg : geometry bs n) (Hsz : sz = bpb_byts_per_sec bs).
Implicit Types (st : St) (F : Z -> FatEntry) (D : Z -> list Z) (h : counts).

Abbreviation fs st := (fs_rep bs (St := St) (n := n) (sz := sz) st).

Lemma find_loop_spec nm l : forall fuel ifuel st F D h dir cur rem,
  fs st F D (own h (cursor_last cur)) -> cursor_slots (bs := bs) F cur rem ->
  scan dir Init None (walk D rem) = Some l -> (3 * length rem + 2 <= ifuel)%nat -> (length l < fuel)%nat ->
  runs (find_loop bs fuel ifuel dir nm cur) st (fun r st' => r = find_named nm l /\ fs st' F D h).
Proof.
  induction l as [|f l IH]; intros [|fuel] ifuel st F D h dir cur rem Hf Hcur Hs Hi Hfuel; try (simpl in Hfuel; lia).
  all: cbn [find_loop]; (eapply runs_bind; [by apply (dir_iter_next_spec Hg Hsz ifuel st F D h dir cur rem _ Hf Hcur Hs)|]).
  all: intros [o cur'] st' (Hf' & seen & rem' & -> & Hcur' & Ho); cbn [fst snd] in *; destruct o as [f'|]; try done.
  - by destruct Ho as (? & ? & _).
  - eapply runs_bind; [exact (drop_cursor_spec _ _ _ _ _ Hf')|]. intros [] st2 Hf2. by apply ends_ret.
  - rewrite length_app in Hi. destruct Ho as (l' & [= <- <-] & Hs' & _). cbn [find_named]. case_bool_decide.
    + eapply runs_bind; [exact (drop_cursor_spec _ _ _ _ _ Hf')|]. intros [] st2 Hf2. by apply ends_ret.
    + apply (IH fuel ifuel st' F D h dir cur' rem'); try done; simpl in *; lia.
Qed.

Lemma find_file_spec fuel st F D h dir cs fl nm :
  fs st F D h -> directory (bs := bs) F D dir cs fl -> (dir_fuel (bs := bs) <= fuel)%nat ->
  runs (find_file bs fuel dir nm) st (fun r st' => r = find_named nm fl /\ fs st' F D h).
Proof.
  intros Hf (Hch & Ht & _) Hfuel. pose proof (slots_fuel _ _ _ Hch). pose proof (tidy_length _ _ _ Ht).
  pose proof (walk_length D (slots bs cs)). destruct (is_chain_head _ _ _ Hch) as [cs0 ->].
  unfold find_file, files. destruct (dir_entries_spec Hg F dir cs0 Hch) as (cur & -> & Hcur & Hl).
  apply (runs_bind _ _ _ (fun a b => a = cur /\ b = st)); [done|]. intros ? ? [-> ->].
  apply (find_loop_spec nm fl fuel fuel st F D h dir cur (slots bs (dir :: cs0))); try done; try lia.
  - by rewrite Hl.
  - by apply tidy_scan.
Qed.

Lemma get_file_from_spec fuel F D h dir parts dir' used : leads (bs := bs) F D dir parts dir' used ->
  forall st cs fl nm, fs st F D h -> directory (bs := bs) F D dir' cs fl -> (dir_fuel (bs := bs) <= fuel)%nat ->
  runs (get_file_from bs fuel dir (parts ++ [nm])) st (fun r st' => r = find_named nm fl /\ fs st' F D h).
Proof.
  induction 1 as [dir|dir cs0 fl0 p f sub parts dir' used Hdir Hfind Has _ IH]; intros st cs fl nm Hf Hd Hfuel.
  - by apply (find_file_spec fuel st F D h dir cs fl nm).
  - cbn [get_file_from app]. destruct (parts ++ [nm]) as [|q rest] eqn:Hp; [by apply app_nil in Hp as [_ ?]|]. rewrite <- Hp in *.
    eapply runs_bind; [by apply (find_file_spec fuel st F D h dir cs0 fl0 p)|]. intros o st1 [-> Hf1]. rewrite Hfind. cbn [mbind option_bind]. rewrite Has.
    by apply (IH st1 cs fl nm).
Qed.

Lemma get_file_spec fuel st F D h parts dir used cs fl nm :
  fs st F D h -> leads (bs := bs) F D (root_dir bs) parts dir used -> directory (bs := bs) F D dir cs fl -> (dir_fuel (bs := bs) <= fuel)%nat ->
  runs (get_file bs fuel (parts ++ [nm])) st (fun r st' => r = find_named nm fl /\ fs st' F D h).
Proof. intros Hf Hl Hd Hfuel. by apply (get_file_from_spec fuel F D h (root_dir bs) parts dir used Hl st cs fl nm). Qed.

Lemma leads_snoc F D dir parts dir' used : leads (bs := bs) F D dir parts dir' used -> parts <> [] ->
  exists init p dir0 used0 cs fl f, parts = init ++ [p] /\ leads (bs := bs) F D dir init dir0 used0 /\ directory (bs := bs) F D dir0 cs fl /\
    find_named p fl = Some f /\ as_dir f = Some dir' /\ used = used0 ++ cs.
Proof.
  induction 1 as [dir|dir cs fl p f sub parts dir' used Hdir Hfind Has Hl IH]; intros Hne; [done|]. destruct parts as [|q parts].
  - inversion Hl; subst. exists [], p, dir, [], cs, fl, f. split_and!; try done; [constructor|]. by rewrite app_nil_r.
  - destruct (IH ltac:(done)) as (init & r & dir0 & used0 & cs0 & fl0 & f0 & Heq & Hl0 & ? & ? & ? & ->).
    exists (p :: init), r, dir0, (cs ++ used0), cs0, fl0, f0. rewrite Heq. split_and!; try done; [by econstructor|by rewrite app_assoc].
Qed.

Lemma get_dir_spec fuel st F D h parts dir used :
  fs st F D h -> leads (bs := bs) F D (root_dir bs) parts dir used -> (dir_fuel (bs := bs) <= fuel)%nat ->
  runs (get_dir bs fuel parts) st (fun r st' => r = Some dir /\ fs st' F D h).
Proof.
  intros Hf Hl Hfuel. destruct parts as [|p ps]; [inversion Hl; subst; by apply ends_ret|].
  destruct (leads_snoc _ _ _ _ _ _ Hl) as (init & q & dir0 & used0 & cs & fl & f & Hi & Hl0 & Hd & Hfind & Has & _); [done|].
  cbn [get_dir]. rewrite Hi. eapply runs_bind; [by apply (get_file_spec fuel st F D h init dir0 used0 cs fl q)|].
  intros o st1 [-> Hf1]. apply ends_ret. rewrite Hfind. cbn. by rewrite Has.
Qed.

End lookup_laws.

(** ** Lemmas: what a write to a file does to its directory *)

Section frames.
Context {bs : BootSector}.
Implicit Types (F : Z -> FatEntry) (D : Z -> list Z).

Lemma leads_frame F D F' D' dir parts dir' used : leads (bs := bs) F D dir parts dir' used ->
  (forall x, x ∈ used -> F' x = F x /\ D' x = D x) -> leads (bs := bs) F' D' dir parts dir' used.
Proof.
  induction 1 as [dir|dir cs fl p f sub parts dir' used Hdir Hfind Has _ IH]; intros Hx; [constructor|].
  econstructor; [eapply directory_frame; [exact Hdir|]|done|done|apply IH]; intros x Hin; apply Hx, elem_of_app; tauto.
Qed.

(** The slot of a file holds another entry; the other slots are as before. *)
Lemma rewritten_slots D D' cs f f' q :
  same_place f f' -> stored D' f' -> entry_ok (Sfn (f_sfn f')) -> NoDup cs -> slots bs cs !! q = Some (slot_of f) ->
  (forall x, x ∈ cs -> x <> (slot_of f).1 -> D' x = D x) -> slot_frame D D' (slot_of f).1 (slot_of f).2 ->
  zlen (D (slot_of f).1) = cluster_bytes bs -> zlen (D' (slot_of f).1) = cluster_bytes bs ->
  overwritten D D' (slots bs cs) q [Sfn (f_sfn f')].
Proof.
  intros Hsame Hst Hok Hnd Hq Hx Hfr HD HD' q' k i Hq'. cbn [length]. destruct (slot_of f) as [kf jf] eqn:Hsl. cbn [fst snd] in *.
  pose proof (proj1 (slots_elem _ _ _) (list_elem_of_lookup_2 _ _ _ Hq)) as Hj. pose proof (proj1 (slots_elem _ _ _) (list_elem_of_lookup_2 _ _ _ Hq')) as Hi.
  destruct (entry_range (bs := bs) i (proj2 Hi)), (entry_range (bs := bs) jf (proj2 Hj)). case_decide as Hdec.
  - assert (q' = q) as -> by lia. rewrite Hq in Hq'. injection Hq' as <- <-. rewrite Nat.sub_diag. cbn.
    unfold stored in Hst. rewrite (same_place_slot _ _ Hsame), Hsl in Hst. unfold entry_at, SIZE. cbn [fst snd] in Hst. rewrite Hst.
    by rewrite (proj1 (entry_codec _ Hok)).
  - unfold entry_at, SIZE. destruct (decide (k = kf)) as [->|Hk]; [|by rewrite Hx by tauto].
    assert (i <> jf) by (intros ->; assert (q' = q) by (exact (NoDup_lookup _ _ _ _ (slots_NoDup (bs := bs) _ Hnd) Hq' Hq)); lia).
    unfold slot_frame in Hfr. rewrite Hfr, sub_upd_disjoint; rewrite ?length_sub; try lia. done.
Qed.

(** One entry of a directory before its terminal one is replaced. *)
Lemma overwritten_walk D D' cs l1 k i e e' l2 :
  walk D (slots bs cs) = l1 ++ (k, i, e) :: l2 -> terminated (walk D (slots bs cs)) -> e <> UnusedTerminal -> e' <> UnusedTerminal ->
  overwritten D D' (slots bs cs) (length l1) [e'] ->
  live l1 /\ terminated l2 /\ walk D' (slots bs cs) = l1 ++ (k, i, e') :: l2.
Proof.
  intros Hw Hterm He He' Ho. assert (Hq : slots bs cs !! length l1 = Some (k, i)).
  { apply (walk_lookup D _ _ _ _ e). by rewrite Hw, lookup_app_r, Nat.sub_diag by lia. }
  destruct (cut_prefix (cells D (slots bs cs))) as [garb Hc]. rewrite <- walk_cut, Hw, <- app_assoc, <- app_comm_cons in Hc.
  destruct (overwritten_cells _ _ _ _ _ Ho) as (g' & Hg' & Hsnd); [cbn; apply lookup_lt_Some in Hq; lia|].
  assert (Hg1 : g' = [(k, i, e')]).
  { destruct g' as [|[[k' i'] x] [|? ?]]; try done. simpl in Hsnd. injection Hsnd as ->. do 2 f_equal.
    assert (Hk : cells D' (slots bs cs) !! length l1 = Some (k', i', e')).
    { rewrite Hg', lookup_app_r; rewrite length_take; [|lia]. rewrite Hc, length_app. by replace (_ - _)%nat with 0%nat by lia. }
    unfold cells in Hk. rewrite list_lookup_fmap, Hq in Hk. cbn in Hk. congruence. }
  subst g'. rewrite Hc, take_app_length in Hg'. cbn [length] in Hg'. rewrite drop_app_add in Hg'. cbn [drop] in Hg'.
  rewrite Hw in Hterm. destruct (terminated_app _ _ Hterm) as [Hlive Hterm2]; [done|]. change (terminated ([(k, i, e)] ++ l2)) in Hterm2.
  assert (Hl2 : l2 <> []) by (intros ->; destruct Hterm2 as (l0 & c & n0 & Heq & _); by destruct l0 as [|? [|? ?]]; simplify_eq).
  destruct (terminated_app _ _ Hterm2 Hl2) as [_ Hterm3]. split; [done|]. split; [done|].
  rewrite walk_cut, Hg', (cut_live_app l1 _ Hlive). f_equal. rewrite (cut_live_app [(k, i, e')]) by (by constructor). cbn [app]. f_equal. by apply terminated_cut.
Qed.

(** The directory lists the file as it is now. *)
Lemma rewritten_directory F D F' D' dir cs f1 f f2 f' :
  directory (bs := bs) F D dir cs (f1 ++ f :: f2) -> is_chain bs F' dir cs ->
  same_place f f' -> stored D' f' -> entry_ok (Sfn (f_sfn f')) ->
  (forall x, x ∈ cs -> x <> (slot_of f).1 -> D' x = D x) -> slot_frame D D' (slot_of f).1 (slot_of f).2 ->
  zlen (D (slot_of f).1) = cluster_bytes bs -> zlen (D' (slot_of f).1) = cluster_bytes bs ->
  directory (bs := bs) F' D' dir cs (f1 ++ f' :: f2).
Proof.
  intros (Hch & Ht & Hterm) Hch' Hsame Hst Hok Hx Hfr HD HD'.
  pose proof (tidy_shown _ _ _ Ht) as Hdots. apply Forall_app in Hdots as [_ Hdots]. apply Forall_cons in Hdots as [Hdots _].
  destruct (tidy_pick _ _ _ Ht f1 f f2 eq_refl) as (l1 & g & l2 & nm & sfn & Hw & Hr & Hfg & Ht1 & Ht2).
  destruct (read_sequence_last _ _ _ _ Hr) as [es0 Hes]. destruct g as [|[[ke ie] el] g0 _] using rev_ind; [by destruct es0|].
  rewrite fmap_app in Hes. apply app_inj_tail in Hes as [Hes0 Hel]. simpl in Hel. subst el.
  assert (Hslot : slot_of f = (ke, ie)) by (rewrite Hfg; unfold slot_of, group_file; cbn; by rewrite last_snoc).
  assert (Hsfn : f_sfn f = sfn) by (rewrite Hfg; unfold f_sfn, group_file; cbn; by rewrite last_snoc).
  rewrite app_assoc, app_assoc, <- (app_assoc (l1 ++ g0)) in Hw. cbn [app] in Hw.
  assert (Hq : slots bs cs !! length (l1 ++ g0) = Some (slot_of f)).
  { rewrite Hslot. apply (walk_lookup D _ _ _ _ (Sfn sfn)). by rewrite Hw, lookup_app_r, Nat.sub_diag by lia. }
  pose proof (rewritten_slots D D' cs f f' _ Hsame Hst Hok (is_chain_NoDup _ _ _ Hch) Hq Hx Hfr HD HD') as Ho.
  destruct (overwritten_walk D D' cs (l1 ++ g0) ke ie (Sfn sfn) (Sfn (f_sfn f')) l2) as (Hlive & Hterm2 & Hw'); try done.
  apply Forall_app in Hlive as [Hlive1 _]. set (g1 := g0 ++ [(ke, ie, Sfn (f_sfn f'))]).
  assert (Hr' : read_sequence Init (snd <$> g1) = Some (nm, f_sfn f')).
  { unfold g1. rewrite fmap_app in Hr |- *. apply (read_sequence_id _ _ sfn); [|done]. rewrite <- Hsfn. apply Hsame. }
  assert (Hw2 : walk D' (slots bs cs) = l1 ++ g1 ++ l2) by (rewrite Hw'; unfold g1; by rewrite <- !app_assoc).
  assert (Hf' : group_file dir g1 nm (f_sfn f') = f').
  { destruct Hsame as (_ & Hd & Hn & Hl & Hk & Hi & _). rewrite Hfg in Hd, Hn, Hl, Hk, Hi. unfold group_file in *. cbn in Hd, Hn, Hl, Hk, Hi |- *.
    rewrite last_snoc in Hk, Hi. unfold g1. rewrite last_snoc. cbn in Hk, Hi. destruct f' as [d' n' loc' [[e' k'] i']]. cbn in *. subst.
    f_equal. by destruct g0 as [|[[? ?] ?] ?]. }
  split; [done|]. rewrite Hw2. split.
  - apply tidy_app; [done|done|]. pose proof (tidy_group dir g1 nm (f_sfn f') l2 f2 Hr' Ht2) as Hgrp.
    rewrite Hf' in Hgrp. unfold shown in Hgrp. destruct Hsame as (_ & _ & Hn & _). rewrite Hn, Hdots in Hgrp. done.
  - apply terminated_prepend; [done|]. apply terminated_prepend; [|done]. by eapply group_live.
Qed.

End frames.

(** ** Properties *)

(** Paths are kept in a normal form: joining keeps every part non-empty, without
    a slash and not a dot or two; joining the text of a path to the root gives the path
    back; joining in steps is joining at once; and [..] leaves the last directory, the
    root being its own parent. *)
Theorem path_roundtrip (wd parts : Path) (p q : list Z) :
  Forall normal wd -> Forall normal parts ->
  Forall normal (joined wd p) /\ joined path_new (path_text parts) = parts /\ joined wd (p ++ text "/" ++ q) = joined (joined wd p) q /\
  joined (wd ++ [p]) (text "..") = wd /\ joined path_new (text "..") = path_new.
Proof.
  intros Hwd Hparts. split; [by apply joined_normal|]. split; [by rewrite joined_text|]. split; [apply joined_app|]. split; [|done].
  change (take (length (wd ++ [p]) - 1) (wd ++ [p]) = wd). rewrite length_app. cbn [length]. by rewrite Nat.add_sub, take_app_length.
Qed.

Lemma path_roundtrip_witness : joined path_new (path_text [text "usr"; text "x.y"]) = [text "usr"; text "x.y"].
Proof.
  apply (path_roundtrip [] [text "usr"; text "x.y"] [] []); [constructor|]. repeat constructor; try discriminate; apply (bool_decide_eq_false_1 _); by vm_compute.
Defined.

(** A path with a leading slash, which is how [pwd] prints the working directory, is
    taken from the working directory all the same. *)
Lemma absolute_path_is_relative : joined [text "a"] (path_text [text "a"]) = [text "a"; text "a"].
Proof. done. Qed.
