(* ===== verification/Shell.v ===== *)
(** * The shell (src/ors-kernel/src/shell.rs, print.rs, devices/qemu.rs)

    The line editor, the paths and the commands of the shell, over the file system of
    Fat.v, the PCI devices of Pci.v and the frame manager of PhysMemory.v. What the
    shell prints is collected in the world it runs in. *)

From stdpp Require Import strings.
From S2P Require Import Prelude PhysMemory Hardware Pci Ansi Text Graphics TextBuffer Console Volume BootSector FatEntry DirEntry LowLevel Fat FatFiles FatDirs Paths.
Local Open Scope Z_scope.
Local Open Scope rust_scope.

#[export] Instance Input_eq_dec : EqDecision Input.
Proof. solve_decision. Defined.

(** ** Strings with byte indices *)

(** [String::insert] and [String::remove]; [None] is the panic for an index that is
    not at a character. *)
Definition string_insert (s : list Z) (i c : Z) : option (list Z) := '(a, b) ← split_at s i; Some (a ++ c :: b).
Definition string_remove (s : list Z) (i : Z) : option (list Z) :=
  '(a, b) ← split_at s i; match b with _ :: b => Some (a ++ b) | [] => None end.

(** ** Sizes and errors *)

(** [Display for PrettySize] *)
Definition pretty_size (n : Z) : list Z :=
  if n <? 1024 then dec n ++ text "B"
  else if n <? 1024 * 1024 then fixed2 (f64_div (f64_of n) (f64_of 1024)) ++ text "KiB"
  else if n <? 1024 * 1024 * 1024 then fixed2 (f64_div (f64_of n) (f64_mul (f64_of 1024) (f64_of 1024))) ++ text "MiB"
  else fixed2 (f64_div (f64_of n) (f64_mul (f64_mul (f64_of 1024) (f64_of 1024)) (f64_of 1024))) ++ text "GiB".

Definition volume_error_text (e : VolumeError) : list Z :=
  match ve_kind e with
  | Io => text "I/O error"
  | OutOfRange => text "Out of range"
  | Unknown => text "Unknown error"
  end ++ text " at sector=" ++ dec (ve_sector e).

Definition boot_sector_error_text (e : BootSectorError) : list Z :=
  match e with
  | SignatureMismatch => text "Boot signature mismatch"
  | BootSector.Broken s => text "Broken boot sector: " ++ text s
  | Unsupported s => text "Unsupported feature: " ++ text s
  end.

(** [Display for fat::Error] *)
Definition error_text (e : Error) : list Z :=
  match e with
  | VolumeE e => volume_error_text e
  | BootSectorE e => boot_sector_error_text e
  | LowLevel.Full => text "Full"
  | DirectoryNotEmpty => text "Directory not empty"
  | FileAlreadyExists => text "File with the same name already exists"
  | InvalidFileName => text "Invalid file name"
  end.

(** ** Availability of frames *)

Definition availability_in_range (m : BitmapFrameManager) (a b : f64) : option f64 :=
  if SpecFloat.SFleb (f64_of 0) a && SpecFloat.SFltb a b && SpecFloat.SFleb b (f64_of 1) then
    n ← PhysMemory.total_frames m;
    a ← add_checked 64 (begin_ m) (f64_as 64 (f64_mul (f64_of n) a));
    b ← add_checked 64 (begin_ m) (f64_as 64 (f64_mul (f64_of n) b));
    k ← count_bits m a (Z.to_nat (b - a));
    d ← sub_checked 64 b a;
    Some (f64_div (f64_of k) (f64_of d))
  else None.

(** ** The world of the shell *)

Section shell.
Context {St : Type} `{SectorCache St} (bs : BootSector).
Context {Hw : Type} `{PortIO Hw} `{Mmio Hw} `{BitField} `{Heapless}.

(** [cache]: the volume of the file system; [wd]: the working directory; [serial] and
    [shown]: the text sent to the serial port and to the console. *)
Record World := { cache : St; hw : Hw; wd : Path; serial : list Z; shown : list Z }.

Local Abbreviation WM := (M World Empty_set).

(** [KernelWrite::write_str] ([kprint!]) and [ConsoleWrite] ([cprint!]) *)
Definition kprint (s : list Z) : WM unit := fun w =>
  (Ok tt, {| cache := cache w; hw := hw w; wd := wd w; serial := serial w ++ s; shown := shown w ++ s |}).
Definition cprint (s : list Z) : WM unit := fun w =>
  (Ok tt, {| cache := cache w; hw := hw w; wd := wd w; serial := serial w; shown := shown w ++ s |}).
Definition kprintln (s : list Z) : WM unit := kprint (s ++ [NL]).

Definition set_wd (p : Path) : WM unit := fun w =>
  (Ok tt, {| cache := cache w; hw := hw w; wd := p; serial := serial w; shown := shown w |}).

(** An operation of the file system, with its [Result]. *)
Definition on_fs {A} (m : M St Error A) : WM (A + Error) := fun w =>
  let '(o, c) := m (cache w) in
  (match o with Ok a => Ok (inl a) | Err e => Ok (inr e) | Panic => Panic | Diverge => Diverge end,
   {| cache := c; hw := hw w; wd := wd w; serial := serial w; shown := shown w |}).

(** An iteration over a directory, which has no errors. *)
Definition on_iter {A} (m : M St Error A) : WM A :=
  r <- on_fs m;; match r with inl a => ret a | inr _ => mpanic end.

Definition on_hw {A} (m : M Hw Empty_set A) : WM A := fun w =>
  let '(o, h) := m (hw w) in
  (match o with Ok a => Ok a | Err e => Err e | Panic => Panic | Diverge => Diverge end,
   {| cache := cache w; hw := h; wd := wd w; serial := serial w; shown := shown w |}).

(** [let _ = ctx.fs.commit();] *)
Definition commit_ignored : WM unit := _ <- on_fs commit;; ret tt.

(** *** Commands *)

Definition CLEAR : list Z := ESC :: text "[H" ++ ESC :: text "[2J".
Definition INPUT_START : list Z := ESC :: text "[G" ++ ESC :: text "[32m$" ++ ESC :: text "[0m ".
Definition INPUT_END : list Z := ESC :: text "[K".
Definition CURSOR_START : list Z := ESC :: text "[30;47m".
Definition CURSOR_END : list Z := ESC :: text "[0m".

Definition file_line (f : File) : list Z :=
  if file_is_dir f then f_name f ++ text "/" else f_name f ++ text " (" ++ pretty_size (Fat.file_size f) ++ text ")".

Fixpoint print_files (l : list File) : WM unit :=
  match l with
  | [] => ret tt
  | f :: l => kprintln (file_line f);;; print_files l
  end.

Definition cmd_cd (fuel : nat) (args : list (list Z)) : WM unit :=
  match args with
  | path :: _ =>
      w <- mget;;
      let path := joined (wd w) path in
      d <- on_iter (get_dir bs fuel path);;
      match d with
      | Some _ => set_wd path
      | None => kprintln (text "Not a directory: " ++ path_text path)
      end
  | [] => set_wd []
  end.

Definition cmd_ls (fuel : nat) : WM unit :=
  w <- mget;;
  d <- on_iter (get_dir bs fuel (wd w));;
  match d with
  | Some dir => l <- on_iter (list_files bs fuel dir);; print_files l
  | None => kprintln (text "Directory not found: " ++ path_text (wd w))
  end.

(** [touch] and [mkdir]: the operation on the directory, and what the messages say. *)
Definition cmd_create (fuel : nat) (create : Z -> list Z -> M St Error unit) (what : list Z) (at_root : WM unit) (path : list Z) : WM unit :=
  w <- mget;;
  match dir_and_file_name (joined (wd w) path) with
  | Some (path, name) =>
      d <- on_iter (get_dir bs fuel path);;
      match d with
      | Some dir =>
          r <- on_fs (create dir name);;
          match r with
          | inl _ => commit_ignored
          | inr e => kprintln (text "Failed to create a " ++ what ++ text ": " ++ error_text e)
          end
      | None => kprintln (text "Directory not found: " ++ path_text path)
      end
  | None => at_root
  end.

Definition cmd_touch (fuel : nat) (args : list (list Z)) : WM unit :=
  match args with
  | path :: _ => cmd_create fuel (create_file bs fuel) (text "file") (kprintln (text "This is a root directory")) path
  | [] => kprintln (text "touch <path>")
  end.

Definition cmd_mkdir (fuel : nat) (args : list (list Z)) : WM unit :=
  match args with
  | path :: _ => cmd_create fuel (create_dir bs fuel) (text "directory") (ret tt) path
  | [] => kprintln (text "mkdir <path>")
  end.

Definition cmd_read (fuel : nat) (args : list (list Z)) : WM unit :=
  match args with
  | path :: _ =>
      w <- mget;;
      let path := joined (wd w) path in
      o <- on_iter (get_file bs fuel path);;
      match o with
      | Some file =>
          r <- on_fs (read_file bs fuel file);;
          match r with
          | inl (Some buf) =>
              match from_utf8 buf with
              | Some s => kprintln s
              | None => kprintln (text "<binary file (" ++ dec (zlen buf) ++ text " bytes)>")
              end
          | inl None => kprintln (text "This is a directory: " ++ path_text path)
          | inr e => kprintln (text "Read error: " ++ error_text e)
          end
      | None => kprintln (text "File not found: " ++ path_text path)
      end
  | [] => kprintln (text "read <file>")
  end.

(** [writer.write(..)] with its [Result]; the writer is there in both cases. *)
Definition write_result (fuel : nat) (wr : FileWriter) (buf : list Z) : M St Error ((unit + Error) * FileWriter) := fun st =>
  match Fat.write bs fuel buf (st, wr) with
  | (Ok a, (st, wr)) => (Ok (inl a, wr), st)
  | (Err e, (st, wr)) => (Ok (inr e, wr), st)
  | (Panic, (st, _)) => (Panic, st)
  | (Diverge, (st, _)) => (Diverge, st)
  end.

(** [drop(writer)] *)
Definition drop_it (wr : FileWriter) : M St Error unit := _ <- attempt wr (drop_writer bs);; ret tt.

Definition cmd_write (fuel : nat) (append : bool) (args : list (list Z)) : WM unit :=
  match args with
  | path :: rest =>
      w <- mget;;
      let path := joined (wd w) path in
      o <- on_iter (get_file bs fuel path);;
      match o with
      | Some file =>
          wr <- on_iter (if append then appender bs fuel file else ret (overwriter file));;
          match wr with
          | Some wr =>
              let s := join (text " ") rest in
              let s := match s with [] => s | _ => s ++ [NL] end in
              r <- on_iter (write_result fuel wr (as_bytes s));;
              match r with
              | (inl _, wr) => on_iter (drop_it wr);;; commit_ignored
              | (inr e, wr) => kprintln (text "Write error: " ++ error_text e);;; on_iter (drop_it wr)
              end
          | None => kprintln (text "This is a directory: " ++ path_text path)
          end
      | None => kprintln (text "File not found: " ++ path_text path)
      end
  | [] => kprintln (text "write|append <file> <text>")
  end.

Definition cmd_rm (fuel : nat) (recursive : bool) (args : list (list Z)) : WM unit :=
  match args with
  | path :: _ =>
      w <- mget;;
      let path := joined (wd w) path in
      o <- on_iter (get_file bs fuel path);;
      match o with
      | Some file =>
          r <- on_fs (remove bs fuel recursive file);;
          match r with
          | inl _ => commit_ignored
          | inr e => kprintln (text "Failed to remove " ++ path_text path ++ text ": " ++ error_text e)
          end
      | None => kprintln (text "File not found: " ++ path_text path)
      end
  | [] => kprintln (text "rm|rmr <file>")
  end.

(** [src.mv(..)] with the answer to its [Result] *)
Definition move_file (fuel : nat) (src : File) (dir : Z) (name : option (list Z)) : WM unit :=
  r <- on_fs (mv bs fuel src (Some dir) name);;
  match r with
  | inl _ => commit_ignored
  | inr e => kprintln (text "Failed to move file: " ++ error_text e)
  end.

Definition cmd_mv (fuel : nat) (args : list (list Z)) : WM unit :=
  match args with
  | [src; dest] =>
      w <- mget;;
      let src := joined (wd w) src in
      let dest := joined (wd w) dest in
      o <- on_iter (get_file bs fuel src);;
      match o with
      | Some src =>
          d <- on_iter (get_dir bs fuel dest);;
          match d with
          | Some dest => move_file fuel src dest None
          | None =>
              o <- on_iter (get_file bs fuel dest);;
              match o with
              | Some _ => kprintln (text "File already exists: " ++ path_text dest)
              | None =>
                  '(dest_dir, file_name) <- munwrap (dir_and_file_name dest);;
                  d <- on_iter (get_dir bs fuel dest_dir);;
                  match d with
                  | Some dir => move_file fuel src dir (Some file_name)
                  | None => kprintln (text "Destination directory not found: " ++ path_text dest_dir)
                  end
              end
          end
      | None => kprintln (text "Source file not found: " ++ path_text src)
      end
  | _ => kprintln (text "mv <src> <dest>")
  end.

(** [graph[i] = fm.availability_in_range(..)] *)
Fixpoint graph (fm : BitmapFrameManager) (is_ : list Z) : option (list f64) :=
  match is_ with
  | [] => Some []
  | i :: is_ =>
      x ← availability_in_range fm (f64_div (f64_of i) (f64_of 100)) (f64_div (f64_of (i + 1)) (f64_of 100));
      l ← graph fm is_;
      Some (x :: l)
  end.

Fixpoint print_graph (l : list f64) : WM unit :=
  match l with
  | [] => ret tt
  | a :: l => kprint (ESC :: text "[48;5;" ++ dec (232 + f64_as 64 (f64_mul (f64_of 23) a)) ++ text "m " ++ ESC :: text "[0m");;; print_graph l
  end.

Definition cmd_memstats (fm : BitmapFrameManager) : WM unit :=
  kprintln (text "[phys_memory]");;;
  total <- munwrap (PhysMemory.total_frames fm);;
  available <- munwrap (available_frames fm);;
  g <- munwrap (graph fm (seqZ 0 100));;
  print_graph g;;;
  kprintln [];;;
  a <- munwrap (mul_checked 64 available 4096);;
  t <- munwrap (mul_checked 64 total 4096);;
  kprintln (dec available ++ text "/" ++ dec total ++ text " frames (" ++ pretty_size a ++ text "/" ++ pretty_size t ++ text ")").

Definition hex2 (n : Z) : list Z := pad 48 2 (hex n).

Definition lspci_device (d : Device) : WM unit :=
  ty <- on_hw (device_type d);;
  kprintln (hex2 (bus d) ++ text ":" ++ hex2 (device d) ++ text "." ++ hex2 (function d) ++ text " = {");;;
  v <- on_hw (vendor_id d);;
  kprint (text "  vendor_id = " ++ hex v);;;
  intel <- on_hw (is_vendor_intel d);;
  (if intel : bool then kprint (text " (intel)") else ret tt);;;
  kprintln [];;;
  i <- on_hw (device_id d);;
  kprint (text "  device_id = " ++ hex i);;;
  virtio <- on_hw (is_virtio d);;
  (if virtio : bool then kprint (text " (virtio)") else ret tt);;;
  kprintln [];;;
  kprintln (text "  device_type = { class_code = " ++ hex2 (class_code ty) ++ text ", subclass = " ++ hex2 (subclass ty) ++ text ", interface = " ++ hex2 (prog_interface ty) ++ text " }");;;
  virtio <- on_hw (is_virtio d);;
  (if virtio : bool then s <- on_hw (subsystem_id d);; kprintln (text "  subsystem_id = " ++ dec s) else ret tt);;;
  m <- on_hw (msi_x d);;
  match m with
  | Some m => n <- on_hw (table_size m);; kprintln (text "  msi-x = { table_size = " ++ dec n ++ text " }")
  | None => ret tt
  end;;;
  kprintln (text "}").

Fixpoint cmd_lspci (ds : list Device) : WM unit :=
  match ds with
  | [] => ret tt
  | d :: ds => lspci_device d;;; cmd_lspci ds
  end.

(** [p(n)] of the command [color] *)
Definition color_cell (n : Z) : list Z := ESC :: text "[48;5;" ++ dec n ++ text "m" ++ pad 32 4 (dec n) ++ ESC :: text "[0m".

(** [for x in lo..hi { f(x) }] as text *)
Definition for_text (lo hi : Z) (f : Z -> list Z) : list Z := mjoin (f <$> seqZ lo (hi - lo)).

Definition color_table : list Z :=
  for_text 0 16 (fun i => color_cell i ++ (if i mod 8 =? 7 then [NL] else [])) ++ [NL] ++
  for_text 0 2 (fun i =>
    for_text 0 6 (fun j =>
      for_text 0 3 (fun k => for_text 0 6 (fun l => color_cell (16 + l + 36 * k + 6 * j + 108 * i)) ++ text " ") ++ [NL]) ++ [NL]) ++
  for_text 232 256 color_cell ++ [NL] ++ [NL].

(** [qemu::exit(ExitCode::Success)] *)
Definition qemu_exit (code : Z) : M Hw Empty_set unit := outp 32 0xf4 code.
Definition ExitCode_Success : Z := 0x10.

(** [fm] and [devices]: the frame manager and the PCI devices at the time of the
    command. *)
Definition execute_command (fuel : nat) (fm : BitmapFrameManager) (devices : list Device) (command_buf : list Z) : WM unit :=
  match split_whitespace (trim command_buf) with
  | [] => ret tt
  | command :: args =>
      let is_ s := bool_decide (command = text s) in
      if is_ "clear" then kprint CLEAR
      else if is_ "pwd" then w <- mget;; kprintln (path_text (wd w))
      else if is_ "cd" then cmd_cd fuel args
      else if is_ "ls" then cmd_ls fuel
      else if is_ "touch" then cmd_touch fuel args
      else if is_ "mkdir" then cmd_mkdir fuel args
      else if is_ "read" then cmd_read fuel args
      else if is_ "write" then cmd_write fuel false args
      else if is_ "append" then cmd_write fuel true args
      else if is_ "rm" then cmd_rm fuel false args
      else if is_ "rmr" then cmd_rm fuel true args
      else if is_ "mv" then cmd_mv fuel args
      else if is_ "memstats" then cmd_memstats fm
      else if is_ "lspci" then cmd_lspci devices
      else if is_ "color" then kprint color_table
      else if is_ "shutdown" then on_hw (qemu_exit ExitCode_Success)
      else kprintln (text "Unsupported command: " ++ command)
  end.

(** *** The line editor *)

(** The variables of [run]: [cursor] is an index in bytes. *)
Record Line := { command_buf : list Z; line_cursor : Z }.

Definition line_new : Line := {| command_buf := []; line_cursor := 0 |}.

(** What is printed before an input is read. *)
Fixpoint prompt_chars (i cursor : Z) (s : list Z) : list Z :=
  match s with
  | [] => []
  | c :: s => (if i =? cursor then CURSOR_START ++ [c] ++ CURSOR_END else [c]) ++ prompt_chars (i + 1) cursor s
  end.

Definition prompt (l : Line) : list Z :=
  INPUT_START ++ prompt_chars 0 (line_cursor l) (command_buf l) ++
  (if line_cursor l =? zlen (command_buf l) then CURSOR_START ++ text " " ++ CURSOR_END else []) ++ INPUT_END.

Definition elapsed_ms (t : Z) : Z := f64_as 32 (f64_mul (f64_div (f64_of t) (f64_of TIMER_FREQ)) (f64_of 1000)).

(** The inputs that edit the line. *)
Definition edit (i : Input) (l : Line) : option Line :=
  let '{| command_buf := s; line_cursor := cursor |} := l in
  match i with
  | Ansi.Char c =>
      if (c =? 8) && (0 <? cursor) then s ← string_remove s (cursor - 1); Some {| command_buf := s; line_cursor := cursor - 1 |}
      else if (c =? 127) && (cursor <? Console.str_len s) then s ← string_remove s cursor; Some {| command_buf := s; line_cursor := cursor |}
      else if (32 <=? c) && (c <=? 126) then
        s ← string_insert s cursor c; cursor ← add_checked 64 cursor 1; Some {| command_buf := s; line_cursor := cursor |}
      else Some l
  | IHome => Some {| command_buf := s; line_cursor := 0 |}
  | IEnd => Some {| command_buf := s; line_cursor := Console.str_len s |}
  | ArrowLeft => Some (if 0 <? cursor then {| command_buf := s; line_cursor := cursor - 1 |} else l)
  | ArrowRight => Some (if cursor <? Console.str_len s then {| command_buf := s; line_cursor := cursor + 1 |} else l)
  | _ => Some l
  end.

(** A turn of the loop of [run]; [t] and [t']: the ticks before and after a command. *)
Definition turn (fuel : nat) (fm : BitmapFrameManager) (devices : list Device) (i : Input) (t t' : Z) (l : Line) : WM Line :=
  kprint (prompt l);;;
  if bool_decide (i = Ansi.Char NL) then
    kprintln (INPUT_START ++ command_buf l ++ INPUT_END);;;
    execute_command fuel fm devices (command_buf l);;;
    d <- munwrap (sub_checked 64 t' t);;
    kprintln (text "elapsed = " ++ dec (elapsed_ms d) ++ text "ms");;;
    ret line_new
  else munwrap (edit i l).

(** What [run] prints first. *)
Definition welcome : WM unit := cprint CLEAR;;; kprintln (text "[ors shell]").

(** The loop over the inputs that arrive. *)
Fixpoint run_loop (fuel : nat) (fm : BitmapFrameManager) (devices : list Device) (ins : list (Input * Z * Z)) (l : Line) : WM Line :=
  match ins with
  | [] => ret l
  | (i, t, t') :: ins => l <- turn fuel fm devices i t t' l;; run_loop fuel fm devices ins l
  end.

Definition run (fuel : nat) (fm : BitmapFrameManager) (devices : list Device) (ins : list (Input * Z * Z)) : WM Line :=
  welcome;;; run_loop fuel fm devices ins line_new.

End shell.

(** ** The line editor, abstractly *)

(** The text before and after the cursor. *)
Definition zipper_edit (i : Input) (z : list Z * list Z) : list Z * list Z :=
  let '(b, a) := z in
  match i with
  | Ansi.Char 8 => (take (length b - 1) b, a)
  | Ansi.Char 127 => (b, drop 1 a)
  | Ansi.Char c => if (32 <=? c) && (c <=? 126) then (b ++ [c], a) else (b, a)
  | IHome => ([], b ++ a)
  | IEnd => (b ++ a, [])
  | ArrowLeft => (take (length b - 1) b, drop (length b - 1) b ++ a)
  | ArrowRight => (b ++ take 1 a, drop 1 a)
  | _ => (b, a)
  end.

Definition zipper_prompt (z : list Z * list Z) : list Z :=
  INPUT_START ++ z.1 ++ CURSOR_START ++ (match z.2 with c :: _ => [c] | [] => text " " end) ++ CURSOR_END ++ drop 1 z.2 ++ INPUT_END.

(** The states and the prompts of a sequence of inputs. *)
Definition zipper (ins : list Input) (z : list Z * list Z) : list Z * list Z := fold_left (fun z i => zipper_edit i z) ins z.

Fixpoint zipper_prompts (ins : list Input) (z : list Z * list Z) : list Z :=
  match ins with
  | [] => []
  | i :: ins => zipper_prompt z ++ zipper_prompts ins (zipper_edit i z)
  end.

(** ** Lemmas: the line editor *)

Definition printable (c : Z) : Prop := 32 <= c <= 126.

Definition line_rep (l : Line) (z : list Z * list Z) : Prop :=
  command_buf l = z.1 ++ z.2 /\ line_cursor l = zlen z.1 /\ Forall printable (z.1 ++ z.2).

Lemma str_len_printable s : Forall printable s -> Console.str_len s = zlen s.
Proof.
  induction 1 as [|c s Hc _ IH]; [done|]. cbn [Console.str_len length]. rewrite IH. unfold Console.len_utf8, printable in *.
  rewrite (proj2 (Z.ltb_lt _ _)) by lia. lia.
Qed.

Lemma split_at_printable b : forall a, Forall printable b -> split_at (b ++ a) (zlen b) = Some (b, a).
Proof.
  induction b as [|c b IH]; intros a Hb; [by destruct a|]. apply Forall_cons in Hb as [Hc Hb]. cbn [app split_at length].
  unfold Console.len_utf8, printable in *. rewrite !(proj2 (Z.ltb_lt c 0x80)) by lia.
  rewrite (proj2 (Z.eqb_neq _ 0)) by lia. replace (Z.of_nat (S (length b)) - 1) with (zlen b) by lia.
  rewrite IH by done. by case_cmp; try lia.
Qed.

Lemma remove_before b c a : Forall printable (b ++ [c]) -> string_remove ((b ++ [c]) ++ a) (zlen (b ++ [c]) - 1) = Some (b ++ a).
Proof.
  intros Hb. apply Forall_app in Hb as [Hb _]. unfold string_remove. rewrite length_app. cbn [length].
  replace (Z.of_nat (length b + 1) - 1) with (zlen b) by lia. rewrite <- app_assoc, split_at_printable by done. done.
Qed.

Lemma zipper_printable i z : Forall printable (z.1 ++ z.2) -> Forall printable ((zipper_edit i z).1 ++ (zipper_edit i z).2).
Proof.
  destruct z as [b a]. cbn [fst snd]. intros Hp. apply Forall_app in Hp as [Hb Ha].
  assert (Hcat : Forall printable (b ++ a)) by (by apply Forall_app).
  destruct i as [c| | | | | | | | | |]; cbn [zipper_edit]; try done.
  - assert (Hins : Forall printable ((if (32 <=? c) && (c <=? 126) then (b ++ [c], a) else (b, a)).1 ++ (if (32 <=? c) && (c <=? 126) then (b ++ [c], a) else (b, a)).2)).
    { destruct ((32 <=? c) && (c <=? 126)) eqn:Hc; [|done]. cbn [fst snd]. rewrite !Forall_app, Forall_singleton. unfold printable. split; [split; [done|lia]|done]. }
    destruct (decide (c = 8)) as [->|H8]; [cbn; apply Forall_app; split; [by apply Forall_take|done]|].
    destruct (decide (c = 127)) as [->|H127]; [cbn; apply Forall_app; split; [done|by apply Forall_drop]|].
    repeat (case_match; try done).
  - cbn. by rewrite app_nil_r.
  - cbn. rewrite app_assoc, take_drop. done.
  - cbn. rewrite <- app_assoc, take_drop. done.
Qed.

(** The editor and the zipper make the same step. *)
Lemma edit_step i l z : line_rep l z -> zlen (z.1 ++ z.2) + 1 < 2 ^ 64 -> exists l', edit i l = Some l' /\ line_rep l' (zipper_edit i z) /\
  (length ((zipper_edit i z).1 ++ (zipper_edit i z).2) <= length (z.1 ++ z.2) + 1)%nat.
Proof.
  destruct l as [s cur]. intros (Hs & Hcur & Hp) Hlen. pose proof (zipper_printable i z Hp) as Hp'. destruct z as [b a]. cbn [command_buf line_cursor fst snd] in *. subst s cur.
  apply Forall_app in Hp as Hba. destruct Hba as [Hb Ha]. pose proof (str_len_printable _ Hp) as Hsl. rewrite length_app in Hlen, Hsl.
  assert (Hlast : b = [] \/ exists b' c, b = b' ++ [c]) by (destruct b as [|c b' _] using rev_ind; eauto).
  destruct i as [c| | | | | | | | | |]; cbn [edit]; try (eexists; split; [reflexivity|]; split; [done|]; cbn; lia).
  - destruct (Z.eqb_spec c 8) as [->|H8].
    { cbn [andb zipper_edit]. destruct Hlast as [->|(b' & x & ->)].
      - cbn. eexists. split; [reflexivity|]. split; [done|]. cbn. lia.
      - rewrite (proj2 (Z.ltb_lt 0 _)) by (rewrite length_app; cbn; lia). rewrite remove_before by done. cbn [mbind option_bind]. eexists. split; [reflexivity|].
        cbn [zipper_edit] in Hp' |- *. rewrite length_app, Nat.add_sub, take_app_length in *. cbn [fst snd] in *. split; [|rewrite !length_app; cbn; lia].
        split; [done|]. split; [cbn; lia|done]. }
    destruct (Z.eqb_spec c 127) as [->|H127].
    { cbn [andb]. destruct a as [|x a].
      - rewrite Hsl. cbn [length]. rewrite (proj2 (Z.ltb_ge _ _)) by lia. cbn. eexists. split; [reflexivity|]. split; [done|]. cbn. lia.
      - rewrite Hsl. cbn [length]. rewrite (proj2 (Z.ltb_lt _ _)) by lia. unfold string_remove. rewrite split_at_printable by done. cbn [mbind option_bind].
        eexists. split; [reflexivity|]. cbn in Hp' |- *. rewrite ?drop_0 in *. split; [done|]. rewrite !length_app. cbn. lia. }
    cbn [andb]. assert (Hz : zipper_edit (Ansi.Char c) (b, a) = if (32 <=? c) && (c <=? 126) then (b ++ [c], a) else (b, a)).
    { cbn [zipper_edit]. repeat (case_match; try done). }
    rewrite Hz in Hp' |- *. destruct ((32 <=? c) && (c <=? 126)) eqn:Hc.
    + unfold string_insert. rewrite split_at_printable by done. cbn [mbind option_bind]. unfold add_checked. rewrite checked_Some by (unfold unsigned; lia).
      cbn [mbind option_bind]. eexists. split; [reflexivity|]. cbn [fst snd] in *. split; [|rewrite !length_app; cbn; lia]. split; [cbn; by rewrite <- app_assoc|]. split; [cbn; rewrite length_app; cbn; lia|done].
    + eexists. split; [reflexivity|]. split; [done|]. cbn. lia.
  - eexists. split; [reflexivity|]. cbn [zipper_edit fst snd app] in Hp' |- *. rewrite app_nil_r in *. split; [|rewrite length_app; lia]. split; [cbn; by rewrite app_nil_r|]. split; [cbn; rewrite Hsl, length_app; lia|by rewrite app_nil_r].
  - eexists. split; [reflexivity|]. destruct Hlast as [->|(b' & x & ->)].
    + cbn in Hp' |- *. split; [done|]. cbn. lia.
    + cbn [zipper_edit] in Hp' |- *. rewrite length_app, Nat.add_sub, take_app_length, drop_app_length in *. cbn [length] in *. rewrite (proj2 (Z.ltb_lt 0 _)) by lia. cbn [fst snd] in *.
      split; [|rewrite !length_app; cbn; lia]. split; [cbn; by rewrite <- app_assoc|]. split; [cbn; lia|done].
  - eexists. split; [reflexivity|]. rewrite Hsl. destruct a as [|x a].
    + cbn [length]. rewrite (proj2 (Z.ltb_ge _ _)) by lia. cbn in Hp' |- *. rewrite !app_nil_r in *. split; [|lia]. split; [cbn; by rewrite !app_nil_r|]. split; [done|by rewrite app_nil_r].
    + cbn [length]. rewrite (proj2 (Z.ltb_lt _ _)) by lia. cbn in Hp' |- *. rewrite ?drop_0, ?take_0 in *. split; [|rewrite !length_app; cbn; lia]. split; [cbn; by rewrite <- app_assoc|]. split; [cbn; rewrite length_app; cbn; lia|done].
Qed.

Lemma prompt_chars_app cur b : forall i a, prompt_chars i cur (b ++ a) = prompt_chars i cur b ++ prompt_chars (i + zlen b) cur a.
Proof.
  induction b as [|c b IH]; intros i a; [cbn; by rewrite Z.add_0_r|]. cbn [app prompt_chars length]. rewrite IH, <- app_assoc. do 3 f_equal. lia.
Qed.

Lemma prompt_chars_plain cur s : forall i, i + zlen s <= cur \/ cur < i -> prompt_chars i cur s = s.
Proof.
  induction s as [|c s IH]; intros i Hi; [done|]. cbn [prompt_chars length] in *. rewrite (proj2 (Z.eqb_neq _ _)) by lia. rewrite IH by lia. done.
Qed.

Lemma prompt_zipper l z : line_rep l z -> prompt l = zipper_prompt z.
Proof.
  destruct l as [s cur], z as [b a]. intros (Hs & Hc & _). cbn [command_buf line_cursor fst snd] in *. subst. unfold prompt, zipper_prompt. cbn [command_buf line_cursor fst snd].
  rewrite prompt_chars_app, (prompt_chars_plain _ b) by lia. rewrite length_app, Z.add_0_l, <- app_assoc. do 2 f_equal. destruct a as [|c a].
  - cbn [prompt_chars app length]. rewrite (proj2 (Z.eqb_eq _ _)) by lia. by rewrite <- !app_assoc.
  - cbn [prompt_chars length drop]. rewrite Z.eqb_refl, (prompt_chars_plain _ a) by lia. rewrite (proj2 (Z.eqb_neq _ _)) by lia. rewrite drop_0. by rewrite <- !app_assoc.
Qed.

Section runs.
Context {St : Type} `{SectorCache St} {bs : BootSector}.
Context {Hw : Type} `{PortIO Hw} `{Mmio Hw} `{BitField} `{Heapless}.
Implicit Types (w : World (St := St) (Hw := Hw)).

(** The world after a text was printed. *)
Definition print_to w (s : list Z) : World (St := St) (Hw := Hw) :=
  {| cache := cache w; hw := hw w; wd := wd w; serial := serial w ++ s; shown := shown w ++ s |}.

Lemma print_to_app w s s' : print_to (print_to w s) s' = print_to w (s ++ s').
Proof. unfold print_to. cbn. by rewrite <- !app_assoc. Qed.

Lemma run_edits fuel fm devices ins rest : forall l z w,
  line_rep l z -> zlen (z.1 ++ z.2) + zlen ins < 2 ^ 64 -> Forall (fun x => x.1.1 <> Ansi.Char NL) ins -> exists l',
    run_loop bs fuel fm devices (ins ++ rest) l w = run_loop bs fuel fm devices rest l' (print_to w (zipper_prompts (fst ∘ fst <$> ins) z)) /\
    line_rep l' (zipper (fst ∘ fst <$> ins) z).
Proof.
  induction ins as [|[[i t] t'] ins IH]; intros l z w Hl Hlen Hnl.
  - exists l. split; [|done]. cbn. unfold print_to. by rewrite !app_nil_r; destruct w.
  - apply Forall_cons in Hnl as [Hi Hnl]. cbn [fst] in Hi. cbn [length] in Hlen. destruct (edit_step i l z Hl) as (l1 & He & Hl1 & Hle); [lia|].
    destruct (IH l1 (zipper_edit i z) (print_to w (zipper_prompt z)) Hl1) as (l' & E & Hl'); [lia|done|].
    exists l'. split; [|exact Hl']. cbn [app run_loop]. unfold mbnd at 1, turn. unfold mbnd at 1, kprint at 1. rewrite bool_decide_eq_false_2 by done. rewrite He. cbn [munwrap ret].
    rewrite (prompt_zipper l z Hl). fold (print_to w (zipper_prompt z)). rewrite E, print_to_app. done.
Qed.

End runs.

(** ** Properties *)

(** [C26]. Editing a line and pressing Enter. Whatever keys are pressed, in any order
    and also at the ends of the line, the editor does not panic, shows the text with
    the character under the cursor marked before every key, and executes the text
    that insertions and deletions at the cursor have made. *)
Theorem shell_line_editor {St : Type} `{SectorCache St} (bs : BootSector) {Hw : Type} `{PortIO Hw} `{Mmio Hw} `{BitField} `{Heapless}
    (fuel : nat) (fm : BitmapFrameManager) (devices : list Device) (ins : list (Input * Z * Z)) (t t' : Z) (w : World (St := St) (Hw := Hw)) :
  zlen ins < 2 ^ 64 -> Forall (fun x => x.1.1 <> Ansi.Char NL) ins ->
  let keys := fst ∘ fst <$> ins in
  let z := zipper keys ([], []) in
  let s := z.1 ++ z.2 in
  run_loop bs fuel fm devices (ins ++ [(Ansi.Char NL, t, t')]) line_new w =
  (execute_command bs fuel fm devices s;;; d <- munwrap (sub_checked 64 t' t);; kprintln (text "elapsed = " ++ dec (elapsed_ms d) ++ text "ms");;; ret line_new)
    (print_to w (zipper_prompts keys ([], []) ++ zipper_prompt z ++ INPUT_START ++ s ++ INPUT_END ++ [NL])).
Proof.
  intros Hlen Hnl keys z s. destruct (run_edits (bs := bs) fuel fm devices ins [(Ansi.Char NL, t, t')] line_new ([], []) w) as (l & E & Hl); [done|done|done|].
  rewrite E. cbn [run_loop]. unfold turn. rewrite (prompt_zipper l z Hl). pose proof Hl as (Hs & _). fold keys z in Hs. rewrite Hs. fold s.
  unfold mbnd at 1 2, kprint at 1. rewrite bool_decide_eq_true_2 by done. unfold mbnd at 1, kprintln at 1, kprint at 1.
  match goal with |- context [mbnd (execute_command bs fuel fm devices s) _ ?x] => assert (Ew : x = print_to w (zipper_prompts keys ([], []) ++ zipper_prompt z ++ INPUT_START ++ s ++ INPUT_END ++ [NL])) end.
  { unfold print_to. cbn [cache hw wd serial shown]. by rewrite <- !app_assoc. }
  rewrite Ew. by destruct (mbnd (execute_command bs fuel fm devices s) _ _) as [[] ?].
Qed.

(** ** Lemmas: commands on files *)

Section commands.
Context {St : Type} `{SectorCacheLaws St n sz} {bs : BootSector} (Hg : geometry bs n) (Hsz : sz = bpb_byts_per_sec bs).
Context {Hw : Type} `{PortIO Hw} `{Mmio Hw} `{BitField} `{Heapless}.
Implicit Types (w : World (St := St) (Hw := Hw)) (F : Z -> FatEntry) (D : Z -> list Z) (h : counts).

Abbreviation fs st := (fs_rep bs (St := St) (n := n) (sz := sz) st).

(** Apart from the volume, [w'] is [w] after printing [s]. *)
Definition printed w w' (s : list Z) : Prop := hw w' = hw w /\ wd w' = wd w /\ serial w' = serial w ++ s /\ shown w' = shown w ++ s.

Lemma printed_refl w : printed w w [].
Proof. unfold printed. by rewrite !app_nil_r. Qed.

Lemma printed_trans w1 w2 w3 s t : printed w1 w2 s -> printed w2 w3 t -> printed w1 w3 (s ++ t).
Proof. intros (E1 & E2 & E3 & E4) (E5 & E6 & E7 & E8). unfold printed. rewrite E5, E6, E7, E8, E1, E2, E3, E4, !app_assoc. done. Qed.

Lemma printed_nil w1 w2 w3 s : printed w1 w2 [] -> printed w2 w3 s -> printed w1 w3 s.
Proof. apply (printed_trans w1 w2 w3 []). Qed.

Lemma runs_kprintln s w : runs (kprintln s) w (fun _ w' => cache w' = cache w /\ printed w w' (s ++ [NL])).
Proof. done. Qed.

Lemma runs_on_fs {A} (m : M St Error A) w Q R : ends m (cache w) Q R ->
  runs (on_fs m) w (fun r w' => printed w w' [] /\ match r with inl a => Q a (cache w') | inr e => R e (cache w') end).
Proof.
  unfold ends, runs, ends, on_fs. destruct (m (cache w)) as [[a|e| |] st]; try done; intros HQ; (split; [|done]); unfold printed; cbn; by rewrite !app_nil_r.
Qed.

Lemma runs_on_iter {A} (m : M St Error A) w Q : runs m (cache w) Q -> runs (on_iter m) w (fun a w' => printed w w' [] /\ Q a (cache w')).
Proof.
  intros Hm. unfold on_iter. eapply runs_bind; [by apply (runs_on_fs m w Q (fun _ _ => False))|]. intros [a|e] w' [Hp HQ]; [by apply ends_ret|done].
Qed.

Lemma runs_commit w F D h : fs (cache w) F D h -> runs commit_ignored w (fun _ w' => printed w w' [] /\ fs (cache w') F D h).
Proof.
  intros Hf. unfold commit_ignored. eapply runs_bind.
  - apply (runs_on_fs commit w (fun _ st => fs st F D h) (fun _ _ => False)). apply ends_runs. unfold commit. apply runs_map_err.
    destruct Hf as (σ & Hrep & HF). eapply runs_mono; [by apply commit_law|]. intros [] st' Hrep'. by exists σ.
  - intros [a|e] w' [Hp HQ]; [by apply ends_ret|done].
Qed.

(** What [append] does with the writer, in the steps of the command. *)
Lemma append_steps fuel f buf st Q :
  runs (append_file bs fuel f buf) st (fun r st' => exists f', r = Some (Some tt, f') /\ Q f' st') ->
  runs (appender bs fuel f) st (fun o st1 => exists wr, o = Some wr /\
    runs (write_result bs fuel wr buf) st1 (fun r st2 => exists wr', r = (inl tt, wr') /\
      runs (drop_it bs wr') st2 (fun _ st3 => exists f', Q f' st3))).
Proof.
  unfold append_file, with_writer, write_and_close, write_result, drop_it, runs, ends, mbnd, attempt, ret.
  destruct (appender bs fuel f st) as [[[wr|]| | |] st1]; try done; [|by intros (? & ? & _)]. intros Hr. exists wr. split; [done|]. revert Hr.
  destruct (Fat.write bs fuel buf (st1, wr)) as [[[]|e| |] [st2 wr2]]; try done.
  - intros Hr. exists wr2. split; [done|]. revert Hr. destruct (drop_writer bs (st2, wr2)) as [[[]|e| |] [st3 wr3]]; try done; intros (f' & [= <-] & HQ); eauto.
  - destruct (drop_writer bs (st2, wr2)) as [[[]|e'| |] [st3 wr3]]; try done; by intros (f' & [= <-] & HQ).
Qed.

Lemma leads_used F D dir parts dir' used x : leads (bs := bs) F D dir parts dir' used -> x ∈ used -> available bs x /\ F x <> FatEntry.Unused.
Proof.
  induction 1 as [dir|dir cs fl p f sub parts dir' used (Hch & _) _ _ _ IH]; [by intros ?%not_elem_of_nil|]. intros [Hx|Hx]%elem_of_app; [|by apply IH].
  split; [|by eapply is_chain_used]. by apply (proj1 (Forall_forall _ _) (is_chain_available _ _ _ Hch)).
Qed.

(** The place of a file in the tree of directories. *)
Definition placed F D (parts : Path) (nm : list Z) dir used cs f1 f f2 : Prop :=
  leads (bs := bs) F D (root_dir bs) parts dir used /\ directory (bs := bs) F D dir cs (f1 ++ f :: f2) /\
  (nm ∉ f_name <$> f1) /\ f_name f = nm /\ (forall x, x ∈ cs -> x ∉ used).

(** A file that was written is in its place still. *)
Lemma appended_placed st0 st' F D h F' D' parts nm dir used cs f1 f f2 fcs fcs' f' :
  fs st0 F D h -> fs st' F' D' h -> placed F D parts nm dir used cs f1 f f2 -> (forall x, x ∈ fcs -> x ∉ used ++ cs) ->
  stored D' f' -> same_place f f' -> writable (bs := bs) F f fcs -> writable (bs := bs) F' f' fcs' ->
  changes (bs := bs) F D F' D' (slot_of f).1 (slot_of f).2 fcs fcs' -> placed F' D' parts nm dir used cs f1 f' f2.
Proof.
  intros Hf Hf' (Hl & Hd & Hn1 & Hnm & Hdis) Hfcs Hst Hsame Hwr Hwr' [(new & Hnew & Hfree) Hfat Hdata Hslot].
  assert (Hout : forall x, x ∈ used ++ cs -> available bs x /\ (x ∉ fcs')).
  { intros x Hx. assert (Hav : available bs x /\ F x <> FatEntry.Unused).
    { apply elem_of_app in Hx as [Hx|Hx]; [by apply (leads_used _ _ _ _ _ _ _ Hl)|]. destruct Hd as (Hch & _).
      split; [|by eapply is_chain_used]. by apply (proj1 (Forall_forall _ _) (is_chain_available _ _ _ Hch)). }
    split; [tauto|]. rewrite Hnew, not_elem_of_app. split; [intros Hin; by apply (Hfcs x)|]. intros Hin. by destruct Hav as [_ []], (Hfree x Hin). }
  destruct (tidy_pick _ _ _ (proj1 (proj2 Hd)) f1 f f2 eq_refl) as (l1 & g & l2 & nm0 & sfn & Hwk & Hr & Hfg & _).
  destruct (group_slots F D cs l1 g l2 dir nm0 sfn Hwk) as (ks & i_s & ke & ie & a_s & ae & [_ _ _ _ Hke _ _ _] & Hle & _); [by intros ->|by destruct Hd|]. rewrite <- Hfg in Hle.
  assert (Hkd : (slot_of f).1 = ke) by (unfold slot_of; by rewrite Hle). rewrite Hkd in *. assert (Hin : ke ∈ cs) by (by eapply list_elem_of_lookup_2).
  split; [|split; [|split; [done|]; split; [|done]]].
  - eapply leads_frame; [exact Hl|]. intros x Hx. destruct (Hout x) as [Hav Hx']; [apply elem_of_app; by left|].
    split; [by apply Hfat|]. apply Hdata; [done|done|]. intros ->. by apply (Hdis ke).
  - eapply rewritten_directory; [exact Hd| |exact Hsame|done| | | | |].
    + eapply is_chain_ext; [apply Hd|]. intros x Hx. apply Hfat. by apply (Hout x), elem_of_app; right.
    + unfold writable, f_sfn in *. destruct (f_last_entry f') as [[? ?] ?]. tauto.
    + intros x Hx Hne. rewrite Hkd in Hne. destruct (Hout x) as [Hav Hx']; [apply elem_of_app; by right|]. by apply Hdata.
    + rewrite Hkd. done.
    + rewrite Hkd. apply (fs_rep_length Hg Hsz _ _ _ _ _ Hf). apply (Hout ke), elem_of_app. by right.
    + rewrite Hkd. apply (fs_rep_length Hg Hsz _ _ _ _ _ Hf'). apply (Hout ke), elem_of_app. by right.
  - destruct Hsame as (_ & _ & -> & _). done.
Qed.

(** *** [append], [read], [touch] and [ls] *)

Lemma placed_find F D parts nm dir used cs f1 f f2 : placed F D parts nm dir used cs f1 f f2 -> find_named nm (f1 ++ f :: f2) = Some f.
Proof. intros (_ & _ & Hn & Hnm & _). by apply find_named_app. Qed.

Lemma runs_placed fuel w F D h parts nm dir used cs f1 f f2 :
  fs (cache w) F D h -> placed F D parts nm dir used cs f1 f f2 -> (dir_fuel (bs := bs) <= fuel)%nat ->
  runs (on_iter (get_file bs fuel (parts ++ [nm]))) w (fun o w' => printed w w' [] /\ o = Some f /\ fs (cache w') F D h).
Proof.
  intros Hf Hp Hfuel. apply (runs_on_iter _ w (fun o st => o = Some f /\ fs st F D h)). eapply runs_mono; [apply (get_file_spec Hg Hsz fuel (cache w) F D h parts dir used cs (f1 ++ f :: f2) nm Hf); [apply Hp|apply Hp|done]|].
  intros o st' [-> Hf']. split; [|done]. by eapply placed_find.
Qed.

(** The state of a file that can be appended to. *)
Definition appendable F D parts nm dir used cs f1 f f2 fcs : Prop :=
  placed F D parts nm dir used cs f1 f f2 /\ writable (bs := bs) F f fcs /\ file_is_dir f = false /\
  trimmed (bs := bs) fcs (file_size f) /\ (forall x, x ∈ fcs -> x ∉ used ++ cs).

Lemma cmd_append_spec fuel w F D h path rest parts nm dir used cs f1 f f2 fcs new :
  fs (cache w) F D h -> appendable F D parts nm dir used cs f1 f f2 fcs -> joined (wd w) path = parts ++ [nm] ->
  let s := join (text " ") rest in let buf := as_bytes (s ++ [NL]) in
  s <> [] -> Forall (fun c => scalar c = true) s -> file_size f + zlen buf < 2 ^ 32 ->
  NoDup new -> (forall x, x ∈ new -> available bs x /\ F x = FatEntry.Unused) ->
  zlen (contents D f fcs ++ buf) <= zlen (fcs ++ new) * cluster_bytes bs -> (dir_fuel (bs := bs) + length fcs + length buf <= fuel)%nat ->
  runs (cmd_write bs fuel true (path :: rest)) w (fun _ w' => printed w w' [] /\ exists F' D' f' fcs', fs (cache w') F' D' h /\
    placed F' D' parts nm dir used cs f1 f' f2 /\ writable (bs := bs) F' f' fcs' /\ file_is_dir f' = false /\ trimmed (bs := bs) fcs' (file_size f') /\
    contents D' f' fcs' = contents D f fcs ++ buf /\ file_size f' = zlen (contents D f fcs ++ buf)).
Proof.
  intros Hf (Hp & Hwr & Hd & Ht & Hdis) Hj s buf Hs Hsc Hlen Hnd Hnew Hfit Hfuel. cbn [cmd_write].
  apply (runs_bind _ _ _ (fun a b => a = w /\ b = w)); [done|]. intros ? ? [-> ->]. rewrite Hj.
  eapply runs_bind; [apply (runs_placed fuel w F D h parts nm dir used cs f1 f f2 Hf Hp); lia|]. intros o w1 (Hp1 & -> & Hf1).
  assert (Hb : bytes_ok buf).
  { apply as_bytes_ok, Forall_app. split; [done|]. by constructor. }
  pose proof (append_steps fuel f buf (cache w1) _ (append_fits Hg Hsz fuel (cache w1) F D h f fcs buf new Hf1 Hwr Hd Ht Hb Hlen Hnd Hnew Hfit ltac:(lia))) as Hsteps.
  eapply runs_bind; [apply runs_on_iter, Hsteps|]. intros o w2 (Hp2 & wr & -> & Hstep2). fold s. 
  replace (match s with [] => s | _ :: _ => s ++ [NL] end) with (s ++ [NL]) by (by destruct s). fold buf.
  eapply runs_bind; [apply runs_on_iter, Hstep2|]. intros r w3 (Hp3 & wr' & -> & Hstep3).
  eapply runs_bind; [apply runs_on_iter, Hstep3|]. intros [] w4 (Hp4 & f' & F' & D' & Hf' & Hst & Hsame & fcs' & Hwr' & Ht' & Hsize & Hc & Hch).
  eapply runs_mono; [by apply (runs_commit w4 F' D' h)|]. intros [] w5 [Hp5 Hf5].
  split; [by eapply printed_nil, printed_nil, printed_nil, printed_nil|]. exists F', D', f', fcs'. split; [done|]. split.
  - by eapply (appended_placed (cache w1) (cache w4) F D h F' D').
  - split; [done|]. split; [|done]. destruct Hsame as [-> _]. done.
Qed.

Lemma cmd_read_spec fuel w F D h path args parts nm dir used cs f1 f f2 fcs s :
  fs (cache w) F D h -> placed F D parts nm dir used cs f1 f f2 -> writable (bs := bs) F f fcs -> file_is_dir f = false -> trimmed (bs := bs) fcs (file_size f) ->
  joined (wd w) path = parts ++ [nm] -> contents D f fcs = as_bytes s -> Forall (fun c => scalar c = true) s ->
  (dir_fuel (bs := bs) + Z.to_nat (file_size f) + Z.to_nat (cluster_bytes bs) + 1 < fuel)%nat ->
  runs (cmd_read bs fuel (path :: args)) w (fun _ w' => printed w w' (s ++ [NL]) /\ fs (cache w') F D h).
Proof.
  intros Hf Hp Hwr Hd Ht Hj Hc Hs Hfuel. cbn [cmd_read].
  apply (runs_bind _ _ _ (fun a b => a = w /\ b = w)); [done|]. intros ? ? [-> ->]. rewrite Hj.
  eapply runs_bind; [apply (runs_placed fuel w F D h parts nm dir used cs f1 f f2 Hf Hp); lia|]. intros o w1 (Hp1 & -> & Hf1).
  eapply runs_bind.
  { apply (runs_on_fs _ w1 (fun r st' => r = Some (contents D f fcs) /\ fs st' F D h) (fun _ _ => False)), (read_contents Hg Hsz fuel (cache w1) F D h f fcs Hf1).
    - by apply writable_file_ok.
    - destruct (writable_chain _ _ _ Hwr) as [_ Hav]. pose proof (bytes_of_length Hg Hsz _ _ _ _ _ Hf1 Hav). pose proof (cluster_bytes_pos Hg). destruct Ht as [_ Ht]. nia. }
  intros [r|e] w2 [Hp2 HQ]; [|done]. destruct HQ as [-> Hf2]. rewrite Hc, from_utf8_as_bytes by done.
  eapply runs_mono; [apply runs_kprintln|]. intros [] w3 [Hc3 Hp3]. split; [by eapply printed_nil, printed_nil|]. by rewrite Hc3.
Qed.

Definition file_lines (l : list File) : list Z := mjoin ((fun f => file_line f ++ [NL]) <$> l).

Lemma runs_print_files l : forall w, runs (print_files l) w (fun _ w' => cache w' = cache w /\ printed w w' (file_lines l)).
Proof.
  induction l as [|f l IH]; intros w; cbn [print_files]; [apply ends_ret; split; [done|apply printed_refl]|].
  eapply runs_bind; [apply runs_kprintln|]. intros [] w1 [Hc1 Hp1]. eapply runs_mono; [apply IH|]. intros [] w2 [Hc2 Hp2].
  split; [by rewrite Hc2|]. unfold file_lines. cbn [fmap list_fmap mjoin list_join]. by eapply printed_trans.
Qed.

Lemma cmd_ls_spec fuel w F D h dir used cs fl :
  fs (cache w) F D h -> leads (bs := bs) F D (root_dir bs) (wd w) dir used -> directory (bs := bs) F D dir cs fl -> (dir_fuel (bs := bs) <= fuel)%nat ->
  runs (cmd_ls bs fuel) w (fun _ w' => printed w w' (file_lines fl) /\ fs (cache w') F D h).
Proof.
  intros Hf Hl Hd Hfuel. unfold cmd_ls. apply (runs_bind _ _ _ (fun a b => a = w /\ b = w)); [done|]. intros ? ? [-> ->].
  eapply runs_bind; [apply runs_on_iter, (get_dir_spec Hg Hsz fuel (cache w) F D h (wd w) dir used Hf Hl Hfuel)|]. intros o w1 (Hp1 & -> & Hf1).
  destruct Hd as (Hch & Ht & _). eapply runs_bind; [apply runs_on_iter, (list_files_spec Hg Hsz fuel (cache w1) F D h dir cs fl Hf1 Hch (tidy_scan _ _ _ Ht) Hfuel)|].
  intros l w2 (Hp2 & -> & Hf2). eapply runs_mono; [apply runs_print_files|]. intros [] w3 [Hc3 Hp3]. rewrite Hc3. split; [|done]. by eapply printed_nil, printed_nil.
Qed.

Lemma dir_and_file_name_snoc (parts : Path) nm : dir_and_file_name (parts ++ [nm]) = Some (parts, nm).
Proof. unfold dir_and_file_name. rewrite last_snoc. cbn. rewrite length_app. cbn [length]. by rewrite Nat.add_sub, take_app_length. Qed.

(** [touch] in the working directory. *)
Lemma cmd_touch_spec fuel w F D h path args dir used cs fl nm :
  fs (cache w) F D h -> leads (bs := bs) F D (root_dir bs) (wd w) dir used -> directory (bs := bs) F D dir cs fl -> (forall x, x ∈ cs -> x ∉ used) ->
  joined (wd w) path = wd w ++ [nm] -> Forall is_char nm -> last nm <> Some 0 -> last nm <> Some 0xffff -> (nm ∉ f_name <$> fl) -> (dir_fuel (bs := bs) <= fuel)%nat ->
  runs (cmd_touch bs fuel (path :: args)) w (fun _ w' =>
    (printed w w' [] /\ exists F' D' cs' sfn f f1 f2, fs (cache w') F' D' h /\ leads (bs := bs) F' D' (root_dir bs) (wd w') dir used /\
      fl = f1 ++ f2 /\ directory (bs := bs) F' D' dir cs' (f1 ++ FatDirs.shown f f2) /\ f_name f = nm /\ f_sfn f = sfn /\ same_but_name sfn_new sfn) \/
    exists e, (e = LowLevel.Full \/ e = InvalidFileName) /\ printed w w' (text "Failed to create a file: " ++ error_text e ++ [NL])).
Proof.
  intros Hf Hl Hd Hdis Hj Hch Hz Hffff Hnm Hfuel. cbn [cmd_touch]. unfold cmd_create. apply (runs_bind _ _ _ (fun a b => a = w /\ b = w)); [done|]. intros ? ? [-> ->].
  rewrite Hj, dir_and_file_name_snoc.
  eapply runs_bind; [apply runs_on_iter, (get_dir_spec Hg Hsz fuel (cache w) F D h (wd w) dir used Hf Hl Hfuel)|]. intros o w1 (Hp1 & -> & Hf1).
  eapply runs_bind; [apply runs_on_fs, (create_file_spec Hg Hsz fuel (cache w1) F D h dir cs fl nm Hf1 Hd Hch Hz Hffff Hfuel)|]. intros [[]|e] w2 [Hp2 HQ].
  - destruct HQ as [_ (sfn & Hsame & F' & D' & cs' & f & f1 & f2 & Hf' & Hgr & Hfl & Hd' & Hn & Hs & _)].
    eapply runs_mono; [by apply (runs_commit w2 F' D' h)|]. intros [] w3 [Hp3 Hf3]. left. split; [by eapply printed_nil, printed_nil|].
    exists F', D', cs', sfn, f, f1, f2. split; [done|]. split; [|done]. replace (wd w3) with (wd w) by (destruct Hp1 as (_ & E1 & _), Hp2 as (_ & E2 & _), Hp3 as (_ & E3 & _); congruence).
    eapply leads_frame; [exact Hl|]. intros x Hx. destruct Hgr as [(new & Hcs & Hnew) Hfat Hdata].
    destruct (leads_used _ _ _ _ _ _ _ Hl Hx) as [Hav Hun].
    assert (Hout : x ∉ cs') by (rewrite Hcs, not_elem_of_app; split; [intros ?; by apply (Hdis x)|intros Hin; by destruct (Hnew x Hin)]).
    split; [by apply Hfat|by apply Hdata].
  - eapply runs_mono; [apply runs_kprintln|]. intros [] w3 [Hc3 Hp3]. right. exists e. rewrite <- !app_assoc in Hp3.
    split; [destruct e; try done; [by left|by destruct HQ|by right]|]. by eapply printed_nil, printed_nil.
Qed.

End commands.

(** The dispatch of a command line. *)
Lemma execute_words {St : Type} `{SectorCache St} (bs : BootSector) {Hw : Type} `{PortIO Hw} `{Mmio Hw} `{BitField} `{Heapless} fuel fm devices (args : list (list Z)) :
  Forall word args ->
  execute_command (Hw := Hw) bs fuel fm devices (join (text " ") (text "append" :: args)) = cmd_write bs fuel true args /\
  execute_command (Hw := Hw) bs fuel fm devices (join (text " ") (text "read" :: args)) = cmd_read bs fuel args /\
  execute_command (Hw := Hw) bs fuel fm devices (join (text " ") (text "touch" :: args)) = cmd_touch bs fuel args /\
  execute_command (Hw := Hw) bs fuel fm devices (text "ls") = cmd_ls bs fuel.
Proof.
  intros Hargs. assert (Hw0 : forall s, word (text s) -> split_whitespace (trim (join (text " ") (text s :: args))) = text s :: args).
  { intros s Hs. rewrite trim_join, words_join by (by constructor). done. }
  unfold execute_command. rewrite !Hw0; [done|..]; split; try done; repeat constructor.
Qed.

Section claims.
Context {St : Type} `{SectorCacheLaws St n sz} {bs : BootSector} (Hg : geometry bs n) (Hsz : sz = bpb_byts_per_sec bs).
Context {Hw : Type} `{PortIO Hw} `{Mmio Hw} `{BitField} `{Heapless}.

Abbreviation fs st := (fs_rep bs (St := St) (n := n) (sz := sz) st).

(** [C8]. A file that is appended to and then read, by two command lines, anywhere
    in the tree of directories: the path leads to the file, the free clusters
    suffice, and then the second command prints what the file held and the words
    that were appended, and nothing else was printed. *)
Theorem shell_append_read (fuel : nat) (fm : BitmapFrameManager) (devices : list Device) (w : World (St := St) (Hw := Hw)) F D h
    (path s0 : list Z) (rest : list (list Z)) (parts : Path) nm dir used cs f1 f f2 fcs new :
  fs (cache w) F D h -> appendable (bs := bs) F D parts nm dir used cs f1 f f2 fcs -> joined (wd w) path = parts ++ [nm] ->
  Forall word (path :: rest) -> rest <> [] -> Forall (Forall (fun c => scalar c = true)) rest ->
  contents D f fcs = as_bytes s0 -> Forall (fun c => scalar c = true) s0 ->
  let s := join (text " ") rest ++ [NL] in
  file_size f + zlen (as_bytes s) < 2 ^ 32 -> NoDup new -> (forall x, x ∈ new -> available bs x /\ F x = FatEntry.Unused) ->
  zlen (as_bytes (s0 ++ s)) <= zlen (fcs ++ new) * cluster_bytes bs ->
  (dir_fuel (bs := bs) + length fcs + length (as_bytes (s0 ++ s)) + Z.to_nat (cluster_bytes bs) + 1 < fuel)%nat ->
  runs (execute_command bs fuel fm devices (join (text " ") (text "append" :: path :: rest));;;
        execute_command bs fuel fm devices (join (text " ") [text "read"; path])) w
    (fun _ w' => printed w w' (s0 ++ s ++ [NL])).
Proof.
  intros Hf Ha Hj Hwords Hne Hsc Hc Hs0 s Hlen Hnd Hnew Hfit Hfuel.
  destruct (execute_words (Hw := Hw) bs fuel fm devices (path :: rest) Hwords) as (-> & _).
  destruct (execute_words (Hw := Hw) bs fuel fm devices [path]) as (_ & -> & _); [by apply Forall_cons in Hwords as [? _]; constructor|].
  assert (Hj0 : join (text " ") rest <> []).
  { apply Forall_cons in Hwords as [_ Hr]. destruct rest as [|[|c v] rest]; [done|by apply Forall_inv in Hr as [? _]|]. by destruct rest. }
  assert (Hsj : Forall (fun c => scalar c = true) (join (text " ") rest)) by (by apply join_Forall; [repeat constructor|]).
  rewrite as_bytes_app in Hfit, Hfuel. rewrite length_app in Hfuel.
  eapply runs_bind; [apply (cmd_append_spec Hg Hsz fuel w F D h path rest parts nm dir used cs f1 f f2 fcs new); try done; fold s; [by rewrite Hc|lia]|].
  intros [] w1 (Hp1 & F' & D' & f' & fcs' & Hf' & Hpl & Hwr & Hd & Ht & Hc' & Hsize). fold s in Hc', Hsize. rewrite Hc, <- as_bytes_app in Hc', Hsize.
  assert (Hs : Forall (fun c => scalar c = true) (s0 ++ s)) by (apply Forall_app; split; [done|]; apply Forall_app; split; [done|by constructor]).
  eapply runs_mono; [apply (cmd_read_spec Hg Hsz fuel w1 F' D' h path [] parts nm dir used cs f1 f' f2 fcs' (s0 ++ s)); try done|].
  - destruct Hp1 as (_ & -> & _). done.
  - rewrite Hsize, Nat2Z.id, as_bytes_app, length_app. lia.
  - intros [] w2 [Hp2 _]. rewrite <- app_assoc in Hp2. by eapply printed_nil.
Qed.

(** Creating a file in the working directory and listing it: either the creation
    says why it failed, the volume being full or the name not storable, or the listing
    then has a line for every file there was, in order, and one for the new file, of
    size 0. *)
Theorem shell_touch_ls (fuel : nat) (fm : BitmapFrameManager) (devices : list Device) (w : World (St := St) (Hw := Hw)) F D h
    (path nm : list Z) dir used cs fl :
  fs (cache w) F D h -> leads (bs := bs) F D (root_dir bs) (wd w) dir used -> directory (bs := bs) F D dir cs fl -> (forall x, x ∈ cs -> x ∉ used) ->
  joined (wd w) path = wd w ++ [nm] -> word path -> Forall is_char nm -> is_dots nm = false -> last nm <> Some 0 -> last nm <> Some 0xffff ->
  (nm ∉ f_name <$> fl) -> (dir_fuel (bs := bs) <= fuel)%nat ->
  runs (execute_command bs fuel fm devices (join (text " ") [text "touch"; path])) w (fun _ w1 =>
    (exists f1 f2, fl = f1 ++ f2 /\ printed w w1 [] /\ runs (execute_command bs fuel fm devices (text "ls")) w1 (fun _ w2 =>
       printed w1 w2 (file_lines f1 ++ nm ++ text " (0B)" ++ [NL] ++ file_lines f2))) \/
    exists e, (e = LowLevel.Full \/ e = InvalidFileName) /\ printed w w1 (text "Failed to create a file: " ++ error_text e ++ [NL])).
Proof.
  intros Hf Hl Hd Hdis Hj Hword Hch Hdots Hz Hffff Hnm Hfuel.
  destruct (execute_words (Hw := Hw) bs fuel fm devices [path]) as (_ & _ & -> & El); [by apply Forall_singleton|].
  eapply runs_mono; [by apply (cmd_touch_spec Hg Hsz fuel w F D h path [] dir used cs fl nm)|].
  intros [] w1 [(Hp1 & F' & D' & cs' & sfn & f & f1 & f2 & Hf1 & Hl1 & -> & Hd1 & Hn & Hs & Hsame)|He]; [left|by right].
  exists f1, f2. split; [done|]. split; [done|]. unfold FatDirs.shown in Hd1. rewrite Hn, Hdots in Hd1. rewrite El.
  eapply runs_mono; [by apply (cmd_ls_spec Hg Hsz fuel w1 F' D' h dir used cs' (f1 ++ f :: f2))|]. intros [] w2 [Hp2 _].
  assert (Hline : file_line f = nm ++ text " (0B)").
  { unfold file_line, file_is_dir, Fat.file_size. rewrite Hs, Hn. unfold same_but_name in Hsame.
    assert (Hz1 : DirEntry.file_size sfn = 0) by (by apply (f_equal DirEntry.file_size) in Hsame).
    assert (Hz2 : is_directory sfn = false) by (apply (f_equal attr) in Hsame; unfold is_directory; simpl in Hsame; by rewrite Hsame).
    by rewrite Hz1, Hz2. }
  unfold file_lines in *. rewrite fmap_app, fmap_cons, join_app in Hp2. cbn [mjoin list_join] in Hp2. rewrite Hline, <- !app_assoc in Hp2. exact Hp2.
Qed.

End claims.

(** ** A session on the concrete volume *)

#[local] Instance no_ports : PortIO unit := {| port_read := fun _ _ h => (0, h); port_write := fun _ _ _ h => h |}.
#[local] Instance no_mmio : Mmio unit := {| mmio_read := fun _ h => (0, h); mmio_write := fun _ _ h => h |}.

Definition demo_frames : BitmapFrameManager := {| alloc_map := []; begin_ := 0; end_ := 0 |}.

Definition demo_world {St : Type} (st : St) : World (St := St) (Hw := unit) := {| cache := st; hw := tt; wd := []; serial := []; shown := [] |}.

(** [x], left, [y], Delete: the line is [y]. *)
Lemma shell_line_editor_witness : exists w',
  run_loop (Hw := unit) demo_bs 10 demo_frames [] ([(Ansi.Char 120, 0, 0); (ArrowLeft, 0, 0); (Ansi.Char 121, 0, 0); (Ansi.Char 127, 0, 0)] ++ [(Ansi.Char NL, 7, 7)]) line_new (demo_world demo_fs) =
  (execute_command (Hw := unit) demo_bs 10 demo_frames [] (text "y");;; d <- munwrap (sub_checked 64 7 7);; kprintln (text "elapsed = " ++ dec (elapsed_ms d) ++ text "ms");;; ret line_new) w'.
Proof.
  eexists. apply (shell_line_editor (Hw := unit) demo_bs 10 demo_frames [] [(Ansi.Char 120, 0, 0); (ArrowLeft, 0, 0); (Ansi.Char 121, 0, 0); (Ansi.Char 127, 0, 0)] 7 7 (demo_world demo_fs)); [done|].
  repeat constructor; discriminate.
Defined.

Lemma demo_file_appendable : appendable (bs := demo_bs) demo_F demo_D [] (text "A.TXT") 2 [] [2] [] demo_file [] [3; 5].
Proof.
  split; [|split; [exact demo_writable|]; split; [done|]; split; [exact demo_trimmed|]].
  - split; [constructor|]. split; [exact demo_file_directory|]. split; [apply not_elem_of_nil|]. split; [done|]. intros x _. apply not_elem_of_nil.
  - intros x Hx [?%not_elem_of_nil|Hx2]%elem_of_app; [done|]. apply list_elem_of_singleton in Hx2 as ->. rewrite !elem_of_cons in Hx. destruct Hx as [|[|Hx%not_elem_of_nil]]; done.
Qed.

Lemma shell_append_read_witness :
  runs (execute_command (Hw := unit) demo_bs (Z.to_nat 8000) demo_frames [] (text "append A.TXT Hi");;;
        execute_command (Hw := unit) demo_bs (Z.to_nat 8000) demo_frames [] (text "read A.TXT")) (demo_world demo_fs)
    (fun _ w' => printed (demo_world demo_fs) w' ((replicate 512 97 ++ replicate 88 98) ++ (text "Hi" ++ [NL]) ++ [NL])).
Proof.
  apply (shell_append_read (Hw := unit) demo_bs_geometry eq_refl (Z.to_nat 8000) demo_frames [] (demo_world demo_fs) demo_F demo_D (fun _ => 0%nat)
    (text "A.TXT") (replicate 512 97 ++ replicate 88 98) [text "Hi"] [] (text "A.TXT") 2 [] [2] [] demo_file [] [3; 5] [4]).
  - exact (demo_rep demo_chain demo_files).
  - exact demo_file_appendable.
  - done.
  - by repeat constructor.
  - done.
  - by repeat constructor.
  - rewrite demo_contents. by vm_compute.
  - apply Forall_app. split; by apply Forall_replicate.
  - by vm_compute.
  - apply NoDup_singleton.
  - intros x ->%list_elem_of_singleton. vm_compute. repeat split; discriminate.
  - by vm_compute.
  - apply Nat.ltb_lt. by vm_compute.
Defined.

Lemma shell_touch_ls_witness :
  runs (execute_command (Hw := unit) demo_bs (Z.to_nat 4000) demo_frames [] (text "touch CD")) (demo_world (demo_dir demo_entries)) (fun _ w1 =>
    (exists f1 f2, [letter_file 65 0; letter_file 66 2] = f1 ++ f2 /\ printed (demo_world (demo_dir demo_entries)) w1 [] /\
       runs (execute_command (Hw := unit) demo_bs (Z.to_nat 4000) demo_frames [] (text "ls")) w1 (fun _ w2 =>
         printed w1 w2 (file_lines f1 ++ text "CD" ++ text " (0B)" ++ [NL] ++ file_lines f2))) \/
    exists e, (e = LowLevel.Full \/ e = InvalidFileName) /\ printed (demo_world (demo_dir demo_entries)) w1 (text "Failed to create a file: " ++ error_text e ++ [NL])).
Proof.
  apply (shell_touch_ls (Hw := unit) demo_bs_geometry eq_refl (Z.to_nat 4000) demo_frames [] (demo_world (demo_dir demo_entries)) _ _ (fun _ => 0%nat)
    (text "CD") (text "CD") 2 [] [2] _ (demo_rep demo_chain _)).
  - constructor.
  - exact demo_directory.
  - intros x _. apply not_elem_of_nil.
  - done.
  - split; [done|]. by repeat constructor.
  - apply Forall_cons_2; [left; by vm_compute|]. apply Forall_cons_2; [left; by vm_compute|constructor].
  - done.
  - done.
  - done.
  - apply (bool_decide_eq_false_1 _). by vm_compute.
  - apply Nat.leb_le. by vm_compute.
Defined.

(** The elapsed time is not always exact: 1001 ticks of 4 ms are printed as 4003 ms,
    the product having been rounded down from the quotient. *)
Lemma elapsed_rounded : elapsed_ms 1000 = 4000 /\ elapsed_ms 1001 = 4003.
Proof. by vm_compute. Qed.
