(* ===== verification/Loader.v ===== *)
(** * The UEFI loader (src/ors-loader)

    [load_elf] puts the segments of the kernel into memory, [exit_boot_services]
    makes the memory map of the kernel from the one of the firmware, and
    [efi_main] hands both over with the frame buffer and the ACPI tables. The
    firmware and the ELF parser are interfaces. A service of the firmware that
    fails makes the loader panic ([unwrap_success], [expect_success]); the model
    keeps these failures as [Err], so that a [Panic] is one of the loader's own. *)

From stdpp Require Import strings.
From S2P Require Import Prelude PhysMemory Hardware Text.
Import Ram.
Local Open Scope Z_scope.
Local Open Scope rust_scope.

(** ** What the loader uses of the crates [uefi] and [goblin] *)

(** [MemoryType] by its number in the UEFI specification *)
Definition LOADER_DATA : Z := 2.
Definition BOOT_SERVICES_CODE : Z := 3.
Definition BOOT_SERVICES_DATA : Z := 4.
Definition CONVENTIONAL : Z := 7.

Record MemoryDescriptor := { d_ty : Z; d_phys_start : Z; d_page_count : Z; d_att : Z }.

(** [mem::size_of::<MemoryDescriptor>()] *)
Definition DESCRIPTOR_SIZE : Z := 40.

Inductive GopFormat := GopRgb | GopBgr | GopBitmask | GopBltOnly.

Record ModeInfo := { g_frame_buffer : Z; g_stride : Z; g_resolution : Z * Z; g_format : GopFormat }.

Inductive FileMode := ModeRead | ModeCreateReadWrite.

(** [FileType], with the handle of the file *)
Inductive FileType := Regular (h : Z) | Dir (h : Z).

(** The services, over the state [F] of the firmware; [None] is an error status. *)
Class Uefi (F : Type) := {
  config_table : F -> list (Z * Z);
  locate_gop : F -> option ModeInfo;
  memory_map_size : F -> Z;
  memory_map : Z -> F -> option (list MemoryDescriptor);
  allocate_pool : Z -> F -> option F;
  allocate_pages : Z -> Z -> Z -> F -> option F;
  firmware_exit : Z -> F -> option (list MemoryDescriptor);
  open_volume : F -> option F;
  dir_open : list Z -> FileMode -> bool -> F -> option (FileType * F);
  file_size : Z -> F -> option Z;
  file_read : Z -> Z -> F -> option (list Z * F);
  file_write : Z -> list Z -> F -> option F;
  type_name : Z -> list Z
}.

(** [goblin::elf::Elf] and [ProgramHeader] *)
Record ProgramHeader := { p_type : Z; p_offset : Z; p_vaddr : Z; p_filesz : Z; p_memsz : Z }.
Record Elf := { program_headers : list ProgramHeader; elf_entry : Z }.
Definition PT_LOAD : Z := 1.

Class Goblin := elf_parse : list Z -> option Elf.

Inductive FirmwareError := ServiceFailed.

(** The firmware and the memory of the machine *)
Record LoaderState (F : Type) := { firmware : F; ram : Z -> Z }.
Arguments firmware {F} _.
Arguments ram {F} _ _.
Arguments Build_LoaderState {F} _ _.

Section loader.
Context {F : Type} `{Uefi F, Goblin}.

Abbreviation L := (M (LoaderState F) FirmwareError).

(** A service and [unwrap_success] *)
Definition service {A} (f : F -> option (A * F)) : L A := fun s =>
  match f (firmware s) with
  | Some (a, f') => (Ok a, Build_LoaderState f' (ram s))
  | None => (Err ServiceFailed, s)
  end.

Definition query {A} (f : F -> option A) : L A := service (fun x => a ← f x; Some (a, x)).
Definition command (f : F -> option F) : L unit := service (fun x => y ← f x; Some (tt, y)).

(** ** fs.rs *)

Definition open_root_dir : L unit := command open_volume.

Definition create (filename : list Z) (create_dir : bool) : L FileType := service (dir_open filename ModeCreateReadWrite create_dir).

Definition open (filename : list Z) : L FileType := service (dir_open filename ModeRead false).

Definition create_file (filename : list Z) : L Z :=
  t <- create filename false ;;
  match t with Regular h => ret h | Dir _ => mpanic end.

Definition open_file (filename : list Z) : L Z :=
  t <- open filename ;;
  match t with Regular h => ret h | Dir _ => mpanic end.

(** The number of bytes that [read] returns is ignored. *)
Definition read_file_to_vec (file : Z) : L (list Z) :=
  size <- query (file_size file) ;;
  command (allocate_pool size) ;;;
  let buf := replicate (Z.to_nat size) 0 in
  bytes <- service (file_read file size) ;;
  ret (upd buf 0 bytes).

(** [fwriteln!] *)
Definition fwriteln (file : Z) (line : list Z) : L unit := command (file_write file (as_bytes (line ++ [NL]))).

(** ** main.rs *)

Definition UEFI_PAGE_SIZE : Z := 0x1000.

(** [get_rsdp] *)
Definition get_rsdp (acpi_guid : Z) : L Z := fun s =>
  munwrap (snd <$> find (fun c => fst c =? acpi_guid) (config_table (firmware s))) s.

(** The line of a descriptor in the file [memmap] *)
Definition descriptor_line (i : Z) (d : MemoryDescriptor) : list Z :=
  dec i ++ text ", " ++ hex (d_ty d) ++ text ", " ++ type_name (d_ty d) ++ text ", " ++ pad 48 8 (hex (d_phys_start d)) ++ text ", " ++
  hex (d_page_count d) ++ text ", " ++ hex (Z.land (d_att d) 0xfffff).

Fixpoint dump_lines (file i : Z) (ds : list MemoryDescriptor) : L unit :=
  match ds with
  | [] => ret tt
  | d :: ds => fwriteln file (descriptor_line i d) ;;; dump_lines file (i + 1) ds
  end.

Definition enough_mmap_size : L Z := fun s =>
  munwrap (add_checked 64 (memory_map_size (firmware s)) (8 * DESCRIPTOR_SIZE)) s.

Definition dump_memory_map (path : list Z) : L unit :=
  n <- enough_mmap_size ;;
  command (allocate_pool n) ;;;
  descriptors <- query (memory_map n) ;;
  open_root_dir ;;;
  file <- create_file path ;;
  fwriteln file (text "Index, Type, Type(name), PhysicalStart, NumberOfPages, Attribute") ;;;
  dump_lines file 0 descriptors.

(** The first loop of [load_elf]: the range of the segments *)
Fixpoint load_range (phs : list ProgramHeader) (dest_start dest_end : Z) : option (Z * Z) :=
  match phs with
  | [] => Some (dest_start, dest_end)
  | ph :: phs =>
      if negb (p_type ph =? PT_LOAD) then load_range phs dest_start dest_end
      else
        e ← add_checked 64 (p_vaddr ph) (p_memsz ph);
        load_range phs (Z.min dest_start (p_vaddr ph)) (Z.max dest_end e)
  end.

(** The second loop: the file's bytes of a segment, and zeros behind them *)
Definition load_segment (src : list Z) (ph : ProgramHeader) (m : Z -> Z) : option (Z -> Z) :=
  let ofs := p_offset ph in
  let fsize := p_filesz ph in
  let msize := p_memsz ph in
  if fsize <=? msize then
    _ ← add_checked 64 ofs fsize;
    bytes ← slice src ofs fsize;
    Some (store (store m (p_vaddr ph) bytes) (p_vaddr ph + fsize) (replicate (Z.to_nat (msize - fsize)) 0))
  else None.

Fixpoint load_segments (src : list Z) (phs : list ProgramHeader) (m : Z -> Z) : option (Z -> Z) :=
  match phs with
  | [] => Some m
  | ph :: phs =>
      if negb (p_type ph =? PT_LOAD) then load_segments src phs m
      else m ← load_segment src ph m; load_segments src phs m
  end.

Definition page_count (dest_start dest_end : Z) : option Z :=
  n ← sub_checked 64 dest_end dest_start;
  n ← add_checked 64 n UEFI_PAGE_SIZE;
  n ← sub_checked 64 n 1;
  Some (n / UEFI_PAGE_SIZE).

Definition load_elf (src : list Z) : L Z :=
  elf <- munwrap (elf_parse src) ;;
  ' (dest_start, dest_end) <- munwrap (load_range (program_headers elf) (2 ^ 64 - 1) 0) ;;
  pages <- munwrap (page_count dest_start dest_end) ;;
  command (allocate_pages dest_start LOADER_DATA pages) ;;;
  s <- mget ;;
  m <- munwrap (load_segments src (program_headers elf) (ram s)) ;;
  mput (Build_LoaderState (firmware s) m) ;;;
  ret (elf_entry elf).

Definition load_kernel (path : list Z) : L Z :=
  open_root_dir ;;;
  file <- open_file path ;;
  buf <- read_file_to_vec file ;;
  load_elf buf.

(** [frame_buffer::FrameBuffer] and [frame_buffer::PixelFormat] *)
Inductive PixelFormat := Rgb | Bgr.
Record RawFrameBuffer := { rfb_frame_buffer : Z; rfb_stride : Z; rfb_resolution : Z * Z; rfb_format : PixelFormat }.

Definition get_frame_buffer : L RawFrameBuffer :=
  gop <- query locate_gop ;;
  format <- match g_format gop with GopRgb => ret Rgb | GopBgr => ret Bgr | _ => mpanic end ;;
  ret {| rfb_frame_buffer := g_frame_buffer gop; rfb_stride := wrap 32 (g_stride gop);
         rfb_resolution := (wrap 32 (fst (g_resolution gop)), wrap 32 (snd (g_resolution gop))); rfb_format := format |}.

Definition is_available_after_exit_boot_services (ty : Z) : bool :=
  (ty =? CONVENTIONAL) || (ty =? BOOT_SERVICES_CODE) || (ty =? BOOT_SERVICES_DATA).

(** The loop of [exit_boot_services]; a vector that is full would have to grow, and
    there is no allocator any more: [None]. *)
Fixpoint convert_descriptors (capacity : Z) (acc : list Descriptor) (ds : list MemoryDescriptor) : option (list Descriptor) :=
  match ds with
  | [] => Some acc
  | d :: ds =>
      if is_available_after_exit_boot_services (d_ty d) then
        n ← mul_checked 64 (d_page_count d) UEFI_PAGE_SIZE;
        e ← add_checked 64 (d_phys_start d) n;
        if zlen acc <? capacity then convert_descriptors capacity (acc ++ [mkDescriptor (d_phys_start d) e]) ds else None
      else convert_descriptors capacity acc ds
  end.

Definition exit_boot_services : L (list Descriptor) :=
  n <- enough_mmap_size ;;
  command (allocate_pool n) ;;;
  command (allocate_pool (n * 16)) ;;;
  raw_descriptors <- query (firmware_exit n) ;;
  munwrap (convert_descriptors n [] raw_descriptors).

(** What the kernel is called with *)
Record HandOver := { h_entry_point : Z; h_frame_buffer : RawFrameBuffer; h_memory_map : list Descriptor; h_rsdp : Z }.

Definition efi_main (acpi_guid : Z) : L HandOver :=
  dump_memory_map (text "memmap") ;;;
  entry_point_addr <- load_kernel (text "ors-kernel.elf") ;;
  frame_buffer <- get_frame_buffer ;;
  rsdp <- get_rsdp acpi_guid ;;
  memory_map <- exit_boot_services ;;
  ret {| h_entry_point := entry_point_addr; h_frame_buffer := frame_buffer; h_memory_map := memory_map; h_rsdp := rsdp |}.

(** ** The image of the kernel *)

Definition loads (elf : Elf) : list ProgramHeader := filter (fun ph => p_type ph = PT_LOAD) (program_headers elf).

(** A segment that the file can fill, and that fits the address space *)
Definition segment_ok (src : list Z) (ph : ProgramHeader) : Prop :=
  0 <= p_vaddr ph /\ 0 <= p_offset ph /\ 0 <= p_filesz ph <= p_memsz ph /\ p_offset ph + p_filesz ph <= zlen src /\ p_vaddr ph + p_memsz ph < 2 ^ 63.

Definition in_segment (ph : ProgramHeader) (a : Z) : Prop := p_vaddr ph <= a < p_vaddr ph + p_memsz ph.

Definition disjoint_segments (a b : ProgramHeader) : Prop := p_vaddr a + p_memsz a <= p_vaddr b \/ p_vaddr b + p_memsz b <= p_vaddr a.

(** A file of a length that a slice can have, with at least one segment, and segments apart *)
Record elf_ok (src : list Z) (elf : Elf) : Prop := {
  elf_len : zlen src < 2 ^ 63;
  elf_some : loads elf <> [];
  elf_segments : Forall (segment_ok src) (loads elf);
  elf_apart : ForallOrdPairs disjoint_segments (loads elf)
}.

(** The segment [ph] of the file [src] is in memory. *)
Definition segment_at (src : list Z) (m : Z -> Z) (ph : ProgramHeader) : Prop :=
  forall i, 0 <= i < p_memsz ph -> m (p_vaddr ph + i) = if i <? p_filesz ph then at_ src (p_offset ph + i) else 0.

Lemma load_range_loads phs s e : load_range phs s e = load_range (filter (fun ph => p_type ph = PT_LOAD) phs) s e.
Proof.
  revert s e. induction phs as [|ph phs IH]; intros s e; [done|]. rewrite filter_cons. cbn [load_range]. destruct (Z.eqb_spec (p_type ph) PT_LOAD) as [E|E].
  - rewrite decide_True by done. cbn [load_range negb]. rewrite E, Z.eqb_refl. cbn [negb]. destruct (add_checked _ _ _); cbn; [apply IH|done].
  - rewrite decide_False by done. cbn [negb]. apply IH.
Qed.

Lemma load_segments_loads src phs m : load_segments src phs m = load_segments src (filter (fun ph => p_type ph = PT_LOAD) phs) m.
Proof.
  revert m. induction phs as [|ph phs IH]; intros m; [done|]. rewrite filter_cons. cbn [load_segments]. destruct (Z.eqb_spec (p_type ph) PT_LOAD) as [E|E].
  - rewrite decide_True by done. cbn [load_segments negb]. rewrite E, Z.eqb_refl. cbn [negb]. destruct (load_segment _ _ _); cbn; [apply IH|done].
  - rewrite decide_False by done. cbn [negb]. apply IH.
Qed.

Lemma load_range_ok src l s e : Forall (segment_ok src) l -> Forall (fun ph => p_type ph = PT_LOAD) l -> 0 <= e < 2 ^ 63 ->
  exists s' e', load_range l s e = Some (s', e') /\ s' <= s /\ e <= e' < 2 ^ 63 /\
    Forall (fun ph => s' <= p_vaddr ph /\ p_vaddr ph + p_memsz ph <= e') l /\
    (0 <= s -> 0 <= s') /\ (l <> [] -> s' < 2 ^ 63).
Proof.
  intros Hl. revert s e. induction Hl as [|ph l Hph _ IH]; intros s e Ht He.
  { exists s, e. split_and!; [done|lia|lia|lia|constructor|lia|done]. }
  apply Forall_cons in Ht as [Ht1 Ht]. destruct Hph as (H1 & H2 & H3 & H4 & H5). cbn [load_range]. rewrite Ht1, Z.eqb_refl. cbn [negb].
  unfold add_checked. rewrite checked_Some by (unfold unsigned; lia). cbn [mbind option_bind].
  destruct (IH (Z.min s (p_vaddr ph)) (Z.max e (p_vaddr ph + p_memsz ph))) as (s' & e' & -> & Hs & Hee & Hf & Hp & _); [done|lia|].
  exists s', e'. split_and!; try lia; try done. constructor; [lia|done].
Qed.

Lemma load_segment_ok src ph m : segment_ok src ph -> zlen src < 2 ^ 63 ->
  exists m', load_segment src ph m = Some m' /\ segment_at src m' ph /\ forall a, ~ in_segment ph a -> m' a = m a.
Proof.
  intros (H1 & H2 & H3 & H4 & H5) Hlen. unfold load_segment. rewrite (proj2 (Z.leb_le _ _)) by lia. unfold add_checked.
  rewrite checked_Some by (unfold unsigned; lia). cbn [mbind option_bind]. unfold slice. rewrite !(proj2 (Z.leb_le _ _)) by lia. cbn [andb mbind option_bind].
  set (bs := sub src (p_offset ph) (p_filesz ph)). set (zs := replicate _ 0).
  assert (Hbs : zlen bs = p_filesz ph) by (unfold bs; rewrite length_sub; lia).
  assert (Hzs : zlen zs = p_memsz ph - p_filesz ph) by (unfold zs; rewrite length_replicate; lia).
  eexists. split; [done|]. split.
  - intros i Hi. destruct (Z.ltb_spec i (p_filesz ph)).
    + rewrite ram_store_other by lia. unfold store. rewrite (proj2 (Z.leb_le _ _)), (proj2 (Z.ltb_lt _ _)) by lia. cbn [andb].
      replace (p_vaddr ph + i - p_vaddr ph) with i by lia. unfold at_, index. rewrite (proj2 (Z.leb_le _ _)) by lia. f_equal.
      unfold bs. rewrite lookup_sub, decide_True by lia. f_equal. lia.
    + unfold store at 1. rewrite (proj2 (Z.leb_le _ _)), (proj2 (Z.ltb_lt _ _)) by lia. cbn [andb]. unfold zs. by rewrite lookup_replicate_2 by lia.
  - intros a Ha. unfold in_segment in Ha. rewrite !ram_store_other by lia. done.
Qed.

Lemma load_segments_ok src l m : Forall (segment_ok src) l -> Forall (fun ph => p_type ph = PT_LOAD) l -> ForallOrdPairs disjoint_segments l -> zlen src < 2 ^ 63 ->
  exists m', load_segments src l m = Some m' /\ Forall (segment_at src m') l /\ forall a, Forall (fun ph => ~ in_segment ph a) l -> m' a = m a.
Proof.
  intros Hl Ht Hd Hlen. revert m. induction Hd as [|ph l Hph _ IH]; intros m; [by exists m|].
  apply Forall_cons in Hl as [Ho Hl]. apply Forall_cons in Ht as [Ht1 Ht]. cbn [load_segments]. rewrite Ht1, Z.eqb_refl. cbn [negb].
  destruct (load_segment_ok src ph m Ho Hlen) as (m1 & -> & Hat & Hfr). cbn [mbind option_bind].
  destruct (IH Hl Ht m1) as (m2 & -> & Hat2 & Hfr2). exists m2. split; [done|]. split.
  - constructor; [|done]. intros i Hi. rewrite Hfr2; [by apply Hat|]. apply (Forall_impl _ _ _ Hph). intros q Hq. unfold disjoint_segments, in_segment in *. lia.
  - intros a [Ha Has]%Forall_cons. by rewrite Hfr2, Hfr.
Qed.

Lemma page_count_ok s e : 0 <= s -> s <= e < 2 ^ 63 -> exists n, page_count s e = Some n /\ 0 <= n /\ e <= s + n * UEFI_PAGE_SIZE < e + UEFI_PAGE_SIZE.
Proof.
  intros Hs He. unfold page_count, sub_checked, add_checked, UEFI_PAGE_SIZE. rewrite !checked_Some by (unfold unsigned; lia). cbn [mbind option_bind].
  rewrite checked_Some by (unfold unsigned; lia). cbn [mbind option_bind]. rewrite checked_Some by (unfold unsigned; lia). cbn [mbind option_bind].
  eexists. split; [done|]. Z.to_euclidean_division_equations. lia.
Qed.

(** What [load_elf] leaves: the pages from [start] have been allocated, the segments are in them, and the rest of the memory is as before. *)
Definition loaded (src : list Z) (elf : Elf) (start pages : Z) (m m' : Z -> Z) : Prop :=
  0 <= start /\ 0 <= pages /\ start + pages * UEFI_PAGE_SIZE < 2 ^ 63 + UEFI_PAGE_SIZE /\ Forall (segment_at src m') (loads elf) /\
  (forall a, Forall (fun ph => ~ in_segment ph a) (loads elf) -> m' a = m a) /\
  Forall (fun ph => start <= p_vaddr ph /\ p_vaddr ph + p_memsz ph <= start + pages * UEFI_PAGE_SIZE) (loads elf).

Lemma load_elf_ok src elf s : elf_parse src = Some elf -> elf_ok src elf ->
  exists start pages, ends (load_elf src) s (fun e s' => e = elf_entry elf /\ allocate_pages start LOADER_DATA pages (firmware s) = Some (firmware s') /\
      loaded src elf start pages (ram s) (ram s'))
    (fun _ s' => s' = s /\ allocate_pages start LOADER_DATA pages (firmware s) = None).
Proof.
  intros Hp [Hlen Hne Hseg Hd]. unfold load_elf, ends, mbnd, munwrap, command, service, mget, mput, ret. rewrite Hp.
  assert (Ht : Forall (fun ph => p_type ph = PT_LOAD) (loads elf)) by (apply Forall_forall; intros ph Hph; by apply list_elem_of_filter in Hph as [? _]).
  rewrite load_range_loads. fold (loads elf). destruct (load_range_ok src (loads elf) (2 ^ 64 - 1) 0 Hseg Ht) as (b & e & -> & _ & He & Hin & Hb & Hb'); [lia|].
  assert (Hbe : b <= e). { destruct (loads elf) as [|ph l]; [done|]. apply Forall_cons in Hin as [? _]. apply Forall_cons in Hseg as [(? & ? & ? & _) _]. lia. }
  destruct (page_count_ok b e) as (n & -> & Hn & Hcov); [lia|lia|]. exists b, n. cbn.
  destruct (allocate_pages b LOADER_DATA n (firmware s)) as [f'|] eqn:Ha; cbn; [|by destruct s].
  rewrite load_segments_loads. fold (loads elf). destruct (load_segments_ok src (loads elf) (ram s) Hseg Ht Hd Hlen) as (m & -> & Hat & Hfr). cbn.
  split_and!; try done. unfold loaded. split_and!; try done; [lia|lia|]. apply (Forall_impl _ _ _ Hin). intros ph ?. lia.
Qed.

(** ** What the loader assumes of the firmware *)

(** A service that changes the state of the firmware *)
Definition firmware_step (f f' : F) : Prop :=
  (exists n, allocate_pool n f = Some f') \/ (exists a ty n, allocate_pages a ty n f = Some f') \/ open_volume f = Some f' \/
  (exists name mode d t, dir_open name mode d f = Some (t, f')) \/ (exists h n bs, file_read h n f = Some (bs, f')) \/
  (exists h bs, file_write h bs f = Some f').

(** - [reserved f a n ty]: [n] pages from the address [a] have been allocated for [ty]. They stay so, and the final
      memory map gives their type.
    - [contents f name] is a regular file in the root directory, and [handle f h] the name and the position of an open
      file. Reading returns the bytes from the position on; creating a file and writing into it leave others alone.
    - The tables and the graphics mode do not change while the loader runs. *)
Class UefiLaws := {
  reserved : F -> Z -> Z -> Z -> Prop;
  contents : F -> list Z -> option (list Z);
  directory : F -> list Z -> Prop;
  handle : F -> Z -> option (list Z * Z);
  memory_map_size_bound f : 0 <= memory_map_size f < 2 ^ 63;
  allocate_pages_reserved a ty n f f' : allocate_pages a ty n f = Some f' -> reserved f' a n ty;
  allocate_pool_reserved k f f' a n ty : allocate_pool k f = Some f' -> reserved f a n ty -> reserved f' a n ty;
  firmware_exit_type size f ds d a n ty : firmware_exit size f = Some ds -> reserved f a n ty -> d ∈ ds ->
    d_phys_start d < a + n * UEFI_PAGE_SIZE -> a < d_phys_start d + d_page_count d * UEFI_PAGE_SIZE -> d_ty d = ty;
  firmware_exit_fits size f ds : firmware_exit size f = Some ds -> zlen ds * DESCRIPTOR_SIZE <= size;
  firmware_exit_ranges size f ds d : firmware_exit size f = Some ds -> d ∈ ds ->
    0 <= d_phys_start d /\ 0 <= d_page_count d /\ d_phys_start d + d_page_count d * UEFI_PAGE_SIZE < 2 ^ 64;
  pool_files k f f' : allocate_pool k f = Some f' -> (forall n, contents f' n = contents f n) /\
    (forall n, directory f' n <-> directory f n) /\ (forall h, handle f' h = handle f h);
  open_volume_files f f' : open_volume f = Some f' -> (forall n, contents f' n = contents f n) /\ (forall n, directory f' n <-> directory f n);
  open_read name f t f' bs : contents f name = Some bs -> dir_open name ModeRead false f = Some (t, f') ->
    exists h, t = Regular h /\ handle f' h = Some (name, 0) /\ contents f' name = Some bs;
  open_create name f t f' : ~ directory f name -> dir_open name ModeCreateReadWrite false f = Some (t, f') ->
    exists h, t = Regular h /\ (exists p, handle f' h = Some (name, p)) /\ forall n, n <> name -> contents f' n = contents f n;
  write_other h name p bs f f' : handle f h = Some (name, p) -> file_write h bs f = Some f' ->
    (exists p', handle f' h = Some (name, p')) /\ forall n, n <> name -> contents f' n = contents f n;
  file_size_contents h name p bs f n : handle f h = Some (name, p) -> contents f name = Some bs -> file_size h f = Some n -> n = zlen bs;
  file_read_contents h name p bs k f l f' : handle f h = Some (name, p) -> contents f name = Some bs -> file_read h k f = Some (l, f') ->
    l = sub bs p k;
  step_config f f' : firmware_step f f' -> config_table f' = config_table f;
  step_gop f f' : firmware_step f f' -> locate_gop f' = locate_gop f
}.

Context `{UefiLaws}.

(** What all services keep *)
Definition same_machine (s s' : LoaderState F) : Prop :=
  config_table (firmware s') = config_table (firmware s) /\ locate_gop (firmware s') = locate_gop (firmware s).

#[global] Instance same_machine_preorder : PreOrder same_machine.
Proof. split; [by intros s|]. intros a b c [E1 E2] [E3 E4]. split; congruence. Qed.

(** A computation that ends, perhaps because a service fails, with the frame buffer and the tables as before *)
Abbreviation ends_or_fails m s Q := (ends m s (fun a s' => same_machine s s' /\ Q a s') (fun _ _ => True)).

Lemma ends_or_fails_bind {A B} (m : L A) (k : A -> L B) s Q0 Q :
  ends_or_fails m s Q0 -> (forall a s', same_machine s s' -> Q0 a s' -> ends_or_fails (k a) s' Q) -> ends_or_fails (mbnd m k) s Q.
Proof.
  intros Hm Hk. apply ends_bind. eapply ends_mono; [exact Hm| |done]. intros a s' [Hs Ha]. eapply ends_mono; [by apply Hk| |done].
  intros b s'' [Hs' Hb]. split; [by etrans|done].
Qed.

Lemma command_ends (c : F -> option F) s Q : (forall f', c (firmware s) = Some f' -> firmware_step (firmware s) f' /\ Q tt (Build_LoaderState f' (ram s))) ->
  ends_or_fails (command c) s Q.
Proof.
  intros Hc. unfold ends, command, service. destruct (c (firmware s)) as [f'|]; [|done]. cbn. destruct (Hc f' eq_refl) as [Hst HQ].
  split; [split; cbn; [by apply step_config|by apply step_gop]|done].
Qed.

Lemma service_ends {A} (c : F -> option (A * F)) s Q : (forall a f', c (firmware s) = Some (a, f') -> firmware_step (firmware s) f' /\ Q a (Build_LoaderState f' (ram s))) ->
  ends_or_fails (service c) s Q.
Proof.
  intros Hc. unfold ends, service. destruct (c (firmware s)) as [[a f']|]; [|done]. destruct (Hc a f' eq_refl) as [Hst HQ].
  split; [split; cbn; [by apply step_config|by apply step_gop]|done].
Qed.

Lemma query_ends {A} (c : F -> option A) s Q : (forall a, c (firmware s) = Some a -> Q a s) -> ends_or_fails (query c) s Q.
Proof. intros Hc. unfold ends, query, service. destruct s as [f m]. cbn in *. destruct (c f) as [a|]; [|done]. cbn. split; [done|]. by apply Hc. Qed.

Lemma unwrap_ends {A} (o : option A) a s Q : o = Some a -> Q a s -> ends_or_fails (munwrap o : L A) s Q.
Proof. intros -> HQ. done. Qed.

(** ** The files *)

Lemma enough_mmap_size_ok s Q : Q (memory_map_size (firmware s) + 8 * DESCRIPTOR_SIZE) s -> ends_or_fails enough_mmap_size s Q.
Proof.
  intros HQ. unfold enough_mmap_size, ends, add_checked. pose proof (memory_map_size_bound (firmware s)).
  rewrite checked_Some by (unfold unsigned, DESCRIPTOR_SIZE; lia). done.
Qed.

Definition keeps_others (name : list Z) (s s' : LoaderState F) : Prop :=
  ram s' = ram s /\ forall n, n <> name -> contents (firmware s') n = contents (firmware s) n.

Lemma fwriteln_ok h name p line s : handle (firmware s) h = Some (name, p) ->
  ends_or_fails (fwriteln h line) s (fun _ s' => keeps_others name s s' /\ exists p', handle (firmware s') h = Some (name, p')).
Proof.
  intros Hh. apply command_ends. intros f' Hf. split; [do 5 right; eauto|]. destruct (write_other _ _ _ _ _ _ Hh Hf) as [? ?]. done.
Qed.

Lemma dump_lines_ok h name p i ds s : handle (firmware s) h = Some (name, p) ->
  ends_or_fails (dump_lines h i ds) s (fun _ s' => keeps_others name s s').
Proof.
  revert p i s. induction ds as [|d ds IH]; intros p i s Hh; [done|]. cbn [dump_lines].
  eapply ends_or_fails_bind; [by eapply fwriteln_ok|]. intros _ s1 _ [[Hr Hk] [p' Hp']]. eapply ends_mono; [by eapply IH| |done].
  intros _ s2 [Hs [Hr2 Hk2]]. split; [done|]. split; [congruence|]. intros n Hn. by rewrite Hk2, Hk.
Qed.

Lemma dump_memory_map_ok path s : ~ directory (firmware s) path ->
  ends_or_fails (dump_memory_map path) s (fun _ s' => keeps_others path s s').
Proof.
  intros Hd. unfold dump_memory_map. eapply ends_or_fails_bind; [by apply (enough_mmap_size_ok s (fun _ s' => s' = s))|]. intros n s0 _ ->.
  eapply ends_or_fails_bind; [apply (command_ends _ s (fun _ s' => ram s' = ram s /\ (forall n, contents (firmware s') n = contents (firmware s) n) /\ ~ directory (firmware s') path))|].
  { intros f' Hf. split; [left; eauto|]. destruct (pool_files _ _ _ Hf) as (? & Hdir & _). cbn. by rewrite Hdir. }
  intros _ s1 _ (R1 & C1 & D1). eapply ends_or_fails_bind; [apply (query_ends _ s1 (fun _ s' => s' = s1)); done|]. intros ds s1' _ ->.
  eapply ends_or_fails_bind; [apply (command_ends _ s1 (fun _ s' => ram s' = ram s /\ (forall n, contents (firmware s') n = contents (firmware s) n) /\ ~ directory (firmware s') path))|].
  { intros f' Hf. split; [by do 2 right; left|]. destruct (open_volume_files _ _ Hf) as [Hc Hdir]. cbn. rewrite Hdir. split_and!; try done. intros m. by rewrite Hc. }
  intros _ s2 _ (R2 & C2 & D2). unfold create_file.
  eapply ends_or_fails_bind; [apply (ends_or_fails_bind _ _ _ (fun t s' => exists h p, t = Regular h /\ keeps_others path s s' /\ handle (firmware s') h = Some (path, p))
      (fun h s' => exists p, keeps_others path s s' /\ handle (firmware s') h = Some (path, p)))|].
  { apply service_ends. intros t f' Hf. split; [do 3 right; left; eauto 10|]. destruct (open_create _ _ _ _ D2 Hf) as (h & -> & [p Hp] & Hc). exists h, p. split_and!; try done.
    split; [done|]. intros m Hm. cbn. by rewrite Hc, C2. }
  { intros t s' _ (h & p & -> & Hk & Hh). cbn. split; [done|]. eauto. }
  intros h s3 _ (p & [R3 C3] & Hh). eapply ends_or_fails_bind; [by eapply fwriteln_ok|]. intros _ s4 _ [[R4 C4] [p' Hp']].
  eapply ends_mono; [by eapply dump_lines_ok| |done]. intros _ s5 [Hs [R5 C5]]. split; [done|]. split; [congruence|]. intros m Hm. by rewrite C5, C4, C3.
Qed.

(** [read_file_to_vec] returns the whole file. *)
Lemma read_file_ok h name bs s : handle (firmware s) h = Some (name, 0) -> contents (firmware s) name = Some bs ->
  ends_or_fails (read_file_to_vec h) s (fun l s' => l = bs /\ ram s' = ram s).
Proof.
  intros Hh Hc. unfold read_file_to_vec. eapply ends_or_fails_bind; [apply (query_ends _ s (fun n s' => n = zlen bs /\ s' = s))|].
  { intros n Hn. by rewrite (file_size_contents _ _ _ _ _ _ Hh Hc Hn). }
  intros n s0 _ [-> ->]. eapply ends_or_fails_bind; [apply (command_ends _ s (fun _ s' => ram s' = ram s /\ handle (firmware s') h = Some (name, 0) /\ contents (firmware s') name = Some bs))|].
  { intros f' Hf. split; [left; eauto|]. destruct (pool_files _ _ _ Hf) as (HC & _ & HH). cbn. by rewrite HC, HH. }
  intros _ s1 _ (R1 & Hh1 & Hc1). eapply ends_or_fails_bind; [apply (service_ends _ s1 (fun l s' => l = bs /\ ram s' = ram s))|].
  { intros l f' Hf. split; [do 4 right; left; eauto|]. rewrite (file_read_contents _ _ _ _ _ _ _ _ Hh1 Hc1 Hf), sub_all by done. done. }
  intros l s2 _ [-> R2]. cbn. split; [done|]. split; [|done]. apply upd_all. rewrite length_replicate. lia.
Qed.

Lemma load_kernel_ok path src elf s : contents (firmware s) path = Some src -> elf_parse src = Some elf -> elf_ok src elf ->
  ends_or_fails (load_kernel path) s (fun e s' => e = elf_entry elf /\ exists start pages, reserved (firmware s') start pages LOADER_DATA /\
    loaded src elf start pages (ram s) (ram s')).
Proof.
  intros Hc Hp Hok. unfold load_kernel. eapply ends_or_fails_bind; [apply (command_ends _ s (fun _ s' => ram s' = ram s /\ contents (firmware s') path = Some src))|].
  { intros f' Hf. split; [by do 2 right; left|]. destruct (open_volume_files _ _ Hf) as [HC _]. cbn. by rewrite HC. }
  intros _ s1 _ [R1 C1]. unfold open_file.
  eapply ends_or_fails_bind; [apply (ends_or_fails_bind _ _ _ (fun t s' => exists h, t = Regular h /\ ram s' = ram s /\ handle (firmware s') h = Some (path, 0) /\ contents (firmware s') path = Some src)
      (fun h s' => ram s' = ram s /\ handle (firmware s') h = Some (path, 0) /\ contents (firmware s') path = Some src))|].
  { apply service_ends. intros t f' Hf. split; [do 3 right; left; eauto 10|]. destruct (open_read _ _ _ _ _ C1 Hf) as (h & -> & Hh & HC). by exists h. }
  { intros t s' _ (h & -> & Hr). done. }
  intros h s2 _ (R2 & Hh & C2). eapply ends_or_fails_bind; [by eapply read_file_ok|]. intros l s3 _ [-> R3].
  destruct (load_elf_ok src elf s3 Hp Hok) as (start & pages & Hl). eapply ends_mono; [exact Hl| |done].
  intros e s4 (-> & Ha & Hld). assert (Hst : firmware_step (firmware s3) (firmware s4)) by (right; left; eauto).
  split; [split; [by apply step_config|by apply step_gop]|]. split; [done|]. exists start, pages. split; [by eapply allocate_pages_reserved|].
  by rewrite R3, R2 in Hld.
Qed.

(** ** The memory map *)

(** The descriptors of the kernel are the available ones of the firmware. *)
Definition described (ds : list MemoryDescriptor) : list Descriptor :=
  (fun d => mkDescriptor (d_phys_start d) (d_phys_start d + d_page_count d * UEFI_PAGE_SIZE)) <$>
  filter (fun d => is_available_after_exit_boot_services (d_ty d) = true) ds.

Lemma convert_descriptors_ok capacity acc ds :
  zlen acc + zlen ds <= capacity ->
  (forall d, d ∈ ds -> 0 <= d_phys_start d /\ 0 <= d_page_count d /\ d_phys_start d + d_page_count d * UEFI_PAGE_SIZE < 2 ^ 64) ->
  convert_descriptors capacity acc ds = Some (acc ++ described ds).
Proof.
  revert acc. induction ds as [|d ds IH]; intros acc Hcap Hd; [by rewrite app_nil_r|]. cbn [convert_descriptors length] in *.
  destruct (Hd d) as (D1 & D2 & D3); [left|]. unfold described. rewrite filter_cons. destruct (is_available_after_exit_boot_services (d_ty d)).
  - rewrite decide_True by done. unfold mul_checked, add_checked, UEFI_PAGE_SIZE in *. rewrite !checked_Some by (unfold unsigned; lia). cbn [mbind option_bind].
    rewrite checked_Some by (unfold unsigned; lia). cbn [mbind option_bind]. rewrite (proj2 (Z.ltb_lt _ _)) by lia.
    rewrite IH; [by rewrite <- app_assoc|rewrite length_app; simpl; lia|]. intros d' Hd'. apply Hd. by right.
  - rewrite decide_False by done. apply IH; [lia|]. intros d' Hd'. apply Hd. by right.
Qed.

Lemma exit_boot_services_ok a n s : reserved (firmware s) a n LOADER_DATA ->
  ends_or_fails exit_boot_services s (fun mm s' => ram s' = ram s /\ exists ds, mm = described ds /\
    forall d, d ∈ mm -> phys_end d <= a \/ a + n * UEFI_PAGE_SIZE <= phys_start d).
Proof.
  intros Hres. unfold exit_boot_services. eapply ends_or_fails_bind; [by apply (enough_mmap_size_ok s (fun k s' => 0 <= k /\ s' = s)); pose proof (memory_map_size_bound (firmware s)); unfold DESCRIPTOR_SIZE; split; [lia|]|].
  intros k s0 _ [Hk ->]. eapply ends_or_fails_bind; [apply (command_ends _ s (fun _ s' => ram s' = ram s /\ reserved (firmware s') a n LOADER_DATA))|].
  { intros f' Hf. split; [left; eauto|]. split; [done|]. by eapply allocate_pool_reserved. }
  intros _ s1 _ [R1 Hr1]. eapply ends_or_fails_bind; [apply (command_ends _ s1 (fun _ s' => ram s' = ram s /\ reserved (firmware s') a n LOADER_DATA))|].
  { intros f' Hf. split; [left; eauto|]. split; [done|]. by eapply allocate_pool_reserved. }
  intros _ s2 _ [R2 Hr2]. eapply ends_or_fails_bind; [by apply (query_ends _ s2 (fun ds s' => s' = s2 /\ firmware_exit k (firmware s2) = Some ds))|].
  intros ds s3 _ [-> Hds]. apply (unwrap_ends _ (described ds)).
  { rewrite convert_descriptors_ok; [done| |].
    - pose proof (firmware_exit_fits _ _ _ Hds). unfold DESCRIPTOR_SIZE in *. simpl. lia.
    - intros d Hd. by eapply firmware_exit_ranges. }
  split; [done|]. exists ds. split; [done|]. unfold described. intros d (r & -> & [Hav Hr]%list_elem_of_filter)%list_elem_of_fmap. cbn [phys_start phys_end].
  destruct (decide (d_phys_start r < a + n * UEFI_PAGE_SIZE)); [|right; lia]. destruct (decide (a < d_phys_start r + d_page_count r * UEFI_PAGE_SIZE)); [|left; lia].
  rewrite (firmware_exit_type _ _ _ _ _ _ _ Hds Hr2 Hr) in Hav by done. done.
Qed.

(** ** The hand-over *)

(** A boot volume with a well-formed kernel on a machine the loader supports *)
Record bootable (acpi_guid : Z) (s : LoaderState F) (src : list Z) (elf : Elf) : Prop := {
  boot_memmap : ~ directory (firmware s) (text "memmap");
  boot_kernel : contents (firmware s) (text "ors-kernel.elf") = Some src;
  boot_parse : elf_parse src = Some elf;
  boot_elf : elf_ok src elf;
  boot_gop : forall g, locate_gop (firmware s) = Some g -> g_format g = GopRgb \/ g_format g = GopBgr;
  boot_acpi : acpi_guid ∈ (config_table (firmware s)).*1
}.

Lemma get_frame_buffer_ok s Q : (forall g, locate_gop (firmware s) = Some g -> g_format g = GopRgb \/ g_format g = GopBgr) ->
  (forall fb, Q fb s) -> ends_or_fails get_frame_buffer s Q.
Proof.
  intros Hg HQ. unfold get_frame_buffer. eapply ends_or_fails_bind; [by apply (query_ends _ s (fun g s' => s' = s /\ locate_gop (firmware s) = Some g))|].
  intros g s' _ [-> Hgop]. destruct (Hg g Hgop) as [E|E]; rewrite E; cbn; split; done || apply HQ.
Qed.

Lemma get_rsdp_ok guid s (Q : Z -> LoaderState F -> Prop) : guid ∈ (config_table (firmware s)).*1 -> (forall r, (guid, r) ∈ config_table (firmware s) -> Q r s) ->
  ends_or_fails (get_rsdp guid) s Q.
Proof.
  intros Hin HQ. unfold get_rsdp, ends. destruct (find (fun c => fst c =? guid) (config_table (firmware s))) as [[g r]|] eqn:E.
  - apply find_some in E as [Hi Hg]. apply Z.eqb_eq in Hg. cbn in Hg. subst g. cbn. split; [done|]. apply HQ. by apply list_elem_of_In.
  - apply list_elem_of_fmap in Hin as ([g r] & -> & Hi). apply list_elem_of_In in Hi. apply (find_none _ _ E) in Hi. cbn in Hi. rewrite Z.eqb_refl in Hi. done.
Qed.

Lemma efi_main_ok acpi_guid s src elf :
  bootable acpi_guid s src elf ->
  ends (efi_main acpi_guid) s (fun h s' =>
      h_entry_point h = elf_entry elf /\ (acpi_guid, h_rsdp h) ∈ config_table (firmware s) /\
      exists start pages, loaded src elf start pages (ram s) (ram s') /\
        forall d, d ∈ h_memory_map h -> phys_end d <= start \/ start + pages * UEFI_PAGE_SIZE <= phys_start d)
    (fun _ _ => True).
Proof.
  intros [Hd Hk Hp He Hg Ha]. eapply (ends_mono _ _ (fun h s' => same_machine s s' /\ _)); [|by intros h s' [_ HQ]; exact HQ|done].
  unfold efi_main. eapply ends_or_fails_bind; [by apply dump_memory_map_ok|]. intros _ s1 M1 [R1 C1].
  eapply ends_or_fails_bind; [apply (load_kernel_ok _ src elf); [by rewrite C1|done..]|]. intros e s2 M2 (-> & start & pages & Hres & Hld).
  assert (M : same_machine s s2) by by etrans. destruct M as [Mc Mg].
  eapply ends_or_fails_bind; [apply (get_frame_buffer_ok s2 (fun _ s' => s' = s2)); [by rewrite Mg|done]|]. intros fb s3 _ ->.
  eapply ends_or_fails_bind; [apply (get_rsdp_ok _ s2 (fun r s' => s' = s2 /\ (acpi_guid, r) ∈ config_table (firmware s))); [by rewrite Mc|by rewrite Mc]|].
  intros r s3 _ [-> Hr]. eapply ends_or_fails_bind; [by apply exit_boot_services_ok|]. intros mm s4 _ (R4 & ds & -> & Hmm).
  cbn. split; [done|]. split; [done|]. split; [done|]. exists start, pages. rewrite R4, <- R1. done.
Qed.

Lemma sorted_from_aligned e ds d : sorted_from e ds -> d ∈ ds -> phys_end d mod FRAME_SIZE = 0.
Proof.
  revert e. induction ds as [|x ds IH]; intros e Hs Hd; [by apply not_elem_of_nil in Hd|]. destruct Hs as (_ & _ & _ & Hx & Hs).
  apply elem_of_cons in Hd as [->|Hd]; [done|by eapply IH].
Qed.

(** ** Properties *)

(** [C23]. On a bootable machine the loader never panics on its own: a
    service of the firmware fails, or the kernel is called at its entry point with all its
    segments in memory (the bytes of the file, zeros behind them, and nothing else
    changed), with the address of the ACPI tables, and with a memory map none of whose
    ranges touches the pages of the kernel. *)
Theorem loader_hands_over_kernel (acpi_guid : Z) (s : LoaderState F) (src : list Z) (elf : Elf) :
  bootable acpi_guid s src elf ->
  ends (efi_main acpi_guid) s (fun h s' =>
      h_entry_point h = elf_entry elf /\ (acpi_guid, h_rsdp h) ∈ config_table (firmware s) /\
      exists start pages, loaded src elf start pages (ram s) (ram s') /\
        forall d, d ∈ h_memory_map h -> phys_end d <= start \/ start + pages * UEFI_PAGE_SIZE <= phys_start d)
    (fun _ _ => True).
Proof. apply efi_main_ok. Qed.

(** [C22]. The frame manager that the kernel initializes from the memory map
    of the loader starts without a panic and never hands out a frame of the kernel's own image. *)
Theorem kernel_never_allocated `{X64Addr} (acpi_guid : Z) (s s' : LoaderState F) (src : list Z) (elf : Elf) (h : HandOver) (m : BitmapFrameManager) :
  bootable acpi_guid s src elf -> efi_main acpi_guid s = (Ok h, s') ->
  sorted_from 0 (h_memory_map h) -> FRAME_SIZE <= memory_end 0 (h_memory_map h) < 2 ^ 52 ->
  memory_end 0 (h_memory_map h) <= FRAME_SIZE * (BITS_PER_MAP_LINE * zlen (alloc_map m)) -> Forall u64 (alloc_map m) ->
  exists m0, initialize m (h_memory_map h) = Some m0 /\
    forall n f m1 ph a, 0 <= n -> allocate m0 n = (Ok f, m1) -> ph ∈ loads elf -> in_segment ph a -> a / FRAME_SIZE < f \/ f + n <= a / FRAME_SIZE.
Proof.
  intros Hb He Hs Hend Hcap Hu. pose proof (efi_main_ok acpi_guid s src elf Hb) as Hm. unfold ends in Hm. rewrite He in Hm.
  destruct Hm as (_ & _ & start & pages & (L1 & L2 & L3 & _ & _ & Hcov) & Hout).
  destruct (initialize_spec m (h_memory_map h) Hs) as (m0 & E0 & B0 & N0 & A0 & U0 & G0); [lia|done|]. exists m0. split; [done|].
  intros n f m1 ph a Hn Hal Hph Ha. assert (W : wf m0).
  { split_and!; [lia|rewrite B0, N0; apply Z.div_le_lower_bound; unfold FRAME_SIZE in *; lia| |by apply U0].
    rewrite N0, A0. apply Z.div_le_upper_bound; unfold FRAME_SIZE in *; lia. }
  apply allocate_Ok in Hal as ((F1 & F2 & F3) & _); [|done|done].
  destruct (decide (a / FRAME_SIZE < f)); [by left|]. destruct (decide (f + n <= a / FRAME_SIZE)); [by right|]. exfalso.
  assert (Hbit : bit m0 (a / FRAME_SIZE) = false) by (apply F3; lia). rewrite G0 in Hbit by lia. apply orb_false_iff in Hbit as [_ Hbit].
  apply negb_false_iff in Hbit. unfold in_map in Hbit. apply existsb_exists in Hbit as (d & Hd & Hin). apply list_elem_of_In in Hd.
  pose proof (proj1 (Forall_forall _ _) Hcov ph Hph) as Hpl. destruct (Hout d Hd) as [Ho|Ho]; unfold in_segment, FRAME_SIZE in *.
  - pose proof (sorted_from_aligned _ _ _ Hs Hd) as Hal. unfold FRAME_SIZE in Hal. Z.to_euclidean_division_equations. lia.
  - Z.to_euclidean_division_equations. lia.
Qed.

End loader.

(** ** A firmware *)

Module Demo.

(** A boot volume as a function from names, one handle for each open file, at most one allocation of pages, which is
    in the second mebibyte; memory above it is conventional, or has been used by the firmware. *)
Record Fw := { volume : list Z -> option (list Z); files : Z -> option (list Z * Z); next_handle : Z; region : option (Z * Z * Z) }.

Definition fixed : list MemoryDescriptor :=
  [{| d_ty := CONVENTIONAL; d_phys_start := 0x200000; d_page_count := 8; d_att := 15 |};
   {| d_ty := BOOT_SERVICES_DATA; d_phys_start := 0x208000; d_page_count := 4; d_att := 15 |};
   {| d_ty := 9; d_phys_start := 0x20c000; d_page_count := 1; d_att := 15 |}].

Definition map_of (f : Fw) : list MemoryDescriptor :=
  match region f with
  | Some (a, n, ty) => {| d_ty := ty; d_phys_start := a; d_page_count := n; d_att := 15 |} :: fixed
  | None => fixed
  end.

Definition range_ok (d : MemoryDescriptor) : bool :=
  (0 <=? d_phys_start d) && (0 <=? d_page_count d) && (d_phys_start d + d_page_count d * UEFI_PAGE_SIZE <? 2 ^ 64).

Definition open_as (name : list Z) (v : list Z -> option (list Z)) (f : Fw) : FileType * Fw :=
  (Regular (next_handle f),
   {| volume := v; files := fun h => if decide (h = next_handle f) then Some (name, 0) else files f h;
      next_handle := next_handle f + 1; region := region f |}).

#[export] Instance uefi : Uefi Fw := {|
  config_table := fun _ => [(4, 0x20c800); (5, 0x20c000)];
  locate_gop := fun _ => Some {| g_frame_buffer := 0x80000000; g_stride := 1024; g_resolution := (1024, 768); g_format := GopBgr |};
  memory_map_size := fun f => DESCRIPTOR_SIZE * 4;
  memory_map := fun n f => if zlen (map_of f) * DESCRIPTOR_SIZE <=? n then Some (map_of f) else None;
  allocate_pool := fun _ f => Some f;
  allocate_pages := fun a ty n f =>
    match region f with
    | None => if (0x100000 <=? a) && (0 <=? n) && (a + n * 4096 <=? 0x200000) then
        Some {| volume := volume f; files := files f; next_handle := next_handle f; region := Some (a, n, ty) |} else None
    | Some _ => None
    end;
  firmware_exit := fun n f => if (zlen (map_of f) * DESCRIPTOR_SIZE <=? n) && forallb range_ok (map_of f) then Some (map_of f) else None;
  open_volume := fun f => Some f;
  dir_open := fun name mode d f =>
    match mode, volume f name with
    | ModeRead, Some _ => Some (open_as name (volume f) f)
    | ModeRead, None => None
    | ModeCreateReadWrite, _ => Some (open_as name (fun n => if decide (n = name) then Some [] else volume f n) f)
    end;
  file_size := fun h f => '(name, _) ← files f h; bs ← volume f name; Some (zlen bs);
  file_read := fun h n f =>
    '(name, p) ← files f h; bs ← volume f name;
    Some (sub bs p n, {| volume := volume f; files := fun k => if decide (k = h) then Some (name, p + n) else files f k;
                         next_handle := next_handle f; region := region f |});
  file_write := fun h l f =>
    '(name, p) ← files f h; bs ← volume f name;
    Some {| volume := fun n => if decide (n = name) then Some (bs ++ l) else volume f n; files := files f;
            next_handle := next_handle f; region := region f |};
  type_name := fun _ => []
|}.

#[export] Instance goblin : Goblin := fun src =>
  if 3 <=? zlen src then
    Some {| program_headers := [{| p_type := PT_LOAD; p_offset := 0; p_vaddr := 0x101000; p_filesz := 3; p_memsz := 3 |};
                                {| p_type := 6; p_offset := 0; p_vaddr := 0; p_filesz := 0; p_memsz := 0 |};
                                {| p_type := PT_LOAD; p_offset := 1; p_vaddr := 0x103800; p_filesz := 1; p_memsz := 0x1000 |}];
            elf_entry := 0x101001 |}
  else None.

Lemma step_tables f f' : firmware_step f f' -> config_table f' = config_table f /\ locate_gop f' = locate_gop f.
Proof. done. Qed.

#[export] Instance laws : UefiLaws (F := Fw).
Proof.
  refine {| reserved := fun f a n ty => region f = Some (a, n, ty) /\ 0x100000 <= a /\ 0 <= n /\ a + n * 4096 <= 0x200000;
            contents := volume; directory := fun _ _ => False; handle := files |}.
  - intros f. done.
  - intros a ty n f f'. cbn. destruct (region f); [done|]. destruct (_ && _) eqn:E; [|done]. intros [= <-]. cbn. split; [done|]. lia.
  - intros k f f' a n ty. cbn. by intros [= <-].
  - intros size f ds d a n ty. cbn. destruct (_ && _); [|done]. intros [= <-] (Hr & R1 & R2 & R3). unfold map_of. rewrite Hr. unfold UEFI_PAGE_SIZE.
    intros Hd. apply elem_of_cons in Hd as [->|Hd]; [done|]. unfold fixed in Hd.
    repeat (apply elem_of_cons in Hd as [->|Hd]; [cbn; lia|]). by apply not_elem_of_nil in Hd.
  - intros size f ds. cbn. destruct (Z.leb_spec (zlen (map_of f) * DESCRIPTOR_SIZE) size); [|done]. destruct (forallb _ _); [|done]. by intros [= <-].
  - intros size f ds d. cbn. destruct (_ <=? _); [|done]. destruct (forallb range_ok (map_of f)) eqn:E; [|done]. intros [= <-] Hd.
    apply list_elem_of_In in Hd. pose proof (proj1 (forallb_forall _ _) E d Hd) as Hr. unfold range_ok in Hr. lia.
  - intros k f f'. cbn. by intros [= <-].
  - intros f f'. cbn. by intros [= <-].
  - intros name f t f' bs Hc. cbn. rewrite Hc. intros [= <- <-]. exists (next_handle f). cbn. by rewrite decide_True.
  - intros name f t f' _. cbn. intros [= <- <-]. exists (next_handle f). cbn. split; [done|]. split; [exists 0; by rewrite decide_True|]. intros n Hn. by rewrite decide_False.
  - intros h name p bs f f' Hh. cbn. rewrite Hh. cbn. destruct (volume f name); [|done]. intros [= <-]. cbn. split; [eauto|]. intros n Hn. by rewrite decide_False.
  - intros h name p bs f n Hh Hc. cbn. rewrite Hh. cbn. rewrite Hc. by intros [= <-].
  - intros h name p bs k f l f' Hh Hc. cbn. rewrite Hh. cbn. rewrite Hc. by intros [= <- <-].
  - intros f f' _. done.
  - intros f f' _. done.
Defined.

Definition state : LoaderState Fw :=
  Build_LoaderState {| volume := fun n => if decide (n = text "ors-kernel.elf") then Some [11; 22; 33] else None; files := fun _ => None; next_handle := 0; region := None |}
    (fun _ => 255).

Definition elf : Elf := default {| program_headers := []; elf_entry := 0 |} (elf_parse [11; 22; 33]).

Lemma demo_bootable : bootable 5 state [11; 22; 33] elf.
Proof.
  split; [by intros []|done|done| |by intros g [= <-]; right|by apply (bool_decide_eq_true_1 _)].
  split; [done|done| |].
  - by repeat constructor.
  - repeat constructor. cbn. lia.
Qed.

End Demo.

(** ** Witnesses *)

#[local] Existing Instances Demo.uefi Demo.goblin Demo.laws.

Lemma loader_hands_over_kernel_witness :
  exists h s', efi_main 5 Demo.state = (Ok h, s') /\ h_entry_point h = 0x101001 /\ h_rsdp h = 0x20c000 /\
    ram s' 0x101002 = 33 /\ ram s' 0x103800 = 22 /\ ram s' 0x103801 = 0.
Proof.
  pose proof (loader_hands_over_kernel 5 Demo.state [11; 22; 33] Demo.elf Demo.demo_bootable) as Hm. unfold ends in Hm.
  assert (Hok : match efi_main 5 Demo.state with (Ok h, _) => h_rsdp h | _ => 0 end = 0x20c000) by (vm_compute; reflexivity).
  destruct (efi_main 5 Demo.state) as [[h|e| |] s'] eqn:E; [|discriminate Hok|destruct Hm|destruct Hm]. destruct Hm as (He & _ & start & pages & (_ & _ & _ & Hseg & _) & _).
  exists h, s'. split; [done|]. split; [exact He|]. split; [exact Hok|]. apply Forall_cons in Hseg as [H1 Hseg]. apply Forall_cons in Hseg as [H2 _].
  split; [exact (H1 2 ltac:(cbn; lia))|]. split; [exact (H2 0 ltac:(cbn; lia))|exact (H2 1 ltac:(cbn; lia))].
Defined.

Lemma kernel_never_allocated_witness :
  exists h s' m0, efi_main 5 Demo.state = (Ok h, s') /\ @initialize x64_checks (mkManager (replicate 9 0) 1 576) (h_memory_map h) = Some m0 /\
    forall n f m1, 0 <= n -> allocate m0 n = (Ok f, m1) -> 0x101 < f \/ f + n <= 0x101.
Proof.
  assert (Hok : match efi_main 5 Demo.state with (Ok h, _) => Some (h_memory_map h) | _ => None end =
    Some [mkDescriptor 0x200000 0x208000; mkDescriptor 0x208000 0x20c000]) by (vm_compute; reflexivity).
  destruct (efi_main 5 Demo.state) as [[h|e| |] s'] eqn:E; [|discriminate Hok..]. injection Hok as Hmm.
  destruct (@kernel_never_allocated Demo.Fw Demo.uefi Demo.goblin Demo.laws x64_checks 5 Demo.state s' [11; 22; 33] Demo.elf h (mkManager (replicate 9 0) 1 576)) as (m0 & Hi & Ha).
  - exact Demo.demo_bootable.
  - exact E.
  - rewrite Hmm. cbn. unfold FRAME_SIZE. split_and!; try lia; vm_compute; reflexivity.
  - rewrite Hmm. cbn. unfold FRAME_SIZE. lia.
  - rewrite Hmm. cbn. unfold FRAME_SIZE, BITS_PER_MAP_LINE. lia.
  - by repeat constructor.
  - exists h, s', m0. split; [done|]. split; [exact Hi|]. intros n f m1 Hn Hal.
    exact (Ha n f m1 {| p_type := PT_LOAD; p_offset := 0; p_vaddr := 0x101000; p_filesz := 3; p_memsz := 3 |} 0x101000 Hn Hal ltac:(left) ltac:(unfold in_segment; cbn; lia)).
Defined.

(** Memory that the firmware used for itself is available to the kernel, also where the loader's own stack is,
    which holds the frame buffer descriptor that the kernel is called with. *)
Lemma boot_services_memory_available ds d f : d ∈ ds -> d_ty d = BOOT_SERVICES_DATA ->
  d_phys_start d <= f * FRAME_SIZE < d_phys_start d + d_page_count d * UEFI_PAGE_SIZE -> in_map (described ds) f = true.
Proof.
  intros Hd Ht Hf. apply existsb_exists. exists (mkDescriptor (d_phys_start d) (d_phys_start d + d_page_count d * UEFI_PAGE_SIZE)). split; [|cbn; lia].
  apply list_elem_of_In, list_elem_of_fmap. exists d. split; [done|]. apply list_elem_of_filter. by rewrite Ht.
Qed.
