(* ===== verification/Boot.v ===== *)
(** * The start of the kernel (src/ors-kernel/src/main.rs, segmentation.rs, and the
    statics of acpi.rs, cpu.rs, task.rs, devices/pci.rs and devices/virtio/block.rs)

    [kernel_main2] initialises the components one after the other. Each keeps its
    data in a static that is set once, and panics with a message when it is used
    before. The model keeps these messages as [Err], also those of [Cpu::lapic_id] inside of
    [interrupts::initialize] and [block::initialize]; a [Panic] comes from the
    hardware, the ACPI tables or the memory map. What the heap takes
    from the frame manager is not represented. *)

From stdpp Require Import strings.
From S2P Require Import Prelude Cpu PhysMemory Task Scheduler Hardware Interrupts Paging Pci VirtQueue VirtioBlock BlockInit.
Local Open Scope Z_scope.
Local Open Scope rust_scope.

(** ** Segments *)

(** [x64::Descriptor] for the kernel; the last is for a task state segment with the given stack for double faults. *)
Inductive SegmentDescriptor := KernelCode | KernelData | TssSegment (double_fault_stack : Z).

Definition slots (d : SegmentDescriptor) : nat := match d with TssSegment _ => 2 | _ => 1 end.

(** [GlobalDescriptorTable] and [VirtAddr] of the crate [x86_64]: an entry is added behind the others
    while there is room, in a table with 7 slots behind the null descriptor; an address has 48 bits, with its sign. *)
Class SegmentTables := {
  Gdt : Type;
  gdt_new : Gdt;
  add_entry : SegmentDescriptor -> Gdt -> option (Z * Gdt);
  entry_of : Gdt -> Z -> option SegmentDescriptor;
  room : Gdt -> nat;
  virt_addr_new : Z -> option Z;
  gdt_new_room : room gdt_new = 7%nat;
  add_entry_ok d g : (slots d <= room g)%nat -> exists sel g', add_entry d g = Some (sel, g') /\ room g' = (room g - slots d)%nat /\
    entry_of g sel = None /\ entry_of g' sel = Some d /\ forall sel' e, entry_of g sel' = Some e -> entry_of g' sel' = Some e;
  virt_addr_new_ok a : 0 <= a < 2 ^ 47 -> virt_addr_new a = Some a
}.

(** The segment registers, the task register and the descriptor table that the processor uses *)
Record Segments {T : Type} := { seg_ds : Z; seg_es : Z; seg_fs : Z; seg_gs : Z; seg_cs : Z; seg_ss : Z; seg_tr : Z; seg_gdt : T }.
Arguments Segments : clear implicits.

(** ** State *)

(** What the ACPI tables say; [acpi_info] is [AcpiTables::from_rsdp(..)] and [platform_info()] on the memory. *)
Record Acpi := { acpi_apic : option Apic; acpi_timer : option PmTimer; acpi_processors : option ProcessorInfo }.

Class AcpiCrate := { acpi_info : (Z -> Z) -> Z -> option Acpi }.

(** [SerialPort::init] of the crate [uart_16550] *)
Class SerialPort (H : Type) := { serial_init : H -> H }.

Section boot.
Context {H : Type} `{HP : PortIO H} `{HM : Mmio H} `{HU : SerialPort H} `{HX : X64Addr} `{HF : BitField} `{HV : Heapless}.
Context `{HG : SegmentTables} `{HT : PageTableEntries} `{HA : AcpiCrate}.

Record Kernel := {
  machine : Machine H;
  logger_set : bool;
  segments : option (Segments Gdt);
  kernel_segments : option (Z * Z);
  page_tables : option (Z * Tables);
  platform_info : option Acpi;
  cpu_info : option (@SystemInfo unit);
  active_idt : option (gmap Z IdtEntry);
  boot_cpu : CpuState;
  scheduler : option System;
  pci_devices : option (list Device);
  blocks : option (list BlockAt)
}.

(** The statics, and the first processor, before the start *)
Definition kernel_start (m : Machine H) (flag : bool) : Kernel :=
  {| machine := m; logger_set := false; segments := None; kernel_segments := None; page_tables := None; platform_info := None; cpu_info := None;
     active_idt := None; boot_cpu := cpu_new flag; scheduler := None; pci_devices := None; blocks := None |}.

Local Abbreviation KM := (M Kernel string).

(** [expect] on a static *)
Definition expect {A} (f : Kernel -> option A) (msg : string) : KM A := fun k =>
  match f k with Some a => (Ok a, k) | None => (Err msg, k) end.

(** A panic that is not one of these *)
Definition or_panic {A} (f : Kernel -> option (A * Kernel)) : KM A := fun k =>
  match f k with Some (a, k') => (Ok a, k') | None => (Panic, k) end.

Definition set_machine (m : Machine H) (k : Kernel) : Kernel :=
  {| machine := m; logger_set := logger_set k; segments := segments k; kernel_segments := kernel_segments k; page_tables := page_tables k; platform_info :=
     platform_info k; cpu_info := cpu_info k; active_idt := active_idt k; boot_cpu := boot_cpu k; scheduler := scheduler k; pci_devices := pci_devices k;
     blocks := blocks k |}.

Definition set_logger  (k : Kernel) : Kernel :=
  {| machine := machine k; logger_set := true; segments := segments k; kernel_segments := kernel_segments k; page_tables := page_tables k; platform_info :=
     platform_info k; cpu_info := cpu_info k; active_idt := active_idt k; boot_cpu := boot_cpu k; scheduler := scheduler k; pci_devices := pci_devices k;
     blocks := blocks k |}.

Definition set_segments (x : Segments Gdt) (k : Kernel) : Kernel :=
  {| machine := machine k; logger_set := logger_set k; segments := Some x; kernel_segments := Some (seg_cs x, seg_ss x); page_tables := page_tables k;
     platform_info := platform_info k; cpu_info := cpu_info k; active_idt := active_idt k; boot_cpu := boot_cpu k; scheduler := scheduler k; pci_devices :=
     pci_devices k; blocks := blocks k |}.

Definition set_page_tables (t : Z * Tables) (k : Kernel) : Kernel :=
  {| machine := machine k; logger_set := logger_set k; segments := segments k; kernel_segments := kernel_segments k; page_tables := Some t; platform_info
     := platform_info k; cpu_info := cpu_info k; active_idt := active_idt k; boot_cpu := boot_cpu k; scheduler := scheduler k; pci_devices := pci_devices
     k; blocks := blocks k |}.

Definition set_platform_info (a : Acpi) (k : Kernel) : Kernel :=
  {| machine := machine k; logger_set := logger_set k; segments := segments k; kernel_segments := kernel_segments k; page_tables := page_tables k;
     platform_info := Some a; cpu_info := cpu_info k; active_idt := active_idt k; boot_cpu := boot_cpu k; scheduler := scheduler k; pci_devices :=
     pci_devices k; blocks := blocks k |}.

Definition set_cpu_info (i : @SystemInfo unit) (k : Kernel) : Kernel :=
  {| machine := machine k; logger_set := logger_set k; segments := segments k; kernel_segments := kernel_segments k; page_tables := page_tables k;
     platform_info := platform_info k; cpu_info := Some i; active_idt := active_idt k; boot_cpu := boot_cpu k; scheduler := scheduler k; pci_devices :=
     pci_devices k; blocks := blocks k |}.

Definition set_idt (t : gmap Z IdtEntry) (k : Kernel) : Kernel :=
  {| machine := machine k; logger_set := logger_set k; segments := segments k; kernel_segments := kernel_segments k; page_tables := page_tables k;
     platform_info := platform_info k; cpu_info := cpu_info k; active_idt := Some t; boot_cpu := boot_cpu k; scheduler := scheduler k; pci_devices :=
     pci_devices k; blocks := blocks k |}.

Definition set_boot_cpu (c : CpuState) (k : Kernel) : Kernel :=
  {| machine := machine k; logger_set := logger_set k; segments := segments k; kernel_segments := kernel_segments k; page_tables := page_tables k;
     platform_info := platform_info k; cpu_info := cpu_info k; active_idt := active_idt k; boot_cpu := c; scheduler := scheduler k; pci_devices :=
     pci_devices k; blocks := blocks k |}.

Definition set_scheduler (x : System) (k : Kernel) : Kernel :=
  {| machine := machine k; logger_set := logger_set k; segments := segments k; kernel_segments := kernel_segments k; page_tables := page_tables k;
     platform_info := platform_info k; cpu_info := cpu_info k; active_idt := active_idt k; boot_cpu := boot_cpu k; scheduler := Some x; pci_devices :=
     pci_devices k; blocks := blocks k |}.

Definition set_pci_devices (l : list Device) (k : Kernel) : Kernel :=
  {| machine := machine k; logger_set := logger_set k; segments := segments k; kernel_segments := kernel_segments k; page_tables := page_tables k;
     platform_info := platform_info k; cpu_info := cpu_info k; active_idt := active_idt k; boot_cpu := boot_cpu k; scheduler := scheduler k; pci_devices :=
     Some l; blocks := blocks k |}.

Definition set_blocks (l : list BlockAt) (k : Kernel) : Kernel :=
  {| machine := machine k; logger_set := logger_set k; segments := segments k; kernel_segments := kernel_segments k; page_tables := page_tables k;
     platform_info := platform_info k; cpu_info := cpu_info k; active_idt := active_idt k; boot_cpu := boot_cpu k; scheduler := scheduler k; pci_devices :=
     pci_devices k; blocks := Some l |}.

Definition on_machine {A} (m : M (Machine H) string A) : KM A := fun k =>
  let '(o, s) := m (machine k) in (o, set_machine s k).

(** ** The components *)

(** [x64::interrupts::enable()] *)
Definition enable_interrupts : KM unit := fun k =>
  let x := boot_cpu k in
  (Ok tt, set_boot_cpu {| running_task := running_task x; hart := {| thread_state := thread_state (hart x); enabled := true |}; at_ := at_ x |} k).

Definition on_hart (f : Hart -> option Hart) : KM unit := or_panic (fun k =>
  let x := boot_cpu k in
  h ← f (hart x);
  Some (tt, set_boot_cpu {| running_task := running_task x; hart := h; at_ := at_ x |} k)).

(** [logger::register]: [set_logger] fails when there is a logger. *)
Definition logger_register : KM unit := or_panic (fun k => if logger_set k then None else Some (tt, set_logger k)).

Definition STACK_SIZE : Z := 4096 * 5.

(** [segmentation::initialize]; [stack] is the address of the stack for double faults. *)
Definition segmentation_initialize (stack : Z) : KM unit := or_panic (fun k =>
  stack_start ← virt_addr_new stack;
  stack_end ← add_checked 64 stack_start STACK_SIZE;
  stack_end ← virt_addr_new stack_end;
  '(code_selector, gdt) ← add_entry KernelCode gdt_new;
  '(data_selector, gdt) ← add_entry KernelData gdt;
  '(tss_selector, gdt) ← add_entry (TssSegment stack_end) gdt;
  Some (tt, set_segments {| seg_ds := 0; seg_es := 0; seg_fs := 0; seg_gs := 0; seg_cs := code_selector; seg_ss := data_selector;
                            seg_tr := tss_selector; seg_gdt := gdt |} k)).

(** [paging::initialize] *)
Definition paging_initialize (st : Statics) : KM unit := or_panic (fun k =>
  t ← initialize_identity_mapping st;
  Some (tt, set_page_tables t k)).

(** [frame_manager().initialize(mm)] *)
Definition frame_manager_initialize (mm : list PhysMemory.Descriptor) : KM unit := or_panic (fun k =>
  fm ← PhysMemory.initialize (manager (machine k)) mm;
  Some (tt, set_machine {| devices := devices (machine k); manager := fm; ram := ram (machine k) |} k)).

(** [acpi::initialize] *)
Definition acpi_initialize (rsdp : Z) : KM unit := or_panic (fun k =>
  match platform_info k with
  | Some _ => Some (tt, k)
  | None => a ← acpi_info (ram (machine k)) rsdp; Some (tt, set_platform_info a k)
  end).

Definition get_platform_info : KM Acpi := expect platform_info "acpi::platform_info is called before acpi::initialize".

(** [cpu::initialize]: [processor_info] and [apic_info] panic when the tables do not have them. *)
Definition cpu_initialize : KM unit := fun k =>
  match cpu_info k with
  | Some _ => (Ok tt, k)
  | None => (p <- get_platform_info ;;
             or_panic (fun k =>
               processors ← acpi_processors p;
               i ← system_info tt processors;
               _ ← acpi_apic p;
               Some (tt, set_cpu_info i k))) k
  end.

(** [interrupts::initialize] *)
Definition interrupts_initialize (fuel : nat) : KM unit :=
  p <- get_platform_info ;;
  k <- mget ;;
  idt <- on_machine (on_devices (Interrupts.initialize fuel
    {| interrupt_model := acpi_apic p; pm_timer_info := acpi_timer p; boot_lapic_id := lapic_id (cpu_info k) boot_strap |})) ;;
  or_panic (fun k => Some (tt, set_idt idt k)).

(** [task::initialize_scheduler] *)
Definition initialize_scheduler : KM unit := or_panic (fun k =>
  match scheduler k with
  | Some _ => Some (tt, k)
  | None => Some (tt, set_scheduler (scheduler_new []) k)
  end).

(** [pci::initialize_devices] *)
Definition pci_initialize : KM unit := fun k =>
  match pci_devices k with
  | Some _ => (Ok tt, k)
  | None => (l <- on_machine (infallible (on_devices initialize_devices)) ;; or_panic (fun k => Some (tt, set_pci_devices l k))) k
  end.

(** [block::initialize] *)
Definition block_initialize : KM unit := fun k =>
  match blocks k with
  | Some _ => (Ok tt, k)
  | None =>
      (ds <- expect pci_devices "pci::devices is called before pci::initialize_devices" ;;
       k <- mget ;;
       l <- on_machine (block_scan (cpu_info k) 8 ds) ;;
       or_panic (fun k => Some (tt, set_blocks l k))) k
  end.

Definition serial_initialize : KM unit :=
  on_machine (infallible (on_devices (fun h => (Ok tt, serial_init h)))).

Definition with_cpus (l : list CpuState) (s : System) : System :=
  {| queue := queue s; queue_lock := queue_lock s; task_id_gen := task_id_gen s; contexts := contexts s; cpus := l; ticks := Scheduler.ticks s |}.

(** [task::scheduler().add(priority, ..)] on the first processor; [Context::new] asks for the segments. *)
Definition scheduler_add (p : Priority) : KM unit :=
  s <- expect scheduler "task::scheduler is called before task::initialize_scheduler" ;;
  expect kernel_segments "segmentation::cs is called before segmentation::initialize" ;;;
  or_panic (fun k =>
    s' ← Scheduler.add 0 p (with_cpus [boot_cpu k] s);
    x ← cpus s' !! 0%nat;
    Some (tt, set_boot_cpu x (set_scheduler s' k))).

(** [console::initialize]: the tasks of the output and of the input *)
Definition console_initialize : KM unit := scheduler_add MAX ;;; scheduler_add MAX.

(** ** [kernel_main2] up to its last loop

    [stack] and [st] are the addresses of the stack for double faults and of the page tables. *)
Definition kernel_main2 (fuel : nat) (stack : Z) (st : Statics) (mm : list PhysMemory.Descriptor) (rsdp : Z) : KM unit :=
  enable_interrupts ;;;
  on_hart cli_new ;;;
  logger_register ;;;
  segmentation_initialize stack ;;;
  paging_initialize st ;;;
  frame_manager_initialize mm ;;;
  acpi_initialize rsdp ;;;
  cpu_initialize ;;;
  interrupts_initialize fuel ;;;
  initialize_scheduler ;;;
  pci_initialize ;;;
  block_initialize ;;;
  serial_initialize ;;;
  console_initialize ;;;
  scheduler_add L1 ;;;
  on_hart cli_drop.

(** ** Lemmas *)

(** [m] does not use a static before it is set; what it leaves when it returns is in [Q];
    under [P] it returns. *)
Definition ordered {A} (P : Prop) (m : KM A) (k : Kernel) (Q : A -> Kernel -> Prop) : Prop :=
  match m k with (Ok a, k') => Q a k' | (Err _, _) => False | _ => ~ P end.

Lemma ordered_bind {A B} P (m : KM A) (f : A -> KM B) k Q : ordered P m k (fun a k' => ordered P (f a) k' Q) -> ordered P (mbnd m f) k Q.
Proof. unfold ordered, mbnd. by destruct (m k) as [[a|e| |] k']. Qed.

Lemma ordered_Some {A} P (f : Kernel -> option (A * Kernel)) k a k' (Q : A -> Kernel -> Prop) : f k = Some (a, k') -> Q a k' -> ordered P (or_panic f) k Q.
Proof. intros Hf HQ. unfold ordered, or_panic. by rewrite Hf. Qed.

Lemma ordered_panic {A} (P : Prop) (f : Kernel -> option (A * Kernel)) k (Q : A -> Kernel -> Prop) :
  (forall a k', f k = Some (a, k') -> Q a k') -> (P -> is_Some (f k)) -> ordered P (or_panic f) k Q.
Proof. intros HQ HP0. unfold ordered, or_panic. destruct (f k) as [[a k']|]; [by apply HQ|]. by intros [? ?]%HP0. Qed.

Lemma ordered_expect {A} P (f : Kernel -> option A) msg k a (Q : A -> Kernel -> Prop) : f k = Some a -> Q a k -> ordered P (expect f msg) k Q.
Proof. intros Hf HQ. unfold ordered, expect. by rewrite Hf. Qed.

Lemma ordered_machine {A} (P : Prop) (m : M (Machine H) string A) k (Q : A -> Kernel -> Prop) :
  (forall a s, m (machine k) = (Ok a, s) -> Q a (set_machine s k)) -> (forall e, (m (machine k)).1 <> Err e) ->
  (P -> exists a s, m (machine k) = (Ok a, s)) -> ordered P (on_machine m) k Q.
Proof.
  intros HQ He HP0. unfold ordered, on_machine. destruct (m (machine k)) as [[a|e| |] s] eqn:E0; [by apply HQ|by destruct (He e)|..]; by intros (? & ? & ?)%HP0.
Qed.

(** The state with other devices *)
Definition with_devices (h : H) (s : Machine H) : Machine H := {| devices := h; manager := manager s; ram := ram s |}.

Lemma ordered_devices {A} (P : Prop) (m : M H string A) k (Q : A -> Kernel -> Prop) :
  (forall a h, m (devices (machine k)) = (Ok a, h) -> Q a (set_machine (with_devices h (machine k)) k)) -> (forall e, (m (devices (machine k))).1 <> Err e) ->
  (P -> exists a h, m (devices (machine k)) = (Ok a, h)) -> ordered P (on_machine (on_devices m)) k Q.
Proof.
  intros HQ He HP0. apply ordered_machine; unfold on_devices.
  - intros a s Hs. destruct (m (devices (machine k))) as [o h] eqn:Hm. injection Hs as -> <-. by apply HQ.
  - intros e. specialize (He e). by destruct (m (devices (machine k))) as [o h].
  - intros (a & h & Hm)%HP0. rewrite Hm. by eexists _, _.
Qed.

Lemma ordered_infallible {A} (P : Prop) (m : M H Empty_set A) k (Q : A -> Kernel -> Prop) :
  (forall a h, m (devices (machine k)) = (Ok a, h) -> Q a (set_machine (with_devices h (machine k)) k)) ->
  (P -> exists a h, m (devices (machine k)) = (Ok a, h)) -> ordered P (on_machine (infallible (on_devices m))) k Q.
Proof.
  intros HQ HP0. apply ordered_machine; unfold infallible, mmap_err, on_devices.
  - intros a s Hs. destruct (m (devices (machine k))) as [[b|[]| |] h] eqn:Hm; try discriminate. injection Hs as -> <-. by apply HQ.
  - intros e. by destruct (m (devices (machine k))) as [[b|[]| |] h].
  - intros (a & h & Hm)%HP0. rewrite Hm. by eexists _, _.
Qed.

(** The scheduler with the state of the first processor *)
Definition scheduler_view (k : Kernel) : option System :=
  with_cpus [boot_cpu k] <$> scheduler k.

(** The three tasks, added to a fresh scheduler on one processor with interrupts enabled *)
Definition three_tasks : option System :=
  s ← Scheduler.add 0 MAX (scheduler_new [true]);
  s ← Scheduler.add 0 MAX s;
  Scheduler.add 0 L1 s.

Definition segments_ok (stack : Z) (k : Kernel) : Prop := exists x,
  segments k = Some x /\ kernel_segments k = Some (seg_cs x, seg_ss x) /\
  entry_of (seg_gdt x) (seg_cs x) = Some KernelCode /\ entry_of (seg_gdt x) (seg_ss x) = Some KernelData /\
  entry_of (seg_gdt x) (seg_tr x) = Some (TssSegment (stack + STACK_SIZE)) /\
  seg_ds x = 0 /\ seg_es x = 0 /\ seg_fs x = 0 /\ seg_gs x = 0.

(** All frames of the queues belong to the memory map. *)
Definition blocks_in_map (mm : list PhysMemory.Descriptor) (bs : list BlockAt) : Prop :=
  Forall (fun b => let q := ba_requestq b in
    forall f, at_frame q <= f < at_frame q + num_frames (compute_layout (at_size q)) -> in_map mm f = true) bs.

Definition memory_map_ok (mm : list PhysMemory.Descriptor) : Prop :=
  sorted_from 0 mm /\ 4096 <= memory_end 0 mm <= MAX_PHYSICAL_MEMORY_BYTES.

Lemma manager_initialized mm : memory_map_ok mm -> exists fm, PhysMemory.initialize PhysMemory.new mm = Some fm /\ wf fm /\
  forall f n, free_run fm f n -> forall g, f <= g < f + n -> in_map mm g = true.
Proof.
  assert (Hnew : Forall u64 (alloc_map PhysMemory.new)).
  { unfold PhysMemory.new. cbn [alloc_map]. apply Forall_replicate. unfold unsigned. lia. }
  intros (Hs & Hlo & Hhi). assert (Hlen : zlen (alloc_map PhysMemory.new) = MAP_LINE_COUNT) by (unfold PhysMemory.new; cbn [alloc_map]; rewrite length_replicate; apply Z2Nat.id; vm_compute; discriminate).
  destruct (initialize_spec PhysMemory.new mm) as (fm & Hi & Hb & He & Hl & Hu & Hg); [done|unfold MAX_PHYSICAL_MEMORY_BYTES in *; lia|rewrite Hlen; exact Hhi|].
  exists fm. split; [exact Hi|]. unfold PhysMemory.FRAME_SIZE in *.
  pose proof (Z.div_le_lower_bound (memory_end 0 mm) 4096 1 ltac:(lia) ltac:(lia)) as H1.
  assert (H2 : memory_end 0 mm / 4096 <= BITS_PER_MAP_LINE * MAP_LINE_COUNT).
  { change (BITS_PER_MAP_LINE * MAP_LINE_COUNT) with (MAX_PHYSICAL_MEMORY_BYTES / 4096). by apply Z.div_le_mono; [lia|]. }
  split.
  - split_and!; [lia..| |]; [rewrite Hl, Hlen, He; exact H2|]. exact (Hu Hnew).
  - intros f n (Hf1 & Hf2 & Hfree) g Hr. specialize (Hfree g Hr). rewrite Hg in Hfree by lia.
    apply orb_false_iff in Hfree as [_ Hn]. exact (proj1 (negb_false_iff _) Hn).
Qed.

Lemma segmentation_ok P stack k Q : 0 <= stack -> stack + STACK_SIZE < 2 ^ 47 ->
  (forall x, entry_of (seg_gdt x) (seg_cs x) = Some KernelCode -> entry_of (seg_gdt x) (seg_ss x) = Some KernelData ->
    entry_of (seg_gdt x) (seg_tr x) = Some (TssSegment (stack + STACK_SIZE)) -> seg_ds x = 0 -> seg_es x = 0 -> seg_fs x = 0 -> seg_gs x = 0 ->
    Q tt (set_segments x k)) -> ordered P (segmentation_initialize stack) k Q.
Proof.
  intros H0 H1 HQ. unfold STACK_SIZE in *.
  destruct (add_entry_ok KernelCode gdt_new) as (c & g1 & E1 & R1 & _ & N1 & _); [rewrite gdt_new_room; cbn; lia|]. rewrite gdt_new_room in R1. cbn in R1.
  destruct (add_entry_ok KernelData g1) as (d & g2 & E2 & R2 & _ & N2 & K2); [rewrite R1; cbn; lia|]. rewrite R1 in R2. cbn in R2.
  destruct (add_entry_ok (TssSegment (stack + 4096 * 5)) g2) as (t & g3 & E3 & _ & _ & N3 & K3); [rewrite R2; cbn; lia|].
  eapply ordered_Some.
  - unfold STACK_SIZE. rewrite virt_addr_new_ok by lia. cbn [mbind option_bind]. unfold add_checked. rewrite checked_Some by (unfold unsigned; lia).
    cbn [mbind option_bind]. rewrite virt_addr_new_ok by lia. cbn [mbind option_bind]. rewrite E1. cbn [mbind option_bind]. rewrite E2. cbn [mbind option_bind]. rewrite E3. reflexivity.
  - apply HQ; cbn; auto.
Qed.

(** The first processor inside of [Cli] *)
Definition cli_cpu : CpuState := {| running_task := None; hart := {| thread_state := {| ncli := 1; zcli := false |}; enabled := false |}; at_ := Running |}.

(** Inside of [Cli] the tasks are added as without it. *)
Lemma three_tasks_boot : let add p s := default s (Scheduler.add 0 p s) in
  let a := add MAX (with_cpus [cli_cpu] (scheduler_new [])) in let b := add MAX a in let c := add L1 b in
  Scheduler.add 0 MAX (with_cpus [cli_cpu] (scheduler_new [])) = Some a /\ Scheduler.add 0 MAX a = Some b /\ Scheduler.add 0 L1 b = Some c /\
  with_cpus [cli_cpu] a = a /\ with_cpus [cli_cpu] b = b /\ cpus a = [cli_cpu] /\ cpus b = [cli_cpu] /\ cpus c = [cli_cpu] /\
  three_tasks = Some (with_cpus [cpu_new true] c).
Proof. intros add a b c. split_and!; vm_compute; reflexivity. Qed.

Lemma scheduler_add_ok P p k s s' x (Q : unit -> Kernel -> Prop) : scheduler k = Some s -> is_Some (kernel_segments k) ->
  Scheduler.add 0 p (with_cpus [boot_cpu k] s) = Some s' -> cpus s' = [x] -> Q tt (set_boot_cpu x (set_scheduler s' k)) -> ordered P (scheduler_add p) k Q.
Proof.
  intros Hs [g Hg] Ha Hc HQ. apply ordered_bind. eapply ordered_expect; [exact Hs|]. apply ordered_bind. eapply ordered_expect; [exact Hg|].
  eapply ordered_Some; [|exact HQ]. rewrite Ha. cbn [mbind option_bind]. rewrite Hc. reflexivity.
Qed.

(** The end of [kernel_main2], from the console on *)
Lemma tasks_added P k (Q : unit -> Kernel -> Prop) : scheduler k = Some (scheduler_new []) -> is_Some (kernel_segments k) -> boot_cpu k = cli_cpu ->
  (forall k', scheduler_view k' = three_tasks -> machine k' = machine k -> segments k' = segments k -> kernel_segments k' = kernel_segments k ->
    page_tables k' = page_tables k -> active_idt k' = active_idt k -> blocks k' = blocks k -> Q tt k') ->
  ordered P (console_initialize ;;; scheduler_add L1 ;;; on_hart cli_drop) k Q.
Proof.
  intros Hs Hg Hb HQ. destruct three_tasks_boot as (Ea & Eb & Ec & Wa & Wb & Ca & Cb & Cc & E3). cbn zeta in *.
  apply ordered_bind, ordered_bind. eapply scheduler_add_ok; [exact Hs|exact Hg|rewrite Hb; exact Ea|exact Ca|].
  eapply scheduler_add_ok; [reflexivity|exact Hg|cbn [boot_cpu set_boot_cpu]; rewrite Wa; exact Eb|exact Cb|].
  apply ordered_bind. eapply scheduler_add_ok; [reflexivity|exact Hg|cbn [boot_cpu set_boot_cpu]; rewrite Wb; exact Ec|exact Cc|].
  eapply ordered_Some; [reflexivity|]. apply HQ; reflexivity.
Qed.

Definition booted (stack : Z) (st : Statics) (mm : list PhysMemory.Descriptor) (k : Kernel) : Prop :=
  scheduler_view k = three_tasks /\ segments_ok stack k /\
  (exists t, page_tables k = Some (pml4_at st, t) /\ initialize_identity_mapping st = Some (pml4_at st, t)) /\
  active_idt k = prepare_idt /\
  exists fm bs, PhysMemory.initialize PhysMemory.new mm = Some fm /\ blocks k = Some bs /\
    blocks_ok fm (manager (machine k)) bs /\ blocks_in_map mm bs.

(** What [interrupts::initialize] reads of the tables and of [SYSTEM_INFO] *)
Definition interrupt_tables (a : Acpi) (i : @SystemInfo unit) : PlatformInfo :=
  {| interrupt_model := acpi_apic a; pm_timer_info := acpi_timer a; boot_lapic_id := lapic_id (Some i) boot_strap |}.

(** The tables describe the processors and an APIC, and, starting in [s], the interrupt controllers, the PCI bus and the block
    devices let [interrupts::initialize], [pci::initialize_devices] and [Block::from_pci_device] return. *)
Definition devices_start (fuel : nat) (a : Acpi) (s : Machine H) : Prop := exists procs i t h1 ds h2 bs s3,
  acpi_processors a = Some procs /\ system_info tt procs = Some i /\ is_Some (acpi_apic a) /\
  Interrupts.initialize fuel (interrupt_tables a i) (devices s) = (Ok t, h1) /\
  initialize_devices (E := Empty_set) h1 = (Ok ds, h2) /\
  block_scan (Some i) 8 ds (with_devices h2 s) = (Ok bs, s3).

(** The ACPI tables can be read, and the devices start with the memory map [mm]. *)
Definition hardware_starts (fuel : nat) (mm : list PhysMemory.Descriptor) (rsdp : Z) (m : Machine H) : Prop := exists a fm,
  acpi_info (ram m) rsdp = Some a /\ PhysMemory.initialize PhysMemory.new mm = Some fm /\
  devices_start fuel a {| devices := devices m; manager := fm; ram := ram m |}.

Lemma interrupts_idt fuel p (h h' : H) (t : gmap Z IdtEntry) : Interrupts.initialize fuel p h = (Ok t, h') -> prepare_idt = Some t.
Proof.
  unfold Interrupts.initialize, mbnd. destruct prepare_idt as [u|]; cbn [munwrap ret mpanic]; [|done].
  intros Hr. repeat (match type of Hr with context [match ?m ?s with _ => _ end] => destruct (m s) as [[?|?| |] ?]; try done end). unfold ret in Hr. congruence.
Qed.

Section order.
Context `{HW : !PortWidth H}.

Lemma cpu_initialize_ok (P : Prop) k a (Q : unit -> Kernel -> Prop) : cpu_info k = None -> platform_info k = Some a ->
  (forall procs i, acpi_processors a = Some procs -> system_info tt procs = Some i -> is_Some (acpi_apic a) -> Q tt (set_cpu_info i k)) ->
  (P -> exists procs i, acpi_processors a = Some procs /\ system_info tt procs = Some i /\ is_Some (acpi_apic a)) -> ordered P cpu_initialize k Q.
Proof.
  intros Hc Ha HQ HP0. unfold ordered, cpu_initialize. rewrite Hc. apply (ordered_bind P get_platform_info). eapply ordered_expect; [exact Ha|].
  apply ordered_panic.
  - intros [] k' Hk. apply bind_Some in Hk as (p & H1 & Hk). apply bind_Some in Hk as (i & H2 & Hk). apply bind_Some in Hk as (? & H3 & [= <-]). by eapply HQ.
  - intros (procs & i & H1 & H2 & x & H3)%HP0. rewrite H1. cbn [mbind option_bind]. rewrite H2. cbn [mbind option_bind]. rewrite H3. by eexists.
Qed.

Lemma ordered_get {A} P (f : Kernel -> KM A) k Q : ordered P (f k) k Q -> ordered P (mbnd mget f) k Q.
Proof. done. Qed.

Lemma interrupts_initialize_ok (P : Prop) fuel k a i (Q : unit -> Kernel -> Prop) : platform_info k = Some a -> cpu_info k = Some i ->
  (forall t h, Interrupts.initialize fuel (interrupt_tables a i) (devices (machine k)) = (Ok t, h) -> Q tt (set_idt t (set_machine (with_devices h (machine k)) k))) ->
  (P -> exists t h, Interrupts.initialize fuel (interrupt_tables a i) (devices (machine k)) = (Ok t, h)) -> ordered P (interrupts_initialize fuel) k Q.
Proof.
  intros Ha Hi HQ HP0. apply ordered_bind. eapply ordered_expect; [exact Ha|]. apply ordered_get, ordered_bind. rewrite Hi. apply ordered_devices.
  - intros t h Hh. eapply ordered_Some; [reflexivity|]. by apply HQ.
  - apply initialize_set. by eexists.
  - exact HP0.
Qed.

Lemma pci_initialize_ok (P : Prop) k (Q : unit -> Kernel -> Prop) : pci_devices k = None ->
  (forall l h, initialize_devices (E := Empty_set) (devices (machine k)) = (Ok l, h) -> Q tt (set_pci_devices l (set_machine (with_devices h (machine k)) k))) ->
  (P -> exists l h, initialize_devices (E := Empty_set) (devices (machine k)) = (Ok l, h)) -> ordered P pci_initialize k Q.
Proof.
  intros Hp HQ HP0. unfold ordered, pci_initialize. rewrite Hp. apply (ordered_bind P (on_machine _)).
  apply ordered_infallible; [|exact HP0]. intros l h Hl. eapply ordered_Some; [reflexivity|]. by apply HQ.
Qed.

Lemma block_initialize_ok (P : Prop) k i ds (Q : unit -> Kernel -> Prop) : blocks k = None -> pci_devices k = Some ds -> cpu_info k = Some i -> wf (manager (machine k)) ->
  (forall l s, blocks_ok (manager (machine k)) (manager s) l -> Q tt (set_blocks l (set_machine s k))) ->
  (P -> exists l s, block_scan (Some i) 8 ds (machine k) = (Ok l, s)) -> ordered P block_initialize k Q.
Proof.
  intros Hb Hp Hi W HQ HP0. unfold ordered, block_initialize. rewrite Hb. apply (ordered_bind P (expect pci_devices _)). eapply ordered_expect; [exact Hp|].
  apply ordered_get, ordered_bind. rewrite Hi. apply ordered_machine; [|intros e; by apply block_scan_set|exact HP0].
  intros l s Hs. eapply ordered_Some; [reflexivity|]. apply HQ.
  assert (Hok : blocks_ok (manager (machine k)) (manager (machine k)) []).
  { split_and!; [by apply grows_refl|cbn; lia|by apply List.Forall_nil|done]. }
  destruct (block_scan_guarded (Some i) 8 (manager (machine k)) ds W ltac:(lia) [] (machine k) Hok) as [Hg _].
  unfold block_scan in Hs. unfold guarded in Hg. by rewrite Hs in Hg.
Qed.

Definition lasting (k k' : Kernel) : Prop :=
  segments k' = segments k /\ kernel_segments k' = kernel_segments k /\ page_tables k' = page_tables k.

(** From [cpu::initialize] on *)
Lemma components_started fuel k a : cpu_info k = None -> platform_info k = Some a -> scheduler k = None -> pci_devices k = None -> blocks k = None ->
  boot_cpu k = cli_cpu -> is_Some (kernel_segments k) -> wf (manager (machine k)) ->
  ordered (devices_start fuel a (machine k)) (cpu_initialize ;;; interrupts_initialize fuel ;;; initialize_scheduler ;;; pci_initialize ;;; block_initialize ;;; serial_initialize ;;;
    console_initialize ;;; scheduler_add L1 ;;; on_hart cli_drop) k
    (fun _ k' => lasting k k' /\ scheduler_view k' = three_tasks /\ active_idt k' = prepare_idt /\
      exists bs, blocks k' = Some bs /\ blocks_ok (manager (machine k)) (manager (machine k')) bs).
Proof.
  intros Hc Ha Hs Hp Hb Hcpu Hg W.
  apply ordered_bind. eapply cpu_initialize_ok; [done|done| |intros (procs & i & ? & ? & ? & ? & ? & ? & ? & ? & ? & ?); by exists procs, i]. intros procs i Hpr Hsi Hap.
  apply ordered_bind. eapply (interrupts_initialize_ok _ _ _ a i); [done|done| |].
  2: { intros (pr & i' & t & h1 & ? & ? & ? & ? & ? & ? & ? & ? & _). simplify_eq. by eexists _, _. }
  intros t h1 Hint. apply ordered_bind. eapply ordered_Some; [cbn [scheduler set_idt set_machine set_cpu_info]; rewrite Hs; reflexivity|].
  apply ordered_bind. apply pci_initialize_ok; [done| |].
  2: { intros (pr & i' & t' & h1' & ds & h2 & ? & ? & ? & ? & ? & Hi & Hpci & _). simplify_eq. pose proof (eq_trans (eq_sym Hint) Hi) as [= -> ->]. by eexists _, _. }
  intros ds h2 Hpci. apply ordered_bind. eapply (block_initialize_ok _ _ i ds); [done|done|done|exact W| |].
  2: { intros (pr & i' & t' & h1' & ds' & h2' & bs & s3 & ? & ? & ? & Hi & Hpc & Hbs). simplify_eq. pose proof (eq_trans (eq_sym Hint) Hi) as [= -> ->].
       pose proof (eq_trans (eq_sym Hpci) Hpc) as [= -> ->]. by eexists _, _. }
  intros bs s3 H3. apply ordered_bind. apply ordered_infallible; [|intros _; by eexists _, _]. intros [] h4 H4.
  eapply tasks_added; [reflexivity|done|done|]. intros k' Hv Hm Hseg Hks Hpt Hi Hbl.
  split; [done|]. split; [done|]. split; [rewrite Hi; symmetry; by eapply interrupts_idt|]. exists bs. split; [done|].
  rewrite Hm. exact H3.
Qed.

Lemma kernel_main2_ordered fuel stack st mm rsdp m flag : manager m = PhysMemory.new -> memory_map_ok mm -> statics_ok st -> 0 <= stack -> stack + STACK_SIZE < 2 ^ 47 ->
  ordered (hardware_starts fuel mm rsdp m) (kernel_main2 fuel stack st mm rsdp) (kernel_start m flag) (fun _ k => booted stack st mm k).
Proof.
  intros Hm Hmm Hst Hs0 Hs1. destruct (manager_initialized mm Hmm) as (fm & Hfm & Wfm & Hfree). destruct (initialize_ok st Hst) as (t & Ht & _).
  unfold kernel_main2. apply ordered_bind. unfold ordered at 1, enable_interrupts.
  do 2 (apply ordered_bind; eapply ordered_Some; [reflexivity|]).
  apply ordered_bind, segmentation_ok; [done|done|]. intros x Hcs Hss Htr Hds Hes Hfs Hgs.
  apply ordered_bind. eapply ordered_Some; [rewrite Ht; reflexivity|].
  apply ordered_bind. eapply ordered_Some; [cbn [machine set_page_tables set_segments set_logger set_boot_cpu kernel_start]; rewrite Hm, Hfm; reflexivity|].
  apply ordered_bind, ordered_panic; cbn [platform_info set_machine set_page_tables set_segments set_logger set_boot_cpu kernel_start];
    [|intros (a & ? & Hai & _); cbn; rewrite Hai; by eexists].
  intros [] k5 (ai & Hai & [= <-])%bind_Some.
  match goal with |- ordered _ _ ?k _ => pose proof (components_started fuel k ai eq_refl eq_refl eq_refl eq_refl eq_refl eq_refl ltac:(by eexists) Wfm) as Hk end.
  revert Hk. unfold ordered. match goal with |- match ?r with _ => _ end -> _ => destruct r as [[[]|e| |] k'] end;
    [|done|intros Hn (a & fm' & Ha & Hf & Hd); cbn in Hai; simplify_eq; by apply Hn..].
  intros ((Hseg & Hks & Hpt) & Hv & Hidt & bs & Hbs & Hok). split; [done|]. split; [exists x; by split_and!|]. split; [by exists t|]. split; [done|].
  exists fm, bs. split_and!; try done. destruct Hok as (_ & _ & Ho & _). apply (Forall_impl _ _ _ Ho). intros b [Hf _]. by apply Hfree.
Qed.

End order.

End boot.


(** ** A concrete machine *)

Module Demo.
#[local] Existing Instance x64_checks.
Import BlockInit.Demo.

(** The machine of BlockInit.v with a timer that advances with every read, at the port 0x608 *)
#[export] Instance timed_ports : PortIO (pc * Z) := {
  port_read w p h := if p =? 0x608 then (wrap w h.2, (h.1, h.2 + 100000)) else let '(v, x) := port_read w p h.1 in (v, (x, h.2));
  port_write w p v h := (port_write w p v h.1, h.2) }.

#[export] Instance timed_mmio : Mmio (pc * Z) := {
  mmio_read p h := let '(v, x) := mmio_read p h.1 in (v, (x, h.2));
  mmio_write p v h := (mmio_write p v h.1, h.2) }.

#[export] Instance timed_width : PortWidth (pc * Z).
Proof.
  constructor. intros w p h Hw. cbn [port_read timed_ports]. destruct (p =? 0x608); [apply wrap_narrow; lia|].
  pose proof (port_read_unsigned w p h.1 Hw) as Hu. destruct (port_read w p h.1) as [v x]. exact Hu.
Qed.

#[export] Instance timed_serial : SerialPort (pc * Z) := {| serial_init h := port_write 8 0x3f9 0 h |}.

(** A table with its entries, and the number of slots in use *)
#[export] Instance demo_tables : SegmentTables.
Proof.
  refine {| Gdt := (Z -> option SegmentDescriptor) * nat; gdt_new := (fun _ => None, 0%nat);
    add_entry := fun d g => let sel := 8 * (1 + Z.of_nat g.2) in
      if decide (slots d <= 7 - g.2)%nat then Some (sel, (set g.1 sel (Some d), (g.2 + slots d)%nat)) else None;
    entry_of := fun g sel => if sel <? 8 * (1 + Z.of_nat g.2) then g.1 sel else None;
    room := fun g => (7 - g.2)%nat;
    virt_addr_new := fun a => if (0 <=? a) && (a <? 2 ^ 47) then Some a else None |}.
  - done.
  - intros d [f n] Hr. cbn [fst snd] in *. rewrite decide_True by done. eexists _, _. split; [done|]. cbn [fst snd]. split; [lia|]. split; [by rewrite Z.ltb_irrefl|].
    assert (Hd : (1 <= slots d)%nat) by (destruct d; cbn; lia). split.
    + rewrite (proj2 (Z.ltb_lt _ _)) by lia. unfold set. by rewrite Z.eqb_refl.
    + intros sel e. destruct (Z.ltb_spec sel (8 * (1 + Z.of_nat n))) as [Hl|]; [|done]. intros He. rewrite (proj2 (Z.ltb_lt _ _)) by lia.
      unfold set. by rewrite (proj2 (Z.eqb_neq _ _)) by lia.
  - intros a Ha. by rewrite (proj2 (Z.leb_le _ _)), (proj2 (Z.ltb_lt _ _)) by lia.
Defined.

#[export] Instance demo_acpi : AcpiCrate := {| acpi_info _ _ := Some
  {| acpi_apic := Some {| local_apic_address := 0xfee00000; io_apics := [0xfec00000] |};
     acpi_timer := Some {| pm_port := 0x608; system_io := true; bit_width := 32; supports_32bit := true |};
     acpi_processors := Some {| boot_processor := 0; application_processors := [1] |} |} |}.

(** A host bridge next to the block devices of BlockInit.v; the counter of the local APIC has advanced by 1000 when it is read. *)
Definition bridge_space (a : Z) : Z :=
  if a / 2048 mod 32 =? 0 then (if a mod 256 =? 0 then 0x12378086 else 0) else demo_space a.

Definition demo_machine : Machine (pc * Z) :=
  {| devices := ({| latch := 0; space := bridge_space; ports := fun p => if p mod 4096 =? 0xc then 4 else 0;
                    words := fun a => if a =? 0xfee00390 then 2 ^ 32 - 1001 else 1 |}, 0);
     manager := PhysMemory.new; ram := fun _ => 0 |}.

(** 1 MiB of memory from the third frame on *)
Definition demo_map : list PhysMemory.Descriptor := [mkDescriptor 0x3000 0x103000].

Lemma demo_map_ok : memory_map_ok demo_map.
Proof. split; [|vm_compute; split; discriminate]. cbn. repeat split; try lia; try reflexivity. Qed.


End Demo.
